(* ===== verification/_CoqProject ===== *)
-Q . S2P
Prelude.v
Text.v
Calendar.v
Errors.v
Framework.v
Transactions.v
Sessions.v
UsageRules.v
UsageLedger.v
UsageApp.v
UsageRace.v
UsageSql.v
Files.v
Keyset.v
Events.v
Wire.v
Cursor.v
FilesStore.v
Binary64.v
Lexical.v
Ranking.v
Tables.v
Chunking.v
Indexing.v
IndexingPass.v
IndexingDemo.v
Retrieval.v
Streams.v
Retention.v
Registries.v
Workflow.v
Engine.v
Delivery.v
Settlement.v
Sweeper.v
StreamsDemo.v
Outbox.v
OutboxDemo.v
Memory.v
MemoryWorker.v
MemoryDemo.v
FilesApp.v
FilesRace.v
FilesDemo.v
ZSets.v
RateLimit.v
WsRegistry.v
Hub.v
HubCluster.v
Knowledge.v
Summarization.v
KnowledgeDb.v
KnowledgeSound.v
KnowledgePorts.v
KnowledgePurges.v
SummaryJobs.v
SummaryWorker.v
SummaryRequests.v
SummaryDemo.v
Conversations.v
ConversationsRace.v
ConversationsApp.v
ConversationsData.v
ConversationsDemo.v
