(* ===== verification/Prelude.v ===== *)
(** * Verification of the AIZZAK backend (root of the development)

    AIZZAK is a multi-tenant backend ([src/src/app]): modules of domain objects,
    application services and SQL adapters ([modules/]), a framework they share
    ([framework/]), adapters to PostgreSQL, Redis, an object store and model providers
    ([infrastructure/]), and worker processes ([workers/]).  The parts modelled here are
    the usage quotas, the files, the events that leave a transaction through an outbox,
    travel on Redis streams and are consumed by workers, the memory module at the end of
    that road, the indexing of documents, the retrieval of their passages and their summaries, the
    conversations, and the registries, the agent lifecycle and the workflow engine of the
    framework.
    Definitions keep the names of the Python code wherever the language allows it; the
    paths below are under [src/src/app].

    ** How the parts interact

    A service opens a unit of work ([Transactions]), changes its tables, and appends the
    events it announces to the outbox table in that same transaction ([UsageApp],
    [FilesApp], [Memory]).  The relay ([Outbox]) publishes the rows of that table on
    streams ([Streams], as JSON text: [Wire]) and marks them.  A worker reads a stream
    ([Engine], [Delivery]), calls a handler ([Memory.memory_index_handler],
    [IndexingPass]) and acknowledges; [Sweeper] removes the readers that died and
    [Retention] trims what every group has consumed.  A pipeline of agents ([Workflow])
    looks its agents up in a registry that plugins fill ([Registries]); what users and
    agents say is kept in threads ([Conversations]).

    ** The files

    Shared ground.
    - [Prelude]: [result] and the state-and-error computation [eff], association lists,
      stable sorting, [unresult] and the other tactics, generic lemmas.
    - [Text], [Calendar], [Binary64], [Errors], [Framework]: Python strings as lists of
      code points; [datetime] as microseconds; [float] by the Standard Library's
      specification of binary64; [framework/errors.py]; execution context and clock.
    - [Keyset], [Cursor]: [framework/pagination.py] and the [_paginate] of the adapters.

    Usage quotas ([modules/usage]).
    - [UsageRules]: [domain/]: value objects, limit evaluation, calendar periods.
    - [UsageLedger]: [ports/] and the SQL adapter; tables are sets of rows.
    - [UsageApp]: the services, against the type class [UsageLedgerRepository].
    - [UsageRace]: contending reservations as a step relation with the advisory lock.
    - [UsageSql]: the adapter satisfies the port's laws; end-to-end properties.

    Files ([modules/files], [framework/di/file_*.py], [space_quota.py]).
    - [Files]: the domain.  [FilesStore]: the table.  [FilesApp]: the services, over a
      world of table, outbox and object store.  [FilesRace]: concurrent replacements.
      [FilesDemo]: the concrete runs used as witnesses.

    Events, streams and workers.
    - [Transactions]: [infrastructure/persistence/rls.py]: a unit of work and the
      sessions that join it; statements and commits may fail.
    - [Events]: the envelope and the outbox record.  [Wire]: UTF-8 and JSON.
    - [Streams]: [infrastructure/messaging/redis_streams.py] over a server that is a
      type class with laws ([StreamServerLaws]); [StreamsDemo] is an instance.
    - [Engine]: [consumers/engine.py] up to [run_once], lanes interleaved.  [Delivery]:
      what a pass does to the messages.  [Settlement]: passes complete, and every message
      is acknowledged or dead-lettered.  [Sweeper]: [consumers/sweeper.py], with other
      processes at work between its commands.
    - [Retention]: [stream_retention.py] and the dead-letter watch.
    - [Outbox], [OutboxDemo]: the outbox table, the relay's cycle and endless loop.
    - [Memory], [MemoryWorker], [MemoryDemo]: [modules/memory], the processed-events
      ledger and the memory worker's handler.

    Indexing and retrieval of documents ([modules/knowledge]).
    - [Tables], [Chunking]: [domain/tables.py], [domain/chunking.py].
    - [Lexical]: [domain/tokenization.py] and [domain/sparse.py].
    - [Indexing], [IndexingPass], [IndexingDemo]: [application/indexing.py] and
      [domain/collections.py].
    - [Ranking]: [domain/fusion.py], [mmr.py], [relevance.py], [context_budget.py].
      [Retrieval]: [application/retrieval.py], from the question to the context.
    - [Knowledge]: the documents, re-index runs, summaries and summary jobs of [domain/].
      [Summarization]: [application/summarization.py], a build over the streams of a model.
      [KnowledgeDb]: the statements of [adapters/sql_repository.py]; [KnowledgeSound]: what
      holds of its tables and that every statement keeps it.  [KnowledgePorts]: the methods
      of the adapter, the ledger, the lock and the event mapping.  [KnowledgePurges]: the
      purges of a space and of a file, six statements against a removal at once.
    - [SummaryJobs]: the use cases about summaries and the worker's handler.
      [SummaryWorker]: deliveries and what they promise, whatever runs beside the calls of a
      build.  [SummaryRequests]: the ceiling on the builds of a workspace.  [SummaryDemo]:
      the witnesses.

    Conversations ([modules/conversations]).
    - [Sessions]: rules for transactions of several statements, used by this module.
    - [Conversations]: domain, tables, adapter, use cases and the inbound service.
    - [ConversationsRace]: requests that read a thread and write later, as a step
      relation over the transactions.  [ConversationsApp]: every use case is a path of
      that relation; what deleted threads answer.  [ConversationsData]: purge, pins,
      reading back, transcripts.  [ConversationsDemo]: the witnesses.

    Agents and workflows ([framework/agent_runtime], [framework/tools],
    [framework/workflows]).
    - [Registries]: agents, plugins, tools and workflow definitions by key.
    - [Workflow]: the lifecycle executor and the sequential engine.

    Admission over Redis ([infrastructure/cache], [api/middleware]).
    - [ZSets]: the sorted sets of the server, as a type class with laws and an instance.
    - [RateLimit]: [redis_rate_limiter.py] and [rate_limit.py], requests of many
      processes as a step relation.
    - [WsRegistry]: [redis_connection_registry.py], the connections of a user across
      processes.  [Hub]: [framework/streaming/], the live sessions of one process and
      their outboxes.  [HubCluster]: many hubs over one registry, interleaved at every
      [await].

    ** What the theorems show

    - Quotas: with the lock, whatever the interleaving, admitted reservations never pass
      a limit and the race is equivalent to a serial order; without it a concrete run
      over-admits; the rollup buckets equal the ledger; a commit charges once.
    - Files: the aggregate's life cycle; a multipart upload that becomes ready has bytes
      of the declared size; completing and announcing are one transaction; the quota
      bounds a space; tenants never see each other's rows; a save is a compare-and-set;
      of files that replace each other the newest survives, and a sweep after the last
      writer leaves exactly one; following cursors visits every row once.
    - Events: decode after encode is the identity; every message read is settled or
      redelivered within its budget; while the server answers and the envelopes are legible,
      every message a worker holds or has not read is acknowledged or dead-lettered after
      finitely many passes; messages of one entity are handled in order; a sweep, and a
      worker that leaves, lose no pending message while others are at work, as long as the
      consumers presumed dead do not wake up; no committed event is lost by the relay, which
      publishes a prefix in order and drains; the memory effect happens once per event.
    - Indexing: what is reported as indexed is in the store, or an error is raised;
      the semantic pass only splits; parents hold their children; every window has its
      own place; texts and rows are neither lost nor invented by windows and tables.
    - Retrieval: what is delivered belongs to the workspace, the space and the documents
      asked for, once each and within its bounds; what the indexer wrote is found and read
      back; fusion keeps the best, diversity is greedy, the relevance filter is fair,
      widening repeats nothing, the budget keeps a prefix; a failing reranker changes
      nothing; the sparse vectors of chunk and question meet on their common terms.
    - Summaries: a build that is told to stop opens no further stream, reports no further
      progress and leaves no stream open; a full summary reads each chunk of its window in
      exactly one call, an overview its spread sample; progress never goes back.  An
      acknowledged request finds its job ended, and a delivery that begins when the job has
      ended writes nothing; no job ends without an event that says how; the jobs of a
      workspace keep its ceiling.
    - Documents: a purge of a space or a file is never refused and leaves nothing of them.
    - Conversations: under any interleaving messages are numbered without a gap, no save
      overwrites another, no thread changes space or comes back from deletion; every use
      case refines that race, lost commits included; deleted threads refuse what would change
      them, a second deletion rewrites the same row; a purge leaves nothing; what a request answers is what is read back; the pages of a
      transcript are the thread.
    - Limits: in no window, wherever it starts, are more requests admitted than the limit;
      a refusal costs nothing and its hint is exact; through the API, lost calls and late
      answers included.
    - Live sessions: over all processes no user has more attended connections than the
      cap, and the sessions attended within the last lifetime are young entries of the
      registry's set; no session misses an announcement of its workspace without being told;
      the hub's coroutines refine the interleaving.
    - Streams: the trimmer removes no entry a group still needs; what is due and missing was
      dropped by the length cap of a later publish.  Agents: an agent is disposed
      exactly once whatever happens; a pipeline stops at its first failure; a broken
      plugin costs nothing but itself.
    - Where the code does something its documentation does not say, the theorem states
      what the code does (for instance [UsageSql.summary_mixes_months],
      [Engine.unhashable_type_escapes], [MemoryDemo.indexing_resurrects_forgotten]).

    ** Bounds and fuel

    - [Keyset] walks take [S (length rows)] pages: each page but the last consumes a row.
    - The JSON scanner has fuel [2 * length + 1]: each call consumes a character or
      descends once; [Wire.published_event_decodes] shows it is enough for every text
      that was printed.
    - [Chunking.word_windows] and the batches of [Indexing] have as fuel the length of
      what they cut; every step removes an element, which the coverage theorems show.
    - Interleavings ([Engine], [FilesRace], [UsageRace]) are explicit schedules or
      step relations, of any length.  The endless loops of the relay and of the consumer
      are runs of any number of cycles.
    - [RateLimit] counts time in the milliseconds of the server; the numbers of its script
      stay below 2^53, where Lua's are exact.
    - [bigint] columns keep their range check; Python integers are unbounded.

    ** What is a parameter, and what is left out

    Type classes and section variables stand for what is outside the repository, with
    the documented behaviour the code relies on as laws: the Redis server, the object
    store, the clock, uuid4/uuid5/uuid7, SHA-256, [str.lower] and Unicode tables,
    collation, the embedding provider and the vector store, [str] of containers.  PostgreSQL
    statements are modelled by their meaning on tables, with the constraints of the
    migrations; the isolation level by which steps may interleave.  Not modelled: human
    message texts, logs, metrics and heartbeats; textual canonicalisation of uuids; the
    parsers and every HTTP, websocket, agent, provider, settings and deployment layer, which
    wire the modelled services together or call remote systems; the use cases of documents and
    re-index runs over [KnowledgeDb], the delivery of summaries into threads and the routing
    of questions; the remaining modules (media, integrations, electrical drawings, spaces,
    access, credentials). *)

From stdpp Require Export base gmap sets list strings sorting.
From Stdlib Require Export ZArith Lia.

#[export] Set Default Goal Selector "!".

(** ** Fallible computations

    Every Python function that may [raise] returns a [result].  The error type
    is a parameter, because each layer of the program has its own hierarchy. *)

Inductive result (E A : Type) : Type :=
  | Ok (a : A)
  | Err (e : E).
Arguments Ok {E A} a.
Arguments Err {E A} e.

#[export] Instance result_ret {E} : MRet (result E) := λ A a, Ok a.
#[export] Instance result_bind {E} : MBind (result E) :=
  λ A B k r, match r with Ok a => k a | Err e => Err e end.
#[export] Instance result_fmap {E} : FMap (result E) :=
  λ A B f r, match r with Ok a => Ok (f a) | Err e => Err e end.

#[export] Instance result_eq_dec {E A} `{EqDecision E, EqDecision A} :
  EqDecision (result E A).
Proof. solve_decision. Defined.

(** [if c: raise e] *)
Definition raise_if {E} (c : bool) (e : E) : result E unit :=
  if c then Err e else Ok tt.

(** [try: r except: raise f(e)], the translation of one hierarchy to another. *)
Definition map_err {E F A} (f : E → F) (r : result E A) : result F A :=
  match r with Ok a => Ok a | Err e => Err (f e) end.

Definition is_ok {E A} (r : result E A) : bool :=
  match r with Ok _ => true | Err _ => false end.

(** The value of a run known to succeed. *)
Definition unwrap {E A} (d : A) (r : result E A) : A :=
  match r with Ok a => a | Err _ => d end.

Section Result.
Context {E : Type}.

Lemma unwrap_Ok {A} (d : A) (r : result E A) : is_ok r = true → r = Ok (unwrap d r).
Proof. by destruct r. Qed.

Lemma bind_Ok {A B} (r : result E A) (k : A → result E B) b :
  (r ≫= k) = Ok b ↔ ∃ a, r = Ok a ∧ k a = Ok b.
Proof. destruct r; cbn; naive_solver. Qed.

Lemma bind_Err {A B} (r : result E A) (k : A → result E B) e :
  (r ≫= k) = Err e ↔ r = Err e ∨ ∃ a, r = Ok a ∧ k a = Err e.
Proof. destruct r; cbn; naive_solver. Qed.

Lemma Ok_inj {A} (a b : A) : @Ok E A a = Ok b → a = b.
Proof. congruence. Qed.

Lemma Ok_pair_inj {A B} (a a' : A) (b b' : B) :
  @Ok E _ (a, b) = Ok (a', b') → a = a' ∧ b = b'.
Proof. split; congruence. Qed.

Lemma Err_inj {A} (a b : E) : @Err E A a = Err b → a = b.
Proof. congruence. Qed.

Lemma raise_if_Ok (c : bool) (e : E) u : raise_if c e = Ok u ↔ c = false.
Proof. destruct c, u; naive_solver. Qed.

Lemma raise_if_Err (c : bool) (e e' : E) : raise_if c e = Err e' ↔ c = true ∧ e = e'.
Proof. destruct c; naive_solver. Qed.

Lemma map_err_Ok {F A} (f : E → F) (r : result E A) a :
  map_err f r = Ok a ↔ r = Ok a.
Proof. destruct r; naive_solver. Qed.

Lemma map_err_Err {F A} (f : E → F) (r : result E A) e :
  map_err f r = Err e ↔ ∃ e', r = Err e' ∧ e = f e'.
Proof. destruct r; naive_solver. Qed.
End Result.

(** [mapM]: the loop that builds a list and stops at the first exception. *)
Fixpoint map_result {E A B} (f : A → result E B) (l : list A) : result E (list B) :=
  match l with
  | [] => Ok []
  | x :: l => y ← f x; ys ← map_result f l; Ok (y :: ys)
  end.

Lemma map_result_Ok {E A B} (f : A → result E B) l ys :
  map_result f l = Ok ys ↔ Forall2 (λ x y, f x = Ok y) l ys.
Proof.
  revert ys; induction l as [|x l IH]; intros ys; cbn [map_result].
  - split; [by intros [= <-]|]. by inversion 1.
  - rewrite bind_Ok. split.
    + intros (y & Hy & (ys' & Hys & [= <-])%bind_Ok).
      constructor; [done|]. by apply IH.
    + inversion 1 as [|? y ? ys' Hy Hys]; subst.
      exists y; split; [done|]. apply bind_Ok.
      exists ys'. split; [by apply IH|done].
Qed.

Lemma map_result_length {E A B} (f : A → result E B) l ys :
  map_result f l = Ok ys → length ys = length l.
Proof. intros Hf%map_result_Ok. symmetry. by eapply Forall2_length. Qed.

Lemma map_result_app {E A B} (f : A → result E B) l k ys :
  map_result f (l ++ k) = Ok ys ↔
  ∃ ys1 ys2, map_result f l = Ok ys1 ∧ map_result f k = Ok ys2 ∧ ys = ys1 ++ ys2.
Proof.
  setoid_rewrite map_result_Ok. split.
  - intros (ys1 & ys2 & ? & ? & ->)%Forall2_app_inv_l. by exists ys1, ys2.
  - intros (ys1 & ys2 & ? & ? & ->). by apply Forall2_app.
Qed.

Lemma map_result_total {E A B} (f : A → result E B) l :
  (∀ x, x ∈ l → ∃ y, f x = Ok y) → ∃ ys, map_result f l = Ok ys.
Proof.
  induction l as [|x l IH]; intros Hall; [by exists []|]. destruct (Hall x ltac:(left)) as [y Hy].
  destruct IH as [ys Hys]; [intros z Hz; apply Hall; by right|]. exists (y :: ys). cbn. by rewrite Hy, Hys.
Qed.

(** ** State-passing computations that may fail

    The body of one database transaction: an exception rolls the state back,
    so an [Err] carries no state and the caller goes on with the old one. *)

Definition tx (S E A : Type) : Type := S → result E (A * S).

#[export] Instance tx_ret {S E} : MRet (tx S E) := λ A a s, Ok (a, s).
#[export] Instance tx_bind {S E} : MBind (tx S E) :=
  λ A B k m s, match m s with Ok (a, s') => k a s' | Err e => Err e end.

Definition tx_get {S E} : tx S E S := λ s, Ok (s, s).
Definition tx_put {S E} (s : S) : tx S E unit := λ _, Ok (tt, s).
Definition tx_raise {S E A} (e : E) : tx S E A := λ _, Err e.
Definition tx_lift {S E A} (r : result E A) : tx S E A :=
  λ s, match r with Ok a => Ok (a, s) | Err e => Err e end.

Fixpoint tx_iter {S E A} (f : A → tx S E unit) (l : list A) : tx S E unit :=
  match l with
  | [] => mret tt
  | x :: l => _ ← f x; tx_iter f l
  end.

Section Tx.
Context {S E : Type}.

Lemma tx_bind_Ok {A B} (m : tx S E A) (k : A → tx S E B) s b s' :
  (m ≫= k) s = Ok (b, s') ↔ ∃ a s1, m s = Ok (a, s1) ∧ k a s1 = Ok (b, s').
Proof. unfold mbind, tx_bind. destruct (m s) as [[a s1]|e]; naive_solver. Qed.

Lemma tx_lift_Ok {A} (r : result E A) (s s' : S) a :
  tx_lift r s = Ok (a, s') ↔ r = Ok a ∧ s' = s.
Proof. unfold tx_lift. destruct r; naive_solver. Qed.

(** Rule for loops: an invariant every iteration keeps holds at the end. *)
Lemma tx_iter_inv {A} (f : A → tx S E unit) (P : S → Prop) l s s' u :
  (∀ x s s' u, x ∈ l → P s → f x s = Ok (u, s') → P s') →
  P s → tx_iter f l s = Ok (u, s') → P s'.
Proof.
  revert s; induction l as [|x l IH]; intros s Hf HP; cbn [tx_iter].
  - intros [= _ <-]. done.
  - intros ([] & s1 & H1 & H2)%tx_bind_Ok.
    eapply IH; [|eapply Hf; [|exact HP|exact H1]|exact H2]; set_solver.
Qed.
End Tx.

(** ** Computations whose effects outlive an exception

    Code that is not inside a database transaction: what was done before the
    exception stays done, so the state comes back with [Err] too. *)

Definition eff (W E A : Type) : Type := W → result E A * W.

#[export] Instance eff_ret {W E} : MRet (eff W E) := λ A a w, (Ok a, w).
#[export] Instance eff_bind {W E} : MBind (eff W E) :=
  λ A B k m w, match m w with (Ok a, w') => k a w' | (Err e, w') => (Err e, w') end.

Definition eff_lift {W E A} (r : result E A) : eff W E A := λ w, (r, w).
Definition eff_raise {W E A} (e : E) : eff W E A := λ w, (Err e, w).

(** [try: m] / [except e if p(e): h]. *)
Definition eff_catch {W E A} (m : eff W E A) (p : E → bool) (h : E → eff W E A) : eff W E A :=
  λ w, match m w with
       | (Err e, w') => if p e then h e w' else (Err e, w')
       | r => r
       end.

(** A unit of work over one part of the state: an exception restores that part. *)
Definition eff_atomic {W E A P} (part : W → P) (restore : P → W → W) (m : eff W E A)
    : eff W E A :=
  λ w, match m w with
       | (Err e, w') => (Err e, restore (part w) w')
       | r => r
       end.

Fixpoint eff_iter {W E A} (f : A → eff W E unit) (l : list A) : eff W E unit :=
  match l with
  | [] => mret tt
  | x :: l => _ ← f x; eff_iter f l
  end.

Section Eff.
Context {W E : Type}.

Lemma eff_bind_Ok {A B} (m : eff W E A) (k : A → eff W E B) w b w' :
  (m ≫= k) w = (Ok b, w') ↔ ∃ a w1, m w = (Ok a, w1) ∧ k a w1 = (Ok b, w').
Proof. unfold mbind, eff_bind. destruct (m w) as [[a|e] w1]; naive_solver. Qed.

Lemma eff_bind_Err {A B} (m : eff W E A) (k : A → eff W E B) w e w' :
  (m ≫= k) w = (Err e, w') ↔
  m w = (Err e, w') ∨ ∃ a w1, m w = (Ok a, w1) ∧ k a w1 = (Err e, w').
Proof. unfold mbind, eff_bind. destruct (m w) as [[a|e1] w1]; naive_solver. Qed.

Lemma eff_bind_run {A B} (m : eff W E A) (k : A → eff W E B) w r w' :
  (m ≫= k) w = (r, w') →
  (∃ e, m w = (Err e, w') ∧ r = Err e) ∨ ∃ a w1, m w = (Ok a, w1) ∧ k a w1 = (r, w').
Proof.
  unfold mbind, eff_bind. destruct (m w) as [[a|e] w1]; [right; by exists a, w1|].
  intros [= <- <-]. left. by exists e.
Qed.

(** A run known to succeed, with the state it ends in. *)
Lemma run_Ok {A} (m : eff W E A) w a : (m w).1 = Ok a → m w = (Ok a, (m w).2).
Proof. by destruct (m w) as [r w']; cbn; intros ->. Qed.

Lemma eff_lift_Ok {A} (r : result E A) (w w' : W) a :
  eff_lift r w = (Ok a, w') ↔ r = Ok a ∧ w' = w.
Proof. unfold eff_lift. naive_solver. Qed.

(** Rule for one operation followed by others, whatever the outcome. *)
Lemma eff_bind_inv {A B} (P : W → Prop) (m : eff W E A) (k : A → eff W E B) w r w' :
  (∀ r w', m w = (r, w') → P w') →
  (∀ a w1 r w', P w1 → k a w1 = (r, w') → P w') →
  (m ≫= k) w = (r, w') → P w'.
Proof.
  intros Hm Hk. unfold mbind, eff_bind. destruct (m w) as [[a|e] w1] eqn:Hmw.
  - apply Hk. by eapply Hm.
  - intros [= _ <-]. by eapply Hm.
Qed.

Lemma eff_catch_inv {A} (P : W → Prop) (m : eff W E A) p h w r w' :
  (∀ r w', m w = (r, w') → P w') →
  (∀ e w1 r w', P w1 → h e w1 = (r, w') → P w') →
  eff_catch m p h w = (r, w') → P w'.
Proof.
  intros Hm Hh. unfold eff_catch. destruct (m w) as [[a|e] w1] eqn:Hmw;
    [intros [= _ <-]; by eapply Hm|].
  destruct (p e); [apply Hh; by eapply Hm|]. intros [= _ <-]. by eapply Hm.
Qed.

Lemma eff_catch_Ok {A} (m : eff W E A) p h w a w' :
  eff_catch m p h w = (Ok a, w') →
  m w = (Ok a, w') ∨ ∃ e w1, m w = (Err e, w1) ∧ p e = true ∧ h e w1 = (Ok a, w').
Proof.
  unfold eff_catch. destruct (m w) as [[x|e] w1]; [by left|].
  destruct (p e) eqn:Hp; [|done]. intros Hh. right. eauto.
Qed.

(** Rule for loops, whether or not the loop ends normally. *)
Lemma eff_iter_inv {A} (f : A → eff W E unit) (P : W → Prop) l w r w' :
  (∀ x w r w', x ∈ l → P w → f x w = (r, w') → P w') →
  P w → eff_iter f l w = (r, w') → P w'.
Proof.
  revert w r w'; induction l as [|x l IH]; intros w r w' Hf HP; cbn [eff_iter].
  - intros [= _ <-]. done.
  - apply (eff_bind_inv P).
    + intros r1 w1. apply Hf; [left|done].
    + intros u w1 r1 w2 HP1. apply IH; [|done]. intros. eapply Hf; [by right|done..].
Qed.
End Eff.

(** ** Reflexive transitive closure with an invariant rule *)

Section Reach.
Context {St : Type} (step : St → St → Prop).

Lemma rtc_invariant (P : St → Prop) s s' :
  (∀ x y, P x → step x y → P y) → P s → rtc step s s' → P s'.
Proof. intros Hstep HP Hr. induction Hr; eauto. Qed.
End Reach.

(** ** Python's built-ins on lists *)

(** [min(l, key=f)]: the first element whose key no other element beats. *)
Fixpoint min_by {A} (leb : A → A → bool) (l : list A) : option A :=
  match l with
  | [] => None
  | x :: l =>
      match min_by leb l with
      | None => Some x
      | Some y => if leb x y then Some x else Some y
      end
  end.

Lemma min_by_None {A} (leb : A → A → bool) l : min_by leb l = None ↔ l = [].
Proof. destruct l as [|x l]; cbn; [done|]. repeat case_match; done. Qed.

Lemma min_by_elem {A} (leb : A → A → bool) l x : min_by leb l = Some x → x ∈ l.
Proof.
  revert x; induction l as [|y l IH]; intros x; cbn; [done|].
  destruct (min_by leb l) eqn:E; [destruct (leb y a)|]; intros [= <-]; set_solver.
Qed.

Lemma min_by_le {A} (leb : A → A → bool) l x y :
  (∀ a b c, leb a b = true → leb b c = true → leb a c = true) →
  (∀ a b, leb a b = true ∨ leb b a = true) →
  min_by leb l = Some x → y ∈ l → leb x y = true.
Proof.
  intros Htr Htot; revert x; induction l as [|z l IH]; intros x; cbn; [done|].
  destruct (min_by leb l) as [m|] eqn:E.
  - destruct (leb z m) eqn:Ez; intros [= <-] [->|Hy]%elem_of_cons.
    + destruct (Htot z z); done.
    + eapply Htr; [exact Ez|]. by apply IH.
    + destruct (Htot m z); congruence.
    + by apply IH.
  - apply min_by_None in E as ->. intros [= <-] Hy.
    apply list_elem_of_singleton in Hy as ->. destruct (Htot z z); done.
Qed.

(** [min(l)] and [max(a, b)] on integers, [sum(l)]. *)
Definition sumZ (l : list Z) : Z := foldr Z.add 0%Z l.

Lemma sumZ_nil : sumZ [] = 0%Z.
Proof. done. Qed.

Lemma sumZ_cons x l : sumZ (x :: l) = (x + sumZ l)%Z.
Proof. done. Qed.

Lemma sumZ_app l k : sumZ (l ++ k) = (sumZ l + sumZ k)%Z.
Proof. induction l as [|x l IH]; cbn; [done|]. fold (sumZ l) (sumZ (l ++ k)). lia. Qed.

#[export] Instance sumZ_Permutation : Proper ((≡ₚ) ==> (=)) sumZ.
Proof. induction 1; unfold sumZ in *; cbn in *; lia. Qed.

Lemma sumZ_nonneg l : Forall (λ x, 0 ≤ x)%Z l → (0 ≤ sumZ l)%Z.
Proof. induction 1; cbn; [done|]. fold (sumZ l). lia. Qed.

#[global] Arguments sumZ : simpl never.

(** [[x for x in l if p(x)]]. *)
Lemma elem_of_list_filter_bool {A} (p : A → bool) l x :
  x ∈ List.filter p l ↔ x ∈ l ∧ p x = true.
Proof. by rewrite !list_elem_of_In, filter_In. Qed.

#[export] Instance list_filter_Permutation {A} (p : A → bool) :
  Proper ((≡ₚ) ==> (≡ₚ)) (List.filter p).
Proof.
  induction 1; cbn; repeat case_match; try done; try (by constructor).
  by etrans.
Qed.

Lemma filter_nil_iff {A} (p : A → bool) l :
  List.filter p l = [] ↔ Forall (λ x, p x = false) l.
Proof.
  induction l as [|x l IH]; cbn; [done|]. rewrite Forall_cons, <- IH.
  destruct (p x); naive_solver.
Qed.

Lemma sumZ_const {A} (l : list A) (f : A → Z) (k : Z) :
  (∀ x, x ∈ l → f x = k) → (sumZ (f <$> l) = k * Z.of_nat (length l))%Z.
Proof.
  induction l as [|x l IH]; [by rewrite Z.mul_0_r|]. intros Hf.
  rewrite fmap_cons, sumZ_cons, (Hf x), IH by set_solver. cbn [length]. lia.
Qed.

(** [sorted(l, key=f)], [leb] comparing the keys: a stable sort, here by insertion. *)
Section SortBy.
Context {A : Type} (leb : A → A → bool).

Fixpoint insert_by (x : A) (l : list A) : list A :=
  match l with
  | [] => [x]
  | y :: l' => if leb x y then x :: l else y :: insert_by x l'
  end.

Definition sort_by (l : list A) : list A := foldr insert_by [] l.

Lemma insert_by_Permutation x l : insert_by x l ≡ₚ x :: l.
Proof.
  induction l as [|y l IH]; cbn; [done|]. destruct (leb x y); [done|].
  rewrite IH. apply Permutation_swap.
Qed.

Lemma sort_by_Permutation l : sort_by l ≡ₚ l.
Proof. induction l as [|x l IH]; cbn; [done|]. by rewrite insert_by_Permutation, IH. Qed.

(** Elements that tie keep their order. *)
Lemma sort_by_stable (p : A → bool) l :
  (∀ x y, p x = true → p y = true → leb x y = true) →
  List.filter p (sort_by l) = List.filter p l.
Proof.
  intros Hp. unfold sort_by. induction l as [|x l IH]; cbn; [done|]. rewrite <- IH.
  generalize (foldr insert_by [] l). clear IH l. intros l.
  induction l as [|y l IH]; cbn; [done|]. destruct (leb x y) eqn:Hxy; [done|]. cbn. rewrite IH.
  destruct (p x) eqn:Hx, (p y) eqn:Hy; try done. rewrite Hp in Hxy by done. done.
Qed.

Context (total : ∀ x y, leb x y = true ∨ leb y x = true)
  (trans : ∀ x y z, leb x y = true → leb y z = true → leb x z = true).
Abbreviation sorted := (StronglySorted (λ x y, leb x y = true)).

Lemma insert_by_sorted x l : sorted l → sorted (insert_by x l).
Proof using total trans.
  induction 1 as [|y l Hl IH Hy]; cbn; [by repeat constructor|].
  destruct (leb x y) eqn:Hxy.
  - constructor; [by constructor|]. constructor; [done|].
    eapply Forall_impl; [exact Hy|]. intros z. by apply trans.
  - constructor; [done|]. rewrite insert_by_Permutation. constructor; [|done].
    destruct (total x y); [congruence|done].
Qed.

Lemma sort_by_sorted l : sorted (sort_by l).
Proof using total trans. induction l; cbn; [constructor|by apply insert_by_sorted]. Qed.

(** Where no two elements tie, the order of the input is forgotten. *)
Lemma sort_by_forgets l k :
  l ≡ₚ k → (∀ x y, x ∈ l → y ∈ l → leb x y = true → leb y x = true → x = y) →
  sort_by l = sort_by k.
Proof using total trans.
  intros Hlk Hanti.
  apply (StronglySorted_unique_strong (λ x y, leb x y = true)); [|apply sort_by_sorted..|].
  - intros x y Hx Hy. rewrite sort_by_Permutation in Hx, Hy. apply Hanti; [done|by rewrite Hlk].
  - by rewrite !sort_by_Permutation.
Qed.
End SortBy.

(** The elements [p] accepts, given those before them. *)
Fixpoint keep_given {A} (p : list A → A → bool) (earlier l : list A) : list A :=
  match l with
  | [] => []
  | x :: l => if p earlier x then x :: keep_given p (earlier ++ [x]) l
              else keep_given p (earlier ++ [x]) l
  end.

Lemma keep_given_length {A} (p : list A → A → bool) earlier l :
  (length (keep_given p earlier l) ≤ length l)%nat.
Proof. revert earlier; induction l as [|x l IH]; intros earlier; cbn; [done|]. specialize (IH (earlier ++ [x])). destruct (p earlier x); cbn; lia. Qed.

Lemma keep_given_elem {A} (p : list A → A → bool) earlier l x : x ∈ keep_given p earlier l → x ∈ l.
Proof.
  revert earlier; induction l as [|y l IH]; intros earlier; cbn; [done|].
  destruct (p earlier y); [|intros ?%IH; by right]. intros [->|?%IH]%elem_of_cons; [left|by right].
Qed.

(** [list(dict.fromkeys(l))]: first occurrences, in order. *)
Fixpoint dedup_from {A} `{EqDecision A} (seen l : list A) : list A :=
  match l with
  | [] => []
  | x :: l =>
      if bool_decide (x ∈ seen) then dedup_from seen l
      else x :: dedup_from (x :: seen) l
  end.

Definition dict_fromkeys {A} `{EqDecision A} (l : list A) : list A := dedup_from [] l.

Section Dedup.
Context {A : Type} `{EqDecision A}.
Implicit Types (l seen : list A).

Lemma elem_of_dedup_from seen l x : x ∈ dedup_from seen l ↔ x ∈ l ∧ x ∉ seen.
Proof.
  revert seen; induction l as [|y l IH]; intros seen; cbn [dedup_from]; [set_solver|].
  case_bool_decide; rewrite ?elem_of_cons, IH; [set_solver|].
  destruct (decide (x = y)); set_solver.
Qed.

Lemma NoDup_dedup_from seen l : NoDup (dedup_from seen l).
Proof.
  revert seen; induction l as [|y l IH]; intros seen; cbn [dedup_from]; [constructor|].
  case_bool_decide; [done|]. constructor; [|done].
  rewrite elem_of_dedup_from. set_solver.
Qed.

Lemma elem_of_dict_fromkeys l x : x ∈ dict_fromkeys l ↔ x ∈ l.
Proof. unfold dict_fromkeys. rewrite elem_of_dedup_from. set_solver. Qed.

Lemma NoDup_dict_fromkeys l : NoDup (dict_fromkeys l).
Proof. apply NoDup_dedup_from. Qed.

Lemma dedup_from_id seen l : NoDup l → (∀ x, x ∈ l → x ∉ seen) → dedup_from seen l = l.
Proof.
  intros Hl; revert seen; induction Hl as [|x l Hx Hl IH]; intros seen Hs; [done|].
  cbn [dedup_from]. rewrite bool_decide_false by (apply Hs; set_solver).
  f_equal. apply IH. set_solver.
Qed.

Lemma dict_fromkeys_id l : NoDup l → dict_fromkeys l = l.
Proof. intros. apply dedup_from_id; [done|set_solver]. Qed.
End Dedup.

(** A list with distinct keys holds one element per key. *)
Lemma Forall2_partner {A B} (P : A → B → Prop) l k :
  Forall2 P l k → (∀ x, x ∈ l → ∃ y, P x y ∧ y ∈ k) ∧ (∀ y, y ∈ k → ∃ x, x ∈ l ∧ P x y).
Proof.
  intros Hall. split.
  - intros x [i Hi]%list_elem_of_lookup. destruct (Forall2_lookup_l _ _ _ _ _ Hall Hi) as (y & Hy & HP).
    exists y. split; [done|by eapply list_elem_of_lookup_2].
  - intros y [i Hi]%list_elem_of_lookup. destruct (Forall2_lookup_r _ _ _ _ _ Hall Hi) as (x & Hx & HP).
    exists x. split; [by eapply list_elem_of_lookup_2|done].
Qed.

Lemma NoDup_fmap_key {A B} (f : A → B) l x y :
  NoDup (f <$> l) → x ∈ l → y ∈ l → f x = f y → x = y.
Proof.
  induction l as [|z l IH]; [by intros _ ?%elem_of_nil|].
  intros [Hz Hl]%NoDup_cons [->|Hx]%elem_of_cons [->|Hy]%elem_of_cons Heq; try done.
  - exfalso. apply Hz. rewrite Heq. by apply list_elem_of_fmap_2.
  - exfalso. apply Hz. rewrite <- Heq. by apply list_elem_of_fmap_2.
  - by apply IH.
Qed.

(** [l.remove(x)] *)
Fixpoint remove_first (x : nat) (l : list nat) : list nat :=
  match l with
  | [] => []
  | y :: l => if (x =? y)%nat then l else y :: remove_first x l
  end.

Lemma elem_of_remove_first x l y : NoDup l → y ∈ remove_first x l ↔ y ∈ l ∧ y ≠ x.
Proof.
  induction 1 as [|z l Hz Hl IH]; cbn; [set_solver|].
  destruct (Nat.eqb_spec x z) as [->|Hne]; [set_solver|]. rewrite !elem_of_cons, IH. naive_solver.
Qed.

Lemma NoDup_remove_first x l : NoDup l → NoDup (remove_first x l).
Proof.
  induction 1 as [|z l Hz Hl IH]; cbn; [constructor|]. destruct (Nat.eqb_spec x z); [done|].
  constructor; [|done]. rewrite elem_of_remove_first by done. tauto.
Qed.

Lemma length_remove_first x l : x ∈ l → S (length (remove_first x l)) = length l.
Proof.
  induction l as [|z l IH]; [by intros ?%elem_of_nil|]. cbn. destruct (Nat.eqb_spec x z); [done|].
  intros [->|Hx]%elem_of_cons; [done|]. cbn. by rewrite IH.
Qed.

(** [range(0, len(l), n)] and the slices of [l] from there. *)
Fixpoint chunked_from {A} (n fuel : nat) (l : list A) : list (list A) :=
  match fuel with
  | O => []
  | S fuel => if bool_decide (l = []) then [] else take n l :: chunked_from n fuel (drop n l)
  end.

Definition chunked {A} (n : nat) (l : list A) : list (list A) := chunked_from n (length l) l.

Lemma chunked_concat {A} n (l : list A) : n ≠ 0%nat → concat (chunked n l) = l.
Proof.
  intros Hn. unfold chunked. assert (length l ≤ length l)%nat as Hl by lia. revert Hl.
  generalize (length l) at 2 3. intros fuel. revert l; induction fuel as [|k IH]; intros l Hl; cbn [chunked_from].
  { by destruct l; [|cbn in Hl; lia]. }
  case_bool_decide; [by subst|]. cbn [concat]. rewrite IH, take_drop; [done|]. rewrite length_drop. lia.
Qed.

(** [enumerate(l)] *)
Lemma imap_pair_lookup {A} (l : list A) i x : (i, x) ∈ imap pair l ↔ l !! i = Some x.
Proof.
  rewrite elem_of_lookup_imap. split; [by intros (j & y & [= -> ->] & ?)|]. intros. by exists i, x.
Qed.

Lemma imap_pair_keys {A} (l : list A) : NoDup (imap pair l).*1.
Proof.
  assert ((imap pair l).*1 = seq 0 (length l)) as ->; [|apply NoDup_seq].
  apply list_eq. intros i. rewrite list_lookup_fmap, list_lookup_imap.
  destruct (l !! i) eqn:Hi; cbn.
  - symmetry. apply lookup_seq. split; [done|]. by eapply lookup_lt_Some.
  - symmetry. apply lookup_seq_ge. by apply lookup_ge_None.
Qed.

(** A dict kept in insertion order: [d.get(k)] and [d[k] = v]. *)
Fixpoint alist_get {K V} `{EqDecision K} (k : K) (d : list (K * V)) : option V :=
  match d with
  | [] => None
  | (k', v) :: d => if bool_decide (k' = k) then Some v else alist_get k d
  end.

Fixpoint alist_set {K V} `{EqDecision K} (k : K) (v : V) (d : list (K * V)) : list (K * V) :=
  match d with
  | [] => [(k, v)]
  | (k', v') :: d => if bool_decide (k' = k) then (k, v) :: d else (k', v') :: alist_set k v d
  end.

Section Alist.
Context {K V : Type} `{EqDecision K}.
Implicit Types (d : list (K * V)).

Lemma alist_set_app k v d : k ∉ d.*1 → alist_set k v d = d ++ [(k, v)].
Proof.
  induction d as [|[k' v'] d IH]; cbn; [done|]. intros [Hne Hk]%not_elem_of_cons.
  rewrite bool_decide_false by done. by rewrite IH.
Qed.

Lemma alist_get_elem k v d : alist_get k d = Some v → (k, v) ∈ d.
Proof.
  induction d as [|[k' v'] d IH]; cbn; [done|]. case_bool_decide as Hk.
  - intros [= ->]. subst. left.
  - intros. right. by apply IH.
Qed.

Lemma alist_get_None (key : K) d : alist_get key d = None ↔ key ∉ d.*1.
Proof.
  split.
  - intros Hn [[k v] [-> Hin]]%list_elem_of_fmap.
    induction d as [|[k' v'] d IH]; [by apply not_elem_of_nil in Hin|]. cbn in *.
    case_bool_decide; [done|]. apply elem_of_cons in Hin as [Heq|Hin]; [congruence|by apply IH].
  - intros Hn. destruct (alist_get key d) as [v|] eqn:Hg; [|done].
    destruct Hn. apply alist_get_elem in Hg. by apply (list_elem_of_fmap_2 fst _ (key, v)).
Qed.

Lemma alist_get_app (key : K) d d' :
  alist_get key (d ++ d') = match alist_get key d with Some v => Some v | None => alist_get key d' end.
Proof. induction d as [|[k v] d IH]; [done|]. cbn. by case_bool_decide. Qed.

Lemma alist_get_NoDup k v d : NoDup d.*1 → (k, v) ∈ d → alist_get k d = Some v.
Proof.
  induction d as [|[k' v'] d IH]; cbn; [by intros _ ?%elem_of_nil|].
  intros [Hk Hd]%NoDup_cons [[= -> ->]|Hin]%elem_of_cons; [by rewrite bool_decide_true|].
  rewrite bool_decide_false; [by apply IH|]. intros ->. apply Hk. by apply (list_elem_of_fmap_2 fst) in Hin.
Qed.

Lemma alist_get_set k v d : alist_get k (alist_set k v d) = Some v.
Proof.
  induction d as [|[k' v'] d IH]; cbn; [by rewrite bool_decide_true|].
  case_bool_decide as Hk; cbn; [by rewrite bool_decide_true|]. by rewrite bool_decide_false.
Qed.

Lemma alist_get_set_ne k k' v d : k ≠ k' → alist_get k (alist_set k' v d) = alist_get k d.
Proof.
  intros Hne. induction d as [|[k2 v2] d IH]; cbn; [by rewrite bool_decide_false|].
  case_bool_decide as Hk; cbn.
  - subst k2. by rewrite !bool_decide_false.
  - by rewrite IH.
Qed.

Lemma alist_get_set_if k k' v d :
  alist_get k (alist_set k' v d) = if bool_decide (k' = k) then Some v else alist_get k d.
Proof. case_bool_decide; [subst; apply alist_get_set|by apply alist_get_set_ne]. Qed.

Lemma alist_set_elem k v d x : x ∈ alist_set k v d → x = (k, v) ∨ x ∈ d.
Proof.
  induction d as [|[k' v'] d IH]; cbn.
  { intros ->%list_elem_of_singleton. by left. }
  case_bool_decide; intros [->|Hx]%elem_of_cons; [by left|by right; right|by right; left|].
  destruct (IH Hx) as [->|Hin]; [by left|by right; right].
Qed.

Lemma alist_set_keys k v d : NoDup d.*1 → NoDup (alist_set k v d).*1.
Proof.
  intros Hd. destruct (decide (k ∈ d.*1)) as [Hk|Hk].
  - assert ((alist_set k v d).*1 = d.*1) as ->; [|done]. clear Hd.
    induction d as [|[k' v'] d IH]; cbn in *; [by apply elem_of_nil in Hk|].
    case_bool_decide; [by subst|]. cbn. f_equal. apply IH.
    apply elem_of_cons in Hk as [->|]; done.
  - rewrite alist_set_app, fmap_app by done. apply NoDup_app. split; [done|].
    split; [intros x ? Hx%list_elem_of_singleton; by subst|apply NoDup_singleton].
Qed.
End Alist.

(** ** Automation *)

Create HintDb aizzak discriminated.
#[export] Hint Constants Opaque : aizzak.
#[export] Hint Resolve elem_of_dict_fromkeys NoDup_dict_fromkeys sumZ_nonneg : aizzak.

Create Rewrite HintDb unresult.
#[export] Hint Rewrite @bind_Ok @bind_Err @raise_if_Ok @raise_if_Err
  @map_err_Ok @map_err_Err : unresult.

(** Take a successful (or failed) monadic run apart, binder by binder. *)
Ltac unresult :=
  repeat match goal with
  | H : (?r ≫= _) = Ok _ |- _ => apply bind_Ok in H as (? & ? & ?)
  | H : (?r ≫= _) = Err _ |- _ => apply bind_Err in H as [?|(? & ? & ?)]
  | H : raise_if _ _ = Ok _ |- _ => apply raise_if_Ok in H
  | H : raise_if _ _ = Err _ |- _ => apply raise_if_Err in H as [? ?]
  | H : map_err _ _ = Ok _ |- _ => apply map_err_Ok in H
  | H : map_err _ _ = Err _ |- _ => apply map_err_Err in H as (? & ? & ?)
  | H : mret _ = Ok _ |- _ => apply Ok_inj in H
  | H : Ok _ = Ok _ |- _ => apply Ok_inj in H
  | H : Err _ = Err _ |- _ => apply Err_inj in H
  | H : Ok _ = Err _ |- _ => discriminate H
  | H : Err _ = Ok _ |- _ => discriminate H
  | H : (_, _) = (_, _) |- _ => apply pair_equal_spec in H as [? ?]
  end; subst.

Ltac untx :=
  repeat match goal with
  | H : (?m ≫= _) _ = Ok _ |- _ => apply tx_bind_Ok in H as (? & ? & ? & ?)
  | H : tx_lift _ _ = Ok _ |- _ => apply tx_lift_Ok in H as [? ?]
  | H : tx_raise _ _ = Ok _ |- _ => discriminate H
  | H : tx_get _ = Ok _ |- _ => apply Ok_pair_inj in H as [? ?]
  | H : tx_put _ _ = Ok _ |- _ => apply Ok_pair_inj in H as [? ?]
  | H : mret _ _ = Ok _ |- _ => apply Ok_pair_inj in H as [? ?]
  | H : Ok (_, _) = Ok (_, _) |- _ => apply Ok_pair_inj in H as [? ?]
  | H : (_, _) = (_, _) |- _ => apply pair_equal_spec in H as [? ?]
  | H : Err _ = Ok _ |- _ => discriminate H
  | p : _ * _ |- _ => destruct p
  end; subst.

(** Linear arithmetic with division and remainder by constants. *)
Ltac dlia := Z.to_euclidean_division_equations; lia.

(** Settle every integer test of the goal by arithmetic. *)
Ltac ztest :=
  repeat match goal with
  | |- context [(?a <? ?b)%Z] =>
      first [rewrite (proj2 (Z.ltb_lt a b)) by dlia | rewrite (proj2 (Z.ltb_ge a b)) by dlia]
  | |- context [(?a <=? ?b)%Z] =>
      first [rewrite (proj2 (Z.leb_le a b)) by dlia | rewrite (proj2 (Z.leb_gt a b)) by dlia]
  | |- context [(?a =? ?b)%Z] =>
      first [rewrite (proj2 (Z.eqb_eq a b)) by dlia | rewrite (proj2 (Z.eqb_neq a b)) by dlia]
  end; cbn [negb andb orb].

(** Split every boolean test of the goal and the hypotheses into its Prop. *)
Ltac unbool :=
  repeat match goal with
  | H : _ && _ = true |- _ => apply andb_prop in H as [? ?]
  | H : _ || _ = false |- _ => apply orb_false_iff in H as [? ?]
  | H : negb _ = true |- _ => apply negb_true_iff in H
  | H : negb _ = false |- _ => apply negb_false_iff in H
  | H : bool_decide _ = true |- _ => apply bool_decide_eq_true in H
  | H : bool_decide _ = false |- _ => apply bool_decide_eq_false in H
  | H : (_ <=? _)%Z = true |- _ => apply Z.leb_le in H
  | H : (_ <=? _)%Z = false |- _ => apply Z.leb_gt in H
  | H : (_ <? _)%Z = true |- _ => apply Z.ltb_lt in H
  | H : (_ <? _)%Z = false |- _ => apply Z.ltb_ge in H
  | H : (_ =? _)%Z = true |- _ => apply Z.eqb_eq in H
  | H : (_ =? _)%Z = false |- _ => apply Z.eqb_neq in H
  end.
