(* ===== verification/Text.v ===== *)
(** * Python strings

    A [str] is a sequence of Unicode code points.  This file holds the string
    operations the modelled code calls, with the meaning the Python language
    reference gives them; [str.lower] and [unicodedata], whose tables are
    large, stay parameters of the definitions that use them. *)

From S2P Require Import Prelude.

Open Scope Z_scope.

Abbreviation text := (list Z).

Definition code (a : Ascii.ascii) : Z := Z.of_nat (Ascii.nat_of_ascii a).

(** An ASCII literal. *)
Definition txt (s : string) : text := code <$> String.list_ascii_of_string s.

#[global] Arguments txt : simpl never.

Definition len (t : text) : Z := Z.of_nat (length t).

(** [str.isspace] on one character: bidirectional type WS, B or S, or category Zs. *)
Definition py_isspace (c : Z) : bool :=
  bool_decide (9 ≤ c ≤ 13) || bool_decide (28 ≤ c ≤ 32) ||
  bool_decide (c ∈ [133; 160; 5760; 8232; 8233; 8239; 8287; 12288]) ||
  bool_decide (8192 ≤ c ≤ 8202).

Fixpoint drop_while (p : Z → bool) (t : text) : text :=
  match t with
  | [] => []
  | c :: t' => if p c then drop_while p t' else t
  end.

Definition lstrip (t : text) : text := drop_while py_isspace t.
Definition rstrip (t : text) : text := rev (drop_while py_isspace (rev t)).
Definition strip (t : text) : text := rstrip (lstrip t).

(** [t.rfind(c)] and [t.find(c)]: an index, or -1. *)
Fixpoint find (c : Z) (t : text) : Z :=
  match t with
  | [] => -1
  | d :: t' =>
      if d =? c then 0
      else let i := find c t' in if i <? 0 then -1 else i + 1
  end.

Fixpoint rfind (c : Z) (t : text) : Z :=
  match t with
  | [] => -1
  | d :: t' =>
      let i := rfind c t' in
      if 0 <=? i then i + 1 else if d =? c then 0 else -1
  end.

(** [t.partition(c)]: head, whether the separator was found, tail. *)
Fixpoint partition (c : Z) (t : text) : text * bool * text :=
  match t with
  | [] => ([], false, [])
  | d :: t' =>
      if d =? c then ([], true, t')
      else let '(h, b, r) := partition c t' in (d :: h, b, r)
  end.

(** [t[i:]] for a non-negative [i]. *)
Definition slice_from (i : Z) (t : text) : text := drop (Z.to_nat i) t.

(** [sep.join(ws)]. *)
Fixpoint join (sep : text) (ws : list text) : text :=
  match ws with
  | [] => []
  | [w] => w
  | w :: ws => w ++ sep ++ join sep ws
  end.

(** [t.split()]: the maximal runs of non-space characters. *)
Fixpoint words_from (word : text) (t : text) : list text :=
  match t with
  | [] => if bool_decide (word = []) then [] else [word]
  | c :: t =>
      if py_isspace c then
        if bool_decide (word = []) then words_from [] t else word :: words_from [] t
      else words_from (word ++ [c]) t
  end.

Definition split (t : text) : list text := words_from [] t.

(** ** Facts *)

Lemma drop_while_head p t c t' : drop_while p t = c :: t' → p c = false.
Proof.
  induction t as [|d t IH]; cbn; [done|].
  destruct (p d) eqn:E; [exact IH|]. by intros [= -> ->].
Qed.

Lemma drop_while_id p t : (∀ c t', t = c :: t' → p c = false) → drop_while p t = t.
Proof. destruct t as [|c t]; cbn; [done|]. intros H. by rewrite (H c t). Qed.

Lemma drop_while_idemp p t : drop_while p (drop_while p t) = drop_while p t.
Proof. apply drop_while_id. intros c t' H. by eapply drop_while_head. Qed.

Lemma drop_while_suffix p t : ∃ k, t = k ++ drop_while p t.
Proof.
  induction t as [|c t [k IH]]; cbn; [by exists []|].
  destruct (p c); [|by exists []]. exists (c :: k). cbn. by f_equal.
Qed.

Lemma drop_while_Forall P p t : Forall P t → Forall P (drop_while p t).
Proof.
  destruct (drop_while_suffix p t) as [k Hk]. intros H. rewrite Hk in H.
  by apply Forall_app in H as [_ ?].
Qed.

Lemma drop_while_length p t : (length (drop_while p t) ≤ length t)%nat.
Proof.
  destruct (drop_while_suffix p t) as [k Hk]. rewrite Hk at 2.
  rewrite length_app. lia.
Qed.

Lemma lstrip_rstrip_head t c t' :
  lstrip t = t → rstrip t = c :: t' → py_isspace c = false.
Proof.
  intros Hl. unfold rstrip.
  destruct (drop_while_suffix py_isspace (rev t)) as [k Hk].
  intros Hr. rewrite <- (rev_involutive (drop_while _ _)) in Hk.
  rewrite Hr in Hk. apply (f_equal (@rev Z)) in Hk.
  rewrite rev_involutive, rev_app_distr, rev_involutive in Hk. cbn in Hk.
  rewrite <- Hl in Hk. by apply drop_while_head in Hk.
Qed.

Lemma lstrip_strip t : lstrip (strip t) = strip t.
Proof.
  apply drop_while_id. intros c t'. apply lstrip_rstrip_head, drop_while_idemp.
Qed.

Lemma rstrip_strip t : rstrip (strip t) = strip t.
Proof. unfold strip, rstrip. by rewrite rev_involutive, drop_while_idemp. Qed.

Lemma strip_idemp t : strip (strip t) = strip t.
Proof. unfold strip at 1. by rewrite lstrip_strip, rstrip_strip. Qed.

Lemma strip_Forall P t : Forall P t → Forall P (strip t).
Proof.
  intros H. unfold strip, rstrip. apply Forall_rev, drop_while_Forall.
  apply Forall_rev. by apply drop_while_Forall.
Qed.

Lemma rfind_lower c t : -1 ≤ rfind c t.
Proof. induction t; cbn; repeat case_match; unbool; lia. Qed.

Lemma rfind_upper c t : rfind c t < len t.
Proof.
  unfold len. induction t as [|d t IH]; cbn [rfind length]; [lia|].
  destruct (0 <=? rfind c t), (d =? c); lia.
Qed.

Lemma rfind_not_elem c t : rfind c t = -1 ↔ c ∉ t.
Proof.
  induction t as [|d t IH]; cbn; [set_solver|]. pose proof (rfind_lower c t).
  repeat case_match; unbool; rewrite not_elem_of_cons.
  - split; [lia|]. intros [_ ?%IH]. lia.
  - split; [lia|]. intros [? _]. congruence.
  - split; [|done]. intros _. split; [congruence|]. apply IH. lia.
Qed.

(** Nothing after the last occurrence is an occurrence. *)
Lemma rfind_slice c t : c ∉ slice_from (rfind c t + 1) t.
Proof.
  unfold slice_from. induction t as [|d t IH]; cbn [rfind]; [apply not_elem_of_nil|].
  pose proof (rfind_lower c t). repeat case_match; unbool.
  - replace (Z.to_nat (rfind c t + 1 + 1)) with (S (Z.to_nat (rfind c t + 1))) by lia.
    done.
  - change (c ∉ t). apply rfind_not_elem. lia.
  - change (c ∉ d :: t). rewrite not_elem_of_cons. split; [congruence|]. apply rfind_not_elem. lia.
Qed.

Lemma slice_from_Forall P i t : Forall P t → Forall P (slice_from i t).
Proof. apply Forall_drop. Qed.

Lemma slice_from_not_elem c i t : c ∉ t → c ∉ slice_from i t.
Proof. unfold slice_from. intros Hn Hc. apply Hn. eapply elem_of_submseteq; [exact Hc|].
  apply sublist_submseteq, sublist_drop. Qed.

Lemma partition_spec c t h r :
  partition c t = (h, true, r) → t = h ++ c :: r ∧ c ∉ h.
Proof.
  revert h; induction t as [|d t IH]; intros h; cbn; [done|].
  destruct (Z.eqb_spec d c) as [->|Hd]; [intros [= <- <-]; set_solver|].
  destruct (partition c t) as [[h' b] r'] eqn:E. intros [= <- -> ->].
  destruct (IH h' eq_refl) as [-> ?]. set_solver.
Qed.

Lemma partition_app c h r : c ∉ h → partition c (h ++ c :: r) = (h, true, r).
Proof.
  induction h as [|d h IH]; cbn; [by rewrite Z.eqb_refl|].
  intros [Hd Hh]%not_elem_of_cons. rewrite (proj2 (Z.eqb_neq d c)) by congruence.
  by rewrite IH.
Qed.

Lemma len_nonneg t : 0 ≤ len t.
Proof. unfold len. lia. Qed.

Lemma len_app t u : len (t ++ u) = len t + len u.
Proof. unfold len. rewrite length_app. lia. Qed.

#[export] Hint Resolve len_nonneg rfind_lower rfind_upper strip_idemp : aizzak.

(** ** Last occurrences and stripped strings *)

Lemma rfind_app c a r : c ∉ r → rfind c (a ++ c :: r) = len a.
Proof.
  intros Hr%rfind_not_elem. induction a as [|d a IH]; cbn [app rfind].
  - rewrite Hr, Z.eqb_refl. done.
  - rewrite IH. unfold len in *. cbn [length]. rewrite (proj2 (Z.leb_le _ _)) by lia. lia.
Qed.

Lemma rfind_elem c t : 0 ≤ rfind c t → ∃ a r, t = a ++ c :: r ∧ c ∉ r.
Proof.
  intros Hr. assert (c ∈ t) as Hin.
  { destruct (decide (c ∈ t)) as [|Hn]; [done|]. apply rfind_not_elem in Hn. lia. }
  destruct (list_elem_of_split_r t c Hin) as (a & r & -> & ?). eauto.
Qed.

Lemma slice_from_len a r : slice_from (len a) (a ++ r) = r.
Proof. unfold slice_from, len. rewrite Nat2Z.id. apply drop_app_length. Qed.

Lemma lstrip_id t : lstrip t = t ↔ ∀ c t', t = c :: t' → py_isspace c = false.
Proof.
  split; [|apply drop_while_id]. intros Ht c t' ->. by eapply drop_while_head.
Qed.

Lemma rstrip_id t : rstrip t = t ↔ ∀ a c, t = a ++ [c] → py_isspace c = false.
Proof.
  unfold rstrip. split.
  - intros Ht a c ->. rewrite rev_app_distr in Ht. cbn in Ht.
    destruct (py_isspace c) eqn:Ec; [|done]. exfalso.
    pose proof (drop_while_length py_isspace (rev a)) as Hl.
    apply (f_equal length) in Ht. rewrite length_rev, length_app in Ht. cbn in Ht.
    rewrite length_rev in Hl. lia.
  - intros Ht. rewrite drop_while_id; [by rewrite rev_involutive|].
    intros c t' Hrev. apply (Ht (rev t') c).
    by rewrite <- (rev_involutive t), Hrev.
Qed.

Lemma strip_id t : strip t = t ↔ lstrip t = t ∧ rstrip t = t.
Proof.
  split; [|by unfold strip; intros [-> ->]].
  intros <-. split; [apply lstrip_strip|apply rstrip_strip].
Qed.

(** Two stripped, non-empty pieces: only the outer ends matter. *)
Lemma strip_app_id a b :
  a ≠ [] → b ≠ [] → lstrip a = a → rstrip b = b → strip (a ++ b) = a ++ b.
Proof.
  intros Ha Hb Hl Hr. apply strip_id. rewrite lstrip_id, rstrip_id in *. split.
  - intros c t' Heq. destruct a as [|x a]; [done|]. injection Heq as -> _. by eapply Hl.
  - intros x c Heq. destruct b as [|y b _] using rev_ind; [done|].
    rewrite app_assoc in Heq. apply app_inj_tail in Heq as [_ ->]. by eapply Hr.
Qed.

Lemma rstrip_suffix a b : b ≠ [] → rstrip (a ++ b) = a ++ b → rstrip b = b.
Proof.
  rewrite !rstrip_id. intros Hb Hab x c ->. apply (Hab (a ++ x) c). by rewrite app_assoc.
Qed.

(** ** Words *)

Definition is_word (w : text) : Prop := w ≠ [] ∧ Forall (λ c, py_isspace c = false) w.

Lemma words_from_words w t :
  Forall (λ c, py_isspace c = false) w → Forall is_word (words_from w t).
Proof.
  revert w; induction t as [|c t IH]; intros w Hw; cbn [words_from].
  - case_bool_decide; [constructor|by repeat constructor].
  - destruct (py_isspace c) eqn:Hc.
    + case_bool_decide; [by apply IH|]. constructor; [done|by apply IH].
    + apply IH, Forall_app. split; [done|by repeat constructor].
Qed.

Lemma split_words t : Forall is_word (split t).
Proof. by apply words_from_words. Qed.

Lemma words_from_app w u t :
  Forall (λ c, py_isspace c = false) u → words_from w (u ++ t) = words_from (w ++ u) t.
Proof.
  intros Hu; revert w; induction Hu as [|c u Hc _ IH]; intros w; cbn; [by rewrite app_nil_r|].
  by rewrite Hc, IH, <- app_assoc.
Qed.

(** Joining words with a space and splitting gives them back. *)
Lemma split_join ws : Forall is_word ws → split (join [32] ws) = ws.
Proof.
  unfold split. induction 1 as [|w ws [Hne Hw] Hws IH]; [done|].
  destruct ws as [|w' ws]; cbn [join].
  - rewrite <- (app_nil_r w) at 1. rewrite words_from_app by done. cbn.
    by rewrite bool_decide_false.
  - rewrite words_from_app by done. cbn [app words_from].
    assert (py_isspace 32 = true) as -> by done. rewrite bool_decide_false by done. f_equal. exact IH.
Qed.

(** Every word and every space between two costs a character. *)
Lemma join_words_length ws :
  Forall is_word ws → 2 * Z.of_nat (length ws) - 1 ≤ len (join [32] ws).
Proof.
  unfold len. induction 1 as [|w ws [Hne Hw] Hws IH]; [cbn; lia|].
  destruct w as [|c w]; [done|]. destruct ws as [|w' ws]; cbn [join length] in *; [lia|].
  rewrite !length_app. cbn [length] in *. lia.
Qed.
