(* ===== verification/Calendar.v ===== *)
(** * Python's [datetime], as far as the code uses it

    An instant is a whole number of microseconds since 0001-01-01T00:00:00
    (Python's own resolution).  [ord2ymd] is CPython's [date.fromordinal]. *)

From S2P Require Import Prelude.

Open Scope Z_scope.

Definition us_per_second : Z := 1000000.
Definition us_per_day : Z := 86400 * us_per_second.
Definition MAXYEAR : Z := 9999.

Record date := mk_date { year : Z; month : Z; day : Z }.

#[export] Instance date_eq_dec : EqDecision date.
Proof. solve_decision. Defined.
#[export] Instance date_countable : Countable date.
Proof.
  refine (inj_countable' (λ d, (year d, month d, day d))
            (λ '(y, m, d), mk_date y m d) _); by intros [].
Defined.

Lemma date_eta d : mk_date (year d) (month d) (day d) = d.
Proof. by destruct d. Qed.

Definition is_leap (y : Z) : bool :=
  (y mod 4 =? 0) && (negb (y mod 100 =? 0) || (y mod 400 =? 0)).

Definition leap_day (y : Z) : Z := if is_leap y then 1 else 0.

Definition days_in_month (y m : Z) : Z :=
  if m =? 2 then 28 + leap_day y
  else if (m =? 4) || (m =? 6) || (m =? 9) || (m =? 11) then 30 else 31.

Definition days_before_year (y : Z) : Z :=
  let y := y - 1 in y * 365 + y / 4 - y / 100 + y / 400.

(** Days of the year before its [m]-th month. *)
Definition days_before_month (y m : Z) : Z :=
  match m with
  | 1 => 0 | 2 => 31 | 3 => 59 + leap_day y | 4 => 90 + leap_day y
  | 5 => 120 + leap_day y | 6 => 151 + leap_day y | 7 => 181 + leap_day y
  | 8 => 212 + leap_day y | 9 => 243 + leap_day y | 10 => 273 + leap_day y
  | 11 => 304 + leap_day y | _ => 334 + leap_day y
  end.

(** [date.toordinal]: 0001-01-01 is day 1. *)
Definition ymd2ord (d : date) : Z :=
  days_before_year (year d) + days_before_month (year d) (month d) + day d.

(** The month that holds the [n]-th day (from 0) of year [y]. *)
Fixpoint find_month (ms : list Z) (y n : Z) : Z :=
  match ms with
  | [] => 1
  | m :: ms => if days_before_month y m <=? n then m else find_month ms y n
  end.

Definition month_of_yday (y n : Z) : Z :=
  find_month [12; 11; 10; 9; 8; 7; 6; 5; 4; 3; 2] y n.

(** [date.fromordinal]. *)
Definition ord2ymd (n : Z) : date :=
  let n := n - 1 in
  let n400 := n / 146097 in let n := n mod 146097 in
  let n100 := n / 36524 in let n := n mod 36524 in
  let n4 := n / 1461 in let n := n mod 1461 in
  let n1 := n / 365 in let n := n mod 365 in
  let y := n400 * 400 + 1 + n100 * 100 + n4 * 4 + n1 in
  if (n1 =? 4) || (n100 =? 4) then mk_date (y - 1) 12 31
  else
    let m := month_of_yday y n in
    mk_date y m (n - days_before_month y m + 1).

Record valid_date (d : date) : Prop := {
  valid_month : 1 ≤ month d ≤ 12;
  valid_day : 1 ≤ day d ≤ days_in_month (year d) (month d)
}.

(** ** Ordinals and civil dates are in bijection *)

Lemma days_before_year_succ y :
  days_before_year (y + 1) = days_before_year y + 365 + leap_day y.
Proof.
  unfold days_before_year, leap_day, is_leap.
  replace (y + 1 - 1) with y by lia.
  assert (y / 4 = (y - 1) / 4 + (if y mod 4 =? 0 then 1 else 0)).
  { clear. destruct (y mod 4 =? 0) eqn:?; unbool; dlia. }
  assert (y / 100 = (y - 1) / 100 + (if y mod 100 =? 0 then 1 else 0)).
  { clear. destruct (y mod 100 =? 0) eqn:?; unbool; dlia. }
  assert (y / 400 = (y - 1) / 400 + (if y mod 400 =? 0 then 1 else 0)).
  { clear. destruct (y mod 400 =? 0) eqn:?; unbool; dlia. }
  destruct (y mod 4 =? 0) eqn:?, (y mod 100 =? 0) eqn:?, (y mod 400 =? 0) eqn:?;
    cbn; unbool; try lia; dlia.
Qed.

Lemma leap_day_bound y : 0 ≤ leap_day y ≤ 1.
Proof. unfold leap_day. case_match; lia. Qed.

Lemma month_cases m : 1 ≤ m ≤ 12 →
  m = 1 ∨ m = 2 ∨ m = 3 ∨ m = 4 ∨ m = 5 ∨ m = 6 ∨ m = 7 ∨ m = 8 ∨ m = 9 ∨
  m = 10 ∨ m = 11 ∨ m = 12.
Proof. lia. Qed.

Ltac month_split H :=
  apply month_cases in H;
  destruct H as [->|[->|[->|[->|[->|[->|[->|[->|[->|[->|[->| ->]]]]]]]]]]].

Lemma days_before_month_succ y m : 1 ≤ m < 12 →
  days_before_month y (m + 1) = days_before_month y m + days_in_month y m.
Proof.
  intros H. assert (Hm : 1 ≤ m ≤ 12) by lia. pose proof (leap_day_bound y).
  month_split Hm; try lia;
    match goal with |- context [days_before_month y (?a + 1)] =>
      let b := eval vm_compute in (a + 1) in change (a + 1) with b
    end; cbn; lia.
Qed.

Lemma days_before_month_last y :
  days_before_month y 12 + days_in_month y 12 = 365 + leap_day y.
Proof. cbn. lia. Qed.

Lemma month_of_yday_spec y n : 0 ≤ n < 365 + leap_day y →
  let m := month_of_yday y n in
  1 ≤ m ≤ 12 ∧ days_before_month y m ≤ n < days_before_month y m + days_in_month y m.
Proof.
  intros H. unfold month_of_yday. pose proof (leap_day_bound y).
  cbn [find_month]. cbn [days_before_month].
  repeat (case_match; unbool; [cbn; lia|]). cbn. lia.
Qed.

(** The ordinal of a valid date stays within its year. *)
Lemma ymd2ord_year d : valid_date d →
  days_before_year (year d) + 1 ≤ ymd2ord d ≤ days_before_year (year d + 1).
Proof.
  intros [Hm Hd]. rewrite days_before_year_succ. unfold ymd2ord.
  pose proof (leap_day_bound (year d)).
  destruct d as [y m dd]; cbn [year month day] in *.
  month_split Hm; cbn in *; lia.
Qed.

Lemma days_before_year_le y y' : y ≤ y' → days_before_year y ≤ days_before_year y'.
Proof. unfold days_before_year. intros H. dlia. Qed.

Lemma days_before_year_first : days_before_year 1 = 0.
Proof. done. Qed.

Lemma ord2ymd_cycle n400 n100 n4 n1 :
  0 ≤ n100 ≤ 3 → 0 ≤ n4 ≤ 24 → 0 ≤ n1 ≤ 3 →
  days_before_year (n400 * 400 + 1 + n100 * 100 + n4 * 4 + n1)
  = n400 * 146097 + n100 * 36524 + n4 * 1461 + n1 * 365.
Proof.
  intros. unfold days_before_year.
  replace (n400 * 400 + 1 + n100 * 100 + n4 * 4 + n1 - 1)
    with (n400 * 400 + n100 * 100 + n4 * 4 + n1) by dlia.
  replace ((n400 * 400 + n100 * 100 + n4 * 4 + n1) / 4)
    with (n400 * 100 + n100 * 25 + n4) by dlia.
  replace ((n400 * 400 + n100 * 100 + n4 * 4 + n1) / 100)
    with (n400 * 4 + n100) by dlia.
  replace ((n400 * 400 + n100 * 100 + n4 * 4 + n1) / 400) with n400 by dlia.
  lia.
Qed.

Lemma leap_day_cycle n400 n100 n4 n1 :
  0 ≤ n100 ≤ 3 → 0 ≤ n4 ≤ 24 → 0 ≤ n1 ≤ 3 →
  leap_day (n400 * 400 + 1 + n100 * 100 + n4 * 4 + n1)
  = if (n1 =? 3) && (negb (n4 =? 24) || (n100 =? 3)) then 1 else 0.
Proof.
  intros. unfold leap_day, is_leap.
  set (y := n400 * 400 + 1 + n100 * 100 + n4 * 4 + n1).
  assert (H4 : (y mod 4 =? 0) = (n1 =? 3)).
  { subst y. apply eq_bool_prop_intro. rewrite !Is_true_true, !Z.eqb_eq. dlia. }
  assert (H100 : (y mod 100 =? 0) = (n1 =? 3) && (n4 =? 24)).
  { subst y. apply eq_bool_prop_intro.
    rewrite !Is_true_true, andb_true_iff, !Z.eqb_eq. dlia. }
  assert (H400 : (y mod 400 =? 0) = (n1 =? 3) && (n4 =? 24) && (n100 =? 3)).
  { subst y. apply eq_bool_prop_intro.
    rewrite !Is_true_true, !andb_true_iff, !Z.eqb_eq. dlia. }
  rewrite H4, H100, H400.
  by destruct (n1 =? 3), (n4 =? 24), (n100 =? 3).
Qed.

Lemma valid_last y : valid_date (mk_date y 12 31).
Proof. split; cbn; lia. Qed.

Lemma ymd2ord_last y : ymd2ord (mk_date y 12 31) = days_before_year (y + 1).
Proof. rewrite days_before_year_succ. unfold ymd2ord. cbn [year month day].
  change (days_before_month y 12) with (334 + leap_day y). lia. Qed.

(** The four quotients of [ord2ymd], with their ranges. *)
Lemma ord2ymd_quotients n :
  let r := n mod 146097 in let s := r mod 36524 in let u := s mod 1461 in
  n = (n / 146097) * 146097 + (r / 36524) * 36524 + (s / 1461) * 1461
      + (u / 365) * 365 + u mod 365 ∧
  0 ≤ r / 36524 ≤ 4 ∧ 0 ≤ s / 1461 ≤ 24 ∧ 0 ≤ u / 365 ≤ 4 ∧ 0 ≤ u mod 365 < 365 ∧
  (u / 365 = 4 → u mod 365 = 0 ∧ s / 1461 ≤ 23 ∧ r / 36524 ≤ 3) ∧
  (r / 36524 = 4 → s / 1461 = 0 ∧ u / 365 = 0 ∧ u mod 365 = 0).
Proof. cbn zeta. repeat split; dlia. Qed.

Lemma ord2ymd_correct n : valid_date (ord2ymd n) ∧ ymd2ord (ord2ymd n) = n.
Proof.
  unfold ord2ymd. cbn zeta.
  pose proof (ord2ymd_quotients (n - 1)) as Hq. cbn zeta in Hq.
  set (a := (n - 1) / 146097) in *. set (r := (n - 1) mod 146097) in *.
  set (b := r / 36524) in *. set (s := r mod 36524) in *.
  set (c := s / 1461) in *. set (u := s mod 1461) in *.
  set (d := u / 365) in *. set (e := u mod 365) in *.
  clearbody a b c d e. clear r s u.
  destruct Hq as (Hn & Hb & Hc & Hd & He & Hd4 & Hb4).
  destruct (d =? 4) eqn:Ed; [|destruct (b =? 4) eqn:Eb]; cbn [orb]; unbool.
  - split; [apply valid_last|]. rewrite ymd2ord_last.
    replace (a * 400 + 1 + b * 100 + c * 4 + d - 1 + 1)
      with ((a * 400 + 1 + b * 100 + c * 4 + 3) + 1) by lia.
    rewrite days_before_year_succ, ord2ymd_cycle, leap_day_cycle by lia.
    rewrite (proj2 (Z.eqb_neq c 24)) by lia. cbn. lia.
  - split; [apply valid_last|]. rewrite ymd2ord_last.
    replace (a * 400 + 1 + b * 100 + c * 4 + d - 1 + 1)
      with ((a + 1) * 400 + 1 + 0 * 100 + 0 * 4 + 0) by lia.
    rewrite ord2ymd_cycle by lia. lia.
  - pose proof (ord2ymd_cycle a b c d) as Hy.
    set (y := a * 400 + 1 + b * 100 + c * 4 + d) in *. clearbody y.
    pose proof (leap_day_bound y).
    destruct (month_of_yday_spec y e) as [Hm Hd']; [lia|].
    split; [|unfold ymd2ord; cbn [year month day]; lia].
    by split; cbn [year month day]; [|lia].
Qed.

Lemma ymd2ord_ord2ymd n : ymd2ord (ord2ymd n) = n.
Proof. apply ord2ymd_correct. Qed.

Lemma ord2ymd_valid n : valid_date (ord2ymd n).
Proof. apply ord2ymd_correct. Qed.

Lemma days_before_month_le y m m' : 1 ≤ m → m < m' → m' ≤ 12 →
  days_before_month y m + days_in_month y m ≤ days_before_month y m'.
Proof.
  intros H1 Hlt H12. pose proof (leap_day_bound y).
  assert (Hm : 1 ≤ m ≤ 12) by lia. assert (Hm' : 1 ≤ m' ≤ 12) by lia.
  month_split Hm; month_split Hm'; try lia; cbn; lia.
Qed.

Lemma ymd2ord_inj d d' : valid_date d → valid_date d' → ymd2ord d = ymd2ord d' → d = d'.
Proof.
  intros Hv Hv' Heq. pose proof (ymd2ord_year d Hv). pose proof (ymd2ord_year d' Hv').
  assert (year d = year d') as Hy.
  { destruct (Z.lt_trichotomy (year d) (year d')) as [Hl|[Hl|Hl]]; [|done|].
    - pose proof (days_before_year_le (year d + 1) (year d')). lia.
    - pose proof (days_before_year_le (year d' + 1) (year d)). lia. }
  destruct Hv as [Hm Hd], Hv' as [Hm' Hd'].
  destruct d as [y m dd], d' as [y' m' dd']. unfold ymd2ord in Heq.
  cbn [year month day] in *. subst y'.
  destruct (Z.lt_trichotomy m m') as [Hl|[->|Hl]].
  - pose proof (days_before_month_le y m m'). lia.
  - f_equal. lia.
  - pose proof (days_before_month_le y m' m). lia.
Qed.

Lemma ord2ymd_ymd2ord d : valid_date d → ord2ymd (ymd2ord d) = d.
Proof. intros Hd. apply ymd2ord_inj; auto using ord2ymd_valid, ymd2ord_ord2ymd. Qed.

(** ** Instants *)

(** Microseconds since the midnight that starts ordinal 1. *)
Abbreviation instant := Z.

(** [datetime.date()] of a UTC instant. *)
Definition date_of (t : instant) : date := ord2ymd (t / us_per_day + 1).

(** [datetime(y, m, d, tzinfo=UTC)]. *)
Definition midnight (d : date) : instant := (ymd2ord d - 1) * us_per_day.

(** A [datetime] argument: its wall clock and, when it is aware, its UTC offset. *)
Record datetime := mk_datetime { wall : Z; utcoffset : option Z }.

(** [now.astimezone(UTC) if now.tzinfo is not None else now.replace(tzinfo=UTC)]. *)
Definition to_utc (t : datetime) : instant :=
  match utcoffset t with Some o => wall t - o | None => wall t end.

Definition aware_utc (t : instant) : datetime := mk_datetime t (Some 0).

Lemma to_utc_aware t : to_utc (aware_utc t) = t.
Proof. unfold to_utc, aware_utc. cbn. lia. Qed.

(** The first and the last month of a date's neighbourhood. *)
Definition first_of_month (d : date) : date := mk_date (year d) (month d) 1.

Definition next_month (d : date) : date :=
  if month d =? 12 then mk_date (year d + 1) 1 1 else mk_date (year d) (month d + 1) 1.

Lemma first_of_month_valid d : valid_date d → valid_date (first_of_month d).
Proof. intros [? ?]. split; cbn; lia. Qed.

Lemma ymd2ord_next_month d : valid_date d →
  ymd2ord (next_month d) = ymd2ord (first_of_month d) + days_in_month (year d) (month d).
Proof.
  intros [Hm _]. unfold next_month, first_of_month, ymd2ord.
  destruct d as [y m dd]; cbn [year month day] in *.
  destruct (m =? 12) eqn:E; unbool; cbn [year month day].
  - subst. rewrite days_before_year_succ. pose proof (days_before_month_last y).
    change (days_before_month (y + 1) 1) with 0. lia.
  - rewrite days_before_month_succ by lia. lia.
Qed.

(** A day lies in month [d] exactly between the two first-of-month midnights. *)
Lemma in_month d t : valid_date d →
  midnight (first_of_month d) ≤ t < midnight (next_month d) ↔
  year (date_of t) = year d ∧ month (date_of t) = month d.
Proof.
  intros Hd. pose proof (ymd2ord_next_month d Hd) as Hn. unfold midnight, date_of.
  set (n := t / us_per_day + 1).
  assert (Ht : (ymd2ord (first_of_month d) - 1) * us_per_day ≤ t
               < (ymd2ord (next_month d) - 1) * us_per_day
          ↔ ymd2ord (first_of_month d) ≤ n < ymd2ord (next_month d)).
  { subst n. unfold us_per_day, us_per_second. split; intros; dlia. }
  rewrite Ht, Hn. clear Ht Hn. clearbody n. destruct Hd as [Hm Hdd]. split.
  - intros Hr. set (k := n - ymd2ord (first_of_month d) + 1).
    enough (ord2ymd n = mk_date (year d) (month d) k) as -> by done.
    apply ymd2ord_inj; [apply ord2ymd_valid|split; cbn; subst k; lia|].
    rewrite ymd2ord_ord2ymd. subst k. unfold ymd2ord, first_of_month. cbn. lia.
  - intros [Hy Hmo]. pose proof (ord2ymd_valid n) as [_ Hd'].
    rewrite <- (ymd2ord_ord2ymd n). unfold ymd2ord, first_of_month. cbn.
    rewrite Hy, Hmo in *. lia.
Qed.

(** [date + timedelta(days=1)], back as the midnight that starts it. *)
Lemma in_day d t : valid_date d →
  midnight d ≤ t < midnight d + us_per_day ↔ date_of t = d.
Proof.
  intros Hd. unfold midnight, date_of. split.
  - intros Hr. rewrite <- (ord2ymd_ymd2ord d Hd). f_equal.
    unfold us_per_day, us_per_second in *. dlia.
  - intros <-. rewrite ymd2ord_ord2ymd. unfold us_per_day, us_per_second. dlia.
Qed.

Lemma date_of_valid t : valid_date (date_of t).
Proof. apply ord2ymd_valid. Qed.

Lemma midnight_succ d : midnight (ord2ymd (ymd2ord d + 1)) = midnight d + us_per_day.
Proof. unfold midnight. rewrite ymd2ord_ord2ymd. lia. Qed.

#[export] Hint Resolve date_of_valid ord2ymd_valid first_of_month_valid : aizzak.

#[global] Arguments midnight : simpl never.
#[global] Arguments date_of : simpl never.
#[global] Arguments ymd2ord : simpl never.
#[global] Arguments ord2ymd : simpl never.
