(* ===== verification/Errors.v ===== *)
(** * The shared error hierarchy ([framework/errors.py])

    A machine code alone decides the HTTP status: the catalog is looked up when
    an [AppError] is built, whatever class the raiser reached for.  The human
    [detail] text is not modelled; every other attribute is. *)

From S2P Require Import Prelude.

Open Scope Z_scope.
#[local] Open Scope string_scope.

Record ProblemSpec := mk_ProblemSpec { spec_status : Z; title : string }.

Definition ERROR_CATALOG : list (string * ProblemSpec) :=
  [("common.internal", mk_ProblemSpec 500 "Unexpected internal error");
   ("common.not_found", mk_ProblemSpec 404 "Resource not found");
   ("common.conflict", mk_ProblemSpec 409 "Conflicting state");
   ("common.validation_error", mk_ProblemSpec 422 "Request validation failed");
   ("common.invalid_cursor", mk_ProblemSpec 422 "Malformed pagination cursor");
   ("common.rate_limited", mk_ProblemSpec 429 "Rate limit exceeded");
   ("common.too_large", mk_ProblemSpec 413 "Payload exceeds maximum size");
   ("common.unsupported_type", mk_ProblemSpec 415 "Unsupported content type");
   ("common.method_not_allowed", mk_ProblemSpec 405 "Method not allowed");
   ("auth.missing_token", mk_ProblemSpec 401 "Missing bearer token");
   ("auth.invalid_token", mk_ProblemSpec 401 "Invalid or expired token");
   ("authz.forbidden", mk_ProblemSpec 403 "Insufficient permissions");
   ("agent.unknown", mk_ProblemSpec 404 "Unknown agent");
   ("agent.failed", mk_ProblemSpec 502 "Agent execution failed");
   ("workflow.unknown", mk_ProblemSpec 404 "Unknown workflow");
   ("files.too_large", mk_ProblemSpec 413 "File exceeds maximum size");
   ("files.unsupported_type", mk_ProblemSpec 415 "Unsupported file type");
   ("files.too_many", mk_ProblemSpec 409 "Workspace file limit reached");
   ("files.multipart_required", mk_ProblemSpec 413 "File needs a multipart upload");
   ("files.upload_incomplete", mk_ProblemSpec 409 "Multipart upload is incomplete");
   ("files.upload_expired", mk_ProblemSpec 409 "Multipart upload no longer exists");
   ("electrical.disabled", mk_ProblemSpec 503 "WireTwin is not enabled on this deployment");
   ("electrical.project_exists", mk_ProblemSpec 409 "The space already has a WireTwin project");
   ("electrical.invalid_profile", mk_ProblemSpec 422 "Drawing profile is invalid");
   ("electrical.not_a_pdf", mk_ProblemSpec 415 "Only PDF files can be registered as drawings");
   ("electrical.file_not_in_project_space", mk_ProblemSpec 422 "File belongs to another space");
   ("electrical.document_exists", mk_ProblemSpec 409 "File is already a drawing document");
   ("electrical.namesake_not_replaced", mk_ProblemSpec 409 "An older file with this name and tags is still live");
   ("electrical.duplicate_document", mk_ProblemSpec 409 "The same content is already a document of this project");
   ("electrical.ingestion_queue_full", mk_ProblemSpec 429 "Ingestion queue protection limit reached");
   ("electrical.job_conflict", mk_ProblemSpec 409 "Ingestion job is not in a state that allows this");
   ("electrical.profile_unconfirmed", mk_ProblemSpec 409 "The document profile awaits confirmation");
   ("electrical.pdf_rejected", mk_ProblemSpec 422 "PDF could not be opened");
   ("electrical.too_many_pages", mk_ProblemSpec 422 "PDF exceeds the page limit");
   ("electrical.source_unreadable", mk_ProblemSpec 422 "The file's bytes could not be read");
   ("electrical.document_not_live", mk_ProblemSpec 409 "The document is no longer live");
   ("knowledge.unsupported_type", mk_ProblemSpec 415 "Unsupported document type");
   ("knowledge.empty_content", mk_ProblemSpec 422 "Document has no content");
   ("knowledge.parse_failed", mk_ProblemSpec 422 "Document could not be parsed");
   ("knowledge.zip_bomb", mk_ProblemSpec 422 "Document archive failed the zip-bomb guard");
   ("knowledge.parse_timeout", mk_ProblemSpec 422 "Document parsing timed out");
   ("knowledge.too_large", mk_ProblemSpec 422 "Document exceeds the indexing size limit");
   ("knowledge.search_unavailable", mk_ProblemSpec 503 "Knowledge search is not available");
   ("knowledge.space_required", mk_ProblemSpec 422 "Retrieval requires a space");
   ("media.invalid_params", mk_ProblemSpec 422 "Invalid generation parameters");
   ("media.unsupported_kind", mk_ProblemSpec 422 "Unsupported media kind");
   ("spaces.duplicate_name", mk_ProblemSpec 409 "Space name already in use");
   ("spaces.quota_exceeded", mk_ProblemSpec 409 "Space storage quota reached");
   ("spaces.cross_space_pin", mk_ProblemSpec 409 "File belongs to another space");
   ("credentials.provider_unknown", mk_ProblemSpec 422 "Unknown provider");
   ("credentials.none_available", mk_ProblemSpec 409 "No credential available for provider");
   ("integrations.connector_unknown", mk_ProblemSpec 422 "Unknown connector");
   ("integrations.not_connected", mk_ProblemSpec 409 "Connector is not connected");
   ("integrations.oauth_failed", mk_ProblemSpec 502 "OAuth exchange failed");
   ("integrations.oauth_state_invalid", mk_ProblemSpec 422 "Invalid or expired OAuth state");
   ("integrations.too_many", mk_ProblemSpec 409 "Workspace connector limit reached");
   ("integrations.mcp_transport_unsupported", mk_ProblemSpec 422 "Unsupported MCP transport");
   ("integrations.mcp_unreachable", mk_ProblemSpec 502 "MCP server unreachable");
   ("integrations.tools_unavailable", mk_ProblemSpec 503 "Tool catalog is not available");
   ("usage.quota_exceeded", mk_ProblemSpec 429 "Usage quota exceeded");
   ("usage.budget_exceeded", mk_ProblemSpec 429 "Budget exceeded")].

Fixpoint assoc {A} (k : string) (l : list (string * A)) : option A :=
  match l with
  | [] => None
  | (k', a) :: l => if String.eqb k k' then Some a else assoc k l
  end.

Definition spec_for (code : string) : option ProblemSpec := assoc code ERROR_CATALOG.

(** The subclasses of [AppError], each with its class-level code and status. *)
Inductive error_class : Type :=
  | AppError | NotFoundError | ConflictError | ValidationError | ForbiddenError
  | UnauthorizedError | TooLargeError | UnsupportedTypeError | RateLimitedError.

#[export] Instance error_class_eq_dec : EqDecision error_class.
Proof. solve_decision. Defined.

Definition class_default (c : error_class) : string * Z :=
  match c with
  | AppError => ("common.internal", 500)
  | NotFoundError => ("common.not_found", 404)
  | ConflictError => ("common.conflict", 409)
  | ValidationError => ("common.validation_error", 422)
  | ForbiddenError => ("authz.forbidden", 403)
  | UnauthorizedError => ("auth.invalid_token", 401)
  | TooLargeError => ("common.too_large", 413)
  | UnsupportedTypeError => ("common.unsupported_type", 415)
  | RateLimitedError => ("common.rate_limited", 429)
  end.

Record app_error := mk_app_error {
  err_class : error_class;
  err_code : string;
  err_status : Z;
  err_retry_after_s : option Z
}.

#[export] Instance app_error_eq_dec : EqDecision app_error.
Proof. solve_decision. Defined.

(** [AppError.__init__]: the code's catalog row decides the status; an explicit
    [status] still wins. *)
Definition app_error_init (c : error_class) (code : option string) (status : option Z)
    : app_error :=
  let '(code0, status0) := class_default c in
  let code1 := default code0 code in
  let status1 :=
    match code with
    | Some k => match spec_for k with Some s => spec_status s | None => status0 end
    | None => status0
    end in
  mk_app_error c code1 (default status1 status) None.

(** [RateLimitedError.__init__]: a non-positive hint is dropped, never clamped. *)
Definition rate_limited_init (code : option string) (status retry_after : option Z)
    : app_error :=
  let e := app_error_init RateLimitedError code status in
  mk_app_error (err_class e) (err_code e) (err_status e)
    (match retry_after with
     | Some r => if (0 <? r)%Z then Some r else None
     | None => None
     end).

(** Shorthands for the usual raise sites. *)
Definition raise_class (c : error_class) : app_error := app_error_init c None None.
Definition raise_code (c : error_class) (code : string) : app_error :=
  app_error_init c (Some code) None.

(** Any exception a handler can raise: one of ours, or some other Python class. *)
Inductive exn : Type :=
  | App (e : app_error)
  | Other (cls : string).

#[export] Instance exn_eq_dec : EqDecision exn.
Proof. solve_decision. Defined.

(** ** The catalog is a function, and the classes agree with it *)

Lemma assoc_elem {A} k (a : A) l : assoc k l = Some a → (k, a) ∈ l.
Proof.
  induction l as [|[k' b] l IH]; cbn; [done|].
  destruct (String.eqb_spec k k') as [->|]; [intros [= ->]|]; set_solver.
Qed.

Lemma assoc_Some {A} k (a : A) l : NoDup l.*1 → (k, a) ∈ l → assoc k l = Some a.
Proof.
  induction l as [|[k' b] l IH]; cbn; [set_solver|].
  intros [Hk' Hl]%NoDup_cons [[= -> ->]|Hin]%elem_of_cons.
  - by rewrite String.eqb_refl.
  - destruct (String.eqb_spec k k') as [->|]; [|by apply IH].
    destruct Hk'. by apply (list_elem_of_fmap_2 fst _ (k', a)).
Qed.

Definition error_classes : list error_class :=
  [AppError; NotFoundError; ConflictError; ValidationError; ForbiddenError;
   UnauthorizedError; TooLargeError; UnsupportedTypeError; RateLimitedError].

(** The classes and the catalog tell one story about [c]. *)
Definition class_agrees (c : error_class) : bool :=
  match spec_for (fst (class_default c)) with
  | Some s => (spec_status s =? snd (class_default c))%Z
  | None => false
  end.

Lemma catalog_NoDup : NoDup ERROR_CATALOG.*1.
Proof. apply (bool_decide_unpack _). vm_compute. exact I. Qed.

Lemma catalog_statuses :
  Forall (λ row, (400 ≤ spec_status row.2 < 600)%Z) ERROR_CATALOG.
Proof. apply (bool_decide_unpack _). vm_compute. exact I. Qed.

Lemma classes_agree c : class_agrees c = true.
Proof. destruct c; vm_compute; reflexivity. Qed.

(** A problem code means one thing.  Codes are unique and every one is an HTTP
    error; an [AppError] raised with a catalogued code and no explicit status has the
    catalogued status whatever its class; and naming a class's own code changes
    nothing, so raising by class and raising by code agree. *)
Theorem code_decides_status :
  NoDup ERROR_CATALOG.*1 ∧
  (∀ c k s, (k, s) ∈ ERROR_CATALOG →
     err_status (app_error_init c (Some k) None) = spec_status s ∧
     (400 ≤ err_status (app_error_init c (Some k) None) < 600)%Z) ∧
  (∀ c, raise_class c = raise_code c (fst (class_default c))) ∧
  (∀ code status r n, err_retry_after_s (rate_limited_init code status (Some r)) = Some n ↔
     n = r ∧ (0 < r)%Z).
Proof.
  split_and!; [apply catalog_NoDup| | |].
  - intros c k s Hin. unfold app_error_init, spec_for. destruct (class_default c) as [k0 s0].
    rewrite (assoc_Some k s) by (done || apply catalog_NoDup). cbn. split; [done|].
    pose proof catalog_statuses as Hall. rewrite Forall_forall in Hall. by apply Hall in Hin.
  - intros c. pose proof (classes_agree c) as Hc. unfold class_agrees in Hc.
    unfold raise_class, raise_code, app_error_init. destruct (class_default c) as [k0 s0].
    cbn [fst snd default] in *. destruct (spec_for k0) as [s|]; [|done].
    apply Z.eqb_eq in Hc. cbn. by rewrite Hc.
  - intros code status r n. unfold rate_limited_init. cbn.
    destruct (Z.ltb_spec 0 r); naive_solver lia.
Qed.
