(* ===== verification/Framework.v ===== *)
(** * Execution context, clock, identifiers and units of work

    [framework/context/execution_context.py], [framework/clock.py],
    [framework/identifiers.py] and the [UnitOfWork] discipline. *)

From S2P Require Import Prelude Text Calendar Errors.

Open Scope Z_scope.

Record ExecutionContext := mk_ExecutionContext {
  workspace_id : text;
  user_id : option text;
  correlation_id : text;
  roles : list text;
  request_id : option text
}.

(** What the application reads from outside: successive readings of the system
    clock and successive outputs of [uuid6.uuid7]. *)
Class Env := {
  clock : nat → instant;
  uuid7 : nat → text
}.

(** The documented behaviour of both: time never goes back and a UUIDv7 is never
    minted twice. *)
Class EnvLaws (E : Env) := {
  clock_mono : ∀ i j, (i ≤ j)%nat → clock i ≤ clock j;
  uuid7_inj : ∀ i j, uuid7 i = uuid7 j → i = j
}.

(** The world an application service runs in: a store, and how many readings of
    the clock and fresh identifiers have been consumed so far. *)
Record World (L : Type) := mk_World { store : L; ticks : nat; minted : nat }.
Arguments mk_World {L}.
Arguments store {L}.
Arguments ticks {L}.
Arguments minted {L}.

(** One unit of work: an exception rolls the whole body back. *)
Definition io (L A : Type) : Type := tx (World L) exn A.

Section Io.
Context `{Env} {L : Type}.

(** [framework/clock.py] *)
Definition utc_now : io L instant :=
  λ w, Ok (clock (ticks w), mk_World (store w) (S (ticks w)) (minted w)).

(** [framework/identifiers.py] *)
Definition new_uuid7 : io L text :=
  λ w, Ok (uuid7 (minted w), mk_World (store w) (ticks w) (S (minted w))).

Definition query {A} (q : L → result exn A) : io L A :=
  λ w, match q (store w) with Ok a => Ok (a, w) | Err e => Err e end.

Definition update {A} (u : L → result exn (A * L)) : io L A :=
  λ w, match u (store w) with
       | Ok (a, s) => Ok (a, mk_World s (ticks w) (minted w))
       | Err e => Err e
       end.

Lemma utc_now_Ok t w w' : utc_now w = Ok (t, w') ↔
  t = clock (ticks w) ∧ w' = mk_World (store w) (S (ticks w)) (minted w).
Proof. unfold utc_now. naive_solver. Qed.

Lemma new_uuid7_Ok t w w' : new_uuid7 w = Ok (t, w') ↔
  t = uuid7 (minted w) ∧ w' = mk_World (store w) (ticks w) (S (minted w)).
Proof. unfold new_uuid7. naive_solver. Qed.

Lemma query_Ok {A} (q : L → result exn A) a w w' :
  query q w = Ok (a, w') ↔ q (store w) = Ok a ∧ w' = w.
Proof. unfold query. case_match; naive_solver. Qed.

Lemma update_Ok {A} (u : L → result exn (A * L)) a w w' :
  update u w = Ok (a, w') ↔
  u (store w) = Ok (a, store w') ∧ ticks w' = ticks w ∧ minted w' = minted w.
Proof.
  unfold update. destruct (u (store w)) as [[a' s]|e]; [|naive_solver].
  destruct w'; cbn. naive_solver.
Qed.
End Io.

Ltac unio :=
  untx;
  repeat (match goal with
  | H : utc_now _ = Ok _ |- _ => apply utc_now_Ok in H as [? ?]
  | H : new_uuid7 _ = Ok _ |- _ => apply new_uuid7_Ok in H as [? ?]
  | H : query _ _ = Ok _ |- _ => apply query_Ok in H as [? ?]
  | H : update _ _ = Ok _ |- _ => apply update_Ok in H as (? & ? & ?)
  end; untx).

(** A concrete environment: a clock that ticks once a second from a given instant,
    and one-character identifiers. *)
Definition demo_env (start : instant) : Env :=
  {| clock i := start + Z.of_nat i * us_per_second; uuid7 i := [Z.of_nat i] |}.

#[export] Instance demo_env_laws start : EnvLaws (demo_env start).
Proof.
  split; cbn.
  - intros i j Hle. unfold us_per_second. lia.
  - intros i j Heq. injection Heq as Heq. lia.
Qed.

Definition demo_ctx : ExecutionContext := mk_ExecutionContext (txt "ws1") None (txt "corr") [] None.
Definition demo_world {L} (s : L) : World L := mk_World s 0 0.
