(* ===== verification/Transactions.v ===== *)
(** * Transactions: the database as a service sees it

    [infrastructure/persistence/rls.py]: one session per call, or one for a whole unit
    of work that every call inside it joins.  A statement may fail; so may a commit, and
    then it may have taken effect all the same. *)

From S2P Require Import Prelude Text Calendar Errors Framework.

Open Scope Z_scope.

(** How a statement may fail: a [DBAPIError] with its SQLSTATE, or an exception the
    adapters do not catch. *)
Inductive DbFault : Type := Dbapi (sqlstate : option text) | Escapes (e : exn).

(** What the database does with the [i]-th round trip of this process: its [now()], and
    whether the trip fails and, for a commit, had taken effect. *)
Class Database := {
  now_at : nat → instant;
  fault : nat → option (DbFault * bool)
}.

Definition internal_exn : exn := App (raise_code AppError "common.internal").
Definition conflict_exn : exn := App (raise_class ConflictError).

(** [except DBAPIError as exc: raise _translate(exc)] *)
Definition translated (translate : option text → exn) (f : DbFault) : exn :=
  match f with Dbapi st => translate st | Escapes e => e end.

(** [_translate] of the adapters: a lost uniqueness race is a conflict. *)
Definition translate_unique (sqlstate : option text) : exn :=
  if bool_decide (sqlstate = Some (txt "23505")) then conflict_exn else internal_exn.

Definition unique_violation : DbFault := Dbapi (Some (txt "23505")).
Definition insufficient_privilege : DbFault := Dbapi (Some (txt "42501")).

(** The world of a service: the database, what else it acts on, the workspace of the
    unit of work under way, the round trips so far, when the transaction began, and the
    readings of the clock and of [uuid7]. *)
Record DbWorld (S V : Type) := mk_DbWorld {
  db : S;
  ext : V;
  active : option text;
  began : instant;
  issued : nat;
  ticks : nat;
  minted : nat
}.
Arguments mk_DbWorld {S V}.
Arguments db {S V}.
Arguments ext {S V}.
Arguments active {S V}.
Arguments began {S V}.
Arguments issued {S V}.
Arguments ticks {S V}.
Arguments minted {S V}.

Section Transactions.
Context {S V : Type} `{Env, DB : Database}.
Abbreviation W := (DbWorld S V).
Implicit Types (w : W).

Definition with_db (s : S) w : W :=
  mk_DbWorld s (ext w) (active w) (began w) (issued w) (ticks w) (minted w).
Definition with_active (a : option text) w : W :=
  mk_DbWorld (db w) (ext w) a (began w) (issued w) (ticks w) (minted w).
Definition counted w : W :=
  mk_DbWorld (db w) (ext w) (active w) (began w) (1 + issued w) (ticks w) (minted w).
Definition starting w : W :=
  mk_DbWorld (db w) (ext w) (active w) (now_at (issued w)) (issued w) (ticks w) (minted w).

(** One statement of the open transaction. *)
Definition execute {A} (q : S → result DbFault (A * S)) : eff W DbFault A :=
  λ w, match fault (issued w) with
       | Some (f, _) => (Err f, counted w)
       | None =>
           match q (db w) with
           | Ok (a, s) => (Ok a, with_db s (counted w))
           | Err f => (Err f, counted w)
           end
       end.

(** [async with sessionmaker() as session, session.begin()] and its [set_tenant]: an
    exception rolls back, a clean exit commits. *)
Definition in_transaction {E A} (raised : DbFault → E) (body : eff W E A) : eff W E A :=
  λ w, match execute (λ s, Ok (tt, s)) (starting w) with
       | (Err f, w1) => (Err (raised f), w1)
       | (Ok _, w1) =>
           match body w1 with
           | (Err e, w2) => (Err e, with_db (db w) w2)
           | (Ok a, w2) =>
               match fault (issued w2) with
               | None => (Ok a, counted w2)
               | Some (f, committed) =>
                   (Err (raised f),
                    if committed : bool then counted w2 else with_db (db w) (counted w2))
               end
           end
       end.

(** [TenantSessionFactory.begin]; outside an adapter nothing translates a driver error. *)
Definition begin {A} (ctx : ExecutionContext) (body : eff W exn A) : eff W exn A :=
  in_transaction (translated (λ _, Other "DBAPIError"))
    (λ w, let '(r, w') := body (with_active (Some (workspace_id ctx)) w) in
          (r, with_active (active w) w')).

(** [TenantSessionFactory.__call__]: join the unit of work under way, or open one's own. *)
Definition tenant_session {A} (ctx : ExecutionContext) (body : eff W DbFault A) : eff W DbFault A :=
  λ w, match active w with
       | Some ws => if bool_decide (ws = workspace_id ctx) then body w else (Err (Escapes internal_exn), w)
       | None => in_transaction id body w
       end.

(** An adapter's method. *)
Definition adapter {A} (translate : option text → exn) (ctx : ExecutionContext)
    (body : eff W DbFault A) : eff W exn A :=
  λ w, match tenant_session ctx body w with
       | (Ok a, w') => (Ok a, w')
       | (Err f, w') => (Err (translated translate f), w')
       end.

Definition utc_now : eff W exn instant :=
  λ w, (Ok (clock (ticks w)),
        mk_DbWorld (db w) (ext w) (active w) (began w) (issued w) (1 + ticks w) (minted w)).
Definition new_uuid7 : eff W exn text :=
  λ w, (Ok (uuid7 (minted w)),
        mk_DbWorld (db w) (ext w) (active w) (began w) (issued w) (ticks w) (1 + minted w)).

(** A call to something outside the database. *)
Definition outside {A} (m : eff V exn A) : eff W exn A :=
  λ w, let '(r, v) := m (ext w) in
       (r, mk_DbWorld (db w) v (active w) (began w) (issued w) (ticks w) (minted w)).

(** ** What a transaction does to the database *)

Lemma execute_run {A} (q : S → result DbFault (A * S)) w r w' :
  execute q w = (r, w') →
  active w' = active w ∧
  ((∃ f, r = Err f ∧ db w' = db w) ∨ ∃ a, r = Ok a ∧ q (db w) = Ok (a, db w')).
Proof.
  unfold execute. destruct (fault (issued w)) as [[f c]|].
  - intros [= <- <-]. split; [done|left; by exists f].
  - destruct (q (db w)) as [[a s]|f] eqn:Hq; intros [= <- <-]; (split; [done|]);
      [right; by exists a|left; by exists f].
Qed.

(** A transaction leaves the database as it was or as its body left it, the latter when
    it returns. *)
Lemma in_transaction_run {E A} (raised : DbFault → E) (body : eff W E A) w r w' :
  in_transaction raised body w = (r, w') →
  (is_ok r = false ∧ db w' = db w) ∨
  ∃ a w1 w2, db w1 = db w ∧ active w1 = active w ∧ ext w1 = ext w ∧ ticks w1 = ticks w ∧
    minted w1 = minted w ∧
    body w1 = (Ok a, w2) ∧ db w' = db w2 ∧ active w' = active w2 ∧ (r = Ok a ∨ is_ok r = false).
Proof.
  unfold in_transaction, execute. destruct (fault (issued (starting w))) as [[f c]|];
    [intros [= <- <-]; by left|].
  set (w1 := with_db _ _). destruct (body w1) as [[a|e] w2] eqn:Hb; [|intros [= <- <-]; by left].
  assert (∀ x, is_ok x = false ∨ x = Ok a → (x, counted w2) = (r, w') →
    ∃ a0 w3 w4, db w3 = db w ∧ active w3 = active w ∧ ext w3 = ext w ∧ ticks w3 = ticks w ∧
      minted w3 = minted w ∧ body w3 = (Ok a0, w4) ∧
      db w' = db w4 ∧ active w' = active w4 ∧ (r = Ok a0 ∨ is_ok r = false)) as Hdone.
  { intros x Hx [= <- <-]. exists a, w1, w2. split_and!; [done..|]. destruct Hx; [by right|by left]. }
  destruct (fault (issued w2)) as [[f c]|]; [|intros Heq; right; eapply Hdone; [|exact Heq]; by right].
  destruct c; intros Heq; [right; eapply Hdone; [|exact Heq]; by left|]. injection Heq as <- <-. by left.
Qed.

Lemma begin_run {A} ctx (body : eff W exn A) w r w' :
  begin ctx body w = (r, w') →
  (is_ok r = false ∧ db w' = db w) ∨
  ∃ a w1 w2, db w1 = db w ∧ active w1 = Some (workspace_id ctx) ∧ ext w1 = ext w ∧
    ticks w1 = ticks w ∧ minted w1 = minted w ∧
    body w1 = (Ok a, w2) ∧ db w' = db w2 ∧ (r = Ok a ∨ is_ok r = false).
Proof.
  intros [?|(a & w1 & w2 & Hd & Ha & He & Ht & Hm & Hb & Hd' & _ & Hr)]%in_transaction_run; [by left|right].
  destruct (body (with_active _ w1)) as [r1 w3] eqn:Hbody. injection Hb as -> <-.
  by exists a, (with_active (Some (workspace_id ctx)) w1), w3.
Qed.

(** A method with one statement. *)
Lemma adapter_run {A} translate ctx (q : S → result DbFault (A * S)) w r w' :
  adapter translate ctx (execute q) w = (r, w') →
  (is_ok r = false ∧ db w' = db w) ∨
  ∃ a s, q (db w) = Ok (a, s) ∧ db w' = s ∧ (r = Ok a ∨ (is_ok r = false ∧ active w = None)).
Proof.
  unfold adapter, tenant_session. destruct (active w) as [ws|] eqn:Ha.
  - case_bool_decide; [|intros [= <- <-]; by left].
    destruct (execute q w) as [r1 w1] eqn:He.
    apply execute_run in He as [_ [(f & -> & Hd)|(a & -> & Hq)]]; intros [= <- <-]; [by left|].
    right. exists a, (db w1). by split_and!; [..|left].
  - destruct (in_transaction id (execute q) w) as [r1 w1] eqn:Ht.
    apply in_transaction_run in Ht as [[Hr Hd]|(a & w2 & w3 & Hd & _ & _ & _ & _ & He & Hd' & _ & Hr)].
    { destruct r1; [done|]. intros [= <- <-]. by left. }
    apply execute_run in He as [_ [(f & ? & _)|(a' & Heq & Hq)]]; [done|]. injection Heq as <-.
    rewrite Hd in Hq. destruct r1 as [a1|f]; intros [= <- <-]; right; exists a, (db w3).
    + split_and!; [done..|]. left. destruct Hr as [Hr|?]; [by injection Hr as ->|done].
    + split_and!; [done..|]. right. by split.
Qed.

Lemma adapter_Ok {A} translate ctx (q : S → result DbFault (A * S)) w a w' :
  adapter translate ctx (execute q) w = (Ok a, w') → q (db w) = Ok (a, db w').
Proof.
  intros [[? _]|(a' & s & Hq & <- & [[= ->]|[? _]])]%adapter_run; done.
Qed.
End Transactions.
