(* ===== verification/Sessions.v ===== *)
(** * Sessions: what a method of an adapter does to the database

    Rules for the bodies of [Transactions.adapter] of several statements: each statement is
    described by a relation between the database before and after it, the transaction by
    their composition. *)

From S2P Require Import Prelude Text Calendar Errors Framework Transactions.

Section Sessions.
Context {S V : Type} `{Env, DB : Database}.
Abbreviation W := (DbWorld S V).
Implicit Types (w : W).

(** What a transaction leaves alone. *)
Definition frame w w' : Prop :=
  active w' = active w ∧ ext w' = ext w ∧ ticks w' = ticks w ∧ minted w' = minted w.

#[export] Instance frame_preorder : PreOrder frame.
Proof.
  split; [by intros w|]. intros w1 w2 w3 (? & ? & ? & ?) (? & ? & ? & ?). split_and!; congruence.
Qed.

(** [body], in a transaction that began at [now], takes the database along [R]; when it fails,
    the transaction is rolled back. *)
Definition runs {A} (body : eff W DbFault A) (R : instant → S → A → S → Prop) : Prop :=
  ∀ w r w', body w = (r, w') → frame w w' ∧ began w' = began w ∧
    match r with Ok a => R (began w) (db w) a (db w') | Err _ => True end.

Lemma runs_execute {A} (q : instant → S → result DbFault (A * S)) :
  runs (λ w, execute (q (began w)) w) (λ now d a d', q now d = Ok (a, d')).
Proof.
  intros w r w'. unfold execute. destruct (fault (issued w)) as [[f c]|]; [by intros [= <- <-]|].
  destruct (q (began w) (db w)) as [[a d']|f] eqn:Hq; by intros [= <- <-].
Qed.

Lemma runs_ret {A} (a : A) : runs (eff_ret _ a) (λ _ d a' d', a' = a ∧ d' = d).
Proof. by intros w r w' [= <- <-]. Qed.

Lemma runs_bind {A B} (m : eff W DbFault A) (k : A → eff W DbFault B) R T :
  runs m R → (∀ a, runs (k a) (T a)) →
  runs (a ← m; k a) (λ now d b d', ∃ a d1, R now d a d1 ∧ T a now d1 b d').
Proof.
  intros Hm Hk w r w' [(f & Hf & ->)|(a & w1 & Ha & Hr)]%eff_bind_run.
  - destruct (Hm w _ _ Hf) as (? & ? & _). done.
  - destruct (Hm w _ _ Ha) as (Hfr & Hbeg & HR). destruct (Hk a w1 _ _ Hr) as (Hfr' & Hbeg' & HT).
    rewrite Hbeg in *. split_and!; [by etrans|done|]. destruct r as [b|f]; [|done]. by exists a, (db w1).
Qed.

Lemma runs_mono {A} (m : eff W DbFault A) (R T : instant → S → A → S → Prop) :
  runs m R → (∀ now d a d', R now d a d' → T now d a d') → runs m T.
Proof.
  intros Hm HT w r w' Hr. destruct (Hm w r w' Hr) as (? & ? & HR). split_and!; [done..|].
  destruct r; [by apply HT|done].
Qed.

(** A method called outside any unit of work: the database is as it was, or as the
    transaction left it -- the latter when the call returns. *)
Lemma adapter_runs {A} translate ctx (body : eff W DbFault A) R w r w' :
  runs body R → active w = None → adapter translate ctx body w = (r, w') →
  frame w w' ∧
  ((is_ok r = false ∧ db w' = db w) ∨
   ∃ a now, R now (db w) a (db w') ∧ (r = Ok a ∨ is_ok r = false)).
Proof.
  intros Hb Ha. unfold adapter, tenant_session, in_transaction. rewrite Ha.
  unfold execute at 1. destruct (fault (issued (starting w))) as [[f c]|]; [intros [= <- <-]; split; [done|by left]|].
  set (w1 := with_db _ _). destruct (body w1) as [r1 w2] eqn:Hbody.
  destruct (Hb w1 _ _ Hbody) as (Hf & _ & HR). destruct r1 as [a|f]; [|intros [= <- <-]; split; [done|by left]].
  destruct (fault (issued w2)) as [[f []]|]; intros [= <- <-]; (split; [done|]); [right|by left|right];
    exists a, (began w1); (split; [done|]); [by right|by left].
Qed.

Lemma adapter_reads {A} translate ctx (q : S → A) w r w' :
  active w = None → adapter translate ctx (execute (λ d, Ok (q d, d))) w = (r, w') →
  frame w w' ∧ db w' = db w ∧ (r = Ok (q (db w)) ∨ is_ok r = false).
Proof.
  intros Ha Hr. eapply (adapter_runs _ _ _ _ _ _ _ (runs_execute (λ _ d, Ok (q d, d)))) in Hr as [Hf Hr]; [|done].
  split; [done|]. destruct Hr as [[Hr Hd]|(a & now & [= <- Hd] & Hr)]; auto.
Qed.

(** While the database answers, a single statement does what it says. *)
Lemma quiet_adapter {A} translate ctx (q : instant → S → result DbFault (A * S)) w :
  (∀ i, fault i = None) → active w = None →
  ∃ now w', frame w w' ∧
    adapter translate ctx (λ w, execute (q (began w)) w) w =
      (match q now (db w) with Ok (a, _) => Ok a | Err f => Err (translated translate f) end, w') ∧
    db w' = match q now (db w) with Ok (_, d') => d' | Err _ => db w end.
Proof.
  intros Hq Ha. unfold adapter, tenant_session, in_transaction, execute. rewrite Ha, !Hq.
  exists (now_at (issued w)). cbn [began with_db counted starting db].
  destruct (q (now_at (issued w)) (db w)) as [[a d']|f]; [rewrite Hq|]; eexists; (split; [|split; [reflexivity|]]); done.
Qed.

(** [body] does what [q] says while the database answers. *)
Definition performs {A} (body : eff W DbFault A) (q : S → result DbFault (A * S)) : Prop :=
  (∀ i, fault i = None) → ∀ w, match q (db w), body w with
                               | Ok (a, d), (r, w') => r = Ok a ∧ db w' = d
                               | Err f, (r, _) => r = Err f
                               end.

Lemma performs_execute {A} (q : S → result DbFault (A * S)) : performs (execute q) q.
Proof. intros Hq w. unfold execute. rewrite Hq. by destruct (q (db w)) as [[a d]|f]. Qed.

Lemma performs_ret {A} (a : A) : performs (eff_ret _ a) (λ d, Ok (a, d)).
Proof. by intros Hq w. Qed.

Lemma performs_bind {A B} (m : eff W DbFault A) (k : A → eff W DbFault B) q h :
  performs m q → (∀ a, performs (k a) (h a)) → performs (a ← m; k a) (λ d, '(a, d') ← q d; h a d').
Proof.
  intros Hm Hk Hq w. specialize (Hm Hq w).
  revert Hm. unfold mbind, eff_bind, result_bind. destruct (m w) as [r w1]. intros Hm.
  destruct (q (db w)) as [[a d]|f]; [|by subst r].
  destruct Hm as [-> <-]. exact (Hk a Hq w1).
Qed.

Lemma adapter_performs {A} translate ctx (body : eff W DbFault A) q a d w :
  performs body q → (∀ i, fault i = None) → active w = None → q (db w) = Ok (a, d) →
  ∃ w', adapter translate ctx body w = (Ok a, w') ∧ db w' = d.
Proof.
  intros Hb Hq Ha Hd. unfold adapter, tenant_session, in_transaction. rewrite Ha. unfold execute. rewrite Hq.
  set (w1 := with_db _ _). specialize (Hb Hq w1). assert (db w1 = db w) as Hw1 by done. rewrite Hw1, Hd in Hb.
  destruct (body w1) as [r w2]. destruct Hb as [-> Hw2]. rewrite Hq. by eexists.
Qed.

(** Both: what [body] does is [q], whenever it does anything, and that is what it does while the
    database answers. *)
Definition follows {A} (body : eff W DbFault A) (q : S → result DbFault (A * S)) : Prop :=
  runs body (λ _ d a d', q d = Ok (a, d')) ∧ performs body q.

Lemma follows_execute {A} (q : S → result DbFault (A * S)) : follows (execute q) q.
Proof. split; [exact (runs_execute (λ _, q))|apply performs_execute]. Qed.

Lemma follows_ret {A} (a : A) : follows (eff_ret _ a) (λ d, Ok (a, d)).
Proof. split; [|apply performs_ret]. eapply runs_mono; [apply runs_ret|]. by intros now d a' d' [-> ->]. Qed.

Lemma follows_bind {A B} (m : eff W DbFault A) (k : A → eff W DbFault B) q h :
  follows m q → (∀ a, follows (k a) (h a)) → follows (a ← m; k a) (λ d, '(a, d') ← q d; h a d').
Proof.
  intros [Hm Hm'] Hk. split; [|apply performs_bind; [done|apply Hk]].
  eapply runs_mono; [apply (runs_bind _ _ _ _ Hm (λ a, proj1 (Hk a)))|]. intros now d b d' (a & d1 & -> & Hh). exact Hh.
Qed.

Lemma quiet_reads {A} translate ctx (q : S → A) w :
  (∀ i, fault i = None) → active w = None →
  ∃ w', frame w w' ∧ adapter translate ctx (execute (λ d, Ok (q d, d))) w = (Ok (q (db w)), w') ∧ db w' = db w.
Proof.
  intros Hq Ha. destruct (quiet_adapter translate ctx (λ _ d, Ok (q d, d)) w Hq Ha) as (now & w' & Hf & Hr & Hd).
  by exists w'.
Qed.
End Sessions.
