(* ===== verification/UsageRules.v ===== *)
(** * Usage: value objects, limit evaluation and periods

    [modules/usage/domain/]: [value_objects.py], [entities.py],
    [enforcement.py] and [periods.py].  Everything here is pure. *)

From S2P Require Import Prelude Text Calendar.

Open Scope Z_scope.

(** ** Vocabularies *)

Inductive LimitScope : Type := WORKSPACE | AGENT | PROVIDER.
Inductive Metric : Type := TOKENS | COST_MICROS.
Inductive Period : Type := DAY | MONTH.
Inductive DenyReason : Type := QUOTA_EXCEEDED | BUDGET_EXCEEDED.

#[export] Instance LimitScope_eq_dec : EqDecision LimitScope.
Proof. solve_decision. Defined.
#[export] Instance Metric_eq_dec : EqDecision Metric.
Proof. solve_decision. Defined.
#[export] Instance Period_eq_dec : EqDecision Period.
Proof. solve_decision. Defined.
#[export] Instance DenyReason_eq_dec : EqDecision DenyReason.
Proof. solve_decision. Defined.

#[export] Instance Period_countable : Countable Period.
Proof.
  refine (inj_countable' (λ p, match p with DAY => true | MONTH => false end)
            (λ b : bool, if b then DAY else MONTH) _); by intros [].
Defined.
#[export] Instance LimitScope_countable : Countable LimitScope.
Proof.
  refine (inj_countable' (λ s, match s with WORKSPACE => 0 | AGENT => 1 | PROVIDER => 2 end)
            (λ z, if z =? 0 then WORKSPACE else if z =? 1 then AGENT else PROVIDER) _);
    by intros [].
Defined.
#[export] Instance Metric_countable : Countable Metric.
Proof.
  refine (inj_countable' (λ m, match m with TOKENS => true | COST_MICROS => false end)
            (λ b : bool, if b then TOKENS else COST_MICROS) _); by intros [].
Defined.

(** [list(Period)]: the enum's members in declaration order. *)
Definition all_periods : list Period := [DAY; MONTH].

(** The [StrEnum] values, and [Period(value)] / [Metric(value)], which raise
    [ValueError] on anything else. *)
Definition period_value (p : Period) : text :=
  match p with DAY => txt "day" | MONTH => txt "month" end.
Definition metric_value (m : Metric) : text :=
  match m with TOKENS => txt "tokens" | COST_MICROS => txt "cost_micros" end.
Definition scope_value (s : LimitScope) : text :=
  match s with
  | WORKSPACE => txt "workspace" | AGENT => txt "agent" | PROVIDER => txt "provider"
  end.
Definition deny_value (r : DenyReason) : text :=
  match r with
  | QUOTA_EXCEEDED => txt "quota_exceeded" | BUDGET_EXCEEDED => txt "budget_exceeded"
  end.

Definition parse_period (t : text) : option Period :=
  if bool_decide (t = txt "day") then Some DAY
  else if bool_decide (t = txt "month") then Some MONTH else None.
Definition parse_metric (t : text) : option Metric :=
  if bool_decide (t = txt "tokens") then Some TOKENS
  else if bool_decide (t = txt "cost_micros") then Some COST_MICROS else None.

Definition WILDCARD : text := txt "*".

(** [domain/errors.py] *)
Inductive UsageError : Type := InvalidUsageInput.

#[export] Instance UsageError_eq_dec : EqDecision UsageError.
Proof. solve_decision. Defined.

(** ** [LimitRule], [UsageRecord], [Reservation], [UsageLimit] *)

Record LimitRule := mk_LimitRule {
  scope : LimitScope;
  scope_key : text;
  metric : Metric;
  period : Period;
  limit_value : Z
}.

#[export] Instance LimitRule_eq_dec : EqDecision LimitRule.
Proof. solve_decision. Defined.

(** [LimitRule.__post_init__] *)
Definition new_LimitRule (s : LimitScope) (k : text) (m : Metric) (p : Period) (v : Z)
    : result UsageError LimitRule :=
  _ ← match s with
      | WORKSPACE => raise_if (negb (bool_decide (k = WILDCARD))) InvalidUsageInput
      | _ => raise_if (bool_decide (strip k = []) || bool_decide (k = WILDCARD))
               InvalidUsageInput
      end;
  _ ← raise_if (v <? 0) InvalidUsageInput;
  Ok (mk_LimitRule s k m p v).

Record rule_wf (r : LimitRule) : Prop := {
  rule_workspace : scope r = WORKSPACE → scope_key r = WILDCARD;
  rule_specific : scope r ≠ WORKSPACE → scope_key r ≠ WILDCARD ∧ strip (scope_key r) ≠ [];
  rule_nonneg : 0 ≤ limit_value r
}.

Lemma new_LimitRule_Ok s k m p v r :
  new_LimitRule s k m p v = Ok r ↔ r = mk_LimitRule s k m p v ∧ rule_wf r.
Proof.
  unfold new_LimitRule. split.
  - intros H. unresult; destruct s; unresult; unbool; (split; [done|]); split;
      cbn; try done; intros; unbool; try naive_solver; lia.
  - intros [-> [Hw Hs Hn]]. cbn in *. apply bind_Ok. exists tt.
    rewrite bind_Ok. split.
    + destruct s; apply raise_if_Ok.
      * rewrite Hw by done. by rewrite bool_decide_true.
      * destruct Hs; [done|]. by rewrite !bool_decide_false.
      * destruct Hs; [done|]. by rewrite !bool_decide_false.
    + exists tt. split; [|done]. apply raise_if_Ok. by apply Z.ltb_ge.
Qed.

Record UsageRecord := mk_UsageRecord {
  rec_id : text;
  rec_workspace_id : text;
  rec_agent_key : text;
  rec_provider : text;
  rec_tokens : Z;
  rec_cost_micros : Z;
  rec_operation_id : text;
  rec_created_at : instant;
  rec_estimated : bool
}.

Record Reservation := mk_Reservation {
  res_id : text;
  res_workspace_id : text;
  res_agent_key : text;
  res_provider : text;
  res_tokens : Z;
  res_cost_micros : Z;
  res_created_at : instant;
  res_expires_at : instant
}.

(** [Reservation.__post_init__]: an already-expired reservation would be counted
    by nobody, so it cannot be built. *)
Definition new_Reservation (r : Reservation) : result UsageError Reservation :=
  _ ← raise_if (res_tokens r <? 0) InvalidUsageInput;
  _ ← raise_if (res_cost_micros r <? 0) InvalidUsageInput;
  _ ← raise_if (res_expires_at r <=? res_created_at r) InvalidUsageInput;
  Ok r.

Lemma new_Reservation_Ok r r' : new_Reservation r = Ok r' ↔
  r' = r ∧ 0 ≤ res_tokens r ∧ 0 ≤ res_cost_micros r ∧ res_created_at r < res_expires_at r.
Proof.
  unfold new_Reservation, raise_if. repeat case_match; cbn; unbool; naive_solver lia.
Qed.

Record UsageLimit := mk_UsageLimit {
  lim_id : text;
  lim_workspace_id : text;
  lim_scope : LimitScope;
  lim_scope_key : text;
  lim_metric : Metric;
  lim_period : Period;
  lim_value : Z;
  lim_created_at : instant;
  lim_updated_at : instant;
  lim_version : Z
}.

(** [UsageLimit.__post_init__] delegates to [LimitRule]. *)
Definition new_UsageLimit (l : UsageLimit) : result UsageError UsageLimit :=
  _ ← new_LimitRule (lim_scope l) (lim_scope_key l) (lim_metric l) (lim_period l)
        (lim_value l);
  Ok l.

(** [UsageLimit.rule] *)
Definition rule_of (l : UsageLimit) : LimitRule :=
  mk_LimitRule (lim_scope l) (lim_scope_key l) (lim_metric l) (lim_period l) (lim_value l).

(** ** [enforcement.py] *)

Record LimitCheck := mk_LimitCheck {
  chk_scope : LimitScope;
  chk_metric : Metric;
  chk_period : Period;
  chk_limit_value : Z;
  chk_current : Z
}.

Record Decision := mk_Decision {
  allowed : bool;
  reason : option DenyReason;
  remaining : option Z;
  reservation_id : option text;
  retry_after_s : option Z
}.

Record Evaluation := mk_Evaluation { decision : Decision; binding : option LimitCheck }.

Definition METRIC_RANK (m : Metric) : Z := match m with TOKENS => 0 | COST_MICROS => 1 end.
Definition SCOPE_RANK (s : LimitScope) : Z :=
  match s with WORKSPACE => 0 | AGENT => 1 | PROVIDER => 2 end.

Definition rank (c : LimitCheck) : Z * Z := (METRIC_RANK (chk_metric c), SCOPE_RANK (chk_scope c)).

(** Comparison of Python tuples. *)
Definition rank_leb (a b : LimitCheck) : bool :=
  let '(m, s) := rank a in let '(m', s') := rank b in
  (m <? m') || ((m =? m') && (s <=? s')).

Definition violates (c : LimitCheck) (estimated_tokens estimated_cost_micros : option Z) : bool :=
  let estimate := match chk_metric c with
                  | TOKENS => estimated_tokens | COST_MICROS => estimated_cost_micros end in
  let over_current := chk_limit_value c <=? chk_current c in
  let over_estimate :=
    match estimate with
    | Some e => chk_limit_value c <? chk_current c + e
    | None => false
    end in
  over_current || over_estimate.

Definition is_tokens (c : LimitCheck) : bool := bool_decide (chk_metric c = TOKENS).

Definition headroom (c : LimitCheck) : Z := Z.max (chk_limit_value c - chk_current c) 0.

Definition remaining_tokens (checks : list LimitCheck) : option Z :=
  min_by Z.leb (headroom <$> List.filter is_tokens checks).

Definition allow (remaining : option Z) : Decision := mk_Decision true None remaining None None.
Definition deny (r : DenyReason) (remaining : option Z) : Decision :=
  mk_Decision false (Some r) remaining None None.

Definition evaluate (checks : list LimitCheck)
    (estimated_tokens estimated_cost_micros : option Z) : Evaluation :=
  match checks with
  | [] => mk_Evaluation (allow None) None
  | _ =>
      let rem := remaining_tokens checks in
      let violated :=
        List.filter (λ c, violates c estimated_tokens estimated_cost_micros) checks in
      match min_by rank_leb violated with
      | None => mk_Evaluation (allow rem) None
      | Some b =>
          let r := match chk_metric b with
                   | TOKENS => QUOTA_EXCEEDED | COST_MICROS => BUDGET_EXCEEDED end in
          mk_Evaluation (deny r rem) (Some b)
      end
  end.

(** ** [periods.py] *)

Inductive calendar_error : Type := ValueError | OverflowError.

Definition period_start (p : Period) (now : datetime) : date :=
  let d := date_of (to_utc now) in
  match p with
  | MONTH => mk_date (year d) (month d) 1
  | DAY => d
  end.

Definition period_reset_at (p : Period) (now : datetime) : result calendar_error instant :=
  let start := period_start p now in
  match p with
  | MONTH =>
      let rolls_over := month start =? 12 in
      let '(y, m) := if rolls_over then (year start + 1, 1)
                     else (year start, month start + 1) in
      _ ← raise_if (MAXYEAR <? y) ValueError;
      Ok (midnight (mk_date y m 1))
  | DAY =>
      let following := ord2ymd (ymd2ord start + 1) in
      _ ← raise_if (MAXYEAR <? year following) OverflowError;
      Ok (midnight (mk_date (year following) (month following) (day following)))
  end.

(** At most three rollup keys per charge, the workspace-wide one never twice. *)
Definition rollup_buckets (agent provider : text) : list (text * text) :=
  dict_fromkeys [(WILDCARD, WILDCARD); (agent, WILDCARD); (WILDCARD, provider)].

(** ** Facts about [evaluate] *)

Lemma rank_leb_trans a b c : rank_leb a b = true → rank_leb b c = true → rank_leb a c = true.
Proof.
  unfold rank_leb, rank. rewrite !orb_true_iff, !andb_true_iff, !Z.ltb_lt, !Z.eqb_eq, !Z.leb_le.
  lia.
Qed.

Lemma rank_leb_total a b : rank_leb a b = true ∨ rank_leb b a = true.
Proof.
  unfold rank_leb, rank. rewrite !orb_true_iff, !andb_true_iff, !Z.ltb_lt, !Z.eqb_eq, !Z.leb_le.
  lia.
Qed.

(** The estimate a check reads. *)
Definition estimate_for (c : LimitCheck) (et ec : option Z) : option Z :=
  match chk_metric c with TOKENS => et | COST_MICROS => ec end.

(** A check leaves room for the request. *)
Definition within (c : LimitCheck) (et ec : option Z) : Prop :=
  chk_current c < chk_limit_value c ∧
  ∀ e, estimate_for c et ec = Some e → chk_current c + e ≤ chk_limit_value c.

Lemma violates_false c et ec : violates c et ec = false ↔ within c et ec.
Proof.
  unfold violates, within, estimate_for. rewrite orb_false_iff, Z.leb_gt.
  destruct (match chk_metric c with TOKENS => et | COST_MICROS => ec end).
  - rewrite Z.ltb_ge. naive_solver.
  - naive_solver.
Qed.

(** A denying evaluation, opened. *)
Lemma evaluate_deny cs et ec b :
  binding (evaluate cs et ec) = Some b ↔
  min_by rank_leb (List.filter (λ c, violates c et ec) cs) = Some b.
Proof. unfold evaluate. destruct cs; [done|]. by case_match. Qed.

Lemma evaluate_binding_decision cs et ec :
  decision (evaluate cs et ec) =
  match binding (evaluate cs et ec) with
  | None => allow (remaining_tokens cs)
  | Some b => deny (match chk_metric b with
                    | TOKENS => QUOTA_EXCEEDED | COST_MICROS => BUDGET_EXCEEDED end)
                (remaining_tokens cs)
  end.
Proof. unfold evaluate. destruct cs; [done|]. by case_match. Qed.

Lemma evaluate_allow_all cs et ec :
  binding (evaluate cs et ec) = None ↔ ∀ c, c ∈ cs → within c et ec.
Proof.
  assert (binding (evaluate cs et ec) = None ↔
          List.filter (λ c, violates c et ec) cs = []) as ->.
  { unfold evaluate. rewrite <- (min_by_None rank_leb). destruct cs; [done|].
    by destruct (min_by rank_leb _). }
  split.
  - intros Hf c Hc. apply violates_false. destruct (violates c et ec) eqn:E; [|done].
    assert (c ∈ List.filter (λ c, violates c et ec) cs) as Hin
      by by apply elem_of_list_filter_bool.
    rewrite Hf in Hin. by apply elem_of_nil in Hin.
  - intros Hall. destruct (List.filter _ cs) as [|c l] eqn:E; [done|].
    assert (c ∈ List.filter (λ c, violates c et ec) cs) as [Hc Hv]%elem_of_list_filter_bool
      by (rewrite E; set_solver).
    apply Hall, violates_false in Hc. congruence.
Qed.

(** The first violated check among those of lowest rank. *)
Lemma min_by_first {A} (leb : A → A → bool) l x :
  min_by leb l = Some x →
  ∃ l1 l2, l = l1 ++ x :: l2 ∧
    ((∀ a b c, leb a b = true → leb b c = true → leb a c = true) →
     (∀ a b, leb a b = true ∨ leb b a = true) →
     ∀ y, y ∈ l1 → leb y x = false).
Proof.
  revert x; induction l as [|z l IH]; intros x; cbn; [done|].
  destruct (min_by leb l) as [m|] eqn:E.
  - destruct (leb z m) eqn:Ez; intros [= <-].
    + exists [], l. split; [done|]. intros _ _ y []%elem_of_nil.
    + destruct (IH m eq_refl) as (l1 & l2 & -> & Hl1).
      exists (z :: l1), l2. split; [done|]. intros Htr Htot y.
      intros [->|Hy]%elem_of_cons; [done|]. by apply Hl1.
  - intros [= <-]. exists [], l. split; [done|]. intros _ _ y []%elem_of_nil.
Qed.

(** ** Period buckets *)

Lemma period_reset_at_Ok p now r :
  period_reset_at p now = Ok r →
  r = match p with
      | MONTH => midnight (next_month (date_of (to_utc now)))
      | DAY => midnight (date_of (to_utc now)) + us_per_day
      end.
Proof.
  unfold period_reset_at, period_start. destruct p.
  - intros (? & _ & <-%Ok_inj)%bind_Ok.
    rewrite <- (midnight_succ (date_of (to_utc now))), date_eta. reflexivity.
  - unfold next_month. cbn [month year day].
    destruct (month _ =? 12); intros (? & _ & <-%Ok_inj)%bind_Ok; reflexivity.
Qed.

(** The half-open interval of instants that share [now]'s bucket. *)
Lemma period_bucket p now r t :
  period_reset_at p now = Ok r →
  midnight (period_start p now) ≤ t < r ↔
  period_start p (aware_utc t) = period_start p now.
Proof.
  intros ->%period_reset_at_Ok. unfold period_start. rewrite to_utc_aware.
  destruct p.
  - apply in_day. auto with aizzak.
  - change (mk_date (year (date_of (to_utc now))) (month (date_of (to_utc now))) 1)
      with (first_of_month (date_of (to_utc now))).
    rewrite in_month by auto with aizzak. unfold first_of_month.
    split; [by intros [-> ->]|]. intros Heq.
    split; [exact (f_equal year Heq)|exact (f_equal month Heq)].
Qed.

(** ** Properties *)

(** The verdict.  A request is allowed exactly when every governing check is
    strictly below its cap and the estimate for its own metric, if there is one, does
    not push it past the cap (landing on the cap is allowed). *)
Theorem evaluate_allows_iff cs et ec :
  allowed (decision (evaluate cs et ec)) = true ↔ ∀ c, c ∈ cs → within c et ec.
Proof.
  rewrite <- evaluate_allow_all, evaluate_binding_decision.
  by destruct (binding _).
Qed.

(** The precedence of denials (INV-U6).  The binding check is a violated one, no
    violated check ranks below it (tokens before cost, then workspace before agent
    before provider), among those of its rank it is the first in input order, and
    the reason given is its metric's. *)
Theorem evaluate_binding_precedence cs et ec b :
  binding (evaluate cs et ec) = Some b →
  b ∈ cs ∧ ¬ within b et ec ∧
  (∀ c, c ∈ cs → ¬ within c et ec → rank_leb b c = true) ∧
  (∃ l1 l2, List.filter (λ c, violates c et ec) cs = l1 ++ b :: l2 ∧
            ∀ c, c ∈ l1 → rank_leb c b = false) ∧
  reason (decision (evaluate cs et ec)) =
    Some (match chk_metric b with TOKENS => QUOTA_EXCEEDED | COST_MICROS => BUDGET_EXCEEDED end).
Proof.
  intros Hb. rewrite evaluate_binding_decision, Hb. apply evaluate_deny in Hb.
  pose proof (min_by_elem _ _ _ Hb) as [Hin Hv]%elem_of_list_filter_bool.
  split_and!; [done| | | |done].
  - rewrite <- violates_false. congruence.
  - intros c Hc Hw. rewrite <- violates_false, not_false_iff_true in Hw.
    eapply min_by_le; eauto using rank_leb_trans, rank_leb_total.
    by apply elem_of_list_filter_bool.
  - destruct (min_by_first _ _ _ Hb) as (l1 & l2 & Hl & Hfirst).
    exists l1, l2. split; [done|].
    apply Hfirst; eauto using rank_leb_trans, rank_leb_total.
Qed.

(** The headroom reported, allowed or denied, is the smallest non-negative
    distance to the cap over the token checks, and absent when there is none. *)
Theorem evaluate_remaining cs et ec :
  match remaining (decision (evaluate cs et ec)) with
  | None => ∀ c, c ∈ cs → chk_metric c ≠ TOKENS
  | Some m => 0 ≤ m ∧ (∃ c, c ∈ cs ∧ chk_metric c = TOKENS ∧ m = headroom c) ∧
              (∀ c, c ∈ cs → chk_metric c = TOKENS → m ≤ headroom c)
  end.
Proof.
  assert (remaining (decision (evaluate cs et ec)) = remaining_tokens cs) as ->.
  { rewrite evaluate_binding_decision. by destruct (binding _). }
  assert (Htok : ∀ c, c ∈ List.filter is_tokens cs ↔ c ∈ cs ∧ chk_metric c = TOKENS).
  { intros c. rewrite elem_of_list_filter_bool. unfold is_tokens.
    by rewrite bool_decide_eq_true. }
  unfold remaining_tokens. destruct (min_by Z.leb _) as [m|] eqn:Em.
  - pose proof (min_by_elem _ _ _ Em) as (c & -> & [Hc Hm]%Htok)%list_elem_of_fmap.
    split_and!; [unfold headroom; lia|by exists c|].
    intros c' Hc' Hm'. apply Z.leb_le. eapply min_by_le; [..|exact Em|].
    + intros a b d. rewrite !Z.leb_le. lia.
    + intros a b. rewrite !Z.leb_le. lia.
    + apply list_elem_of_fmap_2, Htok. done.
  - apply min_by_None, fmap_nil_inv in Em. intros c Hc Hm.
    assert (c ∈ List.filter is_tokens cs) as Hin by by apply Htok.
    rewrite Em in Hin. by apply elem_of_nil in Hin.
Qed.

Lemma year_bound d : valid_date d → year d < MAXYEAR → ymd2ord d < days_before_year MAXYEAR + 1.
Proof.
  intros Hd Hy. pose proof (ymd2ord_year d Hd).
  pose proof (days_before_year_le (year d + 1) MAXYEAR). lia.
Qed.

Lemma year_of_ord n : n < days_before_year (MAXYEAR + 1) + 1 → year (ord2ymd n) ≤ MAXYEAR.
Proof.
  intros Hn. pose proof (ymd2ord_year (ord2ymd n) (ord2ymd_valid n)) as Hy.
  rewrite ymd2ord_ord2ymd in Hy.
  destruct (Z.le_gt_cases (year (ord2ymd n)) MAXYEAR) as [|Hgt]; [done|].
  pose proof (days_before_year_le (MAXYEAR + 1) (year (ord2ymd n))). lia.
Qed.

Lemma period_reset_at_total p now :
  year (date_of (to_utc now)) < MAXYEAR → ∃ r, period_reset_at p now = Ok r.
Proof.
  intros Hy. unfold period_reset_at, period_start.
  set (d := date_of (to_utc now)) in *. destruct p.
  - rewrite (proj2 (raise_if_Ok _ _ tt)); [by eexists|].
    apply Z.ltb_ge, year_of_ord. pose proof (year_bound d (date_of_valid _) Hy).
    pose proof (days_before_year_succ MAXYEAR). pose proof (leap_day_bound MAXYEAR). lia.
  - cbn [year month]. destruct (month d =? 12);
      (rewrite (proj2 (raise_if_Ok _ _ tt)); [by eexists|apply Z.ltb_ge; lia]).
Qed.

(** A rollup bucket ends where the next one starts.  Before the year 9999 the
    reset instant always exists, it is strictly later than now, and the instants that
    share now's bucket are exactly those from the bucket's first midnight up to, but
    not including, the reset -- across month lengths, leap years and year ends. *)
Theorem period_reset_is_bucket_end p now :
  year (date_of (to_utc now)) < MAXYEAR →
  ∃ r, period_reset_at p now = Ok r ∧ to_utc now < r ∧
    ∀ t, midnight (period_start p now) ≤ t < r ↔
         period_start p (aware_utc t) = period_start p now.
Proof.
  intros [r Hr]%(period_reset_at_total p).
  exists r. split; [done|].
  pose proof (λ t, period_bucket p now r t Hr) as Hb. split; [|exact Hb].
  apply (Hb (to_utc now)). unfold period_start. by rewrite to_utc_aware.
Qed.

(** ** Witnesses *)

Example evaluate_binding_witness :
  let cs := [mk_LimitCheck PROVIDER TOKENS DAY 5 9; mk_LimitCheck AGENT COST_MICROS DAY 1 1;
             mk_LimitCheck WORKSPACE TOKENS DAY 5 7; mk_LimitCheck WORKSPACE TOKENS MONTH 6 7] in
  let b := mk_LimitCheck WORKSPACE TOKENS DAY 5 7 in
  b ∈ cs ∧ reason (decision (evaluate cs None None)) = Some QUOTA_EXCEEDED.
Proof.
  cbn zeta. set (cs := _ :: _).
  destruct (evaluate_binding_precedence cs None None (mk_LimitCheck WORKSPACE TOKENS DAY 5 7)
              eq_refl) as (Hin & _ & _ & _ & Hr).
  split; [exact Hin|exact Hr].
Defined.

(** 2024-02-29T12:00Z. *)
Example period_reset_witness :
  ∃ r, period_reset_at MONTH (aware_utc (63844804800 * us_per_second)) = Ok r ∧
       to_utc (aware_utc (63844804800 * us_per_second)) < r.
Proof.
  destruct (period_reset_is_bucket_end MONTH (aware_utc (63844804800 * us_per_second)))
    as (r & Hr & Hlt & _); [vm_compute; reflexivity|].
  exists r. split; [exact Hr|exact Hlt].
Defined.
