(* ===== verification/UsageLedger.v ===== *)
(** * Usage: the ledger port and its SQL adapter

    [modules/usage/ports/] and [modules/usage/adapters/sql_repository.py].
    A table is the set of its rows; every definition below is one method of the
    adapter, its statements run in one transaction.  [timestamptz], [uuid] and
    [text] columns hold Rocq values directly; a [bigint] is a [Z] with its range
    check, because PostgreSQL raises [22003] instead of wrapping round. *)

From S2P Require Import Prelude Text Calendar Errors Framework UsageRules.

Open Scope Z_scope.

(** [ports/inbound.py], [ports/repository.py], [domain/read_models.py] *)
Record UsageCharge := mk_UsageCharge {
  agent : text;
  provider : text;
  tokens : Z;
  cost_micros : Z;
  operation_id : text;
  estimated : bool
}.

Record UsageTotals := mk_UsageTotals { tot_tokens : Z; tot_cost_micros : Z }.

Record UsageRollup := mk_UsageRollup {
  rol_workspace_id : text;
  rol_agent_key : text;
  rol_provider : text;
  rol_period : Period;
  rol_period_start : date;
  rol_tokens_sum : Z;
  rol_cost_micros_sum : Z
}.

(** The primary key of [usage.usage_rollups]. *)
Abbreviation rollup_key := (text * text * text * Period * date)%type.

Record UsageDb := mk_UsageDb {
  usage_records : list UsageRecord;
  usage_rollups : gmap rollup_key UsageTotals;
  usage_reservations : gmap text Reservation;
  usage_limits : list UsageLimit
}.

Definition empty_db : UsageDb := mk_UsageDb [] ∅ ∅ [].

(** [bigint] *)
Definition INT8_MAX : Z := 2 ^ 63 - 1.
Definition INT8_MIN : Z := - 2 ^ 63.
Definition fits_int8 (z : Z) : bool := (INT8_MIN <=? z) && (z <=? INT8_MAX).

(** [_translate]: how a driver failure leaves the adapter. *)
Inductive sqlstate : Type := unique_violation | insufficient_privilege | other_state.

Definition translate (s : sqlstate) : exn :=
  match s with
  | unique_violation => App (raise_class ConflictError)
  | insufficient_privilege => App (raise_code AppError "common.internal"%string)
  | other_state => App (raise_code AppError "common.internal"%string)
  end.

(** A [bigint] column accepts a value in range; a [CHECK (c >= 0)] column also
    refuses a negative one. *)
Definition check_bigint (z : Z) : result exn unit :=
  raise_if (negb (fits_int8 z)) (translate other_state).
Definition check_nonneg_bigint (z : Z) : result exn unit :=
  raise_if (negb ((0 <=? z) && fits_int8 z)) (translate other_state).

(** RLS [WITH CHECK (workspace_id = app.workspace_id)]. *)
Definition rls_with_check (ctx : ExecutionContext) (ws : text) : result exn unit :=
  raise_if (negb (bool_decide (ws = workspace_id ctx))) (translate insufficient_privilege).

(** [_rollup_upsert]: a fresh bucket starts at the charge's totals, an existing
    one accumulates them. *)
Definition rollup_upsert (k : rollup_key) (charge : UsageCharge)
    (m : gmap rollup_key UsageTotals) : result exn (gmap rollup_key UsageTotals) :=
  let '(t, c) :=
    match m !! k with
    | Some old => (tot_tokens old + tokens charge, tot_cost_micros old + cost_micros charge)
    | None => (tokens charge, cost_micros charge)
    end in
  _ ← check_bigint t;
  _ ← check_bigint c;
  Ok (<[k := mk_UsageTotals t c]> m).

Fixpoint upsert_all (ks : list rollup_key) (charge : UsageCharge)
    (m : gmap rollup_key UsageTotals) : result exn (gmap rollup_key UsageTotals) :=
  match ks with
  | [] => Ok m
  | k :: ks => m' ← rollup_upsert k charge m; upsert_all ks charge m'
  end.

(** [for period in Period: for bucket in rollup_buckets(...)], in that order. *)
Definition rollup_keys (ws : text) (now : instant) (agent provider : text) : list rollup_key :=
  p ← all_periods;
  '(a, q) ← rollup_buckets agent provider;
  [(ws, a, q, p, period_start p (aware_utc now))].

Definition same_operation (ws op : text) (r : UsageRecord) : bool :=
  bool_decide (rec_workspace_id r = ws) && bool_decide (rec_operation_id r = op).

(** [SqlUsageLedgerRepository.append], given its [utc_now()] and [new_uuid7()]. *)
Definition append (ctx : ExecutionContext) (now : instant) (id : text) (charge : UsageCharge)
    (db : UsageDb) : result exn (bool * UsageDb) :=
  let ws := workspace_id ctx in
  _ ← check_nonneg_bigint (tokens charge);
  _ ← check_nonneg_bigint (cost_micros charge);
  if existsb (same_operation ws (operation_id charge)) (usage_records db) then
    Ok (false, db)
  else
    _ ← raise_if (existsb (λ r, bool_decide (rec_id r = id)) (usage_records db))
          (translate unique_violation);
    let row := mk_UsageRecord id ws (agent charge) (provider charge) (tokens charge)
                 (cost_micros charge) (operation_id charge) now (estimated charge) in
    m ← upsert_all (rollup_keys ws now (agent charge) (provider charge)) charge
          (usage_rollups db);
    Ok (true, mk_UsageDb (row :: usage_records db) m (usage_reservations db)
                (usage_limits db)).

(** [rollup]: the totals of one bucket at [now], zero when there is no row. *)
Definition rollup (ctx : ExecutionContext) (now : instant) (agent provider period : text)
    (db : UsageDb) : result exn UsageTotals :=
  match parse_period period with
  | None => Err (Other "ValueError"%string)
  | Some p =>
      Ok (default (mk_UsageTotals 0 0)
            (usage_rollups db !!
              (workspace_id ctx, agent, provider, p, period_start p (aware_utc now))))
  end.

(** The [WHERE] clause of [reserved]: a wildcard adds no predicate. *)
Definition reservation_in (ws : text) (now : instant) (agent provider : text)
    (r : Reservation) : bool :=
  bool_decide (res_workspace_id r = ws) && (now <? res_expires_at r) &&
  (bool_decide (agent = WILDCARD) || bool_decide (res_agent_key r = agent)) &&
  (bool_decide (provider = WILDCARD) || bool_decide (res_provider r = provider)).

Definition live_reservations (ws : text) (now : instant) (agent provider : text)
    (m : gmap text Reservation) : list Reservation :=
  List.filter (reservation_in ws now agent provider) (map_to_list m).*2.

Definition held_totals (ws : text) (now : instant) (agent provider : text) (db : UsageDb)
    : UsageTotals :=
  let rows := live_reservations ws now agent provider (usage_reservations db) in
  mk_UsageTotals (sumZ (res_tokens <$> rows)) (sumZ (res_cost_micros <$> rows)).

(** [reserved]: [coalesce(sum(...), 0)] over the live rows of a bucket. *)
Definition reserved (ctx : ExecutionContext) (now : instant) (agent provider : text)
    (db : UsageDb) : result exn UsageTotals :=
  let t := held_totals (workspace_id ctx) now agent provider db in
  _ ← check_bigint (tot_tokens t);
  _ ← check_bigint (tot_cost_micros t);
  Ok t.

(** The housekeeping [DELETE] of [reserve]. *)
Definition expired_row (ws : text) (created : instant) (kv : text * Reservation) : Prop :=
  res_workspace_id kv.2 = ws ∧ res_expires_at kv.2 ≤ created.

#[export] Instance expired_row_dec ws created kv : base.Decision (expired_row ws created kv).
Proof. unfold expired_row. apply _. Defined.

Definition sweep (ws : text) (created : instant) (m : gmap text Reservation)
    : gmap text Reservation :=
  filter (λ kv, ¬ expired_row ws created kv) m.

(** [reserve] *)
Definition reserve (ctx : ExecutionContext) (r : Reservation) (db : UsageDb)
    : result exn (unit * UsageDb) :=
  let m := sweep (workspace_id ctx) (res_created_at r) (usage_reservations db) in
  _ ← check_nonneg_bigint (res_tokens r);
  _ ← check_nonneg_bigint (res_cost_micros r);
  _ ← rls_with_check ctx (res_workspace_id r);
  _ ← raise_if (bool_decide (is_Some (m !! res_id r))) (translate unique_violation);
  Ok (tt, mk_UsageDb (usage_records db) (usage_rollups db) (<[res_id r := r]> m)
            (usage_limits db)).

(** [release]: silent when the row is not there. *)
Definition release (ctx : ExecutionContext) (id : text) (db : UsageDb)
    : result exn (unit * UsageDb) :=
  let m := match usage_reservations db !! id with
           | Some r => if bool_decide (res_workspace_id r = workspace_id ctx)
                       then delete id (usage_reservations db)
                       else usage_reservations db
           | None => usage_reservations db
           end in
  Ok (tt, mk_UsageDb (usage_records db) (usage_rollups db) m (usage_limits db)).

(** [get_limits] *)
Definition get_limits (ctx : ExecutionContext) (db : UsageDb) : result exn (list UsageLimit) :=
  Ok (List.filter (λ l, bool_decide (lim_workspace_id l = workspace_id ctx)) (usage_limits db)).

(** The [uq_limit] key. *)
Definition limit_key (l : UsageLimit) : text * LimitScope * text * Metric * Period :=
  (lim_workspace_id l, lim_scope l, lim_scope_key l, lim_metric l, lim_period l).

(** One row of the bulk [INSERT]: RLS, column checks, [uq_limit], primary key. *)
Definition insert_limit (ctx : ExecutionContext) (l : UsageLimit) (rows : list UsageLimit)
    : result exn (list UsageLimit) :=
  _ ← rls_with_check ctx (lim_workspace_id l);
  _ ← check_nonneg_bigint (lim_value l);
  _ ← raise_if (bool_decide (limit_key l ∈ limit_key <$> rows) ||
                bool_decide (lim_id l ∈ lim_id <$> rows)) (translate unique_violation);
  Ok (rows ++ [l]).

Fixpoint insert_limits (ctx : ExecutionContext) (ls rows : list UsageLimit)
    : result exn (list UsageLimit) :=
  match ls with
  | [] => Ok rows
  | l :: ls => rows' ← insert_limit ctx l rows; insert_limits ctx ls rows'
  end.

(** [replace_limits]: the workspace's whole set, in one transaction. *)
Definition replace_limits (ctx : ExecutionContext) (ls : list UsageLimit) (db : UsageDb)
    : result exn (unit * UsageDb) :=
  let others :=
    List.filter (λ l, negb (bool_decide (lim_workspace_id l = workspace_id ctx)))
      (usage_limits db) in
  rows ← insert_limits ctx ls others;
  Ok (tt, mk_UsageDb (usage_records db) (usage_rollups db) (usage_reservations db) rows).

Definition rollup_row (kv : rollup_key * UsageTotals) : UsageRollup :=
  let '((ws, a, q, p, d), t) := kv in
  mk_UsageRollup ws a q p d (tot_tokens t) (tot_cost_micros t).

(** [list_rollups]: no [ORDER BY], so any row order may come back; the engine's
    choice is the parameter [row_order]. *)
Definition list_rollups (row_order : list UsageRollup → list UsageRollup)
    (ctx : ExecutionContext) (period : text) (db : UsageDb) : list UsageRollup :=
  row_order
    (List.filter
       (λ r, bool_decide (rol_workspace_id r = workspace_id ctx) &&
             bool_decide (period_value (rol_period r) = period))
       (rollup_row <$> map_to_list (usage_rollups db))).

(** ** The rollups are the ledger *)

Definition totals_add (t : UsageTotals) (c : UsageCharge) : UsageTotals :=
  mk_UsageTotals (tot_tokens t + tokens c) (tot_cost_micros t + cost_micros c).

Definition bucket_totals (m : gmap rollup_key UsageTotals) (k : rollup_key) : UsageTotals :=
  default (mk_UsageTotals 0 0) (m !! k).

(** The rollup rows a ledger row must be counted in. *)
Definition counted (k : rollup_key) (r : UsageRecord) : bool :=
  let '(ws, a, q, p, d) := k in
  bool_decide (rec_workspace_id r = ws) &&
  bool_decide ((a, q) ∈ rollup_buckets (rec_agent_key r) (rec_provider r)) &&
  bool_decide (period_start p (aware_utc (rec_created_at r)) = d).

Definition ledger_totals (k : rollup_key) (rows : list UsageRecord) : UsageTotals :=
  let rows := List.filter (counted k) rows in
  mk_UsageTotals (sumZ (rec_tokens <$> rows)) (sumZ (rec_cost_micros <$> rows)).

Record ledger_inv (db : UsageDb) : Prop := {
  inv_rollups : ∀ k, bucket_totals (usage_rollups db) k = ledger_totals k (usage_records db);
  inv_operations :
    NoDup ((λ r, (rec_workspace_id r, rec_operation_id r)) <$> usage_records db);
  inv_nonneg : Forall (λ r, 0 ≤ rec_tokens r ∧ 0 ≤ rec_cost_micros r) (usage_records db)
}.

Lemma elem_of_rollup_buckets a q x y :
  (x, y) ∈ rollup_buckets a q ↔
  (x, y) = (WILDCARD, WILDCARD) ∨ (x, y) = (a, WILDCARD) ∨ (x, y) = (WILDCARD, q).
Proof. unfold rollup_buckets. rewrite elem_of_dict_fromkeys. set_solver. Qed.

Lemma NoDup_rollup_buckets a q : NoDup (rollup_buckets a q).
Proof. apply NoDup_dict_fromkeys. Qed.

Lemma elem_of_rollup_keys ws now a q x y p d ws' :
  (ws', x, y, p, d) ∈ rollup_keys ws now a q ↔
  ws' = ws ∧ (x, y) ∈ rollup_buckets a q ∧ d = period_start p (aware_utc now).
Proof.
  unfold rollup_keys. rewrite list_elem_of_bind. split.
  - intros (p' & Hk & _). apply list_elem_of_bind in Hk as ([x' y'] & Hk & Hb).
    apply list_elem_of_singleton in Hk. naive_solver.
  - intros (-> & Hb & ->). exists p. split; [|destruct p; set_solver].
    apply list_elem_of_bind. exists (x, y). set_solver.
Qed.

Lemma NoDup_rollup_keys ws now a q : NoDup (rollup_keys ws now a q).
Proof.
  unfold rollup_keys. apply NoDup_bind.
  - intros p p' y _ _ H H'. apply list_elem_of_bind in H as ([? ?] & H & _).
    apply list_elem_of_bind in H' as ([? ?] & H' & _). set_solver.
  - intros p _. apply NoDup_bind; [|intros [? ?] _; apply NoDup_singleton|apply NoDup_rollup_buckets].
    intros [? ?] [? ?] y _ _. set_solver.
  - apply (bool_decide_unpack _). by vm_compute.
Qed.

Lemma rollup_upsert_Ok k c m m' :
  rollup_upsert k c m = Ok m' → m' = <[k := totals_add (bucket_totals m k) c]> m.
Proof.
  unfold rollup_upsert, bucket_totals, totals_add.
  destruct (m !! k) as [old|] eqn:E; intros H; unresult; [done|].
  cbn. do 2 f_equal; lia.
Qed.

Lemma upsert_all_Ok ks c m m' :
  NoDup ks → upsert_all ks c m = Ok m' →
  ∀ k, bucket_totals m' k
       = if bool_decide (k ∈ ks) then totals_add (bucket_totals m k) c else bucket_totals m k.
Proof.
  intros Hks; revert m; induction Hks as [|k0 ks Hk0 Hks IH]; intros m; cbn [upsert_all].
  - intros [= <-] k. done.
  - intros H k. unresult. apply rollup_upsert_Ok in H as ->.
    rewrite (IH _ H0 k). unfold bucket_totals at 1 2 3 4.
    destruct (decide (k = k0)) as [->|Hne].
    + rewrite bool_decide_false, bool_decide_true by set_solver.
      by rewrite lookup_insert_eq.
    + rewrite lookup_insert_ne by done.
      rewrite (bool_decide_ext (k ∈ k0 :: ks) (k ∈ ks)) by set_solver. done.
Qed.

Lemma counted_rollup_keys ws now id c k :
  counted k (mk_UsageRecord id ws (agent c) (provider c) (tokens c) (cost_micros c)
               (operation_id c) now (estimated c))
  = bool_decide (k ∈ rollup_keys ws now (agent c) (provider c)).
Proof.
  destruct k as [[[[ws' x] y] p] d]. unfold counted.
  cbn [rec_workspace_id rec_agent_key rec_provider rec_created_at].
  apply eq_bool_prop_intro.
  rewrite !Is_true_true, !andb_true_iff, !bool_decide_eq_true, elem_of_rollup_keys.
  naive_solver.
Qed.

Lemma ledger_totals_cons k r rows :
  ledger_totals k (r :: rows) =
  if counted k r
  then mk_UsageTotals (rec_tokens r + tot_tokens (ledger_totals k rows))
         (rec_cost_micros r + tot_cost_micros (ledger_totals k rows))
  else ledger_totals k rows.
Proof. unfold ledger_totals. cbn. by destruct (counted k r). Qed.

Lemma check_nonneg_bigint_Ok z u : check_nonneg_bigint z = Ok u → 0 ≤ z ≤ INT8_MAX.
Proof.
  unfold check_nonneg_bigint. intros H. unresult. unbool.
  unfold fits_int8 in *. unbool. lia.
Qed.

Lemma existsb_false_elem {A} (f : A → bool) l :
  existsb f l = false → ∀ x, x ∈ l → f x = false.
Proof.
  intros H x Hx. destruct (f x) eqn:E; [|done].
  assert (existsb f l = true); [|congruence].
  apply existsb_exists. exists x. by rewrite <- list_elem_of_In.
Qed.

(** ** In-flight totals *)

Lemma map_to_list_filter {V} (P : text * V → Prop) `{∀ x, base.Decision (P x)}
    (m : gmap text V) :
  map_to_list (filter P m) ≡ₚ filter P (map_to_list m).
Proof.
  rewrite map_filter_alt. apply map_to_list_to_map.
  eapply sublist_NoDup; [apply (NoDup_fst_map_to_list m)|].
  apply fmap_sublist, sublist_filter.
Qed.

Lemma filter_filter_snd (p : Reservation → bool) (P : text * Reservation → Prop)
    `{∀ x, base.Decision (P x)} l :
  (∀ kv, p kv.2 = true → P kv) →
  List.filter p (filter P l).*2 = List.filter p l.*2.
Proof.
  intros HP. induction l as [|kv l IH]; [done|].
  rewrite filter_cons. cbn. case_decide as Hd; cbn; [by rewrite IH|].
  destruct (p kv.2) eqn:E; [by destruct Hd; apply HP|done].
Qed.

Lemma live_insert_fresh ws now a q id r m :
  m !! id = None →
  live_reservations ws now a q (<[id := r]> m) ≡ₚ
  (if reservation_in ws now a q r then [r] else []) ++ live_reservations ws now a q m.
Proof.
  intros Hid. unfold live_reservations. rewrite map_to_list_insert by done.
  cbn. by destruct (reservation_in ws now a q r).
Qed.

(** Rows the housekeeping [DELETE] drops were counted by nobody at a later time. *)
Lemma live_sweep ws created now a q m :
  created ≤ now →
  live_reservations ws now a q (sweep ws created m) ≡ₚ live_reservations ws now a q m.
Proof.
  intros Hle. unfold live_reservations, sweep. rewrite map_to_list_filter.
  rewrite filter_filter_snd; [done|].
  intros [id r] Hr [_ Hexp]. cbn in *. unfold reservation_in in Hr. unbool. lia.
Qed.

Lemma held_after_reserve ctx r db db' now a q :
  reserve ctx r db = Ok (tt, db') → res_created_at r ≤ now →
  held_totals (workspace_id ctx) now a q db' =
  let h := held_totals (workspace_id ctx) now a q db in
  if reservation_in (workspace_id ctx) now a q r
  then mk_UsageTotals (res_tokens r + tot_tokens h) (res_cost_micros r + tot_cost_micros h)
  else h.
Proof.
  unfold reserve. intros H Hle. unresult. unbool.
  unfold held_totals; cbn [usage_reservations].
  rewrite live_insert_fresh by (by apply eq_None_not_Some).
  rewrite !(live_sweep _ _ now) by done.
  by destruct (reservation_in _ now a q r).
Qed.

Lemma reserve_Ok ctx r db db' :
  reserve ctx r db = Ok (tt, db') →
  usage_records db' = usage_records db ∧ usage_rollups db' = usage_rollups db ∧
  usage_limits db' = usage_limits db ∧ 0 ≤ res_tokens r ∧ 0 ≤ res_cost_micros r ∧
  res_workspace_id r = workspace_id ctx.
Proof.
  unfold reserve. intros H. unresult.
  apply check_nonneg_bigint_Ok in H, H0. unfold rls_with_check in *. unresult.
  unbool. naive_solver lia.
Qed.

(** Every stored reservation holds a non-negative amount. *)
Definition reservations_nonneg (db : UsageDb) : Prop :=
  map_Forall (λ _ r, 0 ≤ res_tokens r ∧ 0 ≤ res_cost_micros r) (usage_reservations db).

Lemma elem_of_live ws now a q m r :
  r ∈ live_reservations ws now a q m ↔
  reservation_in ws now a q r = true ∧ ∃ id, m !! id = Some r.
Proof.
  unfold live_reservations. rewrite !list_elem_of_In, filter_In, <- list_elem_of_In.
  rewrite list_elem_of_fmap. split.
  - intros [([id r'] & -> & Hm%elem_of_map_to_list) Hr]. eauto.
  - intros [Hr [id Hm]]. split; [|done]. exists (id, r). by rewrite elem_of_map_to_list.
Qed.

Lemma held_nonneg ws now a q db :
  reservations_nonneg db →
  0 ≤ tot_tokens (held_totals ws now a q db) ∧ 0 ≤ tot_cost_micros (held_totals ws now a q db).
Proof.
  intros Hn. unfold held_totals; cbn.
  split; apply sumZ_nonneg, Forall_fmap, Forall_forall;
    intros r [_ [id Hr]]%elem_of_live; by destruct (Hn id r Hr).
Qed.

(** In-flight totals only fall as time passes: rows expire, none appear. *)
Lemma held_antitone ws now now' a q db :
  reservations_nonneg db → now ≤ now' →
  tot_tokens (held_totals ws now' a q db) ≤ tot_tokens (held_totals ws now a q db) ∧
  tot_cost_micros (held_totals ws now' a q db) ≤ tot_cost_micros (held_totals ws now a q db).
Proof.
  intros Hn Hle. unfold held_totals, live_reservations; cbn.
  assert (Hall : Forall (λ r, 0 ≤ res_tokens r ∧ 0 ≤ res_cost_micros r)
            (map_to_list (usage_reservations db)).*2).
  { apply Forall_fmap, Forall_forall. intros [id r] Hr%elem_of_map_to_list.
    apply (Hn id r Hr). }
  induction Hall as [|r rows [Ht Hc] Hall IH]; cbn; [lia|].
  assert (Himp : reservation_in ws now' a q r = true → reservation_in ws now a q r = true).
  { unfold reservation_in. rewrite !andb_true_iff, !Z.ltb_lt. intros. naive_solver lia. }
  destruct (reservation_in ws now' a q r) eqn:E; [rewrite Himp by done|
    destruct (reservation_in ws now a q r)]; cbn; rewrite ?sumZ_cons; lia.
Qed.

(** ** The state machine of the repository *)

Inductive repo_step : UsageDb → UsageDb → Prop :=
  | step_append ctx now id c b db db' :
      append ctx now id c db = Ok (b, db') → repo_step db db'
  | step_reserve ctx r db db' :
      reserve ctx r db = Ok (tt, db') → repo_step db db'
  | step_release ctx id db db' :
      release ctx id db = Ok (tt, db') → repo_step db db'
  | step_replace_limits ctx ls db db' :
      replace_limits ctx ls db = Ok (tt, db') → repo_step db db'.

Lemma append_cases ctx now id c db b db' :
  append ctx now id c db = Ok (b, db') →
  (b = false ∧ db' = db) ∨
  (b = true ∧ 0 ≤ tokens c ∧ 0 ≤ cost_micros c ∧
   existsb (same_operation (workspace_id ctx) (operation_id c)) (usage_records db) = false ∧
   ∃ m, upsert_all (rollup_keys (workspace_id ctx) now (agent c) (provider c)) c
          (usage_rollups db) = Ok m ∧
        db' = mk_UsageDb
                (mk_UsageRecord id (workspace_id ctx) (agent c) (provider c) (tokens c)
                   (cost_micros c) (operation_id c) now (estimated c) :: usage_records db)
                m (usage_reservations db) (usage_limits db)).
Proof.
  unfold append. intros H. unresult.
  apply check_nonneg_bigint_Ok in H, H0. case_match; unresult; [by left|].
  right. naive_solver lia.
Qed.

Lemma append_keeps_ledger ctx now id c db b db' :
  ledger_inv db → append ctx now id c db = Ok (b, db') → ledger_inv db'.
Proof.
  intros [Hr Ho Hn] [[-> ->]|(-> & Ht & Hc & Hfresh & m & Hm & ->)]%append_cases; [done|].
  split; cbn.
  - intros k. rewrite ledger_totals_cons, counted_rollup_keys.
    rewrite (upsert_all_Ok _ _ _ _ (NoDup_rollup_keys _ _ _ _) Hm).
    rewrite Hr. case_bool_decide; [|done]. unfold totals_add. cbn. f_equal; lia.
  - constructor; [|done]. intros (r & [= Hw Hop] & Hin)%list_elem_of_fmap.
    apply existsb_false_elem with (x := r) in Hfresh; [|done].
    unfold same_operation in Hfresh. by rewrite Hw, Hop, !bool_decide_true in Hfresh.
  - by constructor.
Qed.

Lemma repo_step_keeps_ledger db db' : ledger_inv db → repo_step db db' → ledger_inv db'.
Proof.
  intros Hi Hs. destruct Hs as [ctx now id c b db db' H|ctx r db db' H|ctx id db db' H|ctx ls db db' H].
  - by eapply append_keeps_ledger.
  - apply reserve_Ok in H as (Hr & Hm & _). destruct Hi. by split; rewrite ?Hr, ?Hm.
  - unfold release in H. unresult. by destruct Hi.
  - unfold replace_limits in H. unresult. by destruct Hi.
Qed.

Lemma empty_ledger_inv : ledger_inv empty_db.
Proof. split; cbn; [done|constructor|constructor]. Qed.

(** ** Properties *)

(** C3: the rollups never drift from the ledger.  In every state the repository can
    reach, each rollup row holds exactly the sum of the ledger rows of its workspace,
    bucket and calendar period, absent rows counting as zero; no operation id occurs
    twice in a workspace; and no ledger amount is negative. *)
Theorem rollups_match_ledger db : rtc repo_step empty_db db → ledger_inv db.
Proof. apply rtc_invariant; [apply repo_step_keeps_ledger|apply empty_ledger_inv]. Qed.

Lemma append_records_operation ctx now id c db b db' :
  append ctx now id c db = Ok (b, db') →
  existsb (same_operation (workspace_id ctx) (operation_id c)) (usage_records db') = true.
Proof.
  intros Ha. pose proof (append_cases _ _ _ _ _ _ _ Ha)
    as [[-> ->]|(-> & _ & _ & _ & m & _ & ->)].
  - unfold append in Ha. unresult. case_match; [done|]. unresult. congruence.
  - cbn. unfold same_operation at 1. cbn. by rewrite !bool_decide_true.
Qed.

(** Capturing is idempotent (INV-U1).  Once a charge has been appended, any later
    append under the same operation id -- whatever its amounts, its clock and its
    minted id -- reports a duplicate and leaves ledger and rollups untouched; a first
    append that succeeds reports so and adds exactly one row. *)
Theorem append_exactly_once ctx now id c db b db' :
  append ctx now id c db = Ok (b, db') →
  length (usage_records db') = ((if b then 1 else 0) + length (usage_records db))%nat ∧
  ∀ now' id' c' b' db'', operation_id c' = operation_id c →
    append ctx now' id' c' db' = Ok (b', db'') → b' = false ∧ db'' = db'.
Proof.
  intros Ha. split.
  - by apply append_cases in Ha as [[-> ->]|(-> & _ & _ & _ & m & _ & ->)].
  - intros now' id' c' b' db'' Hop Ha'.
    apply append_records_operation in Ha. rewrite <- Hop in Ha.
    apply append_cases in Ha' as [?|(_ & _ & _ & Hf & _)]; [done|congruence].
Qed.

Definition demo_charge : UsageCharge :=
  mk_UsageCharge (txt "rag") (txt "ollama") 7 3 (txt "op1") false.

Definition jan_20 : instant := 63904464000 * us_per_second.
Definition feb_10 : instant := 63906278400 * us_per_second.

Definition demo_append : bool * UsageDb :=
  unwrap (false, empty_db) (append demo_ctx jan_20 (txt "r1") demo_charge empty_db).
Definition demo_db1 : UsageDb := demo_append.2.

Lemma demo_append_Ok :
  append demo_ctx jan_20 (txt "r1") demo_charge empty_db = Ok (true, demo_db1).
Proof.
  assert (demo_append.1 = true) as <- by (vm_compute; reflexivity).
  unfold demo_db1. rewrite <- surjective_pairing. apply unwrap_Ok. vm_compute. reflexivity.
Qed.

Example rollups_match_ledger_witness : ledger_inv demo_db1 ∧ usage_records demo_db1 ≠ [].
Proof.
  split.
  - apply rollups_match_ledger. eapply rtc_once, step_append, demo_append_Ok.
  - vm_compute. discriminate.
Defined.

Example append_exactly_once_witness :
  append demo_ctx jan_20 (txt "r1") demo_charge empty_db = Ok (true, demo_db1) ∧
  length (usage_records demo_db1) = 1%nat.
Proof.
  split; [apply demo_append_Ok|].
  exact (proj1 (append_exactly_once _ _ _ _ _ _ _ demo_append_Ok)).
Defined.
