(* ===== verification/UsageApp.v ===== *)
(** * Usage: the application services

    [modules/usage/application/use_cases.py].  The services are written against
    the port [UsageLedgerRepository], a type class; its laws say what they rely
    on, and the SQL adapter of [UsageLedger] is an instance of both. *)

From S2P Require Import Prelude Text Calendar Errors Framework UsageRules UsageLedger.

Open Scope Z_scope.

(** ** The port *)

Class UsageLedgerRepository (L : Type) := {
  repo_append : ExecutionContext → instant → text → UsageCharge → L → result exn (bool * L);
  repo_rollup : ExecutionContext → instant → text → text → text → L → result exn UsageTotals;
  repo_reserved : ExecutionContext → instant → text → text → L → result exn UsageTotals;
  repo_reserve : ExecutionContext → Reservation → L → result exn (unit * L);
  repo_release : ExecutionContext → text → L → result exn (unit * L);
  repo_get_limits : ExecutionContext → L → result exn (list UsageLimit);
  repo_replace_limits : ExecutionContext → list UsageLimit → L → result exn (unit * L);
  repo_list_rollups : ExecutionContext → text → L → list UsageRollup
}.

(** Does a reservation weigh on the [(agent, provider)] bucket at [now]? *)
Definition in_bucket (now : instant) (a q : text) (r : Reservation) : bool :=
  (now <? res_expires_at r) &&
  (bool_decide (a = WILDCARD) || bool_decide (res_agent_key r = a)) &&
  (bool_decide (q = WILDCARD) || bool_decide (res_provider r = q)).

(** What the port promises: charged totals, in-flight totals and configured
    limits are observations of the store, and [reserve] adds to the second only. *)
Class UsageLedgerLaws (L : Type) `{UsageLedgerRepository L} := {
  ledger_ok : L → Prop;
  used : L → text → text → text → Period → date → UsageTotals;
  held : L → text → instant → text → text → UsageTotals;
  law_rollup ctx now a q p s t :
    repo_rollup ctx now a q (period_value p) s = Ok t →
    t = used s (workspace_id ctx) a q p (period_start p (aware_utc now));
  law_reserved ctx now a q s t :
    repo_reserved ctx now a q s = Ok t → t = held s (workspace_id ctx) now a q;
  law_held_antitone s ws now now' a q :
    ledger_ok s → now ≤ now' →
    tot_tokens (held s ws now' a q) ≤ tot_tokens (held s ws now a q) ∧
    tot_cost_micros (held s ws now' a q) ≤ tot_cost_micros (held s ws now a q);
  law_reserve ctx r s s' :
    ledger_ok s → repo_reserve ctx r s = Ok (tt, s') →
    ledger_ok s' ∧
    (∀ a q p d, used s' (workspace_id ctx) a q p d = used s (workspace_id ctx) a q p d) ∧
    (∀ now a q, res_created_at r ≤ now →
       held s' (workspace_id ctx) now a q =
       let h := held s (workspace_id ctx) now a q in
       if in_bucket now a q r
       then mk_UsageTotals (res_tokens r + tot_tokens h) (res_cost_micros r + tot_cost_micros h)
       else h);
  law_reserve_limits ctx r s s' :
    repo_reserve ctx r s = Ok (tt, s') → repo_get_limits ctx s' = repo_get_limits ctx s
}.

(** ** Module-level helpers *)

Definition USAGE_QUOTA_CEILING : text := txt "usage.workspace_quota".
Definition MIN_RESERVED_TOKENS : Z := 1.
Definition RESERVED_COST_MICROS : Z := 1.

Record LimitSpec := mk_LimitSpec {
  spec_scope : LimitScope;
  spec_scope_key : text;
  spec_metric : Metric;
  spec_period : Period;
  spec_limit_value : Z
}.

(** [UsageSettings.default_limits]: a mapping of mappings, in insertion order. *)
Abbreviation UsageSettings := (list (text * list (text * Z))).

Inductive UsageEvent : Type :=
  | UsageRecorded (operation_id workspace_id agent_key provider : text) (occurred_at : instant)
  | LimitExceeded (workspace_id scope metric : text) (occurred_at : instant).

Definition usage_exn (e : UsageError) : exn :=
  match e with InvalidUsageInput => Other "InvalidUsageInput" end.
Definition calendar_exn (e : calendar_error) : exn :=
  match e with ValueError => Other "ValueError" | OverflowError => Other "OverflowError" end.

(** Whole seconds from [now] to [reset_at], rounded up and floored at one. *)
Definition seconds_until (reset_at now : instant) : Z :=
  Z.max 1 (- ((now - reset_at) / us_per_second)).

Definition governs (rule : LimitRule) (agent provider : text) : bool :=
  match scope rule with
  | WORKSPACE => true
  | AGENT => bool_decide (scope_key rule = agent)
  | PROVIDER => bool_decide (scope_key rule = provider)
  end.

Definition bucket_for (s : LimitScope) (agent provider : text) : text * text :=
  match s with
  | WORKSPACE => (WILDCARD, WILDCARD)
  | AGENT => (agent, WILDCARD)
  | PROVIDER => (WILDCARD, provider)
  end.

(** The inner loop of [_with_defaults], for one metric. *)
Fixpoint defaults_of_metric (covered : list (Metric * Period)) (m : Metric)
    (by_period : list (text * Z)) : result exn (list LimitRule) :=
  match by_period with
  | [] => Ok []
  | (period_key, limit) :: rest =>
      match parse_period period_key with
      | None => Err (Other "ValueError")
      | Some p =>
          if bool_decide ((m, p) ∈ covered) then defaults_of_metric covered m rest
          else
            r ← map_err usage_exn (new_LimitRule WORKSPACE WILDCARD m p limit);
            rs ← defaults_of_metric covered m rest;
            Ok (r :: rs)
      end
  end.

Fixpoint default_rules (covered : list (Metric * Period)) (settings : UsageSettings)
    : result exn (list LimitRule) :=
  match settings with
  | [] => Ok []
  | (metric_key, by_period) :: rest =>
      match parse_metric metric_key with
      | None => Err (Other "ValueError")
      | Some m =>
          rs ← defaults_of_metric covered m by_period;
          rest' ← default_rules covered rest;
          Ok (rs ++ rest')
      end
  end.

(** [existing_workspace_keys] *)
Definition workspace_keys (configured : list LimitRule) : list (Metric * Period) :=
  (λ r, (metric r, period r)) <$>
    List.filter (λ r, bool_decide (scope r = WORKSPACE)) configured.

Definition with_defaults (configured : list LimitRule) (settings : UsageSettings)
    : result exn (list LimitRule) :=
  ds ← default_rules (workspace_keys configured) settings;
  Ok (configured ++ ds).

(** ** The services *)

Section Services.
Context `{Env} {L : Type} `{UsageLedgerRepository L}.
Context (usage_settings : UsageSettings).

(** One iteration's reads, each cached for the rest of the call: charged totals
    per (bucket, period), in-flight totals per bucket. *)
Definition read_totals (ctx : ExecutionContext) (a q : text) (p : Period)
    (totals : gmap (text * text * text) UsageTotals) : io L (gmap (text * text * text) UsageTotals) :=
  let key := (a, q, period_value p) in
  match totals !! key with
  | Some _ => mret totals
  | None => now ← utc_now;
            t ← query (repo_rollup ctx now a q (period_value p));
            mret (<[key := t]> totals)
  end.

Definition read_held (ctx : ExecutionContext) (a q : text)
    (held : gmap (text * text) UsageTotals) : io L (gmap (text * text) UsageTotals) :=
  match held !! (a, q) with
  | Some _ => mret held
  | None => now ← utc_now;
            t ← query (repo_reserved ctx now a q);
            mret (<[(a, q) := t]> held)
  end.

Definition current_of (m : Metric) (t h : UsageTotals) : Z :=
  match m with
  | TOKENS => tot_tokens t + tot_tokens h
  | COST_MICROS => tot_cost_micros t + tot_cost_micros h
  end.

(** [for rule in relevant: ...] *)
Fixpoint build_checks (ctx : ExecutionContext) (agent provider : text)
    (relevant : list LimitRule) (totals : gmap (text * text * text) UsageTotals)
    (held : gmap (text * text) UsageTotals) : io L (list LimitCheck) :=
  match relevant with
  | [] => mret []
  | rule :: rest =>
      let '(a, q) := bucket_for (scope rule) agent provider in
      totals ← read_totals ctx a q (period rule) totals;
      held ← read_held ctx a q held;
      let t := default (mk_UsageTotals 0 0) (totals !! (a, q, period_value (period rule))) in
      let h := default (mk_UsageTotals 0 0) (held !! (a, q)) in
      let check := mk_LimitCheck (scope rule) (metric rule) (period rule)
                     (limit_value rule) (current_of (metric rule) t h) in
      checks ← build_checks ctx agent provider rest totals held;
      mret (check :: checks)
  end.

(** [configured -> rules -> relevant] *)
Definition relevant_rules (ctx : ExecutionContext) (agent provider : text) (s : L)
    : result exn (list LimitRule) :=
  rows ← repo_get_limits ctx s;
  rules ← with_defaults (rule_of <$> rows) usage_settings;
  Ok (List.filter (λ r, governs r agent provider) rules).

(** [EnforceLimit.execute] *)
Definition EnforceLimit (ctx : ExecutionContext) (agent provider : text)
    (estimated_tokens estimated_cost_micros : option Z)
    : io L (Decision * list UsageEvent) :=
  relevant ← query (relevant_rules ctx agent provider);
  checks ← build_checks ctx agent provider relevant ∅ ∅;
  let evaluation := evaluate checks estimated_tokens estimated_cost_micros in
  match binding evaluation with
  | None => mret (decision evaluation, [])
  | Some b =>
      now ← utc_now;
      reset ← tx_lift (map_err calendar_exn (period_reset_at (chk_period b) (aware_utc now)));
      let d := decision evaluation in
      mret (mk_Decision (allowed d) (reason d) (remaining d) (reservation_id d)
              (Some (seconds_until reset now)),
            [LimitExceeded (workspace_id ctx) (scope_value (chk_scope b))
               (metric_value (chk_metric b)) now])
  end.

(** [AdvisoryQuotaLock.hold]: refused outside a unit of work, where it would be
    released before the count it protects.  What holding it means for other
    callers is the subject of [UsageRace]. *)
Definition hold (in_unit_of_work : bool) (ceiling : text) : io L unit :=
  tx_lift (raise_if (negb in_unit_of_work) (App (raise_code AppError "common.internal"))).

(** [ReserveQuota.execute], from the verdict on: the hold is written only when the
    answer is yes. *)
Definition write_hold (ttl_s : Z) (ctx : ExecutionContext) (agent provider : text)
    (tokens : Z) (d : Decision) (events : list UsageEvent)
    : io L (Decision * list UsageEvent) :=
  if negb (allowed d) then mret (d, events)
  else
    now ← utc_now;
    id ← new_uuid7;
    r ← tx_lift (map_err usage_exn
           (new_Reservation
              (mk_Reservation id (workspace_id ctx) agent provider tokens
                 RESERVED_COST_MICROS now (now + ttl_s * us_per_second))));
    _ ← update (repo_reserve ctx r);
    mret (mk_Decision (allowed d) (reason d) (remaining d) (Some (res_id r))
            (retry_after_s d), events).

Definition tokens_to_hold (estimated_tokens : option Z) : Z :=
  Z.max (default 0 estimated_tokens) MIN_RESERVED_TOKENS.

(** [ReserveQuota.execute] *)
Definition ReserveQuota (ttl_s : Z) (ctx : ExecutionContext) (agent provider : text)
    (estimated_tokens : option Z) : io L (Decision * list UsageEvent) :=
  let tokens := tokens_to_hold estimated_tokens in
  _ ← hold true USAGE_QUOTA_CEILING;
  '(d, events) ← EnforceLimit ctx agent provider (Some tokens) (Some RESERVED_COST_MICROS);
  write_hold ttl_s ctx agent provider tokens d events.

(** [CaptureUsage.execute] *)
Definition CaptureUsage (ctx : ExecutionContext) (charge : UsageCharge)
    : io L (bool * list UsageEvent) :=
  let invalid := App (raise_class ValidationError) in
  _ ← tx_lift (raise_if (bool_decide (strip (agent charge) = [])) invalid);
  _ ← tx_lift (raise_if (bool_decide (strip (provider charge) = [])) invalid);
  _ ← tx_lift (raise_if (tokens charge <? 0) invalid);
  _ ← tx_lift (raise_if (cost_micros charge <? 0) invalid);
  created ← utc_now;
  id ← new_uuid7;
  recorded ← update (repo_append ctx created id charge);
  if negb recorded then mret (false, [])
  else
    now ← utc_now;
    mret (true, [UsageRecorded (operation_id charge) (workspace_id ctx) (agent charge)
                   (provider charge) now]).

(** [ReleaseReservation.execute] *)
Definition ReleaseReservation (ctx : ExecutionContext) (id : text) : io L unit :=
  update (repo_release ctx id).

(** [CommitReservation.execute]: release and append in one unit of work. *)
Definition CommitReservation (ctx : ExecutionContext) (id : text) (charge : UsageCharge)
    : io L (bool * list UsageEvent) :=
  _ ← update (repo_release ctx id);
  CaptureUsage ctx charge.

(** [LimitDecision] and [_decision_out] *)
Record LimitDecision := mk_LimitDecision {
  out_allowed : bool;
  out_reason : option text;
  out_remaining : option Z;
  out_reservation_id : option text;
  out_retry_after_s : option Z
}.

Definition decision_out (d : Decision) (rid : option text) : LimitDecision :=
  mk_LimitDecision (allowed d) (deny_value <$> reason d) (remaining d) rid (retry_after_s d).

(** [UsageEnforcementService.check] and [.reserve]: events are dropped. *)
Definition service_check (ctx : ExecutionContext) (agent provider : text)
    (estimated_tokens : option Z) : io L LimitDecision :=
  '(d, _) ← EnforceLimit ctx agent provider estimated_tokens None;
  mret (decision_out d None).

Definition service_reserve (ttl_s : Z) (ctx : ExecutionContext) (agent provider : text)
    (estimated_tokens : option Z) : io L LimitDecision :=
  '(d, _) ← ReserveQuota ttl_s ctx agent provider estimated_tokens;
  mret (decision_out d (reservation_id d)).

(** [SetLimits.execute]: the loop over the payload. *)
Definition spec_key (r : LimitRule) : LimitScope * text * Metric * Period :=
  (scope r, scope_key r, metric r, period r).

Fixpoint build_limits (ctx : ExecutionContext) (now : instant)
    (seen : list (LimitScope * text * Metric * Period)) (limits : list LimitSpec)
    : io L (list UsageLimit) :=
  match limits with
  | [] => mret []
  | spec :: rest =>
      rule ← tx_lift
        (map_err (λ _, App (raise_class ValidationError))
           (new_LimitRule (spec_scope spec) (spec_scope_key spec) (spec_metric spec)
              (spec_period spec) (spec_limit_value spec)));
      _ ← tx_lift (raise_if (bool_decide (spec_key rule ∈ seen))
                     (App (raise_class ConflictError)));
      id ← new_uuid7;
      l ← tx_lift (map_err usage_exn
            (new_UsageLimit
               (mk_UsageLimit id (workspace_id ctx) (scope rule) (scope_key rule)
                  (metric rule) (period rule) (limit_value rule) now now 1)));
      ls ← build_limits ctx now (spec_key rule :: seen) rest;
      mret (l :: ls)
  end.

Definition SetLimits (ctx : ExecutionContext) (limits : list LimitSpec)
    : io L (list UsageLimit) :=
  now ← utc_now;
  built ← build_limits ctx now [] limits;
  _ ← update (repo_replace_limits ctx built);
  mret built.

(** [ListLimits.execute]: the stored set, no defaults. *)
Definition ListLimits (ctx : ExecutionContext) : io L (list UsageLimit) :=
  query (repo_get_limits ctx).

(** [GetUsageSummary.execute] *)
Record DimensionUsage := mk_DimensionUsage { dim_key : text; dim_tokens : Z; dim_cost : Z }.

Record UsageSummary := mk_UsageSummary {
  sum_period : Period;
  sum_tokens : Z;
  sum_cost_micros : Z;
  by_agent : list DimensionUsage;
  by_provider : list DimensionUsage
}.

Definition summary_row (acc : UsageSummary) (row : UsageRollup) : UsageSummary :=
  let wa := bool_decide (rol_agent_key row = WILDCARD) in
  let wp := bool_decide (rol_provider row = WILDCARD) in
  let dim k := mk_DimensionUsage k (rol_tokens_sum row) (rol_cost_micros_sum row) in
  if wa && wp then
    mk_UsageSummary (sum_period acc) (rol_tokens_sum row) (rol_cost_micros_sum row)
      (by_agent acc) (by_provider acc)
  else if wp && negb wa then
    mk_UsageSummary (sum_period acc) (sum_tokens acc) (sum_cost_micros acc)
      (by_agent acc ++ [dim (rol_agent_key row)]) (by_provider acc)
  else if wa && negb wp then
    mk_UsageSummary (sum_period acc) (sum_tokens acc) (sum_cost_micros acc)
      (by_agent acc) (by_provider acc ++ [dim (rol_provider row)])
  else acc.

Definition GetUsageSummary (ctx : ExecutionContext) (period : text) : io L UsageSummary :=
  match parse_period period with
  | None => tx_raise (App (raise_class ValidationError))
  | Some p =>
      rows ← query (λ s, Ok (repo_list_rollups ctx (period_value p) s));
      mret (foldl summary_row (mk_UsageSummary p 0 0 [] []) rows)
  end.
End Services.

(** ** What the services guarantee *)

#[global] Arguments build_checks : simpl never.

#[export] Instance period_value_inj : Inj (=) (=) period_value.
Proof. intros [] []; done. Qed.

Section Correctness.
Context {EV : Env} {EVL : EnvLaws EV}.
Context {L : Type} {R : UsageLedgerRepository L} {RL : UsageLedgerLaws L}.
Context (settings : UsageSettings).
Implicit Types (w : World L) (s : L) (ctx : ExecutionContext).

(** The reads a call has cached come from readings of the clock made since the
    call began. *)
Definition totals_ok ctx s (t0 t1 : nat) (m : gmap (text * text * text) UsageTotals) : Prop :=
  ∀ a q p t, m !! (a, q, period_value p) = Some t →
  ∃ i, (t0 ≤ i < t1)%nat ∧
    t = used s (workspace_id ctx) a q p (period_start p (aware_utc (clock i))).

Definition held_ok ctx s (t0 t1 : nat) (m : gmap (text * text) UsageTotals) : Prop :=
  ∀ a q t, m !! (a, q) = Some t →
  ∃ i, (t0 ≤ i < t1)%nat ∧ t = held s (workspace_id ctx) (clock i) a q.

(** The meaning of one built check. *)
Definition check_reads ctx s (t0 t1 : nat) (agent provider : text)
    (rule : LimitRule) (c : LimitCheck) : Prop :=
  let '(a, q) := bucket_for (scope rule) agent provider in
  ∃ i j, (t0 ≤ i < t1)%nat ∧ (t0 ≤ j < t1)%nat ∧
    c = mk_LimitCheck (scope rule) (metric rule) (period rule) (limit_value rule)
          (current_of (metric rule)
             (used s (workspace_id ctx) a q (period rule)
                (period_start (period rule) (aware_utc (clock i))))
             (held s (workspace_id ctx) (clock j) a q)).

Lemma totals_ok_mono ctx s t0 t1 t2 m :
  totals_ok ctx s t0 t1 m → (t1 ≤ t2)%nat → totals_ok ctx s t0 t2 m.
Proof. intros Hm Hle a q p t Ht. destruct (Hm _ _ _ _ Ht) as (i & ? & ?). exists i. split; [lia|done]. Qed.

Lemma held_ok_mono ctx s t0 t1 t2 m :
  held_ok ctx s t0 t1 m → (t1 ≤ t2)%nat → held_ok ctx s t0 t2 m.
Proof. intros Hm Hle a q t Ht. destruct (Hm _ _ _ Ht) as (i & ? & ?). exists i. split; [lia|done]. Qed.

Lemma read_totals_Ok ctx a q p m w w' m' t0 :
  read_totals ctx a q p m w = Ok (m', w') → (t0 ≤ ticks w)%nat →
  totals_ok ctx (store w) t0 (ticks w) m →
  store w' = store w ∧ minted w' = minted w ∧ (ticks w ≤ ticks w')%nat ∧
  totals_ok ctx (store w) t0 (ticks w') m' ∧ is_Some (m' !! (a, q, period_value p)).
Proof.
  unfold read_totals. destruct (m !! _) eqn:Em; intros Hr H0 Hok; unio; [naive_solver|].
  match goal with Hq : repo_rollup _ _ _ _ _ _ = Ok _ |- _ => apply law_rollup in Hq end.
  cbn [store minted ticks] in *.
  split_and!; [done|done|lia| |by rewrite lookup_insert_eq].
  intros a' q' p' t' Ht'. rewrite lookup_insert in Ht'.
  case_decide as Heq; simplify_eq.
  - exists (ticks w). split; [lia|done].
  - destruct (Hok _ _ _ _ Ht') as (i & ? & ?). exists i. split; [lia|done].
Qed.

Lemma read_held_Ok ctx a q m w w' m' t0 :
  read_held ctx a q m w = Ok (m', w') → (t0 ≤ ticks w)%nat →
  held_ok ctx (store w) t0 (ticks w) m →
  store w' = store w ∧ minted w' = minted w ∧ (ticks w ≤ ticks w')%nat ∧
  held_ok ctx (store w) t0 (ticks w') m' ∧ is_Some (m' !! (a, q)).
Proof.
  unfold read_held. destruct (m !! _) eqn:Em; intros Hr H0 Hok; unio; [naive_solver|].
  match goal with Hq : repo_reserved _ _ _ _ _ = Ok _ |- _ => apply law_reserved in Hq end.
  cbn [store minted ticks] in *.
  split_and!; [done|done|lia| |by rewrite lookup_insert_eq].
  intros a' q' t' Ht'. rewrite lookup_insert in Ht'.
  case_decide as Heq; simplify_eq.
  - exists (ticks w). split; [lia|done].
  - destruct (Hok _ _ _ Ht') as (i & ? & ?). exists i. split; [lia|done].
Qed.

Lemma check_reads_mono ctx s t0 t1 t2 agent provider rule c :
  check_reads ctx s t0 t1 agent provider rule c → (t1 ≤ t2)%nat →
  check_reads ctx s t0 t2 agent provider rule c.
Proof.
  unfold check_reads. destruct (bucket_for _ _ _) as [a q].
  intros (i & j & ? & ? & ->) Hle. exists i, j. split_and!; (done || lia).
Qed.

Lemma build_checks_Ok ctx agent provider relevant mt mh w w' checks t0 :
  build_checks ctx agent provider relevant mt mh w = Ok (checks, w') →
  (t0 ≤ ticks w)%nat → totals_ok ctx (store w) t0 (ticks w) mt →
  held_ok ctx (store w) t0 (ticks w) mh →
  store w' = store w ∧ minted w' = minted w ∧ (ticks w ≤ ticks w')%nat ∧
  Forall2 (check_reads ctx (store w) t0 (ticks w') agent provider) relevant checks.
Proof.
  revert mt mh w checks. induction relevant as [|rule rest IH]; intros mt mh w checks Hb H0 Ht Hh.
  { unfold build_checks in Hb. unio. by split_and!; [..|constructor]. }
  change (build_checks ctx agent provider (rule :: rest) mt mh)
    with (let '(a, q) := bucket_for (scope rule) agent provider in
          totals ← read_totals ctx a q (period rule) mt;
          held ← read_held ctx a q mh;
          let t := default (mk_UsageTotals 0 0) (totals !! (a, q, period_value (period rule))) in
          let h := default (mk_UsageTotals 0 0) (held !! (a, q)) in
          let check := mk_LimitCheck (scope rule) (metric rule) (period rule)
                         (limit_value rule) (current_of (metric rule) t h) in
          checks ← build_checks ctx agent provider rest totals held;
          mret (check :: checks)) in Hb.
  destruct (bucket_for (scope rule) agent provider) as [a q] eqn:Eb.
  apply tx_bind_Ok in Hb as (mt' & w1 & Hrt & Hb).
  apply tx_bind_Ok in Hb as (mh' & w2 & Hrh & Hb).
  apply tx_bind_Ok in Hb as (checks' & w3 & Hrest & Hb).
  destruct (read_totals_Ok _ _ _ _ _ _ _ _ t0 Hrt H0 Ht) as (Hs1 & Hm1 & Hle1 & Ht' & [t Et]).
  assert (held_ok ctx (store w1) t0 (ticks w1) mh) as Hh1.
  { rewrite Hs1. by eapply held_ok_mono. }
  destruct (read_held_Ok _ _ _ _ _ _ _ t0 Hrh ltac:(lia) Hh1) as (Hs2 & Hm2 & Hle2 & Hh' & [h Eh]).
  rewrite Hs1 in *. rewrite Et, Eh in Hb. cbn [default] in Hb.
  apply Ok_pair_inj in Hb as [<- ->].
  destruct (IH _ _ _ _ Hrest) as (Hs3 & Hm3 & Hle3 & Hall);
    [lia|rewrite Hs2; by eapply totals_ok_mono|by rewrite Hs2|].
  rewrite Hs2 in *.
  split_and!; [done|congruence|lia|]. constructor; [|done].
  unfold check_reads. rewrite Eb.
  destruct (Ht' _ _ _ _ Et) as (i & ? & ->). destruct (Hh' _ _ _ Eh) as (j & ? & ->).
  exists i, j. split_and!; (done || lia).
Qed.

Lemma empty_caches ctx s t0 : totals_ok ctx s t0 t0 ∅ ∧ held_ok ctx s t0 t0 ∅.
Proof. split; intros ?; intros; by rewrite lookup_empty in *. Qed.

(** [EnforceLimit] reads and never writes; its verdict is [evaluate]'s on checks
    that read the store at instants of this very call. *)
Lemma EnforceLimit_Ok ctx agent provider et ec w d evs w' :
  EnforceLimit settings ctx agent provider et ec w = Ok ((d, evs), w') →
  ∃ relevant checks,
    relevant_rules settings ctx agent provider (store w) = Ok relevant ∧
    Forall2 (check_reads ctx (store w) (ticks w) (ticks w') agent provider) relevant checks ∧
    store w' = store w ∧ minted w' = minted w ∧ (ticks w ≤ ticks w')%nat ∧
    allowed d = allowed (decision (evaluate checks et ec)) ∧
    reason d = reason (decision (evaluate checks et ec)) ∧
    remaining d = remaining (decision (evaluate checks et ec)) ∧
    reservation_id d = None ∧
    match binding (evaluate checks et ec) with
    | None => retry_after_s d = None ∧ evs = []
    | Some b => ∃ now reset,
        now = clock (pred (ticks w')) ∧ (ticks w < ticks w')%nat ∧
        period_reset_at (chk_period b) (aware_utc now) = Ok reset ∧
        retry_after_s d = Some (seconds_until reset now) ∧
        evs = [LimitExceeded (workspace_id ctx) (scope_value (chk_scope b))
                 (metric_value (chk_metric b)) now]
    end.
Proof.
  unfold EnforceLimit. intros Hx.
  apply tx_bind_Ok in Hx as (relevant & w1 & [Hrel ->]%query_Ok & Hx).
  apply tx_bind_Ok in Hx as (checks & w2 & Hb & Hx).
  destruct (empty_caches ctx (store w) (ticks w)) as [He1 He2].
  destruct (build_checks_Ok _ _ _ _ _ _ _ _ _ (ticks w) Hb (le_n _) He1 He2)
    as (Hs & Hm & Hle & Hall).
  exists relevant, checks. split; [done|].
  pose proof (evaluate_binding_decision checks et ec) as Hd.
  destruct (binding (evaluate checks et ec)) as [b|] eqn:Eb.
  - apply tx_bind_Ok in Hx as (now & w3 & [-> ->]%utc_now_Ok & Hx).
    apply tx_bind_Ok in Hx as (reset & w4 & [Hr ->]%tx_lift_Ok & Hx).
    apply map_err_Ok in Hr. unio. cbn [store ticks minted] in *. rewrite Hd.
    split_and!; try done; try lia.
    + eapply Forall2_impl; [exact Hall|]. intros. eapply check_reads_mono; [done|lia].
    + do 2 eexists. split_and!; try done. lia.
  - unio. rewrite Hd. by split_and!.
Qed.

Lemma evaluate_reason cs et ec :
  allowed (decision (evaluate cs et ec)) = false ↔
  ∃ b r, binding (evaluate cs et ec) = Some b ∧ reason (decision (evaluate cs et ec)) = Some r.
Proof.
  rewrite evaluate_binding_decision. destruct (binding _) as [b|]; cbn; naive_solver.
Qed.

Lemma seconds_until_pos reset now : 1 ≤ seconds_until reset now.
Proof. unfold seconds_until. lia. Qed.

Lemma EnforceLimit_denied ctx agent provider et ec w d evs w' :
  EnforceLimit settings ctx agent provider et ec w = Ok ((d, evs), w') →
  if allowed d
  then retry_after_s d = None ∧ evs = []
  else is_Some (reason d) ∧ (∃ n, retry_after_s d = Some n ∧ 1 ≤ n) ∧ evs ≠ [].
Proof.
  intros (rel & cs & _ & _ & _ & _ & _ & Ha & Hr & _ & _ & Hb)%EnforceLimit_Ok.
  rewrite Ha, Hr. rewrite evaluate_binding_decision.
  destruct (binding _) as [b|]; cbn; [|done].
  destruct Hb as (now & reset & _ & _ & _ & -> & ->).
  split_and!; [done| |done]. exists (seconds_until reset now).
  split; [done|apply seconds_until_pos].
Qed.

(** One successful run of [ReserveQuota], opened. *)
Lemma ReserveQuota_Ok ttl ctx agent provider est w d evs w' :
  ReserveQuota settings ttl ctx agent provider est w = Ok ((d, evs), w') →
  let tokens := tokens_to_hold est in
  ∃ d0 w1,
    EnforceLimit settings ctx agent provider (Some tokens) (Some RESERVED_COST_MICROS) w
      = Ok ((d0, evs), w1) ∧ allowed d = allowed d0 ∧
    if allowed d0 then
      let now := clock (ticks w1) in
      let r := mk_Reservation (uuid7 (minted w1)) (workspace_id ctx) agent provider tokens
                 RESERVED_COST_MICROS now (now + ttl * us_per_second) in
      0 < ttl ∧ repo_reserve ctx r (store w1) = Ok (tt, store w') ∧
      ticks w' = S (ticks w1) ∧ reservation_id d = Some (res_id r)
    else d = d0 ∧ w' = w1.
Proof.
  unfold ReserveQuota. intros Hx. cbn zeta.
  apply tx_bind_Ok in Hx as ([] & w0 & Hh & Hx).
  unfold hold in Hh. apply tx_lift_Ok in Hh as [_ ->].
  apply tx_bind_Ok in Hx as ([d0 evs0] & w1 & He & Hx).
  exists d0, w1. unfold write_hold in Hx. destruct (allowed d0) eqn:Ea; cbn [negb] in Hx.
  - apply tx_bind_Ok in Hx as (now & w2 & [-> ->]%utc_now_Ok & Hx).
    apply tx_bind_Ok in Hx as (id & w3 & [-> ->]%new_uuid7_Ok & Hx).
    apply tx_bind_Ok in Hx as (r & w4 & [Hr ->]%tx_lift_Ok & Hx).
    apply map_err_Ok, new_Reservation_Ok in Hr as (-> & _ & _ & Hlt).
    apply tx_bind_Ok in Hx as ([] & w5 & (Hu & Ht & _)%update_Ok & Hx).
    apply Ok_pair_inj in Hx as [[= <- <-] ->]. cbn in *.
    split; [done|]. split; [done|]. split_and!; try done.
    unfold us_per_second in Hlt. lia.
  - apply Ok_pair_inj in Hx as [[= <- <-] ->]. by rewrite Ea.
Qed.

(** The bucket of a governing rule is one the reservation weighs on. *)
Lemma in_bucket_for now sc agent provider r :
  res_agent_key r = agent → res_provider r = provider → now < res_expires_at r →
  let '(a, q) := bucket_for sc agent provider in in_bucket now a q r = true.
Proof.
  intros Ha Hp Hlt. unfold in_bucket, bucket_for.
  destruct sc; rewrite !andb_true_iff, !orb_true_iff, !bool_decide_eq_true, Z.ltb_lt; auto.
Qed.

(** How close a rule's bucket is to its cap, at the instant [now]. *)
Definition usage_at (s : L) ctx (rule : LimitRule) (agent provider : text) (now : instant) : Z :=
  let '(a, q) := bucket_for (scope rule) agent provider in
  current_of (metric rule)
    (used s (workspace_id ctx) a q (period rule) (period_start (period rule) (aware_utc now)))
    (held s (workspace_id ctx) now a q).

(** No reading of the clock in [i..j) crosses a boundary of the rule's period. *)
Definition same_bucket (p : Period) (i j : nat) : Prop :=
  ∀ k l, (i ≤ k < j)%nat → (i ≤ l < j)%nat →
  period_start p (aware_utc (clock k)) = period_start p (aware_utc (clock l)).

Lemma reserve_usage ctx r s s' rule :
  ledger_ok s → repo_reserve ctx r s = Ok (tt, s') → res_created_at r < res_expires_at r →
  usage_at s' ctx rule (res_agent_key r) (res_provider r) (res_created_at r) =
  usage_at s ctx rule (res_agent_key r) (res_provider r) (res_created_at r)
  + match metric rule with TOKENS => res_tokens r | COST_MICROS => res_cost_micros r end.
Proof.
  intros Hok Hr Hlt. destruct (law_reserve _ _ _ _ Hok Hr) as (_ & Hu & Hh).
  unfold usage_at. pose proof (in_bucket_for (res_created_at r) (scope rule)
    (res_agent_key r) (res_provider r) r eq_refl eq_refl Hlt) as Hb.
  destruct (bucket_for _ _ _) as [a q].
  rewrite Hu, (Hh (res_created_at r) a q) by done. rewrite Hb.
  destruct (metric rule); cbn; lia.
Qed.

Lemma admitted_room ctx agent provider tokens w d evs w1 rules rule :
  ledger_ok (store w) →
  EnforceLimit settings ctx agent provider (Some tokens) (Some RESERVED_COST_MICROS) w
    = Ok ((d, evs), w1) →
  allowed d = true →
  relevant_rules settings ctx agent provider (store w) = Ok rules → rule ∈ rules →
  same_bucket (period rule) (ticks w) (S (ticks w1)) →
  usage_at (store w) ctx rule agent provider (clock (ticks w1))
  + match metric rule with TOKENS => tokens | COST_MICROS => RESERVED_COST_MICROS end
  ≤ limit_value rule.
Proof.
  intros Hok He Ha Hrel Hin Hsame.
  apply EnforceLimit_Ok in He as (rel & cs & Hrel' & Hall & _ & _ & Hle & Had & _).
  rewrite Hrel in Hrel'. apply Ok_inj in Hrel' as <-.
  rewrite Ha, evaluate_binding_decision in Had.
  destruct (binding _) eqn:Eb; [done|].
  apply list_elem_of_lookup in Hin as [k Hk].
  destruct (Forall2_lookup_l _ _ _ _ _ Hall Hk) as (c & Hc & Hreads).
  apply list_elem_of_lookup_2 in Hc.
  pose proof (proj1 (evaluate_allow_all cs _ _) Eb c Hc) as [_ Hroom].
  unfold check_reads in Hreads. unfold usage_at.
  destruct (bucket_for _ _ _) as [a q]. destruct Hreads as (i & j & Hi & Hj & ->).
  unfold estimate_for in Hroom. cbn in Hroom.
  rewrite (Hsame (ticks w1) i) by lia.
  pose proof (law_held_antitone (store w) (workspace_id ctx) (clock j) (clock (ticks w1)) a q
                Hok (clock_mono j (ticks w1) ltac:(lia))) as [Hm1 Hm2].
  destruct (metric rule); cbn in *; specialize (Hroom _ eq_refl); lia.
Qed.

Lemma admitted_within ttl ctx agent provider est w d evs w' rules rule :
  ledger_ok (store w) →
  ReserveQuota settings ttl ctx agent provider est w = Ok ((d, evs), w') →
  allowed d = true →
  relevant_rules settings ctx agent provider (store w) = Ok rules → rule ∈ rules →
  same_bucket (period rule) (ticks w) (ticks w') →
  usage_at (store w') ctx rule agent provider (clock (pred (ticks w'))) ≤ limit_value rule.
Proof.
  intros Hok Hr Ha Hrel Hin Hsame.
  destruct (ReserveQuota_Ok _ _ _ _ _ _ _ _ _ Hr) as (d0 & w1 & He & Had & Hd).
  rewrite <- Had, Ha in Hd. destruct Hd as (Httl & Hres & Ht & _).
  assert (store w1 = store w) as Hs by by apply EnforceLimit_Ok in He as (? & ? & _ & _ & ? & _).
  rewrite Hs in Hres. rewrite Ht in Hsame |- *. cbn [pred].
  pose proof (admitted_room _ _ _ _ _ _ _ _ _ _ Hok He ltac:(congruence) Hrel Hin Hsame).
  pose proof (reserve_usage _ _ _ _ rule Hok Hres) as Hu.
  cbn [res_created_at res_expires_at res_agent_key res_provider res_tokens res_cost_micros] in Hu.
  rewrite Hu; [destruct (metric rule); lia|unfold us_per_second; lia].
Qed.

(** An admission never over-commits.  When [ReserveQuota] says yes, then in the
    state it leaves, for every limit that governs the call -- configured or default,
    tokens or cost -- what is already charged plus everything in flight, this
    request's own hold included, is within the cap. *)
Theorem reserve_within_limits ttl ctx agent provider est w d evs w' rules rule :
  ledger_ok (store w) →
  ReserveQuota settings ttl ctx agent provider est w = Ok ((d, evs), w') →
  allowed d = true →
  relevant_rules settings ctx agent provider (store w) = Ok rules → rule ∈ rules →
  same_bucket (period rule) (ticks w) (ticks w') →
  usage_at (store w') ctx rule agent provider (clock (pred (ticks w'))) ≤ limit_value rule.
Proof. apply admitted_within. Qed.

(** A refusal holds nothing and says when to come back.  When [ReserveQuota]
    says no, the store is the one it found, no reservation id is handed out, a
    reason and a retry delay of at least one second are given, and exactly the
    denial's event is returned. *)
Theorem reserve_denied_holds_nothing ttl ctx agent provider est w d evs w' :
  ReserveQuota settings ttl ctx agent provider est w = Ok ((d, evs), w') →
  allowed d = false →
  store w' = store w ∧ minted w' = minted w ∧ reservation_id d = None ∧
  is_Some (reason d) ∧ (∃ n, retry_after_s d = Some n ∧ 1 ≤ n) ∧ length evs = 1%nat.
Proof.
  intros (d0 & w1 & He & Had & Hd)%ReserveQuota_Ok Ha.
  rewrite <- Had, Ha in Hd. destruct Hd as [-> ->].
  pose proof (EnforceLimit_denied _ _ _ _ _ _ _ _ _ He) as Hden. rewrite Ha in Hden.
  apply EnforceLimit_Ok in He as (rel & cs & _ & _ & Hs & Hm & _ & _ & _ & _ & Hid & Hb).
  destruct Hden as (Hr & Hret & Hev). split_and!; try done.
  destruct (binding _); [|naive_solver].
  by destruct Hb as (? & ? & _ & _ & _ & _ & ->).
Qed.

(** [check] is a pure question.  It never changes the store or mints an id, it
    never carries a reservation, and it gives a retry delay exactly when it denies. *)
Theorem check_is_read_only ctx agent provider est w out w' :
  service_check settings ctx agent provider est w = Ok (out, w') →
  store w' = store w ∧ minted w' = minted w ∧ out_reservation_id out = None ∧
  (out_allowed out = true ↔ out_retry_after_s out = None) ∧
  (out_allowed out = false → is_Some (out_reason out)).
Proof.
  unfold service_check. intros ([d evs] & w1 & He & Hx)%tx_bind_Ok.
  apply Ok_pair_inj in Hx as [<- <-]. cbn.
  pose proof (EnforceLimit_denied _ _ _ _ _ _ _ _ _ He) as Hden.
  apply EnforceLimit_Ok in He as (rel & cs & _ & _ & Hs & Hm & _).
  destruct (allowed d); cbn in *; split_and!; try done; [naive_solver| |].
  - destruct Hden as (_ & (n & -> & _) & _). naive_solver.
  - intros _. apply fmap_is_Some. naive_solver.
Qed.
End Correctness.

(** ** Guardrail defaults *)

Lemma defaults_of_metric_Ok covered m l rs p v :
  defaults_of_metric covered m l = Ok rs → (period_value p, v) ∈ l → (m, p) ∉ covered →
  mk_LimitRule WORKSPACE WILDCARD m p v ∈ rs.
Proof.
  revert rs; induction l as [|[k x] l IH]; intros rs; cbn [defaults_of_metric]; [set_solver|].
  intros Hd Hin Hc. destruct (parse_period k) as [p'|] eqn:Ep; [|done].
  apply elem_of_cons in Hin as [[= <- <-]|Hin].
  - assert (p' = p) as -> by (destruct p; vm_compute in Ep; congruence).
    rewrite bool_decide_false in Hd by done. unresult.
    apply new_LimitRule_Ok in H as [-> _]. set_solver.
  - case_bool_decide; [by apply IH|]. unresult. apply elem_of_cons. right. by eapply IH.
Qed.

Lemma default_rules_Ok covered settings rs m p v l :
  default_rules covered settings = Ok rs → (metric_value m, l) ∈ settings →
  (period_value p, v) ∈ l → (m, p) ∉ covered → mk_LimitRule WORKSPACE WILDCARD m p v ∈ rs.
Proof.
  revert rs; induction settings as [|[k x] settings IH]; intros rs;
    cbn [default_rules]; [set_solver|].
  intros Hd Hin Hl Hc. destruct (parse_metric k) as [m'|] eqn:Em; [|done].
  unresult. apply elem_of_app. apply elem_of_cons in Hin as [[= <- <-]|Hin].
  - assert (m' = m) as -> by (destruct m; vm_compute in Em; congruence).
    left. by eapply defaults_of_metric_Ok.
  - right. by eapply IH.
Qed.

(** Deny by guardrail.  A platform default for a (metric, period) the workspace
    has not configured at workspace scope is always among the rules that govern a
    call, and every configured rule that names the call still is. *)
Theorem defaults_govern {L} `{UsageLedgerRepository L} settings ctx agent provider (s : L)
    rows rules m p v l :
  repo_get_limits ctx s = Ok rows →
  relevant_rules settings ctx agent provider s = Ok rules →
  (metric_value m, l) ∈ settings → (period_value p, v) ∈ l →
  (m, p) ∉ workspace_keys (rule_of <$> rows) →
  mk_LimitRule WORKSPACE WILDCARD m p v ∈ rules ∧
  ∀ r, r ∈ rule_of <$> rows → governs r agent provider = true → r ∈ rules.
Proof.
  unfold relevant_rules, with_defaults. intros Hrows Hrel Hm Hp Hc.
  rewrite Hrows in Hrel. cbn in Hrel. unresult. split.
  - apply elem_of_list_filter_bool. split; [|done]. apply elem_of_app. right.
    by eapply default_rules_Ok.
  - intros r Hr Hg. apply elem_of_list_filter_bool. split; [|done]. set_solver.
Qed.
