(* ===== verification/UsageRace.v ===== *)
(** * Usage: contending reservations

    [framework/ports/quota_lock.py], [infrastructure/persistence/quota_lock.py] and
    the way [ReserveQuota] uses them.  Any number of callers of one workspace run
    [ReserveQuota.execute] at once.  Each is a small state machine that takes the
    lock, counts, then writes and commits; a step relation interleaves them.  The
    flag [locked] says whether taking the lock waits for the holder, as
    [pg_advisory_xact_lock] does, or not, which is the code without [hold]. *)

From S2P Require Import Prelude Text Calendar Errors Framework UsageRules UsageLedger UsageApp.

Open Scope Z_scope.

(** One call: agent, provider and estimate. *)
Record Request := mk_Request { rq_agent : text; rq_provider : text; rq_estimate : option Z }.

Abbreviation Verdict := (result exn (Decision * list UsageEvent)).

Inductive Phase : Type :=
  | Idle
  | Holding
  | Counted (d : Decision) (events : list UsageEvent)
  | Finished (v : Verdict)
  | Crashed.

Section Race.
Context `{Env} {L : Type} `{UsageLedgerRepository L}.
Context (settings : UsageSettings) (ttl : Z) (ctx : ExecutionContext).
Context (requests : list Request) (locked : bool).

(** The committed world, the transaction that holds the lock, every caller's
    phase. *)
Record Race := mk_Race {
  shared : World L;
  holder : option nat;
  phases : list Phase
}.

Definition race_start (w : World L) : Race :=
  mk_Race w None (replicate (length requests) Idle).

Definition count (rq : Request) : io L (Decision * list UsageEvent) :=
  EnforceLimit settings ctx (rq_agent rq) (rq_provider rq)
    (Some (tokens_to_hold (rq_estimate rq))) (Some RESERVED_COST_MICROS).

Definition write (rq : Request) (d : Decision) (events : list UsageEvent)
    : io L (Decision * list UsageEvent) :=
  write_hold ttl ctx (rq_agent rq) (rq_provider rq) (tokens_to_hold (rq_estimate rq)) d events.

Definition run_alone (rq : Request) : io L (Decision * list UsageEvent) :=
  ReserveQuota settings ttl ctx (rq_agent rq) (rq_provider rq) (rq_estimate rq).

(** COMMIT and ROLLBACK both end the transaction, and with it the lock. *)
Definition release_lock (i : nat) (h : option nat) : option nat :=
  if bool_decide (h = Some i) then None else h.

Inductive race_step : Race → Race → Prop :=
  | step_acquire c i :
      phases c !! i = Some Idle →
      (locked = true → holder c = None) →
      race_step c (mk_Race (shared c) (Some i) (<[i := Holding]> (phases c)))
  | step_count c i rq d events w :
      phases c !! i = Some Holding → requests !! i = Some rq →
      count rq (shared c) = Ok ((d, events), w) →
      race_step c (mk_Race w (holder c) (<[i := Counted d events]> (phases c)))
  | step_count_fails c i rq e :
      phases c !! i = Some Holding → requests !! i = Some rq →
      count rq (shared c) = Err e →
      race_step c (mk_Race (shared c) (release_lock i (holder c))
                     (<[i := Finished (Err e)]> (phases c)))
  | step_commit c i rq d events out w :
      phases c !! i = Some (Counted d events) → requests !! i = Some rq →
      write rq d events (shared c) = Ok (out, w) →
      race_step c (mk_Race w (release_lock i (holder c)) (<[i := Finished (Ok out)]> (phases c)))
  | step_write_fails c i rq d events e :
      phases c !! i = Some (Counted d events) → requests !! i = Some rq →
      write rq d events (shared c) = Err e →
      race_step c (mk_Race (shared c) (release_lock i (holder c))
                     (<[i := Finished (Err e)]> (phases c)))
  | step_crash c i p :
      phases c !! i = Some p → p = Holding ∨ (∃ d ev, p = Counted d ev) →
      race_step c (mk_Race (shared c) (release_lock i (holder c)) (<[i := Crashed]> (phases c))).

(** The reference: the calls one after the other, each of them whole.  A failed
    call changes nothing but may have read the clock, like one that crashed. *)
Definition only_time_passed (w w' : World L) : Prop :=
  store w' = store w ∧ minted w' = minted w ∧ (ticks w ≤ ticks w')%nat.

Inductive serial : World L → list (nat * Verdict) → World L → Prop :=
  | serial_nil w : serial w [] w
  | serial_done w tr w' i rq out w'' :
      serial w tr w' → requests !! i = Some rq →
      run_alone rq w' = Ok (out, w'') →
      serial w (tr ++ [(i, Ok out)]) w''
  | serial_failed w tr w' i rq e w'' :
      serial w tr w' → requests !! i = Some rq →
      run_alone rq w' = Err e → only_time_passed w' w'' →
      serial w (tr ++ [(i, Err e)]) w''
  | serial_idle w tr w' w'' :
      serial w tr w' → only_time_passed w' w'' → serial w tr w''.
End Race.

Arguments mk_Race {L}.
Arguments shared {L}.
Arguments holder {L}.
Arguments phases {L}.

(** ** Every locked run is a serial run *)

Section Refinement.
Context {EV : Env} {EVL : EnvLaws EV}.
Context {L : Type} {R : UsageLedgerRepository L} {RL : UsageLedgerLaws L}.
Context (settings : UsageSettings) (ttl : Z) (ctx : ExecutionContext) (requests : list Request).

Abbreviation step := (race_step settings ttl ctx requests true).
Abbreviation serial_run := (serial settings ttl ctx requests).

Definition busy (p : Phase) : Prop :=
  match p with Holding | Counted _ _ => True | _ => False end.

(** The concrete world against the serial one: equal, except that the holder may
    have already counted. *)
Definition ahead (c : Race) (w : World L) : Prop :=
  match holder c with
  | None => shared c = w ∧ ∀ i p, phases c !! i = Some p → ¬ busy p
  | Some h =>
      (∀ i p, phases c !! i = Some p → busy p → i = h) ∧
      ((phases c !! h = Some Holding ∧ shared c = w) ∨
       (∃ rq d ev, phases c !! h = Some (Counted d ev) ∧ requests !! h = Some rq ∧
          count settings ctx rq w = Ok ((d, ev), shared c)))
  end.

Definition refines (w0 : World L) (c : Race) : Prop :=
  ∃ tr w, serial_run w0 tr w ∧ NoDup tr.*1 ∧ ahead c w ∧
    ∀ i v, phases c !! i = Some (Finished v) ↔ (i, v) ∈ tr.

Lemma holder_is c w i p :
  ahead c w → phases c !! i = Some p → busy p → holder c = Some i.
Proof.
  unfold ahead. destruct (holder c) as [h|]; [|naive_solver].
  intros [Hb _] Hp Hbp. by rewrite (Hb i p Hp Hbp).
Qed.

Lemma holding_world c w i :
  ahead c w → phases c !! i = Some Holding → shared c = w.
Proof.
  intros Ha Hp. pose proof (holder_is c w i Holding Ha Hp I) as Hh.
  unfold ahead in Ha. rewrite Hh in Ha. naive_solver.
Qed.

Lemma counted_world c w i rq d ev :
  ahead c w → phases c !! i = Some (Counted d ev) → requests !! i = Some rq →
  count settings ctx rq w = Ok ((d, ev), shared c).
Proof.
  intros Ha Hp Hrq. pose proof (holder_is c w i (Counted d ev) Ha Hp I) as Hh.
  unfold ahead in Ha. rewrite Hh in Ha. destruct Ha as [_ [[? _]|(rq' & d' & ev' & Hp' & Hrq' & Hc)]];
    congruence.
Qed.

(** When the holder stops being busy, nobody is. *)
Lemma ahead_release c w w' i p p' :
  ahead c w → phases c !! i = Some p → busy p → ¬ busy p' →
  ahead (mk_Race w' (release_lock i (holder c)) (<[i := p']> (phases c))) w'.
Proof.
  intros Ha Hp Hb Hnb. pose proof (holder_is c w i p Ha Hp Hb) as Hh.
  unfold ahead, release_lock in *. rewrite Hh in *. cbn [holder shared phases].
  rewrite bool_decide_true by done. split; [done|].
  intros j q Hq. destruct (decide (i = j)) as [->|Hne].
  - rewrite list_lookup_insert_eq in Hq by (by eapply lookup_lt_Some). naive_solver.
  - rewrite list_lookup_insert_ne in Hq by done. intros Hbq. apply Hne. symmetry.
    by apply (proj1 Ha j q).
Qed.

(** Moving a caller between unfinished phases leaves the finished ones alone. *)
Lemma finished_other (ps : list Phase) i p p' :
  ps !! i = Some p → (∀ v, p ≠ Finished v) → (∀ v, p' ≠ Finished v) →
  ∀ j v, <[i := p']> ps !! j = Some (Finished v) ↔ ps !! j = Some (Finished v).
Proof.
  intros Hp Hn Hn' j v. destruct (decide (i = j)) as [->|Hne].
  - rewrite list_lookup_insert_eq by (by eapply lookup_lt_Some). rewrite Hp. naive_solver.
  - by rewrite list_lookup_insert_ne.
Qed.

Lemma finished_snoc (ps : list Phase) i p v0 (tr : list (nat * Verdict)) :
  ps !! i = Some p → (∀ v, p ≠ Finished v) →
  (∀ j v, ps !! j = Some (Finished v) ↔ (j, v) ∈ tr) → NoDup tr.*1 →
  NoDup (tr ++ [(i, v0)]).*1 ∧
  ∀ j v, <[i := Finished v0]> ps !! j = Some (Finished v) ↔ (j, v) ∈ tr ++ [(i, v0)].
Proof.
  intros Hp Hn Htr Hnd. split.
  - rewrite fmap_app. apply NoDup_app. split_and!; [done| |apply NoDup_singleton].
    intros j Hj Hi. cbn in Hi. apply list_elem_of_singleton in Hi as ->.
    apply list_elem_of_fmap in Hj as ((j & v) & -> & Hin). apply Htr in Hin.
    cbn in Hin, Hp. rewrite Hp in Hin. naive_solver.
  - intros j v. rewrite elem_of_app, list_elem_of_singleton.
    destruct (decide (i = j)) as [->|Hne].
    + rewrite list_lookup_insert_eq by (by eapply lookup_lt_Some).
      rewrite <- Htr, Hp. naive_solver.
    + rewrite list_lookup_insert_ne by done. rewrite Htr. naive_solver.
Qed.

Lemma count_only_time rq w d ev w' :
  count settings ctx rq w = Ok ((d, ev), w') → only_time_passed w w'.
Proof. intros (? & ? & _ & _ & ? & ? & ? & _)%EnforceLimit_Ok. by split_and!. Qed.

Lemma only_time_refl (w : World L) : only_time_passed w w.
Proof. by split_and!. Qed.

Lemma run_alone_split rq w :
  run_alone settings ttl ctx rq w =
  match count settings ctx rq w with
  | Ok ((d, ev), w') => write ttl ctx rq d ev w'
  | Err e => Err e
  end.
Proof.
  unfold run_alone, ReserveQuota, count, write. cbn.
  unfold mbind, tx_bind. cbn. destruct (EnforceLimit _ _ _ _ _ _ _) as [[[d ev] w']|e]; done.
Qed.

Lemma refines_acquire w0 c i :
  refines w0 c → phases c !! i = Some Idle → holder c = None →
  refines w0 (mk_Race (shared c) (Some i) (<[i := Holding]> (phases c))).
Proof.
  intros (tr & w & Hs & Hnd & Ha & Htr) Hp Hh. exists tr, w. split_and!; try done.
  - unfold ahead in *. rewrite Hh in Ha. destruct Ha as [<- Hfree]. cbn.
    rewrite list_lookup_insert_eq by (by eapply lookup_lt_Some).
    split; [|by left]. intros j q Hq Hb. destruct (decide (i = j)) as [->|Hne]; [done|].
    rewrite list_lookup_insert_ne in Hq by done. by destruct (Hfree j q).
  - intros j v. cbn. rewrite (finished_other _ _ Idle) by done. apply Htr.
Qed.

Lemma refines_count w0 c i rq d ev w' :
  refines w0 c → phases c !! i = Some Holding → requests !! i = Some rq →
  count settings ctx rq (shared c) = Ok ((d, ev), w') →
  refines w0 (mk_Race w' (holder c) (<[i := Counted d ev]> (phases c))).
Proof.
  intros (tr & w & Hs & Hnd & Ha & Htr) Hp Hrq Hc. exists tr, w. split_and!; try done.
  - pose proof (holder_is _ _ _ _ Ha Hp I) as Hh.
    pose proof (holding_world _ _ _ Ha Hp) as Hw.
    unfold ahead in *. cbn. rewrite Hh in *. destruct Ha as [Hb _]. split.
    + intros j q Hq Hbq. destruct (decide (i = j)) as [->|Hne]; [done|].
      rewrite list_lookup_insert_ne in Hq by done. by apply (Hb j q).
    + right. exists rq, d, ev.
      rewrite list_lookup_insert_eq by (by eapply lookup_lt_Some). by rewrite <- Hw.
  - intros j v. cbn. rewrite (finished_other _ _ Holding) by done. apply Htr.
Qed.

(** A busy caller leaves with a verdict that [run_alone] gives too. *)
Lemma refines_finish w0 c i p v w' :
  refines w0 c → phases c !! i = Some p → busy p →
  (∀ tr w, serial_run w0 tr w → ahead c w → serial_run w0 (tr ++ [(i, v)]) w') →
  refines w0 (mk_Race w' (release_lock i (holder c)) (<[i := Finished v]> (phases c))).
Proof.
  intros (tr & w & Hs & Hnd & Ha & Htr) Hp Hb Hser.
  assert (∀ u, p ≠ Finished u) as Hnf by by destruct p.
  destruct (finished_snoc _ _ _ v _ Hp Hnf Htr Hnd) as [Hnd' Htr'].
  exists (tr ++ [(i, v)]), w'. split_and!; [by apply (Hser tr w)|done| |done].
  eapply ahead_release; naive_solver.
Qed.

Lemma refines_crash w0 c i p :
  refines w0 c → phases c !! i = Some p → busy p →
  refines w0 (mk_Race (shared c) (release_lock i (holder c)) (<[i := Crashed]> (phases c))).
Proof.
  intros (tr & w & Hs & Hnd & Ha & Htr) Hp Hb.
  assert (only_time_passed w (shared c)) as Hto.
  { destruct p as [| |d ev| |]; try done.
    - rewrite (holding_world _ _ _ Ha Hp). apply only_time_refl.
    - assert (∃ rq, requests !! i = Some rq) as [rq Hrq].
      { pose proof (holder_is _ _ _ _ Ha Hp I) as Hh. unfold ahead in Ha. rewrite Hh in Ha.
        destruct Ha as [_ [[? _]|(rq & _ & _ & _ & ? & _)]]; naive_solver. }
      eapply count_only_time. by eapply counted_world. }
  exists tr, (shared c). split_and!; [by eapply serial_idle|done| |].
  - eapply ahead_release; naive_solver.
  - intros j v. cbn. rewrite (finished_other _ _ p); [apply Htr|done|by destruct p|done].
Qed.

Lemma refines_step w0 c c' : refines w0 c → step c c' → refines w0 c'.
Proof.
  intros Hr Hstep. inversion Hstep as [? i Hp Hl|? i rq d ev w Hp Hrq Hc|? i rq e Hp Hrq Hc
    |? i rq d ev out w Hp Hrq Hw|? i rq d ev e Hp Hrq Hw|? i p Hp Hb]; subst.
  - by apply refines_acquire; [..|apply Hl].
  - by eapply refines_count.
  - eapply refines_finish; [done..|]. intros tr w Hs Ha.
    rewrite (holding_world _ _ _ Ha Hp) in *.
    eapply serial_failed; [done..| |apply only_time_refl]. by rewrite run_alone_split, Hc.
  - eapply refines_finish; [done..|]. intros tr w1 Hs Ha.
    eapply serial_done; [done..|]. rewrite run_alone_split.
    by rewrite (counted_world _ _ _ _ _ _ Ha Hp Hrq).
  - eapply refines_finish; [done..|]. intros tr w1 Hs Ha.
    pose proof (counted_world _ _ _ _ _ _ Ha Hp Hrq) as Hc.
    eapply serial_failed; [done..| |by eapply count_only_time].
    by rewrite run_alone_split, Hc.
  - eapply refines_crash; [done..|]. by destruct Hb as [->|(? & ? & ->)].
Qed.

Lemma refines_start w0 : refines w0 (race_start requests w0).
Proof.
  assert (∀ i p, replicate (length requests) Idle !! i = Some p → p = Idle) as Hi
    by (intros i p [-> _]%lookup_replicate; done).
  exists [], w0. split_and!; [constructor|constructor| |].
  - split; [done|]. intros i p ->%Hi. by intros [].
  - intros i v. split; [by intros ?%Hi|by intros ?%elem_of_nil].
Qed.

Lemma refines_reachable w0 c : rtc step (race_start requests w0) c → refines w0 c.
Proof. apply rtc_invariant; [intros; by eapply refines_step|apply refines_start]. Qed.

(** C2: the quota lock makes contending reservations serial.  However the calls
    interleave, whichever fail or crash, the verdicts given so far are exactly those
    of running [ReserveQuota] whole, one call after the other, in some order; and
    when nobody is inside, the committed store is the one that run leaves. *)
Theorem locked_race_is_serial w0 c :
  rtc step (race_start requests w0) c →
  ∃ tr w, serial_run w0 tr w ∧ NoDup tr.*1 ∧
    (∀ i v, phases c !! i = Some (Finished v) ↔ (i, v) ∈ tr) ∧
    store (shared c) = store w ∧ (holder c = None → shared c = w).
Proof.
  intros (tr & w & Hs & Hnd & Ha & Htr)%refines_reachable.
  exists tr, w. split_and!; try done; unfold ahead in Ha; destruct (holder c) as [h|];
    try done; [|by destruct Ha as [-> _]..].
  destruct Ha as [_ [[_ ->]|(rq & d & ev & _ & _ & Hc)]]; [done|].
  by apply count_only_time in Hc as [? _].
Qed.

(** ** The cap holds throughout *)

Context (rule : LimitRule) (Hws : scope rule = WORKSPACE).

Abbreviation level s j := (usage_at s ctx rule WILDCARD WILDCARD (clock j)).

Lemma level_any s a q now :
  usage_at s ctx rule a q now = usage_at s ctx rule WILDCARD WILDCARD now.
Proof. unfold usage_at. by rewrite Hws. Qed.

Lemma level_antitone s i j lo hi :
  ledger_ok s → same_bucket (period rule) lo hi → (lo ≤ i ≤ j)%nat → (j < hi)%nat →
  level s j ≤ level s i.
Proof.
  intros Hok Hsame Hij Hj. unfold usage_at. rewrite Hws. cbn [bucket_for].
  rewrite (Hsame j i) by lia.
  assert (clock i ≤ clock j) as Hc by (apply clock_mono; lia).
  destruct (law_held_antitone s (workspace_id ctx) (clock i) (clock j) WILDCARD WILDCARD Hok Hc).
  destruct (metric rule); cbn [current_of]; lia.
Qed.

Definition governed (s : L) : Prop :=
  ∀ rq, rq ∈ requests → ∃ rules,
    relevant_rules settings ctx (rq_agent rq) (rq_provider rq) s = Ok rules ∧ rule ∈ rules.

Lemma governed_ext s s' : repo_get_limits ctx s' = repo_get_limits ctx s → governed s → governed s'.
Proof.
  intros Hl Hg rq Hrq. destruct (Hg rq Hrq) as (rules & Hr & Hin).
  exists rules. split; [|done]. unfold relevant_rules in *. by rewrite Hl.
Qed.

Lemma run_alone_keeps rq w d ev w' n :
  rq ∈ requests → run_alone settings ttl ctx rq w = Ok ((d, ev), w') →
  ledger_ok (store w) → governed (store w) →
  same_bucket (period rule) (ticks w) (S n) → (ticks w' ≤ n)%nat →
  level (store w) (ticks w) ≤ limit_value rule →
  (ticks w ≤ ticks w')%nat ∧ ledger_ok (store w') ∧ governed (store w') ∧
  level (store w') (ticks w') ≤ limit_value rule.
Proof.
  intros Hrq Hrun Hok Hg Hsame Hn Hlev.
  destruct (ReserveQuota_Ok _ _ _ _ _ _ _ _ _ _ Hrun) as (d0 & w1 & He & Had & Hd).
  pose proof He as (? & ? & _ & _ & Hs1 & _ & Ht1 & _)%EnforceLimit_Ok.
  destruct (allowed d0) eqn:Ea.
  - destruct Hd as (_ & Hres & Ht & _). rewrite Hs1 in Hres.
    destruct (Hg rq Hrq) as (rules & Hrel & Hin).
    pose proof (law_reserve _ _ _ _ Hok Hres) as [Hok' _].
    pose proof (law_reserve_limits _ _ _ _ Hres) as Hlim.
    split_and!; [lia|done|by eapply governed_ext|].
    pose proof (admitted_within _ _ _ _ _ _ _ _ _ _ _ _ Hok Hrun Had Hrel Hin
      ltac:(intros k l ? ?; apply Hsame; lia)) as Hw.
    rewrite level_any in Hw. etrans; [|exact Hw].
    eapply level_antitone; [done|exact Hsame|lia|lia].
  - destruct Hd as [-> ->]. rewrite Hs1. split_and!; try done.
    etrans; [|exact Hlev]. eapply level_antitone; [done|exact Hsame|lia|lia].
Qed.

Lemma time_passing_keeps w w' n :
  only_time_passed w w' → ledger_ok (store w) → governed (store w) →
  same_bucket (period rule) (ticks w) (S n) → (ticks w' ≤ n)%nat →
  level (store w) (ticks w) ≤ limit_value rule →
  ledger_ok (store w') ∧ governed (store w') ∧
  level (store w') (ticks w') ≤ limit_value rule.
Proof.
  intros (Hs & _ & Ht) Hok Hg Hsame Hn Hlev. rewrite Hs. split_and!; try done.
  etrans; [|exact Hlev]. eapply level_antitone; [done|exact Hsame|lia|lia].
Qed.

Lemma serial_ticks w0 tr w : serial_run w0 tr w → (ticks w0 ≤ ticks w)%nat.
Proof.
  induction 1 as [w|w tr w' i rq [d ev] w'' Hs IH Hrq Hrun|w tr w' i rq e w'' Hs IH Hrq Hrun Hto
    |w tr w' w'' Hs IH Hto].
  - lia.
  - etrans; [exact IH|].
    destruct (ReserveQuota_Ok _ _ _ _ _ _ _ _ _ _ Hrun) as (d0 & w1 & He & _ & Hd).
    apply EnforceLimit_Ok in He as (? & ? & _ & _ & _ & _ & Ht1 & _).
    destruct (allowed d0); [|destruct Hd; subst; lia]. destruct Hd as (_ & _ & Ht & _). lia.
  - destruct Hto as (_ & _ & ?). lia.
  - destruct Hto as (_ & _ & ?). lia.
Qed.

Lemma serial_keeps w0 tr w n :
  serial_run w0 tr w → ledger_ok (store w0) → governed (store w0) →
  same_bucket (period rule) (ticks w0) (S n) → (ticks w ≤ n)%nat →
  level (store w0) (ticks w0) ≤ limit_value rule →
  ledger_ok (store w) ∧ governed (store w) ∧ level (store w) (ticks w) ≤ limit_value rule.
Proof.
  intros Hs Hok Hg Hsame Hn Hlev. revert Hn.
  assert (∀ m, (ticks w0 ≤ m)%nat → same_bucket (period rule) m (S n)) as Hsub
    by (intros m Hm k l ? ?; apply Hsame; lia).
  induction Hs as [w|w tr w' i rq [d ev] w'' Hs IH Hrq Hrun|w tr w' i rq e w'' Hs IH Hrq Hrun Hto
    |w tr w' w'' Hs IH Hto]; intros Hn; [done| | |].
  - pose proof (serial_ticks _ _ _ Hs) as Ht0.
    assert (ticks w' ≤ ticks w'')%nat as Ht.
    { apply (serial_ticks w' ([] ++ [(i, Ok (d, ev))])).
      eapply serial_done; [constructor|done..]. }
    destruct IH as (Hok' & Hg' & Hl'); [done..|lia|].
    destruct (run_alone_keeps rq w' d ev w'' n) as (_ & ? & ? & ?); auto.
    by eapply list_elem_of_lookup_2.
  - pose proof (serial_ticks _ _ _ Hs) as Ht0. pose proof Hto as (_ & _ & ?).
    destruct IH as (Hok' & Hg' & Hl'); [done..|lia|]. eapply (time_passing_keeps w'); eauto.
  - pose proof (serial_ticks _ _ _ Hs) as Ht0. pose proof Hto as (_ & _ & ?).
    destruct IH as (Hok' & Hg' & Hl'); [done..|lia|]. eapply (time_passing_keeps w'); eauto.
Qed.

(** C1: the cap holds however many callers race.  If the workspace rule governs
    every call and the workspace starts within it, then at every moment of every
    interleaving what is charged plus everything in flight is within the cap. *)
Theorem no_over_admission w0 c :
  ledger_ok (store w0) → governed (store w0) →
  level (store w0) (ticks w0) ≤ limit_value rule →
  rtc step (race_start requests w0) c →
  same_bucket (period rule) (ticks w0) (S (ticks (shared c))) →
  level (store (shared c)) (ticks (shared c)) ≤ limit_value rule.
Proof.
  intros Hok Hg Hlev (tr & w & Hs & _ & Ha & _)%refines_reachable Hsame.
  assert (only_time_passed w (shared c)) as Hto.
  { unfold ahead in Ha. destruct (holder c) as [h|].
    - destruct Ha as [_ [[_ ->]|(rq & d & ev & _ & _ & Hc)]]; [apply only_time_refl|].
      by apply count_only_time in Hc.
    - destruct Ha as [-> _]. apply only_time_refl. }
  by destruct (serial_keeps w0 tr (shared c) (ticks (shared c))) as (_ & _ & ?);
    [eapply serial_idle|..].
Qed.
End Refinement.

(** ** An executable scheduler, and what the lock is for *)

Section Schedule.
Context `{Env} {L : Type} `{UsageLedgerRepository L}.
Context (settings : UsageSettings) (ttl : Z) (ctx : ExecutionContext).
Context (requests : list Request) (locked : bool).

(** The next thing caller [i] does, if it can move. *)
Definition advance (i : nat) (c : Race) : option Race :=
  match phases c !! i, requests !! i with
  | Some Idle, _ =>
      if locked && bool_decide (holder c ≠ None) then None
      else Some (mk_Race (shared c) (Some i) (<[i := Holding]> (phases c)))
  | Some Holding, Some rq =>
      match count settings ctx rq (shared c) with
      | Ok ((d, events), w) =>
          Some (mk_Race w (holder c) (<[i := Counted d events]> (phases c)))
      | Err e => Some (mk_Race (shared c) (release_lock i (holder c))
                         (<[i := Finished (Err e)]> (phases c)))
      end
  | Some (Counted d events), Some rq =>
      match write ttl ctx rq d events (shared c) with
      | Ok (out, w) => Some (mk_Race w (release_lock i (holder c))
                               (<[i := Finished (Ok out)]> (phases c)))
      | Err e => Some (mk_Race (shared c) (release_lock i (holder c))
                         (<[i := Finished (Err e)]> (phases c)))
      end
  | _, _ => None
  end.

Fixpoint run_schedule (sched : list nat) (c : Race) : Race :=
  match sched with
  | [] => c
  | i :: rest => match advance i c with
                 | Some c' => run_schedule rest c'
                 | None => run_schedule rest c
                 end
  end.

Lemma advance_step i c c' :
  advance i c = Some c' → race_step settings ttl ctx requests locked c c'.
Proof.
  unfold advance. destruct (phases c !! i) as [[| |d ev|v|]|] eqn:Hp; try done.
  - destruct (locked && _) eqn:El; [done|]. intros [= <-]. apply step_acquire; [done|].
    intros ->. cbn in El. by destruct (holder c).
  - destruct (requests !! i) as [rq|] eqn:Hrq; [|done].
    destruct (count _ _ _ _) as [[[d ev] w]|e] eqn:Hc; intros [= <-];
      [by eapply step_count|by eapply step_count_fails].
  - destruct (requests !! i) as [rq|] eqn:Hrq; [|done].
    destruct (write _ _ _ _ _ _) as [[out w]|e] eqn:Hc; intros [= <-];
      [by eapply step_commit|by eapply step_write_fails].
Qed.

Lemma run_schedule_steps sched c :
  rtc (race_step settings ttl ctx requests locked) c (run_schedule sched c).
Proof.
  revert c; induction sched as [|i sched IH]; intros c; cbn; [done|].
  destruct (advance i c) as [c'|] eqn:Ea; [|apply IH].
  eapply rtc_l; [by eapply advance_step|apply IH].
Qed.
End Schedule.
