(* ===== verification/UsageSql.v ===== *)
(** * Usage: the SQL adapter implements the port

    The instance of [UsageLedgerRepository] that [UsageLedger] models, the proof of
    the port's laws for it, and the properties of the services run over it. *)

From S2P Require Import Prelude Text Calendar Errors Framework UsageRules UsageLedger UsageApp UsageRace.

Open Scope Z_scope.

(** The row order of an unordered [SELECT] is the database's choice. *)
Class RowOrder := {
  row_order : list UsageRollup → list UsageRollup;
  row_order_Permutation l : row_order l ≡ₚ l
}.

#[export] Instance sql_repository `{RowOrder} : UsageLedgerRepository UsageDb := {|
  repo_append := append;
  repo_rollup := rollup;
  repo_reserved := reserved;
  repo_reserve := reserve;
  repo_release := release;
  repo_get_limits := get_limits;
  repo_replace_limits := replace_limits;
  repo_list_rollups := list_rollups row_order
|}.

Lemma parse_period_value p : parse_period (period_value p) = Some p.
Proof. by destruct p. Qed.

Lemma reservation_in_bucket ws now a q r :
  reservation_in ws now a q r = bool_decide (res_workspace_id r = ws) && in_bucket now a q r.
Proof. unfold reservation_in, in_bucket. by rewrite !andb_assoc. Qed.

Lemma reserve_keeps_nonneg ctx r db db' :
  reservations_nonneg db → reserve ctx r db = Ok (tt, db') → reservations_nonneg db'.
Proof.
  intros Hn Hr. pose proof (reserve_Ok _ _ _ _ Hr) as (_ & _ & _ & Ht & Hc & _).
  unfold reserve in Hr. unresult. unfold reservations_nonneg. cbn.
  apply map_Forall_insert_2; [done|].
  intros id row Hrow. apply (Hn id). unfold sweep in Hrow.
  by apply map_lookup_filter_Some in Hrow as [? _].
Qed.

#[export] Instance sql_laws `{RowOrder} : UsageLedgerLaws UsageDb.
Proof.
  refine {| ledger_ok := reservations_nonneg;
            used := λ db ws a q p d, bucket_totals (usage_rollups db) (ws, a, q, p, d);
            held := λ db ws now a q, held_totals ws now a q db |}.
  - intros ctx now a q p db t. cbn. unfold rollup. rewrite parse_period_value.
    by intros <-%Ok_inj.
  - intros ctx now a q db t. cbn. unfold reserved. intros Hr. by unresult.
  - intros. by apply held_antitone.
  - intros ctx r db db' Hn Hr. split_and!.
    + by eapply reserve_keeps_nonneg.
    + apply reserve_Ok in Hr as (_ & -> & _). done.
    + intros now a q Hle. rewrite (held_after_reserve _ _ _ _ _ _ _ Hr Hle).
      apply reserve_Ok in Hr as (_ & _ & _ & _ & _ & Hws).
      by rewrite reservation_in_bucket, bool_decide_true.
  - intros ctx r db db' Hr. cbn in *. unfold get_limits.
    by apply reserve_Ok in Hr as (_ & _ & -> & _).
Defined.

(** ** Committing *)

Section Sql.
Context {EV : Env} {RO : RowOrder}.

Lemma CaptureUsage_Ok ctx c (w w' : World UsageDb) b evs :
  CaptureUsage ctx c w = Ok ((b, evs), w') →
  strip (agent c) ≠ [] ∧ strip (provider c) ≠ [] ∧ 0 ≤ tokens c ∧ 0 ≤ cost_micros c ∧
  append ctx (clock (ticks w)) (uuid7 (minted w)) c (store w) = Ok (b, store w') ∧
  evs = (if b then [UsageRecorded (operation_id c) (workspace_id ctx) (agent c) (provider c)
                      (clock (S (ticks w)))] else []).
Proof.
  unfold CaptureUsage. intros Hx.
  apply tx_bind_Ok in Hx as ([] & w1 & [H1 ->]%tx_lift_Ok & Hx).
  apply tx_bind_Ok in Hx as ([] & w2 & [H2 ->]%tx_lift_Ok & Hx).
  apply tx_bind_Ok in Hx as ([] & w3 & [H3 ->]%tx_lift_Ok & Hx).
  apply tx_bind_Ok in Hx as ([] & w4 & [H4 ->]%tx_lift_Ok & Hx).
  apply tx_bind_Ok in Hx as (t & w5 & [-> ->]%utc_now_Ok & Hx).
  apply tx_bind_Ok in Hx as (id & w6 & [-> ->]%new_uuid7_Ok & Hx).
  apply tx_bind_Ok in Hx as (rec & w7 & (Ha & Ht & _)%update_Ok & Hx).
  unresult. unbool. cbn in *.
  destruct rec; cbn [negb] in Hx.
  - apply tx_bind_Ok in Hx as (t' & w8 & [-> ->]%utc_now_Ok & Hx).
    apply Ok_pair_inj in Hx as [[= <- <-] <-]. cbn. by rewrite Ht.
  - by apply Ok_pair_inj in Hx as [[= <- <-] <-].
Qed.

Lemma release_effect ctx id db db' :
  release ctx id db = Ok (tt, db') →
  usage_records db' = usage_records db ∧ usage_rollups db' = usage_rollups db ∧
  usage_limits db' = usage_limits db ∧
  (∀ r, usage_reservations db' !! id = Some r → res_workspace_id r ≠ workspace_id ctx) ∧
  (∀ k, k ≠ id → usage_reservations db' !! k = usage_reservations db !! k).
Proof.
  unfold release. intros Hr. unresult. cbn. split_and!; try done.
  - intros r. destruct (usage_reservations db !! id) as [r0|] eqn:E; [case_bool_decide|];
      rewrite ?lookup_delete_eq; naive_solver.
  - intros k Hk. repeat case_match; rewrite ?lookup_delete_ne; done.
Qed.

(** A charge the service and the columns accept, and buckets with room for it. *)
Definition chargeable (c : UsageCharge) : Prop :=
  strip (agent c) ≠ [] ∧ strip (provider c) ≠ [] ∧ 0 ≤ tokens c ≤ INT8_MAX ∧ 0 ≤ cost_micros c ≤ INT8_MAX.

Definition has_room (ks : list rollup_key) (c : UsageCharge) (m : gmap rollup_key UsageTotals) : Prop :=
  ∀ k, k ∈ ks → fits_int8 (tot_tokens (bucket_totals m k) + tokens c) = true ∧
                fits_int8 (tot_cost_micros (bucket_totals m k) + cost_micros c) = true.

Lemma upsert_all_room ks c m : NoDup ks → has_room ks c m → is_ok (upsert_all ks c m) = true.
Proof.
  intros Hks; revert m; induction Hks as [|k ks Hk Hks IH]; intros m Hroom; cbn [upsert_all]; [done|].
  destruct (Hroom k) as [Ht Hc]; [by left|].
  assert (rollup_upsert k c m = Ok (<[k := totals_add (bucket_totals m k) c]> m)) as ->.
  { unfold rollup_upsert, bucket_totals, totals_add in *. destruct (m !! k) as [old|]; cbn in Ht, Hc;
      rewrite ?Z.add_0_l in *; unfold check_bigint; by rewrite Ht, Hc. }
  apply IH. intros k' Hk'. unfold bucket_totals. rewrite lookup_insert_ne by set_solver. apply Hroom. by right.
Qed.

Definition already_charged ctx (c : UsageCharge) (db : UsageDb) : bool :=
  existsb (same_operation (workspace_id ctx) (operation_id c)) (usage_records db).

(** What a charge adds: one row, and its amounts to each of its buckets. *)
Definition charged ctx (now : instant) (id : text) (c : UsageCharge) (db db' : UsageDb) : Prop :=
  usage_records db' = mk_UsageRecord id (workspace_id ctx) (agent c) (provider c) (tokens c) (cost_micros c)
                        (operation_id c) now (estimated c) :: usage_records db ∧
  ∀ k, bucket_totals (usage_rollups db') k =
         if bool_decide (k ∈ rollup_keys (workspace_id ctx) now (agent c) (provider c))
         then totals_add (bucket_totals (usage_rollups db) k) c else bucket_totals (usage_rollups db) k.

Lemma check_nonneg_ok z : 0 ≤ z ≤ INT8_MAX → check_nonneg_bigint z = Ok tt.
Proof.
  intros Hz. unfold check_nonneg_bigint, fits_int8, INT8_MIN, INT8_MAX in *.
  by rewrite (proj2 (Z.leb_le 0 z)), (proj2 (Z.leb_le (- 2 ^ 63) z)), (proj2 (Z.leb_le z (2 ^ 63 - 1))) by lia.
Qed.

Lemma append_accepts ctx now id c db :
  chargeable c →
  (already_charged ctx c db = true ∨
   (∀ r, r ∈ usage_records db → rec_id r ≠ id) ∧
   has_room (rollup_keys (workspace_id ctx) now (agent c) (provider c)) c (usage_rollups db)) →
  is_ok (append ctx now id c db) = true.
Proof.
  intros (_ & _ & Ht & Hc) Hcase. unfold append. rewrite !check_nonneg_ok by done. cbn [mbind result_bind].
  fold (already_charged ctx c db). destruct (already_charged ctx c db); [done|].
  destruct Hcase as [?|[Hid Hroom]]; [done|].
  assert (existsb (λ r, bool_decide (rec_id r = id)) (usage_records db) = false) as ->.
  { apply not_true_is_false. intros (r & Hr%list_elem_of_In & Heq%bool_decide_eq_true)%existsb_exists. by destruct (Hid r). }
  cbn. apply (upsert_all_room _ c) in Hroom; [|apply NoDup_rollup_keys]. by destruct (upsert_all _ _ _).
Qed.

Lemma append_charges ctx now id c db b db' : append ctx now id c db = Ok (b, db') →
  b = negb (already_charged ctx c db) ∧ usage_reservations db' = usage_reservations db ∧
  if b then charged ctx now id c db db' else db' = db.
Proof.
  intros Ha. pose proof Ha as [[-> ->]|(-> & _ & _ & Hfresh & m & Hm & ->)]%append_cases.
  - unfold append in Ha. fold (already_charged ctx c db) in Ha. destruct (already_charged ctx c db); [done|].
    unresult. by destruct (upsert_all _ _ _).
  - fold (already_charged ctx c db) in Hfresh. rewrite Hfresh. split_and!; [done..|]. split; [done|].
    intros k. apply (upsert_all_Ok _ _ _ _ (NoDup_rollup_keys _ _ _ _) Hm).
Qed.

Lemma CaptureUsage_accepts ctx c (w : World UsageDb) : chargeable c →
  is_ok (append ctx (clock (ticks w)) (uuid7 (minted w)) c (store w)) = true → is_ok (CaptureUsage ctx c w) = true.
Proof.
  intros (Ha & Hp & Ht & Hc) Hok. unfold CaptureUsage, mbind, tx_bind, tx_lift.
  rewrite !bool_decide_false by done. rewrite (proj2 (Z.ltb_ge (tokens c) 0)), (proj2 (Z.ltb_ge (cost_micros c) 0)) by lia.
  cbn. unfold update. cbn. destruct (append _ _ _ _ _) as [[[] db']|]; done.
Qed.

(** C4: Committing replaces the hold by the measured charge, exactly once.  A commit of a valid
    charge succeeds, unless its first recording would overflow a bucket or repeat a row's
    identifier.  When it succeeds, it charges if and only if the workspace has no row of that
    operation yet: it then adds that one row -- these amounts, this instant -- and these amounts to
    the row's buckets, announces it, and otherwise changes neither ledger nor rollups.  Either way
    no reservation of this workspace is left under that id and no other is touched.  Replaying it
    (same operation, whatever else) never charges again. *)
Theorem commit_charges_once ctx id c (w : World UsageDb) :
  ledger_inv (store w) →
  (chargeable c →
   (already_charged ctx c (store w) = true ∨
    (∀ r, r ∈ usage_records (store w) → rec_id r ≠ uuid7 (minted w)) ∧
    has_room (rollup_keys (workspace_id ctx) (clock (ticks w)) (agent c) (provider c)) c (usage_rollups (store w))) →
   is_ok (CommitReservation ctx id c w) = true) ∧
  ∀ b evs w1, CommitReservation ctx id c w = Ok ((b, evs), w1) →
  ledger_inv (store w1) ∧
  b = negb (already_charged ctx c (store w)) ∧
  (if b then charged ctx (clock (ticks w)) (uuid7 (minted w)) c (store w) (store w1) ∧
             evs = [UsageRecorded (operation_id c) (workspace_id ctx) (agent c) (provider c) (clock (S (ticks w)))]
   else usage_records (store w1) = usage_records (store w) ∧ usage_rollups (store w1) = usage_rollups (store w) ∧ evs = []) ∧
  (∀ r, usage_reservations (store w1) !! id = Some r → res_workspace_id r ≠ workspace_id ctx) ∧
  (∀ k, k ≠ id → usage_reservations (store w1) !! k = usage_reservations (store w) !! k) ∧
  ∀ id' c' b' evs' w2, operation_id c' = operation_id c →
    CommitReservation ctx id' c' w1 = Ok ((b', evs'), w2) →
    b' = false ∧ evs' = [] ∧ usage_records (store w2) = usage_records (store w1) ∧
    usage_rollups (store w2) = usage_rollups (store w1).
Proof.
  intros Hi. split.
  - intros Hc Hcase. unfold CommitReservation, mbind, tx_bind at 1, update. cbn [repo_release sql_repository release].
    apply CaptureUsage_accepts; [done|]. by apply append_accepts.
  - intros b evs w1 Hc. apply tx_bind_Ok in Hc as ([] & w0 & (Hrel & Ht & Hm)%update_Ok & Hcap).
    pose proof (release_effect _ _ _ _ Hrel) as (Hrec & Hrol & _ & Hgone & Hothers).
    apply CaptureUsage_Ok in Hcap as (_ & _ & _ & _ & Hap & ->). rewrite Ht, Hm in *.
    pose proof (append_records_operation _ _ _ _ _ _ _ Hap) as Hthere.
    assert (ledger_inv (store w1)) as Hi1.
    { eapply append_keeps_ledger; [|exact Hap]. eapply repo_step_keeps_ledger, step_release; done. }
    apply append_charges in Hap as (Hb & Hres & Hcase). unfold already_charged in Hb. rewrite Hrec in Hb.
    rewrite Hres. split_and!; try done.
    + unfold charged in Hcase. rewrite Hrec, Hrol in Hcase. destruct b; [done|]. by rewrite Hcase.
    + intros id' c' b' evs' w2 Hop Hc'. apply tx_bind_Ok in Hc' as ([] & w1' & (Hrel' & _ & _)%update_Ok & Hcap').
      pose proof (release_effect _ _ _ _ Hrel') as (Hrec' & Hrol' & _).
      apply CaptureUsage_Ok in Hcap' as (_ & _ & _ & _ & Hap' & ->). apply append_charges in Hap' as (Hb' & _ & Hcase').
      unfold already_charged in Hb'. rewrite Hop, Hrec', Hthere in Hb'. rewrite Hb' in *. cbn in Hcase'. by rewrite Hcase'.
Qed.

(** ** Configuring *)

(** The limit a payload entry becomes. *)
Definition spec_to_limit ctx (now : instant) (spec : LimitSpec) (l : UsageLimit) : Prop :=
  rule_of l = mk_LimitRule (spec_scope spec) (spec_scope_key spec) (spec_metric spec)
                (spec_period spec) (spec_limit_value spec) ∧
  rule_wf (rule_of l) ∧ lim_workspace_id l = workspace_id ctx ∧
  lim_created_at l = now ∧ lim_updated_at l = now ∧ lim_version l = 1.

Lemma build_limits_Ok ctx now seen specs (w w' : World UsageDb) built :
  build_limits ctx now seen specs w = Ok (built, w') →
  store w' = store w ∧ Forall2 (spec_to_limit ctx now) specs built ∧
  NoDup (spec_key ∘ rule_of <$> built) ∧ (∀ k, k ∈ spec_key ∘ rule_of <$> built → k ∉ seen).
Proof.
  revert seen w built. induction specs as [|spec specs IH]; intros seen w built Hb.
  { apply Ok_pair_inj in Hb as [<- <-]. split_and!; [done|by constructor|by constructor|set_solver]. }
  cbn [build_limits] in Hb.
  apply tx_bind_Ok in Hb as (rule & w1 & [Hr ->]%tx_lift_Ok & Hb).
  apply map_err_Ok, new_LimitRule_Ok in Hr as [Hrule Hwf].
  apply tx_bind_Ok in Hb as ([] & w2 & [Hs ->]%tx_lift_Ok & Hb).
  apply raise_if_Ok, bool_decide_eq_false in Hs.
  apply tx_bind_Ok in Hb as (id & w3 & [-> ->]%new_uuid7_Ok & Hb).
  apply tx_bind_Ok in Hb as (l & w4 & [Hl ->]%tx_lift_Ok & Hb).
  apply map_err_Ok in Hl. unfold new_UsageLimit in Hl.
  apply bind_Ok in Hl as (r' & _ & <-%Ok_inj).
  apply tx_bind_Ok in Hb as (ls & w5 & Hrest & Hb).
  apply Ok_pair_inj in Hb as [<- <-].
  destruct (IH _ _ _ Hrest) as (Hst & Hall & Hnd & Hseen).
  split_and!; [done| | |].
  - constructor; [|done]. subst rule. repeat (split; [done|]). done.
  - constructor; [|done]. intros Hin. apply (Hseen _ Hin). cbn. by destruct rule; left.
  - intros k Hk. apply elem_of_cons in Hk as [->|Hk]; [by destruct rule|].
    specialize (Hseen _ Hk). set_solver.
Qed.

Lemma insert_limits_Ok ctx ls rows rows' :
  insert_limits ctx ls rows = Ok rows' →
  rows' = rows ++ ls ∧ Forall (λ l, lim_workspace_id l = workspace_id ctx) ls.
Proof.
  revert rows; induction ls as [|l ls IH]; intros rows; cbn [insert_limits].
  - intros <-%Ok_inj. by rewrite app_nil_r.
  - intros Hi. unresult. unfold insert_limit, rls_with_check in *. unresult. unbool.
    apply IH in H0 as [-> Hall]. rewrite <- app_assoc. split; [done|by constructor].
Qed.

Lemma filter_own ctx (ls rows : list UsageLimit) :
  Forall (λ l, lim_workspace_id l = workspace_id ctx) ls →
  List.filter (λ l, bool_decide (lim_workspace_id l = workspace_id ctx))
    (List.filter (λ l, negb (bool_decide (lim_workspace_id l = workspace_id ctx))) rows ++ ls)
  = ls.
Proof.
  intros Hall. rewrite List.filter_app.
  assert (List.filter (λ l, bool_decide (lim_workspace_id l = workspace_id ctx))
            (List.filter (λ l, negb (bool_decide (lim_workspace_id l = workspace_id ctx))) rows)
          = []) as ->.
  { induction rows as [|r rows IH]; cbn; [done|].
    destruct (bool_decide _) eqn:E; cbn; [|rewrite E]; done. }
  induction Hall as [|l ls Hl Hall IH]; cbn; [done|].
  rewrite bool_decide_true by done. f_equal. exact IH.
Qed.

Lemma filter_other ws ctx (ls rows : list UsageLimit) :
  ws ≠ workspace_id ctx → Forall (λ l, lim_workspace_id l = workspace_id ctx) ls →
  List.filter (λ l, bool_decide (lim_workspace_id l = ws))
    (List.filter (λ l, negb (bool_decide (lim_workspace_id l = workspace_id ctx))) rows ++ ls)
  = List.filter (λ l, bool_decide (lim_workspace_id l = ws)) rows.
Proof.
  intros Hne Hall. rewrite List.filter_app.
  assert (List.filter (λ l, bool_decide (lim_workspace_id l = ws)) ls = []) as ->.
  { induction Hall as [|l ls Hl Hall IH]; cbn; [done|].
    rewrite Hl, bool_decide_false by congruence. exact IH. }
  rewrite app_nil_r. induction rows as [|r rows IH]; cbn; [done|].
  destruct (bool_decide (lim_workspace_id r = workspace_id ctx)) eqn:E; cbn; rewrite IH.
  - unbool. by rewrite (bool_decide_false (lim_workspace_id r = ws)) by congruence.
  - done.
Qed.

(** Setting limits replaces the workspace's whole set.  On success the workspace
    reads back exactly the payload, entry by entry, well formed, stamped with one
    instant and version 1 and without a duplicate (scope, key, metric, period);
    every other workspace's limits, and the ledger, are untouched. *)
Theorem set_limits_replaces_whole_set ctx specs (w w' : World UsageDb) built :
  SetLimits ctx specs w = Ok (built, w') →
  ListLimits ctx w' = Ok (built, w') ∧
  Forall2 (spec_to_limit ctx (clock (ticks w))) specs built ∧
  NoDup (spec_key ∘ rule_of <$> built) ∧
  (∀ ctx', workspace_id ctx' ≠ workspace_id ctx →
     get_limits ctx' (store w') = get_limits ctx' (store w)) ∧
  usage_records (store w') = usage_records (store w) ∧
  usage_rollups (store w') = usage_rollups (store w) ∧
  usage_reservations (store w') = usage_reservations (store w).
Proof.
  unfold SetLimits. intros Hx.
  apply tx_bind_Ok in Hx as (now & w1 & [-> ->]%utc_now_Ok & Hx).
  apply tx_bind_Ok in Hx as (built' & w2 & Hb & Hx).
  apply tx_bind_Ok in Hx as ([] & w3 & (Hu & _ & _)%update_Ok & Hx).
  apply Ok_pair_inj in Hx as [<- <-].
  destruct (build_limits_Ok _ _ _ _ _ _ _ Hb) as (Hs & Hall & Hnd & _). cbn in Hs.
  cbn in Hu. unfold replace_limits in Hu. apply bind_Ok in Hu as (rows & Hi & Hu).
  apply Ok_pair_inj in Hu as [_ Hw]. apply insert_limits_Ok in Hi as [-> Hown].
  unfold ListLimits, query. cbn. unfold get_limits. rewrite <- Hw, Hs in *. cbn.
  split_and!; try done.
  - by rewrite filter_own.
  - intros ctx' Hne. by rewrite filter_other.
Qed.
End Sql.

(** ** Witnesses over the SQL adapter *)

#[export] Instance insertion_order : RowOrder.
Proof. by exists (λ l, l). Defined.

Definition reverse_order : RowOrder.
Proof. exists (@rev UsageRollup). intros l. symmetry. apply Permutation_rev. Defined.

Definition demo_settings : UsageSettings := [(txt "tokens", [(txt "month", 10)])].

#[local] Instance jan_env : Env := demo_env jan_20.

Abbreviation demo_run m := (unwrap ((allow None, []), demo_world empty_db) m).

Definition demo_reserve (est : Z) : result exn (Decision * list UsageEvent * World UsageDb) :=
  ReserveQuota demo_settings 60 demo_ctx (txt "rag") (txt "ollama") (Some est)
    (demo_world demo_db1).

Definition demo_admitted := demo_run (demo_reserve 2).
Definition demo_denied := demo_run (demo_reserve 4).

Lemma demo_reserve_Ok est :
  is_ok (demo_reserve est) = true →
  demo_reserve est = Ok (demo_run (demo_reserve est)).
Proof. apply unwrap_Ok. Qed.

Lemma demo_nonneg : reservations_nonneg demo_db1.
Proof. intros id r Hr. vm_compute in Hr. discriminate. Qed.

Definition demo_rule : LimitRule := mk_LimitRule WORKSPACE WILDCARD TOKENS MONTH 10.

Lemma demo_month k : (k < 3)%nat →
  period_start MONTH (aware_utc (clock k)) = mk_date 2026 1 1.
Proof. intros Hk. destruct k as [|[|[|k]]]; [vm_compute; reflexivity..|lia]. Qed.

(** Seven tokens charged in January, two more held under a cap of ten. *)
Example reserve_within_limits_witness :
  usage_at (store demo_admitted.2) demo_ctx demo_rule (txt "rag") (txt "ollama")
    (clock (pred (ticks demo_admitted.2))) ≤ 10.
Proof.
  refine (reserve_within_limits demo_settings 60 demo_ctx (txt "rag") (txt "ollama") (Some 2)
            (demo_world demo_db1) demo_admitted.1.1 demo_admitted.1.2 demo_admitted.2
            [demo_rule] demo_rule demo_nonneg _ _ _ _ _).
  - rewrite <- !surjective_pairing.
    exact (demo_reserve_Ok 2 ltac:(vm_compute; reflexivity)).
  - vm_compute. reflexivity.
  - vm_compute. reflexivity.
  - left.
  - assert (Ht : ticks demo_admitted.2 = 3%nat) by (vm_compute; reflexivity).
    intros k l Hk Hl. rewrite Ht in *. rewrite !demo_month by lia. reflexivity.
Defined.

Example reserve_denied_witness : store demo_denied.2 = demo_db1.
Proof.
  refine (proj1 (reserve_denied_holds_nothing demo_settings 60 demo_ctx (txt "rag")
                   (txt "ollama") (Some 4) (demo_world demo_db1) demo_denied.1.1 demo_denied.1.2
                   demo_denied.2 _ _)).
  - rewrite <- !surjective_pairing.
    exact (demo_reserve_Ok 4 ltac:(vm_compute; reflexivity)).
  - vm_compute. reflexivity.
Defined.

Definition demo_check : LimitDecision * World UsageDb :=
  unwrap (decision_out (allow None) None, demo_world empty_db)
    (service_check demo_settings demo_ctx (txt "rag") (txt "ollama") None (demo_world demo_db1)).

Example check_is_read_only_witness : store demo_check.2 = demo_db1.
Proof.
  refine (proj1 (check_is_read_only demo_settings demo_ctx (txt "rag") (txt "ollama") None
                   (demo_world demo_db1) demo_check.1 demo_check.2 _)).
  rewrite <- surjective_pairing. refine (unwrap_Ok _ _ _). vm_compute. reflexivity.
Defined.

Example defaults_govern_witness : demo_rule ∈ [demo_rule].
Proof.
  refine (proj1 (defaults_govern demo_settings demo_ctx (txt "rag") (txt "x") demo_db1
                   [] [demo_rule] TOKENS MONTH 10 [(txt "month", 10)] _ _ _ _ _)).
  - vm_compute. reflexivity.
  - vm_compute. reflexivity.
  - left.
  - left.
  - intros Hin. vm_compute in Hin. inversion Hin.
Defined.

(** Two tokens are held; the operation spends three, and the row of another is there already. *)
Definition hold : Reservation :=
  mk_Reservation (txt "hold") (workspace_id demo_ctx) (txt "rag") (txt "ollama") 2 0 jan_20 (jan_20 + 60 * us_per_second).
Definition held_db : UsageDb := (unwrap (tt, empty_db) (reserve demo_ctx hold demo_db1)).2.
Definition held_world : World UsageDb := mk_World held_db 3 2.
Definition spent : UsageCharge := mk_UsageCharge (txt "rag") (txt "ollama") 3 5 (txt "op2") false.

Definition demo_committed : (bool * list UsageEvent) * World UsageDb :=
  unwrap ((false, []), demo_world empty_db) (CommitReservation demo_ctx (txt "hold") spent held_world).

Lemma held_db_Ok : reserve demo_ctx hold demo_db1 = Ok (tt, held_db).
Proof. unfold held_db. vm_compute. reflexivity. Qed.

Lemma held_db_same : usage_records held_db = usage_records demo_db1 ∧ usage_rollups held_db = usage_rollups demo_db1.
Proof. pose proof (reserve_Ok _ _ _ _ held_db_Ok) as (-> & -> & _). done. Qed.

Lemma held_db_inv : ledger_inv held_db.
Proof.
  eapply repo_step_keeps_ledger; [|exact (step_reserve _ _ _ _ held_db_Ok)].
  apply rollups_match_ledger. eapply rtc_once, step_append, demo_append_Ok.
Qed.

Lemma held_room :
  forallb (λ k, fits_int8 (tot_tokens (bucket_totals (usage_rollups held_db) k) + 3) &&
                fits_int8 (tot_cost_micros (bucket_totals (usage_rollups held_db) k) + 5))
    (rollup_keys (workspace_id demo_ctx) (clock 3) (txt "rag") (txt "ollama")) = true.
Proof. vm_compute. reflexivity. Qed.

Example commit_charges_once_witness :
  is_Some (usage_reservations (held_db) !! (txt "hold")) ∧
  is_ok (CommitReservation demo_ctx (txt "hold") spent held_world) = true ∧
  demo_committed.1.1 = true ∧ length (usage_records (store demo_committed.2)) = 2%nat ∧
  bucket_totals (usage_rollups (store demo_committed.2))
    (workspace_id demo_ctx, WILDCARD, WILDCARD, MONTH, mk_date 2026 1 1) = mk_UsageTotals 10 8.
Proof.
  destruct (commit_charges_once demo_ctx (txt "hold") spent held_world held_db_inv) as [Hok Hall].
  destruct (Hall demo_committed.1.1 demo_committed.1.2 demo_committed.2) as (_ & Hb & Hcharged & _).
  { rewrite <- !surjective_pairing. refine (unwrap_Ok _ _ _). vm_compute. reflexivity. }
  assert (demo_committed.1.1 = true) as Htrue by (rewrite Hb; vm_compute; reflexivity).
  rewrite Htrue in Hcharged. destruct Hcharged as [[Hrec Hrol] _].
  split; [vm_compute; by eexists|]. split; [|split; [exact Htrue|split]].
  - apply Hok; [split; [|split; [|split; split]]; vm_compute; discriminate|]. right. split.
    + intros r Hr Heq. change (store held_world) with held_db in Hr. rewrite (proj1 held_db_same) in Hr. apply list_elem_of_singleton in Hr as ->. vm_compute in Heq. discriminate Heq.
    + intros k Hk%list_elem_of_In. apply andb_true_iff.
      exact (proj1 (forallb_forall (λ k, fits_int8 (tot_tokens (bucket_totals (usage_rollups held_db) k) + 3) &&
                                         fits_int8 (tot_cost_micros (bucket_totals (usage_rollups held_db) k) + 5)) _)
               held_room k Hk).
  - rewrite Hrec. vm_compute. reflexivity.
  - rewrite Hrol. vm_compute. reflexivity.
Defined.

Definition demo_specs : list LimitSpec :=
  [mk_LimitSpec WORKSPACE (txt "*") TOKENS DAY 5; mk_LimitSpec AGENT (txt "rag") TOKENS DAY 3].

Definition demo_limits : list UsageLimit * World UsageDb :=
  unwrap ([], demo_world empty_db) (SetLimits demo_ctx demo_specs (demo_world demo_db1)).

Example set_limits_witness :
  ListLimits demo_ctx demo_limits.2 = Ok (demo_limits.1, demo_limits.2).
Proof.
  refine (proj1 (set_limits_replaces_whole_set demo_ctx demo_specs (demo_world demo_db1)
                   demo_limits.2 demo_limits.1 _)).
  rewrite <- surjective_pairing. refine (unwrap_Ok _ _ _). vm_compute. reflexivity.
Defined.

(** ** The summary *)

Definition both_wild (r : UsageRollup) : bool :=
  bool_decide (rol_agent_key r = WILDCARD) && bool_decide (rol_provider r = WILDCARD).
Definition agent_row (r : UsageRollup) : bool :=
  bool_decide (rol_provider r = WILDCARD) && negb (bool_decide (rol_agent_key r = WILDCARD)).
Definition provider_row (r : UsageRollup) : bool :=
  bool_decide (rol_agent_key r = WILDCARD) && negb (bool_decide (rol_provider r = WILDCARD)).

Lemma summary_fold rows acc :
  let res := foldl summary_row acc rows in
  sum_period res = sum_period acc ∧
  sum_tokens res = default (sum_tokens acc) (rol_tokens_sum <$> last (List.filter both_wild rows)) ∧
  by_agent res = by_agent acc ++
    ((λ r, mk_DimensionUsage (rol_agent_key r) (rol_tokens_sum r) (rol_cost_micros_sum r))
       <$> List.filter agent_row rows) ∧
  by_provider res = by_provider acc ++
    ((λ r, mk_DimensionUsage (rol_provider r) (rol_tokens_sum r) (rol_cost_micros_sum r))
       <$> List.filter provider_row rows).
Proof.
  revert acc; induction rows as [|r rows IH]; intros acc; cbn [foldl]; [by rewrite !app_nil_r|].
  destruct (IH (summary_row acc r)) as (-> & -> & -> & ->). clear IH.
  unfold summary_row. cbn [List.filter]. unfold both_wild at 2, agent_row at 2, provider_row at 2.
  destruct (bool_decide (rol_agent_key r = WILDCARD)) eqn:Ea,
           (bool_decide (rol_provider r = WILDCARD)) eqn:Ep; cbn; rewrite <- ?app_assoc;
    (split_and!; try done).
  rewrite last_cons. by destruct (last _).
Qed.

Section Summary.
Context {EV : Env} {RO : RowOrder}.

(** What the summary reports.  Its workspace total is that of the LAST
    workspace-wide row the query returned (zero without one), and it lists one
    dimension per per-agent and per per-provider row, in query order -- over every
    stored row of the period kind, since the query does not filter on the period's
    start date. *)
Theorem summary_projects_rows ctx p (w w' : World UsageDb) sm :
  GetUsageSummary ctx (period_value p) w = Ok (sm, w') →
  let rows := list_rollups row_order ctx (period_value p) (store w) in
  w' = w ∧ sum_period sm = p ∧
  sum_tokens sm = default 0 (rol_tokens_sum <$> last (List.filter both_wild rows)) ∧
  dim_key <$> by_agent sm = rol_agent_key <$> List.filter agent_row rows ∧
  dim_key <$> by_provider sm = rol_provider <$> List.filter provider_row rows.
Proof.
  unfold GetUsageSummary. rewrite parse_period_value. intros Hx. cbn zeta.
  apply tx_bind_Ok in Hx as (rows & w1 & [Hq ->]%query_Ok & Hx).
  apply Ok_inj in Hq as <-. apply Ok_pair_inj in Hx as [<- <-].
  destruct (summary_fold (list_rollups row_order ctx (period_value p) (store w))
              (mk_UsageSummary p 0 0 [] [])) as (Hp & Ht & Ha & Hv).
  cbn [repo_list_rollups sql_repository]. rewrite Hp, Ht, Ha, Hv. cbn [app by_agent by_provider].
  rewrite <- !list_fmap_compose. done.
Qed.
End Summary.

Example summary_projects_rows_witness :
  let r := unwrap (mk_UsageSummary DAY 0 0 [] [], demo_world empty_db)
             (GetUsageSummary demo_ctx (period_value MONTH) (demo_world demo_db1)) in
  r.2 = demo_world demo_db1 ∧ sum_tokens r.1 = 7.
Proof.
  cbn zeta. split; [|vm_compute; reflexivity].
  refine (proj1 (summary_projects_rows demo_ctx MONTH (demo_world demo_db1) _ _ _)).
  rewrite <- surjective_pairing. refine (unwrap_Ok _ _ _). vm_compute. reflexivity.
Defined.

(** January's seven tokens, then five more in February. *)
Definition feb_charge : UsageCharge :=
  mk_UsageCharge (txt "rag") (txt "ollama") 5 3 (txt "op2") false.
Definition demo_db2 : UsageDb :=
  (unwrap (false, empty_db) (append demo_ctx feb_10 (txt "r2") feb_charge demo_db1)).2.

Definition summary_tokens (order : RowOrder) : Z :=
  match @GetUsageSummary UsageDb (@sql_repository order) demo_ctx
          (txt "month") (demo_world demo_db2) with
  | Ok (s, _) => sum_tokens s
  | Err _ => -1
  end.

Definition summary_agents (order : RowOrder) : list text :=
  match @GetUsageSummary UsageDb (@sql_repository order) demo_ctx
          (txt "month") (demo_world demo_db2) with
  | Ok (s, _) => dim_key <$> by_agent s
  | Err _ => []
  end.

(** A monthly summary can report a month that is over.  After one charge of 7
    tokens in January and one of 5 in February, the current month's bucket reads 5,
    yet the summary asked for in February answers 5 or 7 according to the row order
    the database happens to choose, and lists the one agent twice. *)
Theorem summary_mixes_months :
  ledger_inv demo_db2 ∧
  rollup demo_ctx feb_10 WILDCARD WILDCARD (txt "month") demo_db2 = Ok (mk_UsageTotals 5 3) ∧
  {[ summary_tokens insertion_order; summary_tokens reverse_order ]} =@{gset Z} {[ 5; 7 ]} ∧
  summary_agents insertion_order = [txt "rag"; txt "rag"].
Proof.
  split_and!; [|vm_compute; reflexivity..].
  eapply append_keeps_ledger; [eapply append_keeps_ledger; [apply empty_ledger_inv|]|].
  - exact demo_append_Ok.
  - exact (eq_trans (unwrap_Ok (false, empty_db)
             (append demo_ctx feb_10 (txt "r2") feb_charge demo_db1)
             ltac:(vm_compute; reflexivity)) (f_equal Ok (surjective_pairing _))).
Qed.

(** ** Two callers and room for one *)

Definition two_requests : list Request :=
  replicate 2 (mk_Request (txt "rag") (txt "ollama") (Some 2)).

Definition race_run (locked : bool) (sched : list nat) : Race :=
  run_schedule demo_settings 60 demo_ctx two_requests locked sched
    (race_start two_requests (demo_world demo_db1)).

Definition admitted_in (c : @Race UsageDb) : list bool :=
  (λ p, match p with Finished (Ok (d, _)) => allowed d | _ => false end) <$> phases c.

Definition race_level (c : Race) : Z :=
  usage_at (store (shared c)) demo_ctx demo_rule WILDCARD WILDCARD (clock (ticks (shared c))).

Definition turns : list nat := [0; 1; 0; 1; 0; 1; 1; 1]%nat.

(** The lock is what makes the difference.  Seven of ten tokens are used and two
    callers want two each.  Interleaved without the lock both are admitted and the
    level passes the cap; the same turns with the lock admit one and refuse one. *)
Theorem unlocked_race_over_admits :
  (∃ c, rtc (race_step demo_settings 60 demo_ctx two_requests false)
          (race_start two_requests (demo_world demo_db1)) c ∧
        admitted_in c = [true; true] ∧ limit_value demo_rule < race_level c) ∧
  (∃ c, rtc (race_step demo_settings 60 demo_ctx two_requests true)
          (race_start two_requests (demo_world demo_db1)) c ∧
        admitted_in c = [true; false] ∧ holder c = None ∧
        race_level c ≤ limit_value demo_rule).
Proof.
  split; [exists (race_run false turns)|exists (race_run true turns)];
    (split; [apply run_schedule_steps|split_and!; vm_compute; congruence]).
Qed.

Lemma demo_month_5 k : (k < 7)%nat →
  period_start MONTH (aware_utc (clock k)) = mk_date 2026 1 1.
Proof. intros Hk. do 7 (destruct k as [|k]; [vm_compute; reflexivity|]). lia. Qed.

Example no_over_admission_witness : race_level (race_run true turns) ≤ 10.
Proof.
  refine (no_over_admission demo_settings 60 demo_ctx two_requests demo_rule eq_refl
            (demo_world demo_db1) (race_run true turns) demo_nonneg _ _ _ _).
  - intros rq Hrq. apply elem_of_replicate in Hrq as [-> _]. exists [demo_rule].
    split; [vm_compute; reflexivity|left].
  - vm_compute. congruence.
  - apply run_schedule_steps.
  - assert (Ht : ticks (shared (race_run true turns)) = 6%nat) by (vm_compute; reflexivity).
    intros k l Hk Hl. rewrite Ht in *. rewrite !demo_month_5 by (cbn in *; lia). reflexivity.
Defined.

Example locked_race_witness :
  ∃ tr w, serial demo_settings 60 demo_ctx two_requests (demo_world demo_db1) tr w ∧
    shared (race_run true turns) = w ∧ length (filter (λ b, b = true)
      (admitted_in (race_run true turns))) = 1%nat.
Proof.
  destruct (locked_race_is_serial demo_settings 60 demo_ctx two_requests (demo_world demo_db1)
              (race_run true turns) (run_schedule_steps _ _ _ _ _ _ _))
    as (tr & w & Hs & _ & _ & _ & Hw).
  exists tr, w. split_and!; [exact Hs|apply Hw; vm_compute; reflexivity|vm_compute; reflexivity].
Defined.
