(* ===== verification/Files.v ===== *)
(** * Files: value objects and the [File] aggregate

    [modules/files/domain/value_objects.py] and [entities.py]: names, types, keys
    and digests that validate themselves, the multipart arithmetic, classification
    tags, and the life cycle of a file. *)

From S2P Require Import Prelude Text Calendar.

Open Scope Z_scope.

(** ** Unicode, as Python's [str] and [unicodedata] expose it *)

Class Unicode := {
  lower : text → text;
  nfc : text → text;
  category : Z → text
}.

Definition is_ascii (c : Z) : bool := (0 <=? c) && (c <? 128).
Definition ascii_lower (c : Z) : Z := if (65 <=? c) && (c <=? 90) then c + 32 else c.

(** [str.lower] on ASCII text, and whitespace has no case; UAX 15: NFC is idempotent
    and closed under substrings. *)
Class UnicodeLaws (U : Unicode) := {
  lower_ascii t : forallb is_ascii t = true → lower t = ascii_lower <$> t;
  lower_strip t : strip (lower t) = lower (strip t);
  nfc_idemp t : nfc (nfc t) = nfc t;
  nfc_substring a b c : nfc (a ++ b ++ c) = a ++ b ++ c → nfc b = b
}.

Inductive FileError : Type := InvalidFileInput | FileStateError.

#[export] Instance FileError_eq_dec : EqDecision FileError.
Proof. solve_decision. Defined.

(** ** Value objects *)

Definition MAX_NAME_LEN : Z := 255.
Definition MAX_UPLOAD_ID_LEN : Z := 1024.
Definition MAX_TAG_CHARS : Z := 128.
Definition MIN_PART_BYTES : Z := 5242880.
Definition MAX_PARTS : Z := 10000.

Definition SLASH : Z := 47.
Definition BACKSLASH : Z := 92.
Definition DOT : Z := 46.

Inductive FileStatus : Type := UPLOADED | SCANNING | READY | QUARANTINED.

#[export] Instance FileStatus_eq_dec : EqDecision FileStatus.
Proof. solve_decision. Defined.

(** [_CONTROL_CHAR_RE] *)
Definition is_control (c : Z) : bool := ((0 <=? c) && (c <=? 31)) || (c =? 127).

Record FileName := mk_FileName { fn_value : text }.

#[export] Instance FileName_eq_dec : EqDecision FileName.
Proof. solve_decision. Defined.

(** [FileName.__post_init__] *)
Definition new_FileName (value : text) : result FileError FileName :=
  let cut := Z.max (rfind SLASH value) (rfind BACKSLASH value) in
  let basename := strip (slice_from (cut + 1) value) in
  if bool_decide (basename = []) then Err InvalidFileInput
  else if MAX_NAME_LEN <? len basename then Err InvalidFileInput
  else if existsb is_control basename then Err InvalidFileInput
  else Ok (mk_FileName basename).

(** [FileName.extension] *)
Definition extension (n : FileName) : text :=
  let dot := rfind DOT (fn_value n) in
  if (dot <=? 0) || (dot =? len (fn_value n) - 1) then []
  else slice_from dot (fn_value n).

(** [re] anchors: [$] also matches just before a final newline. *)
Definition at_dollar (full : text → bool) (t : text) : bool :=
  full t || match rev t with 10 :: r => full (rev r) | _ => false end.

Definition is_lower_alnum (c : Z) : bool :=
  ((97 <=? c) && (c <=? 122)) || ((48 <=? c) && (c <=? 57)).

Definition mime_char (c : Z) : bool :=
  is_lower_alnum c || bool_decide (c ∈ txt "!#$&^_.+-").

Definition mime_token (t : text) : bool :=
  match t with [] => false | c :: r => is_lower_alnum c && forallb mime_char r end.

(** [_MIME_RE]: a token, a slash, a token. *)
Definition mime_re (t : text) : bool :=
  let '(kind, found, subtype) := partition SLASH t in
  found && mime_token kind && mime_token subtype.

Record ContentType := mk_ContentType { ct_value : text }.

#[export] Instance ContentType_eq_dec : EqDecision ContentType.
Proof. solve_decision. Defined.

Definition new_ContentType `{Unicode} (value : text) : result FileError ContentType :=
  let normalized := lower (strip value) in
  if negb (at_dollar mime_re normalized) then Err InvalidFileInput
  else Ok (mk_ContentType normalized).

Record StorageKey := mk_StorageKey { sk_value : text }.

#[export] Instance StorageKey_eq_dec : EqDecision StorageKey.
Proof. solve_decision. Defined.

Definition new_StorageKey (value : text) : result FileError StorageKey :=
  if bool_decide (value = []) then Err InvalidFileInput
  else
    let '(prefix, sep, suffix) := partition SLASH value in
    if negb sep || bool_decide (prefix = []) || bool_decide (suffix = [])
    then Err InvalidFileInput
    else Ok (mk_StorageKey value).

Definition for_file (workspace_id file_id : text) : result FileError StorageKey :=
  new_StorageKey (workspace_id ++ SLASH :: file_id).

Definition is_lower_hex (c : Z) : bool :=
  ((97 <=? c) && (c <=? 102)) || ((48 <=? c) && (c <=? 57)).

(** [_SHA256_RE] *)
Definition sha256_re (t : text) : bool := (len t =? 64) && forallb is_lower_hex t.

Record Sha256 := mk_Sha256 { sha_value : text }.

#[export] Instance Sha256_eq_dec : EqDecision Sha256.
Proof. solve_decision. Defined.

Definition new_Sha256 `{Unicode} (value : text) : result FileError Sha256 :=
  let normalized := lower (strip value) in
  if negb (at_dollar sha256_re normalized) then Err InvalidFileInput
  else Ok (mk_Sha256 normalized).

(** ** Multipart arithmetic *)

Record MultipartUpload := mk_MultipartUpload { mp_upload_id : text; mp_part_bytes : Z }.

#[export] Instance MultipartUpload_eq_dec : EqDecision MultipartUpload.
Proof. solve_decision. Defined.

Definition new_MultipartUpload (upload_id : text) (part_bytes : Z)
    : result FileError MultipartUpload :=
  if bool_decide (upload_id = []) || (MAX_UPLOAD_ID_LEN <? len upload_id)
  then Err InvalidFileInput
  else if part_bytes <? MIN_PART_BYTES then Err InvalidFileInput
  else Ok (mk_MultipartUpload upload_id part_bytes).

Definition part_count (u : MultipartUpload) (size_bytes : Z) : Z :=
  Z.max 1 (- (- size_bytes / mp_part_bytes u)).

Definition expected_size (u : MultipartUpload) (part_number size_bytes : Z)
    : result FileError Z :=
  let count := part_count u size_bytes in
  if negb ((1 <=? part_number) && (part_number <=? count)) then Err InvalidFileInput
  else if part_number <? count then Ok (mp_part_bytes u)
  else Ok (size_bytes - (count - 1) * mp_part_bytes u).

Record PartsCheck := mk_PartsCheck { missing : list Z; wrong_size : list Z }.

Definition complete_check (c : PartsCheck) : bool :=
  bool_decide (missing c = []) && bool_decide (wrong_size c = []).

(** The loop of [check_parts] over [range(1, part_count + 1)]. *)
Definition check_part (u : MultipartUpload) (size_bytes : Z) (uploaded : gmap Z Z)
    (acc : result FileError PartsCheck) (number : Z) : result FileError PartsCheck :=
  c ← acc;
  match uploaded !! number with
  | None => Ok (mk_PartsCheck (missing c ++ [number]) (wrong_size c))
  | Some held =>
      want ← expected_size u number size_bytes;
      if bool_decide (held = want) then Ok c
      else Ok (mk_PartsCheck (missing c) (wrong_size c ++ [number]))
  end.

Definition part_numbers (u : MultipartUpload) (size_bytes : Z) : list Z :=
  seqZ 1 (part_count u size_bytes).

Definition check_parts (u : MultipartUpload) (size_bytes : Z) (uploaded : gmap Z Z)
    : result FileError PartsCheck :=
  foldl (check_part u size_bytes uploaded) (Ok (mk_PartsCheck [] []))
    (part_numbers u size_bytes).

(** ** Classification tags *)

Inductive TagKind : Type := SYSTEM | EQUIPMENT | DEPARTMENT.

#[export] Instance TagKind_eq_dec : EqDecision TagKind.
Proof. solve_decision. Defined.

Definition tag_value (k : TagKind) : text :=
  match k with
  | SYSTEM => txt "system"
  | EQUIPMENT => txt "equipment"
  | DEPARTMENT => txt "department"
  end.

Definition TAG_KINDS : list TagKind := [SYSTEM; EQUIPMENT; DEPARTMENT].

Definition FORBIDDEN_TAG_CATEGORIES : list text :=
  txt <$> ["Cc"; "Cf"; "Cs"; "Co"; "Cn"; "Zl"; "Zp"]%string.

(** [str.encode("utf-8")] fails exactly on surrogates. *)
Definition is_surrogate (c : Z) : bool := (55296 <=? c) && (c <=? 57343).

Definition tag_ok `{Unicode} (cleaned : text) : bool :=
  negb (bool_decide (cleaned = [])) && negb (MAX_TAG_CHARS <? len cleaned) &&
  negb (existsb is_surrogate cleaned) &&
  negb (existsb (λ c, bool_decide (category c ∈ FORBIDDEN_TAG_CATEGORIES)) cleaned).

Definition clean_tag `{Unicode} (value : option text) : result FileError (option text) :=
  match value with
  | None => Ok None
  | Some v =>
      let cleaned := strip (nfc v) in
      if tag_ok cleaned then Ok (Some cleaned) else Err InvalidFileInput
  end.

Record FileTags := mk_FileTags {
  tag_system : option text;
  tag_equipment : option text;
  tag_department : option text
}.

#[export] Instance FileTags_eq_dec : EqDecision FileTags.
Proof. solve_decision. Defined.

Definition no_tags : FileTags := mk_FileTags None None None.

Definition new_FileTags `{Unicode} (system equipment department : option text)
    : result FileError FileTags :=
  s ← clean_tag system; e ← clean_tag equipment; d ← clean_tag department;
  Ok (mk_FileTags s e d).

Definition from_mapping `{Unicode} (raw : gmap text (option text)) : result FileError FileTags :=
  if negb (forallb (λ kv, bool_decide (kv.1 ∈ tag_value <$> TAG_KINDS)) (map_to_list raw))
  then Err InvalidFileInput
  else new_FileTags (mjoin (raw !! tag_value SYSTEM)) (mjoin (raw !! tag_value EQUIPMENT))
         (mjoin (raw !! tag_value DEPARTMENT)).

Definition tag_of (t : FileTags) (k : TagKind) : option text :=
  match k with
  | SYSTEM => tag_system t
  | EQUIPMENT => tag_equipment t
  | DEPARTMENT => tag_department t
  end.

Definition as_mapping (t : FileTags) : gmap text text :=
  foldl (λ m k, match tag_of t k with Some v => <[tag_value k := v]> m | None => m end)
    ∅ TAG_KINDS.

Definition tags_empty (t : FileTags) : bool :=
  bool_decide (tag_system t = None) && bool_decide (tag_equipment t = None) &&
  bool_decide (tag_department t = None).

(** ** The aggregate *)

Record File := mk_File {
  file_id : text;
  file_workspace_id : text;
  file_space_id : option text;
  name : FileName;
  content_type : ContentType;
  size_bytes : Z;
  storage_key : StorageKey;
  checksum : option Sha256;
  status : FileStatus;
  uploaded_by : option text;
  created_at : instant;
  updated_at : instant;
  deleted_at : option instant;
  version : Z;
  multipart : option MultipartUpload;
  tags : FileTags
}.

Definition is_multipart (f : File) : bool := bool_decide (multipart f ≠ None).

(** The fields a method assigns; all others are carried over. *)
Definition with_state (f : File) (n : FileName) (c : option Sha256) (s : FileStatus)
    (upd : instant) (del : option instant) (t : FileTags) : File :=
  mk_File (file_id f) (file_workspace_id f) (file_space_id f) n (content_type f)
    (size_bytes f) (storage_key f) c s (uploaded_by f) (created_at f) upd del
    (version f) (multipart f) t.

Definition guard_not_deleted (f : File) : result FileError unit :=
  raise_if (bool_decide (deleted_at f ≠ None)) FileStateError.

Definition scannable (s : FileStatus) : bool := bool_decide (s ∈ [UPLOADED; SCANNING]).

Definition mark_scanning (now : instant) (f : File) : result FileError File :=
  _ ← guard_not_deleted f;
  _ ← raise_if (bool_decide (status f ≠ UPLOADED)) FileStateError;
  Ok (with_state f (name f) (checksum f) SCANNING now (deleted_at f) (tags f)).

Definition complete (c : option Sha256) (now : instant) (f : File) : result FileError File :=
  _ ← guard_not_deleted f;
  _ ← raise_if (negb (scannable (status f))) FileStateError;
  Ok (with_state f (name f) c READY now (deleted_at f) (tags f)).

Definition quarantine (now : instant) (f : File) : result FileError File :=
  _ ← guard_not_deleted f;
  _ ← raise_if (negb (scannable (status f))) FileStateError;
  Ok (with_state f (name f) (checksum f) QUARANTINED now (deleted_at f) (tags f)).

(** The name a rename settles on. *)
Definition renamed `{Unicode} (new_name current : FileName) : result FileError FileName :=
  if bool_decide (lower (extension new_name) ≠ lower (extension current)) then
    if bool_decide (extension new_name ≠ []) then Err InvalidFileInput
    else new_FileName (fn_value new_name ++ extension current)
  else Ok new_name.

Definition rename `{Unicode} (new_name : FileName) (now : instant) (f : File)
    : result FileError File :=
  _ ← guard_not_deleted f;
  n ← renamed new_name (name f);
  if bool_decide (fn_value n = fn_value (name f)) then Ok f
  else Ok (with_state f n (checksum f) (status f) now (deleted_at f) (tags f)).

Definition retag (t : FileTags) (now : instant) (f : File) : result FileError (bool * File) :=
  _ ← guard_not_deleted f;
  if bool_decide (t = tags f) then Ok (false, f)
  else Ok (true, with_state f (name f) (checksum f) (status f) now (deleted_at f) t).

Definition soft_delete (now : instant) (f : File) : File :=
  match deleted_at f with
  | Some _ => f
  | None => with_state f (name f) (checksum f) (status f) now (Some now) (tags f)
  end.

Definition is_ready (f : File) : bool :=
  bool_decide (status f = READY) && bool_decide (deleted_at f = None).

(** ** Names *)

Definition name_wf (n : FileName) : Prop :=
  SLASH ∉ fn_value n ∧ BACKSLASH ∉ fn_value n ∧ strip (fn_value n) = fn_value n ∧
  fn_value n ≠ [] ∧ len (fn_value n) ≤ MAX_NAME_LEN ∧ existsb is_control (fn_value n) = false.

Lemma not_in_strip c t : c ∉ t → c ∉ strip t.
Proof.
  intros Ht. assert (Forall (λ d, d ≠ c) (strip t)) as Hf.
  { apply strip_Forall, Forall_forall. intros d Hd ->. done. }
  rewrite Forall_forall in Hf. intros Hc. by apply (Hf c).
Qed.

Lemma after_last_separator v :
  let cut := Z.max (rfind SLASH v) (rfind BACKSLASH v) in
  SLASH ∉ slice_from (cut + 1) v ∧ BACKSLASH ∉ slice_from (cut + 1) v.
Proof.
  cbn zeta. assert (∀ c k, rfind c v ≤ k → c ∉ slice_from (k + 1) v) as Hc.
  { intros c k Hk. pose proof (rfind_lower c v).
    replace (slice_from (k + 1) v)
      with (slice_from (k - rfind c v) (slice_from (rfind c v + 1) v)).
    - apply slice_from_not_elem, rfind_slice.
    - unfold slice_from. rewrite drop_drop. f_equal. lia. }
  split; apply Hc; lia.
Qed.

Lemma new_FileName_Ok v n : new_FileName v = Ok n → name_wf n.
Proof.
  unfold new_FileName, name_wf. destruct (after_last_separator v) as [H1 H2].
  case_bool_decide as Hne; [done|].
  destruct (Z.ltb_spec MAX_NAME_LEN (len (strip (slice_from
    (Z.max (rfind SLASH v) (rfind BACKSLASH v) + 1) v)))); [done|].
  destruct (existsb _ _) eqn:Hc; [done|]. intros [= <-]. cbn [fn_value].
  split_and!; auto using not_in_strip, strip_idemp.
Qed.

Lemma new_FileName_id n : name_wf n → new_FileName (fn_value n) = Ok n.
Proof.
  intros (H1 & H2 & Hs & Hne & Hl & Hc). unfold new_FileName.
  apply rfind_not_elem in H1. apply rfind_not_elem in H2. rewrite H1, H2.
  change (slice_from (Z.max (-1) (-1) + 1) (fn_value n)) with (fn_value n). cbn zeta.
  rewrite Hs, Hc.
  rewrite bool_decide_false by done. rewrite (proj2 (Z.ltb_ge _ _)) by done. by destruct n.
Qed.

Lemma extension_spec n :
  extension n = [] ∨
  ∃ a r, fn_value n = a ++ DOT :: r ∧ DOT ∉ r ∧ a ≠ [] ∧ r ≠ [] ∧ extension n = DOT :: r.
Proof.
  unfold extension. destruct (_ || _) eqn:E; [by left|right].
  apply orb_false_iff in E as [H1%Z.leb_gt H2%Z.eqb_neq].
  destruct (rfind_elem DOT (fn_value n)) as (a & r & Hv & Hr); [lia|].
  rewrite Hv in *. rewrite rfind_app in * by done. rewrite slice_from_len.
  exists a, r. split_and!; try done; unfold len in *; intros ->; cbn in *; [lia|].
  rewrite length_app in H2. cbn in H2. lia.
Qed.

Lemma extension_app a r :
  a ≠ [] → r ≠ [] → DOT ∉ r → extension (mk_FileName (a ++ DOT :: r)) = DOT :: r.
Proof.
  intros Ha Hr Hd. unfold extension. cbn [fn_value]. rewrite rfind_app by done.
  rewrite slice_from_len. unfold len. rewrite length_app. cbn [length].
  destruct a as [|x a]; [done|]. destruct r as [|y r]; [done|]. cbn [length].
  by rewrite (proj2 (Z.leb_gt _ _)), (proj2 (Z.eqb_neq _ _)) by lia.
Qed.

(** Giving an extensionless name another's extension yields exactly that. *)
Lemma inherit_extension n m k :
  name_wf n → name_wf m → extension m ≠ [] →
  new_FileName (fn_value n ++ extension m) = Ok k →
  fn_value k = fn_value n ++ extension m ∧ extension k = extension m.
Proof.
  intros (Hn1 & Hn2 & Hns & Hne & _) (Hm1 & Hm2 & Hms & _) Hext Hk.
  destruct (extension_spec m) as [?|(a & r & Hv & Hd & Ha & Hr & He)]; [done|].
  rewrite He in *. rewrite Hv in Hm1, Hm2, Hms.
  apply strip_id in Hns as [Hnl _]. apply strip_id in Hms as [_ Hmr].
  apply rstrip_suffix in Hmr; [|done].
  assert (∀ c, c ∉ fn_value n → c ∉ a ++ DOT :: r → rfind c (fn_value n ++ DOT :: r) = -1) as Hno.
  { intros c Hc Hc'. apply rfind_not_elem. set_solver. }
  assert (fn_value k = fn_value n ++ DOT :: r) as Hval.
  { unfold new_FileName in Hk. rewrite !Hno in Hk by done.
    change (slice_from (Z.max (-1) (-1) + 1) (fn_value n ++ DOT :: r))
      with (fn_value n ++ DOT :: r) in Hk. cbn zeta in Hk.
    rewrite strip_app_id in Hk by done. case_bool_decide; [done|].
    destruct (_ <? _); [done|]. destruct (existsb _ _); [done|]. by apply Ok_inj in Hk as <-. }
  split; [done|]. destruct k as [kv]. cbn in Hval. subst kv. by apply extension_app.
Qed.

Lemma renamed_Ok `{Unicode} new cur n :
  name_wf new → name_wf cur → renamed new cur = Ok n →
  name_wf n ∧ lower (extension n) = lower (extension cur) ∧
  (n = new ∨ fn_value n = fn_value new ++ extension cur).
Proof.
  intros Hnew Hcur. unfold renamed. case_bool_decide as Hdiff.
  - case_bool_decide as He; [done|]. intros Hk.
    assert (extension cur ≠ []) as Hc by (intros Hc; by rewrite He, Hc in Hdiff).
    destruct (inherit_extension _ _ _ Hnew Hcur Hc Hk) as [Hv Hx].
    rewrite Hx. eauto using new_FileName_Ok.
  - intros [= <-]. auto.
Qed.

Lemma guard_Ok f u : guard_not_deleted f = Ok u ↔ deleted_at f = None.
Proof.
  unfold guard_not_deleted. rewrite raise_if_Ok, bool_decide_eq_false.
  split; [apply dec_stable|naive_solver].
Qed.

(** What describes the bytes has no mutator. *)
Definition same_bytes (f g : File) : Prop :=
  file_id g = file_id f ∧ file_workspace_id g = file_workspace_id f ∧
  file_space_id g = file_space_id f ∧ content_type g = content_type f ∧
  size_bytes g = size_bytes f ∧ storage_key g = storage_key f ∧
  multipart g = multipart f ∧ created_at g = created_at f ∧ version g = version f.

Lemma same_bytes_refl f : same_bytes f f.
Proof. by unfold same_bytes. Qed.

Lemma with_state_bytes f n c s u d t : same_bytes f (with_state f n c s u d t).
Proof. by unfold same_bytes. Qed.

#[export] Hint Resolve same_bytes_refl with_state_bytes : aizzak.

(** A rename never changes what the name claims about the bytes.  If it succeeds,
    the file was not deleted, the new name is a clean basename whose extension is the
    old one up to case, nothing but the name (and [updated_at]) changed, and renaming
    to the current name writes nothing at all. *)
Theorem rename_keeps_extension `{Unicode} v w new now (f f' : File) :
  new_FileName v = Ok (name f) → new_FileName w = Ok new →
  rename new now f = Ok f' →
  deleted_at f = None ∧ name_wf (name f') ∧
  lower (extension (name f')) = lower (extension (name f)) ∧
  same_bytes f f' ∧ status f' = status f ∧ checksum f' = checksum f ∧ tags f' = tags f ∧
  (new = name f → f' = f) ∧ (f' = f ∨ updated_at f' = now).
Proof.
  intros Hcur%new_FileName_Ok Hnew%new_FileName_Ok. unfold rename. intros Hx.
  apply bind_Ok in Hx as (u & Hg%guard_Ok & Hx). apply bind_Ok in Hx as (n & Hn & Hx).
  destruct (renamed_Ok _ _ _ Hnew Hcur Hn) as (Hwf & He & Hor).
  case_bool_decide as Hsame; apply Ok_inj in Hx as <-.
  - split_and!; try done; auto with aizzak.
  - cbn. split_and!; try done; auto with aizzak. intros ->. exfalso. apply Hsame.
    unfold renamed in Hn. rewrite bool_decide_false in Hn by naive_solver.
    by apply Ok_inj in Hn as <-.
Qed.

(** ** Parts *)

Definition expect (u : MultipartUpload) (size n : Z) : Z :=
  if n <? part_count u size then mp_part_bytes u
  else size - (part_count u size - 1) * mp_part_bytes u.

Definition upload_wf (u : MultipartUpload) : Prop := MIN_PART_BYTES ≤ mp_part_bytes u.

Lemma new_MultipartUpload_Ok i b u :
  new_MultipartUpload i b = Ok u → upload_wf u ∧ u = mk_MultipartUpload i b.
Proof.
  unfold new_MultipartUpload, upload_wf. destruct (_ || _); [done|].
  destruct (Z.ltb_spec b MIN_PART_BYTES); [done|]. by intros [= <-].
Qed.

Lemma expected_size_Ok u size n :
  1 ≤ n ≤ part_count u size → expected_size u n size = Ok (expect u size n).
Proof.
  intros Hn. unfold expected_size, expect.
  rewrite (proj2 (Z.leb_le 1 n)), (proj2 (Z.leb_le n _)) by lia. by destruct (_ <? _).
Qed.

(** The count is the ceiling: enough parts, and one fewer is not. *)
Lemma part_count_bounds u size :
  upload_wf u → 0 ≤ size →
  size ≤ part_count u size * mp_part_bytes u ∧
  (0 < size → (part_count u size - 1) * mp_part_bytes u < size) ∧ 1 ≤ part_count u size.
Proof.
  unfold upload_wf, MIN_PART_BYTES, part_count. intros Hu Hs.
  pose proof (Z.div_mod (- size) (mp_part_bytes u) ltac:(lia)).
  pose proof (Z.mod_pos_bound (- size) (mp_part_bytes u) ltac:(lia)).
  split_and!; nia.
Qed.

Lemma expect_bounds u size n :
  upload_wf u → 0 < size → 1 ≤ n ≤ part_count u size →
  1 ≤ expect u size n ≤ mp_part_bytes u.
Proof.
  intros Hu Hs Hn. destruct (part_count_bounds u size) as (? & ? & ?); [done|lia|].
  unfold expect. unfold upload_wf, MIN_PART_BYTES in Hu. destruct (_ <? _); [lia|nia].
Qed.

Lemma elem_of_part_numbers u size n :
  upload_wf u → 0 ≤ size → n ∈ part_numbers u size ↔ 1 ≤ n ≤ part_count u size.
Proof.
  intros Hu Hs. destruct (part_count_bounds u size) as (_ & _ & ?); [done..|].
  unfold part_numbers. rewrite elem_of_seqZ. lia.
Qed.

(** The declared parts are exactly the declared bytes. *)
Lemma expect_sum u size :
  upload_wf u → 0 ≤ size → sumZ (expect u size <$> part_numbers u size) = size.
Proof.
  intros Hu Hs. destruct (part_count_bounds u size) as (_ & _ & H1); [done..|].
  unfold part_numbers. set (c := part_count u size) in *.
  replace (seqZ 1 c) with (seqZ 1 (c - 1) ++ [c]).
  - rewrite fmap_app, sumZ_app. change (expect u size <$> [c]) with [expect u size c].
    rewrite sumZ_cons, sumZ_nil, (sumZ_const _ _ (mp_part_bytes u)).
    + rewrite length_seqZ, Z2Nat.id by lia. unfold expect. fold c.
      rewrite Z.ltb_irrefl. lia.
    + intros n Hn%elem_of_seqZ. unfold expect. fold c. by rewrite (proj2 (Z.ltb_lt _ _)) by lia.
  - clearbody c. replace (seqZ 1 c) with (seqZ 1 ((c - 1) + 1)) by (f_equal; lia).
    rewrite seqZ_app by lia. f_equal. replace (1 + (c - 1)) with c by lia. done.
Qed.

Lemma check_parts_fold u size uploaded ns m w :
  (∀ n, n ∈ ns → 1 ≤ n ≤ part_count u size) →
  foldl (check_part u size uploaded) (Ok (mk_PartsCheck m w)) ns =
  Ok (mk_PartsCheck
    (m ++ List.filter (λ n, bool_decide (uploaded !! n = None)) ns)
    (w ++ List.filter (λ n, match uploaded !! n with
                            | Some h => bool_decide (h ≠ expect u size n)
                            | None => false end) ns)).
Proof.
  revert m w. induction ns as [|n ns IH]; intros m w Hns; cbn.
  { by rewrite !app_nil_r. }
  destruct (uploaded !! n) as [h|] eqn:Hn; cbn.
  - rewrite expected_size_Ok by (apply Hns; left). cbn. case_bool_decide; cbn;
      rewrite IH by (intros; apply Hns; by right).
    + by rewrite bool_decide_false by naive_solver.
    + rewrite bool_decide_true by done. by rewrite <- app_assoc.
  - rewrite IH by (intros; apply Hns; by right). by rewrite <- app_assoc.
Qed.

(** Completing a multipart upload means having every byte.  For a valid session
    and a non-negative declared size, [check_parts] always answers; it calls the
    upload complete exactly when storage holds every part of the declared plan at its
    planned size, parts beyond the plan ignored; and then the stored parts add up to
    the declared size, none of them empty or over the part size. *)
Theorem check_parts_complete_iff i b u size uploaded :
  new_MultipartUpload i b = Ok u → 0 ≤ size →
  ∃ c, check_parts u size uploaded = Ok c ∧
    (complete_check c = true ↔
       ∀ n, 1 ≤ n ≤ part_count u size → uploaded !! n = Some (expect u size n)) ∧
    (∀ n, n ∈ missing c ↔ 1 ≤ n ≤ part_count u size ∧ uploaded !! n = None) ∧
    (complete_check c = true →
       sumZ ((λ n, default 0 (uploaded !! n)) <$> part_numbers u size) = size ∧
       (0 < size → ∀ n, 1 ≤ n ≤ part_count u size →
          1 ≤ default 0 (uploaded !! n) ≤ mp_part_bytes u)).
Proof.
  intros [Hu _]%new_MultipartUpload_Ok Hs.
  pose proof (elem_of_part_numbers u size) as Hin.
  eexists. split; [apply check_parts_fold; intros n; by apply Hin|].
  match goal with |- context [complete_check ?c] => set (chk := c) end.
  assert (complete_check chk = true ↔
    ∀ n, 1 ≤ n ≤ part_count u size → uploaded !! n = Some (expect u size n)) as Hiff.
  { unfold complete_check, chk. rewrite andb_true_iff, !bool_decide_eq_true. cbn [missing wrong_size app].
    rewrite !filter_nil_iff, !Forall_forall. setoid_rewrite (Hin _ Hu Hs). split.
    - intros [Hm Hw] n Hn. specialize (Hm n Hn). specialize (Hw n Hn).
      destruct (uploaded !! n) as [h|]; unbool; [|done].
      f_equal. by apply dec_stable.
    - intros Ha. split; intros n Hn; rewrite (Ha n Hn); by rewrite bool_decide_false by naive_solver. }
  split; [done|]. split.
  { intros n. cbn. rewrite elem_of_list_filter_bool, bool_decide_eq_true, Hin by done. naive_solver. }
  intros Hc. rewrite Hiff in Hc. split.
  - rewrite <- (expect_sum u size) at 2 by done. f_equal.
    apply list_fmap_ext. intros k n Hk%list_elem_of_lookup_2. apply Hin in Hk; [|done..].
    by rewrite (Hc n Hk).
  - intros Hpos n Hn. rewrite (Hc n Hn). by apply expect_bounds.
Qed.

Example check_parts_witness :
  let u := mk_MultipartUpload (txt "up") MIN_PART_BYTES in
  ∃ c, check_parts u 6000000 {[ 1 := 5242880; 2 := 757120; 7 := 1 ]} = Ok c ∧
       complete_check c = true.
Proof.
  destruct (check_parts_complete_iff (txt "up") MIN_PART_BYTES
    (mk_MultipartUpload (txt "up") MIN_PART_BYTES) 6000000
    {[ 1 := 5242880; 2 := 757120; 7 := 1 ]} eq_refl ltac:(lia)) as (c & Hc & Hiff & _).
  exists c. split; [exact Hc|]. apply Hiff. intros n Hn.
  assert (part_count (mk_MultipartUpload (txt "up") MIN_PART_BYTES) 6000000 = 2) as Hp by reflexivity.
  rewrite Hp in Hn. assert (n = 1 ∨ n = 2) as [->| ->] by lia; reflexivity.
Defined.

(** ** The life cycle *)

Inductive file_step `{Unicode} : File → File → Prop :=
  | step_scan now f f' : mark_scanning now f = Ok f' → file_step f f'
  | step_complete c now f f' : complete c now f = Ok f' → file_step f f'
  | step_quarantine now f f' : quarantine now f = Ok f' → file_step f f'
  | step_rename n now f f' : rename n now f = Ok f' → file_step f f'
  | step_retag t now f b f' : retag t now f = Ok (b, f') → file_step f f'
  | step_delete now f : file_step f (soft_delete now f).

Definition stage (s : FileStatus) : Z :=
  match s with UPLOADED => 0 | SCANNING => 1 | READY | QUARANTINED => 2 end.

Definition settled (s : FileStatus) : bool := bool_decide (s ∈ [READY; QUARANTINED]).

Lemma scannable_stage s : scannable s = true ↔ stage s ≤ 1.
Proof. destruct s; unfold scannable; cbn; split; (done || lia). Qed.

Lemma settled_stage s : settled s = true ↔ stage s = 2.
Proof. destruct s; unfold settled; cbn; split; (done || lia). Qed.

(** What one step may do. *)
Definition moves (f g : File) : Prop :=
  same_bytes f g ∧ (deleted_at f ≠ None → g = f) ∧ stage (status f) ≤ stage (status g) ∧
  (settled (status f) = true → status g = status f ∧ checksum g = checksum f) ∧
  ((checksum f ≠ None → status f = READY) → checksum g ≠ None → status g = READY).

Lemma step_moves `{Unicode} f g : file_step f g → moves f g.
Proof.
  intros Hstep. inversion Hstep as [now ? ? Hx|c now ? ? Hx|now ? ? Hx|n now ? ? Hx|t now ? b ? Hx|now ?];
    subst; unfold mark_scanning, complete, quarantine, rename, retag, soft_delete in *.
  1-3: apply bind_Ok in Hx as (u & Hg%guard_Ok & Hx);
    apply bind_Ok in Hx as ([] & Hs%raise_if_Ok & Hx); apply Ok_inj in Hx as <-; unbool.
  1-3: try apply dec_stable in Hs; try apply scannable_stage in Hs.
  - unfold moves. cbn. rewrite Hs. split_and!; auto with aizzak; naive_solver lia.
  - unfold moves. cbn. rewrite settled_stage.
    split_and!; auto with aizzak; naive_solver lia.
  - unfold moves. cbn. rewrite settled_stage.
    split_and!; auto with aizzak; [naive_solver|lia|naive_solver lia|].
    intros Hr Hc. specialize (Hr Hc). rewrite Hr in Hs. cbn in Hs. lia.
  - apply bind_Ok in Hx as (u & Hg%guard_Ok & Hx). apply bind_Ok in Hx as (m & _ & Hx).
    case_bool_decide; apply Ok_inj in Hx as <-; unfold moves; cbn;
      split_and!; auto with aizzak; naive_solver lia.
  - apply bind_Ok in Hx as (u & Hg%guard_Ok & Hx).
    case_bool_decide; apply Ok_pair_inj in Hx as [_ <-]; unfold moves; cbn;
      split_and!; auto with aizzak; naive_solver lia.
  - destruct (deleted_at f) eqn:Hd; unfold moves; cbn; rewrite ?Hd;
      split_and!; auto with aizzak; naive_solver lia.
Qed.

Lemma moves_trans f g h : moves f g → moves g h → moves f h.
Proof.
  intros (Hb1 & Hd1 & Hr1 & Hs1 & Hc1) (Hb2 & Hd2 & Hr2 & Hs2 & Hc2). split_and!.
  - unfold same_bytes in *. intuition congruence.
  - intros Hd. rewrite (Hd1 Hd) in *. auto.
  - lia.
  - intros Hs. destruct (Hs1 Hs) as [Hsg Hcg]. rewrite <- Hsg in Hs.
    destruct (Hs2 Hs). split; congruence.
  - auto.
Qed.

(** The life of a file.  Along any sequence of operations the descriptor of the
    bytes never changes and the status only moves forward; [ready] and [quarantined]
    are final, checksum included, so a quarantined file is never readable; deletion
    is final and freezes everything; and a file registered without a checksum has one
    only if it is ready. *)
Theorem file_life_cycle `{Unicode} (f g : File) :
  rtc file_step f g →
  same_bytes f g ∧ stage (status f) ≤ stage (status g) ∧
  (settled (status f) = true → status g = status f ∧ checksum g = checksum f) ∧
  (status f = QUARANTINED → is_ready g = false) ∧
  (deleted_at f ≠ None → g = f) ∧
  (checksum f = None → checksum g ≠ None → status g = READY).
Proof.
  intros Hr. assert (moves f g) as (Hb & Hd & Hs & Ht & Hc).
  { revert Hr. apply (rtc_invariant _ (moves f)).
    - intros x y Hx Hxy. eapply moves_trans; [exact Hx|by apply step_moves].
    - split_and!; auto with aizzak. lia. }
  split_and!; try done; [|naive_solver].
  intros Hq. destruct Ht as [Hg _]; [by rewrite Hq|].
  unfold is_ready. rewrite Hg, Hq. done.
Qed.

(** ** Tags *)

Section Tags.
Context {U : Unicode} {UL : UnicodeLaws U}.

Definition tag_wf (v : text) : Prop := tag_ok v = true ∧ strip v = v ∧ nfc v = v.

Lemma nfc_strip v : nfc v = v → nfc (strip v) = strip v.
Proof.
  intros Hv. unfold strip, rstrip.
  destruct (drop_while_suffix py_isspace v) as [a Ha].
  destruct (drop_while_suffix py_isspace (rev (lstrip v))) as [b Hb].
  apply (nfc_substring a _ (rev b)).
  rewrite <- rev_app_distr, <- Hb, rev_involutive. unfold lstrip. by rewrite <- Ha.
Qed.

Lemma clean_tag_Ok v w : clean_tag v = Ok w → ∀ x, w = Some x → tag_wf x.
Proof.
  destruct v as [v|]; cbn; [|by intros [= <-]].
  destruct (tag_ok _) eqn:E; [|done]. intros [= <-] x [= <-].
  split; [done|]. split; [apply strip_idemp|]. apply nfc_strip, nfc_idemp.
Qed.

Lemma clean_tag_id v : (∀ x, v = Some x → tag_wf x) → clean_tag v = Ok v.
Proof.
  destruct v as [v|]; cbn; [|done]. intros Hv. destruct (Hv v eq_refl) as (Ho & Hs & Hn).
  by rewrite Hn, Hs, Ho.
Qed.

Definition tags_wf (t : FileTags) : Prop := ∀ k x, tag_of t k = Some x → tag_wf x.

Lemma new_FileTags_Ok s e d t : new_FileTags s e d = Ok t → tags_wf t.
Proof.
  unfold new_FileTags. intros Hx.
  apply bind_Ok in Hx as (s' & Hs & Hx). apply bind_Ok in Hx as (e' & He & Hx).
  apply bind_Ok in Hx as (d' & Hd & Hx). apply Ok_inj in Hx as <-.
  intros []; cbn; eauto using clean_tag_Ok.
Qed.

Lemma lookup_as_mapping t k : as_mapping t !! tag_value k = tag_of t k.
Proof.
  destruct t as [[s|] [e|] [d|]], k; unfold as_mapping; cbn -[insert lookup tag_value];
    repeat (rewrite lookup_insert_eq || rewrite lookup_insert_ne by done); done.
Qed.

Lemma as_mapping_keys t k v : as_mapping t !! k = Some v → k ∈ tag_value <$> TAG_KINDS.
Proof.
  destruct t as [[s|] [e|] [d|]]; unfold as_mapping; cbn -[insert lookup tag_value];
    rewrite ?lookup_insert_Some, ?lookup_empty; set_solver.
Qed.

Lemma from_mapping_known m :
  (∀ k v, m !! k = Some v → k ∈ tag_value <$> TAG_KINDS) →
  from_mapping m =
  new_FileTags (mjoin (m !! tag_value SYSTEM)) (mjoin (m !! tag_value EQUIPMENT))
    (mjoin (m !! tag_value DEPARTMENT)).
Proof.
  intros Hm. unfold from_mapping.
  replace (forallb _ _) with true; [done|]. symmetry. apply forallb_forall.
  intros [k v] Hin%list_elem_of_In%elem_of_map_to_list. apply bool_decide_eq_true.
  by eapply Hm.
Qed.

(** Tags survive their wire form.  Tags built from any mapping are normalised,
    trimmed and allowed; their [as_mapping] has exactly the present kinds; and
    reading that mapping back gives the same tags. *)
Theorem tags_round_trip raw t :
  from_mapping raw = Ok t →
  tags_wf t ∧ (∀ k, as_mapping t !! tag_value k = tag_of t k) ∧
  dom (as_mapping t) ⊆ list_to_set (tag_value <$> TAG_KINDS) ∧
  from_mapping (Some <$> as_mapping t) = Ok t.
Proof.
  unfold from_mapping at 1. destruct (negb _); [done|].
  intros Hwf%new_FileTags_Ok. split_and!; [done|apply lookup_as_mapping| |].
  - intros k [v Hv]%elem_of_dom. apply elem_of_list_to_set. by eapply as_mapping_keys.
  - rewrite from_mapping_known.
    + rewrite !lookup_fmap, !lookup_as_mapping. unfold new_FileTags.
      pose proof (Hwf SYSTEM). pose proof (Hwf EQUIPMENT). pose proof (Hwf DEPARTMENT).
      destruct t as [s e d]. cbn in *.
      assert (∀ o : option text, mjoin (Some <$> o) = o) as Hj by by intros [].
      by rewrite !Hj, !clean_tag_id.
    + intros k v Hk. rewrite lookup_fmap in Hk. apply fmap_Some in Hk as (x & Hx & _).
      by eapply as_mapping_keys.
Qed.
End Tags.

(** ** Rehydration *)

Section Rehydrate.
Context {U : Unicode} {UL : UnicodeLaws U}.

Definition plain_char (c : Z) : bool :=
  is_ascii c && (ascii_lower c =? c) && negb (py_isspace c).

Lemma lower_plain t : forallb plain_char t = true → lower t = t.
Proof.
  intros Ht. assert (Forall (λ c, plain_char c = true) t) as Hf.
  { apply Forall_forall. intros c Hc%list_elem_of_In. by apply (proj1 (forallb_forall _ _) Ht). }
  rewrite lower_ascii.
  - rewrite <- (list_fmap_id t) at 2. apply list_fmap_ext. intros i c Hi.
    apply (Forall_lookup_1 _ _ _ _ Hf) in Hi. unfold plain_char in Hi. unbool. done.
  - apply forallb_forall. intros c Hc%list_elem_of_In. rewrite Forall_forall in Hf.
    apply Hf in Hc. unfold plain_char in Hc. by unbool.
Qed.

Lemma plain_range c : 33 ≤ c ≤ 64 ∨ 91 ≤ c ≤ 126 → plain_char c = true.
Proof.
  intros Hc. unfold plain_char, is_ascii, ascii_lower, py_isspace.
  rewrite (proj2 (Z.leb_le 0 c)), (proj2 (Z.ltb_lt c 128)) by lia.
  assert ((65 <=? c) && (c <=? 90) = false) as ->.
  { destruct (Z.leb_spec 65 c), (Z.leb_spec c 90); (done || lia). }
  rewrite Z.eqb_refl, !bool_decide_false; try (done || lia).
  rewrite !not_elem_of_cons. split_and!; try lia. apply not_elem_of_nil.
Qed.

Lemma lower_alnum_plain c : is_lower_alnum c = true → plain_char c = true.
Proof.
  unfold is_lower_alnum. intros Hc. apply plain_range.
  apply orb_true_iff in Hc as [Hc|Hc]; unbool; lia.
Qed.

Lemma mime_char_plain c : mime_char c = true → plain_char c = true.
Proof.
  unfold mime_char. intros [Hc|Hc]%orb_true_iff; [by apply lower_alnum_plain|].
  apply bool_decide_eq_true in Hc. apply plain_range.
  change (c ∈ [33; 35; 36; 38; 94; 95; 46; 43; 45]) in Hc.
  rewrite !elem_of_cons, elem_of_nil in Hc. lia.
Qed.

Lemma mime_token_plain t : mime_token t = true → forallb plain_char t = true.
Proof.
  destruct t as [|c r]; cbn; [done|]. intros [Hc Hr]%andb_prop.
  rewrite lower_alnum_plain by done. apply forallb_forall. intros x Hx.
  apply mime_char_plain. by apply (proj1 (forallb_forall _ _) Hr).
Qed.

Lemma mime_plain t : mime_re t = true → forallb plain_char t = true.
Proof.
  unfold mime_re. destruct (partition SLASH t) as [[k b] r] eqn:Hp.
  intros [[Hb Hk]%andb_prop Hr]%andb_prop. destruct b; [|done].
  apply partition_spec in Hp as [-> _]. rewrite forallb_app. cbn [forallb].
  rewrite !mime_token_plain by done. done.
Qed.

Lemma sha_plain t : sha256_re t = true → forallb plain_char t = true.
Proof.
  unfold sha256_re. intros [_ Ht]%andb_prop. apply forallb_forall. intros c Hc.
  apply lower_alnum_plain. apply (proj1 (forallb_forall _ _) Ht) in Hc.
  unfold is_lower_hex, is_lower_alnum in *.
  apply orb_true_iff in Hc as [Hc|Hc]; unbool; apply orb_true_iff; [left|right];
    apply andb_true_iff; rewrite !Z.leb_le; lia.
Qed.

(** Trimmed text has no final newline for [$] to forgive. *)
Lemma at_dollar_stripped p t : strip t = t → at_dollar p t = p t.
Proof.
  intros [_ Hr]%strip_id. unfold at_dollar. destruct (rev t) as [|c r] eqn:Hrev;
    [by rewrite orb_false_r|].
  rewrite rstrip_id in Hr.
  assert (py_isspace c = false) as Hc.
  { apply (Hr (rev r)). by rewrite <- (rev_involutive t), Hrev. }
  destruct (decide (c = 10)) as [->|Hne]; [done|].
  destruct c as [|c|c]; try by rewrite orb_false_r.
  repeat (destruct c as [c|c|]; try by rewrite orb_false_r); done.
Qed.

Lemma normalized_id p v :
  (∀ t, p t = true → forallb plain_char t = true) →
  at_dollar p (lower (strip v)) = true →
  strip (lower (strip v)) = lower (strip v) ∧
  lower (strip (lower (strip v))) = lower (strip v).
Proof.
  intros Hp Hd.
  assert (strip (lower (strip v)) = lower (strip v)) as Hs by by rewrite lower_strip, strip_idemp.
  split; [done|]. rewrite at_dollar_stripped in Hd by done. rewrite Hs.
  by apply lower_plain, Hp.
Qed.

(** Stored values read back as themselves.  Every value object is a fixed point
    of its own constructor, so the text a row stores rebuilds exactly the value that
    was checked; and the canonical key of a file is well formed. *)
Theorem value_objects_rehydrate :
  (∀ v n, new_FileName v = Ok n → name_wf n ∧ new_FileName (fn_value n) = Ok n) ∧
  (∀ v c, new_ContentType v = Ok c → new_ContentType (ct_value c) = Ok c) ∧
  (∀ v h, new_Sha256 v = Ok h → len (sha_value h) = 64 ∧ new_Sha256 (sha_value h) = Ok h) ∧
  (∀ v k, new_StorageKey v = Ok k → sk_value k = v) ∧
  (∀ ws fid, ws ≠ [] → fid ≠ [] → SLASH ∉ ws →
     for_file ws fid = Ok (mk_StorageKey (ws ++ SLASH :: fid))).
Proof.
  split_and!.
  - intros v n Hn%new_FileName_Ok. split; [done|by apply new_FileName_id].
  - intros v c. unfold new_ContentType. destruct (at_dollar _ _) eqn:E; [|done].
    cbn [negb]. intros [= <-]. cbn [ct_value].
    destruct (normalized_id _ _ mime_plain E) as [_ Hl]. by rewrite Hl, E.
  - intros v h. unfold new_Sha256. destruct (at_dollar _ _) eqn:E; [|done].
    cbn [negb]. intros [= <-]. cbn [sha_value].
    destruct (normalized_id _ _ sha_plain E) as [Hs Hl]. rewrite Hl, E. split; [|done].
    rewrite at_dollar_stripped in E by done. unfold sha256_re in E. by unbool.
  - intros v k. unfold new_StorageKey. case_bool_decide; [done|].
    destruct (partition SLASH v) as [[p b] s]. destruct (_ || _); [done|]. by intros [= <-].
  - intros ws fid Hw Hf Hs. unfold for_file, new_StorageKey. rewrite partition_app by done.
    rewrite !bool_decide_false; [done|done|done|]. by destruct ws.
Qed.
End Rehydrate.

(** ** Witnesses, over ASCII *)

#[export] Instance ascii_unicode : Unicode := {|
  lower t := ascii_lower <$> t;
  nfc t := t;
  category c := if is_control c then txt "Cc" else txt "Ll"
|}.

Lemma isspace_ascii_lower c : py_isspace (ascii_lower c) = py_isspace c.
Proof.
  unfold ascii_lower. destruct (Z.leb_spec 65 c), (Z.leb_spec c 90); try done. cbn [andb].
  assert (∀ d, 65 ≤ d ≤ 122 → py_isspace d = false) as Hd; [|by rewrite !Hd by lia].
  intros d Hr. unfold py_isspace.
  rewrite !bool_decide_false; try (done || lia).
  rewrite !not_elem_of_cons. split_and!; try lia. apply not_elem_of_nil.
Qed.

Lemma drop_while_fmap (f : Z → Z) p t :
  (∀ c, p (f c) = p c) → drop_while p (f <$> t) = f <$> drop_while p t.
Proof. intros Hf. induction t as [|c t IH]; cbn; [done|]. rewrite Hf. by destruct (p c). Qed.

#[export] Instance ascii_unicode_laws : UnicodeLaws ascii_unicode.
Proof.
  split; cbn; try done. intros t. unfold strip, rstrip, lstrip.
  pose proof isspace_ascii_lower. rewrite drop_while_fmap by done.
  change (ascii_lower <$> ?l) with (map ascii_lower l).
  rewrite <- map_rev. change (map ascii_lower ?l) with (ascii_lower <$> l).
  rewrite drop_while_fmap by done. change (ascii_lower <$> ?l) with (map ascii_lower l).
  by rewrite map_rev.
Qed.

Definition demo_file : File :=
  mk_File (txt "f1") (txt "ws1") None (mk_FileName (txt "report.pdf"))
    (mk_ContentType (txt "application/pdf")) 10 (mk_StorageKey (txt "ws1/f1")) None UPLOADED
    None 0 0 None 1 None no_tags.

Example rename_witness :
  let f' := unwrap demo_file (rename (mk_FileName (txt "Q1 summary")) 5 demo_file) in
  fn_value (name f') = txt "Q1 summary.pdf" ∧ lower (extension (name f')) = txt ".pdf".
Proof.
  cbn zeta. split; [vm_compute; reflexivity|].
  refine (proj1 (proj2 (proj2 (rename_keeps_extension (txt "report.pdf") (txt "a/Q1 summary")
    (mk_FileName (txt "Q1 summary")) 5 demo_file _ _ _ _)))).
  - vm_compute. reflexivity.
  - vm_compute. reflexivity.
  - refine (unwrap_Ok _ _ _). vm_compute. reflexivity.
Defined.

Example file_life_cycle_witness :
  let f := unwrap demo_file (quarantine 7 demo_file) in
  is_ready (soft_delete 9 f) = false.
Proof.
  cbn zeta. refine (proj1 (proj2 (proj2 (proj2 (file_life_cycle
    (unwrap demo_file (quarantine 7 demo_file)) _ _)))) _).
  - apply rtc_once. apply step_delete.
  - vm_compute. reflexivity.
Defined.

Definition demo_raw : gmap text (option text) :=
  {[ txt "system" := Some (txt " HVAC "); txt "department" := None ]}.

Example tags_round_trip_witness :
  let t := unwrap no_tags (from_mapping demo_raw) in
  tag_system t = Some (txt "HVAC") ∧ from_mapping (Some <$> as_mapping t) = Ok t.
Proof.
  cbn zeta. split; [vm_compute; reflexivity|].
  refine (proj2 (proj2 (proj2 (tags_round_trip demo_raw _ _)))).
  refine (unwrap_Ok _ _ _). vm_compute. reflexivity.
Defined.

Example value_objects_rehydrate_witness :
  let h := unwrap (mk_Sha256 []) (new_Sha256 (replicate 64 65)) in
  len (sha_value h) = 64 ∧ new_Sha256 (sha_value h) = Ok h.
Proof.
  cbn zeta. refine (proj1 (proj2 (proj2 value_objects_rehydrate)) (replicate 64 65) _ _).
  refine (unwrap_Ok _ _ _). vm_compute. reflexivity.
Defined.
