(* ===== verification/Keyset.v ===== *)
(** * Keyset pagination

    [framework/pagination.py] and the way every SQL adapter pages: filter by the
    cursor, order, take one row more than asked, and hand out a cursor only when
    that extra row exists ([_paginate]).  Generic in the row type and in a key that
    is totally ordered; [Cursor] makes an opaque text of the key. *)

From S2P Require Import Prelude Text Errors.

Open Scope Z_scope.

(** ** Ordering identifiers

    A canonical UUID text compares like the UUID itself: lexicographically. *)

Fixpoint text_ltb (a b : text) : bool :=
  match a, b with
  | [], [] => false
  | [], _ :: _ => true
  | _ :: _, [] => false
  | x :: a, y :: b => (x <? y) || ((x =? y) && text_ltb a b)
  end.

Definition text_lt (a b : text) : Prop := text_ltb a b = true.

#[export] Instance text_lt_dec a b : base.Decision (text_lt a b).
Proof. unfold text_lt. apply _. Defined.

Lemma text_lt_irrefl a : ¬ text_lt a a.
Proof. unfold text_lt. induction a as [|x a IH]; cbn; [done|]. rewrite Z.ltb_irrefl, Z.eqb_refl. done. Qed.

Lemma text_lt_cons x a y b : text_lt (x :: a) (y :: b) ↔ x < y ∨ (x = y ∧ text_lt a b).
Proof. unfold text_lt. cbn. rewrite orb_true_iff, andb_true_iff, Z.ltb_lt, Z.eqb_eq. done. Qed.

Lemma text_lt_trans a b c : text_lt a b → text_lt b c → text_lt a c.
Proof.
  revert b c; induction a as [|x a IH]; intros [|y b] [|z c]; try done.
  rewrite !text_lt_cons. intros [?|[-> ?]] [?|[-> ?]]; [left; lia|left; lia|left; lia|].
  right. eauto.
Qed.

Lemma text_lt_total a b : text_lt a b ∨ a = b ∨ text_lt b a.
Proof.
  revert b; induction a as [|x a IH]; intros [|y b]; [by auto|by left|by right; right|].
  rewrite !text_lt_cons. destruct (Z.lt_trichotomy x y) as [?|[->|?]]; [auto| |auto].
  destruct (IH b) as [?|[->|?]]; auto.
Qed.

(** ** Pages *)

Record Page (A C : Type) := mk_Page { page_data : list A; next_cursor : option C }.
Arguments mk_Page {A C}.
Arguments page_data {A C}.
Arguments next_cursor {A C}.

Section Paging.
Context {A : Type} (key : A → text).

(** [ORDER BY key DESC]: the order, and the sort the database performs. *)
Definition newer_or_same (x y : A) : Prop := ¬ text_lt (key x) (key y).

#[global] Instance newer_or_same_dec x y : base.Decision (newer_or_same x y).
Proof. unfold newer_or_same. apply _. Defined.

#[global] Instance newer_or_same_total : Total newer_or_same.
Proof.
  intros x y. unfold newer_or_same.
  destruct (decide (text_lt (key x) (key y))) as [Hl|Hl]; [right|by left].
  intros Hl'. exact (text_lt_irrefl _ (text_lt_trans _ _ _ Hl Hl')).
Qed.

#[global] Instance newer_or_same_trans : Transitive newer_or_same.
Proof.
  intros x y z. unfold newer_or_same. intros Hxy Hyz Hxz.
  destruct (text_lt_total (key y) (key z)) as [?|[He|?]]; [done| |].
  - apply Hxy. by rewrite He.
  - apply Hxy. by eapply text_lt_trans.
Qed.

Definition newest_first (rows : list A) : list A := merge_sort newer_or_same rows.

(** [WHERE key < cursor ORDER BY key DESC LIMIT limit + 1]. *)
Definition select_page (rows : list A) (limit : nat) (after : option text) : list A :=
  take (S limit)
    (List.filter (λ r, match after with Some c => text_ltb (key r) c | None => true end)
       (newest_first rows)).

(** [_paginate], up to hydration. *)
Definition paginate (fetched : list A) (limit : nat) : Page A text :=
  let page_rows := take limit fetched in
  mk_Page page_rows
    (if (limit <? length fetched)%nat then key <$> last page_rows else None).

(** A client that follows every cursor. *)
Fixpoint walk (fuel : nat) (rows : list A) (limit : nat) (after : option text) : list A :=
  match fuel with
  | O => []
  | S fuel =>
      let p := paginate (select_page rows limit after) limit in
      page_data p ++
      match next_cursor p with
      | Some c => walk fuel rows limit (Some c)
      | None => []
      end
  end.

(** Nothing in a sorted, duplicate-free list after [x] is at or above [x]. *)
Definition strictly_newest_first (l : list A) : Prop :=
  StronglySorted (λ x y, text_lt (key y) (key x)) l.

Lemma newest_first_strict rows :
  NoDup (key <$> rows) → strictly_newest_first (newest_first rows).
Proof.
  intros Hnd. pose proof (StronglySorted_merge_sort newer_or_same rows) as Hs.
  pose proof (merge_sort_Permutation newer_or_same rows) as Hp.
  fold (newest_first rows) in Hs, Hp.
  rewrite <- Hp in Hnd. clear Hp. unfold strictly_newest_first.
  induction Hs as [|x l Hs IH Hx]; constructor.
  - apply IH. by apply NoDup_cons in Hnd as [_ ?].
  - rewrite fmap_cons in Hnd. apply NoDup_cons in Hnd as [Hni _].
    rewrite Forall_forall in *. intros y Hy. unfold newer_or_same in Hx.
    destruct (text_lt_total (key x) (key y)) as [Hl|[He|?]]; [|exfalso|done].
    + by destruct (Hx y Hy).
    + apply Hni. rewrite He. by apply list_elem_of_fmap_2.
Qed.

Lemma after_last l k x :
  strictly_newest_first (l ++ x :: k) →
  List.filter (λ r, text_ltb (key r) (key x)) (l ++ x :: k) = k.
Proof.
  intros Hs. rewrite List.filter_app. cbn [List.filter].
  assert (text_ltb (key x) (key x) = false) as ->.
  { apply not_true_iff_false. apply text_lt_irrefl. }
  apply StronglySorted_app in Hs as (Hlk & _ & Hk).
  apply StronglySorted_cons in Hk as [Hxk Hk].
  assert (List.filter (λ r, text_ltb (key r) (key x)) l = []) as ->.
  { apply filter_nil_iff, Forall_forall. intros y Hy. apply not_true_iff_false.
    intros Hyx. pose proof (Hlk y x Hy ltac:(left)) as Hxy.
    exact (text_lt_irrefl _ (text_lt_trans _ _ _ Hxy Hyx)). }
  cbn. apply forallb_filter_id, forallb_forall. intros y Hy%list_elem_of_In.
  rewrite Forall_forall in Hxk. by apply Hxk.
Qed.

Lemma select_page_after rows limit done rest :
  NoDup (key <$> rows) → newest_first rows = done ++ rest →
  select_page rows limit (key <$> last done) = take (S limit) rest.
Proof.
  intros Hnd Hsplit. pose proof (newest_first_strict rows Hnd) as Hstrict. rewrite Hsplit in Hstrict.
  unfold select_page. f_equal. rewrite Hsplit. destruct done as [|x done _] using rev_ind.
  - cbn. apply forallb_filter_id, forallb_forall. done.
  - rewrite last_snoc. cbn [fmap option_fmap option_map].
    rewrite <- app_assoc in *. by apply after_last.
Qed.

Lemma walk_suffix fuel rows limit done rest :
  NoDup (key <$> rows) → (0 < limit)%nat → (length rest < fuel)%nat →
  newest_first rows = done ++ rest →
  walk fuel rows limit (key <$> last done) = rest.
Proof.
  intros Hnd Hlim. revert done rest. induction fuel as [|fuel IH]; intros done rest Hf Hsplit;
    [lia|].
  cbn [walk]. rewrite (select_page_after rows limit done rest Hnd Hsplit). unfold paginate. cbn [page_data next_cursor].
  rewrite take_take, Nat.min_l by lia. rewrite length_take.
  destruct (Nat.ltb_spec limit (S limit `min` length rest)) as [Hmore|Hmore].
  - destruct (take limit rest) as [|y page _] eqn:Htake using rev_ind.
    { apply (f_equal length) in Htake. rewrite length_take in Htake. cbn in Htake. lia. }
    rewrite last_snoc. cbn [fmap option_fmap option_map].
    pose proof (take_drop limit rest) as Htd. rewrite Htake in Htd.
    etrans; [|exact Htd]. f_equal.
    replace (Some (key y)) with (key <$> last (done ++ page ++ [y]))
      by (rewrite app_assoc, last_snoc; done).
    apply IH; [rewrite length_drop; lia|].
    rewrite Hsplit. rewrite <- Htd at 1. by rewrite <- !app_assoc.
  - rewrite app_nil_r. apply take_ge. lia.
Qed.

(** C8: paging neither skips nor repeats.  Over rows with distinct ids and for any
    page size of at least one, a client that follows the cursors sees every row
    exactly once, newest first; no page is longer than asked; and a page carries a
    cursor exactly when something follows it. *)
Theorem pages_cover_everything rows limit :
  NoDup (key <$> rows) → (0 < limit)%nat →
  walk (S (length rows)) rows limit None = newest_first rows ∧
  newest_first rows ≡ₚ rows ∧ strictly_newest_first (newest_first rows) ∧
  ∀ after, let p := paginate (select_page rows limit after) limit in
    (length (page_data p) ≤ limit)%nat ∧
    (next_cursor p = None ↔ (length (select_page rows limit after) ≤ limit)%nat).
Proof.
  intros Hnd Hlim. split_and!.
  - apply (walk_suffix _ _ _ []); [done|done| |done].
    pose proof (Permutation_length (merge_sort_Permutation newer_or_same rows)) as Hl.
    unfold newest_first. lia.
  - apply merge_sort_Permutation.
  - by apply newest_first_strict.
  - intros after. cbn zeta. unfold paginate. cbn [page_data next_cursor].
    rewrite length_take. split; [lia|].
    destruct (Nat.ltb_spec limit (length (select_page rows limit after))); [|naive_solver lia].
    split; [|lia]. intros Hn. exfalso. apply fmap_None, last_None in Hn.
    apply (f_equal length) in Hn. rewrite length_take in Hn. cbn in Hn. lia.
Qed.
End Paging.

Example pages_witness :
  walk (λ n : text, n) 4 [txt "b"; txt "c"; txt "a"] 2 None = [txt "c"; txt "b"; txt "a"].
Proof.
  refine (proj1 (pages_cover_everything (λ n : text, n) [txt "b"; txt "c"; txt "a"] 2 _ _)).
  - apply (bool_decide_unpack _). vm_compute. exact I.
  - lia.
Defined.
