(* ===== verification/Events.v ===== *)
(** * Events: the envelope and the outbox record

    [framework/events/envelope.py] and [framework/ports/event_outbox.py]. *)

From S2P Require Import Prelude Text Calendar Errors Framework Files.

Open Scope Z_scope.

(** The values [json.loads] returns.  A float is kept as the decimal [m * 10^e] it
    was read from; the envelopes the modelled modules build hold none. *)
Inductive json : Type :=
  | JNull
  | JBool (b : bool)
  | JInt (n : Z)
  | JFloat (m e : Z)
  | JConstant (t : text)
  | JStr (t : text)
  | JArr (items : list json)
  | JObj (fields : list (text * json)).

(** [d.get(key)] on an object. *)
Fixpoint field (key : text) (fields : list (text * json)) : option json :=
  match fields with
  | [] => None
  | (k, v) :: rest => if bool_decide (k = key) then Some v else field key rest
  end.

Definition jget (j : json) (key : text) : option json :=
  match j with JObj fields => field key fields | _ => None end.

(** Decimal text, [str(n)] for a natural and zero-padded [f"{n:0kd}"]. *)
Fixpoint digits (k : nat) (n : Z) : text :=
  match k with
  | O => []
  | S k => digits k (n / 10) ++ [48 + n mod 10]
  end.

(** [datetime.isoformat()] of an aware UTC datetime with [+00:00] replaced by [Z]:
    microseconds are printed only when they are not zero. *)
Definition rfc3339 (t : instant) : text :=
  let d := date_of t in
  let us := t mod us_per_day in
  let s := us / us_per_second in
  digits 4 (year d) ++ txt "-" ++ digits 2 (month d) ++ txt "-" ++ digits 2 (day d) ++
  txt "T" ++ digits 2 (s / 3600) ++ txt ":" ++ digits 2 (s / 60 mod 60) ++ txt ":" ++
  digits 2 (s mod 60) ++
  (let frac := us mod us_per_second in
   if frac =? 0 then [] else txt "." ++ digits 6 frac) ++ txt "Z".

(** [EVENT_TYPE_PATTERN]: four parts between dots. *)
Fixpoint split_on (c : Z) (t : text) : list text :=
  match t with
  | [] => [[]]
  | d :: t =>
      if d =? c then [] :: split_on c t
      else match split_on c t with w :: ws => (d :: w) :: ws | [] => [[d]] end
  end.

Definition is_lower (c : Z) : bool := (97 <=? c) && (c <=? 122).
Definition is_digit (c : Z) : bool := (48 <=? c) && (c <=? 57).
Definition some_of (p : Z → bool) (t : text) : bool :=
  negb (bool_decide (t = [])) && forallb p t.

Definition event_type_re (t : text) : bool :=
  match split_on DOT t with
  | [m; a; e; v] =>
      some_of is_lower m && some_of (λ c, is_lower c || (c =? 95)) a &&
      some_of (λ c, is_lower c || (c =? 95)) e &&
      match v with 118 :: n => some_of is_digit n | _ => false end
  | _ => false
  end.

Definition SCHEMA_BASE : text := txt "https://schemas.platform/".

Definition opt_field (key : text) (v : option text) : list (text * json) :=
  match v with Some x => [(key, JStr x)] | None => [] end.

(** [build_envelope]: the extension attributes only when given, [data] last. *)
Definition build_envelope (event_id source event_type subject : text) (occurred_at : instant)
    (ws : text) (data : json) (correlation causation : option text) : result exn json :=
  if negb (at_dollar event_type_re event_type)
  then Err (App (raise_code AppError "common.internal"))
  else Ok (JObj
    ([(txt "specversion", JStr (txt "1.0")); (txt "id", JStr event_id);
      (txt "source", JStr source); (txt "type", JStr event_type);
      (txt "subject", JStr subject); (txt "time", JStr (rfc3339 occurred_at));
      (txt "datacontenttype", JStr (txt "application/json"));
      (txt "dataschema", JStr (SCHEMA_BASE ++ event_type ++ txt ".json"));
      (txt "workspaceid", JStr ws)] ++
     opt_field (txt "correlationid") correlation ++
     opt_field (txt "causationid") causation ++ [(txt "data", data)])).

(** [envelope[key]] of a payload, and a string where the code expects one. *)
Definition subscript (j : option json) (key : string) : result exn json :=
  match j with
  | Some (JObj fields) =>
      match field (txt key) fields with Some v => Ok v | None => Err (Other "KeyError") end
  | Some _ => Err (Other "TypeError")
  | None => Err (Other "KeyError")
  end.

Definition as_uuid (j : json) : result exn text :=
  match j with JStr t => Ok t | _ => Err (Other "StatementError") end.

Record OutboxRecord := mk_OutboxRecord {
  ob_event_id : text;
  ob_aggregate_type : text;
  ob_aggregate_id : text;
  ob_event_type : text;
  ob_stream : text;
  ob_payload : json
}.

Example rfc3339_prints :
  rfc3339 (midnight (mk_date 2026 1 20) + 3 * us_per_second + 5) = txt "2026-01-20T00:00:03.000005Z".
Proof. vm_compute. reflexivity. Qed.

Lemma field_opt k key v rest :
  k ≠ key → field key (opt_field k v ++ rest) = field key rest.
Proof. destruct v as [x|]; cbn; [|done]. intros Hne. by rewrite bool_decide_false. Qed.
