(* ===== verification/Wire.v ===== *)
(** * Wire: UTF-8 and JSON, as the streams carry an envelope

    [_encode] of [infrastructure/messaging/redis_streams.py] and [_decode] of
    [consumers/engine.py], over what they use of Python's standard library: the
    UTF-8 codec, [json.dumps(ensure_ascii=False, separators=(",", ":"))] and
    [json.loads], with the meaning the library reference gives them. *)

From S2P Require Import Prelude Text Calendar Errors Framework Files Events.

Open Scope Z_scope.

Abbreviation bytes := (list Z).

(** ** UTF-8 *)

Definition surrogate (c : Z) : bool := (55296 <=? c) && (c <=? 57343).

(** One code point; [None] where the strict codec raises [UnicodeEncodeError]. *)
Definition utf8_char (c : Z) : option bytes :=
  if (c <? 0) || surrogate c || (1114111 <? c) then None
  else if c <? 128 then Some [c]
  else if c <? 2048 then Some [192 + c / 64; 128 + c mod 64]
  else if c <? 65536 then Some [224 + c / 4096; 128 + c / 64 mod 64; 128 + c mod 64]
  else Some [240 + c / 262144; 128 + c / 4096 mod 64; 128 + c / 64 mod 64; 128 + c mod 64].

(** [str.encode()] *)
Fixpoint utf8 (t : text) : result exn bytes :=
  match t with
  | [] => Ok []
  | c :: t =>
      match utf8_char c with
      | Some b => rest ← utf8 t; Ok (b ++ rest)
      | None => Err (Other "UnicodeEncodeError")
      end
  end.

Definition is_cont (b : Z) : bool := (128 <=? b) && (b <? 192).

(** [bytes.decode("utf-8", "surrogatepass")]; [None] for [UnicodeDecodeError]. *)
Fixpoint utf8_decode (s : bytes) : option text :=
  match s with
  | [] => Some []
  | b0 :: s =>
      if b0 <? 128 then t ← utf8_decode s; Some (b0 :: t)
      else
        match s with
        | [] => None
        | b1 :: s =>
            if negb (is_cont b1) then None
            else if (194 <=? b0) && (b0 <? 224) then
              t ← utf8_decode s; Some (((b0 - 192) * 64 + (b1 - 128)) :: t)
            else
              match s with
              | [] => None
              | b2 :: s =>
                  if negb (is_cont b2) then None
                  else if (224 <=? b0) && (b0 <? 240) then
                    let c := (b0 - 224) * 4096 + (b1 - 128) * 64 + (b2 - 128) in
                    if c <? 2048 then None else t ← utf8_decode s; Some (c :: t)
                  else
                    match s with
                    | [] => None
                    | b3 :: s =>
                        let c := (b0 - 240) * 262144 + (b1 - 128) * 4096
                                 + (b2 - 128) * 64 + (b3 - 128) in
                        if negb (is_cont b3) || (b0 <? 240) || (c <? 65536) || (1114111 <? c)
                        then None else t ← utf8_decode s; Some (c :: t)
                    end
              end
        end
  end.

Lemma utf8_decode_char c b rest :
  utf8_char c = Some b → utf8_decode (b ++ rest) = t ← utf8_decode rest; Some (c :: t).
Proof.
  unfold utf8_char, surrogate.
  destruct ((c <? 0) || _ || _) eqn:E0; [done|]. unbool.
  destruct (c <? 128) eqn:E1; [intros [= <-]; cbn; by rewrite E1|].
  destruct (c <? 2048) eqn:E2; [|destruct (c <? 65536) eqn:E3]; intros [= <-];
    cbn [app utf8_decode]; unbool; unfold is_cont; ztest; try (repeat f_equal; dlia).
  all: destruct (utf8_decode rest); [cbn; do 2 f_equal; dlia|done].
Qed.

Lemma utf8_round_trip t b : utf8 t = Ok b → utf8_decode b = Some t.
Proof.
  revert b; induction t as [|c t IH]; intros b; cbn [utf8]; [by intros [= <-]|].
  destruct (utf8_char c) as [u|] eqn:Hc; [|done]. intros H. unresult.
  rewrite (utf8_decode_char c) by done. by erewrite IH.
Qed.

(** ** [json.dumps] *)

Fixpoint dec_digits (fuel : nat) (n : Z) : text :=
  match fuel with
  | O => []
  | S fuel => if n <? 10 then [48 + n] else dec_digits fuel (n / 10) ++ [48 + n mod 10]
  end.

(** [str(n)]; as many steps as binary digits are enough. *)
Definition nat_repr (n : Z) : text := dec_digits (S (Z.to_nat (Z.log2 n))) n.
Definition int_repr (n : Z) : text := if n <? 0 then 45 :: nat_repr (- n) else nat_repr n.

Definition hex_digit (n : Z) : Z := if n <? 10 then 48 + n else 87 + n.

Definition escape (c : Z) : text :=
  if c =? 34 then [92; 34] else if c =? 92 then [92; 92] else if c =? 10 then [92; 110]
  else if c =? 13 then [92; 114] else if c =? 9 then [92; 116] else if c =? 12 then [92; 102]
  else if c =? 8 then [92; 98]
  else if c <? 32 then [92; 117; 48; 48; hex_digit (c / 16); hex_digit (c mod 16)]
  else [c].

Definition quoted (t : text) : text := 34 :: flat_map escape t ++ [34].

(** How Python prints a float is left open; no envelope of the modelled modules
    holds one. *)
Class FloatRepr := { float_repr : Z → Z → text }.

Section Dumps.
Context `{FloatRepr}.

(** [_encode]: [json.dumps(event, ensure_ascii=False, separators=(",", ":"))]. *)
Fixpoint dumps (j : json) : text :=
  match j with
  | JNull => txt "null"
  | JBool b => if b then txt "true" else txt "false"
  | JInt n => int_repr n
  | JFloat m e => float_repr m e
  | JConstant t => t
  | JStr t => quoted t
  | JArr items => 91 :: join [44] (map dumps items) ++ [93]
  | JObj fields =>
      123 :: join [44] (map (λ kv, quoted kv.1 ++ 58 :: dumps kv.2) fields) ++ [125]
  end.
End Dumps.

(** ** [json.loads] *)

(** [DigitsError] is the plain [ValueError] of an integer with too many digits. *)
Inductive loads_error : Type := JSONDecodeError | DigitsError | RecursionError | OutOfFuel.

Definition ws (c : Z) : bool := (c =? 32) || (c =? 9) || (c =? 10) || (c =? 13).
Definition skip_ws (s : text) : text := drop_while ws s.

Definition hex_value (c : Z) : option Z :=
  if is_digit c then Some (c - 48)
  else if (97 <=? c) && (c <=? 102) then Some (c - 87)
  else if (65 <=? c) && (c <=? 70) then Some (c - 55)
  else None.

Definition hex4 (a b c d : Z) : option Z :=
  a ← hex_value a; b ← hex_value b; c ← hex_value c; d ← hex_value d;
  Some (a * 4096 + b * 256 + c * 16 + d).

Definition unescape (e : Z) : option Z :=
  if e =? 34 then Some 34 else if e =? 92 then Some 92 else if e =? 47 then Some 47
  else if e =? 98 then Some 8 else if e =? 102 then Some 12 else if e =? 110 then Some 10
  else if e =? 114 then Some 13 else if e =? 116 then Some 9 else None.

Definition high_surrogate (c : Z) : bool := (55296 <=? c) && (c <=? 56319).
Definition low_surrogate (c : Z) : bool := (56320 <=? c) && (c <=? 57343).

(** [scanstring], after the opening quote: the string and what follows it. *)
Fixpoint scan_string (s : text) : option (text * text) :=
  match s with
  | [] => None
  | c :: s =>
      if c =? 34 then Some ([], s)
      else if c <? 32 then None
      else if negb (c =? 92) then '(t, r) ← scan_string s; Some (c :: t, r)
      else
        match s with
        | [] => None
        | e :: s1 =>
            if negb (e =? 117) then
              v ← unescape e; '(t, r) ← scan_string s1; Some (v :: t, r)
            else
              match s1 with
              | a1 :: a2 :: a3 :: a4 :: s2 =>
                  u ← hex4 a1 a2 a3 a4;
                  match s2 with
                  | q :: p :: b1 :: b2 :: b3 :: b4 :: s3 =>
                      let low := if (q =? 92) && (p =? 117) then hex4 b1 b2 b3 b4 else None in
                      match low with
                      | Some l =>
                          if high_surrogate u && low_surrogate l then
                            '(t, r) ← scan_string s3;
                            Some (65536 + (u - 55296) * 1024 + (l - 56320) :: t, r)
                          else '(t, r) ← scan_string s2; Some (u :: t, r)
                      | None => '(t, r) ← scan_string s2; Some (u :: t, r)
                      end
                  | _ => '(t, r) ← scan_string s2; Some (u :: t, r)
                  end
              | _ => None
              end
        end
  end.

Fixpoint span_digits (s : text) : text * text :=
  match s with
  | c :: s' => if is_digit c then let '(d, r) := span_digits s' in (c :: d, r) else ([], s)
  | [] => ([], [])
  end.

(** [int(digits)] *)
Definition dec (t : text) : Z := foldl (λ n c, n * 10 + (c - 48)) 0 t.

(** The optional [.digits] and [e+digits] of a number. *)
Definition scan_frac (s : text) : text * text :=
  match s with
  | c :: r => if c =? 46 then match span_digits r with ([], _) => ([], s) | p => p end
              else ([], s)
  | [] => ([], s)
  end.

Definition scan_exp (s : text) : option Z * text :=
  match s with
  | c :: r =>
      if (c =? 101) || (c =? 69) then
        let '(neg, r1) := match r with
                          | x :: r' => if x =? 45 then (true, r')
                                       else if x =? 43 then (false, r') else (false, r)
                          | [] => (false, r)
                          end in
        match span_digits r1 with
        | ([], _) => (None, s)
        | (ds, r2) => (Some (if neg : bool then - dec ds else dec ds), r2)
        end
      else (None, s)
  | [] => (None, s)
  end.

(** [sys.get_int_max_str_digits()] *)
Definition INT_MAX_STR_DIGITS : nat := 4300%nat.

Definition scan_number (s : text) : result loads_error (json * text) :=
  let '(neg, s0) := match s with
                    | c :: r => if c =? 45 then (true, r) else (false, s)
                    | [] => (false, s) end in
  let '(ds, r) := match s0 with
                  | c :: r0 => if c =? 48 then ([48], r0) else span_digits s0
                  | [] => ([], s0) end in
  if bool_decide (ds = []) then Err JSONDecodeError
  else
    let sign n := if neg : bool then - n else n in
    let '(frac, r1) := scan_frac r in
    let '(ex, r2) := scan_exp r1 in
    if bool_decide (frac = []) && bool_decide (ex = None) then
      if bool_decide (INT_MAX_STR_DIGITS < length ds)%nat then Err DigitsError
      else Ok (JInt (sign (dec ds)), r)
    else Ok (JFloat (sign (dec (ds ++ frac))) (default 0 ex - len frac), r2).

Fixpoint strip_prefix (p s : text) : option text :=
  match p, s with
  | [], s => Some s
  | a :: p, b :: s => if a =? b then strip_prefix p s else None
  | _, [] => None
  end.

Definition literals : list (text * json) :=
  [(txt "null", JNull); (txt "true", JBool true); (txt "false", JBool false);
   (txt "NaN", JConstant (txt "NaN")); (txt "Infinity", JConstant (txt "Infinity"));
   (txt "-Infinity", JConstant (txt "-Infinity"))].

Fixpoint scan_literal (ls : list (text * json)) (s : text) : option (json * text) :=
  match ls with
  | [] => None
  | (p, j) :: ls =>
      match strip_prefix p s with Some r => Some (j, r) | None => scan_literal ls s end
  end.

Definition of_option {A} (o : option A) : result loads_error A :=
  match o with Some a => Ok a | None => Err JSONDecodeError end.

Definition expect (c : Z) (s : text) : result loads_error text :=
  match s with x :: r => if x =? c then Ok r else Err JSONDecodeError | [] => Err JSONDecodeError end.

(** The scanner.  [fuel] bounds the number of calls (see [loads]); [depth] is what
    is left of the interpreter's recursion limit. *)
Fixpoint scan_value (fuel depth : nat) (s : text) {struct fuel}
    : result loads_error (json * text) :=
  match fuel with
  | O => Err OutOfFuel
  | S fuel =>
      match s with
      | [] => Err JSONDecodeError
      | c :: r =>
          if c =? 34 then '(t, r) ← of_option (scan_string r); Ok (JStr t, r)
          else if c =? 123 then
            match depth with
            | O => Err RecursionError
            | S depth =>
                if is_ok (expect 125 (skip_ws r))
                then r ← expect 125 (skip_ws r); Ok (JObj [], r)
                else '(fs, r) ← scan_members fuel depth [] (skip_ws r); Ok (JObj fs, r)
            end
          else if c =? 91 then
            match depth with
            | O => Err RecursionError
            | S depth =>
                if is_ok (expect 93 (skip_ws r))
                then r ← expect 93 (skip_ws r); Ok (JArr [], r)
                else '(xs, r) ← scan_items fuel depth (skip_ws r); Ok (JArr xs, r)
            end
          else
            match scan_literal literals s with
            | Some jr => Ok jr
            | None => scan_number s
            end
      end
  end
with scan_items (fuel depth : nat) (s : text) {struct fuel}
    : result loads_error (list json * text) :=
  match fuel with
  | O => Err OutOfFuel
  | S fuel =>
      '(x, r) ← scan_value fuel depth s;
      match expect 93 (skip_ws r) with
      | Ok r => Ok ([x], r)
      | Err _ =>
          r ← expect 44 (skip_ws r);
          '(xs, r) ← scan_items fuel depth (skip_ws r);
          Ok (x :: xs, r)
      end
  end
with scan_members (fuel depth : nat) (acc : list (text * json)) (s : text) {struct fuel}
    : result loads_error (list (text * json) * text) :=
  match fuel with
  | O => Err OutOfFuel
  | S fuel =>
      r ← expect 34 s;
      '(k, r) ← of_option (scan_string r);
      r ← expect 58 (skip_ws r);
      '(v, r) ← scan_value fuel depth (skip_ws r);
      let acc := alist_set k v acc in
      match expect 125 (skip_ws r) with
      | Ok r => Ok (acc, r)
      | Err _ =>
          r ← expect 44 (skip_ws r);
          scan_members fuel depth acc (skip_ws r)
      end
  end.

(** What of the interpreter the decoder depends on: its recursion limit, and the
    UTF-16 and UTF-32 codecs [json.detect_encoding] may pick. *)
Class Interpreter := {
  recursion_limit : nat;
  wide_decode : bytes → option text
}.

(** [json.detect_encoding(b)] chose something other than UTF-8 without a mark. *)
Definition wide (b : bytes) : bool :=
  match b with
  | b0 :: b1 :: rest =>
      (negb (bool_decide (length b = 3%nat)) && ((b0 =? 0) || (b1 =? 0))) || ((b0 =? 255) && (b1 =? 254)) || ((b0 =? 254) && (b1 =? 255)) ||
      match rest with b2 :: _ => (b0 =? 239) && (b1 =? 187) && (b2 =? 191) | [] => false end
  | _ => false
  end.

(** What the publisher puts into the [ce] field. *)
Definition encode_event `{FloatRepr} (event : json) : result exn bytes := utf8 (dumps event).

Section Loads.
Context `{Interpreter}.

(** [json.loads] of a [str]. *)
Definition loads_text (s : text) : result loads_error json :=
  '(j, r) ← scan_value (2 * length s + 1)%nat recursion_limit (skip_ws s);
  if bool_decide (skip_ws r = []) then Ok j else Err JSONDecodeError.

(** [json.loads] of [bytes]; a [UnicodeDecodeError] is, like the others but the last two,
    a [ValueError]. *)
Definition loads (b : bytes) : result loads_error json :=
  t ← of_option (if wide b then wide_decode b else utf8_decode b);
  loads_text t.
End Loads.

(** ** The scanner stops: its fuel is enough *)

Lemma skip_ws_length s : (length (skip_ws s) ≤ length s)%nat.
Proof. apply drop_while_length. Qed.

Lemma scan_string_shorter n s t r :
  (length s ≤ n)%nat → scan_string s = Some (t, r) → (length r < length s)%nat.
Proof.
  revert s t r; induction n as [|n IH]; intros s t r Hn; destruct s as [|c s]; cbn in Hn; try lia;
    try done.
  cbn [scan_string].
  repeat (case_match; subst; cbn in Hn; try done; try (intros [= <- <-]; cbn; lia)).
  all: intros Hres;
    repeat (apply bind_Some in Hres as ([? ?] & Hrec & Hres)
            || apply bind_Some in Hres as (? & ? & Hres)).
  all: try (injection Hres as <- <-; apply IH in Hrec; cbn in *; lia).
  all: destruct (high_surrogate _ && _); apply bind_Some in Hres as ([? ?] & Hrec & Hres);
    injection Hres as <- <-; apply IH in Hrec; cbn in *; lia.
Qed.

Lemma of_option_Ok {A} (o : option A) a : of_option o = Ok a → o = Some a.
Proof. destruct o; cbn; congruence. Qed.

Lemma expect_Ok c s r : expect c s = Ok r → s = c :: r.
Proof. destruct s as [|x s]; cbn; [done|]. case_match; intros [= <-]. unbool. by subst. Qed.

Lemma strip_prefix_shorter p s r : strip_prefix p s = Some r → (length r + length p = length s)%nat.
Proof.
  revert s; induction p as [|a p IH]; intros [|b s]; cbn; try done; [by intros [= <-]..|].
  case_match; [|done]. intros Hr. apply IH in Hr. lia.
Qed.

Lemma scan_literal_from ls s j r :
  forallb (λ p, bool_decide (p.1 ≠ [])) ls = true →
  scan_literal ls s = Some (j, r) → (length r < length s)%nat.
Proof.
  induction ls as [|[p k] ls IH]; cbn; [done|]. intros [Hp%bool_decide_eq_true Hls]%andb_prop.
  destruct (strip_prefix p s) eqn:E; [|by apply IH]. intros [= <- <-].
  apply strip_prefix_shorter in E. destruct p; cbn in *; [done|lia].
Qed.

Lemma scan_literal_shorter s j r :
  scan_literal literals s = Some (j, r) → (length r < length s)%nat.
Proof. apply scan_literal_from. by vm_compute. Qed.

Lemma span_digits_length s ds r : span_digits s = (ds, r) → (length r + length ds = length s)%nat.
Proof.
  revert ds r; induction s as [|c s IH]; intros ds r; cbn; [by intros [= <- <-]|].
  destruct (is_digit c); [|by intros [= <- <-]].
  destruct (span_digits s) as [d r']. intros [= <- <-]. cbn. rewrite <- (IH d r') by done. lia.
Qed.

Lemma scan_number_shorter s j r : scan_number s = Ok (j, r) → (length r < length s)%nat.
Proof.
  unfold scan_number.
  destruct (match s with c :: r => if c =? 45 then (true, r) else (false, s)
            | [] => (false, s) end) as [neg s0] eqn:E0.
  assert (length s0 ≤ length s)%nat as H0
    by (destruct s as [|c s]; [|destruct (c =? 45)]; injection E0 as <- <-; cbn; lia).
  destruct (match s0 with c :: r0 => if c =? 48 then ([48], r0) else span_digits s0
            | [] => ([], s0) end) as [ds r1] eqn:E1.
  assert (length r1 + length ds = length s0)%nat as H1.
  { destruct s0 as [|c s0]; [by injection E1 as <- <-|].
    destruct (c =? 48); [injection E1 as <- <-; cbn; lia|]. by apply span_digits_length. }
  case_bool_decide as Hds; [done|]. assert (0 < length ds)%nat by (destruct ds; cbn; [done|lia]).
  destruct (scan_frac r1) as [frac r2] eqn:E2. destruct (scan_exp r2) as [ex r3] eqn:E3.
  assert (length r3 ≤ length r1)%nat as H3.
  { assert (length r2 ≤ length r1)%nat.
    { unfold scan_frac in E2. destruct r1 as [|c r1]; [by injection E2 as <- <-|].
      destruct (c =? 46); [|by injection E2 as <- <-].
      destruct (span_digits r1) as [[|d ds'] r'] eqn:E; injection E2 as <- <-; [done|].
      apply span_digits_length in E. cbn in *. lia. }
    unfold scan_exp in E3. destruct r2 as [|c r2]; [by injection E3 as <- <-|].
    destruct (_ || _); [|by injection E3 as <- <-].
    destruct (match r2 with x :: r' => _ | [] => _ end) as [ng r4] eqn:E4.
    assert (length r4 ≤ length r2)%nat.
    { destruct r2 as [|x r2]; [by injection E4 as <- <-|].
      destruct (x =? 45); [|destruct (x =? 43)]; injection E4 as <- <-; cbn; lia. }
    destruct (span_digits r4) as [[|d ds'] r'] eqn:E; injection E3 as <- <-; [done|].
    apply span_digits_length in E. cbn in *. lia. }
  repeat case_match; intros [= <- <-]; lia.
Qed.

(** Every call either consumes text or fails for a reason of its own. *)
Definition scans (fuel : nat) : Prop :=
  (∀ d s r, scan_value fuel d s = r → (2 * length s + 1 ≤ fuel)%nat →
     match r with Ok (_, r) => (length r < length s)%nat | Err e => e ≠ OutOfFuel end) ∧
  (∀ d s r, scan_items fuel d s = r → (2 * length s + 2 ≤ fuel)%nat →
     match r with Ok (_, r) => (length r < length s)%nat | Err e => e ≠ OutOfFuel end) ∧
  (∀ d acc s r, scan_members fuel d acc s = r → (2 * length s + 2 ≤ fuel)%nat →
     match r with Ok (_, r) => (length r < length s)%nat | Err e => e ≠ OutOfFuel end).

Ltac scan_step :=
  match goal with
  | H : of_option _ = Ok _ |- _ => apply of_option_Ok, (scan_string_shorter _ _ _ _ (le_n _)) in H
  | H : expect _ _ = Ok ?r |- _ => apply expect_Ok in H
  | H : of_option _ = Err ?e |- ?e ≠ _ => destruct (scan_string _); cbn in H; congruence
  | H : expect _ ?s = Err ?e |- ?e ≠ _ =>
      destruct s as [|? ?]; cbn in H; [|case_match]; congruence
  end.

Lemma scan_literal_number s r :
  (match scan_literal literals s with Some jr => Ok jr | None => scan_number s end) = r →
  match r with Ok (_, r) => (length r < length s)%nat | Err e => e ≠ OutOfFuel end.
Proof.
  destruct (scan_literal literals s) as [[j r0]|] eqn:E.
  - intros <-. by eapply scan_literal_shorter.
  - intros <-. destruct (scan_number s) as [[j r0]|e] eqn:En; [by eapply scan_number_shorter|].
    intros ->. unfold scan_number in En. repeat case_match; done.
Qed.

Lemma scanner_stops fuel : scans fuel.
Proof.
  induction fuel as [|fuel (IHv & IHi & IHm)]; [by repeat split; intros; lia|].
  split; [|split].
  - intros d s r Hr Hf. destruct s as [|c s]; cbn [scan_value] in Hr; [by subst|]. cbn in Hf.
    pose proof (skip_ws_length s).
    destruct (c =? 34).
    { subst r. destruct (scan_string s) as [[t r]|] eqn:E; cbn; [|done].
      apply (scan_string_shorter _ _ _ _ (le_n _)) in E. lia. }
    destruct (c =? 123); [|destruct (c =? 91); [|by apply scan_literal_number]].
    + destruct d as [|d]; [by subst|].
      destruct (expect 125 (skip_ws s)) as [r1|e0] eqn:E; cbn [is_ok] in Hr.
      { subst r. cbn. apply expect_Ok in E. rewrite E in *. cbn in *. lia. }
      destruct (scan_members fuel d [] (skip_ws s)) as [[xs r1]|e] eqn:E1; subst r; cbn;
        apply IHm in E1; try lia; done.
    + destruct d as [|d]; [by subst|].
      destruct (expect 93 (skip_ws s)) as [r1|e0] eqn:E; cbn [is_ok] in Hr.
      { subst r. cbn. apply expect_Ok in E. rewrite E in *. cbn in *. lia. }
      destruct (scan_items fuel d (skip_ws s)) as [[xs r1]|e] eqn:E1; subst r; cbn;
        apply IHi in E1; try lia; done.
  - intros d s r Hr Hf. cbn [scan_items] in Hr.
    destruct (scan_value fuel d s) as [[x r1]|e] eqn:Ev; apply IHv in Ev; [|lia|by subst|lia].
    cbn in Hr. pose proof (skip_ws_length r1).
    destruct (expect 93 (skip_ws r1)) as [r2|e0] eqn:E; [apply expect_Ok in E|].
    { subst r. rewrite E in *. cbn in *. lia. }
    destruct (expect 44 (skip_ws r1)) as [r2|e1] eqn:E2; [|subst r; cbn; scan_step].
    apply expect_Ok in E2. rewrite E2 in *. cbn in *. pose proof (skip_ws_length r2).
    destruct (scan_items fuel d (skip_ws r2)) as [[xs r3]|e] eqn:E3; subst r; cbn;
      apply IHi in E3; try lia; done.
  - intros d acc s r Hr Hf. cbn [scan_members] in Hr.
    destruct (expect 34 s) as [s1|] eqn:E0; [apply expect_Ok in E0|subst r; cbn; scan_step].
    cbn in Hr. destruct (scan_string s1) as [[k s2]|] eqn:Ek; [|by subst r].
    apply (scan_string_shorter _ _ _ _ (le_n _)) in Ek. cbn in Hr.
    pose proof (skip_ws_length s2).
    destruct (expect 58 (skip_ws s2)) as [s3|] eqn:E1; [apply expect_Ok in E1|subst r; cbn; scan_step].
    cbn in Hr. pose proof (skip_ws_length s3). rewrite E0, E1 in *. cbn in *.
    destruct (scan_value fuel d (skip_ws s3)) as [[x r1]|e] eqn:Ev; apply IHv in Ev; [|lia|by subst|lia].
    cbn in Hr. pose proof (skip_ws_length r1).
    destruct (expect 125 (skip_ws r1)) as [r2|e0] eqn:E; [apply expect_Ok in E|].
    { subst r. rewrite E in *. cbn in *. lia. }
    destruct (expect 44 (skip_ws r1)) as [r2|e1] eqn:E2; [|subst r; cbn; scan_step].
    apply expect_Ok in E2. rewrite E2 in *. cbn in *. pose proof (skip_ws_length r2).
    apply IHm in Hr; [|lia]. destruct r as [[xs r3]|e3]; [lia|done].
Qed.

(** ** What is printed is read back *)

Lemma dec_snoc t c : dec (t ++ [c]) = dec t * 10 + (c - 48).
Proof. unfold dec. by rewrite foldl_app. Qed.

Lemma dec_digits_spec fuel n :
  0 ≤ n → n < 2 ^ Z.of_nat fuel → fuel ≠ O →
  dec (dec_digits fuel n) = n ∧ Forall (λ c, is_digit c = true) (dec_digits fuel n) ∧
  ∃ c r, dec_digits fuel n = c :: r ∧ (c = 48 → n = 0 ∧ r = []).
Proof.
  revert n; induction fuel as [|fuel IH]; intros n H0 Hn Hfuel; [done|].
  rewrite Nat2Z.inj_succ, Z.pow_succ_r in Hn by lia. cbn [dec_digits].
  destruct (n <? 10) eqn:E; unbool.
  - split; [unfold dec; cbn; lia|]. split.
    + constructor; [|constructor]. unfold is_digit. apply andb_true_intro. split; lia.
    + eexists _, _. split; [done|]. intros; split; [lia|done].
  - destruct (IH (n / 10)) as (Hd & Hall & c & r & Heq & Hc); [dlia|dlia|..].
    { intros ->. change (2 * 1) with 2 in Hn. lia. }
    split; [rewrite dec_snoc, Hd; dlia|]. split.
    + apply Forall_app. split; [done|]. constructor; [|constructor].
      unfold is_digit. apply andb_true_intro. split; dlia.
    + rewrite Heq. exists c, (r ++ [48 + n mod 10]). split; [done|].
      intros ->. destruct Hc as [Hz _]; [done|]. dlia.
Qed.

Lemma nat_repr_spec n :
  0 ≤ n →
  dec (nat_repr n) = n ∧ Forall (λ c, is_digit c = true) (nat_repr n) ∧
  ∃ c r, nat_repr n = c :: r ∧ (c = 48 → n = 0 ∧ r = []).
Proof.
  intros Hn. apply dec_digits_spec; [done| |done]. destruct (decide (n = 0)) as [->|]; [done|].
  rewrite Nat2Z.inj_succ, Z2Nat.id by apply Z.log2_nonneg. apply Z.log2_spec. lia.
Qed.

(** What may follow a number: not another character of it. *)
Definition ends_number (rest : text) : Prop :=
  match rest with
  | c :: _ => is_digit c = false ∧ c ≠ 46 ∧ c ≠ 101 ∧ c ≠ 69
  | [] => True
  end.

Lemma span_digits_app ds rest :
  Forall (λ c, is_digit c = true) ds → ends_number rest → span_digits (ds ++ rest) = (ds, rest).
Proof.
  intros Hds Hr. induction Hds as [|c ds Hc Hds IH].
  - destruct rest as [|c rest]; [done|]. cbn. destruct Hr as [Hc _]. by rewrite Hc.
  - cbn. by rewrite Hc, IH.
Qed.

Lemma scan_frac_none rest : ends_number rest → scan_frac rest = ([], rest).
Proof. destruct rest as [|c rest]; cbn; [done|]. intros (_ & ? & _). by rewrite (proj2 (Z.eqb_neq c 46)). Qed.

Lemma scan_exp_none rest : ends_number rest → scan_exp rest = (None, rest).
Proof.
  destruct rest as [|c rest]; cbn; [done|]. intros (_ & _ & ? & ?).
  by rewrite (proj2 (Z.eqb_neq c 101)), (proj2 (Z.eqb_neq c 69)) by done.
Qed.

Definition int_fits (n : Z) : bool :=
  bool_decide (length (nat_repr (Z.abs n)) ≤ INT_MAX_STR_DIGITS)%nat.

Lemma scan_number_digits (neg : bool) n rest :
  0 ≤ n → int_fits n = true → ends_number rest →
  scan_number ((if neg then [45] else []) ++ nat_repr n ++ rest) =
  Ok (JInt (if neg then - n else n), rest).
Proof.
  intros Hn Hfit Hr. destruct (nat_repr_spec n Hn) as (Hdec & Hall & c & r & Heq & Hc).
  unfold int_fits in Hfit. rewrite Z.abs_eq in Hfit by done. apply bool_decide_eq_true in Hfit.
  assert (is_digit c = true) as Hd by (rewrite Heq in Hall; by inversion Hall).
  assert (48 ≤ c ≤ 57) by (unfold is_digit in Hd; unbool; lia).
  unfold scan_number.
  assert (match (if neg then [45] else []) ++ nat_repr n ++ rest with
          | c :: r => if c =? 45 then (true, r) else (false, (if neg then [45] else []) ++ nat_repr n ++ rest)
          | [] => (false, (if neg then [45] else []) ++ nat_repr n ++ rest) end = (neg, nat_repr n ++ rest)) as ->.
  { destruct neg; [done|]. rewrite Heq. cbn. by rewrite (proj2 (Z.eqb_neq c 45)) by lia. }
  assert (match nat_repr n ++ rest with
          | c :: r0 => if c =? 48 then ([48], r0) else span_digits (nat_repr n ++ rest)
          | [] => ([], nat_repr n ++ rest) end = (nat_repr n, rest)) as ->.
  { rewrite <- (span_digits_app _ rest Hall Hr). rewrite Heq. cbn [app].
    destruct (c =? 48) eqn:E; [|done]. apply Z.eqb_eq in E as ->.
    destruct Hc as [_ ->]; [done|]. cbn [app]. symmetry. apply (span_digits_app [48] rest); [by repeat constructor|done]. }
  rewrite bool_decide_false by (by rewrite Heq).
  rewrite scan_frac_none, scan_exp_none by done. cbn [andb].
  rewrite !bool_decide_true by done. cbn [andb]. rewrite bool_decide_false by lia.
  by rewrite Hdec.
Qed.

Lemma hex_value_digit n : 0 ≤ n < 16 → hex_value (hex_digit n) = Some n.
Proof.
  intros Hn. unfold hex_digit, hex_value, is_digit. destruct (n <? 10) eqn:E; unbool; ztest;
    f_equal; lia.
Qed.

Lemma scan_string_control (c : Z) (s t r : text) :
  0 ≤ c < 32 → scan_string s = Some (t, r) →
  scan_string (92 :: 117 :: 48 :: 48 :: hex_digit (c / 16) :: hex_digit (c mod 16) :: s) =
  Some (c :: t, r).
Proof.
  intros Hc Hs. cbn -[hex4].
  assert (hex4 48 48 (hex_digit (c / 16)) (hex_digit (c mod 16)) = Some c) as ->.
  { unfold hex4. rewrite !hex_value_digit by dlia. cbn. f_equal. dlia. }
  cbn -[hex4]. rewrite Hs. cbn -[hex4].
  destruct s as [|q [|p [|b1 [|b2 [|b3 [|b4 s]]]]]]; try done.
  case_match; [|done].
  unfold high_surrogate. by ztest.
Qed.

Lemma scan_string_quoted t rest :
  forallb (λ c, 0 <=? c) t = true → scan_string (flat_map escape t ++ 34 :: rest) = Some (t, rest).
Proof.
  induction t as [|c t IH]; cbn [flat_map forallb]; [done|]. intros [Hc Ht]%andb_prop. unbool.
  rewrite <- app_assoc. specialize (IH Ht). revert IH.
  generalize (flat_map escape t ++ 34 :: rest). intros s Hs. unfold escape.
  do 7 (case_match; [unbool; subst; cbn; by rewrite Hs|]).
  case_match; unbool; [by apply scan_string_control|].
  cbn [app scan_string]. rewrite (proj2 (Z.eqb_neq c 34)), (proj2 (Z.eqb_neq c 92)) by done.
  ztest. by rewrite Hs.
Qed.

Section RoundTrip.
Context `{FloatRepr, Interpreter}.

(** The values the round trip is about: no floats, code points, integers Python
    prints at all, and the distinct keys of a dict. *)
Fixpoint plain (j : json) : bool :=
  match j with
  | JNull | JBool _ => true
  | JInt n => int_fits n
  | JFloat _ _ | JConstant _ => false
  | JStr t => forallb (λ c, 0 <=? c) t
  | JArr items => forallb plain items
  | JObj fields =>
      bool_decide (NoDup fields.*1) &&
      forallb (λ kv, forallb (λ c, 0 <=? c) kv.1 && plain kv.2) fields
  end.

Fixpoint nesting (j : json) : nat :=
  match j with
  | JArr items => S (foldr (λ x, max (nesting x)) O items)
  | JObj fields => S (foldr (λ kv, max (nesting kv.2)) O fields)
  | _ => O
  end.
End RoundTrip.

Section JsonInd.
Variable P : json → Prop.
Hypothesis HNull : P JNull.
Hypothesis HBool : ∀ b, P (JBool b).
Hypothesis HInt : ∀ n, P (JInt n).
Hypothesis HFloat : ∀ m e, P (JFloat m e).
Hypothesis HConstant : ∀ t, P (JConstant t).
Hypothesis HStr : ∀ t, P (JStr t).
Hypothesis HArr : ∀ items, Forall P items → P (JArr items).
Hypothesis HObj : ∀ fields, Forall (λ kv, P kv.2) fields → P (JObj fields).

Fixpoint json_nested_ind (j : json) : P j :=
  match j with
  | JNull => HNull
  | JBool b => HBool b
  | JInt n => HInt n
  | JFloat m e => HFloat m e
  | JConstant t => HConstant t
  | JStr t => HStr t
  | JArr items =>
      HArr items ((fix go l : Forall P l :=
        match l with [] => List.Forall_nil _ | x :: l => List.Forall_cons _ x l (json_nested_ind x) (go l) end) items)
  | JObj fields =>
      HObj fields ((fix go l : Forall (λ kv, P kv.2) l :=
        match l with
        | [] => List.Forall_nil _
        | kv :: l => List.Forall_cons _ kv l (json_nested_ind kv.2) (go l)
        end) fields)
  end.
End JsonInd.

Lemma scan_literal_digits (neg : bool) c s :
  48 ≤ c ≤ 57 → scan_literal literals ((if neg then [45] else []) ++ c :: s) = None.
Proof.
  intros Hc. unfold literals.
  change (txt "null") with [110; 117; 108; 108]. change (txt "true") with [116; 114; 117; 101].
  change (txt "false") with [102; 97; 108; 115; 101]. change (txt "NaN") with [78; 97; 78].
  change (txt "Infinity") with [73; 110; 102; 105; 110; 105; 116; 121].
  change (txt "-Infinity") with [45; 73; 110; 102; 105; 110; 105; 116; 121].
  destruct neg; cbn [scan_literal strip_prefix app]; ztest; done.
Qed.

Section Reads.
Context `{FloatRepr, Interpreter}.

(** The scanner reads [j] back from what [dumps] printed for it. *)
Definition reads (j : json) : Prop :=
  ∀ fuel d rest,
    plain j = true → (nesting j ≤ d)%nat → (2 * length (dumps j ++ rest) + 1 ≤ fuel)%nat →
    ends_number rest → scan_value fuel d (dumps j ++ rest) = Ok (j, rest).

Lemma skip_ws_id c s : ws c = false → skip_ws (c :: s) = c :: s.
Proof. intros Hc. apply drop_while_id. by intros ? ? [= <- <-]. Qed.

Lemma int_repr_split n :
  ∃ (neg : bool) c s, int_repr n = (if neg then [45] else []) ++ c :: s ∧ 48 ≤ c ≤ 57 ∧
    c :: s = nat_repr (Z.abs n) ∧ n = if neg then - Z.abs n else Z.abs n.
Proof.
  destruct (nat_repr_spec (Z.abs n) (Z.abs_nonneg n)) as (_ & Hall & c & r & Heq & _).
  assert (48 ≤ c ≤ 57).
  { rewrite Heq in Hall. inversion Hall as [|? ? Hd]. unfold is_digit in Hd. unbool. lia. }
  unfold int_repr. exists (n <? 0), c, r. destruct (n <? 0) eqn:E; unbool.
  - rewrite <- Heq, Z.abs_neq by lia. split_and!; [done|lia..|done|lia].
  - rewrite <- Heq, Z.abs_eq by lia. done.
Qed.

Lemma dumps_head j : plain j = true →
  ∃ c s, dumps j = c :: s ∧ ws c = false ∧ c ≠ 93 ∧ c ≠ 125.
Proof.
  destruct j as [|[]|n|m e|t|t|items|fields]; cbn [plain dumps]; try done; intros _.
  all: try (eexists _, _; split; [reflexivity|done]).
  destruct (int_repr_split n) as (neg & c & s & -> & Hc & _).
  destruct neg; eexists _, _; (split; [reflexivity|]); [done|].
  unfold ws. ztest. split_and!; [done|lia..].
Qed.

Lemma read_int n : reads (JInt n).
Proof.
  intros fuel d rest Hfit _ Hf Hr. destruct fuel as [|fuel]; [lia|]. cbn [dumps plain] in *.
  destruct (int_repr_split n) as (neg & c & s & Hrep & Hc & Hs & Hn).
  assert (scan_value (S fuel) d (int_repr n ++ rest) = scan_number (int_repr n ++ rest)) as ->.
  { rewrite Hrep, <- app_assoc. cbn [app].
    pose proof (scan_literal_digits neg c (s ++ rest) Hc) as Hl.
    destruct neg; cbn [app] in *; cbn [scan_value]; rewrite Hl; by ztest. }
  rewrite Hrep, <- app_assoc, Hs, scan_number_digits; [by rewrite <- Hn|lia| |done].
  unfold int_fits in *. by rewrite Z.abs_idemp.
Qed.

Lemma read_items items : items ≠ [] → Forall reads items →
  ∀ fuel d rest, forallb plain items = true →
    (foldr (λ x, max (nesting x)) O items ≤ d)%nat →
    (2 * length (join [44%Z] (map dumps items) ++ 93%Z :: rest) + 2 ≤ fuel)%nat →
    scan_items fuel d (join [44] (map dumps items) ++ 93 :: rest) = Ok (items, rest).
Proof.
  intros Hne Hall. induction Hall as [|x items Hx Hall IH]; [done|].
  intros fuel d rest Hp Hd Hf. cbn [forallb foldr] in *. apply andb_prop in Hp as [Hp Hps].
  destruct fuel as [|fuel]; [lia|]. cbn [scan_items].
  destruct items as [|y items].
  - cbn [map join] in *. rewrite Hx by (try done; lia). cbn [mbind result_bind].
    by rewrite skip_ws_id.
  - cbn [map] in *. change (join [44] (dumps x :: dumps y :: map dumps items))
      with (dumps x ++ 44 :: join [44] (map dumps (y :: items))) in *.
    rewrite <- app_assoc in *. cbn [app] in *.
    rewrite Hx by (try done; lia). cbn [mbind result_bind]. rewrite skip_ws_id by done.
    cbn [expect]. change (44 =? 93) with false. change (44 =? 44) with true.
    cbn [mbind result_bind].
    assert (∃ c s, join [44] (map dumps (y :: items)) ++ 93 :: rest = c :: s ∧ ws c = false)
      as (c & s & Hcs & Hc).
    { cbn [forallb] in Hps. apply andb_prop in Hps as [Hy _].
      destruct (dumps_head y Hy) as (c & s & Hcs & Hc & _).
      destruct items; cbn [map join]; rewrite Hcs; cbn [app]; eauto. }
    rewrite Hcs, skip_ws_id, <- Hcs by done.
    rewrite IH; [done|done|done|lia|].
    rewrite length_app in Hf. cbn [length map] in Hf. lia.
Qed.

Definition member (kv : text * json) : text := quoted kv.1 ++ 58 :: dumps kv.2.

Lemma member_quote kv : member kv = 34 :: flat_map escape kv.1 ++ 34 :: 58 :: dumps kv.2.
Proof. unfold member, quoted. cbn [app]. by rewrite <- app_assoc. Qed.

Lemma read_members fields : fields ≠ [] → Forall (λ kv, reads kv.2) fields →
  ∀ fuel d acc rest,
    forallb (λ kv, forallb (λ c, 0 <=? c)%Z kv.1 && plain kv.2) fields = true →
    NoDup (acc ++ fields).*1 →
    (foldr (λ kv, max (nesting kv.2)) O fields ≤ d)%nat →
    (2 * length (join [44%Z] (map member fields) ++ 125%Z :: rest) + 2 ≤ fuel)%nat →
    scan_members fuel d acc (join [44] (map member fields) ++ 125 :: rest) =
    Ok (acc ++ fields, rest).
Proof.
  intros Hne Hall. induction Hall as [|[k v] fields Hv Hall IH]; [done|].
  intros fuel d acc rest Hp Hnd Hd Hf. cbn [forallb foldr fst snd] in *.
  apply andb_prop in Hp as [[Hk Hp]%andb_prop Hps].
  destruct fuel as [|fuel]; [lia|]. cbn [scan_members].
  assert (k ∉ acc.*1) as Hfresh.
  { rewrite fmap_app, NoDup_app in Hnd. destruct Hnd as (_ & Hdisj & _).
    intros Hin. apply (Hdisj k Hin). cbn. left. }
  assert (∃ tail, join [44] (map member ((k, v) :: fields)) ++ 125 :: rest
      = member (k, v) ++ tail ∧ ends_number tail ∧
      (fields = [] ∧ tail = 125 :: rest ∨
       fields ≠ [] ∧ tail = 44 :: join [44] (map member fields) ++ 125 :: rest))
    as (tail & Htail & Hend & Hcase).
  { destruct fields as [|kv fields].
    - eexists. split; [reflexivity|]. split; [done|]. by left.
    - exists (44 :: join [44] (map member (kv :: fields)) ++ 125 :: rest).
      split; [cbn [map join]; by rewrite <- !app_assoc|]. split; [done|]. by right. }
  rewrite Htail in *. rewrite member_quote in *. cbn [app fst snd] in *.
  rewrite <- app_assoc in *. cbn [app] in *.
  cbn [expect]. change (34 =? 34) with true. cbn [mbind result_bind].
  rewrite scan_string_quoted by done. cbn [of_option mbind result_bind].
  rewrite skip_ws_id by done. cbn [expect]. change (58 =? 58) with true. cbn [mbind result_bind].
  destruct (dumps_head v Hp) as (c & s & Hcs & Hws & _).
  assert (skip_ws (dumps v ++ tail) = dumps v ++ tail) as ->
    by (rewrite Hcs; cbn [app]; by apply skip_ws_id).
  cbn [length] in Hf. rewrite length_app in Hf. cbn [length] in Hf.
  rewrite Hv by (try done; lia). cbn [mbind result_bind]. rewrite alist_set_app by done.
  destruct Hcase as [[-> ->]|[Hfs ->]].
  - by rewrite skip_ws_id.
  - rewrite skip_ws_id by done. cbn [expect]. change (44 =? 125) with false.
    change (44 =? 44) with true. cbn [mbind result_bind].
    assert (∃ s, join [44] (map member fields) ++ 125 :: rest = 34 :: s) as [s' Hs'].
    { destruct fields as [|kv [|kv' fields]]; [done|..]; cbn [map join];
        rewrite (member_quote kv); cbn [app]; eauto. }
    rewrite Hs', skip_ws_id, <- Hs' by done.
    rewrite IH; [by rewrite <- app_assoc|done|done|by rewrite <- app_assoc|lia|].
    rewrite length_app in Hf. cbn [length] in Hf. lia.
Qed.

Lemma reads_all j : reads j.
Proof.
  induction j using json_nested_ind; try (intros fuel d rest Hp; done).
  - intros [|fuel] d rest _ _ Hf _; [lia|done].
  - intros [|fuel] d rest _ _ Hf _; [lia|by destruct b].
  - apply read_int.
  - intros [|fuel] d rest Hp _ Hf _; [lia|]. cbn [dumps plain scan_value] in *.
    unfold quoted. cbn [app]. rewrite <- app_assoc. cbn [app scan_value].
    change (34 =? 34) with true. by rewrite scan_string_quoted.
  - intros [|fuel] [|d] rest Hp Hd Hf _; [lia..|cbn [nesting] in Hd; lia|].
    cbn [dumps plain nesting] in *. cbn [app] in *. rewrite <- app_assoc in *. cbn [app] in *.
    cbn [scan_value]. change (91 =? 34) with false. change (91 =? 123) with false.
    change (91 =? 91) with true. destruct items as [|x items].
    { cbn [map join app]. by rewrite skip_ws_id. }
    assert (∃ c s, join [44] (map dumps (x :: items)) ++ 93 :: rest = c :: s ∧ ws c = false ∧ c ≠ 93)
      as (c & s & Hcs & Hc & Hne).
    { cbn [forallb] in Hp. apply andb_prop in Hp as [Hy _].
      destruct (dumps_head x Hy) as (c & s & Hcs & Hc & Hne & _).
      destruct items; cbn [map join]; rewrite Hcs; cbn [app]; eauto 6. }
    rewrite Hcs, skip_ws_id by done. cbn [expect]. rewrite (proj2 (Z.eqb_neq c 93)) by done.
    cbn [is_ok]. rewrite <- Hcs. cbn [length] in Hf. by rewrite read_items by (try done; lia).
  - intros [|fuel] [|d] rest Hp Hd Hf _; [lia..|cbn [nesting] in Hd; lia|].
    cbn [dumps plain nesting] in *. apply andb_prop in Hp as [Hnd Hp]. unbool.
    cbn [app] in *. rewrite <- app_assoc in *. cbn [app] in *.
    cbn [scan_value]. change (123 =? 34) with false. change (123 =? 123) with true.
    destruct fields as [|kv fields].
    { cbn [map join app]. by rewrite skip_ws_id. }
    change (map (λ kv, quoted kv.1 ++ 58 :: dumps kv.2) (kv :: fields)) with (map member (kv :: fields)) in *.
    assert (∃ s, join [44] (map member (kv :: fields)) ++ 125 :: rest = 34 :: s) as [s' Hs'].
    { destruct fields as [|kv' fields]; cbn [map join]; rewrite (member_quote kv); cbn [app]; eauto. }
    rewrite Hs', skip_ws_id by done. cbn [expect]. change (34 =? 125) with false.
    cbn [is_ok]. rewrite <- Hs'. cbn [length] in Hf. by rewrite read_members by (try done; lia).
Qed.
End Reads.

Lemma utf8_ascii c t b : 0 ≤ c < 128 → utf8 (c :: t) = Ok b → ∃ b', b = c :: b' ∧ utf8 t = Ok b'.
Proof.
  intros Hc. cbn [utf8]. unfold utf8_char, surrogate. ztest. intros H. unresult. eauto.
Qed.

Section Published.
Context `{FloatRepr, Interpreter}.

(** For every sequence of bytes [json.loads] either returns a value or raises a
    [ValueError] or a [RecursionError]: the scanner's fuel never runs out. *)
Lemma loads_total b : loads b ≠ Err OutOfFuel.
Proof.
  unfold loads, loads_text. destruct (if wide b then _ else _) as [t|]; cbn; [|done].
  pose proof (skip_ws_length t).
  destruct (scan_value _ _ (skip_ws t)) as [[j r]|e] eqn:E; cbn.
  - by case_bool_decide.
  - intros [= ->]. apply scanner_stops in E; [done|lia].
Qed.

(** C9: What the relay publishes is what the engine reads: an envelope encoded for the
    [ce] field decodes to the same envelope, if it nests within the interpreter's
    recursion limit, its keys are distinct and it holds no float. *)
Theorem published_event_decodes fields b :
  plain (JObj fields) = true → (nesting (JObj fields) ≤ recursion_limit)%nat →
  encode_event (JObj fields) = Ok b → loads b = Ok (JObj fields).
Proof.
  intros Hp Hd Hb. unfold loads. assert (wide b = false) as ->.
  { unfold encode_event in Hb. cbn [dumps] in Hb. apply utf8_ascii in Hb as (b' & -> & Hb); [|lia].
    assert (∃ c t, (34 = c ∨ 125 = c) ∧
      join [44] (map (λ kv, quoted kv.1 ++ 58 :: dumps kv.2) fields) ++ [125] = c :: t)
      as (c & t & Hc & Hct).
    { destruct fields as [|kv [|kv' fields]]; cbn [map join app]; [by eauto..|];
        unfold quoted; cbn [app]; eauto. }
    rewrite Hct in Hb. apply utf8_ascii in Hb as (b'' & -> & _); [|lia].
    unfold wide. assert (c =? 0 = false) as -> by lia. assert (c =? 254 = false) as -> by lia.
    assert (c =? 187 = false) as -> by lia. cbn. rewrite andb_false_r. cbn.
    by destruct b''. }
  rewrite (utf8_round_trip _ _ Hb). cbn [of_option mbind result_bind]. unfold loads_text.
  destruct (dumps_head _ Hp) as (c & s & Hcs & Hws & _).
  rewrite Hcs, (skip_ws_id _ _ Hws), <- Hcs.
  rewrite <- (app_nil_r (dumps (JObj fields))) at 2.
  rewrite reads_all by (try done; rewrite app_nil_r; lia). done.
Qed.
End Published.

#[local] Instance demo_floats : FloatRepr := {| float_repr _ _ := [48] |}.
#[local] Instance demo_interpreter : Interpreter :=
  {| recursion_limit := 1000; wide_decode _ := None |}.

Definition demo_envelope : list (text * json) :=
  [(txt "id", JStr [1610; 34; 10; 128512]); (txt "data", JArr [JInt (-40); JObj []; JNull])].

Lemma published_event_witness :
  ∃ b, encode_event (JObj demo_envelope) = Ok b ∧ loads b = Ok (JObj demo_envelope).
Proof.
  exists (unwrap [] (encode_event (JObj demo_envelope))).
  assert (encode_event (JObj demo_envelope) = Ok (unwrap [] (encode_event (JObj demo_envelope))))
    as Hb by (apply unwrap_Ok; by vm_compute).
  split; [exact Hb|].
  apply published_event_decodes; [by vm_compute|cbn; lia|exact Hb].
Defined.

Example loads_escapes :
  loads [123; 34; 92; 117; 100; 56; 51; 100; 92; 117; 100; 101; 48; 48; 34; 58; 32; 49; 46; 53; 125]
  = Ok (JObj [([128512], JFloat 15 (-1))]).
Proof. vm_compute. reflexivity. Qed.
