(* ===== verification/Cursor.v ===== *)
(** * Cursor: the opaque text around a keyset position

    The two codecs of [framework/pagination.py], over what they use of Python's standard
    library: base64 with the URL-safe alphabet, strict decoding, UTF-8 and [int]. *)

From S2P Require Import Prelude Text Calendar Errors Framework Files Events Wire.

Open Scope Z_scope.

(** ** base64 *)

(** The URL-safe alphabet. *)
Definition b64_char (v : Z) : Z :=
  if v <? 26 then 65 + v else if v <? 52 then 71 + v else if v <? 62 then v - 4
  else if v =? 62 then 45 else 95.

(** What strict decoding reads: [altchars] maps [-] and [_] onto the standard [+] and
    [/], which stay readable. *)
Definition b64_value (c : Z) : option Z :=
  if (65 <=? c) && (c <=? 90) then Some (c - 65)
  else if (97 <=? c) && (c <=? 122) then Some (c - 71)
  else if (48 <=? c) && (c <=? 57) then Some (c + 4)
  else if (c =? 45) || (c =? 43) then Some 62
  else if (c =? 95) || (c =? 47) then Some 63
  else None.

(** [base64.urlsafe_b64encode] *)
Fixpoint urlsafe_b64encode (b : bytes) : text :=
  match b with
  | [] => []
  | [x] => [b64_char (x / 4); b64_char (x mod 4 * 16); 61; 61]
  | [x; y] => [b64_char (x / 4); b64_char (x mod 4 * 16 + y / 16); b64_char (y mod 16 * 4); 61]
  | x :: y :: z :: b =>
      b64_char (x / 4) :: b64_char (x mod 4 * 16 + y / 16) :: b64_char (y mod 16 * 4 + z / 64) ::
      b64_char (z mod 64) :: urlsafe_b64encode b
  end.

(** [binascii.a2b_base64(s, strict_mode=True)] after its first check: the place in the
    group of four, the bits left over, and the padding read so far. *)
Fixpoint a2b (quad left pads : Z) (padding : bool) (s : bytes) : option bytes :=
  match s with
  | [] => if quad =? 0 then Some [] else None
  | c :: s =>
      if c =? 61 then
        if (2 <=? quad) && (4 <=? quad + pads + 1) then
          if bool_decide (s = []) then Some [] else None
        else a2b quad left (if 2 <=? quad then pads + 1 else pads) true s
      else
        v ← b64_value c;
        if padding then None
        else if quad =? 0 then a2b 1 v 0 false s
        else if quad =? 1 then rest ← a2b 2 (v mod 16) 0 false s; Some (left * 4 + v / 16 :: rest)
        else if quad =? 2 then rest ← a2b 3 (v mod 4) 0 false s; Some (left * 16 + v / 4 :: rest)
        else rest ← a2b 0 0 0 false s; Some (left * 64 + v :: rest)
  end.

(** [base64.b64decode(t, altchars=b"-_", validate=True)]; [None] for its [ValueError]s,
    [binascii.Error] being one. *)
Definition b64decode (t : text) : option bytes :=
  if existsb (λ c, (c <? 0) || (127 <? c)) t then None
  else match t with
       | 61 :: _ => None
       | _ => a2b 0 0 0 false t
       end.

(** ** [int] of a text *)

(** [str.rstrip] with characters to strip. *)
Definition rstrip_of (c : Z) (t : text) : text := rev (drop_while (Z.eqb c) (rev t)).

(** The digits that are not ASCII: a table of Unicode's. *)
Class Decimals := { decimal : Z → option Z }.

Definition int_space (c : Z) : bool :=
  if c <? 128 then ((9 <=? c) && (c <=? 13)) || (c =? 32) else py_isspace c.

Definition int_digit `{Decimals} (c : Z) : option Z :=
  if c <? 128 then (if is_digit c then Some (c - 48) else None) else decimal c.

(** The digits, single underscores between them. *)
Fixpoint int_digits `{Decimals} (t : text) : option (list Z) :=
  match t with
  | [] => None
  | c :: t =>
      d ← int_digit c;
      match t with
      | [] => Some [d]
      | e :: t' => ds ← (if e =? 95 then int_digits t' else int_digits t); Some (d :: ds)
      end
  end.

(** [int(t)]; [None] for [ValueError], which too many digits are as well. *)
Definition py_int `{Decimals} (t : text) : option Z :=
  let t := rev (drop_while int_space (rev (drop_while int_space t))) in
  let '(neg, t) := match t with
                   | c :: t' => if c =? 45 then (true, t') else if c =? 43 then (false, t') else (false, t)
                   | [] => (false, t)
                   end in
  ds ← int_digits t;
  if bool_decide (length ds ≤ INT_MAX_STR_DIGITS)%nat then
    let n := foldl (λ n d, 10 * n + d) 0 ds in Some (if neg : bool then - n else n)
  else None.

(** ** The codecs *)

Definition is_hex (c : Z) : bool :=
  is_digit c || ((97 <=? c) && (c <=? 102)) || ((65 <=? c) && (c <=? 70)).

(** [_UUID_TEXT.fullmatch] *)
Definition is_uuid_text (t : text) : bool :=
  bool_decide (length t = 36%nat) &&
  forallb (λ ic, if bool_decide (ic.1 ∈ [8; 13; 18; 23]%nat) then ic.2 =? 45 else is_hex ic.2)
    (imap pair t).

(** [_reject] *)
Definition invalid_cursor : exn := App (raise_code ValidationError "common.invalid_cursor").

Definition encode_cursor (payload : text) : result exn text :=
  raw ← utf8 payload; Ok (rstrip_of 61 (urlsafe_b64encode raw)).

(** [bytes.decode("utf-8")]: unlike the stream's, it takes no surrogates. *)
Definition utf8_strict (b : bytes) : option text :=
  t ← utf8_decode b; if existsb surrogate t then None else Some t.

Definition decode_cursor (cursor : text) : result exn text :=
  match b64decode (cursor ++ repeat 61 (Z.to_nat (- len cursor mod 4))) with
  | Some raw => match utf8_strict raw with Some t => Ok t | None => Err invalid_cursor end
  | None => Err invalid_cursor
  end.

Definition encode_id_cursor (last_id : text) : result exn text := encode_cursor last_id.

Definition decode_id_cursor (cursor : text) : result exn text :=
  raw ← decode_cursor cursor;
  if is_uuid_text raw then Ok raw else Err invalid_cursor.

Definition encode_seq_cursor (last_seq : Z) : result exn text := encode_cursor (int_repr last_seq).

Definition decode_seq_cursor `{Decimals} (maximum : option Z) (cursor : text) : result exn Z :=
  raw ← decode_cursor cursor;
  match py_int raw with
  | None => Err invalid_cursor
  | Some value =>
      if match maximum with Some m => m <? Z.abs value | None => false end then Err invalid_cursor
      else Ok value
  end.

(** ** Round trips *)

Definition is_byte (x : Z) : Prop := 0 ≤ x < 256.

Lemma b64_value_char v : 0 ≤ v < 64 → b64_value (b64_char v) = Some v ∧ b64_char v ≠ 61 ∧ 0 ≤ b64_char v < 128.
Proof.
  intros Hv. unfold b64_char, b64_value.
  destruct (v <? 26) eqn:E1; [|destruct (v <? 52) eqn:E2; [|destruct (v <? 62) eqn:E3; [|destruct (v =? 62) eqn:E4]]];
    unbool; ztest; split_and!; try lia; try (f_equal; lia).
Qed.

(** The text without its padding. *)
Fixpoint b64_body (b : bytes) : text :=
  match b with
  | [] => []
  | [x] => [b64_char (x / 4); b64_char (x mod 4 * 16)]
  | [x; y] => [b64_char (x / 4); b64_char (x mod 4 * 16 + y / 16); b64_char (y mod 16 * 4)]
  | x :: y :: z :: b =>
      b64_char (x / 4) :: b64_char (x mod 4 * 16 + y / 16) :: b64_char (y mod 16 * 4 + z / 64) ::
      b64_char (z mod 64) :: b64_body b
  end.

(** Induction by groups of three bytes. *)
Lemma bytes_ind (P : bytes → Prop) :
  P [] → (∀ x, P [x]) → (∀ x y, P [x; y]) → (∀ x y z b, P b → P (x :: y :: z :: b)) → ∀ b, P b.
Proof.
  intros H0b H1b H2b H3b. fix IH 1. intros [|x [|y [|z b]]]; [exact H0b|apply H1b|apply H2b|].
  apply H3b, IH.
Qed.

Lemma body_padding b :
  urlsafe_b64encode b = b64_body b ++ repeat 61 (Z.to_nat (- len (b64_body b) mod 4)).
Proof.
  induction b as [|x|x y|x y z b IH] using bytes_ind; [done|done|done|].
  cbn [urlsafe_b64encode b64_body]. rewrite IH.
  cbn [app]. do 6 f_equal. unfold len. cbn [length]. rewrite !Nat2Z.inj_succ. dlia.
Qed.

Ltac byte_bounds := unfold is_byte in *; dlia.

Lemma body_chars b : Forall is_byte b → Forall (λ c, c ≠ 61 ∧ 0 ≤ c < 128) (b64_body b).
Proof.
  assert (∀ v, 0 ≤ v < 64 → b64_char v ≠ 61 ∧ 0 ≤ b64_char v < 128) as Hc
    by (intros v Hv; apply (b64_value_char v Hv)).
  induction b as [|x|x y|x y z b IH] using bytes_ind; intros Hb;
    repeat match goal with H : Forall _ (_ :: _) |- _ => apply Forall_cons in H as [? H] end;
    cbn [b64_body]; repeat constructor; try (apply Hc; byte_bounds); auto.
Qed.

Lemma a2b_step quad left c s v :
  b64_value c = Some v → c ≠ 61 →
  a2b quad left 0 false (c :: s) =
    if quad =? 0 then a2b 1 v 0 false s
    else if quad =? 1 then rest ← a2b 2 (v mod 16) 0 false s; Some (left * 4 + v / 16 :: rest)
    else if quad =? 2 then rest ← a2b 3 (v mod 4) 0 false s; Some (left * 16 + v / 4 :: rest)
    else rest ← a2b 0 0 0 false s; Some (left * 64 + v :: rest).
Proof. intros Hv Hc. cbn [a2b]. ztest. by rewrite Hv. Qed.

Lemma a2b_char quad left s v :
  0 ≤ v < 64 →
  a2b quad left 0 false (b64_char v :: s) =
    if quad =? 0 then a2b 1 v 0 false s
    else if quad =? 1 then rest ← a2b 2 (v mod 16) 0 false s; Some (left * 4 + v / 16 :: rest)
    else if quad =? 2 then rest ← a2b 3 (v mod 4) 0 false s; Some (left * 16 + v / 4 :: rest)
    else rest ← a2b 0 0 0 false s; Some (left * 64 + v :: rest).
Proof. intros Hv. destruct (b64_value_char v Hv) as (Hval & Hne & _). by apply a2b_step. Qed.

Ltac group_eq := cbn -[Z.mul Z.div Z.modulo Z.add]; repeat f_equal; byte_bounds.

Lemma a2b_body b : Forall is_byte b → a2b 0 0 0 false (urlsafe_b64encode b) = Some b.
Proof.
  induction b as [|x|x y|x y z b IH] using bytes_ind; intros Hb;
    repeat match goal with H : Forall _ (_ :: _) |- _ => apply Forall_cons in H as [? H] end;
    [done|..]; cbn [urlsafe_b64encode].
  - rewrite !a2b_char by byte_bounds. cbn -[Z.mul Z.div Z.modulo Z.add]. ztest. group_eq.
  - rewrite !a2b_char by byte_bounds. cbn -[Z.mul Z.div Z.modulo Z.add]. ztest. group_eq.
  - rewrite !a2b_char by byte_bounds. cbn -[Z.mul Z.div Z.modulo Z.add urlsafe_b64encode].
    rewrite IH by done. group_eq.
Qed.

Lemma rstrip_snoc c l : rstrip_of c (l ++ [c]) = rstrip_of c l.
Proof. unfold rstrip_of. rewrite rev_app_distr. cbn. by rewrite Z.eqb_refl. Qed.

Lemma rstrip_repeat c l n : Forall (λ d, d ≠ c) l → rstrip_of c (l ++ repeat c n) = l.
Proof.
  intros Hl. induction n as [|n IH].
  - rewrite app_nil_r. destruct l as [|d l _] using rev_ind; [done|].
    unfold rstrip_of. rewrite rev_app_distr. cbn. apply Forall_app in Hl as [_ Hd].
    apply Forall_cons in Hd as [Hd _]. destruct (Z.eqb_spec c d); [by subst|].
    cbn. by rewrite rev_involutive.
  - replace (repeat c (S n)) with (repeat c n ++ [c]) by (by rewrite <- repeat_cons).
    by rewrite app_assoc, rstrip_snoc.
Qed.

Lemma b64decode_encode b :
  Forall is_byte b →
  b64decode (rstrip_of 61 (urlsafe_b64encode b) ++
             repeat 61 (Z.to_nat (- len (rstrip_of 61 (urlsafe_b64encode b)) mod 4))) = Some b.
Proof.
  intros Hb. pose proof (body_chars b Hb) as Hc. pose proof (body_padding b) as Hp.
  assert (rstrip_of 61 (urlsafe_b64encode b) = b64_body b) as ->.
  { rewrite Hp. apply rstrip_repeat. eapply Forall_impl; [exact Hc|]. by intros c [? _]. }
  rewrite <- Hp. unfold b64decode.
  assert (existsb (λ c, (c <? 0) || (127 <? c)) (urlsafe_b64encode b) = false) as ->.
  { rewrite Hp, existsb_app. apply orb_false_intro.
    - apply not_true_is_false. intros (c & Hin%list_elem_of_In & Hlt)%existsb_exists.
      rewrite Forall_forall in Hc. destruct (Hc c Hin). unbool; lia.
    - apply not_true_is_false. intros (c & Hin%repeat_spec & Hlt)%existsb_exists. by subst c. }
  pose proof (a2b_body b Hb) as Ha. destruct (urlsafe_b64encode b) as [|c s] eqn:Henc; [done|].
  assert (c ≠ 61) as Hne.
  { destruct (b64_body b) as [|d k] eqn:Hbody.
    - apply (f_equal length) in Hp. destruct b as [|? [|? [|? ?]]]; done.
    - injection Hp as -> _. apply Forall_cons in Hc as [[? _] _]. done. }
  destruct c as [|p|p]; try exact Ha. repeat (destruct p as [p|p|]; try exact Ha). done.
Qed.

Lemma utf8_bytes t b : utf8 t = Ok b → Forall is_byte b ∧ existsb surrogate t = false.
Proof.
  revert b; induction t as [|c t IH]; intros b; cbn [utf8]; [intros [= <-]; by split|].
  destruct (utf8_char c) as [u|] eqn:Hc; [|done]. intros H. unresult.
  edestruct IH as [Hb Hs]; [done|]. cbn [existsb]. rewrite Hs.
  unfold utf8_char in Hc. destruct ((c <? 0) || surrogate c || _) eqn:E0; [done|].
  apply orb_false_elim in E0 as [[E0 ->]%orb_false_elim E1]. split; [|done].
  apply Forall_app. split; [|done]. unbool.
  destruct (c <? 128) eqn:E2; [injection Hc as <-; unbool; repeat constructor; unfold is_byte; lia|].
  destruct (c <? 2048) eqn:E3; [|destruct (c <? 65536) eqn:E4]; injection Hc as <-; unbool;
    repeat constructor; unfold is_byte; dlia.
Qed.

(** Whatever the codec wraps it unwraps again. *)
Lemma decode_encode_cursor payload cursor :
  encode_cursor payload = Ok cursor → decode_cursor cursor = Ok payload.
Proof.
  unfold encode_cursor, decode_cursor. intros H. unresult.
  match goal with H : utf8 _ = Ok ?b |- _ => destruct (utf8_bytes _ _ H) as [Hb Hs];
    pose proof (utf8_round_trip _ _ H) as Hd end.
  rewrite b64decode_encode by done. unfold utf8_strict. rewrite Hd. cbn. by rewrite Hs.
Qed.

Lemma ascii_encodes t : Forall (λ c, 0 ≤ c < 128) t → ∃ c, encode_cursor t = Ok c.
Proof.
  intros Ht. assert (∃ b, utf8 t = Ok b) as [b Hb].
  { induction Ht as [|c t Hc _ [b IH]]; [by eexists|]. cbn [utf8]. unfold utf8_char, surrogate.
    ztest. rewrite IH. cbn. by eexists. }
  unfold encode_cursor. rewrite Hb. cbn. by eexists.
Qed.

Lemma is_uuid_facts t :
  is_uuid_text t = true →
  length t = 36%nat ∧ t !! 8%nat = Some 45 ∧ Forall (λ c, c = 45 ∨ is_hex c = true) t ∧
  (∃ c, t !! 0%nat = Some c ∧ is_hex c = true) ∧ (∃ c, t !! 35%nat = Some c ∧ is_hex c = true).
Proof.
  unfold is_uuid_text. intros [Hlen Hall]%andb_true_iff. apply bool_decide_eq_true in Hlen.
  rewrite forallb_forall in Hall.
  assert (∀ i c, t !! i = Some c →
    if bool_decide (i ∈ [8; 13; 18; 23]%nat) then c = 45 else is_hex c = true) as Hat.
  { intros i c Hc. assert ((i, c) ∈ imap pair t) as Hin.
    { apply elem_of_lookup_imap. eauto. }
    apply list_elem_of_In, Hall in Hin. cbn [fst snd] in Hin.
    case_bool_decide; [by apply Z.eqb_eq|done]. }
  assert (∀ i, (i < 36)%nat → ∃ c, t !! i = Some c) as Hin by (intros i Hi; apply lookup_lt_is_Some; lia).
  split_and!; [done| | | |].
  - destruct (Hin 8%nat) as [c Hc]; [lia|]. rewrite Hc. f_equal. exact (Hat _ _ Hc).
  - apply Forall_lookup. intros i c Hc. specialize (Hat i c Hc). case_bool_decide; auto.
  - destruct (Hin 0%nat) as [c Hc]; [lia|]. exists c. split; [done|]. exact (Hat _ _ Hc).
  - destruct (Hin 35%nat) as [c Hc]; [lia|]. exists c. split; [done|]. exact (Hat _ _ Hc).
Qed.

Section Codecs.
Context `{Decimals}.

Lemma int_digits_no_dash t ds : int_digits t = Some ds → 45 ∉ t.
Proof.
  revert ds. induction t as [t IH] using (induction_ltof1 _ (@length Z)). unfold ltof in IH.
  intros ds Hds. destruct t as [|c t]; [done|]. cbn [int_digits] in Hds.
  apply bind_Some in Hds as (d & Hd & Hds).
  assert (c ≠ 45) as Hc by (by intros ->).
  destruct t as [|e t]; [intros [Hx|Hx]%elem_of_cons; [by apply Hc|by apply not_elem_of_nil in Hx]|].
  assert (45 ∉ e :: t) as Ht; [|by intros [Hx|?]%elem_of_cons; [apply Hc|]].
  apply bind_Some in Hds as (ds' & Hds & _). destruct (Z.eqb_spec e 95) as [->|He].
  - apply IH in Hds; [|cbn; lia]. by intros [?|?]%elem_of_cons.
  - apply IH in Hds; [done|cbn; lia].
Qed.

(** Digits, once no white space and no sign surrounds them. *)
Lemma int_digits_ascii ds :
  ds ≠ [] → Forall (λ c, is_digit c = true) ds → int_digits ds = Some ((λ c, c - 48) <$> ds).
Proof.
  induction ds as [|c ds IH]; [done|]. intros _ [Hc Hds]%Forall_cons.
  assert (int_digit c = Some (c - 48)) as Hd.
  { unfold int_digit. rewrite Hc. unfold is_digit in Hc. unbool. by ztest. }
  cbn [int_digits]. rewrite Hd. cbn [mbind option_bind]. destruct ds as [|e ds]; [done|].
  apply Forall_cons in Hds as He. destruct He as [He _]. unfold is_digit in He. unbool.
  ztest. by rewrite IH.
Qed.

Lemma foldl_digits n ds :
  foldl (λ n d, 10 * n + d) n ((λ c, c - 48) <$> ds) = foldl (λ n c, n * 10 + (c - 48)) n ds.
Proof. revert n; induction ds as [|c ds IH]; intros n; [done|]. cbn. rewrite IH. f_equal. lia. Qed.

Lemma drop_while_stop (p : Z → bool) c t : p c = false → drop_while p (c :: t) = c :: t.
Proof. intros Hp. cbn. by rewrite Hp. Qed.

(** A text that neither begins nor ends with white space. *)
Lemma int_strip_id c t d :
  int_space c = false → last (c :: t) = Some d → int_space d = false →
  rev (drop_while int_space (rev (drop_while int_space (c :: t)))) = c :: t.
Proof.
  intros Hc Hl Hd. rewrite drop_while_stop by done.
  apply last_Some in Hl as [k Hk]. rewrite Hk, rev_app_distr. cbn [rev app].
  rewrite drop_while_stop by done. cbn [rev]. by rewrite rev_involutive.
Qed.

Lemma is_digit_space c : is_digit c = true → int_space c = false.
Proof. unfold is_digit, int_space. intros ?. unbool. ztest. done. Qed.

Lemma py_int_repr n : int_fits n = true → py_int (int_repr n) = Some n.
Proof.
  unfold int_fits. intros Hfit%bool_decide_eq_true. unfold int_repr.
  destruct (nat_repr_spec (Z.abs n) ltac:(lia)) as (Hdec & Hall & c & r & Heq & _).
  assert (nat_repr (Z.abs n) ≠ []) as Hne by by rewrite Heq.
  assert (∃ d, last (nat_repr (Z.abs n)) = Some d ∧ int_space d = false) as (d & Hlast & Hd).
  { destruct (last (nat_repr (Z.abs n))) as [d|] eqn:Hl; [|by apply last_None in Hl].
    exists d. split; [done|]. apply is_digit_space. rewrite Forall_forall in Hall. apply Hall.
    by apply last_Some_elem_of. }
  pose proof (int_digits_ascii _ Hne Hall) as Hint.
  assert (is_digit c = true) as Hc by (rewrite Heq in Hall; by apply Forall_cons in Hall as [? _]).
  assert (int_space c = false) as Hsp by by apply is_digit_space.
  assert (48 ≤ c ≤ 57) as Hc' by (unfold is_digit in Hc; unbool; lia).
  unfold py_int. destruct (n <? 0) eqn:Hn; unbool.
  - rewrite Z.abs_neq in * by lia. rewrite (int_strip_id 45 (nat_repr (- n)) d); [|done| |done].
    + cbn [Z.eqb Pos.eqb]. rewrite Hint. cbn [mbind option_bind]. rewrite length_fmap.
      rewrite bool_decide_true by done. rewrite foldl_digits. fold (dec (nat_repr (- n))).
      rewrite Hdec. f_equal. lia.
    + rewrite last_cons, Hlast. done.
  - rewrite Z.abs_eq in * by lia. rewrite Heq in *. rewrite (int_strip_id c r d) by done. ztest.
    rewrite Hint. cbn [mbind option_bind]. rewrite length_fmap.
    rewrite bool_decide_true by done. rewrite foldl_digits. fold (dec (c :: r)). by rewrite Hdec.
Qed.

Lemma py_int_no_dash t n :
  py_int t = Some n → (∃ c, t !! 0%nat = Some c ∧ is_hex c = true) →
  (∃ c, last t = Some c ∧ is_hex c = true) → 45 ∉ t.
Proof.
  intros Hint (c & Hc & Hhex) (d & Hd & Hdhex). destruct t as [|c' t]; [done|]. injection Hc as ->.
  assert (∀ x, is_hex x = true → int_space x = false ∧ x ≠ 45 ∧ x ≠ 43) as Hh.
  { intros x. unfold is_hex, is_digit, int_space. intros Hx. unbool; ztest; split_and!; try lia; done. }
  destruct (Hh c Hhex) as (Hsp & H45 & H43). destruct (Hh d Hdhex) as (Hdsp & _ & _).
  unfold py_int in Hint. rewrite (int_strip_id c t d) in Hint by done.
  rewrite (proj2 (Z.eqb_neq c 45)), (proj2 (Z.eqb_neq c 43)) in Hint by done.
  apply bind_Some in Hint as (ds & Hds & _). by eapply int_digits_no_dash.
Qed.

Lemma dec_digits_length fuel n : (length (dec_digits fuel n) ≤ fuel)%nat.
Proof.
  revert n; induction fuel as [|fuel IH]; intros n; cbn [dec_digits]; [done|].
  destruct (n <? 10); [cbn; lia|]. rewrite length_app. cbn. specialize (IH (n / 10)). lia.
Qed.

(** A value of an [integer] column prints in few digits. *)
Lemma int4_repr n :
  - 2 ^ 31 ≤ n < 2 ^ 31 →
  (length (int_repr n) < 36)%nat ∧ int_fits n = true ∧ Forall (λ c, 0 ≤ c < 128) (int_repr n).
Proof.
  intros Hn. assert (length (nat_repr (Z.abs n)) ≤ 32)%nat as Hl.
  { unfold nat_repr. etrans; [apply dec_digits_length|].
    assert (Z.log2 (Z.abs n) ≤ 31); [|lia].
    change 31 with (Z.log2 (2 ^ 31)). apply Z.log2_le_mono. lia. }
  assert (Forall (λ c, 0 ≤ c < 128) (nat_repr (Z.abs n))) as Hall.
  { destruct (nat_repr_spec (Z.abs n) ltac:(lia)) as (_ & Hall & _).
    eapply Forall_impl; [exact Hall|]. intros c. cbn. unfold is_digit. intros Hc. unbool. lia. }
  split_and!.
  - unfold int_repr. destruct (n <? 0) eqn:E; unbool.
    + rewrite Z.abs_neq in Hl by lia. cbn [length]. lia.
    + rewrite Z.abs_eq in Hl by lia. lia.
  - unfold int_fits, INT_MAX_STR_DIGITS. apply bool_decide_eq_true. lia.
  - unfold int_repr. destruct (n <? 0) eqn:E; unbool.
    + rewrite Z.abs_neq in Hall by lia. constructor; [lia|done].
    + by rewrite Z.abs_eq in Hall by lia.
Qed.

(** The only way out of the decoder for a text it does not take. *)
Lemma decode_cursor_err c e : decode_cursor c = Err e → e = invalid_cursor.
Proof. unfold decode_cursor. repeat case_match; congruence. Qed.

(** A cursor says where a page ended, and in which collection.  Every id a uuid column
    holds and every seq an integer column holds can be handed out; the decoder of the same
    collection reads exactly that position back, the decoder of the other one refuses it;
    and whatever text a client sends, either decoder returns a position or raises
    [common.invalid_cursor], nothing else. *)
Theorem cursors_round_trip :
  (∀ id, is_uuid_text id = true → ∃ c, encode_id_cursor id = Ok c ∧
     decode_id_cursor c = Ok id ∧ ∀ m, decode_seq_cursor m c = Err invalid_cursor) ∧
  (∀ n, - 2 ^ 31 ≤ n < 2 ^ 31 → ∃ c, encode_seq_cursor n = Ok c ∧
     decode_seq_cursor None c = Ok n ∧ decode_id_cursor c = Err invalid_cursor) ∧
  (∀ c, (∃ id, decode_id_cursor c = Ok id ∧ is_uuid_text id = true) ∨
     decode_id_cursor c = Err invalid_cursor) ∧
  (∀ m c, (∃ n, decode_seq_cursor m c = Ok n) ∨ decode_seq_cursor m c = Err invalid_cursor).
Proof.
  split_and!.
  - intros id Hid. destruct (is_uuid_facts id Hid) as (Hlen & H8 & Hall & Hfst & (z & Hz & Hzhex)).
    destruct (ascii_encodes id) as [c Hc].
    { eapply Forall_impl; [exact Hall|]. intros x; cbn. unfold is_hex, is_digit. intros [-> | Hx]; [lia|].
      rewrite !orb_true_iff, !andb_true_iff, !Z.leb_le in Hx. lia. }
    exists c. unfold decode_id_cursor, decode_seq_cursor. rewrite (decode_encode_cursor _ _ Hc).
    cbn [mbind result_bind]. rewrite Hid. split_and!; [done|done|]. intros m.
    destruct (py_int id) as [n|] eqn:Hn; [exfalso|done].
    apply (py_int_no_dash id n Hn Hfst); [|by eapply list_elem_of_lookup_2].
    exists z. by rewrite last_lookup, Hlen.
  - intros n Hn. destruct (int4_repr n Hn) as (Hlen & Hfit & Hascii).
    destruct (ascii_encodes _ Hascii) as [c Hc]. exists c. split; [done|].
    unfold decode_id_cursor, decode_seq_cursor. rewrite (decode_encode_cursor _ _ Hc).
    cbn [mbind result_bind]. rewrite (py_int_repr n Hfit). split; [done|].
    unfold is_uuid_text. rewrite bool_decide_false by lia. done.
  - intros c. unfold decode_id_cursor. destruct (decode_cursor c) as [t|e] eqn:Hc; cbn.
    + destruct (is_uuid_text t) eqn:Ht; [left; eauto|by right].
    + apply decode_cursor_err in Hc as ->. by right.
  - intros m c. unfold decode_seq_cursor. destruct (decode_cursor c) as [t|e] eqn:Hc; cbn.
    + destruct (py_int t) as [n|]; [|by right].
      destruct (match m with Some m => _ | None => _ end); [by right|left; eauto].
    + apply decode_cursor_err in Hc as ->. by right.
Qed.
End Codecs.

(** No digits but the ASCII ones. *)
Definition ascii_decimals : Decimals := {| decimal _ := None |}.

Definition demo_uuid : text := txt "0190a6c2-7e1b-7c3d-9f00-0123456789ab".

Example cursors_round_trip_witness :
  (∃ c, encode_id_cursor demo_uuid = Ok c ∧ decode_id_cursor c = Ok demo_uuid ∧
     ∀ m, @decode_seq_cursor ascii_decimals m c = Err invalid_cursor) ∧
  (∃ c, encode_seq_cursor 42 = Ok c ∧ @decode_seq_cursor ascii_decimals None c = Ok 42 ∧
     decode_id_cursor c = Err invalid_cursor) ∧ encode_seq_cursor 42 = Ok (txt "NDI").
Proof.
  destruct (@cursors_round_trip ascii_decimals) as (Hid & Hseq & _). split_and!.
  - apply Hid. vm_compute. reflexivity.
  - apply Hseq. lia.
  - vm_compute. reflexivity.
Defined.
