(* ===== verification/FilesStore.v ===== *)
(** * Files: the table and its SQL adapter

    [modules/files/adapters/sql_repository.py] over [files.files]
    ([migrations/versions/files]).  A table is a finite map from primary key to row;
    each method is the statement it sends, with the constraints the migrations put
    on the table and the SQLSTATE translation of [_translate]. *)

From S2P Require Import Prelude Text Calendar Errors Framework Files Keyset Events Wire Cursor.

Open Scope Z_scope.

(** [lower(normalize(name, NFC))], computed by the database under its collation:
    the expression of the generated column [files.name_key]. *)
Class Collation := { name_key : text → text }.

Record FileRow := mk_FileRow {
  row_id : text;
  row_workspace_id : text;
  row_name : text;
  row_content_type : text;
  row_size_bytes : Z;
  row_storage_key : text;
  row_checksum : option text;
  row_status : text;
  row_uploaded_by : option text;
  row_created_at : instant;
  row_updated_at : instant;
  row_deleted_at : option instant;
  row_version : Z;
  row_space_id : option text;
  row_upload_id : option text;
  row_part_bytes : option Z;
  row_tags : FileTags
}.

Abbreviation FilesDb := (gmap text FileRow).

Definition status_value (s : FileStatus) : text :=
  match s with
  | UPLOADED => txt "uploaded"
  | SCANNING => txt "scanning"
  | READY => txt "ready"
  | QUARANTINED => txt "quarantined"
  end.

Definition ALL_STATUSES : list FileStatus := [UPLOADED; SCANNING; READY; QUARANTINED].

(** [FileStatus(value)]. *)
Definition parse_status (t : text) : option FileStatus :=
  head (List.filter (λ s, bool_decide (status_value s = t)) ALL_STATUSES).

Lemma parse_status_value s : parse_status (status_value s) = Some s.
Proof. destruct s; vm_compute; reflexivity. Qed.

(** The values of [add]'s INSERT. *)
Definition to_row (f : File) : FileRow :=
  mk_FileRow (file_id f) (file_workspace_id f) (fn_value (name f)) (ct_value (content_type f))
    (size_bytes f) (sk_value (storage_key f)) (sha_value <$> checksum f)
    (status_value (status f)) (uploaded_by f) (created_at f) (updated_at f) (deleted_at f)
    (version f) (file_space_id f) (mp_upload_id <$> multipart f) (mp_part_bytes <$> multipart f)
    (tags f).

Definition file_exn (e : FileError) : exn :=
  match e with
  | InvalidFileInput => Other "InvalidFileInput"
  | FileStateError => Other "FileStateError"
  end.

(** [_hydrate]: every value object is rebuilt, so every check runs again. *)
Definition hydrate_multipart (r : FileRow) : result exn (option MultipartUpload) :=
  match row_upload_id r, row_part_bytes r with
  | None, _ => Ok None
  | Some u, Some b => m ← map_err file_exn (new_MultipartUpload u b); Ok (Some m)
  | Some _, None => Err (Other "TypeError")
  end.

Definition hydrate_checksum `{Unicode} (c : option text) : result exn (option Sha256) :=
  match c with
  | Some v => if bool_decide (v = []) then Ok None
              else h ← map_err file_exn (new_Sha256 v); Ok (Some h)
  | None => Ok None
  end.

Definition hydrate `{Unicode} (r : FileRow) : result exn File :=
  n ← map_err file_exn (new_FileName (row_name r));
  ct ← map_err file_exn (new_ContentType (row_content_type r));
  k ← map_err file_exn (new_StorageKey (row_storage_key r));
  c ← hydrate_checksum (row_checksum r);
  s ← match parse_status (row_status r) with
      | Some s => Ok s
      | None => Err (Other "ValueError")
      end;
  m ← hydrate_multipart r;
  t ← map_err file_exn (new_FileTags (tag_system (row_tags r)) (tag_equipment (row_tags r))
                          (tag_department (row_tags r)));
  Ok (mk_File (row_id r) (row_workspace_id r) (row_space_id r) n ct (row_size_bytes r) k c s
        (row_uploaded_by r) (row_created_at r) (row_updated_at r) (row_deleted_at r)
        (row_version r) m t).

(** The CHECK constraints of the four migrations that add one, and the column widths. *)
Definition tag_shape (v : option text) : bool :=
  match v with Some t => (1 <=? len t) && (len t <=? 128) | None => true end.

Definition INT4_MAX : Z := 2 ^ 31 - 1.
Definition INT8_MAX : Z := 2 ^ 63 - 1.

Definition row_checks (r : FileRow) : bool :=
  (1 <=? len (row_name r)) && (len (row_name r) <=? 255) &&
  (0 <=? row_size_bytes r) && (row_size_bytes r <=? INT8_MAX) &&
  bool_decide (row_status r ∈ status_value <$> ALL_STATUSES) &&
  (row_version r <=? INT4_MAX) &&
  match row_upload_id r, row_part_bytes r with
  | None, None => true
  | Some u, Some b =>
      (1 <=? len u) && (len u <=? 1024) && (5242880 <=? b) && (b <=? INT4_MAX)
  | _, _ => false
  end &&
  tag_shape (tag_system (row_tags r)) && tag_shape (tag_equipment (row_tags r)) &&
  tag_shape (tag_department (row_tags r)).

Inductive sqlstate : Type := unique_violation | insufficient_privilege | other_state.

(** [_translate] *)
Definition translate (s : sqlstate) : exn :=
  match s with
  | unique_violation => App (raise_class ConflictError)
  | insufficient_privilege => App (raise_code AppError "common.internal")
  | other_state => App (raise_code AppError "common.internal")
  end.

Section Adapter.
Context `{Unicode} `{Collation}.
Implicit Types (db : FilesDb) (ctx : ExecutionContext).

Definition in_workspace ctx (r : FileRow) : bool :=
  bool_decide (row_workspace_id r = workspace_id ctx).

Definition active (r : FileRow) : bool := bool_decide (row_deleted_at r = None).

Definition rows_where db (p : FileRow → bool) : list FileRow :=
  List.filter p ((map_to_list db).*2).

(** [get]: a row of another workspace does not exist. *)
Definition get ctx (id : text) db : result exn (option File) :=
  match db !! id with
  | Some r => if in_workspace ctx r then f ← hydrate r; Ok (Some f) else Ok None
  | None => Ok None
  end.

Definition key_taken db (r : FileRow) : bool :=
  bool_decide (db !! row_id r ≠ None) ||
  existsb (λ r', bool_decide (row_storage_key r' = row_storage_key r)) ((map_to_list db).*2).

(** [add]: row-level security, then the CHECKs, then the unique indexes. *)
Definition add ctx (f : File) db : result exn (unit * FilesDb) :=
  let r := to_row f in
  _ ← raise_if (negb (in_workspace ctx r)) (translate insufficient_privilege);
  _ ← raise_if (negb (row_checks r)) (translate other_state);
  _ ← raise_if (key_taken db r) (translate unique_violation);
  Ok (tt, <[row_id r := r]> db).

(** [save]'s SET list; the trigger [trg_touch] sets [updated_at]. *)
Definition updated_row (f : File) (now : instant) (r : FileRow) : FileRow :=
  mk_FileRow (row_id r) (row_workspace_id r) (fn_value (name f)) (row_content_type r)
    (row_size_bytes r) (row_storage_key r) (sha_value <$> checksum f)
    (status_value (status f)) (row_uploaded_by r) (row_created_at r) now (deleted_at f)
    (row_version r + 1) (row_space_id r) (row_upload_id r) (row_part_bytes r) (tags f).

(** The version and the time written back onto the aggregate. *)
Definition with_version (f : File) (v : Z) (t : instant) : File :=
  mk_File (file_id f) (file_workspace_id f) (file_space_id f) (name f) (content_type f)
    (size_bytes f) (storage_key f) (checksum f) (status f) (uploaded_by f) (created_at f) t
    (deleted_at f) v (multipart f) (tags f).

Definition save ctx (f : File) (now : instant) db : result exn (File * FilesDb) :=
  match db !! file_id f with
  | Some r =>
      if in_workspace ctx r && (row_version r =? version f) then
        let r' := updated_row f now r in
        if row_checks r'
        then Ok (with_version f (row_version r') (row_updated_at r'), <[file_id f := r']> db)
        else Err (translate other_state)
      else Err (App (raise_class ConflictError))
  | None => Err (App (raise_class ConflictError))
  end.

(** [list] *)
Definition listed ctx (space_id : option text) (r : FileRow) : bool :=
  in_workspace ctx r && active r &&
  match space_id with
  | Some s => bool_decide (row_space_id r = Some s)
  | None => true
  end.

Definition list_files ctx (space_id : option text) (limit : nat) (cursor : option text) db
    : result exn (Page File text) :=
  after ← match cursor with
          | Some c => id ← decode_id_cursor c; Ok (Some id)
          | None => Ok None
          end;
  let p := paginate row_id
             (select_page row_id (rows_where db (listed ctx space_id)) limit after) limit in
  data ← map_result hydrate (page_data p);
  next ← match next_cursor p with
         | Some last_id => c ← encode_id_cursor last_id; Ok (Some c)
         | None => Ok None
         end;
  Ok (mk_Page data next).

Definition count ctx db : Z :=
  Z.of_nat (length (rows_where db (λ r, in_workspace ctx r && active r))).

(** [coalesce(sum(size_bytes), 0)] *)
Definition bytes_in_space ctx (space_id : text) db : Z :=
  sumZ (row_size_bytes <$> rows_where db (listed ctx (Some space_id))).

Record SpaceFileTotals := mk_SpaceFileTotals { bytes_used : Z; file_count : Z }.

(** [GROUP BY space_id]: a space with no active file is absent. *)
Definition totals_by_space ctx (space_ids : list text) db : gmap text SpaceFileTotals :=
  foldr (λ s m,
    match rows_where db (listed ctx (Some s)) with
    | [] => m
    | rows => <[s := mk_SpaceFileTotals (sumZ (row_size_bytes <$> rows))
                       (Z.of_nat (length rows))]> m
    end) ∅ space_ids.

Definition ready_row (r : FileRow) : bool :=
  bool_decide (row_status r = status_value READY) && active r.

Definition ready_names ctx (file_ids : list text) db : gmap text text :=
  list_to_map ((λ r, (row_id r, row_name r)) <$>
    rows_where db (λ r, in_workspace ctx r && bool_decide (row_id r ∈ file_ids) && ready_row r)).

(** [(created_at, id) < (file.created_at, file.id)] *)
Definition older (r : FileRow) (created : instant) (id : text) : bool :=
  (row_created_at r <? created) ||
  ((row_created_at r =? created) && text_ltb (row_id r) id).

(** [_in_space], [_same_tags]: NULL is a value of its own in both. *)
Definition in_space (f : File) (r : FileRow) : bool :=
  bool_decide (row_space_id r = file_space_id f).

Definition same_name ctx (f : File) (r : FileRow) : bool :=
  in_workspace ctx r && in_space f r &&
  bool_decide (name_key (row_name r) = name_key (fn_value (name f))) && active r.

Definition same_tags (f : File) (r : FileRow) : bool := bool_decide (row_tags r = tags f).

Definition live_namesakes ctx (f : File) db : list text :=
  row_id <$> rows_where db (λ r,
    same_name ctx f r && same_tags f r && older r (created_at f) (file_id f)).

Definition live_name_conflicts ctx (f : File) db : list text :=
  row_id <$> rev (newest_first row_id (rows_where db (λ r,
    same_name ctx f r && negb (bool_decide (row_id r = file_id f)) && negb (same_tags f r)))).

Definition storage_keys_in_space ctx (space_id : text) db : list text :=
  List.filter (λ k, negb (bool_decide (k = [])))
    (row_storage_key <$> rows_where db (λ r,
       in_workspace ctx r && bool_decide (row_space_id r = Some space_id))).

Definition purge_space ctx (space_id : text) db : Z * FilesDb :=
  let doomed r := in_workspace ctx r && bool_decide (row_space_id r = Some space_id) in
  (Z.of_nat (length (rows_where db doomed)),
   filter (λ kv : text * FileRow, doomed kv.2 = false) db).
End Adapter.

(** ** Rows and aggregates *)

Section Correctness.
Context {U : Unicode} {UL : UnicodeLaws U} {K : Collation}.
Implicit Types (db : FilesDb) (ctx : ExecutionContext) (f : File).

(** Every part was made by its own constructor. *)
Definition file_valid f : Prop :=
  new_FileName (fn_value (name f)) = Ok (name f) ∧
  new_ContentType (ct_value (content_type f)) = Ok (content_type f) ∧
  new_StorageKey (sk_value (storage_key f)) = Ok (storage_key f) ∧
  hydrate_checksum (sha_value <$> checksum f) = Ok (checksum f) ∧
  match multipart f with
  | Some m => new_MultipartUpload (mp_upload_id m) (mp_part_bytes m) = Ok m
  | None => True
  end ∧
  new_FileTags (tag_system (tags f)) (tag_equipment (tags f)) (tag_department (tags f))
  = Ok (tags f).

Lemma hydrate_to_row f : file_valid f → hydrate (to_row f) = Ok f.
Proof.
  intros (Hn & Hc & Hk & Hh & Hm & Ht). unfold hydrate, to_row. cbn.
  rewrite Hn, Hc, Hk, Hh, parse_status_value, Ht. cbn.
  assert (hydrate_multipart (to_row f) = Ok (multipart f)) as Hmp.
  { unfold hydrate_multipart, to_row. cbn. destruct (multipart f) as [m|]; cbn; [|done].
    by rewrite Hm. }
  unfold to_row in Hmp. rewrite Hmp. cbn. by destruct f.
Qed.

Definition row_ok (r : FileRow) : Prop :=
  row_checks r = true ∧ ∃ f, file_valid f ∧ r = to_row f.

Definition db_ok db : Prop :=
  (∀ id r, db !! id = Some r → row_id r = id ∧ row_ok r) ∧
  (∀ i j r s, db !! i = Some r → db !! j = Some s → row_storage_key r = row_storage_key s → i = j).

Lemma elem_of_rows_where db p r :
  r ∈ rows_where db p ↔ p r = true ∧ ∃ id, db !! id = Some r.
Proof.
  unfold rows_where. rewrite elem_of_list_filter_bool, list_elem_of_fmap. split.
  - intros [([id r'] & -> & Hin%elem_of_map_to_list) Hp]. eauto.
  - intros [Hp [id Hid]]. split; [|done]. exists (id, r). by rewrite elem_of_map_to_list.
Qed.

Lemma rows_where_ids db p : db_ok db → NoDup (row_id <$> rows_where db p).
Proof.
  intros [Hok _]. unfold rows_where.
  assert (∀ l : list (text * FileRow), NoDup l.*1 → (∀ id r, (id, r) ∈ l → row_id r = id) →
    NoDup (row_id <$> List.filter p l.*2)) as Hl.
  { induction l as [|[id r] l IH]; cbn; [constructor|].
    intros [Hni Hnd]%NoDup_cons Hid. destruct (p r); [|apply IH; set_solver].
    cbn. apply NoDup_cons. split; [|apply IH; set_solver].
    rewrite (Hid id r) by left. intros (r' & He & Hin)%list_elem_of_fmap.
    apply elem_of_list_filter_bool in Hin as [Hin _].
    apply list_elem_of_fmap in Hin as ([id' r''] & -> & Hin). cbn in He.
    rewrite (Hid id' r'') in He by by right. subst. apply Hni.
    apply list_elem_of_fmap. by exists (id', r''). }
  apply Hl; [apply NoDup_fst_map_to_list|].
  intros id r Hin%elem_of_map_to_list. by apply Hok.
Qed.

Lemma key_taken_false db r :
  key_taken db r = false →
  db !! row_id r = None ∧ ∀ j s, db !! j = Some s → row_storage_key s ≠ row_storage_key r.
Proof.
  unfold key_taken. intros [Hid Hk]%orb_false_iff. unbool. split; [by apply dec_stable|].
  intros j s Hs He. apply not_true_iff_false in Hk. apply Hk, existsb_exists.
  exists s. split; [|by apply bool_decide_eq_true].
  apply list_elem_of_In, list_elem_of_fmap. exists (j, s). by rewrite elem_of_map_to_list.
Qed.

Lemma add_Ok ctx f db u db' :
  add ctx f db = Ok (u, db') →
  file_workspace_id f = workspace_id ctx ∧ row_checks (to_row f) = true ∧
  db !! file_id f = None ∧ (∀ j s, db !! j = Some s → row_storage_key s ≠ sk_value (storage_key f)) ∧
  db' = <[file_id f := to_row f]> db.
Proof.
  unfold add. intros Hx. apply bind_Ok in Hx as (u1 & Hw%raise_if_Ok & Hx).
  apply bind_Ok in Hx as (u2 & Hc%raise_if_Ok & Hx).
  apply bind_Ok in Hx as (u3 & Ht%raise_if_Ok & Hx). apply Ok_pair_inj in Hx as [_ <-].
  unfold in_workspace in Hw. unbool. apply key_taken_false in Ht as [H1 H2]. done.
Qed.

Lemma add_keeps ctx f db u db' :
  db_ok db → file_valid f → add ctx f db = Ok (u, db') → db_ok db'.
Proof.
  intros [Hok Hu] Hv (_ & Hc & Hnone & Hkey & ->)%add_Ok. split.
  - intros id r Hr. apply lookup_insert_Some in Hr as [[<- <-]|[_ Hr]]; [|by apply Hok].
    split; [done|]. split; [done|]. eauto.
  - intros i j r s Hr Hs He.
    apply lookup_insert_Some in Hr as [[<- <-]|[Hi Hr]];
      apply lookup_insert_Some in Hs as [[<- <-]|[Hj Hs]]; try done.
    + by destruct (Hkey _ _ Hs).
    + by destruct (Hkey _ _ Hr).
    + by eapply Hu.
Qed.

Lemma save_Ok ctx f now db f' db' :
  save ctx f now db = Ok (f', db') →
  ∃ r, db !! file_id f = Some r ∧ row_workspace_id r = workspace_id ctx ∧
    row_version r = version f ∧ row_checks (updated_row f now r) = true ∧
    f' = with_version f (version f + 1) now ∧ db' = <[file_id f := updated_row f now r]> db.
Proof.
  unfold save. destruct (db !! file_id f) as [r|] eqn:Hr; [|done].
  destruct (_ && _) eqn:Hw; [|done]. destruct (row_checks _) eqn:Hc; [|done].
  intros Hx. apply Ok_pair_inj in Hx as [<- <-]. unfold in_workspace in Hw. unbool.
  exists r. cbn. by rewrite H0.
Qed.

(** A saved row is the old row with the aggregate's mutable part. *)
Lemma updated_row_ok f now r :
  row_ok r → file_valid f → row_checks (updated_row f now r) = true →
  row_ok (updated_row f now r).
Proof.
  intros (_ & g & (Hn & Hc & Hk & Hh & Hm & Ht) & ->) (Hn' & Hc' & Hk' & Hh' & Hm' & Ht') Hchk.
  split; [done|].
  exists (mk_File (file_id g) (file_workspace_id g) (file_space_id g) (name f) (content_type g)
    (size_bytes g) (storage_key g) (checksum f) (status f) (uploaded_by g) (created_at g) now
    (deleted_at f) (version g + 1) (multipart g) (tags f)).
  split; [by repeat split|]. unfold updated_row, to_row. cbn. done.
Qed.

Lemma save_keeps ctx f now db f' db' :
  db_ok db → file_valid f → save ctx f now db = Ok (f', db') → db_ok db'.
Proof.
  intros [Hok Hu] Hv (r & Hr & _ & _ & Hc & _ & ->)%save_Ok.
  destruct (Hok _ _ Hr) as [Hid Hro]. split.
  - intros id s Hs. apply lookup_insert_Some in Hs as [[<- <-]|[_ Hs]]; [|by apply Hok].
    split; [done|]. by apply updated_row_ok.
  - intros i j s t Hs Ht He.
    apply lookup_insert_Some in Hs as [[<- <-]|[Hi Hs]];
      apply lookup_insert_Some in Ht as [[<- <-]|[Hj Ht]]; try done.
    + by eapply (Hu _ _ r t).
    + by eapply (Hu _ _ s r).
    + by eapply Hu.
Qed.

Lemma purge_keeps ctx s db : db_ok db → db_ok (purge_space ctx s db).2.
Proof.
  intros [Hok Hu]. cbn. split.
  - intros id r [Hr _]%map_lookup_filter_Some. by apply Hok.
  - intros i j r t [Hr _]%map_lookup_filter_Some [Ht _]%map_lookup_filter_Some. by apply Hu.
Qed.

Lemma hydrate_valid r : row_ok r → ∃ f, hydrate r = Ok f ∧ file_valid f ∧ r = to_row f.
Proof. intros (_ & f & Hf & ->). exists f. split; [by apply hydrate_to_row|done]. Qed.

Lemma get_Ok ctx id db f :
  db_ok db → get ctx id db = Ok (Some f) →
  file_valid f ∧ db !! id = Some (to_row f) ∧ file_id f = id ∧
  file_workspace_id f = workspace_id ctx.
Proof.
  intros [Hok _]. unfold get. destruct (db !! id) as [r|] eqn:Hr; [|done].
  destruct (in_workspace ctx r) eqn:Hw; [|done].
  destruct (Hok _ _ Hr) as [Hid Hro]. destruct (hydrate_valid _ Hro) as (g & Hg & Hv & ->).
  rewrite Hg. cbn. intros [= <-]. unfold in_workspace in Hw. unbool. done.
Qed.

Inductive store_step : FilesDb → FilesDb → Prop :=
  | store_add ctx f u db db' : file_valid f → add ctx f db = Ok (u, db') → store_step db db'
  | store_save ctx f now f' db db' :
      file_valid f → save ctx f now db = Ok (f', db') → store_step db db'
  | store_purge ctx s db : store_step db (purge_space ctx s db).2.

Lemma reachable_ok db : rtc store_step ∅ db → db_ok db.
Proof.
  apply rtc_invariant; [|split; intros; by rewrite lookup_empty in *].
  intros x y Hx Hxy. inversion Hxy; subst;
    eauto using add_keeps, save_keeps, purge_keeps.
Qed.

(** No stored file ever becomes unreadable.  From an empty table and after any
    adds and saves of well-formed files and any purges, reading an id succeeds for
    every workspace: its own workspace gets exactly the aggregate the row was written
    from, every other one gets nothing; and no two rows share a storage object. *)
Theorem stored_files_stay_readable db :
  rtc store_step ∅ db →
  (∀ ctx id r, db !! id = Some r →
     ∃ f, file_valid f ∧ r = to_row f ∧ file_id f = id ∧
       get ctx id db =
       Ok (if bool_decide (file_workspace_id f = workspace_id ctx) then Some f else None)) ∧
  (∀ ctx id, db !! id = None → get ctx id db = Ok None) ∧
  (∀ i j r s, db !! i = Some r → db !! j = Some s → row_storage_key r = row_storage_key s → i = j).
Proof.
  intros [Hok Hu]%reachable_ok. split_and!; [| |done].
  - intros ctx id r Hr. destruct (Hok _ _ Hr) as [Hid Hro].
    destruct (hydrate_valid _ Hro) as (f & Hf & Hv & ->). exists f. split_and!; try done.
    unfold get, in_workspace. rewrite Hr, Hf. cbn. by case_bool_decide.
  - intros ctx id Hn. unfold get. by rewrite Hn.
Qed.

(** [save] is a compare-and-set on the version.  A successful save found its row
    at the aggregate's version, moves it to the next one, stamps the time, keeps what
    describes the bytes whatever the aggregate claims, and touches no other row;
    after it every other holder of that version, however it edited its copy, is
    refused with a conflict, so no update is ever lost. *)
Theorem save_is_compare_and_set ctx f now db f' db' :
  db_ok db → save ctx f now db = Ok (f', db') →
  (∃ r r', db !! file_id f = Some r ∧ db' !! file_id f = Some r' ∧
     row_version r = version f ∧ row_version r' = version f + 1 ∧ version f' = version f + 1 ∧
     row_updated_at r' = now ∧
     row_name r' = fn_value (name f) ∧ row_status r' = status_value (status f) ∧
     row_tags r' = tags f ∧ row_deleted_at r' = deleted_at f ∧
     row_workspace_id r' = row_workspace_id r ∧ row_space_id r' = row_space_id r ∧
     row_content_type r' = row_content_type r ∧ row_size_bytes r' = row_size_bytes r ∧
     row_storage_key r' = row_storage_key r ∧ row_upload_id r' = row_upload_id r) ∧
  (∀ id, id ≠ file_id f → db' !! id = db !! id) ∧
  (∀ g later, file_id g = file_id f → version g = version f →
     save ctx g later db' = Err (App (raise_class ConflictError))).
Proof.
  intros Hok (r & Hr & Hw & Hv & Hc & -> & ->)%save_Ok. split_and!.
  - exists r, (updated_row f now r). rewrite lookup_insert_eq. cbn. rewrite Hv. done.
  - intros id Hne. by apply lookup_insert_ne.
  - intros g later Hid Hver. unfold save. rewrite Hid, lookup_insert_eq. cbn.
    rewrite Hv, Hver. rewrite (proj2 (Z.eqb_neq _ _)) by lia.
    by rewrite andb_false_r.
Qed.

(** ** Tenants *)

(** The rows a workspace owns. *)
Definition own ctx db : FilesDb :=
  filter (λ kv : text * FileRow, in_workspace ctx kv.2 = true) db.

Lemma own_where ctx db p :
  (∀ r, p r = true → in_workspace ctx r = true) →
  rows_where (own ctx db) p ≡ₚ rows_where db p.
Proof.
  intros Hp. unfold rows_where, own. induction db as [|i r db Hi Hfst IH] using map_ind.
  - by rewrite map_filter_empty.
  - rewrite map_filter_insert. rewrite (map_to_list_insert db i r) by done. cbn.
    case_decide as Hw; cbn in Hw.
    + rewrite map_to_list_insert by (by apply map_lookup_filter_None_2; left). cbn.
      destruct (p r); [by constructor|done].
    + rewrite delete_id by done.
      destruct (p r) eqn:Hpr; [by rewrite Hp in Hw|done].
Qed.

Lemma db_ok_own ctx db : db_ok db → db_ok (own ctx db).
Proof.
  intros [Hok Hu]. split.
  - intros id r [Hr _]%map_lookup_filter_Some. by apply Hok.
  - intros i j r t [Hr _]%map_lookup_filter_Some [Ht _]%map_lookup_filter_Some. by apply Hu.
Qed.

(** A sorted, duplicate-free list is determined by its members. *)
Lemma newest_first_ext (l k : list FileRow) :
  NoDup (row_id <$> l) → l ≡ₚ k → newest_first row_id l = newest_first row_id k.
Proof.
  intros Hnd Hp.
  apply (StronglySorted_unique_strong (λ x y, text_lt (row_id y) (row_id x))).
  - intros x y _ _ H1 H2. destruct (text_lt_irrefl _ (text_lt_trans _ _ _ H1 H2)).
  - by apply newest_first_strict.
  - apply newest_first_strict. by rewrite <- Hp.
  - unfold newest_first. by rewrite !merge_sort_Permutation.
Qed.

Lemma in_workspace_other ctx ctx' r :
  workspace_id ctx' ≠ workspace_id ctx → in_workspace ctx r = true → in_workspace ctx' r = false.
Proof. unfold in_workspace. rewrite bool_decide_eq_true, bool_decide_eq_false. congruence. Qed.

(** A write under [ctx] only touches rows of [ctx]'s workspace. *)
Lemma own_insert_other ctx ctx' db id r :
  workspace_id ctx' ≠ workspace_id ctx → in_workspace ctx r = true →
  (∀ r0, db !! id = Some r0 → in_workspace ctx r0 = true) →
  own ctx' (<[id := r]> db) = own ctx' db.
Proof.
  intros Hne Hr Hr0. unfold own. rewrite map_filter_insert_not'; [done| |].
  - cbn. by rewrite (in_workspace_other ctx).
  - cbn. intros r0 Hl. by rewrite (in_workspace_other ctx) by auto.
Qed.

Lemma own_purge_other ctx ctx' s db :
  workspace_id ctx' ≠ workspace_id ctx → own ctx' (purge_space ctx s db).2 = own ctx' db.
Proof.
  intros Hne. unfold own, purge_space. cbn. rewrite map_filter_filter.
  apply map_filter_ext. intros i r Hi. cbn. split; [tauto|]. intros Hw. split; [done|].
  apply not_true_iff_false. intros [Hd _]%andb_prop.
  rewrite (in_workspace_other ctx) in Hw by done. done.
Qed.

Lemma listed_own ctx s r : listed ctx s r = true → in_workspace ctx r = true.
Proof. unfold listed. intros. by unbool. Qed.

Lemma totals_own ctx ss db : totals_by_space ctx ss db = totals_by_space ctx ss (own ctx db).
Proof.
  induction ss as [|s ss IH]; [done|]. unfold totals_by_space in *. cbn [foldr]. rewrite IH.
  pose proof (own_where ctx db _ (listed_own ctx (Some s))) as Hp.
  destruct (rows_where db _) as [|r l]; [apply Permutation_nil_r in Hp; by rewrite Hp|].
  destruct (rows_where (own ctx db) _) as [|r' l']; [by apply Permutation_nil_l in Hp|].
  by rewrite <- Hp.
Qed.

Lemma ready_names_own ctx ids db : db_ok db → ready_names ctx ids db = ready_names ctx ids (own ctx db).
Proof.
  intros Hok. unfold ready_names. apply list_to_map_proper.
  - rewrite <- list_fmap_compose. exact (rows_where_ids _ _ Hok).
  - symmetry. apply fmap_Permutation, own_where. intros r Hr. by unbool.
Qed.

Lemma conflicts_own ctx f db : db_ok db → live_name_conflicts ctx f db = live_name_conflicts ctx f (own ctx db).
Proof.
  intros Hok. unfold live_name_conflicts. do 2 f_equal. symmetry.
  apply newest_first_ext; [by apply rows_where_ids, db_ok_own|]. apply own_where.
  intros r Hr. unfold same_name in Hr. by unbool.
Qed.

Lemma storage_keys_own ctx s db : storage_keys_in_space ctx s db ≡ₚ storage_keys_in_space ctx s (own ctx db).
Proof.
  unfold storage_keys_in_space.
  assert (∀ (q : text → bool) l k, l ≡ₚ k → List.filter q l ≡ₚ List.filter q k) as Hf
    by (intros q l k; induction 1; cbn; repeat case_match; by econstructor).
  apply Hf, fmap_Permutation. symmetry. apply own_where. intros r Hr. by unbool.
Qed.

(** C7: A tenant sees and changes only its own files.  Every one of the nine reads of the adapter
    gives, under [ctx], the same answer on the whole table as on the caller's own rows alone --
    of the two that have no order, the same rows --, and every successful write under [ctx]
    leaves the rows of every other workspace exactly as they were; a purge counts its own. *)
Theorem tenants_are_isolated ctx db :
  db_ok db →
  (∀ id, get ctx id db = get ctx id (own ctx db)) ∧
  (∀ s n c, list_files ctx s n c db = list_files ctx s n c (own ctx db)) ∧
  count ctx db = count ctx (own ctx db) ∧
  (∀ s, bytes_in_space ctx s db = bytes_in_space ctx s (own ctx db)) ∧
  (∀ ss, totals_by_space ctx ss db = totals_by_space ctx ss (own ctx db)) ∧
  (∀ ids, ready_names ctx ids db = ready_names ctx ids (own ctx db)) ∧
  (∀ f, live_namesakes ctx f db ≡ₚ live_namesakes ctx f (own ctx db)) ∧
  (∀ f, live_name_conflicts ctx f db = live_name_conflicts ctx f (own ctx db)) ∧
  (∀ s, storage_keys_in_space ctx s db ≡ₚ storage_keys_in_space ctx s (own ctx db)) ∧
  (∀ s, (purge_space ctx s db).1 = (purge_space ctx s (own ctx db)).1) ∧
  ∀ ctx', workspace_id ctx' ≠ workspace_id ctx →
    (∀ f u db', add ctx f db = Ok (u, db') → own ctx' db' = own ctx' db) ∧
    (∀ f now f' db', save ctx f now db = Ok (f', db') → own ctx' db' = own ctx' db) ∧
    (∀ s, own ctx' (purge_space ctx s db).2 = own ctx' db).
Proof.
  intros Hok. split_and!.
  - intros id. unfold get, own. rewrite map_lookup_filter.
    destruct (db !! id) as [r|]; cbn; [|done]. case_guard as Hw; cbn in *; [done|].
    by destruct (in_workspace ctx r).
  - intros s n c. unfold list_files, select_page.
    rewrite (newest_first_ext (rows_where db (listed ctx s)) (rows_where (own ctx db) (listed ctx s))); [done| |].
    + by apply rows_where_ids.
    + symmetry. apply own_where, listed_own.
  - unfold count. f_equal. symmetry. apply Permutation_length, own_where.
    intros r Hr. by unbool.
  - intros s. unfold bytes_in_space. symmetry. by rewrite (own_where ctx db _ (listed_own ctx (Some s))).
  - intros ss. apply totals_own.
  - intros ids. by apply ready_names_own.
  - intros f. unfold live_namesakes. symmetry. rewrite own_where; [done|].
    intros r Hr. unfold same_name in Hr. by unbool.
  - intros f. by apply conflicts_own.
  - intros s. apply storage_keys_own.
  - intros s. cbn. f_equal. symmetry. apply Permutation_length, own_where. intros r Hr. by unbool.
  - intros ctx' Hne. split_and!.
    + intros f u db' (Hw & _ & Hn & _ & ->)%add_Ok. apply (own_insert_other ctx); [done| |].
      * unfold in_workspace. by apply bool_decide_eq_true.
      * intros r0 Hr0. congruence.
    + intros f now f' db' (r & Hr & Hw & _ & _ & _ & ->)%save_Ok.
      apply (own_insert_other ctx); [done| |].
      * unfold in_workspace. by apply bool_decide_eq_true.
      * intros r0 Hr0. unfold in_workspace. apply bool_decide_eq_true. congruence.
    + intros s. by apply own_purge_other.
Qed.
End Correctness.
