(* ===== verification/Binary64.v ===== *)
(** * Binary64: Python's [float]

    IEEE 754 double precision by the specification of the Standard Library
    ([SpecFloat], 53 bits, exponents up to 1024), with the operations the modelled code
    calls: literals, conversions, [sum] as CPython 3.12 computes it, comparisons. *)

From Stdlib Require Import SpecFloat.
From S2P Require Import Prelude Text Calendar Errors Framework.

Open Scope Z_scope.

Abbreviation f64 := spec_float.

(** [float(n)] *)
Definition of_Z (n : Z) : f64 := binary_normalize 53 1024 n 0 false.

Definition fadd : f64 → f64 → f64 := SFadd 53 1024.
Definition fsub : f64 → f64 → f64 := SFsub 53 1024.
Definition fmul : f64 → f64 → f64 := SFmul 53 1024.
Definition fdiv : f64 → f64 → f64 := SFdiv 53 1024.
Definition fsqrt : f64 → f64 := SFsqrt 53 1024.
Definition flt (x y : f64) : bool := SFltb x y.

(** A literal such as [2.4]: the double nearest to [n / d]. *)
Definition lit (n d : Z) : f64 := fdiv (of_Z n) (of_Z d).

Definition fzero : f64 := S754_zero false.
Definition is_zero (x : f64) : bool := match x with S754_zero _ => true | _ => false end.
Definition is_finite (x : f64) : bool :=
  match x with S754_zero _ | S754_finite _ _ _ => true | _ => false end.

(** [int(x)] *)
Definition truncate (x : f64) : result exn Z :=
  match x with
  | S754_zero _ => Ok 0
  | S754_finite s m e =>
      let n := if 0 <=? e then Z.pos m * 2 ^ e else Z.pos m / 2 ^ (- e) in
      Ok (if s then - n else n)
  | S754_infinity _ => Err (Other "OverflowError")
  | S754_nan => Err (Other "ValueError")
  end.

(** [sum(xs)]: the first number is added to the integer 0, the others with the
    compensation of Neumaier. *)
Fixpoint sum_from (total comp : f64) (xs : list f64) : f64 :=
  match xs with
  | [] => if negb (is_zero comp) && is_finite comp then fadd total comp else total
  | x :: xs =>
      let t := fadd total x in
      let lost := if SFleb (SFabs x) (SFabs total) then fadd (fsub total t) x
                  else fadd (fsub x t) total in
      sum_from t (fadd comp lost) xs
  end.

Definition fsum (xs : list f64) : f64 :=
  match xs with
  | [] => fzero
  | x :: xs => sum_from (fadd fzero x) fzero xs
  end.

(** [round(x, 1)]: the tenth nearest to the exact value, an even one on a tie. *)
Definition half_even (n d : Z) : Z :=
  let q := n / d in
  if 2 * (n mod d) <? d then q else if d <? 2 * (n mod d) then q + 1 else if Z.even q then q else q + 1.

Definition round1 (x : f64) : f64 :=
  match x with
  | S754_finite s m e =>
      if 0 <=? e then x
      else match half_even (10 * Z.pos m) (2 ^ (- e)) with
           | Z.pos n => fdiv (S754_finite s n 0) (of_Z 10)
           | _ => S754_zero s
           end
  | x => x
  end.

(** [math.ceil(x)] of a finite number (a length over a constant, where it is used). *)
Definition fceil (x : f64) : Z :=
  match x with
  | S754_finite s m e =>
      let n := if s then Z.neg m else Z.pos m in
      if 0 <=? e then n * 2 ^ e else - (- n / 2 ^ (- e))
  | _ => 0
  end.

(** [x <= y], and [max(x, y)]. *)
Definition fle (x y : f64) : bool := SFleb x y.
Definition fmax (x y : f64) : f64 := if flt x y then y else x.

Definition is_nan (x : f64) : bool := match x with S754_nan => true | _ => false end.

(** [<] is a strict weak order on numbers: it compares these keys. *)
Definition fkey (x : f64) : Z * Z * Z :=
  match x with
  | S754_infinity true => (-2, 0, 0)
  | S754_finite true m e => (-1, - e, Z.neg m)
  | S754_zero _ | S754_nan => (0, 0, 0)
  | S754_finite false m e => (1, e, Z.pos m)
  | S754_infinity false => (2, 0, 0)
  end.

Definition key_lt (x y : Z * Z * Z) : Prop :=
  x.1.1 < y.1.1 ∨ x.1.1 = y.1.1 ∧ (x.1.2 < y.1.2 ∨ x.1.2 = y.1.2 ∧ x.2 < y.2).

Lemma flt_spec x y : flt x y = true ↔ is_nan x = false ∧ is_nan y = false ∧ key_lt (fkey x) (fkey y).
Proof.
  unfold flt, SFltb, key_lt. destruct x as [a|[]| |[] m e], y as [b|[]| |[] n f]; cbn; try (split; [done|]; lia).
  all: try (split; [intros _|done]; lia).
  all: try (split; lia).
  - destruct (Z.compare_spec e f); cbn; try (split; [done|]; lia); try (split; [intros _|done]; lia).
    change (Pos.compare_cont Eq m n) with (Pos.compare m n). destruct (Pos.compare_spec m n); cbn; lia.
  - destruct (Z.compare_spec e f); cbn; try (split; [done|]; lia); try (split; [intros _|done]; lia).
    change (Pos.compare_cont Eq m n) with (Pos.compare m n). destruct (Pos.compare_spec m n); cbn; lia.
Qed.

Lemma flt_false x y : is_nan x = false → is_nan y = false → flt x y = false → ¬ key_lt (fkey x) (fkey y).
Proof. intros Hx Hy Hf Hk. rewrite (proj2 (flt_spec x y)) in Hf by done. done. Qed.

Lemma fle_spec x y : fle x y = true ↔ is_nan x = false ∧ is_nan y = false ∧ ¬ key_lt (fkey y) (fkey x).
Proof.
  unfold fle, SFleb, key_lt. destruct x as [a|[]| |[] m e], y as [b|[]| |[] n f]; cbn; try (split; [done|]; lia).
  all: try (split; [intros _|done]; lia).
  all: try (split; lia).
  - destruct (Z.compare_spec e f); cbn; try (split; [done|]; lia); try (split; [intros _|done]; lia).
    change (Pos.compare_cont Eq m n) with (Pos.compare m n). destruct (Pos.compare_spec m n); cbn;
      try (split; [done|]; lia); split; [intros _|done|intros _|done]; lia.
  - destruct (Z.compare_spec e f); cbn; try (split; [done|]; lia); try (split; [intros _|done]; lia).
    change (Pos.compare_cont Eq m n) with (Pos.compare m n). destruct (Pos.compare_spec m n); cbn;
      try (split; [done|]; lia); split; [intros _|done|intros _|done]; lia.
Qed.

Lemma fle_not_flt x y : fle x y = true → flt y x = false.
Proof. intros (_ & _ & Hk)%fle_spec. destruct (flt y x) eqn:E; [|done]. apply flt_spec in E. tauto. Qed.

Lemma flt_fle x y : flt x y = true → fle x y = true.
Proof. rewrite flt_spec, fle_spec. unfold key_lt. intros (? & ? & ?). split_and!; [done..|lia]. Qed.

(** Not below: the order by which scores are sorted, the higher first. *)
Definition not_below (x y : f64) : bool := negb (flt x y).

Lemma not_below_total x y : not_below x y = true ∨ not_below y x = true.
Proof.
  unfold not_below. destruct (flt x y) eqn:Hxy; [|by left]. right.
  destruct (flt y x) eqn:Hyx; [|done]. apply flt_spec in Hxy, Hyx. unfold key_lt in *. lia.
Qed.

Lemma not_below_trans x y z :
  is_nan y = false → not_below x y = true → not_below y z = true → not_below x z = true.
Proof.
  unfold not_below. rewrite !negb_true_iff. intros Hy Hxy Hyz. destruct (flt x z) eqn:Hxz; [|done].
  apply flt_spec in Hxz as (Hx & Hz & Hk). apply flt_false in Hxy, Hyz; [|done..]. unfold key_lt in *. lia.
Qed.

(** [max(l)] and [max(l, key=f)], [lt] comparing the keys: the first of the greatest. *)
Fixpoint max_from {A} (lt : A → A → bool) (best : A) (l : list A) : A :=
  match l with
  | [] => best
  | x :: l => max_from lt (if lt best x then x else best) l
  end.

Lemma max_from_elem {A} (lt : A → A → bool) best l : max_from lt best l ∈ best :: l.
Proof.
  revert best; induction l as [|x l IH]; intros best; cbn; [left|].
  specialize (IH (if lt best x then x else best)). apply elem_of_cons in IH as [->|Hin].
  - destruct (lt best x); [right; left|left].
  - by right; right.
Qed.

Lemma max_from_ext {A} (lt lt' : A → A → bool) best l :
  (∀ x y, x ∈ best :: l → y ∈ best :: l → lt x y = lt' x y) → max_from lt best l = max_from lt' best l.
Proof.
  revert best; induction l as [|x l IH]; intros best Hlt; cbn; [done|].
  rewrite (Hlt best x) by set_solver. apply IH. intros y z Hy Hz.
  assert (∀ u, u ∈ (if lt' best x then x else best) :: l → u ∈ best :: x :: l) as Hsub.
  { intros u. destruct (lt' best x); set_solver. }
  apply Hlt; by apply Hsub.
Qed.

Lemma max_from_greatest {A} (f : A → f64) best l :
  (∀ x, x ∈ best :: l → is_nan (f x) = false) →
  ∀ y, y ∈ best :: l → not_below (f (max_from (λ x y, flt (f x) (f y)) best l)) (f y) = true.
Proof.
  assert (∀ x, not_below x x = true) as Hrefl by (intros x; by destruct (not_below_total x x)).
  revert best; induction l as [|x l IH]; intros best Hnan y.
  { intros ->%list_elem_of_singleton. apply Hrefl. }
  cbn [max_from]. set (b := if flt (f best) (f x) then x else best).
  assert (b ∈ best :: x :: l) as Hb by (subst b; case_match; set_solver).
  assert (∀ z, z ∈ b :: l → is_nan (f z) = false) as Hn by (intros z [->|Hz]%elem_of_cons; apply Hnan; set_solver).
  specialize (IH b Hn).
  assert (∀ z, z ∈ [best; x] → not_below (f b) (f z) = true) as Htop.
  { assert (not_below (f b) (f best) = true ∧ not_below (f b) (f x) = true) as [Hb1 Hb2];
      [|intros z [->|[->|[]%elem_of_nil]%elem_of_cons]%elem_of_cons; done].
    subst b. destruct (flt (f best) (f x)) eqn:E; split; try apply Hrefl.
    - destruct (not_below_total (f x) (f best)) as [|Hc]; [done|]. unfold not_below in Hc. by rewrite E in Hc.
    - unfold not_below. by rewrite E. }
  intros [->|[->|Hy]%elem_of_cons]%elem_of_cons; [| |apply IH; by right];
    (eapply not_below_trans; [apply (Hnan b Hb)|apply (IH b); left|apply Htop; set_solver]).
Qed.

Example nearest_literal : lit 24 10 = S754_finite false 5404319552844595 (-51).
Proof. reflexivity. Qed.

(** The naive sum is 0.9999999999999999. *)
Example sum_of_tenths : fsum (replicate 10 (lit 1 10)) = of_Z 1.
Proof. reflexivity. Qed.

(** 0.25 is a tie and 0.35 lies below one. *)
Example rounding_ties : round1 (lit 25 100) = lit 2 10 ∧ round1 (lit 35 100) = lit 3 10.
Proof. split; reflexivity. Qed.
