(* ===== verification/Lexical.v ===== *)
(** * Lexical: the words of a text and its sparse vectors

    [modules/knowledge/domain/tokenization.py] (normalisation, language detection, the
    Arabic, English and merged tokenizers) and [domain/sparse.py] (term ids, Okapi
    weights, the vectors of chunks and of queries). *)

From S2P Require Import Prelude Text Calendar Errors Framework Files Keyset Events Wire Binary64.

Open Scope Z_scope.

(** The regular expression class [\w], and [hashlib.blake2b(b, digest_size=4).digest()]. *)
Class Lexicon := { word_char : Z → bool; blake2b_4 : bytes → bytes }.

(** [\w] is alphanumeric or underscore on ASCII and no whitespace; a digest has the size
    asked for. *)
Class LexiconLaws (L : Lexicon) := {
  word_char_ascii c : is_ascii c = true →
    word_char c = is_lower (ascii_lower c) || is_digit c || (c =? 95);
  word_char_space c : py_isspace c = true → word_char c = false;
  digest_size b : length (blake2b_4 b) = 4%nat;
  digest_bytes b : Forall (λ x, 0 ≤ x < 256) (blake2b_4 b)
}.

(** ** Tokenization *)

Inductive TokenizerType : Type := T_ARABIC | T_ENGLISH | T_MULTILINGUAL.
Inductive DetectedLanguage : Type := L_ARABIC | L_ENGLISH | L_MIXED | L_UNKNOWN.

(** A literal outside ASCII. *)
Definition utf8_lit (s : string) : text := default [] (utf8_decode (txt s)).

Definition ARABIC_STOP_WORDS : list text := utf8_lit <$>
  ["أقل"; "أكثر"; "أم"; "أن"; "أنا"; "أنت"; "أنتم"; "أنتن"; "أو"; "أي"; "أيضا"; "أين"; "إلا";
   "إلى"; "إليه"; "إليها"; "إليهم"; "إن"; "التي"; "الذي"; "الذين"; "اللاتي"; "اللتان";
   "اللذان"; "اللواتي"; "ب"; "بدون"; "بعد"; "بعض"; "به"; "بها"; "بهم"; "بين"; "تحت"; "ثم";
   "جدا"; "حول"; "حيث"; "خلال"; "ذات"; "ذلك"; "سوى"; "ضد"; "ضمن"; "عبر"; "على"; "عليه";
   "عليها"; "عن"; "عند"; "غير"; "ف"; "فوق"; "في"; "فيه"; "فيها"; "فيهم"; "قبل"; "قد"; "قليل";
   "ك"; "كان"; "كثير"; "كذلك"; "كل"; "كيف"; "ل"; "لا"; "لدى"; "لكن"; "لماذا"; "له"; "لها";
   "لهم"; "لهن"; "ليس"; "ما"; "متى"; "مثل"; "مع"; "من"; "منه"; "منها"; "منهم"; "نحن"; "نحو";
   "نعم"; "نفس"; "هذا"; "هذه"; "هم"; "هن"; "هنا"; "هناك"; "هو"; "هي"; "و"; "ولكن"].

Definition ENGLISH_STOP_WORDS : list text := txt <$>
  ["a"; "all"; "an"; "and"; "are"; "as"; "at"; "be"; "both"; "but"; "by"; "can"; "each";
   "every"; "few"; "for"; "from"; "had"; "has"; "have"; "he"; "how"; "in"; "is"; "it"; "its";
   "just"; "more"; "most"; "no"; "nor"; "not"; "now"; "of"; "on"; "only"; "other"; "own";
   "same"; "should"; "so"; "some"; "such"; "than"; "that"; "the"; "they"; "this"; "to"; "too";
   "very"; "was"; "what"; "when"; "where"; "which"; "who"; "why"; "will"; "with"].

Definition ALEF_VARIANTS : list Z := [1573; 1571; 1570; 1575].
Definition HAMZA_VARIANTS : list Z := [1572; 1574].
Definition tashkeel (c : Z) : bool := ((1611 <=? c) && (c <=? 1631)) || (c =? 1648).
Definition PUNCTUATION : text :=
  txt "!" ++ [34] ++ txt "#$%&'()*+,-./:;<=>?@[\]^_`{|}~".
Definition MIN_TOKEN_LEN : Z := 2.

Definition arabic_block (c : Z) : bool := (1536 <=? c) && (c <=? 1791).
Definition english_letter (c : Z) : bool := is_lower (ascii_lower c).

(** [_X_RE.sub(to, text)] for a class of characters, and [text.replace(from, to)]. *)
Definition replace_all (p : Z → bool) (to : Z) (t : text) : text :=
  (λ c, if p c then to else c) <$> t.

Definition normalize_arabic (t : text) : text :=
  let t := replace_all (λ c, bool_decide (c ∈ ALEF_VARIANTS)) 1575 t in
  let t := replace_all (λ c, bool_decide (c ∈ HAMZA_VARIANTS)) 1569 t in
  let t := List.filter (λ c, negb (tashkeel c)) t in
  let t := replace_all (Z.eqb 1577) 1607 t in
  replace_all (Z.eqb 1609) 1610 t.

Definition count (p : Z → bool) (t : text) : Z := len (List.filter p t).

Definition detect_language (t : text) : DetectedLanguage :=
  let arabic_chars := count arabic_block t in
  let total_chars := arabic_chars + count english_letter t in
  if total_chars =? 0 then L_UNKNOWN
  else
    let arabic_ratio := fdiv (of_Z arabic_chars) (of_Z total_chars) in
    if flt (lit 6 10) arabic_ratio then L_ARABIC
    else if flt arabic_ratio (lit 3 10) then L_ENGLISH
    else L_MIXED.

(** [re.findall("[..]+", t)]: the maximal runs of characters [p] accepts. *)
Fixpoint runs_from (p : Z → bool) (run t : text) : list text :=
  match t with
  | [] => if bool_decide (run = []) then [] else [run]
  | c :: t =>
      if p c then runs_from p (run ++ [c]) t
      else if bool_decide (run = []) then runs_from p [] t else run :: runs_from p [] t
  end.

Definition find_runs (p : Z → bool) (t : text) : list text := runs_from p [] t.

Definition without (stop_words : list text) (remove_stopwords : bool) (tokens : list text) : list text :=
  if remove_stopwords then List.filter (λ w, negb (bool_decide (w ∈ stop_words))) tokens else tokens.

Definition long_enough (tokens : list text) : list text :=
  List.filter (λ w, MIN_TOKEN_LEN <=? len w) tokens.

Section Tokenize.
Context `{Unicode, Lexicon}.

Definition arabic_token_char (c : Z) : bool := arabic_block c || word_char c.

Definition tokenize_arabic (t : text) (remove_stopwords normalize : bool) : list text :=
  let t := if normalize then normalize_arabic t else t in
  long_enough (without ARABIC_STOP_WORDS remove_stopwords (find_runs arabic_token_char (lower t))).

Definition tokenize_english (t : text) (remove_stopwords : bool) : list text :=
  let translated := List.filter (λ c, negb (bool_decide (c ∈ PUNCTUATION))) (lower t) in
  long_enough (without ENGLISH_STOP_WORDS remove_stopwords (split translated)).

Definition tokenize_multilingual (t : text) (remove_stopwords normalize : bool) : list text :=
  match detect_language t with
  | L_ARABIC => tokenize_arabic t remove_stopwords normalize
  | L_ENGLISH => tokenize_english t remove_stopwords
  | L_MIXED | L_UNKNOWN =>
      dict_fromkeys (tokenize_arabic t remove_stopwords normalize ++ tokenize_english t remove_stopwords)
  end.

Definition tokenize (t : text) (tokenizer_type : TokenizerType) (remove_stopwords normalize : bool)
    : list text :=
  if bool_decide (t = []) || bool_decide (strip t = []) then []
  else match tokenizer_type with
       | T_ARABIC => tokenize_arabic t remove_stopwords normalize
       | T_ENGLISH => tokenize_english t remove_stopwords
       | T_MULTILINGUAL => tokenize_multilingual t remove_stopwords normalize
       end.

(** [tokenize(text)] with its defaults. *)
Definition default_tokens (t : text) : list text := tokenize t T_MULTILINGUAL true true.

(** ** Sparse vectors *)

Record SparseTerms := mk_SparseTerms { st_indices : list Z; st_values : list f64 }.

Definition from_bytes_big (b : bytes) : Z := foldl (λ n x, n * 256 + x) 0 b.

Definition term_id (term : text) : result exn Z :=
  b ← utf8 term; Ok (from_bytes_big (blake2b_4 b)).

Record Bm25Params := mk_Bm25Params { bm_k1 : f64; bm_b : f64; bm_avg_len : f64 }.

Definition fone : f64 := of_Z 1.

Definition weight (p : Bm25Params) (tf doc_len : Z) : result exn f64 :=
  let anchor := if flt fzero (bm_avg_len p) then bm_avg_len p else fone in
  let norm := fadd (fsub fone (bm_b p)) (fmul (bm_b p) (fdiv (of_Z doc_len) anchor)) in
  let below := fadd (of_Z tf) (fmul (bm_k1 p) norm) in
  if is_zero below then Err (Other "ZeroDivisionError")
  else Ok (fdiv (fmul (of_Z tf) (fadd (bm_k1 p) fone)) below).

(** [Counter(xs)], in order of first occurrence. *)
Definition counter (xs : list Z) : list (Z * Z) :=
  foldl (λ d x, alist_set x (default 0 (alist_get x d) + 1) d) [] xs.

Definition term_counts (t : text) (tokenizer_type : TokenizerType) (remove_stopwords normalize : bool)
    : result exn (list (Z * Z)) :=
  ids ← map_result term_id (tokenize t tokenizer_type remove_stopwords normalize);
  Ok (counter ids).

Definition ordered_ids (counts : list (Z * Z)) : list Z := sort_by Z.leb counts.*1.

(** [counts[term]]: a [Counter] answers 0 for a key it lacks. *)
Definition count_of (counts : list (Z * Z)) (term : Z) : Z := default 0 (alist_get term counts).

Definition build_sparse_terms (t : text) (tokenizer_type : TokenizerType)
    (remove_stopwords normalize : bool) : result exn SparseTerms :=
  counts ← term_counts t tokenizer_type remove_stopwords normalize;
  let ids := ordered_ids counts in
  Ok (mk_SparseTerms ids ((λ term, of_Z (count_of counts term)) <$> ids)).

Definition build_document_terms (t : text) (params : Bm25Params) (tokenizer_type : TokenizerType)
    (remove_stopwords normalize : bool) : result exn SparseTerms :=
  counts ← term_counts t tokenizer_type remove_stopwords normalize;
  let doc_len := sumZ counts.*2 in
  let ids := ordered_ids counts in
  values ← map_result (λ term, weight params (count_of counts term) doc_len) ids;
  Ok (mk_SparseTerms ids values).

Definition build_query_terms (t : text) (tokenizer_type : TokenizerType)
    (remove_stopwords normalize : bool) : result exn SparseTerms :=
  counts ← term_counts t tokenizer_type remove_stopwords normalize;
  let ids := ordered_ids counts in
  Ok (mk_SparseTerms ids ((λ _, fone) <$> ids)).
End Tokenize.

(** [_DEFAULT_BM25] of [application/indexing.py]. *)
Definition DEFAULT_BM25 : Bm25Params := mk_Bm25Params (lit 3 2) (lit 3 4) (of_Z 32).

(** ** Facts *)

Lemma runs_from_spec p r t :
  Forall (λ c, p c = true) r →
  Forall (λ w, w ≠ [] ∧ Forall (λ c, p c = true) w) (runs_from p r t).
Proof.
  revert r; induction t as [|c t IH]; intros r Hr; cbn.
  - case_bool_decide; [constructor|]. by repeat constructor.
  - destruct (p c) eqn:Hc; [apply IH, Forall_app; split; [done|by repeat constructor]|].
    case_bool_decide; [by apply IH|]. constructor; [done|by apply IH].
Qed.

Lemma runs_from_concat p r t :
  concat (runs_from p r t) = r ++ List.filter p t.
Proof.
  revert r; induction t as [|c t IH]; intros r; cbn.
  - case_bool_decide; cbn; [by subst|by rewrite !app_nil_r].
  - destruct (p c) eqn:Hc; [by rewrite IH, <- app_assoc|].
    case_bool_decide as Hr; cbn; rewrite IH; [by rewrite Hr|done].
Qed.

Lemma elem_of_kept_words stop b ws w :
  w ∈ without stop b ws ↔ w ∈ ws ∧ (b = true → w ∉ stop).
Proof.
  unfold without. destruct b; [|naive_solver]. rewrite elem_of_list_filter_bool, negb_true_iff, bool_decide_eq_false.
  naive_solver.
Qed.

Lemma elem_of_long_enough ws w : w ∈ long_enough ws ↔ w ∈ ws ∧ MIN_TOKEN_LEN ≤ len w.
Proof. unfold long_enough. by rewrite elem_of_list_filter_bool, Z.leb_le. Qed.

(** What becomes of one character. *)
Definition normal_form (c : Z) : option Z :=
  let c := if bool_decide (c ∈ ALEF_VARIANTS) then 1575 else c in
  let c := if bool_decide (c ∈ HAMZA_VARIANTS) then 1569 else c in
  if tashkeel c then None
  else let c := if 1577 =? c then 1607 else c in Some (if 1609 =? c then 1610 else c).

Lemma normalize_arabic_omap t : normalize_arabic t = omap normal_form t.
Proof.
  induction t as [|c t IH]; [done|]. cbn [omap list_omap]. fold (omap normal_form t : text). rewrite <- IH.
  unfold normalize_arabic, replace_all, normal_form. cbn zeta. rewrite !fmap_cons. cbn [List.filter].
  match goal with |- context [negb (tashkeel ?x)] => destruct (tashkeel x) end; [done|].
  cbn [negb]. by rewrite !fmap_cons.
Qed.

Lemma normal_form_idemp c d : normal_form c = Some d → normal_form d = Some d.
Proof.
  destruct (decide (c ∈ [1573; 1571; 1570; 1575; 1572; 1574; 1577; 1609])) as [Hc|Hc].
  - repeat (apply elem_of_cons in Hc as [->|Hc]; [by intros [= <-]|]). by apply elem_of_nil in Hc.
  - assert (normal_form c = if tashkeel c then None else Some c) as Heq.
    { unfold normal_form, ALEF_VARIANTS, HAMZA_VARIANTS. cbn zeta.
      rewrite !not_elem_of_cons in Hc.
      rewrite !(bool_decide_false (c ∈ _)) by (rewrite !not_elem_of_cons; tauto).
      ztest. by destruct (tashkeel c). }
    intros Hd. rewrite Heq in Hd. destruct (tashkeel c) eqn:Ht; [done|]. injection Hd as <-. exact Heq.
Qed.

Lemma normalize_arabic_idemp t : normalize_arabic (normalize_arabic t) = normalize_arabic t.
Proof.
  rewrite !normalize_arabic_omap. induction t as [|c t IH]; [done|]. cbn.
  destruct (normal_form c) as [d|] eqn:Hc; [|done]. cbn. rewrite (normal_form_idemp c d Hc). by f_equal.
Qed.

(** ** Counting *)

Definition occurrences (x : Z) (xs : list Z) : Z := count (Z.eqb x) xs.

Lemma counter_snoc xs x :
  counter (xs ++ [x]) = alist_set x (count_of (counter xs) x + 1) (counter xs).
Proof. unfold counter. by rewrite foldl_app. Qed.

Lemma occurrences_snoc x xs y : occurrences x (xs ++ [y]) = occurrences x xs + (if x =? y then 1 else 0).
Proof.
  unfold occurrences, count. rewrite List.filter_app, len_app. cbn. by destruct (x =? y).
Qed.

Lemma counter_NoDup xs : NoDup (counter xs).*1.
Proof.
  induction xs as [|x xs IH] using rev_ind; [constructor|]. rewrite counter_snoc. by apply alist_set_keys.
Qed.

Lemma counter_count xs x : count_of (counter xs) x = occurrences x xs.
Proof.
  unfold count_of. induction xs as [|y xs IH] using rev_ind; [done|].
  rewrite counter_snoc, alist_get_set_if, occurrences_snoc. unfold count_of. case_bool_decide as Hy.
  - subst y. rewrite Z.eqb_refl. cbn [default]. by rewrite IH.
  - rewrite (proj2 (Z.eqb_neq x y)) by congruence. rewrite IH. lia.
Qed.

Lemma alist_set_fst_elem (k v : Z) d x : x ∈ (alist_set k v d).*1 ↔ x = k ∨ x ∈ d.*1.
Proof.
  induction d as [|[k' v'] d IH]; cbn; [set_solver|].
  case_bool_decide; cbn; rewrite !elem_of_cons, ?IH; naive_solver.
Qed.

Lemma counter_keys xs x : x ∈ (counter xs).*1 ↔ x ∈ xs.
Proof.
  induction xs as [|y xs IH] using rev_ind; [done|].
  rewrite counter_snoc, alist_set_fst_elem, IH. set_solver.
Qed.

Lemma alist_set_sum (k v : Z) d :
  NoDup d.*1 → sumZ (alist_set k v d).*2 = sumZ d.*2 + v - default 0 (alist_get k d).
Proof.
  induction d as [|[k' v'] d IH]; cbn [fmap list_fmap alist_set alist_get fst snd].
  { intros _. rewrite !sumZ_cons, sumZ_nil. cbn. lia. }
  intros [Hk Hd]%NoDup_cons. case_bool_decide; cbn [fmap list_fmap snd default].
  - rewrite !sumZ_cons. unfold id. lia.
  - rewrite !sumZ_cons, (IH Hd). lia.
Qed.

Lemma counter_total xs : sumZ (counter xs).*2 = Z.of_nat (length xs).
Proof.
  induction xs as [|x xs IH] using rev_ind; [done|].
  rewrite counter_snoc, alist_set_sum by apply counter_NoDup. unfold count_of. rewrite IH, length_app. cbn. lia.
Qed.

Lemma ordered_ids_spec xs :
  StronglySorted Z.lt (ordered_ids (counter xs)) ∧ ∀ x, x ∈ ordered_ids (counter xs) ↔ x ∈ xs.
Proof.
  unfold ordered_ids. split; [|intros x; by rewrite sort_by_Permutation, counter_keys].
  assert (NoDup (sort_by Z.leb (counter xs).*1)) as Hnd.
  { rewrite sort_by_Permutation. apply counter_NoDup. }
  revert Hnd. assert (StronglySorted (λ x y, (x <=? y) = true) (sort_by Z.leb (counter xs).*1)) as Hs.
  { apply sort_by_sorted; intros; rewrite !Z.leb_le in *; lia. }
  induction Hs as [|x l Hl IH Hx]; [constructor|]. intros [Hni Hnd]%NoDup_cons.
  constructor; [by apply IH|]. rewrite Forall_forall in *. intros y Hy. specialize (Hx y Hy).
  apply Z.leb_le in Hx. assert (x ≠ y) by (by intros ->). lia.
Qed.

Section Vectors.
Context `{Unicode, Lexicon}.

Lemma term_counts_Ok t ty rs nz counts :
  term_counts t ty rs nz = Ok counts →
  ∃ ids, map_result term_id (tokenize t ty rs nz) = Ok ids ∧ counts = counter ids.
Proof. unfold term_counts. intros Hc. unresult. eauto. Qed.

Lemma term_ids_elem tokens ids token :
  map_result term_id tokens = Ok ids → token ∈ tokens → ∃ id, term_id token = Ok id ∧ id ∈ ids.
Proof. intros [Hl _]%map_result_Ok%Forall2_partner Hin. exact (Hl token Hin). Qed.

Lemma document_terms_spec t p ty rs nz d :
  build_document_terms t p ty rs nz = Ok d →
  ∃ ids, map_result term_id (tokenize t ty rs nz) = Ok ids ∧ st_indices d = ordered_ids (counter ids) ∧
    Forall2 (λ id v, weight p (occurrences id ids) (Z.of_nat (length ids)) = Ok v)
      (st_indices d) (st_values d).
Proof.
  unfold build_document_terms. intros (counts & (ids & Hids & ->)%term_counts_Ok & Hd)%bind_Ok.
  apply bind_Ok in Hd as (values & Hv & [= <-]). exists ids. split; [done|]. split; [done|]. cbn.
  apply map_result_Ok in Hv. rewrite counter_total in Hv. eapply Forall2_impl; [exact Hv|].
  intros id v. cbn. by rewrite counter_count.
Qed.

Lemma query_terms_spec t ty rs nz q :
  build_query_terms t ty rs nz = Ok q →
  ∃ ids, map_result term_id (tokenize t ty rs nz) = Ok ids ∧ st_indices q = ordered_ids (counter ids) ∧
    st_values q = replicate (length (st_indices q)) fone.
Proof.
  unfold build_query_terms. intros (counts & (ids & Hids & ->)%term_counts_Ok & [= <-])%bind_Ok.
  exists ids. split; [done|]. split; [done|]. cbn. generalize (ordered_ids (counter ids)) as l.
  induction l as [|x l IH]; [done|]. cbn. by f_equal.
Qed.

(** The stored vector of a chunk and the vector of a question meet on their common
    terms: the indices of each are strictly ascending ids of its own tokens, with one value
    per index; every token of the question weighs 1 wherever it is found, and a token the
    chunk has too stands there with its Okapi weight, of its number of occurrences and of
    the number of tokens of the chunk, repetitions included. *)
Theorem sparse_vectors_meet (chunk question : text) (p : Bm25Params) (d q : SparseTerms)
    (Hd : build_document_terms chunk p T_MULTILINGUAL true true = Ok d)
    (Hq : build_query_terms question T_MULTILINGUAL true true = Ok q) :
  StronglySorted Z.lt (st_indices d) ∧ StronglySorted Z.lt (st_indices q) ∧
  length (st_values d) = length (st_indices d) ∧ length (st_values q) = length (st_indices q) ∧
  ∃ ids, map_result term_id (default_tokens chunk) = Ok ids ∧
    (∀ id, id ∈ st_indices d ↔ id ∈ ids) ∧
    ∀ token, token ∈ default_tokens question →
      ∃ id i, term_id token = Ok id ∧ st_indices q !! i = Some id ∧ st_values q !! i = Some fone ∧
        (token ∈ default_tokens chunk →
         ∃ j v, st_indices d !! j = Some id ∧ st_values d !! j = Some v ∧
           weight p (occurrences id ids) (Z.of_nat (length ids)) = Ok v).
Proof.
  destruct (document_terms_spec _ _ _ _ _ _ Hd) as (ids & Hids & Hdi & Hdv).
  destruct (query_terms_spec _ _ _ _ _ Hq) as (qids & Hqids & Hqi & Hqv).
  destruct (ordered_ids_spec ids) as [Hs Hin], (ordered_ids_spec qids) as [Hqs Hqin].
  rewrite <- Hdi in Hs, Hin. rewrite <- Hqi in Hqs, Hqin.
  split; [done|]. split; [done|]. split; [symmetry; by eapply Forall2_length|].
  split; [by rewrite Hqv, length_replicate|]. exists ids. split; [done|]. split; [done|].
  intros token Htoken. destruct (term_ids_elem _ _ _ Hqids Htoken) as (id & Hid & Hq1).
  apply Hqin in Hq1. apply list_elem_of_lookup in Hq1 as [i Hi]. exists id, i.
  split; [done|]. split; [done|]. split.
  { rewrite Hqv. apply lookup_replicate. split; [done|]. by eapply lookup_lt_Some. }
  intros Hc. destruct (term_ids_elem _ _ _ Hids Hc) as (id' & Hid' & Hd1).
  assert (id' = id) as -> by congruence. apply Hin in Hd1. apply list_elem_of_lookup in Hd1 as [j Hj].
  destruct (Forall2_lookup_l _ _ _ _ _ Hdv Hj) as (v & Hv & Hw). by exists j, v.
Qed.
End Vectors.

(** ** Concrete runs *)

(** Letters beyond Latin-1 count as words; the digest adds the characters up. *)
Definition demo_lexicon : Lexicon := {|
  word_char c := is_lower (ascii_lower c) || is_digit c || (c =? 95) || (192 <=? c);
  blake2b_4 b := [0; 0; sumZ b / 256 mod 256; sumZ b mod 256]
|}.

Section Demo.
#[local] Existing Instance demo_lexicon.

Example english_terms :
  default_tokens (txt "The Quick, brown-fox and the fox") = txt <$> ["quick"; "brownfox"; "fox"].
Proof. vm_compute. reflexivity. Qed.

(** The Arabic stop words whose letters normalisation changes are not found again. *)
Example normalised_stop_words_stay :
  default_tokens (utf8_lit "على") = [utf8_lit "علي"] ∧
  length (List.filter (λ w, negb (bool_decide (default_tokens w = [])) && bool_decide (MIN_TOKEN_LEN ≤ len w))
            ARABIC_STOP_WORDS) = 22%nat.
Proof. split; vm_compute; reflexivity. Qed.

Definition demo_chunk : text := txt "Valve pressure: the valve holds".
Definition demo_question : text := txt "which valve".

Definition demo_d : SparseTerms :=
  unwrap (mk_SparseTerms [] []) (build_document_terms demo_chunk DEFAULT_BM25 T_MULTILINGUAL true true).
Definition demo_q : SparseTerms :=
  unwrap (mk_SparseTerms [] []) (build_query_terms demo_question T_MULTILINGUAL true true).

Lemma sparse_vectors_meet_witness :
  st_indices demo_q = [542] ∧ ∃ ids, map_result term_id (default_tokens demo_chunk) = Ok ids ∧ ids = [542; 889; 542; 538].
Proof.
  assert (build_document_terms demo_chunk DEFAULT_BM25 T_MULTILINGUAL true true = Ok demo_d) as Hd
    by (apply unwrap_Ok; vm_compute; reflexivity).
  assert (build_query_terms demo_question T_MULTILINGUAL true true = Ok demo_q) as Hq
    by (apply unwrap_Ok; vm_compute; reflexivity).
  pose proof (sparse_vectors_meet demo_chunk demo_question DEFAULT_BM25 demo_d demo_q Hd Hq)
    as (_ & _ & _ & _ & ids & Hids & _).
  split; [vm_compute; reflexivity|]. exists ids. split; [exact Hids|].
  assert (map_result term_id (default_tokens demo_chunk) = Ok [542; 889; 542; 538]) as Heq by (vm_compute; reflexivity).
  congruence.
Defined.
End Demo.
