(* ===== verification/Ranking.v ===== *)
(** * Ranking: what a search makes of its hits

    [modules/knowledge/domain/]: [fusion.py] (reciprocal rank fusion), [mmr.py]
    (diversity), [relevance.py] (floors and near duplicates) and [context_budget.py]. *)

From S2P Require Import Prelude Text Calendar Errors Framework Files Keyset Events Wire Binary64 Lexical.
From stdpp Require Import gmap.

Open Scope Z_scope.

(** ** Fusion *)

Record FusedChunk := mk_FusedChunk { fc_chunk_id : text; fc_score : f64 }.

(** [{chunk_id: rank for rank, chunk_id in enumerate(ids)}]: the last rank wins. *)
Definition rank_dict (ids : list text) : list (text * Z) :=
  foldl (λ d p, alist_set p.2 (Z.of_nat p.1) d) [] (imap pair ids).

(** [1.0 / n] *)
Definition reciprocal (n : Z) : result exn f64 :=
  if n =? 0 then Err (Other "ZeroDivisionError")
  else if is_finite (of_Z n) then Ok (fdiv fone (of_Z n)) else Err (Other "OverflowError").

Definition add_leg (score weight : f64) (rrf_k : Z) (rank : option Z) : result exn f64 :=
  match rank with
  | Some r => one ← reciprocal (rrf_k + r + 1); Ok (fadd score (fmul weight one))
  | None => Ok score
  end.

Definition fused_score (dense_ids bm25_ids : list text) (weight_dense weight_bm25 : f64) (rrf_k : Z)
    (chunk_id : text) : result exn f64 :=
  score ← add_leg fzero weight_dense rrf_k (alist_get chunk_id (rank_dict dense_ids));
  add_leg score weight_bm25 rrf_k (alist_get chunk_id (rank_dict bm25_ids)).

Definition higher_first (x y : FusedChunk) : bool := not_below (fc_score x) (fc_score y).

(** Every distinct id with its score, in order of first sight. *)
Definition scored_ids (dense_ids bm25_ids : list text) (weight_dense weight_bm25 : f64) (rrf_k : Z)
    : result exn (list FusedChunk) :=
  map_result (λ id, mk_FusedChunk id <$> fused_score dense_ids bm25_ids weight_dense weight_bm25 rrf_k id)
    (dict_fromkeys (dense_ids ++ bm25_ids)).

Definition reciprocal_rank_fusion (dense_ids bm25_ids : list text) (top_k : Z)
    (weight_dense weight_bm25 : f64) (rrf_k : Z) : result exn (list FusedChunk) :=
  if top_k <=? 0 then Ok []
  else
    fused ← scored_ids dense_ids bm25_ids weight_dense weight_bm25 rrf_k;
    Ok (take (Z.to_nat top_k) (sort_by higher_first fused)).

(** ** Diversity *)

Record MmrCandidate := mk_MmrCandidate { mc_chunk_id : text; mc_relevance : f64; mc_vector : list f64 }.

Definition unit_vector (vector : list f64) : list f64 :=
  let norm := fsqrt (fsum ((λ v, fmul v v) <$> vector)) in
  if is_zero norm then vector else (λ v, fdiv v norm) <$> vector.

Definition dot (a b : list f64) : f64 := fsum (zip_with fmul a b).

Definition fnth (l : list f64) (i : nat) : f64 := default fzero (l !! i).

Section Mmr.
(** The unit vectors, the normalised relevance and the clamped weight of one call. *)
Variables (units : list (list f64)) (relevance : list f64) (weight : f64).

Definition similarity (i j : nat) : f64 := dot (default [] (units !! i)) (default [] (units !! j)).

Definition mmr_value (redundancy : nat → f64) (i : nat) : f64 :=
  fsub (fmul weight (fnth relevance i)) (fmul (fsub fone weight) (redundancy i)).

Definition best_of (redundancy : nat → f64) (r : nat) (remaining : list nat) : nat :=
  max_from (λ i j, flt (mmr_value redundancy i) (mmr_value redundancy j)) r remaining.

Definition update_redundancy (first_selection : bool) (best : nat) (redundancy : list f64) (i : nat)
    : list f64 :=
  let s := similarity i best in
  <[i := if first_selection then s else fmax (fnth redundancy i) s]> redundancy.

(** The [while] loop, [more] selections before [top_n]. *)
Fixpoint mmr_loop (more : nat) (remaining : list nat) (redundancy : list f64) (selected : list nat)
    : list nat :=
  match more, remaining with
  | S more, r :: rest =>
      let best := best_of (fnth redundancy) r rest in
      let remaining := remove_first best remaining in
      let first_selection := bool_decide (selected = []) in
      mmr_loop more remaining
        (foldl (update_redundancy first_selection best) redundancy remaining) (selected ++ [best])
  | _, _ => selected
  end.
End Mmr.

(** The clamped weight, and each relevance over the best one. *)
Definition mmr_weight (lambda : f64) : f64 :=
  let positive := if flt fzero lambda then lambda else fzero in
  if flt positive fone then positive else fone.

Definition mmr_units (candidates : list MmrCandidate) : list (list f64) :=
  (λ c, unit_vector (mc_vector c)) <$> candidates.

Definition mmr_relevance (candidates : list MmrCandidate) : list f64 :=
  match candidates with
  | [] => []
  | c :: rest =>
      let best := max_from flt (mc_relevance c) (mc_relevance <$> rest) in
      (λ c, if flt fzero best then fdiv (mc_relevance c) best else fzero) <$> candidates
  end.

(** The positions selected, in order of selection. *)
Definition mmr_picks (candidates : list MmrCandidate) (top_n : Z) (lambda : f64) : list nat :=
  if (top_n <=? 0) || (length candidates =? 0)%nat then []
  else mmr_loop (mmr_units candidates) (mmr_relevance candidates) (mmr_weight lambda) (Z.to_nat top_n)
         (seq 0 (length candidates)) (replicate (length candidates) fzero) [].

Definition maximal_marginal_relevance (candidates : list MmrCandidate) (top_n : Z) (lambda : f64) : list text :=
  omap (λ i, mc_chunk_id <$> candidates !! i) (mmr_picks candidates top_n lambda).

(** ** Relevance *)

Record ScoredChunk := mk_ScoredChunk {
  sc_chunk_id : text; sc_document_id : text; sc_text : text; sc_score : f64; sc_seq : Z
}.

Definition MIN_CANDIDATES_FOR_DEDUP : nat := 2.

Definition jaccard (x y : gset text) : f64 :=
  if bool_decide (x ∪ y = ∅) then fzero
  else fdiv (of_Z (Z.of_nat (size (x ∩ y)))) (of_Z (Z.of_nat (size (x ∪ y)))).

Section Relevance.
Context `{Unicode, Lexicon}.

Definition word_set (c : ScoredChunk) : gset text := list_to_set (default_tokens (sc_text c)).

Definition near_duplicates (jaccard_threshold : f64) (x y : ScoredChunk) : bool :=
  fle jaccard_threshold (jaccard (word_set x) (word_set y)).

(** What the pair [i < j] drops. *)
Definition loser (jaccard_threshold : f64) (i j : nat * ScoredChunk) : option nat :=
  if near_duplicates jaccard_threshold i.2 j.2
  then Some (if fle (sc_score j.2) (sc_score i.2) then j.1 else i.1) else None.

Fixpoint dropped (jaccard_threshold : f64) (l : list (nat * ScoredChunk)) : list nat :=
  match l with
  | [] => []
  | i :: l => omap (loser jaccard_threshold i) l ++ dropped jaccard_threshold l
  end.

Definition dedup_near_duplicates (candidates : list ScoredChunk) (jaccard_threshold : f64) : list ScoredChunk :=
  let placed := imap pair candidates in
  let out := dropped jaccard_threshold placed in
  (List.filter (λ p, negb (bool_decide (p.1 ∈ out))) placed).*2.

(** The survivors of the two floors. *)
Definition above_floors (candidates : list ScoredChunk) (min_score relative_floor : f64) : list ScoredChunk :=
  let survivors := List.filter (λ c, fle min_score (sc_score c)) candidates in
  match survivors with
  | c :: rest =>
      if flt fzero relative_floor then
        let floor := fmul relative_floor (max_from flt (sc_score c) (sc_score <$> rest)) in
        List.filter (λ c, fle floor (sc_score c)) survivors
      else survivors
  | [] => []
  end.

Definition filter_relevant (candidates : list ScoredChunk) (min_score relative_floor : f64) (dedup : bool)
    (jaccard_threshold : f64) : list ScoredChunk :=
  let survivors := above_floors candidates min_score relative_floor in
  if negb dedup || (length survivors <? MIN_CANDIDATES_FOR_DEDUP)%nat then survivors
  else dedup_near_duplicates survivors jaccard_threshold.
End Relevance.

(** ** The budget of a context *)

Definition estimate_tokens (t : text) : Z :=
  let arabic_chars := count arabic_block t in
  let other_chars := len t - arabic_chars in
  fceil (fadd (fdiv (of_Z arabic_chars) (of_Z 2)) (fdiv (of_Z other_chars) (of_Z 4))).

Fixpoint fit_from {T} (any : bool) (used_chars used_tokens max_chars max_tokens : Z)
    (candidates : list (T * text)) : list T :=
  match candidates with
  | [] => []
  | (item, rendered) :: candidates =>
      let chars := used_chars + len rendered in
      let tokens := used_tokens + estimate_tokens rendered in
      if any && ((max_chars <? chars) || (max_tokens <? tokens)) then []
      else item :: fit_from true chars tokens max_chars max_tokens candidates
  end.

Definition fit_to_context_budget {T} (candidates : list (T * text)) (max_chars max_tokens : Z) : list T :=
  fit_from false 0 0 max_chars max_tokens candidates.

(** ** Facts about fusion *)

Lemma insert_by_ext {A} (leb leb' : A → A → bool) x l :
  (∀ y, y ∈ l → leb x y = leb' x y) → insert_by leb x l = insert_by leb' x l.
Proof.
  induction l as [|y l IH]; intros Hl; cbn; [done|]. rewrite (Hl y) by left.
  rewrite IH; [done|]. intros z Hz. apply Hl. by right.
Qed.

Lemma sort_by_ext {A} (leb leb' : A → A → bool) l :
  (∀ x y, x ∈ l → y ∈ l → leb x y = leb' x y) → sort_by leb l = sort_by leb' l.
Proof.
  unfold sort_by. induction l as [|x l IH]; intros Hl; cbn; [done|]. rewrite IH.
  - apply insert_by_ext. intros y Hy. apply Hl; [left|]. right.
    change (foldr (insert_by leb') [] l) with (sort_by leb' l) in Hy. by rewrite sort_by_Permutation in Hy.
  - intros y z Hy Hz. apply Hl; by right.
Qed.

Lemma higher_first_sorted l :
  Forall (λ c, is_nan (fc_score c) = false) l →
  StronglySorted (λ x y, higher_first x y = true) (sort_by higher_first l).
Proof.
  intros Hnan. rewrite Forall_forall in Hnan.
  set (above := λ x y, bool_decide (¬ key_lt (fkey (fc_score x)) (fkey (fc_score y)))).
  assert (∀ x y, x ∈ l → y ∈ l → higher_first x y = above x y) as Hext.
  { intros x y Hx%Hnan Hy%Hnan. unfold higher_first, not_below, above. case_bool_decide as Hk.
    - destruct (flt _ _) eqn:E; [|done]. apply flt_spec in E. tauto.
    - rewrite negb_false_iff. apply flt_spec. split; [done|]. split; [done|]. unfold key_lt in *. lia. }
  rewrite (sort_by_ext _ above) by done.
  assert (StronglySorted (λ x y, above x y = true) (sort_by above l)) as Hs.
  { apply sort_by_sorted; intros *; unfold above; rewrite !bool_decide_eq_true; unfold key_lt; lia. }
  assert (∀ x, x ∈ sort_by above l → x ∈ l) as Hin by (intros x; by rewrite sort_by_Permutation).
  induction Hs as [|x k Hk IH Hx]; [constructor|]. constructor; [apply IH; intros; apply Hin; by right|].
  rewrite Forall_forall in *. intros y Hy. rewrite Hext; [by apply Hx|apply Hin; left|apply Hin; by right].
Qed.

Lemma scored_ids_spec dense bm25 wd wb k all :
  scored_ids dense bm25 wd wb k = Ok all →
  fc_chunk_id <$> all = dict_fromkeys (dense ++ bm25) ∧
  ∀ c, c ∈ all → fused_score dense bm25 wd wb k (fc_chunk_id c) = Ok (fc_score c).
Proof.
  unfold scored_ids. intros Hall%map_result_Ok.
  assert (Forall2 (λ id c, fc_chunk_id c = id ∧ fused_score dense bm25 wd wb k id = Ok (fc_score c))
            (dict_fromkeys (dense ++ bm25)) all) as Hall2.
  { eapply Forall2_impl; [exact Hall|]. intros id c Hc. cbn in Hc.
    destruct (fused_score _ _ _ _ _ _) as [s|e] eqn:E; [|done]. cbn in Hc. by injection Hc as <-. }
  split.
  - clear Hall. induction Hall2 as [|id c ids all [Hc _] _ IH]; [done|]. cbn. by rewrite Hc, <- IH.
  - intros c Hc. apply Forall2_partner in Hall2 as [_ Hr]. destruct (Hr c Hc) as (id & _ & <- & Hs). done.
Qed.

Lemma take_sorted_rest {A} (R : A → A → Prop) n l x y :
  StronglySorted R l → x ∈ take n l → y ∈ drop n l → R x y.
Proof.
  intros Hs. revert n; induction Hs as [|z l Hl IH Hz]; intros n Hx Hy.
  { rewrite take_nil in Hx. by apply elem_of_nil in Hx. }
  destruct n as [|n]; [by apply elem_of_nil in Hx|]. cbn in Hx, Hy.
  apply elem_of_cons in Hx as [->|Hx]; [|by eapply IH].
  rewrite Forall_forall in Hz. apply Hz. rewrite <- (take_drop n l). apply elem_of_app. by right.
Qed.

(** Kept elements of a class come in the order of the whole list. *)
Lemma filter_take_prefix {A} (p : A → bool) n l : List.filter p (take n l) `prefix_of` List.filter p l.
Proof. rewrite <- (take_drop n l) at 2. rewrite List.filter_app. by eexists. Qed.

Definition same_score (s : f64) (c : FusedChunk) : bool :=
  not_below (fc_score c) s && not_below s (fc_score c).

Lemma sorted_take {A} (R : A → A → Prop) n l : StronglySorted R l → StronglySorted R (take n l).
Proof.
  intros Hs. revert n; induction Hs as [|x l Hl IH Hx]; intros [|n]; cbn; try constructor; [apply IH|].
  rewrite Forall_forall in *. intros y Hy. apply Hx. rewrite <- (take_drop n l). apply elem_of_app. by left.
Qed.

Lemma sorted_weaken {A} (R R' : A → A → Prop) l :
  (∀ x y, R x y → R' x y) → StronglySorted R l → StronglySorted R' l.
Proof. intros HR. induction 1 as [|x l Hl IH Hx]; constructor; [done|]. eapply Forall_impl; [exact Hx|]. intros y. apply HR. Qed.

Lemma ties_keep_order s all :
  is_nan s = false → List.filter (same_score s) (sort_by higher_first all) = List.filter (same_score s) all.
Proof.
  intros Hs. apply sort_by_stable. unfold same_score, higher_first. intros x y Hx Hy.
  apply andb_prop in Hx as [Hx _], Hy as [_ Hy]. by eapply not_below_trans.
Qed.

Lemma fusion_ids dense bm25 top_k wd wb k fused :
  reciprocal_rank_fusion dense bm25 top_k wd wb k = Ok fused →
  NoDup (fc_chunk_id <$> fused) ∧ ∀ c, c ∈ fused → fc_chunk_id c ∈ dense ++ bm25.
Proof.
  unfold reciprocal_rank_fusion. destruct (top_k <=? 0).
  { intros [= <-]. split; [constructor|]. by intros c ?%elem_of_nil. }
  intros (all & [Hids _]%scored_ids_spec & [= <-])%bind_Ok.
  pose proof (sort_by_Permutation higher_first all) as Hperm.
  assert (fc_chunk_id <$> sort_by higher_first all ≡ₚ dict_fromkeys (dense ++ bm25)) as Hpu by (by rewrite Hperm, Hids).
  split.
  - pose proof (NoDup_dict_fromkeys (dense ++ bm25)) as Hnd. rewrite <- Hpu in Hnd.
    rewrite <- (take_drop (Z.to_nat top_k) (sort_by higher_first all)), fmap_app in Hnd. by apply NoDup_app in Hnd as [Hnd _].
  - intros c Hc. apply elem_of_dict_fromkeys. rewrite <- Hpu. apply list_elem_of_fmap_2.
    rewrite <- (take_drop (Z.to_nat top_k) (sort_by higher_first all)). apply elem_of_app. by left.
Qed.

(** C28: Where no score is a NaN, fusion returns the [top_k] best of the distinct ids of the
    two rankings (all of them if there are fewer), each once, with the score its last rank in
    each ranking gives, the highest first; what it leaves out scores no higher than anything
    it keeps, and chunks that tie stay in the order in which they were first seen, dense
    ranking before lexical. *)
Theorem fusion_keeps_the_best (dense bm25 : list text) (top_k : Z) (wd wb : f64) (k : Z)
    (fused : list FusedChunk)
    (Hrun : reciprocal_rank_fusion dense bm25 top_k wd wb k = Ok fused) (Htop : 0 < top_k)
    (Hnan : Forall (λ id, ∀ s, fused_score dense bm25 wd wb k id = Ok s → is_nan s = false)
      (dict_fromkeys (dense ++ bm25))) :
  let union := dict_fromkeys (dense ++ bm25) in
  NoDup (fc_chunk_id <$> fused) ∧
  length fused = Nat.min (Z.to_nat top_k) (length union) ∧
  (∀ c, c ∈ fused → fc_chunk_id c ∈ union ∧ fused_score dense bm25 wd wb k (fc_chunk_id c) = Ok (fc_score c)) ∧
  StronglySorted (λ x y, flt (fc_score x) (fc_score y) = false) fused ∧
  (∀ id, id ∈ union → id ∉ fc_chunk_id <$> fused →
    ∃ s, fused_score dense bm25 wd wb k id = Ok s ∧ ∀ c, c ∈ fused → flt (fc_score c) s = false) ∧
  (∀ s, is_nan s = false → ∃ others,
    List.filter (λ id, match fused_score dense bm25 wd wb k id with
                       | Ok t => not_below t s && not_below s t | Err _ => false end) union =
    (fc_chunk_id <$> List.filter (same_score s) fused) ++ others).
Proof.
  intros union. pose proof Hrun as Hf. unfold reciprocal_rank_fusion in Hrun.
  rewrite (proj2 (Z.leb_gt top_k 0)) in Hrun by lia.
  apply bind_Ok in Hrun as (all & Hall & [= <-]). destruct (scored_ids_spec _ _ _ _ _ _ Hall) as [Hids Hscores].
  fold union in Hids. set (sorted := sort_by higher_first all).
  assert (sorted ≡ₚ all) as Hperm by apply sort_by_Permutation.
  assert (StronglySorted (λ x y, higher_first x y = true) sorted) as Hs.
  { apply higher_first_sorted, Forall_forall. intros c Hc. rewrite Forall_forall in Hnan.
    apply (Hnan (fc_chunk_id c)); [|by apply Hscores]. fold union. rewrite <- Hids. by apply list_elem_of_fmap_2. }
  split_and!.
  - by apply fusion_ids in Hf as [? _].
  - rewrite length_take. f_equal. by rewrite Hperm, <- Hids, length_fmap.
  - intros c Hc. assert (c ∈ all) as Hin.
    { rewrite <- Hperm. rewrite <- (take_drop (Z.to_nat top_k) sorted). apply elem_of_app. by left. }
    split; [|by apply Hscores]. rewrite <- Hids. by apply list_elem_of_fmap_2.
  - eapply sorted_weaken; [|by apply sorted_take]. intros x y. unfold higher_first, not_below. apply negb_true_iff.
  - intros id Hid Hout. rewrite <- Hids in Hid. apply list_elem_of_fmap in Hid as (d & -> & Hd).
    exists (fc_score d). split; [by apply Hscores|]. intros c Hc. apply negb_true_iff.
    apply (take_sorted_rest _ (Z.to_nat top_k) sorted c d Hs Hc).
    rewrite <- Hperm, <- (take_drop (Z.to_nat top_k) sorted) in Hd. apply elem_of_app in Hd as [Hd|Hd]; [|done].
    destruct Hout. by apply list_elem_of_fmap_2.
  - intros s Hsn. destruct (filter_take_prefix (same_score s) (Z.to_nat top_k) sorted) as [others Ho].
    subst sorted. rewrite (ties_keep_order s all Hsn) in Ho. exists (fc_chunk_id <$> others).
    rewrite <- fmap_app, <- Ho, <- Hids. clear -Hscores. induction all as [|c all IH]; [done|].
    cbn [fmap list_fmap List.filter]. rewrite (Hscores c) by left. fold (fmap (M:=list) fc_chunk_id all).
    rewrite IH by (intros; apply Hscores; by right). fold (same_score s c). by destruct (same_score s c).
Qed.

(** ** Facts about diversity *)

Section Greedy.
Variables (units : list (list f64)) (relevance : list f64) (weight : f64).

(** How close a candidate is to what was selected, from scratch. *)
Definition redundancy_of (selected : list nat) (i : nat) : f64 :=
  match selected with
  | [] => fzero
  | s :: rest => foldl (λ r j, fmax r (similarity units i j)) (similarity units i s) rest
  end.

Lemma redundancy_of_snoc selected best i :
  redundancy_of (selected ++ [best]) i =
  if bool_decide (selected = []) then similarity units i best
  else fmax (redundancy_of selected i) (similarity units i best).
Proof. destruct selected as [|s rest]; [done|]. cbn. by rewrite foldl_app. Qed.

(** The inner [for]: every remaining entry is brought up to date, nothing else changes. *)
Lemma update_all first best remaining red :
  NoDup remaining → Forall (λ i, (i < length red)%nat) remaining →
  let red' := foldl (update_redundancy units first best) red remaining in
  length red' = length red ∧
  ∀ i, fnth red' i =
    if bool_decide (i ∈ remaining) then
      (if first then similarity units i best else fmax (fnth red i) (similarity units i best))
    else fnth red i.
Proof.
  intros Hnd; revert red; induction Hnd as [|j l Hj Hl IH]; intros red Hin; cbn [foldl]; [by split|].
  apply Forall_cons in Hin as [Hjl Hin].
  destruct (IH (update_redundancy units first best red j)) as [Hlen Hval].
  { unfold update_redundancy. by rewrite length_insert. }
  split; [rewrite Hlen; unfold update_redundancy; apply length_insert|].
  intros i. rewrite Hval. unfold update_redundancy, fnth.
  destruct (decide (i = j)) as [->|Hne].
  - rewrite bool_decide_false by done. rewrite bool_decide_true by left. by rewrite list_lookup_insert_eq.
  - rewrite list_lookup_insert_ne by done. by rewrite (bool_decide_ext (i ∈ j :: l) (i ∈ l)) by set_solver.
Qed.

(** The loop with every redundancy recomputed. *)
Fixpoint mmr_greedy (more : nat) (remaining selected : list nat) : list nat :=
  match more, remaining with
  | S more, r :: rest =>
      let best := best_of relevance weight (redundancy_of selected) r rest in
      mmr_greedy more (remove_first best remaining) (selected ++ [best])
  | _, _ => selected
  end.

Lemma mmr_loop_greedy more remaining red selected :
  NoDup remaining →
  Forall (λ i, (i < length red)%nat ∧ fnth red i = redundancy_of selected i) remaining →
  mmr_loop units relevance weight more remaining red selected = mmr_greedy more remaining selected.
Proof.
  revert remaining red selected; induction more as [|more IH]; [done|].
  intros [|r rest] red selected Hnd Hred; [done|]. cbn [mmr_loop mmr_greedy].
  assert (best_of relevance weight (fnth red) r rest =
          best_of relevance weight (redundancy_of selected) r rest) as ->.
  { apply max_from_ext. rewrite Forall_forall in Hred. intros x y Hx%Hred Hy%Hred.
    unfold mmr_value. by rewrite (proj2 Hx), (proj2 Hy). }
  set (best := best_of _ _ _ _ _). set (rem := remove_first best (r :: rest)).
  assert (∀ i, i ∈ rem → i ∈ r :: rest) as Hsub.
  { intros i Hi. subst rem. rewrite elem_of_remove_first in Hi by done. tauto. }
  assert (NoDup rem) as Hndr by by apply NoDup_remove_first.
  rewrite Forall_forall in Hred.
  destruct (update_all (bool_decide (selected = [])) best rem red) as [Hlen Hval]; [done| |].
  { apply Forall_forall. intros i Hi. by apply Hred, Hsub. }
  apply IH; [done|]. apply Forall_forall. intros i Hi. rewrite Hlen, Hval, bool_decide_true by done.
  destruct (Hred i (Hsub i Hi)) as [Hl Hv]. split; [done|]. rewrite redundancy_of_snoc, Hv.
  by destruct (bool_decide _).
Qed.

(** A choice no other candidate left beats, where the comparison is meaningful. *)
Definition best_choice (n : nat) (selected : list nat) (i : nat) : Prop :=
  let value := mmr_value relevance weight (redundancy_of selected) in
  (∀ j, (j < n)%nat → j ∉ selected → is_nan (value j) = false) →
  ∀ j, (j < n)%nat → j ∉ selected → not_below (value i) (value j) = true.

Lemma mmr_greedy_spec n more remaining selected :
  NoDup remaining → NoDup selected →
  (∀ j, j ∈ remaining ↔ (j < n)%nat ∧ j ∉ selected) → Forall (λ j, (j < n)%nat) selected →
  ∃ tail, mmr_greedy more remaining selected = selected ++ tail ∧ NoDup (selected ++ tail) ∧
    Forall (λ j, (j < n)%nat) tail ∧ length tail = Nat.min more (length remaining) ∧
    ∀ k i, tail !! k = Some i → best_choice n (selected ++ take k tail) i.
Proof.
  revert remaining selected; induction more as [|more IH]; intros remaining selected Hr Hs Hin Hlt.
  { exists []. rewrite app_nil_r. by split_and!. }
  destruct remaining as [|r rest]; [exists []; rewrite app_nil_r; by split_and!|]. cbn [mmr_greedy].
  set (best := best_of _ _ _ r rest).
  assert (best ∈ r :: rest) as Hb by apply max_from_elem.
  pose proof (proj1 (Hin best) Hb) as [Hbn Hbs].
  destruct (IH (remove_first best (r :: rest)) (selected ++ [best])) as (tail & -> & Hnd & Hfa & Hlen & Hbest).
  - by apply NoDup_remove_first.
  - apply NoDup_app. split; [done|]. split; [|apply NoDup_singleton]. by intros x ? ->%list_elem_of_singleton.
  - intros j. rewrite elem_of_remove_first, Hin, elem_of_app, list_elem_of_singleton by done. tauto.
  - apply Forall_app. split; [done|]. by repeat constructor.
  - rewrite <- app_assoc in Hnd |- *. exists (best :: tail). split; [done|]. split; [done|].
    split; [by constructor|]. split; [pose proof (length_remove_first best (r :: rest) Hb) as Hl; cbn [length] in *; lia|].
    intros [|k] i; cbn [lookup list_lookup take].
    + intros [= <-]. rewrite app_nil_r. unfold best_choice. set (value := mmr_value _ _ _). cbn zeta. intros Hnan j Hj Hjs.
      apply (max_from_greatest value r rest); [|by apply Hin].
      intros x [? ?]%Hin. by apply Hnan.
    + intros Hk. specialize (Hbest k i Hk). by rewrite <- app_assoc in Hbest.
Qed.
End Greedy.

(** C27: Maximal marginal relevance, whose loop keeps the redundancy of what remains up to
    date instead of recomputing it, selects [top_n] different candidates (all of them if
    there are fewer), and each is the greedy choice: none of the others left has a higher
    weighted relevance minus its closeness to everything selected before, where no such
    value is a NaN. *)
Theorem mmr_is_greedy (candidates : list MmrCandidate) (top_n : Z) (lambda : f64) :
  let n := length candidates in
  let picks := mmr_picks candidates top_n lambda in
  Forall2 (λ i id, ∃ c, candidates !! i = Some c ∧ id = mc_chunk_id c) picks
    (maximal_marginal_relevance candidates top_n lambda) ∧
  NoDup picks ∧ length picks = Nat.min (Z.to_nat top_n) n ∧
  ∀ k i, picks !! k = Some i →
    best_choice (mmr_units candidates) (mmr_relevance candidates) (mmr_weight lambda) n (take k picks) i.
Proof.
  intros n picks. unfold maximal_marginal_relevance. fold picks.
  assert (Forall (λ i, (i < n)%nat) picks ∧ NoDup picks ∧ length picks = Nat.min (Z.to_nat top_n) n ∧
    ∀ k i, picks !! k = Some i →
      best_choice (mmr_units candidates) (mmr_relevance candidates) (mmr_weight lambda) n (take k picks) i)
    as (Hlt & Hspec).
  { subst picks. unfold mmr_picks. fold n. destruct (top_n <=? 0) eqn:Htop; unbool; cbn [orb].
    { assert (Z.to_nat top_n = 0%nat) as -> by lia. split_and!; [constructor..|done|by intros ? ?]. }
    destruct (Nat.eqb_spec n 0) as [->|Hn].
    { split_and!; [constructor..|by rewrite Nat.min_0_r|by intros ? ?]. }
    rewrite mmr_loop_greedy.
    - destruct (mmr_greedy_spec (mmr_units candidates) (mmr_relevance candidates) (mmr_weight lambda) n
        (Z.to_nat top_n) (seq 0 n) []) as (tail & -> & Hnd & Hfa & Hlen & Hbest).
      + apply NoDup_seq.
      + constructor.
      + intros j. rewrite elem_of_seq. split; [intros; split; [lia|apply not_elem_of_nil]|lia].
      + constructor.
      + split; [done|]. split; [done|]. split; [cbn [app]; by rewrite Hlen, length_seq|exact Hbest].
    - apply NoDup_seq.
    - apply Forall_forall. intros i Hi%elem_of_seq. rewrite length_replicate. split; [lia|].
      unfold fnth. by rewrite lookup_replicate_2 by lia. }
  split; [|done]. clear Hspec. induction Hlt as [|i picks' Hi Hlt IH]; [constructor|].
  cbn. destruct (lookup_lt_is_Some_2 candidates i Hi) as [c Hc]. rewrite Hc. constructor; [by exists c|done].
Qed.

(** ** Facts about relevance *)

Lemma list_filter_sublist {A} (p : A → bool) l : List.filter p l `sublist_of` l.
Proof. induction l as [|x l IH]; cbn; [constructor|]. destruct (p x); by constructor. Qed.

Lemma jaccard_sym x y : jaccard x y = jaccard y x.
Proof. unfold jaccard. by rewrite (union_comm_L x y), (intersection_comm_L x y). Qed.

Section Duplicates.
Context `{Unicode, Lexicon}.
Variable thr : f64.

Lemma near_sym x y : near_duplicates thr x y = near_duplicates thr y x.
Proof. unfold near_duplicates. by rewrite jaccard_sym. Qed.

Lemma dropped_lookup k l :
  k ∈ dropped thr l → ∃ a b i j, (a < b)%nat ∧ l !! a = Some i ∧ l !! b = Some j ∧
    near_duplicates thr i.2 j.2 = true ∧ k = if fle (sc_score j.2) (sc_score i.2) then j.1 else i.1.
Proof.
  induction l as [|i l IH]; cbn [dropped]; [by intros ?%elem_of_nil|]. intros [Hk|Hk]%elem_of_app.
  - apply list_elem_of_omap in Hk as (j & Hj & Hl). apply list_elem_of_lookup in Hj as [b Hb].
    unfold loser in Hl. destruct (near_duplicates thr i.2 j.2) eqn:Hn; [|done]. injection Hl as <-.
    exists 0%nat, (S b), i, j. by split_and!; [lia|..].
  - destruct (IH Hk) as (a & b & x & y & ? & ? & ? & ? & ?). exists (S a), (S b), x, y. by split_and!; [lia|..].
Qed.

(** No two that are kept are near duplicates. *)
Lemma kept_are_apart (out : list nat) l :
  (∀ k, k ∈ dropped thr l → k ∈ out) →
  StronglySorted (λ x y, near_duplicates thr x.2 y.2 = false)
    (List.filter (λ p, negb (bool_decide (p.1 ∈ out))) l).
Proof.
  induction l as [|i l IH]; intros Hout; cbn [List.filter]; [constructor|].
  assert (∀ k, k ∈ dropped thr l → k ∈ out) as Hl by (intros k Hk; apply Hout; cbn; set_solver).
  destruct (bool_decide (i.1 ∈ out)) eqn:Hi; [by apply IH|]. cbn [negb]. constructor; [by apply IH|].
  apply Forall_forall. intros j [Hj Hjo]%elem_of_list_filter_bool. apply negb_true_iff, bool_decide_eq_false in Hjo.
  apply bool_decide_eq_false in Hi. destruct (near_duplicates thr i.2 j.2) eqn:Hn; [|done]. exfalso.
  assert (loser thr i j = Some (if fle (sc_score j.2) (sc_score i.2) then j.1 else i.1)) as Hlose.
  { unfold loser. by rewrite Hn. }
  assert ((if fle (sc_score j.2) (sc_score i.2) then j.1 else i.1) ∈ out) as Hin.
  { apply Hout. cbn [dropped]. apply elem_of_app. left. apply list_elem_of_omap. eauto. }
  by case_match.
Qed.

Lemma first_best {A} (f : A → f64) l : Forall (λ x, is_nan (f x) = false) l → l ≠ [] →
  ∃ p m, l !! p = Some m ∧ (∀ x, x ∈ l → flt (f m) (f x) = false) ∧
    ∀ a x, (a < p)%nat → l !! a = Some x → flt (f x) (f m) = true.
Proof.
  induction l as [|x l IH]; [done|]. intros [Hx Hl]%Forall_cons _. destruct l as [|y l].
  { exists 0%nat, x. split; [done|]. split; [|intros a ? ?; lia]. intros z ->%list_elem_of_singleton.
    destruct (not_below_total (f x) (f x)) as [E|E]; by apply negb_true_iff in E. }
  destruct IH as (p & m & Hm & Htop & Hfirst); [done..|].
  assert (is_nan (f m) = false) as Hnm by (by eapply (Forall_lookup_1 (λ x, is_nan (f x) = false))).
  destruct (flt (f x) (f m)) eqn:E.
  - exists (S p), m. split; [done|]. split.
    + intros z [->|Hz]%elem_of_cons; [|by apply Htop]. by apply fle_not_flt, flt_fle.
    + intros [|a] z Ha; cbn; [by intros [= <-]|]. intros Hz. eapply Hfirst; [|done]. lia.
  - exists 0%nat, x. split; [done|]. split; [|intros a ? ?; lia]. apply negb_true_iff in E.
    intros z [->|Hz]%elem_of_cons; apply negb_true_iff.
    + by destruct (not_below_total (f x) (f x)).
    + eapply not_below_trans; [exact Hnm|exact E|]. apply negb_true_iff. by apply Htop.
Qed.

Lemma placed_lookup {A} (l : list A) a p : imap pair l !! a = Some p ↔ p.1 = a ∧ l !! a = Some p.2.
Proof. rewrite list_lookup_imap, fmap_Some. destruct p as [i x]. naive_solver. Qed.

Lemma placed_snd {A} (l : list A) : (imap pair l).*2 = l.
Proof. apply list_eq. intros a. rewrite list_lookup_fmap, list_lookup_imap. by destruct (l !! a). Qed.

Lemma dedup_spec l : let out := dedup_near_duplicates l thr in
  out `sublist_of` l ∧ StronglySorted (λ x y, near_duplicates thr x y = false) out ∧
  (∀ c, c ∈ l → c ∈ out ∨ ∃ w, w ∈ l ∧ near_duplicates thr c w = true ∧ flt (sc_score w) (sc_score c) = false) ∧
  (Forall (λ c, is_nan (sc_score c) = false) l → l ≠ [] →
   ∃ m, m ∈ out ∧ ∀ c, c ∈ l → flt (sc_score m) (sc_score c) = false).
Proof.
  unfold dedup_near_duplicates. set (out := dropped thr (imap pair l)).
  set (kept := List.filter _ (imap pair l)).
  assert (∀ a c, l !! a = Some c → a ∉ out → c ∈ kept.*2) as Hkeep.
  { intros a c Ha Ho. apply (list_elem_of_fmap_2 snd kept (a, c)). apply elem_of_list_filter_bool. split.
    - eapply list_elem_of_lookup_2, placed_lookup. split; [|exact Ha]. done.
    - by apply negb_true_iff, bool_decide_eq_false. }
  split_and!.
  - rewrite <- (placed_snd l) at 1. apply fmap_sublist, list_filter_sublist.
  - assert (StronglySorted (λ x y, near_duplicates thr x.2 y.2 = false) kept) as Hs by by apply kept_are_apart.
    clear Hkeep. induction Hs as [|x k Hk IH Hx]; cbn; constructor; [done|]. by apply Forall_fmap.
  - intros c [a Ha]%list_elem_of_lookup. destruct (decide (a ∈ out)) as [Ho|Ho]; [right|left; by eapply Hkeep].
    apply dropped_lookup in Ho as (x & y & i & j & Hlt & [Hi1 Hi]%placed_lookup & [Hj1 Hj]%placed_lookup & Hn & Hk).
    destruct (fle (sc_score j.2) (sc_score i.2)) eqn:Hle.
    + assert (c = j.2) as -> by congruence. exists i.2. split; [by eapply list_elem_of_lookup_2|].
      rewrite near_sym. split; [done|by apply fle_not_flt].
    + assert (c = i.2) as -> by congruence. exists j.2. split; [by eapply list_elem_of_lookup_2|]. split; [done|].
      destruct (flt (sc_score j.2) (sc_score i.2)) eqn:Hf; [|done]. apply flt_fle in Hf. congruence.
  - intros Hnan Hne. destruct (first_best sc_score l Hnan Hne) as (p & m & Hm & Htop & Hfirst).
    exists m. split; [|done]. eapply Hkeep; [exact Hm|].
    intros (x & y & i & j & Hlt & [Hi1 Hi]%placed_lookup & [Hj1 Hj]%placed_lookup & Hn & Hk)%dropped_lookup.
    destruct (fle (sc_score j.2) (sc_score i.2)) eqn:Hle.
    + assert (m = j.2) as -> by congruence. apply fle_not_flt in Hle. rewrite (Hfirst x i.2) in Hle; [done|lia|done].
    + assert (m = i.2) as -> by congruence. rewrite Forall_forall in Hnan.
      assert (fle (sc_score j.2) (sc_score i.2) = true); [|congruence]. apply fle_spec.
      assert (j.2 ∈ l) as Hjl by by eapply list_elem_of_lookup_2. specialize (Htop _ Hjl).
      apply flt_false in Htop; [|apply Hnan; by eapply list_elem_of_lookup_2|by apply Hnan].
      split_and!; [by apply Hnan|apply Hnan; by eapply list_elem_of_lookup_2|done].
Qed.
End Duplicates.

Section Filtered.
Context `{Unicode, Lexicon}.

Lemma above_floors_sublist candidates min rel : above_floors candidates min rel `sublist_of` candidates.
Proof.
  unfold above_floors. pose proof (list_filter_sublist (λ c, fle min (sc_score c)) candidates) as Hs.
  destruct (List.filter _ candidates) as [|c rest]; [apply sublist_nil_l|]. case_match; [|done].
  etrans; [apply list_filter_sublist|done].
Qed.

Lemma filter_relevant_sublist candidates min rel dedup thr :
  filter_relevant candidates min rel dedup thr `sublist_of` candidates.
Proof.
  unfold filter_relevant. pose proof (above_floors_sublist candidates min rel) as Hs.
  case_match; [done|]. etrans; [apply dedup_spec|done].
Qed.

(** The floor a relative floor sets is that share of the score of some candidate. *)
Definition below_relative_floor (candidates : list ScoredChunk) (rel : f64) (c : ScoredChunk) : Prop :=
  flt fzero rel = true ∧ ∃ top, top ∈ candidates ∧ fle (fmul rel (sc_score top)) (sc_score c) = false.

Lemma above_floors_elem candidates min rel c :
  c ∈ candidates → c ∈ above_floors candidates min rel ∨ fle min (sc_score c) = false ∨
    below_relative_floor candidates rel c.
Proof.
  intros Hc. destruct (fle min (sc_score c)) eqn:Hmin; [|by right; left].
  assert (c ∈ List.filter (λ c, fle min (sc_score c)) candidates) as Hin by by apply elem_of_list_filter_bool.
  unfold above_floors. destruct (List.filter _ candidates) as [|c0 rest] eqn:Hs; [by apply elem_of_nil in Hin|].
  destruct (flt fzero rel) eqn:Hrel; [|by left].
  set (best := max_from flt (sc_score c0) (sc_score <$> rest)).
  destruct (fle (fmul rel best) (sc_score c)) eqn:Hf; [left; by apply elem_of_list_filter_bool|].
  right; right. split; [done|]. assert (best ∈ sc_score <$> c0 :: rest) as Hb by apply max_from_elem.
  apply list_elem_of_fmap in Hb as (top & Hb & Htop). exists top. split; [|by rewrite <- Hb].
  rewrite <- Hs in Htop. by apply elem_of_list_filter_bool in Htop as [? _].
Qed.

(** What the relevance filter returns is a selection of the candidates in their order,
    of which no two are near duplicates; a candidate it leaves out is below the absolute
    floor, below the relative one, or a near duplicate of a candidate that scores no lower;
    and where no score is a NaN one of the best of those above the floors is returned. *)
Theorem relevance_filter_is_fair (candidates : list ScoredChunk) (min rel thr : f64) :
  let out := filter_relevant candidates min rel true thr in
  out `sublist_of` candidates ∧
  StronglySorted (λ x y, near_duplicates thr x y = false) out ∧
  (∀ c, c ∈ candidates → c ∈ out ∨ fle min (sc_score c) = false ∨ below_relative_floor candidates rel c ∨
    ∃ w, w ∈ candidates ∧ near_duplicates thr c w = true ∧ flt (sc_score w) (sc_score c) = false) ∧
  (Forall (λ c, is_nan (sc_score c) = false) candidates → above_floors candidates min rel ≠ [] →
   ∃ m, m ∈ out ∧ ∀ c, c ∈ above_floors candidates min rel → flt (sc_score m) (sc_score c) = false).
Proof.
  intros out. pose proof (above_floors_sublist candidates min rel) as Hsub.
  assert (∀ c, c ∈ above_floors candidates min rel → c ∈ candidates) as Hin by (intros c Hc; by eapply elem_of_sublist).
  set (l := above_floors candidates min rel) in *.
  assert (out `sublist_of` l ∧ StronglySorted (λ x y, near_duplicates thr x y = false) out ∧
    (∀ c, c ∈ l → c ∈ out ∨ ∃ w, w ∈ l ∧ near_duplicates thr c w = true ∧ flt (sc_score w) (sc_score c) = false) ∧
    (Forall (λ c, is_nan (sc_score c) = false) l → l ≠ [] →
     ∃ m, m ∈ out ∧ ∀ c, c ∈ l → flt (sc_score m) (sc_score c) = false)) as (Hs & Hap & Hout & Hbest).
  { subst out. unfold filter_relevant. fold l. cbn [negb orb].
    destruct (Nat.ltb_spec (length l) MIN_CANDIDATES_FOR_DEDUP) as [Hl|_]; [|apply dedup_spec].
    unfold MIN_CANDIDATES_FOR_DEDUP in Hl. split; [done|]. split.
    - destruct l as [|x [|y l']]; [constructor|by repeat constructor|cbn in Hl; lia].
    - split; [by left|]. intros Hnan Hne. destruct (first_best sc_score l Hnan Hne) as (p & m & Hm & Htop & _).
      exists m. split; [by eapply list_elem_of_lookup_2|done]. }
  split; [by etrans|]. split; [done|]. split.
  - intros c Hc. destruct (above_floors_elem _ min rel c Hc) as [Hl|[Hl|Hl]]; [|by auto..].
    destruct (Hout c Hl) as [|(w & Hw & Hn)]; [by left|]. right; right; right. exists w. by split; [apply Hin|].
  - intros Hnan. apply Hbest. rewrite Forall_forall in *. intros c Hc. by apply Hnan, Hin.
Qed.
End Filtered.

(** ** Facts about the budget *)

Definition chars_of {T} (l : list (T * text)) : Z := sumZ ((λ x, len x.2) <$> l).
Definition tokens_of {T} (l : list (T * text)) : Z := sumZ ((λ x, estimate_tokens x.2) <$> l).

Lemma fit_from_spec {T} (any : bool) (uc ut mc mt : Z) (l : list (T * text)) :
  ∃ n, fit_from any uc ut mc mt l = (take n l).*1 ∧ (n ≤ length l)%nat ∧
    (any = false → l ≠ [] → n ≠ 0%nat) ∧
    (uc + chars_of (take n l) ≤ mc ∧ ut + tokens_of (take n l) ≤ mt ∨ n = 0%nat ∨ any = false ∧ n = 1%nat) ∧
    ∀ x, l !! n = Some x → mc < uc + chars_of (take (S n) l) ∨ mt < ut + tokens_of (take (S n) l).
Proof.
  revert any uc ut; induction l as [|[item r] l IH]; intros any uc ut; cbn [fit_from].
  { exists 0%nat. split_and!; [done|done|done|by right; left|by intros ?]. }
  set (chars := uc + len r). set (tokens := ut + estimate_tokens r).
  assert (∀ k, uc + chars_of (take (S k) ((item, r) :: l)) = chars + chars_of (take k l) ∧
    ut + tokens_of (take (S k) ((item, r) :: l)) = tokens + tokens_of (take k l)) as Hsum.
  { intros k. unfold chars_of, tokens_of. cbn [take fmap list_fmap snd]. rewrite !sumZ_cons. subst chars tokens. lia. }
  destruct (any && _) eqn:Hover.
  - exists 0%nat. split_and!; [done|cbn; lia|by destruct any|by right; left|].
    intros x _. destruct (Hsum 0%nat) as [-> ->]. rewrite take_0. unfold chars_of, tokens_of. cbn [fmap list_fmap].
    rewrite sumZ_nil. apply andb_prop in Hover as [_ [Ho|Ho]%orb_prop]; apply Z.ltb_lt in Ho; lia.
  - destruct (IH true chars tokens) as (n & -> & Hn & _ & Hfit & Hnext). exists (S n).
    split; [done|]. split; [cbn; lia|]. split; [done|]. split.
    + destruct (Hsum n) as [-> ->]. destruct Hfit as [Hfit|[->|[? ?]]]; [by left| |done].
      destruct any; [|by right; right]. left. cbn [andb] in Hover. unbool.
      rewrite take_0. unfold chars_of, tokens_of. cbn [fmap list_fmap]. rewrite sumZ_nil. lia.
    + intros x Hx. destruct (Hsum (S n)) as [-> ->]. by apply (Hnext x).
Qed.

(** C29: Packing a context keeps the first chunks, as they come: at least one if there is
    any; more than one only while both the characters and the estimated tokens of all that
    is kept stay within their budgets; and it stops only where the next chunk would pass
    one of them. *)
Theorem budget_keeps_a_prefix {T} (candidates : list (T * text)) (max_chars max_tokens : Z) :
  ∃ n, fit_to_context_budget candidates max_chars max_tokens = (take n candidates).*1 ∧
    (n ≤ length candidates)%nat ∧ (candidates ≠ [] → n ≠ 0%nat) ∧
    ((1 < n)%nat → chars_of (take n candidates) ≤ max_chars ∧ tokens_of (take n candidates) ≤ max_tokens) ∧
    ∀ x, candidates !! n = Some x →
      max_chars < chars_of (take (S n) candidates) ∨ max_tokens < tokens_of (take (S n) candidates).
Proof.
  destruct (fit_from_spec false 0 0 max_chars max_tokens candidates) as (n & Hfit & Hn & Hany & Hin & Hnext).
  exists n. split; [done|]. split; [done|]. split; [by apply Hany|]. split; [|done].
  intros Hgt. destruct Hin as [Hin|[->|[_ ->]]]; lia.
Qed.

(** ** Concrete runs *)

Definition half : f64 := lit 1 2.
Definition demo_dense : list text := txt <$> ["a"; "b"; "c"].
Definition demo_bm25 : list text := txt <$> ["d"; "c"].
Definition demo_fused : list FusedChunk :=
  unwrap [] (reciprocal_rank_fusion demo_dense demo_bm25 3 half half 60).

Lemma fusion_keeps_the_best_witness :
  (fc_chunk_id <$> demo_fused) = txt <$> ["c"; "a"; "d"] ∧ length demo_fused = 3%nat.
Proof.
  assert (reciprocal_rank_fusion demo_dense demo_bm25 3 half half 60 = Ok demo_fused) as Hrun
    by (apply unwrap_Ok; vm_compute; reflexivity).
  pose proof (fusion_keeps_the_best demo_dense demo_bm25 3 half half 60 demo_fused Hrun ltac:(lia)) as Hspec.
  split; [vm_compute; reflexivity|]. destruct Hspec as (_ & Hlen & _).
  - apply (Forall_impl (λ id, match fused_score demo_dense demo_bm25 half half 60 id with
                              | Ok s => is_nan s = false | Err _ => False end)).
    + assert (dict_fromkeys (demo_dense ++ demo_bm25) = txt <$> ["a"; "b"; "c"; "d"]) as -> by (vm_compute; reflexivity).
      repeat constructor; vm_compute; reflexivity.
    + intros id Hid s Hs. by rewrite Hs in Hid.
  - rewrite Hlen. vm_compute. reflexivity.
Defined.

(** A chunk on the second place of one ranking alone scores below 0.5 / 61. *)
Example second_place_scores_less :
  match fused_score (txt <$> ["x"; "y"]) [] half half 60 (txt "y") with
  | Ok s => flt s (fdiv half (of_Z 61))
  | Err _ => false
  end = true.
Proof. vm_compute. reflexivity. Qed.

Definition demo_candidates : list MmrCandidate := [
  mk_MmrCandidate (txt "a") (of_Z 10) [of_Z 1; of_Z 0];
  mk_MmrCandidate (txt "b") (of_Z 9) [of_Z 2; of_Z 0];
  mk_MmrCandidate (txt "c") (of_Z 5) [of_Z 0; of_Z 3]].

(** The copy of the first gives way to the one that differs. *)
Example diversity_at_work :
  maximal_marginal_relevance demo_candidates 2 (lit 1 2) = txt <$> ["a"; "c"] ∧
  maximal_marginal_relevance demo_candidates 2 fone = txt <$> ["a"; "b"].
Proof. split; vm_compute; reflexivity. Qed.

Section Demo.
#[local] Existing Instance demo_lexicon.

Definition scored (id body : string) (score : Z) : ScoredChunk :=
  mk_ScoredChunk (txt id) (txt "doc") (txt body) (of_Z score) 0.

Example copies_are_dropped :
  sc_chunk_id <$> filter_relevant
    [scored "1" "Valve holds pressure" 3; scored "2" "pressure: valve holds!" 5; scored "3" "pump" 1;
     scored "4" "pipe" 4] (of_Z 2) fzero true (lit 95 100) = txt <$> ["2"; "4"].
Proof. vm_compute. reflexivity. Qed.
End Demo.

Example arabic_costs_more : estimate_tokens (utf8_lit "كتاب") = 2 ∧ estimate_tokens (txt "books") = 2.
Proof. split; vm_compute; reflexivity. Qed.
