(* ===== verification/Tables.v ===== *)
(** * Tables: rows as sentences, tables as parents

    [modules/knowledge/domain/tables.py]: one sentence per row, the parent text of a
    table, and the sections a summariser reads. *)

From S2P Require Import Prelude Text Calendar Errors Framework Files Keyset Events Wire.

Open Scope Z_scope.

Definition TABLE_PARENT_MAX_ROWS : nat := 20.
Definition TABLE_ROW_HARD_CAP : Z := 2000.

Definition NOISE_HEADERS : list text :=
  [txt "no."; txt "no"; txt "row"; txt "#"; txt "index"; txt "id"].

Definition EMPTY_CELL_TEXTS : list text := [txt "none"; txt "null"].

(** [str(v)] of what is neither a string, an integer nor a boolean. *)
Class Repr := { py_repr : json → text }.

Definition py_str `{Repr} (v : json) : text :=
  match v with
  | JStr t => t
  | JInt n => int_repr n
  | JBool b => if b then txt "True" else txt "False"
  | _ => py_repr v
  end.

Definition attribute_error : exn := Other "AttributeError".

(** [_fold_whitespace] *)
Definition fold_whitespace (t : text) : text := join [32] (split t).

Section Tables.
Context `{Unicode, Repr}.

(** [\d] *)
Definition is_decimal (c : Z) : bool := bool_decide (category c = txt "Nd").

Definition placeholder_header (pos : Z) : text := txt "Column_" ++ int_repr pos.

(** [_is_placeholder_header]; a folded text does not end in a newline. *)
Definition is_placeholder_header (header : text) : bool :=
  match strip_prefix (txt "Column_") (fold_whitespace header) with
  | Some (c :: t) => forallb is_decimal (c :: t)
  | _ => false
  end.

Definition is_noise_header (header : text) : bool :=
  bool_decide (lower (fold_whitespace header) ∈ NOISE_HEADERS).

Definition cell_text (value : json) : text :=
  match value with
  | JNull => []
  | _ =>
      let folded := fold_whitespace (py_str value) in
      if bool_decide (lower folded ∈ EMPTY_CELL_TEXTS) then [] else folded
  end.

(** A row is what [json.loads] made of it: [.items()] wants a dict. *)
Definition row_items (row : json) : result exn (list (text * json)) :=
  match row with JObj fields => Ok fields | _ => Err attribute_error end.

Definition row_parts (items : list (text * json)) : list text :=
  omap (λ hv, let t := cell_text hv.2 in
              if is_noise_header hv.1 || bool_decide (t = []) then None
              else Some (if is_placeholder_header hv.1 then t
                         else fold_whitespace hv.1 ++ txt ": " ++ t)) items.

Definition row_to_sentence (row : json) : result exn text :=
  items ← row_items row;
  Ok (join (txt "; ") (row_parts items)).

(** A header that is not a string has no [.split]. *)
Definition header_text (header : json) : result exn text :=
  match header with JStr t => Ok t | _ => Err attribute_error end.

Definition header_line (headers : list json) : result exn text :=
  names ← map_result header_text headers;
  Ok (join (txt "; ") (List.filter (λ folded, negb (bool_decide (folded = []))) (fold_whitespace <$>
        List.filter (λ h, negb (is_noise_header h) && negb (is_placeholder_header h)) names))).

Record ExplodedTable := mk_ExplodedTable {
  row_sentences : list text;
  parent_text : text;
  parent_is_complete : bool;
  truncated : bool;
  overflow_text : text
}.

Definition explode_table (headers rows : list json) : result exn ExplodedTable :=
  let cap := Z.to_nat TABLE_ROW_HARD_CAP in
  let truncated := (cap <? length rows)%nat in
  sentences ← map_result row_to_sentence (take cap rows);
  '(parent, complete) ←
    (if bool_decide (rows = []) then Ok ([], false)
     else if (length rows <=? TABLE_PARENT_MAX_ROWS)%nat then
       all ← map_result row_to_sentence rows; Ok (join [10] all, true)
     else line ← header_line headers; Ok (line, false));
  overflow ← (if truncated then rest ← map_result row_to_sentence (drop cap rows); Ok (join [32] rest)
              else Ok []);
  Ok (mk_ExplodedTable sentences parent complete truncated overflow).

(** ** Reading back *)

Record ChunkParent := mk_ChunkParent { cp_id : text; cp_text : text; cp_is_complete : bool }.
Record ParentedChunkText := mk_ParentedChunkText { pc_leaf : text; pc_parent : option ChunkParent }.

Fixpoint collapse_from (written : list text) (rows : list ParentedChunkText) : list text :=
  match rows with
  | [] => []
  | row :: rows =>
      match pc_parent row with
      | Some parent =>
          if cp_is_complete parent then
            if bool_decide (cp_id parent ∈ written) then collapse_from written rows
            else cp_text parent :: collapse_from (cp_id parent :: written) rows
          else pc_leaf row :: collapse_from written rows
      | None => pc_leaf row :: collapse_from written rows
      end
  end.

Definition collapse_parent_runs (rows : list ParentedChunkText) : list text := collapse_from [] rows.

(** ** Sentences *)

(** No space of a line but the blank. *)
Definition one_line (t : text) : Prop := Forall (λ c, py_isspace c = false ∨ c = 32) t.

Lemma join_Forall (P : Z → Prop) sep ws :
  Forall P sep → Forall (Forall P) ws → Forall P (join sep ws).
Proof.
  intros Hs. induction 1 as [|w ws Hw Hws IH]; [constructor|]. destruct ws; cbn [join]; [done|].
  apply Forall_app. split; [done|]. apply Forall_app. by split.
Qed.

Lemma fold_one_line t : one_line (fold_whitespace t).
Proof.
  apply join_Forall; [repeat constructor; by right|].
  eapply Forall_impl; [apply split_words|]. intros w [_ Hw].
  eapply Forall_impl; [exact Hw|]. intros c. by left.
Qed.

Lemma cell_one_line v : one_line (cell_text v).
Proof. unfold cell_text. destruct v; try constructor; case_bool_decide; try constructor; apply fold_one_line. Qed.

(** A sentence is one line, whatever its cells and its headers hold. *)
Lemma sentence_one_line row s : row_to_sentence row = Ok s → one_line s.
Proof.
  unfold row_to_sentence. intros (items & _ & Hs)%bind_Ok. injection Hs as <-.
  apply join_Forall; [repeat constructor; by right|]. apply Forall_forall. intros p Hp.
  unfold row_parts in Hp. apply list_elem_of_omap in Hp as ([h v] & _ & Hp). cbn in Hp.
  destruct (_ || _); [done|]. injection Hp as <-. destruct (is_placeholder_header h); [apply cell_one_line|].
  apply Forall_app_2; [apply fold_one_line|].
  constructor; [by left|]. constructor; [by right|apply cell_one_line].
Qed.

(** [t.split("\n")] *)
Fixpoint lines_from (line t : text) : list text :=
  match t with
  | [] => [line]
  | c :: t => if c =? 10 then line :: lines_from [] t else lines_from (line ++ [c]) t
  end.
Definition lines (t : text) : list text := lines_from [] t.

Lemma lines_from_app w u t : 10 ∉ u → lines_from w (u ++ t) = lines_from (w ++ u) t.
Proof.
  revert w; induction u as [|c u IH]; intros w; cbn; [by rewrite app_nil_r|].
  intros [Hc Hu]%not_elem_of_cons. rewrite (proj2 (Z.eqb_neq _ _)) by congruence.
  by rewrite IH, <- app_assoc.
Qed.

Lemma lines_join ss : ss ≠ [] → Forall one_line ss → lines (join [10] ss) = ss.
Proof.
  intros Hne Hss. unfold lines. induction Hss as [|s ss Hs Hss IH]; [done|].
  assert (10 ∉ s) as Hn.
  { intros Hin. eapply Forall_forall in Hs; [|exact Hin]. cbn in Hs. destruct Hs; done. }
  destruct ss as [|s' ss]; cbn [join].
  - rewrite <- (app_nil_r s) at 1. by rewrite lines_from_app.
  - rewrite lines_from_app by done. cbn [app lines_from]. rewrite Z.eqb_refl. f_equal. by apply IH.
Qed.

Lemma map_result_Err {E A B} (f : A → result E B) l e :
  map_result f l = Err e → ∃ x, x ∈ l ∧ f x = Err e.
Proof.
  induction l as [|x l IH]; cbn; [done|]. intros [Hx|(y & _ & Hl)]%bind_Err.
  - exists x. split; [left|done].
  - apply bind_Err in Hl as [Hl|(ys & _ & ?)]; [|done]. destruct (IH Hl) as (z & ? & ?).
    exists z. split; [by right|done].
Qed.

Lemma map_result_take {E A B} (f : A → result E B) n l ys :
  map_result f l = Ok ys → map_result f (take n l) = Ok (take n ys).
Proof. rewrite !map_result_Ok. apply Forall2_take. Qed.

Lemma map_result_drop {E A B} (f : A → result E B) n l ys :
  map_result f l = Ok ys → map_result f (drop n l) = Ok (drop n ys).
Proof. rewrite !map_result_Ok. apply Forall2_drop. Qed.

(** The only exception of a row. *)
Lemma rows_fail rows e : map_result row_to_sentence rows = Err e →
  e = attribute_error ∧ ∃ row, row ∈ rows ∧ row_items row = Err attribute_error.
Proof.
  intros (row & Hrow & He)%map_result_Err. apply bind_Err in He as [He|(? & _ & ?)]; [|done].
  destruct row; cbn in He; try done; injection He as <-; (split; [done|]); by eexists.
Qed.

Lemma header_line_fails headers e : header_line headers = Err e →
  e = attribute_error ∧ ∃ h, h ∈ headers ∧ header_text h = Err attribute_error.
Proof.
  intros [(h & Hh & He)%map_result_Err|(? & _ & ?)]%bind_Err; [|done].
  destruct h; cbn in He; try done; injection He as <-; (split; [done|]); by eexists.
Qed.

(** The parent text of a table all of whose rows have a sentence. *)
Lemma explode_sentences headers rows sentences :
  map_result row_to_sentence rows = Ok sentences →
  explode_table headers rows =
    (line ← (if bool_decide (rows = []) then Ok []
             else if (length rows <=? 20)%nat then Ok (join [10] sentences) else header_line headers);
     Ok (mk_ExplodedTable (take 2000 sentences) line
           (negb (bool_decide (rows = [])) && (length rows <=? 20)%nat)
           (2000 <? length rows)%nat (join [32] (drop 2000 sentences)))).
Proof.
  intros Hall. pose proof (map_result_length _ _ _ Hall) as Hlen.
  unfold explode_table. change (Z.to_nat TABLE_ROW_HARD_CAP) with 2000%nat.
  change TABLE_PARENT_MAX_ROWS with 20%nat.
  rewrite (map_result_take _ _ _ _ Hall), (map_result_drop _ _ _ _ Hall), Hall. cbn [mbind result_bind].
  assert ((2000 <? length rows)%nat = false → join [32] (drop 2000 sentences) = []) as Hdrop.
  { intros Hlt%Nat.ltb_ge. by rewrite drop_ge by lia. }
  case_bool_decide as Hnil; cbn [mbind result_bind negb andb].
  { subst rows. by rewrite Hdrop. }
  destruct (length rows <=? 20)%nat eqn:H20; cbn [mbind result_bind].
  - apply Nat.leb_le in H20. assert ((2000 <? length rows)%nat = false) as -> by (apply Nat.ltb_ge; lia).
    rewrite drop_ge by lia. done.
  - destruct (header_line headers) as [line|e]; cbn [mbind result_bind]; [|done].
    destruct (2000 <? length rows)%nat; cbn [mbind result_bind]; [done|]. by rewrite Hdrop.
Qed.

Lemma explode_fails headers rows e :
  explode_table headers rows = Err e → e = attribute_error ∧
  ((∃ row, row ∈ rows ∧ row_items row = Err attribute_error) ∨
   ((20 < length rows)%nat ∧ ∃ h, h ∈ headers ∧ header_text h = Err attribute_error)).
Proof.
  unfold explode_table.
  assert (∀ l, l ⊆ rows → map_result row_to_sentence l = Err e → e = attribute_error ∧
    ((∃ row, row ∈ rows ∧ row_items row = Err attribute_error) ∨
     ((20 < length rows)%nat ∧ ∃ h, h ∈ headers ∧ header_text h = Err attribute_error))) as Hl.
  { intros l Hl [-> (row & Hrow & He)]%rows_fail. split; [done|]. left. exists row. split; [by apply Hl|done]. }
  intros [Hs|(? & _ & [Hp|(p & _ & Ho)]%bind_Err)]%bind_Err.
  - eapply Hl; [|exact Hs]. apply subseteq_take.
  - revert Hp. case_bool_decide; [done|].
    destruct (_ <=? _)%nat eqn:Hn.
    + intros [Hp|(? & _ & ?)]%bind_Err; [|done]. by eapply Hl.
    + intros [[-> Hh]%header_line_fails|(? & _ & ?)]%bind_Err; [|done]. split; [done|]. right.
      split; [|done]. by apply Nat.leb_gt in Hn.
  - destruct p as [parent complete]. apply bind_Err in Ho as [Ho|(? & _ & ?)]; [|done].
    destruct (_ <? _)%nat; [|done]. apply bind_Err in Ho as [Ho|(? & _ & ?)]; [|done].
    eapply Hl; [|exact Ho]. apply subseteq_drop.
Qed.

Lemma explode_rows headers rows x :
  explode_table headers rows = Ok x → ∃ sentences, map_result row_to_sentence rows = Ok sentences.
Proof.
  unfold explode_table. intros (kept & Hkept & Hx)%bind_Ok. apply bind_Ok in Hx as ([parent c] & _ & Hx).
  apply bind_Ok in Hx as (overflow & Ho & _). change (Z.to_nat TABLE_ROW_HARD_CAP) with 2000%nat in *.
  destruct (2000 <? length rows)%nat eqn:Ht.
  - apply bind_Ok in Ho as (rest & Hrest & _). exists (kept ++ rest).
    rewrite <- (take_drop 2000 rows). apply map_result_app. by exists kept, rest.
  - apply Nat.ltb_ge in Ht. rewrite take_ge in Hkept by done. by exists kept.
Qed.

(** Explosion loses no row and no break: every row becomes one sentence of one line, the
    first 2000 as nodes of their own and the others, declared, in the overflow; a parent
    that calls itself complete is that of a table of 1 to 20 rows, and its lines are the
    sentences; and the only failure is a row that is no object or, past 20 rows, a
    header that is no string. *)
Theorem explosion_keeps_every_row headers rows :
  match explode_table headers rows with
  | Ok x => ∃ sentences,
      Forall2 (λ row s, row_to_sentence row = Ok s ∧ one_line s) rows sentences ∧
      row_sentences x = take 2000 sentences ∧
      truncated x = (2000 <? length rows)%nat ∧
      overflow_text x = join [32] (drop 2000 sentences) ∧
      parent_is_complete x = negb (bool_decide (rows = [])) && (length rows <=? 20)%nat ∧
      (parent_is_complete x = true → lines (parent_text x) = sentences)
  | Err e => e = attribute_error ∧
      ((∃ row, row ∈ rows ∧ row_items row = Err attribute_error) ∨
       ((20 < length rows)%nat ∧ ∃ h, h ∈ headers ∧ header_text h = Err attribute_error))
  end.
Proof.
  destruct (explode_table headers rows) as [x|e] eqn:Hx; [|by apply explode_fails].
  destruct (explode_rows _ _ _ Hx) as [sentences Hs]. exists sentences.
  rewrite (explode_sentences _ _ _ Hs) in Hx. apply map_result_Ok in Hs.
  assert (Forall2 (λ row s, row_to_sentence row = Ok s ∧ one_line s) rows sentences) as Hlines
    by (eapply Forall2_impl; [exact Hs|]; intros row s Hr; cbn in Hr; split; [done|by apply (sentence_one_line row)]).
  split; [done|]. apply bind_Ok in Hx as (line & Hline & Hx). injection Hx as <-. cbn.
  split_and!; [done..|]. intros [Hne Hle]%andb_prop. apply negb_true_iff in Hne. rewrite Hne, Hle in Hline.
  injection Hline as <-. apply lines_join.
  - apply bool_decide_eq_false in Hne. by destruct Hs.
  - clear -Hlines. induction Hlines as [|row s rows ss [_ Hs] _ IH]; by constructor.
Qed.

(** ** Sections *)

Definition same_parent (p : ChunkParent) (row : ParentedChunkText) : bool :=
  match pc_parent row with
  | Some q => cp_is_complete q && bool_decide (cp_id q = cp_id p)
  | None => false
  end.

(** A row opens a section unless an earlier one has its complete parent. *)
Definition opens (earlier : list ParentedChunkText) (row : ParentedChunkText) : bool :=
  match pc_parent row with
  | Some p => negb (cp_is_complete p && existsb (same_parent p) earlier)
  | None => true
  end.

Definition section_of (row : ParentedChunkText) : text :=
  match pc_parent row with
  | Some p => if cp_is_complete p then cp_text p else pc_leaf row
  | None => pc_leaf row
  end.

Lemma collapse_spec earlier written rows :
  (∀ p, cp_is_complete p = true → cp_id p ∈ written ↔ existsb (same_parent p) earlier = true) →
  collapse_from written rows = section_of <$> keep_given opens earlier rows.
Proof.
  revert earlier written; induction rows as [|row rows IH]; intros earlier written Hw; [done|].
  cbn [collapse_from keep_given]. unfold opens at 1.
  assert (∀ q, existsb (same_parent q) (earlier ++ [row]) = existsb (same_parent q) earlier || same_parent q row)
    as Happ by (intros q; rewrite existsb_app; cbn; by rewrite orb_false_r).
  destruct (pc_parent row) as [p|] eqn:Hp; [destruct (cp_is_complete p) eqn:Hc|].
  - pose proof (Hw p Hc) as Hpw. destruct (existsb (same_parent p) earlier) eqn:He; cbn [andb negb].
    + rewrite bool_decide_true by (by apply Hpw). apply IH. intros q Hq. rewrite Happ, (Hw q Hq).
      unfold same_parent at 3. rewrite Hp, Hc. cbn. split; [intros ->; done|].
      intros [?|Hid%bool_decide_eq_true]%orb_true_iff; [done|]. rewrite <- (Hw q Hq), <- Hid. by apply Hpw.
    + rewrite bool_decide_false by (intros Hin; by apply Hpw in Hin). cbn. unfold section_of at 1.
      rewrite Hp, Hc. f_equal. apply IH. intros q Hq. rewrite Happ, elem_of_cons, (Hw q Hq).
      unfold same_parent at 3. rewrite Hp, Hc. cbn. rewrite orb_true_iff, bool_decide_eq_true. naive_solver.
  - cbn. unfold section_of at 1. rewrite Hp, Hc. f_equal. apply IH. intros q Hq. rewrite Happ, (Hw q Hq).
    unfold same_parent at 3. rewrite Hp, Hc. cbn. by rewrite orb_false_r.
  - cbn. unfold section_of at 1. rewrite Hp. f_equal. apply IH. intros q Hq. rewrite Happ, (Hw q Hq).
    unfold same_parent at 3. rewrite Hp. by rewrite orb_false_r.
Qed.

(** Another row whose section holds this one's text: itself, or one with the same complete
    parent. *)
Definition speaks_for (row row' : ParentedChunkText) : Prop :=
  row' = row ∨ ∃ p p', pc_parent row = Some p ∧ cp_is_complete p = true ∧
    pc_parent row' = Some p' ∧ cp_is_complete p' = true ∧ cp_id p' = cp_id p.

Lemma speaks_for_trans x y z : speaks_for x y → speaks_for y z → speaks_for x z.
Proof.
  intros [->|(p & q & Hp & Hcp & Hq & Hcq & Hpq)]; [done|].
  intros [->|(q' & r & Hq' & _ & Hr & Hcr & Hqr)]; right; [by exists p, q|].
  exists p, r. split_and!; [done..|congruence].
Qed.

(** A row that opens no section has one before it that speaks for it. *)
Lemma opens_spec earlier row :
  opens earlier row = true ∨ ∃ row', row' ∈ earlier ∧ speaks_for row row'.
Proof.
  destruct (opens earlier row) eqn:Ho; [by left|right]. unfold opens in Ho.
  destruct (pc_parent row) as [p|] eqn:Hp; [|done].
  apply negb_false_iff, andb_prop in Ho as [Hc (y & Hy & Hs)%existsb_exists].
  exists y. split; [by apply list_elem_of_In|]. right. unfold same_parent in Hs.
  destruct (pc_parent y) as [p'|] eqn:Hp'; [|done]. apply andb_prop in Hs as [? ?%bool_decide_eq_true].
  by exists p, p'.
Qed.

Lemma keep_given_opens earlier rows row : row ∈ rows →
  ∃ row', (row' ∈ earlier ∨ row' ∈ keep_given opens earlier rows) ∧ speaks_for row row'.
Proof.
  revert earlier; induction rows as [|x rows IH]; intros earlier; [by intros ?%elem_of_nil|].
  assert (∃ x', (x' ∈ earlier ∨ x' ∈ keep_given opens earlier (x :: rows)) ∧ speaks_for x x') as (x' & Hx' & Hs').
  { destruct (opens_spec earlier x) as [Ho|(y & Hy & Hs)]; [|by exists y; split; [left|]].
    exists x. cbn [keep_given]. rewrite Ho. split; [right; left|by left]. }
  intros [->|Hin]%elem_of_cons; [by exists x'|].
  destruct (IH (earlier ++ [x]) Hin) as (y & [[Hy|Hy]%elem_of_app|Hy] & Hs).
  - exists y. split; [by left|done].
  - apply list_elem_of_singleton in Hy as ->. exists x'. split; [done|by eapply speaks_for_trans].
  - exists y. split; [right|done]. cbn [keep_given]. destruct (opens earlier x); [by right|done].
Qed.

(** Collapsing loses no text: the sections are, in order, those of the rows that open one;
    so where a complete parent holds the text of its rows, and parents with one id one
    text, every row's text stands in some section, and there are never more sections than
    rows. *)
Theorem collapse_keeps_every_text rows :
  collapse_parent_runs rows = section_of <$> keep_given opens [] rows ∧
  (length (collapse_parent_runs rows) ≤ length rows)%nat ∧
  ((∀ row p, row ∈ rows → pc_parent row = Some p → cp_is_complete p = true →
      ∃ a b, cp_text p = a ++ pc_leaf row ++ b) →
   (∀ row row' p p', row ∈ rows → row' ∈ rows → pc_parent row = Some p → pc_parent row' = Some p' →
      cp_id p = cp_id p' → cp_text p = cp_text p') →
   ∀ row, row ∈ rows → ∃ s a b, s ∈ collapse_parent_runs rows ∧ s = a ++ pc_leaf row ++ b).
Proof.
  assert (collapse_parent_runs rows = section_of <$> keep_given opens [] rows) as Hspec.
  { apply collapse_spec. intros p _. split; [by intros ?%elem_of_nil|done]. }
  split; [done|]. rewrite Hspec. split; [rewrite length_fmap; apply keep_given_length|].
  intros Hhold Hid row Hrow.
  assert (∃ row', row' ∈ keep_given opens [] rows ∧ ∃ a b, section_of row' = a ++ pc_leaf row ++ b)
    as (row' & Hk & a & b & Hs).
  2:{ exists (section_of row'), a, b. split; [by apply list_elem_of_fmap_2|done]. }
  destruct (keep_given_opens [] rows row Hrow) as (row' & [?%elem_of_nil|Hk] & Hs); [done|].
  exists row'. split; [done|]. pose proof (keep_given_elem _ _ _ _ Hk) as Hrow'.
  unfold section_of. destruct Hs as [->|(p & p' & Hp & Hc & Hp' & Hc' & Heq)].
  - destruct (pc_parent row) as [p|] eqn:Hp; [destruct (cp_is_complete p) eqn:Hc; [by eapply Hhold|]|];
      exists [], []; by rewrite app_nil_r.
  - rewrite Hp', Hc'. rewrite (Hid row' row p' p) by done. by eapply Hhold.
Qed.
End Tables.
