(* ===== verification/Chunking.v ===== *)
(** * Chunking: from parsed segments to numbered chunks

    [modules/knowledge/domain/chunking.py]: the word windows, their order, the node
    filter, the numbering, the word budget and the semantic boundaries. *)

From S2P Require Import Prelude Text Calendar Errors Framework Files Keyset Events Wire Binary64.

Open Scope Z_scope.

Definition MIN_NODE_CHARS : Z := 15.
Definition TOKENS_PER_WORD : f64 := lit 24 10.
Definition MAX_WORDS_SAFETY_MARGIN : f64 := lit 9 10.
Definition MIN_MAX_WORDS : Z := 32.
Definition SPLIT_OVERLAP_RATIO : f64 := lit 1 10.

Definition max_words_for_token_limit (embedding_max_input_tokens : Z) : result exn Z :=
  w ← truncate (fmul (fdiv (of_Z embedding_max_input_tokens) TOKENS_PER_WORD) MAX_WORDS_SAFETY_MARGIN);
  Ok (Z.max w MIN_MAX_WORDS).

Definition ORDER_SIGNAL_KEYS : list text :=
  [txt "page_number"; txt "position_in_doc"; txt "paragraph_number"; txt "chunk_index"].

(** A Python dict, in insertion order. *)
Abbreviation dict := (list (text * json)).

Record SourceSegment := mk_SourceSegment {
  ss_text : text;
  ss_order : Z;
  ss_kind : text;
  ss_metadata : dict;
  ss_sub_order : Z
}.

Record ChunkToIndex := mk_ChunkToIndex {
  ck_seq : Z;
  ck_text : text;
  ck_token_count : Z;
  ck_kind : text;
  ck_metadata : dict
}.

(** ** Windows *)

(** The loop of [_word_windows] from [start] on. *)
Fixpoint windows_from (fuel : nat) (span step : nat) (words : list text) : list (list text) :=
  match fuel with
  | O => []
  | S fuel =>
      if bool_decide (words = []) then []
      else take span words ::
           (if bool_decide (length words ≤ span)%nat then []
            else windows_from fuel span step (drop step words))
  end.

Definition word_windows (words : list text) (max_tokens overlap_tokens : Z) : list (list text) :=
  let span := Z.to_nat (Z.max max_tokens 1) in
  let step := Z.to_nat (Z.max (max_tokens - overlap_tokens) 1) in
  windows_from (length words) span step words.

(** [" ".join(window)] *)
Definition spaced (window : list text) : text := join [32] window.

Definition merge_short_trailing_window (windows : list (list text)) (min_chars : Z)
    : list (list text) :=
  match rev windows with
  | last :: previous :: before =>
      if min_chars <=? len (spaced last) then windows
      else rev before ++ [previous ++ last]
  | _ => windows
  end.

(** ** Order *)

Definition signal (seg : SourceSegment) (key : text) : list Z :=
  match alist_get key (ss_metadata seg) with
  | Some (JInt value) => [0; value]
  | _ => [1; 0]
  end.

(** What places a segment; [order_key] adds the place of a window in it. *)
Definition position (seg : SourceSegment) : list Z :=
  concat (signal seg <$> ORDER_SIGNAL_KEYS) ++ [ss_order seg; ss_sub_order seg].

Definition order_key (seg : SourceSegment) (split_part : nat) : list Z :=
  position seg ++ [Z.of_nat split_part].

Record Candidate := mk_Candidate {
  cd_key : list Z; cd_segment : SourceSegment; cd_window : list text
}.

(** Tuples compare like strings, component by component. *)
Definition key_leb (a b : Candidate) : bool := negb (text_ltb (cd_key b) (cd_key a)).

(** ** The node filter *)

(** [hashlib.sha256(b).hexdigest()] *)
Class HashLib := { sha256_hex : bytes → text }.

Section Chunks.
Context `{HashLib}.

Definition keep_node (t : text) (seen : list text) : result exn (bool * list text) :=
  let stripped := strip t in
  if bool_decide (stripped = []) || (len stripped <? MIN_NODE_CHARS) then Ok (false, seen)
  else
    b ← utf8 stripped;
    let digest := sha256_hex b in
    if bool_decide (digest ∈ seen) then Ok (false, seen) else Ok (true, digest :: seen).

Definition candidates_of (max_tokens overlap_tokens min_chars : Z) (seg : SourceSegment)
    : list Candidate :=
  let words := split (ss_text seg) in
  if bool_decide (words = []) then []
  else imap (λ i w, mk_Candidate (order_key seg i) seg w)
         (merge_short_trailing_window (word_windows words max_tokens overlap_tokens) min_chars).

Definition chunk_of (seq : Z) (c : Candidate) : ChunkToIndex :=
  mk_ChunkToIndex seq (spaced (cd_window c)) (Z.of_nat (length (cd_window c)))
    (ss_kind (cd_segment c)) (ss_metadata (cd_segment c)).

Fixpoint number (candidates : list Candidate) (seen : list text) (seq : Z)
    : result exn (list ChunkToIndex) :=
  match candidates with
  | [] => Ok []
  | c :: candidates =>
      '(keep, seen) ← keep_node (spaced (cd_window c)) seen;
      if keep : bool
      then rest ← number candidates seen (seq + 1); Ok (chunk_of seq c :: rest)
      else number candidates seen seq
  end.

Definition candidates (segments : list SourceSegment) (max_tokens overlap_tokens min_chars : Z)
    : list Candidate :=
  concat (candidates_of max_tokens overlap_tokens min_chars <$> segments).

Definition chunk_segments (segments : list SourceSegment) (max_tokens overlap_tokens min_chars : Z)
    : result exn (list ChunkToIndex) :=
  number (sort_by key_leb (candidates segments max_tokens overlap_tokens min_chars)) [] 0.
End Chunks.

(** ** Semantic boundaries *)

Definition SEMANTIC_BUFFER : nat := 1.
Definition SEMANTIC_BREAKPOINT_PERCENTILE : Z := 95.

Definition index_error {A} (x : option A) : result exn A :=
  match x with Some a => Ok a | None => Err (Other "IndexError") end.

(** The mean of the vectors around [index], as wide as the first of them. *)
Definition sentence_group (vectors : list (list f64)) (index buffer : nat) : result exn (list f64) :=
  let start := (index - buffer)%nat in
  let stop := Nat.min (length vectors) (index + buffer + 1) in
  let window := take (stop - start) (drop start vectors) in
  first ← index_error (head window);
  map_result (λ d, column ← map_result (λ v : list f64, index_error (v !! d)) window;
                   Ok (fdiv (fsum column) (of_Z (Z.of_nat (length window)))))
    (seq 0 (length first)).

(** [zip(a, b, strict=True)] *)
Definition zip_strict {A B} (a : list A) (b : list B) : result exn (list (A * B)) :=
  if bool_decide (length a = length b) then Ok (zip a b) else Err (Other "ValueError").

Definition cosine_distance (a b : list f64) : result exn f64 :=
  pairs ← zip_strict a b;
  let dot := fsum ((λ p, fmul p.1 p.2) <$> pairs) in
  let norm_a := fsqrt (fsum ((λ x, fmul x x) <$> a)) in
  let norm_b := fsqrt (fsum ((λ y, fmul y y) <$> b)) in
  if is_zero norm_a || is_zero norm_b then Ok (of_Z 1)
  else if is_zero (fmul norm_a norm_b) then Err (Other "ZeroDivisionError")
  else Ok (fsub (of_Z 1) (fdiv dot (fmul norm_a norm_b))).

(** Sorting is meant for numbers: the place [sorted] gives a NaN is unspecified. *)
Definition percentile_of (values : list f64) (percentile : Z) : result exn f64 :=
  if bool_decide (values = []) then Ok fzero
  else
    let ordered := sort_by (λ x y, negb (flt y x)) values in
    let top := Z.of_nat (length ordered) - 1 in
    if top =? 0 then index_error (head ordered)
    else
      let rank := fmul (fdiv (of_Z percentile) (of_Z 100)) (of_Z top) in
      lower ← truncate rank;
      let upper := Z.min (lower + 1) top in
      let fraction := fsub rank (of_Z lower) in
      x ← index_error (ordered !! Z.to_nat lower);
      y ← index_error (ordered !! Z.to_nat upper);
      Ok (fadd x (fmul (fsub y x) fraction)).

Definition above (threshold : f64) (distances : list f64) : list nat :=
  (λ p : nat * f64, S p.1) <$> List.filter (λ p, flt threshold p.2) (imap pair distances).

Definition semantic_boundaries (vectors : list (list f64)) (buffer : nat) (percentile : Z)
    : result exn (list nat) :=
  if (length vectors <? 2)%nat then Ok []
  else
    groups ← map_result (λ i, sentence_group vectors i buffer) (seq 0 (length vectors));
    distances ← map_result (λ p : list f64 * list f64, cosine_distance p.1 p.2) (zip groups (tail groups));
    threshold ← percentile_of distances percentile;
    Ok (above threshold distances).

(** ** The windows hold the text *)

Section Windows.
Implicit Types (words w : list text) (ws : list (list text)).

(** What the windows hold, overlaps counted once. *)
Fixpoint unwindow (step : nat) ws : list text :=
  match ws with
  | [] => []
  | [w] => w
  | w :: ws => take step w ++ unwindow step ws
  end.

Lemma windows_from_ok fuel span step words :
  (1 ≤ span)%nat → (1 ≤ step ≤ span)%nat → (length words ≤ fuel)%nat →
  unwindow step (windows_from fuel span step words) = words ∧
  Forall (λ w, 1 ≤ length w ≤ span)%nat (windows_from fuel span step words).
Proof.
  intros Hspan Hstep. revert words; induction fuel as [|fuel IH]; intros words Hf; cbn [windows_from].
  { destruct words; [by split|cbn in Hf; lia]. }
  case_bool_decide as Hn; [by subst|].
  assert (1 ≤ length words)%nat as Hlen by (destruct words; [done|cbn; lia]).
  case_bool_decide as Hlast.
  { rewrite take_ge by done. cbn. split; [done|]. repeat constructor; lia. }
  destruct (IH (drop step words)) as [Heq Hall]; [rewrite length_drop; lia|].
  split; [|constructor; [rewrite length_take; lia|done]].
  destruct (windows_from fuel span step (drop step words)) as [|w ws].
  { cbn in Heq. apply (f_equal length) in Heq. rewrite length_drop in Heq. cbn in Heq. lia. }
  change (take step (take span words) ++ unwindow step (w :: ws) = words).
  rewrite Heq, take_take, Nat.min_l by lia. apply take_drop.
Qed.

Lemma windows_from_Forall P fuel span step words :
  Forall P words → Forall (Forall P) (windows_from fuel span step words).
Proof.
  revert words; induction fuel as [|fuel IH]; intros words Hw; cbn; [constructor|].
  case_bool_decide; [constructor|]. constructor; [by apply Forall_take|].
  case_bool_decide; [constructor|]. by apply IH, Forall_drop.
Qed.

Lemma merge_cases ws m :
  merge_short_trailing_window ws m = ws ∨
  ∃ before previous last, ws = before ++ [previous; last] ∧ len (spaced last) < m ∧
    merge_short_trailing_window ws m = before ++ [previous ++ last].
Proof.
  unfold merge_short_trailing_window.
  destruct (rev ws) as [|last [|previous before]] eqn:Hr; [by left..|].
  destruct (m <=? len (spaced last)) eqn:Hm; [by left|]. right.
  exists (rev before), previous, last. apply Z.leb_gt in Hm. split_and!; [|done..].
  rewrite <- (rev_involutive ws), Hr. cbn. by rewrite <- app_assoc.
Qed.

(** C18: The windows of a text hold all of it: with a non-negative overlap, dropping what each
    window shares with the next gives the words back; no window is empty or wider than
    asked; and merging a short last window, which keeps the shared words twice, adds at
    most [min_chars / 2] words to one window. *)
Theorem windows_hold_the_text t max_tokens overlap min_chars :
  0 ≤ overlap →
  let words := split t in
  let windows := word_windows words max_tokens overlap in
  let span := Z.max max_tokens 1 in
  unwindow (Z.to_nat (Z.max (max_tokens - overlap) 1)) windows = words ∧
  Forall (λ w, 1 ≤ Z.of_nat (length w) ≤ span) windows ∧
  Forall (λ w, 1 ≤ Z.of_nat (length w) ≤ span + Z.max (min_chars / 2) 0)
    (merge_short_trailing_window windows min_chars).
Proof.
  intros Ho words windows span.
  destruct (windows_from_ok (length words) (Z.to_nat span) (Z.to_nat (Z.max (max_tokens - overlap) 1)) words)
    as [Heq Hall]; [subst span; lia..|].
  fold windows in Heq, Hall.
  assert (Forall (λ w, 1 ≤ Z.of_nat (length w) ≤ span) windows) as Hspan
    by (eapply Forall_impl; [exact Hall|]; intros w; cbn; lia).
  split_and!; [done..|].
  destruct (merge_cases windows min_chars) as [->|(before & previous & last & Hw & Hlast & ->)].
  { eapply Forall_impl; [exact Hspan|]. intros w; cbn; lia. }
  rewrite Hw in Hspan. apply Forall_app in Hspan as [Hb Hpl].
  apply Forall_cons in Hpl as [Hp [Hl _]%Forall_cons].
  apply Forall_app. split; [eapply Forall_impl; [exact Hb|]; intros w; cbn; lia|].
  apply Forall_singleton. rewrite length_app.
  assert (Forall is_word last) as Hwords.
  { pose proof (windows_from_Forall is_word (length words) (Z.to_nat span)
      (Z.to_nat (Z.max (max_tokens - overlap) 1)) words (split_words t)) as Hws.
    change (windows_from _ _ _ _) with windows in Hws. rewrite Hw in Hws. apply Forall_app in Hws as [_ Hws].
    by apply Forall_cons in Hws as [_ [? _]%Forall_cons]. }
  pose proof (join_words_length last Hwords) as Hj. unfold spaced in Hlast.
  assert (Z.of_nat (length last) ≤ min_chars / 2) by dlia. lia.
Qed.
End Windows.

(** ** The numbering *)

Lemma key_leb_total a b : key_leb a b = true ∨ key_leb b a = true.
Proof.
  unfold key_leb. rewrite !negb_true_iff.
  destruct (text_lt_total (cd_key a) (cd_key b)) as [Hl|[->|Hl]].
  - left. apply not_true_iff_false. intros Hl'. by apply (text_lt_irrefl (cd_key a)), (text_lt_trans _ (cd_key b)).
  - left. apply not_true_iff_false. apply text_lt_irrefl.
  - right. apply not_true_iff_false. intros Hl'. by apply (text_lt_irrefl (cd_key a)), (text_lt_trans _ (cd_key b)).
Qed.

Lemma key_leb_trans a b c : key_leb a b = true → key_leb b c = true → key_leb a c = true.
Proof.
  unfold key_leb. rewrite !negb_true_iff, <- !not_true_iff_false. intros Hab Hbc Hca.
  destruct (text_lt_total (cd_key a) (cd_key b)) as [Hl|[Hl|Hl]]; [| |done].
  - apply Hbc. by eapply text_lt_trans.
  - apply Hbc. by rewrite <- Hl.
Qed.

Lemma key_leb_anti a b : key_leb a b = true → key_leb b a = true → cd_key a = cd_key b.
Proof.
  unfold key_leb. rewrite !negb_true_iff, <- !not_true_iff_false. intros Hab Hba.
  by destruct (text_lt_total (cd_key a) (cd_key b)) as [Hl|[Hl|Hl]].
Qed.

Section Numbering.
Context `{HashLib}.
Implicit Types (c : Candidate) (cs : list Candidate).

(** The stripped text of a window, whether it is long enough, and its digest. *)
Definition node_text c : text := strip (spaced (cd_window c)).
Definition long_enough c : bool := MIN_NODE_CHARS <=? len (node_text c).
Definition encodable c : bool := is_ok (utf8 (node_text c)).
Definition digest c : text := sha256_hex (unwrap [] (utf8 (node_text c))).

(** No earlier long window has its text, as far as the digest tells. *)
Definition first_of_its_text (earlier : list Candidate) c : bool :=
  long_enough c &&
  negb (existsb (λ c', long_enough c' && bool_decide (digest c' = digest c)) earlier).

(** The reference: the windows kept, by their own and the earlier windows' text alone. *)
Definition firsts : list Candidate → list Candidate → list Candidate := keep_given first_of_its_text.

Lemma keep_node_spec earlier seen c :
  (∀ d, d ∈ seen ↔ ∃ c', c' ∈ earlier ∧ long_enough c' = true ∧ digest c' = d) →
  keep_node (spaced (cd_window c)) seen =
  if long_enough c && negb (encodable c) then Err (Other "UnicodeEncodeError")
  else Ok (first_of_its_text earlier c,
           if first_of_its_text earlier c then digest c :: seen else seen).
Proof.
  intros Hseen. unfold keep_node, first_of_its_text, encodable, digest, long_enough.
  fold (node_text c). rewrite Z.leb_antisym.
  destruct (len (node_text c) <? MIN_NODE_CHARS) eqn:Hlen; cbn [negb andb].
  { by rewrite orb_true_r. }
  rewrite orb_false_r, bool_decide_false.
  2:{ intros Hn. rewrite Hn in Hlen. done. }
  destruct (utf8 (node_text c)) as [b|e] eqn:Hb; cbn [is_ok negb unwrap].
  2:{ cbn [mbind result_bind]. f_equal. revert Hb. generalize (node_text c). clear.
      intros t; revert e; induction t as [|x t IH]; intros e; cbn; [done|].
      destruct (utf8_char x); [|by intros [= <-]].
      destruct (utf8 t) eqn:Ht; cbn; [done|]. intros [= <-]. by apply IH. }
  cbn [mbind result_bind]. set (d := sha256_hex b).
  assert (bool_decide (d ∈ seen) =
    existsb (λ c', long_enough c' && bool_decide (digest c' = d)) earlier) as ->.
  { apply eq_iff_eq_true. rewrite bool_decide_eq_true, Hseen, existsb_exists.
    split; intros (c' & Hc' & Hl).
    - exists c'. rewrite list_elem_of_In in Hc'. destruct Hl as [-> Hd]. by rewrite bool_decide_true.
    - exists c'. rewrite list_elem_of_In. apply andb_prop in Hl as [? ?%bool_decide_eq_true]. done. }
  unfold long_enough, digest. by destruct (existsb _ earlier).
Qed.

Lemma number_spec earlier seen cs n :
  (∀ d, d ∈ seen ↔ ∃ c', c' ∈ earlier ∧ long_enough c' = true ∧ digest c' = d) →
  number cs seen n =
  if existsb (λ c, long_enough c && negb (encodable c)) cs then Err (Other "UnicodeEncodeError")
  else Ok (imap (λ i, chunk_of (n + Z.of_nat i)) (firsts earlier cs)).
Proof.
  revert earlier seen n; induction cs as [|c cs IH]; intros earlier seen n Hseen; cbn [number existsb]; [done|].
  unfold firsts in *. cbn [keep_given].
  rewrite (keep_node_spec earlier) by done.
  destruct (long_enough c && negb (encodable c)); cbn [orb mbind result_bind]; [done|].
  set (k := first_of_its_text earlier c).
  assert (∀ d, d ∈ (if k then digest c :: seen else seen) ↔
    ∃ c', c' ∈ earlier ++ [c] ∧ long_enough c' = true ∧ digest c' = d) as Hseen'.
  { intros d. split.
    - intros Hd. assert (d ∈ seen ∨ (k = true ∧ d = digest c)) as [Hs|[Hk ->]].
      { destruct k; [|by left]. apply elem_of_cons in Hd as [->|]; [by right|by left]. }
      + apply Hseen in Hs as (c' & ? & ?). exists c'. split; [|done]. apply elem_of_app. by left.
      + exists c. split; [apply elem_of_app; right; by left|]. subst k. unfold first_of_its_text in Hk.
        by apply andb_prop in Hk as [? _].
    - intros (c' & [Hc'|Hc']%elem_of_app & Hl & Hd).
      + assert (d ∈ seen) by (apply Hseen; by exists c'). destruct k; [by right|done].
      + apply list_elem_of_singleton in Hc' as ->. destruct k eqn:Hk; [rewrite <- Hd; left|].
        subst k. unfold first_of_its_text in Hk. rewrite Hl in Hk.
        cbn in Hk. apply negb_false_iff, existsb_exists in Hk as (c'' & Hin & Hx).
        apply andb_prop in Hx as [Hl'' Hd''%bool_decide_eq_true]. apply Hseen. exists c''.
        rewrite list_elem_of_In. by split_and!; [..|congruence]. }
  destruct k; rewrite (IH _ _ _ Hseen').
  - destruct (existsb _ cs); cbn; [done|].
    do 2 f_equal; [f_equal; lia|]. apply imap_ext. intros i c' _. cbn. f_equal. lia.
  - done.
Qed.

(** The chunks are the windows in reading order, each text once, numbered without a gap:
    the windows of all segments sorted by their key, ties in arrival order, those kept
    that are long enough and the first with their text, numbered from 0; unless a window
    cannot be encoded, which raises. *)
Theorem chunks_are_the_first_of_their_text segments max_tokens overlap min_chars :
  let windows := candidates segments max_tokens overlap min_chars in
  let ordered := sort_by key_leb windows in
  ordered ≡ₚ windows ∧ StronglySorted (λ a b, key_leb a b = true) ordered ∧
  (∀ key, List.filter (λ c, bool_decide (cd_key c = key)) ordered =
          List.filter (λ c, bool_decide (cd_key c = key)) windows) ∧
  chunk_segments segments max_tokens overlap min_chars =
  if existsb (λ c, long_enough c && negb (encodable c)) ordered then Err (Other "UnicodeEncodeError")
  else Ok (imap (λ i, chunk_of (Z.of_nat i)) (firsts [] ordered)).
Proof.
  intros windows ordered. split_and!.
  - apply sort_by_Permutation.
  - apply sort_by_sorted; [exact key_leb_total|exact key_leb_trans].
  - intros key. apply sort_by_stable. intros x y Hx Hy.
    apply bool_decide_eq_true in Hx, Hy. unfold key_leb. rewrite Hx, Hy.
    apply negb_true_iff, not_true_iff_false, text_lt_irrefl.
  - unfold chunk_segments. rewrite (number_spec []).
    + done.
    + intros d. split; [by intros ?%elem_of_nil|]. by intros (c' & ?%elem_of_nil & _).
Qed.

(** ** The arrival order of the segments is forgotten *)

Lemma candidates_elem segments max_tokens overlap min_chars c :
  c ∈ candidates segments max_tokens overlap min_chars ↔
  ∃ seg i, seg ∈ segments ∧ split (ss_text seg) ≠ [] ∧
    ∃ w, merge_short_trailing_window (word_windows (split (ss_text seg)) max_tokens overlap) min_chars !! i = Some w ∧
      c = mk_Candidate (order_key seg i) seg w.
Proof.
  unfold candidates, candidates_of. rewrite list_elem_of_In, in_concat. split.
  - intros (l & Hl & Hc). apply list_elem_of_In, list_elem_of_fmap in Hl as (seg & -> & Hseg).
    case_bool_decide as Hw; [done|]. apply list_elem_of_In, elem_of_lookup_imap in Hc as (i & w & -> & Hi).
    exists seg, i. split_and!; [done..|]. by exists w.
  - intros (seg & i & Hseg & Hw & w & Hi & ->). eexists. split.
    + apply list_elem_of_In, list_elem_of_fmap. by exists seg.
    + rewrite bool_decide_false by done. apply list_elem_of_In, elem_of_lookup_imap. by exists i, w.
Qed.

(** Rebuilding is deterministic: where no two segments with text claim one position, the
    chunks and their numbers do not depend on the order the segments arrive in. *)
Theorem chunks_forget_arrival_order segments segments' max_tokens overlap min_chars :
  segments ≡ₚ segments' →
  NoDup (position <$> List.filter (λ seg, negb (bool_decide (split (ss_text seg) = []))) segments) →
  chunk_segments segments max_tokens overlap min_chars =
  chunk_segments segments' max_tokens overlap min_chars.
Proof.
  intros Hperm Hnd. unfold chunk_segments. f_equal.
  apply sort_by_forgets; [exact key_leb_total|exact key_leb_trans| |].
  - unfold candidates. by rewrite Hperm.
  - intros a b Ha Hb Hab Hba. pose proof (key_leb_anti a b Hab Hba) as Hkey.
    apply candidates_elem in Ha as (s & i & Hs & Hws & w & Hi & ->).
    apply candidates_elem in Hb as (s' & j & Hs' & Hws' & w' & Hj & ->).
    cbn in Hkey. unfold order_key in Hkey. apply app_inj_tail in Hkey as [Hpos Hij%Nat2Z.inj].
    assert (s = s') as <-.
    { eapply (NoDup_fmap_key position); [exact Hnd|..|exact Hpos]; apply elem_of_list_filter_bool;
        (split; [done|by apply negb_true_iff, bool_decide_eq_false]). }
    subst j. rewrite Hi in Hj. by injection Hj as ->.
Qed.
End Numbering.

(** ** Boundaries and budgets *)

Lemma above_ok threshold distances :
  StronglySorted lt (above threshold distances) ∧
  Forall (λ b, 0 < b ≤ length distances)%nat (above threshold distances).
Proof.
  unfold above. assert (∀ k, let l := (λ p : nat * f64, S p.1) <$>
      List.filter (λ p, flt threshold p.2) (imap (λ i, pair (k + i)%nat) distances) in
    StronglySorted lt l ∧ Forall (λ b, k < b ≤ k + length distances)%nat l) as Hk; [|apply (Hk 0%nat)].
  induction distances as [|d ds IH]; intros k; cbn [imap List.filter fmap list_fmap length]; [split; constructor|].
  assert (imap ((λ i, pair (k + i)%nat) ∘ S) ds = imap (λ i, pair (S k + i)%nat) ds) as ->
    by (apply imap_ext; intros; cbn; f_equal; lia).
  destruct (IH (S k)) as [Hs Hf].
  assert (Forall (λ b, k < b ≤ k + S (length ds))%nat ((λ p : nat * f64, S p.1) <$>
    List.filter (λ p, flt threshold p.2) (imap (λ i, pair (S k + i)%nat) ds))) as Hf'
    by (eapply Forall_impl; [exact Hf|]; intros b; cbn; lia).
  cbn. destruct (flt threshold d); [|done]. cbn. split.
  - constructor; [done|]. eapply Forall_impl; [exact Hf|]. intros b; cbn; lia.
  - constructor; [lia|done].
Qed.

(** Whatever the vectors, the boundaries cut the sentences into non-empty parts. *)
Lemma semantic_boundaries_cut vectors buffer percentile bs :
  semantic_boundaries vectors buffer percentile = Ok bs →
  StronglySorted lt bs ∧ Forall (λ b, 0 < b < length vectors)%nat bs.
Proof.
  unfold semantic_boundaries. destruct (_ <? 2)%nat eqn:Hn.
  { intros [= <-]. split; constructor. }
  intros Hbs. unresult.
  match goal with H : map_result _ (seq _ _) = Ok ?g |- _ => apply map_result_length in H; rename H into Hg end.
  match goal with H : map_result _ (zip _ _) = Ok ?d |- _ => apply map_result_length in H; rename H into Hd end.
  rewrite length_seq in Hg. rewrite length_zip_with in Hd. apply Nat.ltb_ge in Hn.
  assert (length (tail x) = length x - 1)%nat as Ht by (by destruct x; cbn; lia).
  match goal with |- context [above ?t ?ds] => destruct (above_ok t ds) as [Hs Hf] end.
  split; [done|]. eapply Forall_impl; [exact Hf|]. intros b; cbn. lia.
Qed.

(** With the token limits a small model has, the budget is three words for eight tokens,
    and never fewer than 32. *)
Lemma budget_is_three_eighths : ∀ n, n ∈ seq 0 513 →
  max_words_for_token_limit (Z.of_nat n) = Ok (Z.max (3 * Z.of_nat n / 8) 32).
Proof.
  intros n Hn. apply list_elem_of_In in Hn. revert n Hn.
  assert (forallb (λ n, bool_decide (max_words_for_token_limit (Z.of_nat n) =
    Ok (Z.max (3 * Z.of_nat n / 8) 32))) (seq 0 513) = true) as Hall by (vm_compute; reflexivity).
  intros n Hn. rewrite forallb_forall in Hall. by apply Hall, bool_decide_eq_true in Hn.
Qed.
