(* ===== verification/Indexing.v ===== *)
(** * Indexing: a parsed document becomes searchable points

    [modules/knowledge/application/indexing.py], with the names and fingerprints of
    [domain/collections.py]: table explosion, the batched semantic pass, page parents,
    and the batched embedding with its retry. *)

From S2P Require Import Prelude Text Calendar Errors Framework Files Keyset Events Wire Binary64 Lexical Tables Chunking.

Open Scope Z_scope.

(** ** Data *)

Inductive ParsedChunkKind : Type := TEXT | TABLE | OCR | JSON.

Definition chunk_kind_value (k : ParsedChunkKind) : text :=
  match k with TEXT => txt "text" | TABLE => txt "table" | OCR => txt "ocr" | JSON => txt "json" end.

Record ParsedChunk := mk_ParsedChunk {
  pk_text : text; pk_order : Z; pk_kind : ParsedChunkKind; pk_metadata : dict
}.

Definition PARENT_KEY : text := txt "_parent_key".
Definition TEXT_PARENT_MAX_CHARS : Z := 4000.
Definition PARENT_GROUP_KEYS : list text := [txt "page_number"; txt "sheet_name"].
Definition DOCUMENT_GROUP : text := txt "document".
Definition EMBED_BATCH : nat := 128.
Definition MIN_SENTENCES_TO_SPLIT : nat := 2.
Definition MIN_SEMANTIC_PARTS : nat := 2.
Definition CITATION_KEYS : list text :=
  [txt "file_name"; txt "page_number"; txt "section"; txt "sheet_name"; txt "section_type"; txt "table_name"].

Record ParentChunkDraft := mk_ParentChunkDraft {
  pd_key : text; pd_order : Z; pd_text : text; pd_is_complete : bool
}.

Record SentenceRequest := mk_SentenceRequest {
  rq_chunk : ParsedChunk; rq_sentences : list text; rq_slot : nat
}.

Record IndexedChunk := mk_IndexedChunk {
  ix_chunk_id : text; ix_seq : Z; ix_text : text; ix_token_count : Z; ix_parent_key : option json
}.

Record IndexOutcome := mk_IndexOutcome {
  io_collection : text; io_dimensions : Z; io_chunks : list IndexedChunk;
  io_parents : list ParentChunkDraft; io_text_chunks : Z; io_table_chunks : Z; io_image_chunks : Z
}.

(** ** Sentences *)

(** What [_SENTENCE_SPLIT] consumes at this point: nothing, a run of full stops, or a
    run of newlines. *)
Inductive Cut : Type := NoCut | Stops | Breaks.

Definition is_stop (c : Z) : bool := bool_decide (c ∈ [46; 1567; 33; 1563; 1748]).

Definition goes_on (m : Cut) (c : Z) : bool :=
  match m with NoCut => false | Stops => is_stop c | Breaks => c =? 10 end.

(** [_SENTENCE_SPLIT.split(text)] *)
Fixpoint sentence_pieces (m : Cut) (piece t : text) : list text :=
  match t with
  | [] => [piece]
  | c :: t =>
      if goes_on m c then sentence_pieces m piece t
      else if is_stop c then piece :: sentence_pieces Stops [] t
      else if (c =? 10) && match t with d :: _ => d =? 10 | [] => false end
      then piece :: sentence_pieces Breaks [] t
      else sentence_pieces NoCut (piece ++ [c]) t
  end.

Definition split_sentences (t : text) : list text :=
  List.filter (λ p, negb (bool_decide (p = []))) (strip <$> sentence_pieces NoCut [] t).

Definition plain_segment (chunk : ParsedChunk) : SourceSegment :=
  mk_SourceSegment (pk_text chunk) (pk_order chunk) (chunk_kind_value (pk_kind chunk)) (pk_metadata chunk) 0.

(** The slices [sentences[start:boundary]] of [_group_sentences]. *)
Fixpoint slices {A} (start : nat) (l : list A) (boundaries : list nat) : list (list A) :=
  match boundaries with
  | [] => [l]
  | b :: boundaries => take (b - start) l :: slices b (drop (b - start) l) boundaries
  end.

Definition group_sentences (sentences : list text) (boundaries : list nat) : list text :=
  spaced <$> slices 0 sentences boundaries.

Definition part_segment (chunk : ParsedChunk) (part_index : nat) (part : text) : SourceSegment :=
  mk_SourceSegment part (pk_order chunk) (chunk_kind_value (pk_kind chunk)) (pk_metadata chunk)
    (Z.of_nat part_index).

Definition semantic_parts (request : SentenceRequest) (vectors : list (list f64))
    : result exn (option (list SourceSegment)) :=
  boundaries ← semantic_boundaries vectors SEMANTIC_BUFFER SEMANTIC_BREAKPOINT_PERCENTILE;
  let parts := group_sentences (rq_sentences request) boundaries in
  if (length parts <? MIN_SEMANTIC_PARTS)%nat then Ok None
  else Ok (Some (imap (part_segment (rq_chunk request)) parts)).

(** [_pack_sentence_requests], the group under way and its size on the side. *)
Fixpoint pack_requests (current : list SentenceRequest) (sentences : nat) (pending : list SentenceRequest)
    : list (list SentenceRequest) :=
  match pending with
  | [] => if bool_decide (current = []) then [] else [current]
  | r :: pending =>
      let n := length (rq_sentences r) in
      if negb (bool_decide (current = [])) && (EMBED_BATCH <? sentences + n)%nat
      then current :: pack_requests [r] n pending
      else pack_requests (current ++ [r]) (sentences + n) pending
  end.

Definition pack_sentence_requests : list SentenceRequest → list (list SentenceRequest) := pack_requests [] 0.

Definition install_semantic_splits (slots : list (list SourceSegment))
    (group : list (SentenceRequest * option (list SourceSegment))) : list (list SourceSegment) :=
  foldl (λ slots rr, match rr.2 with Some parts => <[rq_slot rr.1 := parts]> slots | None => slots end)
    slots group.

(** ** Tables *)

Definition parent_stamp (key : text) (metadata : dict) : dict := alist_set PARENT_KEY (JStr key) metadata.

(** A segment with its place in the arrival order. *)
Abbreviation placed := (nat * SourceSegment)%type.

Section Pure.
Context `{Unicode, Repr, Interpreter}.

(** [payload["headers"]] and [payload["rows"]] of [json.loads(chunk.text)], if they are
    there and lists. *)
Definition table_payload (t : text) : result exn (option (list json * list json)) :=
  match loads_text t with
  | Ok payload =>
      match jget payload (txt "headers"), jget payload (txt "rows") with
      | Some (JArr headers), Some (JArr rows) => Ok (Some (headers, rows))
      | _, _ => Ok None
      end
  | Err JSONDecodeError => Ok None
  | Err DigitsError => Err (Other "ValueError")
  | Err RecursionError => Err (Other "RecursionError")
  | Err OutOfFuel => Err (Other "OutOfFuel")
  end.

Definition row_segment (chunk : ParsedChunk) (metadata : dict) (row_index : nat) (sentence : text)
    : SourceSegment :=
  mk_SourceSegment sentence (pk_order chunk) (chunk_kind_value (pk_kind chunk)) metadata (Z.of_nat row_index).

Definition table_to_segments (chunk : ParsedChunk) (parent_key : text)
    : result exn (option (list SourceSegment * option ParentChunkDraft)) :=
  payload ← table_payload (pk_text chunk);
  match payload with
  | None => Ok None
  | Some (headers, rows) =>
      exploded ← explode_table headers rows;
      if bool_decide (row_sentences exploded = []) then Ok None
      else
        let metadata := parent_stamp parent_key (pk_metadata chunk) in
        let row_segments := imap (row_segment chunk metadata) (row_sentences exploded) in
        let notice :=
          if truncated exploded && negb (bool_decide (overflow_text exploded = [])) then
            [row_segment chunk (alist_set (txt "table_truncated") (JBool true) metadata)
               (length (row_sentences exploded)) (overflow_text exploded)]
          else [] in
        let draft :=
          if bool_decide (parent_text exploded = []) then None
          else Some (mk_ParentChunkDraft parent_key (pk_order chunk) (parent_text exploded)
                       (parent_is_complete exploded)) in
        Ok (Some (row_segments ++ notice, draft))
  end.

(** The first, pure pass of [execute]: the slots, the table parents, and what waits for
    the semantic pass. *)
Fixpoint first_pass (index : nat) (chunks : list ParsedChunk)
    : result exn (list (list SourceSegment) * list ParentChunkDraft * list SentenceRequest) :=
  match chunks with
  | [] => Ok ([], [], [])
  | chunk :: chunks =>
      '(slot, drafts, pending) ←
        match pk_kind chunk with
        | TABLE =>
            exploded ← table_to_segments chunk (txt "table-" ++ int_repr (Z.of_nat index));
            match exploded with
            | Some (segments, draft) => Ok (segments, option_list draft, [])
            | None => Ok ([plain_segment chunk], [], [])
            end
        | _ =>
            let sentences := split_sentences (pk_text chunk) in
            Ok ([plain_segment chunk], [],
                if (MIN_SENTENCES_TO_SPLIT <=? length sentences)%nat
                then [mk_SentenceRequest chunk sentences index] else [])
        end;
      '(slots, more_drafts, more_pending) ← first_pass (S index) chunks;
      Ok (slot :: slots, drafts ++ more_drafts, pending ++ more_pending)
  end.

(** ** Page parents *)

(** [_group_of] *)
Fixpoint group_under (keys : list text) (metadata : dict) : text :=
  match keys with
  | [] => DOCUMENT_GROUP
  | key :: keys =>
      match alist_get key metadata with
      | None | Some JNull => group_under keys metadata
      | Some value => key ++ [61] ++ py_str value
      end
  end.

Definition group_of (segment : SourceSegment) : text := group_under PARENT_GROUP_KEYS (ss_metadata segment).

(** [_pack_parent_parts] *)
Fixpoint pack_parts (current : list placed) (length_ : Z) (members : list placed) : list (list placed) :=
  match members with
  | [] => if bool_decide (current = []) then [] else [current]
  | m :: members =>
      let chars := len (ss_text m.2) in
      let size := chars + (if bool_decide (current = []) then 0 else 1) in
      if negb (bool_decide (current = [])) && (TEXT_PARENT_MAX_CHARS <? length_ + size)
      then current :: pack_parts [m] chars members
      else pack_parts (current ++ [m]) (length_ + size) members
  end.

Definition pack_parent_parts : list placed → list (list placed) := pack_parts [] 0.

(** Neither a table nor already somebody's child. *)
Definition parentless (segment : SourceSegment) : bool :=
  bool_decide (alist_get PARENT_KEY (ss_metadata segment) = None) &&
  negb (bool_decide (ss_kind segment = chunk_kind_value TABLE)).

Definition grouped_segments (segments : list SourceSegment) : list (text * list placed) :=
  foldl (λ groups m, alist_set (group_of m.2) (default [] (alist_get (group_of m.2) groups) ++ [m]) groups)
    [] (List.filter (λ m, parentless m.2) (imap pair segments)).

(** [members.sort(key=...)] *)
Definition reading_leb (a b : placed) : bool :=
  negb (text_ltb [ss_order b.2; ss_sub_order b.2; Z.of_nat b.1] [ss_order a.2; ss_sub_order a.2; Z.of_nat a.1]).

Definition part_text (part : list placed) : text := join [10] ((λ m : placed, ss_text m.2) <$> part).

(** A part that is no parent: too long for one, or a copy of its only child. *)
Definition skipped (max_words : Z) (part : list placed) : bool :=
  (TEXT_PARENT_MAX_CHARS <? len (part_text part)) ||
  match part with [m] => Z.of_nat (length (split (ss_text m.2))) <=? max_words | _ => false end.

Definition page_parts (max_words : Z) (segments : list SourceSegment) : list (list placed) :=
  List.filter (λ p, negb (skipped max_words p))
    (concat ((λ g : text * list placed, pack_parent_parts (sort_by reading_leb g.2)) <$> grouped_segments segments)).

Definition text_key (i : nat) : text := txt "text-" ++ int_repr (Z.of_nat i).

Definition page_draft (i : nat) (part : list placed) : ParentChunkDraft :=
  mk_ParentChunkDraft (text_key i) (default 0 ((λ m : placed, ss_order m.2) <$> head part)) (part_text part) true.

Definition key_by_index (parts : list (list placed)) : list (nat * text) :=
  concat (imap (λ i part, (λ m : placed, (m.1, text_key i)) <$> part) parts).

Definition stamp (keys : list (nat * text)) (index : nat) (segment : SourceSegment) : SourceSegment :=
  match alist_get index keys with
  | Some key => mk_SourceSegment (ss_text segment) (ss_order segment) (ss_kind segment)
                  (parent_stamp key (ss_metadata segment)) (ss_sub_order segment)
  | None => segment
  end.

Definition attach_text_parents (segments : list SourceSegment) (max_words : Z)
    : list SourceSegment * list ParentChunkDraft :=
  let parts := page_parts max_words segments in
  (imap (stamp (key_by_index parts)) segments, imap page_draft parts).
End Pure.

(** ** Names and fingerprints *)

(** [uuid.uuid5(_KNOWLEDGE_NS, name)] and [hashlib.blake2s(b, digest_size=6).hexdigest()]. *)
Class Naming := { uuid5 : text → text; blake2s_hex : bytes → text }.

Record EmbeddingRegime := mk_EmbeddingRegime { er_model : text; er_dimensions : Z; er_max_input_tokens : Z }.

Definition value_error : exn := Other "ValueError".

Definition new_EmbeddingRegime (model : text) (dimensions max_input_tokens : Z) : result exn EmbeddingRegime :=
  if bool_decide (strip model = []) then Err value_error
  else if dimensions <=? 0 then Err value_error
  else if max_input_tokens <=? 0 then Err value_error
  else Ok (mk_EmbeddingRegime model dimensions max_input_tokens).

Definition revision `{Naming} (r : EmbeddingRegime) : result exn text :=
  b ← utf8 (er_model r ++ [10] ++ int_repr (er_dimensions r) ++ [10] ++ int_repr (er_max_input_tokens r));
  Ok (blake2s_hex b).

Definition knowledge_collection (workspace : text) : text := txt "kn-" ++ workspace.

Definition chunk_point_id `{Naming} (document : text) (seq : Z) : text :=
  uuid5 (document ++ [58] ++ int_repr seq).

(** ** The points *)

Record IndexPoint := mk_IndexPoint {
  ip_id : text; ip_vector : list f64; ip_sparse : SparseTerms; ip_payload : dict
}.

(** The embedding provider and the hybrid vector store, seen from here, and the Okapi
    parameters the service is built with. *)
Class Index (V : Type) := {
  embed_texts : list text → text → text → eff V exn (list (list f64));
  embed_dimensions : text → Z;
  ensure_hybrid_collection : text → Z → text → eff V exn text;
  upsert_points : text → list IndexPoint → eff V exn unit;
  bm25 : Bm25Params
}.

Definition citation (metadata : dict) (key : text) : option (text * json) :=
  (λ v, (key, v)) <$>
    (if bool_decide (key = txt "section") then
       match (match alist_get key metadata with
              | Some v => Some v
              | None => alist_get (txt "title") metadata
              end) with
       | Some JNull | None => None
       | Some v => Some v
       end
     else alist_get key metadata).

Definition payload (ctx : ExecutionContext) (document : text) (space : option text) (point_id : text)
    (chunk : ChunkToIndex) : dict :=
  [(txt "workspace_id", JStr (workspace_id ctx)); (txt "document_id", JStr document);
   (txt "chunk_id", JStr point_id); (txt "seq", JInt (ck_seq chunk)); (txt "text", JStr (ck_text chunk));
   (txt "kind", JStr (ck_kind chunk))] ++
  match space with Some s => [(txt "space", JStr s)] | None => [] end ++
  omap (citation (ck_metadata chunk)) CITATION_KEYS.

(** [range(0, len(l), _EMBED_BATCH)] and its slices. *)
Definition batches {A} (l : list A) : list (list A) := chunked EMBED_BATCH l.

Record IndexDocument := mk_IndexDocument { max_words : Z; overlap_words : Z; max_input_tokens : Z }.

Definition new_IndexDocument (embedding_max_input_tokens : Z) : result exn IndexDocument :=
  words ← max_words_for_token_limit embedding_max_input_tokens;
  overlap ← truncate (fmul (of_Z words) SPLIT_OVERLAP_RATIO);
  Ok (mk_IndexDocument words overlap embedding_max_input_tokens).

(** The default of [chunk_segments]. *)
Definition MIN_CHARS : Z := 24.

Section Run.
Context {V : Type} `{Index V, Naming, HashLib, Unicode, Lexicon, Repr, Interpreter}.
Variables (ctx : ExecutionContext) (document : text) (space : option text) (model api_key : text).
Abbreviation io A := (eff V exn A).

(** ** The semantic pass *)

Fixpoint embed_all (texts : list (list text)) : io (list (list f64)) :=
  match texts with
  | [] => mret []
  | batch :: texts =>
      vectors ← embed_texts batch model api_key;
      rest ← embed_all texts;
      mret (vectors ++ rest)
  end.

Fixpoint deal_vectors (group : list SentenceRequest) (vectors : list (list f64))
    : result exn (list (option (list SourceSegment))) :=
  match group with
  | [] => Ok []
  | r :: group =>
      let n := length (rq_sentences r) in
      parts ← semantic_parts r (take n vectors);
      rest ← deal_vectors group (drop n vectors);
      Ok (parts :: rest)
  end.

Definition semantic_split_group (group : list SentenceRequest) : io (list (option (list SourceSegment))) :=
  let texts := concat (rq_sentences <$> group) in
  vectors ← embed_all (batches texts);
  _ ← eff_lift (raise_if (negb (bool_decide (length vectors = length texts))) value_error);
  eff_lift (deal_vectors group vectors).

(** [try: replacements = ...; except Exception: failed; else: install]. *)
Definition try_group (slots : list (list SourceSegment)) (group : list SentenceRequest)
    (failed : io (list (list SourceSegment))) : io (list (list SourceSegment)) :=
  λ w, match semantic_split_group group w with
       | (Ok replacements, w') => (Ok (install_semantic_splits slots (zip group replacements)), w')
       | (Err _, w') => failed w'
       end.

Fixpoint one_by_one (group : list SentenceRequest) (slots : list (list SourceSegment))
    : io (list (list SourceSegment)) :=
  match group with
  | [] => mret slots
  | r :: group => slots ← try_group slots [r] (mret slots); one_by_one group slots
  end.

Fixpoint apply_semantic_splits (groups : list (list SentenceRequest)) (slots : list (list SourceSegment))
    : io (list (list SourceSegment)) :=
  match groups with
  | [] => mret slots
  | group :: groups =>
      slots ← try_group slots group
                (if (length group =? 1)%nat then mret slots else one_by_one group slots);
      apply_semantic_splits groups slots
  end.

(** ** Embedding and storing *)

Definition build_point (chunk : ChunkToIndex) (vector : list f64) : result exn IndexPoint :=
  let point_id := chunk_point_id document (ck_seq chunk) in
  terms ← build_document_terms (ck_text chunk) bm25 T_MULTILINGUAL true true;
  Ok (mk_IndexPoint point_id vector terms (payload ctx document space point_id chunk)).

Definition indexed_of (chunk : ChunkToIndex) : IndexedChunk :=
  mk_IndexedChunk (chunk_point_id document (ck_seq chunk)) (ck_seq chunk) (ck_text chunk)
    (ck_token_count chunk) (alist_get PARENT_KEY (ck_metadata chunk)).

Definition embed_and_upsert (collection : text) (batch : list ChunkToIndex) : io (list IndexedChunk) :=
  vectors ← embed_texts (ck_text <$> batch) model api_key;
  points ← eff_lift (map_result (λ cv : ChunkToIndex * list f64, build_point cv.1 cv.2) (zip batch vectors));
  _ ← eff_lift (raise_if (negb (bool_decide (length batch = length vectors))) value_error);
  _ ← upsert_points collection points;
  mret (zip_with (λ chunk point,
          mk_IndexedChunk (ip_id point) (ck_seq chunk) (ck_text chunk) (ck_token_count chunk)
            (alist_get PARENT_KEY (ck_metadata chunk))) batch points).

Fixpoint index_each (collection : text) (chunks : list ChunkToIndex) : io (list IndexedChunk) :=
  match chunks with
  | [] => mret []
  | c :: chunks =>
      one ← embed_and_upsert collection [c];
      rest ← index_each collection chunks;
      mret (one ++ rest)
  end.

(** One batch of [execute], and its retry chunk by chunk. *)
Definition index_batch (collection : text) (batch : list ChunkToIndex) : io (list IndexedChunk) :=
  λ w, match embed_and_upsert collection batch w with
       | (Err e, w') => if (length batch =? 1)%nat then (Err e, w') else index_each collection batch w'
       | r => r
       end.

Fixpoint index_batches (collection : text) (bs : list (list ChunkToIndex)) : io (list IndexedChunk) :=
  match bs with
  | [] => mret []
  | b :: bs => done_ ← index_batch collection b; rest ← index_batches collection bs; mret (done_ ++ rest)
  end.

(** [_count_by_kind] *)
Definition is_kind (k : ParsedChunkKind) (c : ChunkToIndex) : bool := bool_decide (ck_kind c = chunk_kind_value k).
Definition count_by_kind (to_index : list ChunkToIndex) : Z * Z * Z :=
  foldl (λ '(t, b, i) c, if is_kind TABLE c then (t, b + 1, i)
                         else if is_kind OCR c then (t, b, i + 1) else (t + 1, b, i)) (0, 0, 0) to_index.

(** A parent key is a string this module stamped. *)
Definition points_at (chunk : ChunkToIndex) (draft : ParentChunkDraft) : bool :=
  match alist_get PARENT_KEY (ck_metadata chunk) with
  | Some (JStr key) => bool_decide (key = pd_key draft)
  | _ => false
  end.

Definition referenced (to_index : list ChunkToIndex) (draft : ParentChunkDraft) : bool :=
  existsb (λ c, points_at c draft) to_index.

(** [IndexDocument.execute] up to the chunks to index and the candidate parents. *)
Definition prepare (self : IndexDocument) (chunks : list ParsedChunk)
    : io (list ChunkToIndex * list ParentChunkDraft) :=
  '(slots, drafts, pending) ← eff_lift (first_pass 0 chunks);
  slots ← apply_semantic_splits (pack_sentence_requests pending) slots;
  let '(segments, page_drafts) := attach_text_parents (concat slots) (max_words self) in
  to_index ← eff_lift (chunk_segments segments (max_words self) (overlap_words self) MIN_CHARS);
  mret (to_index, drafts ++ page_drafts).

Definition execute (self : IndexDocument) (chunks : list ParsedChunk) : io IndexOutcome :=
  '(to_index, drafts) ← prepare self chunks;
  let dim := embed_dimensions model in
  regime ← eff_lift (new_EmbeddingRegime model dim (max_input_tokens self));
  rev ← eff_lift (revision regime);
  collection ← ensure_hybrid_collection (knowledge_collection (workspace_id ctx)) dim rev;
  if bool_decide (to_index = []) then mret (mk_IndexOutcome collection dim [] [] 0 0 0)
  else
    indexed ← index_batches collection (batches to_index);
    let '(t, b, i) := count_by_kind to_index in
    mret (mk_IndexOutcome collection dim indexed (List.filter (referenced to_index) drafts) t b i).
End Run.
