(* ===== verification/IndexingPass.v ===== *)
(** * IndexingPass: what the passes of indexing keep

    The semantic pass cuts sentences and nothing else, whatever the provider answers;
    page parents hold exactly their children; every window has a place of its own; and
    a document reported as indexed is in the store. *)

From S2P Require Import Prelude Text Calendar Errors Framework Files Keyset Events Wire Binary64 Lexical Tables Chunking Indexing.

Open Scope Z_scope.

(** ** Cutting sentences *)

Lemma slices_ok {A} start (l : list A) bs :
  StronglySorted lt bs → Forall (λ b, start < b < start + length l)%nat bs → l ≠ [] →
  concat (slices start l bs) = l ∧ Forall (λ s, s ≠ []) (slices start l bs) ∧
  length (slices start l bs) = S (length bs).
Proof.
  intros Hs; revert start l; induction Hs as [|b bs Hs IH Hb]; intros start l Hf Hl; cbn [slices concat length].
  { rewrite app_nil_r. by repeat constructor. }
  apply Forall_cons in Hf as [Hbl Hf].
  destruct (IH b (drop (b - start) l)) as (Hc & Hne & Hlen).
  - apply Forall_forall. intros x Hx. eapply Forall_forall in Hf; [|exact Hx].
    eapply Forall_forall in Hb; [|exact Hx]. cbn in *. rewrite length_drop. lia.
  - intros Hd%(f_equal length). rewrite length_drop in Hd. cbn in Hd. lia.
  - rewrite Hc, take_drop, Hlen. split_and!; [done| |done]. constructor; [|done].
    intros Ht%(f_equal length). rewrite length_take in Ht. cbn in Ht. lia.
Qed.

(** Segments that cut the sentences of a request into at least two parts. *)
Definition refines (chunk : ParsedChunk) (sentences : list text) (segments : list SourceSegment) : Prop :=
  ∃ cut, concat cut = sentences ∧ Forall (λ s, s ≠ []) cut ∧ (2 ≤ length cut)%nat ∧
    segments = imap (part_segment chunk) (spaced <$> cut).

Lemma semantic_parts_refine r vectors parts :
  length vectors = length (rq_sentences r) → semantic_parts r vectors = Ok (Some parts) →
  refines (rq_chunk r) (rq_sentences r) parts.
Proof.
  intros Hlen (bs & Hbs & Hp)%bind_Ok. cbv zeta in Hp. destruct (_ <? _)%nat eqn:Hn; [done|]. injection Hp as <-.
  apply semantic_boundaries_cut in Hbs as [Hs Hf]. rewrite Hlen in Hf.
  unfold group_sentences in *. rewrite length_fmap in Hn. apply Nat.ltb_ge in Hn.
  unfold MIN_SEMANTIC_PARTS in Hn. exists (slices 0 (rq_sentences r) bs).
  destruct (rq_sentences r) as [|s ss] eqn:Hss.
  { destruct bs as [|b bs]; [cbn in Hn; lia|]. apply Forall_cons in Hf as [Hb _]. cbn in Hb. lia. }
  destruct (slices_ok 0 (s :: ss) bs) as (Hc & Hne & _); [done..|]. by split_and!.
Qed.

Section Pass.
Context {V : Type} `{Index V, Naming, HashLib, Unicode, Lexicon, Repr, Interpreter}.
Variables (ctx : ExecutionContext) (document : text) (space : option text) (model api_key : text).

Lemma deal_vectors_refine group vectors replacements :
  length vectors = length (concat (rq_sentences <$> group)) →
  deal_vectors group vectors = Ok replacements →
  Forall2 (λ r o, ∀ parts, o = Some parts → refines (rq_chunk r) (rq_sentences r) parts) group replacements.
Proof.
  revert vectors replacements; induction group as [|r group IH]; intros vectors replacements Hlen;
    cbn [deal_vectors]; [by intros [= <-]|].
  intros (parts & Hp & Hrest)%bind_Ok. apply bind_Ok in Hrest as (rest & Hrest & Heq). injection Heq as <-.
  cbn in Hlen. rewrite length_app in Hlen. constructor.
  - intros ps ->. eapply semantic_parts_refine; [|exact Hp]. rewrite length_take. lia.
  - eapply IH; [|exact Hrest]. rewrite length_drop. lia.
Qed.

Lemma split_group_refine group w replacements w' :
  semantic_split_group model api_key group w = (Ok replacements, w') →
  Forall2 (λ r o, ∀ parts, o = Some parts → refines (rq_chunk r) (rq_sentences r) parts) group replacements.
Proof.
  intros (vectors & w1 & _ & Hrest)%eff_bind_Ok.
  apply eff_bind_Ok in Hrest as (u & w2 & Hu & Hd). apply eff_lift_Ok in Hu as [Hu _], Hd as [Hd _].
  apply raise_if_Ok, negb_false_iff, bool_decide_eq_true in Hu. by eapply deal_vectors_refine.
Qed.

(** ** The semantic pass *)

Section Slots.
Variables (slots0 : list (list SourceSegment)) (pending : list SentenceRequest).

(** Every slot is what it was, or the sentences of a request for it, cut. *)
Definition refined (slots : list (list SourceSegment)) : Prop :=
  length slots = length slots0 ∧
  ∀ i, slots !! i = slots0 !! i ∨
       ∃ r parts, r ∈ pending ∧ rq_slot r = i ∧ refines (rq_chunk r) (rq_sentences r) parts ∧
         slots !! i = Some parts.

Lemma refined_start : refined slots0.
Proof. split; [done|]. intros i. by left. Qed.

Lemma install_refined slots group replacements :
  (∀ r, r ∈ group → r ∈ pending) → refined slots →
  Forall2 (λ r o, ∀ parts, o = Some parts → refines (rq_chunk r) (rq_sentences r) parts) group replacements →
  refined (install_semantic_splits slots (zip group replacements)).
Proof.
  intros Hsub Hr Hf; revert slots Hr; induction Hf as [|r o group replacements Ho Hf IH]; intros slots Hr; [done|].
  cbn. apply IH; [intros; apply Hsub; by right|]. destruct o as [parts|]; [|done].
  destruct Hr as [Hlen Hi]. split; [by rewrite length_insert|]. intros i.
  destruct (decide (rq_slot r = i)) as [<-|Hne]; [|by rewrite list_lookup_insert_ne].
  destruct (decide (rq_slot r < length slots)%nat) as [Hlt|Hge].
  - right. exists r, parts. split_and!; [apply Hsub; left|done|by apply Ho|]. by apply list_lookup_insert_eq.
  - left. rewrite !lookup_ge_None_2; [done|lia|rewrite length_insert; lia].
Qed.

Lemma try_group_refined slots group failed w :
  (∀ r, r ∈ group → r ∈ pending) → refined slots →
  (∀ w, ∃ slots' w', failed w = (Ok slots', w') ∧ refined slots') →
  ∃ slots' w', try_group model api_key slots group failed w = (Ok slots', w') ∧ refined slots'.
Proof.
  intros Hsub Hr Hfail. unfold try_group.
  destruct (semantic_split_group _ _ group w) as [[replacements|e] w1] eqn:Hs; [|apply Hfail].
  eexists _, w1. split; [done|]. eapply install_refined; [done..|by eapply split_group_refine].
Qed.

Lemma one_by_one_refined group slots w :
  (∀ r, r ∈ group → r ∈ pending) → refined slots →
  ∃ slots' w', one_by_one model api_key group slots w = (Ok slots', w') ∧ refined slots'.
Proof.
  revert slots w; induction group as [|r group IH]; intros slots w Hsub Hr; cbn [one_by_one].
  { by exists slots, w. }
  destruct (try_group_refined slots [r] (eff_ret _ slots) w) as (s1 & w1 & Hs1 & Hr1).
  - intros x ->%list_elem_of_singleton. apply Hsub. left.
  - done.
  - intros w1. by exists slots, w1.
  - destruct (IH s1 w1) as (s2 & w2 & Hs2 & Hr2); [intros; apply Hsub; by right|done|].
    exists s2, w2. split; [|done]. apply eff_bind_Ok. by exists s1, w1.
Qed.

Lemma apply_refined groups slots w :
  (∀ r, r ∈ concat groups → r ∈ pending) → refined slots →
  ∃ slots' w', apply_semantic_splits model api_key groups slots w = (Ok slots', w') ∧ refined slots'.
Proof.
  revert slots w; induction groups as [|g groups IH]; intros slots w Hsub Hr; cbn [apply_semantic_splits].
  { by exists slots, w. }
  assert (∀ r, r ∈ g → r ∈ pending) as Hg by (intros; apply Hsub; cbn; apply elem_of_app; by left).
  destruct (try_group_refined slots g
    (if (length g =? 1)%nat then eff_ret _ slots else one_by_one model api_key g slots) w) as (s1 & w1 & Hs1 & Hr1).
  - done.
  - done.
  - intros w1. destruct (_ =? 1)%nat; [by exists slots, w1|by apply one_by_one_refined].
  - destruct (IH s1 w1) as (s2 & w2 & Hs2 & Hr2); [intros; apply Hsub; cbn; apply elem_of_app; by right|done|].
    exists s2, w2. split; [|done]. apply eff_bind_Ok. by exists s1, w1.
Qed.
End Slots.

Lemma pack_requests_concat current n pending :
  concat (pack_requests current n pending) = current ++ pending.
Proof.
  revert current n; induction pending as [|r pending IH]; intros current n; cbn [pack_requests].
  { case_bool_decide; [by subst|]. cbn. by rewrite app_nil_r. }
  destruct (_ && _); cbn; rewrite IH; [done|]. by rewrite <- app_assoc.
Qed.

Lemma first_pass_ok index chunks slots drafts pending :
  first_pass index chunks = Ok (slots, drafts, pending) →
  length slots = length chunks ∧
  ∀ r, r ∈ pending → ∃ k, rq_slot r = (index + k)%nat ∧ chunks !! k = Some (rq_chunk r) ∧
    pk_kind (rq_chunk r) ≠ TABLE ∧ rq_sentences r = split_sentences (pk_text (rq_chunk r)).
Proof.
  revert index slots drafts pending; induction chunks as [|c chunks IH]; intros index slots drafts pending;
    cbn [first_pass].
  { intros [= <- _ <-]. split; [done|]. by intros r ?%elem_of_nil. }
  intros ([[slot d1] p1] & Hslot & Hrest)%bind_Ok.
  apply bind_Ok in Hrest as ([[slots2 d2] p2] & Hrest & Heq). injection Heq as <- <- <-.
  apply IH in Hrest as [Hlen Hp]. split; [cbn; by f_equal|]. intros r [Hr|Hr]%elem_of_app.
  - exists 0%nat. rewrite Nat.add_0_r. destruct (pk_kind c) eqn:Hk.
    2:{ apply bind_Ok in Hslot as (x & _ & Hslot). destruct x as [[? ?]|]; injection Hslot as _ _ <-;
        by apply elem_of_nil in Hr. }
    all: injection Hslot as _ _ <-; repeat case_match; try by apply elem_of_nil in Hr.
    all: apply list_elem_of_singleton in Hr as ->; cbn; by rewrite Hk.
  - destruct (Hp r Hr) as (k & Hk & Hc & Hrest). exists (S k). split_and!; [lia|done|by destruct Hrest..].
Qed.

Lemma semantic_pass_refined chunks slots drafts pending w :
  first_pass 0 chunks = Ok (slots, drafts, pending) →
  ∃ slots' w', apply_semantic_splits model api_key (pack_sentence_requests pending) slots w = (Ok slots', w') ∧
    length slots' = length chunks ∧
    ∀ i, slots' !! i = slots !! i ∨
      ∃ chunk parts, chunks !! i = Some chunk ∧ pk_kind chunk ≠ TABLE ∧ slots' !! i = Some parts ∧
        refines chunk (split_sentences (pk_text chunk)) parts.
Proof.
  intros [Hlen Hp]%first_pass_ok.
  destruct (apply_refined slots pending (pack_sentence_requests pending) slots w) as (s & w1 & Hs & Hl & Hr).
  - intros r. unfold pack_sentence_requests. by rewrite pack_requests_concat.
  - apply refined_start.
  - exists s, w1. split_and!; [done|congruence|]. intros i.
    destruct (Hr i) as [?|(r & parts & Hin & <- & Href & Hi)]; [by left|right].
    destruct (Hp r Hin) as (k & Hk & Hc & Hkind & Hsent). cbn in Hk. subst k.
    exists (rq_chunk r), parts. split_and!; [done..|]. by rewrite <- Hsent.
Qed.
(** The semantic pass only refines, whatever the provider answers and however often it fails:
    it never raises, and of the slots the pure pass filled each is left alone or becomes
    the sentences of its chunk, in order and none lost, cut into two or more parts numbered
    from 0; tables are never cut. *)
Theorem semantic_pass_only_refines chunks slots drafts pending w :
  first_pass 0 chunks = Ok (slots, drafts, pending) →
  ∃ slots' w', apply_semantic_splits model api_key (pack_sentence_requests pending) slots w = (Ok slots', w') ∧
    length slots' = length chunks ∧
    ∀ i, slots' !! i = slots !! i ∨
      ∃ chunk parts, chunks !! i = Some chunk ∧ pk_kind chunk ≠ TABLE ∧ slots' !! i = Some parts ∧
        refines chunk (split_sentences (pk_text chunk)) parts.
Proof. apply semantic_pass_refined. Qed.
End Pass.

(** ** Page parents *)

Section Parents.
Context `{Unicode, Repr}.
Implicit Types (m : placed) (part : list placed) (groups : list (text * list placed)).

Lemma alist_set_concat k groups m :
  concat (alist_set k (default [] (alist_get k groups) ++ [m]) groups).*2 ≡ₚ concat groups.*2 ++ [m].
Proof.
  induction groups as [|[k' ms] groups IH]; cbn [alist_set alist_get]; [done|].
  case_bool_decide; cbn.
  - rewrite <- !app_assoc. f_equiv. apply Permutation_app_comm.
  - by rewrite IH, app_assoc.
Qed.

Lemma grouped_concat groups ms :
  concat (foldl (λ groups m, alist_set (group_of m.2) (default [] (alist_get (group_of m.2) groups) ++ [m]) groups)
    groups ms).*2 ≡ₚ concat groups.*2 ++ ms.
Proof.
  revert groups; induction ms as [|m ms IH]; intros groups; cbn [foldl]; [by rewrite app_nil_r|].
  rewrite IH, alist_set_concat. by rewrite <- app_assoc.
Qed.

Lemma grouped_members segments :
  concat (grouped_segments segments).*2 ≡ₚ List.filter (λ m : placed, parentless m.2) (imap pair segments).
Proof. unfold grouped_segments. by rewrite grouped_concat. Qed.

(** Packing keeps the members and their order, and a part of several fits the ceiling. *)
Lemma pack_parts_concat current n ms : concat (pack_parts current n ms) = current ++ ms.
Proof.
  revert current n; induction ms as [|m ms IH]; intros current n; cbn [pack_parts].
  { case_bool_decide; [by subst|]. cbn. by rewrite app_nil_r. }
  destruct (_ && _); cbn; rewrite IH; [done|]. by rewrite <- app_assoc.
Qed.

(** The members of all parts, each once. *)
Lemma page_parts_members max_words segments :
  concat (page_parts max_words segments) ⊆+ imap pair segments.
Proof.
  unfold page_parts.
  transitivity (concat (concat ((λ g : text * list placed, pack_parent_parts (sort_by reading_leb g.2)) <$>
    grouped_segments segments))).
  { generalize (concat ((λ g : text * list placed, pack_parent_parts (sort_by reading_leb g.2)) <$>
      grouped_segments segments)). intros l. induction l as [|p l IH]; cbn; [reflexivity|].
    destruct (negb _); cbn; [by apply submseteq_app|]. by apply submseteq_inserts_l. }
  transitivity (List.filter (λ m : placed, parentless m.2) (imap pair segments)).
  2:{ apply sublist_submseteq. clear. induction (imap pair segments) as [|m l IH]; cbn; [constructor|].
      destruct (parentless _); by constructor. }
  apply Permutation_submseteq. etrans; [|apply (grouped_members segments)].
  generalize (grouped_segments segments). intros groups.
  induction groups as [|g groups IH]; cbn; [done|]. rewrite concat_app, IH. f_equiv.
  unfold pack_parent_parts. rewrite pack_parts_concat. apply sort_by_Permutation.
Qed.

Lemma key_by_index_fst parts : (key_by_index parts).*1 = (concat parts).*1.
Proof.
  unfold key_by_index. generalize text_key. intros f. revert f.
  induction parts as [|part parts IH]; intros f; cbn [imap concat]; [done|]. rewrite !fmap_app. f_equal.
  - induction part as [|m part IHp]; cbn; by f_equal.
  - apply (IH (f ∘ S)).
Qed.

Lemma key_by_index_elem parts i key :
  (i, key) ∈ key_by_index parts ↔ ∃ k part m, parts !! k = Some part ∧ m ∈ part ∧ i = m.1 ∧ key = text_key k.
Proof.
  unfold key_by_index. rewrite list_elem_of_In, in_concat. split.
  - intros (l & Hl & Hi). apply list_elem_of_In, elem_of_lookup_imap in Hl as (k & part & -> & Hk).
    apply list_elem_of_In, list_elem_of_fmap in Hi as (m & [= -> ->] & Hm). by exists k, part, m.
  - intros (k & part & m & Hk & Hm & -> & ->). eexists. split.
    + apply list_elem_of_In, elem_of_lookup_imap. by exists k, part.
    + apply list_elem_of_In, list_elem_of_fmap. by exists m.
Qed.

Lemma page_parts_keys max_words segments : NoDup (key_by_index (page_parts max_words segments)).*1.
Proof.
  rewrite key_by_index_fst.
  destruct (submseteq_Permutation _ _ (page_parts_members max_words segments)) as [rest Hrest].
  pose proof (imap_pair_keys segments) as Hnd. rewrite Hrest, fmap_app in Hnd.
  by apply NoDup_app in Hnd as [? _].
Qed.

(** The members of one part, in reading order, are segments of one page that had no parent. *)
Lemma reading_leb_total a b : reading_leb a b = true ∨ reading_leb b a = true.
Proof. apply (key_leb_total (mk_Candidate _ a.2 []) (mk_Candidate _ b.2 [])). Qed.

Lemma reading_leb_trans a b c : reading_leb a b = true → reading_leb b c = true → reading_leb a c = true.
Proof. apply (key_leb_trans (mk_Candidate _ a.2 []) (mk_Candidate _ b.2 []) (mk_Candidate _ c.2 [])). Qed.

Lemma StronglySorted_concat {A} (R : relation A) (ls : list (list A)) l :
  StronglySorted R (concat ls) → l ∈ ls → StronglySorted R l.
Proof.
  induction ls as [|k ls IH]; cbn; [by intros _ ?%elem_of_nil|].
  intros Hs [->|Hl]%elem_of_cons.
  - by apply StronglySorted_app_1_l in Hs.
  - apply IH; [|done]. by apply StronglySorted_app_1_r in Hs.
Qed.

Lemma grouped_pages groups ms :
  (∀ page l m, (page, l) ∈ groups → m ∈ l → group_of m.2 = page) →
  ∀ page l m, (page, l) ∈ foldl (λ groups m,
      alist_set (group_of m.2) (default [] (alist_get (group_of m.2) groups) ++ [m]) groups) groups ms →
    m ∈ l → group_of m.2 = page.
Proof.
  revert groups; induction ms as [|m ms IH]; intros groups Hg; cbn [foldl]; [exact Hg|].
  apply IH. intros page l x [[= -> ->]|Hin]%alist_set_elem; [|by apply Hg].
  intros [Hx| ->%list_elem_of_singleton]%elem_of_app; [|done].
  destruct (alist_get (group_of m.2) groups) as [l|] eqn:Hl; [|by apply elem_of_nil in Hx].
  by eapply Hg; [apply alist_get_elem|].
Qed.

Lemma pack_parts_nonempty current n ms : Forall (λ p, p ≠ []) (pack_parts current n ms).
Proof.
  revert current n; induction ms as [|m ms IH]; intros current n; cbn [pack_parts].
  { case_bool_decide; by repeat constructor. }
  destruct (_ && _) eqn:Hc; [|done]. constructor; [|done].
  apply andb_prop in Hc as [Hc%negb_true_iff%bool_decide_eq_false _]. done.
Qed.

Lemma page_parts_sorted max_words segments part :
  part ∈ page_parts max_words segments →
  part ≠ [] ∧ skipped max_words part = false ∧
  StronglySorted (λ a b, reading_leb a b = true) part ∧
  ∃ page, ∀ m, m ∈ part → segments !! m.1 = Some m.2 ∧ parentless m.2 = true ∧ group_of m.2 = page.
Proof.
  intros [Hin Hskip%negb_true_iff]%elem_of_list_filter_bool.
  apply list_elem_of_In, in_concat in Hin as (parts & Hparts & Hpart).
  apply list_elem_of_In, list_elem_of_fmap in Hparts as ([page l] & -> & Hl). cbn [snd] in Hpart.
  apply list_elem_of_In in Hpart.
  pose proof (pack_parts_concat [] 0 (sort_by reading_leb l)) as Hc. cbn [app] in Hc.
  split_and!; [|done| |].
  - pose proof (pack_parts_nonempty [] 0 (sort_by reading_leb l)) as Hne.
    by eapply Forall_forall in Hne; [|exact Hpart].
  - eapply StronglySorted_concat; [|exact Hpart]. unfold pack_parent_parts. rewrite Hc.
    apply sort_by_sorted; [exact reading_leb_total|exact reading_leb_trans].
  - exists page. intros m Hm.
    assert (m ∈ l) as Hml.
    { rewrite <- (sort_by_Permutation reading_leb l), <- Hc. apply list_elem_of_In, in_concat.
      exists part. split; by apply list_elem_of_In. }
    assert (m ∈ List.filter (λ m : placed, parentless m.2) (imap pair segments)) as Hms.
    { rewrite <- grouped_members. apply list_elem_of_In, in_concat. exists l.
      split; apply list_elem_of_In; [|done]. by apply (list_elem_of_fmap_2 snd) in Hl. }
    apply elem_of_list_filter_bool in Hms as [Hms Hp]. destruct m as [i s]. split_and!; [|done|].
    + by apply imap_pair_lookup.
    + eapply (grouped_pages []); [by intros ? ? ? ?%elem_of_nil|exact Hl|done].
Qed.

Lemma text_key_inj i j : text_key i = text_key j → i = j.
Proof.
  unfold text_key, int_repr. intros Heq%app_inv_head.
  rewrite !(proj2 (Z.ltb_ge _ _)) in Heq by lia.
  destruct (nat_repr_spec (Z.of_nat i) ltac:(lia)) as (Hi & _).
  destruct (nat_repr_spec (Z.of_nat j) ltac:(lia)) as (Hj & _). rewrite Heq in Hi. lia.
Qed.

(** Page parents hold their children: attaching them changes no segment but for the stamp of
    its parent; every parent is complete, no longer than 4000 characters and has a key of
    its own; its text is that of the segments stamped with its key, line by line in
    reading order, all of one page and none of them a table or another's child. *)
Theorem parents_hold_their_children segments max_words :
  let '(stamped, drafts) := attach_text_parents segments max_words in
  length stamped = length segments ∧ NoDup (pd_key <$> drafts) ∧
  (∀ i s, segments !! i = Some s → stamped !! i = Some s ∨
     ∃ d, d ∈ drafts ∧ stamped !! i = Some (mk_SourceSegment (ss_text s) (ss_order s) (ss_kind s)
       (parent_stamp (pd_key d) (ss_metadata s)) (ss_sub_order s))) ∧
  ∀ d, d ∈ drafts → pd_is_complete d = true ∧ len (pd_text d) ≤ 4000 ∧
    ∃ children page, children ≠ [] ∧ pd_text d = join [10] ((λ m : placed, ss_text m.2) <$> children) ∧
      StronglySorted (λ a b, reading_leb a b = true) children ∧
      (∀ m, m ∈ children → segments !! m.1 = Some m.2 ∧ parentless m.2 = true ∧ group_of m.2 = page) ∧
      ∀ i s, segments !! i = Some s → alist_get PARENT_KEY (ss_metadata s) = None →
        (∃ s', stamped !! i = Some s' ∧ alist_get PARENT_KEY (ss_metadata s') = Some (JStr (pd_key d))) ↔
        (i, s) ∈ children.
Proof.
  unfold attach_text_parents. set (parts := page_parts max_words segments).
  assert (∀ i key, alist_get i (key_by_index parts) = Some key ↔
    ∃ k part m, parts !! k = Some part ∧ m ∈ part ∧ i = m.1 ∧ key = text_key k) as Hget.
  { intros i key. rewrite <- key_by_index_elem. split; [apply alist_get_elem|].
    apply alist_get_NoDup, page_parts_keys. }
  split_and!.
  - apply length_imap.
  - rewrite fmap_imap. apply NoDup_alt. intros i j key.
    rewrite !list_lookup_imap. intros (p & _ & ->)%fmap_Some (q & _ & Hkey)%fmap_Some.
    by apply text_key_inj in Hkey.
  - intros i s Hi. rewrite list_lookup_imap, Hi. cbn. unfold stamp.
    destruct (alist_get i (key_by_index parts)) as [key|] eqn:Hk; [right|by left].
    apply Hget in Hk as (k & part & m & Hk & _ & _ & ->). exists (page_draft k part). split; [|done].
    apply elem_of_lookup_imap. by exists k, part.
  - intros d (k & part & -> & Hk)%elem_of_lookup_imap. pose proof (list_elem_of_lookup_2 _ _ _ Hk) as Hin.
    destruct (page_parts_sorted _ _ _ Hin) as (Hne & Hskip & Hs & page & Hpage).
    apply orb_false_iff in Hskip as [Hlen%Z.ltb_ge _].
    split_and!; [done|exact Hlen|]. exists part, page. split_and!; [done..|].
    intros i s Hi Hnone. rewrite list_lookup_imap, Hi. cbn. split.
    + intros (s' & [= <-] & Hkey). unfold stamp in Hkey.
      destruct (alist_get i (key_by_index parts)) as [key|] eqn:Hg; [|congruence].
      cbn in Hkey. unfold parent_stamp in Hkey. rewrite alist_get_set in Hkey. injection Hkey as ->.
      apply Hget in Hg as (k' & part' & m & Hk' & Hm & -> & <-%text_key_inj).
      rewrite Hk in Hk'. injection Hk' as <-. destruct (Hpage m Hm) as (Hseg & _).
      rewrite Hi in Hseg. injection Hseg as ->. by destruct m.
    + intros Hm. eexists. split; [done|]. unfold stamp.
      rewrite (proj2 (Hget i (text_key k))) by (by exists k, part, (i, s)). apply alist_get_set.
Qed.
End Parents.

(** ** Places *)

(** What the structure of the document says of where a parsed chunk stands. *)
Definition chunk_place (c : ParsedChunk) : list Z :=
  concat (signal (plain_segment c) <$> ORDER_SIGNAL_KEYS) ++ [pk_order c].

(** The segments of a slot stand where their chunk does, each with a rank of its own. *)
Definition placed_in (c : ParsedChunk) (slot : list SourceSegment) : Prop :=
  Forall (λ s, position s = chunk_place c ++ [ss_sub_order s]) slot ∧ NoDup (ss_sub_order <$> slot).

Lemma position_eq c seg :
  ss_order seg = pk_order c →
  (∀ key, key ∈ ORDER_SIGNAL_KEYS → alist_get key (ss_metadata seg) = alist_get key (pk_metadata c)) →
  position seg = chunk_place c ++ [ss_sub_order seg].
Proof.
  intros Ho Hm. unfold position, chunk_place. rewrite <- app_assoc. cbn [app]. rewrite Ho. do 2 f_equal.
  apply map_ext_in. intros key Hkey%list_elem_of_In. unfold signal. cbn. by rewrite (Hm key).
Qed.

Lemma signal_keys_stamped key k v (d : dict) :
  key ∈ ORDER_SIGNAL_KEYS → k ∉ ORDER_SIGNAL_KEYS → alist_get key (alist_set k v d) = alist_get key d.
Proof. intros Hkey Hk. apply alist_get_set_ne. intros ->. done. Qed.

Lemma parent_key_fresh : PARENT_KEY ∉ ORDER_SIGNAL_KEYS.
Proof. apply (bool_decide_unpack _). vm_compute. done. Qed.

Lemma truncated_key_fresh : txt "table_truncated" ∉ ORDER_SIGNAL_KEYS.
Proof. apply (bool_decide_unpack _). vm_compute. done. Qed.

Lemma stamp_position keys i seg : position (stamp keys i seg) = position seg.
Proof.
  unfold stamp. destruct (alist_get i keys) as [key|]; [|done].
  unfold position. cbn [ss_order ss_sub_order]. do 2 f_equal.
  apply map_ext_in. intros k Hk%list_elem_of_In.
  unfold signal, parent_stamp. cbn [ss_metadata].
  by rewrite signal_keys_stamped by (done || exact parent_key_fresh).
Qed.

Lemma imap_sub_orders {A} (f : nat → A → SourceSegment) k (l : list A) :
  (∀ i x, ss_sub_order (f i x) = Z.of_nat (k + i)) →
  ss_sub_order <$> imap f l = Z.of_nat <$> seq k (length l).
Proof.
  revert k f; induction l as [|x l IH]; intros k f Hf; cbn; [done|]. f_equal.
  - rewrite Hf. f_equal. lia.
  - apply (IH (S k)). intros i y. cbn. rewrite Hf. f_equal. lia.
Qed.

Lemma NoDup_of_nat k n : NoDup (Z.of_nat <$> seq k n).
Proof. apply NoDup_fmap; [intros i j ?; lia|apply NoDup_seq]. Qed.

Lemma refines_placed c sentences parts : refines c sentences parts → placed_in c parts.
Proof.
  intros (cut & _ & _ & _ & ->). split.
  - apply Forall_forall. intros s (i & p & -> & _)%elem_of_lookup_imap. by apply position_eq.
  - rewrite (imap_sub_orders _ 0) by done. apply NoDup_of_nat.
Qed.

Section Places.
Context `{Unicode, Repr, Interpreter}.

Lemma table_placed c key segments draft :
  table_to_segments c key = Ok (Some (segments, draft)) → placed_in c segments.
Proof.
  unfold table_to_segments. intros (payload & _ & Hx)%bind_Ok. destruct payload as [[headers rows]|]; [|done].
  apply bind_Ok in Hx as (x & _ & Hx). case_bool_decide; [done|]. cbv zeta in Hx. injection Hx as <- _.
  set (m := parent_stamp key (pk_metadata c)).
  assert (∀ k, k ∈ ORDER_SIGNAL_KEYS → alist_get k m = alist_get k (pk_metadata c)) as Hm.
  { intros k Hk. apply signal_keys_stamped; [done|exact parent_key_fresh]. }
  match goal with |- placed_in _ (_ ++ ?n) => set (notice := n) end.
  assert (notice = [] ∨ ∃ m', notice = [row_segment c m' (length (row_sentences x)) (overflow_text x)] ∧
    ∀ k, k ∈ ORDER_SIGNAL_KEYS → alist_get k m' = alist_get k (pk_metadata c)) as Hn.
  { unfold notice. destruct (_ && _); [right|by left]. eexists. split; [done|]. intros k Hk.
    rewrite signal_keys_stamped by (done || exact truncated_key_fresh). by apply Hm. }
  split.
  - apply Forall_app_2.
    + apply Forall_forall. intros s (i & p & -> & _)%elem_of_lookup_imap. by apply position_eq.
    + destruct Hn as [->|(m' & -> & Hm')]; [constructor|]. apply Forall_singleton. by apply position_eq.
  - rewrite fmap_app, (imap_sub_orders _ 0) by done.
    destruct Hn as [->|(m' & -> & _)]; cbn; [rewrite app_nil_r; apply NoDup_of_nat|].
    change [Z.of_nat (length (row_sentences x))] with (Z.of_nat <$> seq (0 + length (row_sentences x)) 1).
    rewrite <- fmap_app, <- seq_app. apply NoDup_of_nat.
Qed.

Lemma first_pass_placed index chunks slots drafts pending :
  first_pass index chunks = Ok (slots, drafts, pending) → Forall2 placed_in chunks slots.
Proof.
  assert (∀ c, placed_in c [plain_segment c]) as Hplain.
  { intros c. split; [|apply NoDup_singleton]. apply Forall_singleton. by apply position_eq. }
  revert index slots drafts pending; induction chunks as [|c chunks IH]; intros index slots drafts pending;
    cbn [first_pass]; [by intros [= <- _ _]|].
  intros ([[slot d1] p1] & Hslot & Hrest)%bind_Ok.
  apply bind_Ok in Hrest as ([[slots2 d2] p2] & Hrest & Heq). injection Heq as <- _ _.
  constructor; [|by eapply IH]. destruct (pk_kind c).
  2:{ apply bind_Ok in Hslot as ([[segments draft]|] & Ht & Hslot); injection Hslot as <- _ _; [|done].
      by eapply table_placed. }
  all: cbv zeta in Hslot; injection Hslot as <- _ _; done.
Qed.

(** The positions of all segments. *)
Lemma placed_NoDup chunks slots :
  Forall2 placed_in chunks slots → NoDup (chunk_place <$> chunks) → NoDup (position <$> concat slots).
Proof.
  induction 1 as [|c slot chunks slots [Hpos Hsub] Hrest IH]; [constructor|]. rewrite fmap_cons. cbn [concat].
  intros [Hc Hnd]%NoDup_cons. rewrite fmap_app. apply NoDup_app. split_and!; [| |by apply IH].
  - clear -Hpos Hsub. induction slot as [|s slot IHs]; [constructor|]. rewrite !fmap_cons in *.
    apply Forall_cons in Hpos as [Hs Hpos]. apply NoDup_cons in Hsub as [Hns Hsub].
    constructor; [|by apply IHs]. intros (s' & Heq & Hs')%list_elem_of_fmap.
    eapply Forall_forall in Hpos; [|exact Hs']. cbv beta in Hpos. rewrite Hs, Hpos in Heq.
    apply app_inj_tail in Heq as [_ Heq]. apply Hns. rewrite Heq. by apply list_elem_of_fmap_2.
  - intros p (s & -> & Hs)%list_elem_of_fmap (s' & Heq & Hs')%list_elem_of_fmap.
    apply list_elem_of_In, in_concat in Hs' as (slot' & Hslot' & Hs').
    apply list_elem_of_In, list_elem_of_lookup in Hslot' as [k Hk].
    destruct (Forall2_lookup_r _ _ _ _ _ Hrest Hk) as (c' & Hc' & Hpos' & _).
    apply list_elem_of_In in Hs'. eapply Forall_forall in Hpos, Hpos'; [|done..].
    cbv beta in Hpos, Hpos'. rewrite Hpos, Hpos' in Heq. apply app_inj_tail in Heq as [Heq _].
    apply Hc. rewrite Heq. apply list_elem_of_fmap_2. by eapply list_elem_of_lookup_2.
Qed.

Lemma candidates_NoDup segments max_tokens overlap min_chars :
  NoDup (position <$> segments) → NoDup (cd_key <$> candidates segments max_tokens overlap min_chars).
Proof.
  intros Hnd. unfold candidates. induction segments as [|s segments IH]; [constructor|]. rewrite fmap_cons in *. cbn [concat].
  apply NoDup_cons in Hnd as [Hs Hnd]. rewrite fmap_app. apply NoDup_app. split_and!; [| |by apply IH].
  - unfold candidates_of. case_bool_decide; [constructor|]. rewrite fmap_imap. apply NoDup_alt.
    intros i j key. rewrite !list_lookup_imap. intros (p & _ & ->)%fmap_Some (q & _ & Hkey)%fmap_Some.
    cbn in Hkey. unfold order_key in Hkey. apply app_inj_tail in Hkey as [_ ?]. lia.
  - intros key (a & -> & Ha)%list_elem_of_fmap (b & Heq & Hb)%list_elem_of_fmap.
    unfold candidates_of in Ha. case_bool_decide; [by apply elem_of_nil in Ha|].
    apply elem_of_lookup_imap in Ha as (i & w & -> & _). cbn [cd_key] in Heq.
    apply candidates_elem in Hb as (s' & j & Hs' & _ & w' & _ & ->). cbn [cd_key] in Heq.
    unfold order_key in Heq. apply app_inj_tail in Heq as [Heq _]. apply Hs. rewrite Heq.
    by apply list_elem_of_fmap_2.
Qed.
End Places.

(** C17: Every window has a place of its own: of a document no two of whose parsed chunks stand in
    one place, no two windows of any two segments have one key, however the tables were
    exploded, the sentences cut and the parents attached; so sorting never meets a tie. *)
Theorem every_window_has_its_own_place {V} `{Index V, Unicode, Repr, Interpreter} model api_key
    chunks slots drafts pending (w : V) slots' w' max_words max_tokens overlap min_chars :
  NoDup (chunk_place <$> chunks) →
  first_pass 0 chunks = Ok (slots, drafts, pending) →
  apply_semantic_splits model api_key (pack_sentence_requests pending) slots w = (Ok slots', w') →
  NoDup (cd_key <$> candidates (attach_text_parents (concat slots') max_words).1 max_tokens overlap min_chars).
Proof.
  intros Hnd Hfirst Hpass. apply candidates_NoDup. cbn [fst attach_text_parents].
  assert (∀ keys (l : list SourceSegment), position <$> imap (stamp keys) l = position <$> l) as ->.
  { intros keys l. rewrite fmap_imap. apply list_eq. intros i. rewrite list_lookup_imap, list_lookup_fmap.
    destruct (l !! i); [|done]. cbn [fmap option_fmap option_map]. f_equal. apply stamp_position. }
  apply (placed_NoDup chunks); [|done].
  pose proof (first_pass_placed _ _ _ _ _ Hfirst) as Hplaced.
  destruct (semantic_pass_refined model api_key chunks slots drafts pending w Hfirst)
    as (s & w1 & Hs & Hlen & Hr).
  rewrite Hpass in Hs. injection Hs as <- <-. apply Forall2_same_length_lookup. split; [congruence|].
  intros i c slot Hc Hslot. destruct (Hr i) as [Heq|(c' & parts & Hc' & _ & Hparts & Href)].
  - rewrite Heq in Hslot. by eapply Forall2_lookup_lr.
  - rewrite Hc in Hc'. injection Hc' as <-. rewrite Hslot in Hparts. injection Hparts as ->.
    by eapply refines_placed.
Qed.

(** ** Indexed means stored *)

(** What an upsert does: the points are there when it returns, and nothing else of this
    module takes a point away. *)
Class IndexLaws (V : Type) `{Index V} := {
  stored : V → text → text → Prop;
  embed_keeps texts model key w r w' c i :
    embed_texts texts model key w = (r, w') → stored w c i → stored w' c i;
  ensure_keeps name dim rev w r w' c i :
    ensure_hybrid_collection name dim rev w = (r, w') → stored w c i → stored w' c i;
  upsert_keeps name points w r w' c i :
    upsert_points name points w = (r, w') → stored w c i → stored w' c i;
  upsert_stores name points w w' p :
    upsert_points name points w = (Ok tt, w') → p ∈ points → stored w' name (ip_id p)
}.

Section Stored.
Context {V : Type} `{IndexLaws V, Naming, HashLib, Unicode, Lexicon, Repr, Interpreter}.
Variables (ctx : ExecutionContext) (document : text) (space : option text) (model api_key : text).
Implicit Types (w : V) (batch : list ChunkToIndex).

(** A chunk is in the collection under its point id. *)
Definition holds w (collection : text) (c : ChunkToIndex) : Prop :=
  stored w collection (chunk_point_id document (ck_seq c)).

(** Nothing stored is lost, and a run that returns has stored all of [batch]. *)
Definition stores collection batch (m : eff V exn (list IndexedChunk)) : Prop :=
  ∀ w r w', m w = (r, w') →
    (∀ c i, stored w c i → stored w' c i) ∧
    ∀ done_, r = Ok done_ → done_ = indexed_of document <$> batch ∧ ∀ c, c ∈ batch → holds w' collection c.

Lemma zip_points batch vectors points :
  length batch = length vectors →
  map_result (λ cv : ChunkToIndex * list f64, build_point ctx document space cv.1 cv.2) (zip batch vectors) = Ok points →
  Forall2 (λ c p, ip_id p = chunk_point_id document (ck_seq c)) batch points.
Proof.
  revert vectors points; induction batch as [|c batch IH]; intros [|v vectors] points Hlen; cbn; try done.
  { by intros [= <-]. }
  intros (p & Hp & Hrest)%bind_Ok. apply bind_Ok in Hrest as (ps & Hps & Heq). injection Heq as <-.
  constructor; [|by eapply IH; [injection Hlen|]]. by apply bind_Ok in Hp as (t & _ & [= <-]).
Qed.

Lemma embed_and_upsert_stores collection batch :
  stores collection batch (embed_and_upsert ctx document space model api_key collection batch).
Proof.
  intros w r w' [(e & He & ->)|(vectors & w1 & He & Hrest)]%eff_bind_run.
  { split; [|done]. intros c i. by eapply embed_keeps. }
  apply eff_bind_run in Hrest as [(e & [= _ <-] & ->)|(points & w2 & [= Hp <-] & Hrest)].
  { split; [|done]. intros c i. by eapply embed_keeps. }
  apply eff_bind_run in Hrest as [(e & [= _ <-] & ->)|(u & w3 & [= Hu <-] & Hrest)].
  { split; [|done]. intros c i. by eapply embed_keeps. }
  apply raise_if_Ok, negb_false_iff, bool_decide_eq_true in Hu.
  pose proof (zip_points _ _ _ Hu Hp) as Hz.
  apply eff_bind_run in Hrest as [(e & Hup & ->)|([] & w4 & Hup & Hret)].
  { split; [|done]. intros c i Hc. eapply upsert_keeps; [done|]. by eapply embed_keeps. }
  injection Hret as <- <-. split.
  - intros c i Hc. eapply upsert_keeps; [done|]. by eapply embed_keeps.
  - intros done_ [= <-]. split.
    + clear -Hz. induction Hz as [|c p batch points Hc Hz IH]; [done|]. cbn. rewrite IH. f_equal.
      unfold indexed_of. by rewrite Hc.
    + intros c (k & Hk)%list_elem_of_lookup. destruct (Forall2_lookup_l _ _ _ _ _ Hz Hk) as (p & Hpk & Hid).
      unfold holds. rewrite <- Hid. eapply upsert_stores; [done|]. by eapply list_elem_of_lookup_2.
Qed.

Lemma stores_app collection a b ma mb :
  stores collection a ma → stores collection b mb →
  stores collection (a ++ b) (x ← ma; y ← mb; mret (x ++ y)).
Proof.
  intros Ha Hb w r w' [(e & He & ->)|(x & w1 & Hx & Hrest)]%eff_bind_run.
  { split; [|done]. by apply Ha in He as [? _]. }
  apply Ha in Hx as [Hk1 Hx]. destruct (Hx x eq_refl) as [-> Hsx].
  apply eff_bind_run in Hrest as [(e & He & ->)|(y & w2 & Hy & Hret)].
  { split; [|done]. apply Hb in He as [Hk2 _]. intros c i Hc. by apply Hk2, Hk1. }
  apply Hb in Hy as [Hk2 Hy]. destruct (Hy y eq_refl) as [-> Hsy]. injection Hret as <- <-. split.
  - intros c i Hc. by apply Hk2, Hk1.
  - intros done_ [= <-]. split; [by rewrite fmap_app|].
    intros c [Hc|Hc]%elem_of_app; [by apply Hk2, Hsx|by apply Hsy].
Qed.

Lemma stores_nil collection : stores collection [] (mret []).
Proof. intros w r w' [= <- <-]. split; [done|]. intros d [= <-]. split; [done|]. by intros c ?%elem_of_nil. Qed.

Lemma index_each_stores collection batch :
  stores collection batch (index_each ctx document space model api_key collection batch).
Proof.
  induction batch as [|c batch IH]; cbn [index_each]; [apply stores_nil|].
  apply (stores_app collection [c] batch); [apply embed_and_upsert_stores|exact IH].
Qed.

(** A batch that fails is taken up again chunk by chunk. *)
Lemma index_batch_stores collection batch :
  stores collection batch (index_batch ctx document space model api_key collection batch).
Proof.
  intros w r w'. unfold index_batch.
  destruct (embed_and_upsert _ _ _ _ _ collection batch w) as [[done_|e] w1] eqn:He;
    apply embed_and_upsert_stores in He as [Hk He]; [by intros [= <- <-]|].
  destruct (_ =? 1)%nat; [by intros [= <- <-]|].
  intros [Hk2 Hr]%index_each_stores. split; [|done]. intros c i Hc. by apply Hk2, Hk.
Qed.

Lemma index_batches_stores collection bs :
  stores collection (concat bs) (index_batches ctx document space model api_key collection bs).
Proof.
  induction bs as [|b bs IH]; cbn [index_batches concat]; [apply stores_nil|].
  apply stores_app; [apply index_batch_stores|exact IH].
Qed.

Lemma count_by_kind_sum to_index :
  let '(t, b, i) := count_by_kind to_index in t + b + i = Z.of_nat (length to_index).
Proof.
  unfold count_by_kind. assert (∀ t b i,
    let '(t', b', i') := foldl (λ '(t, b, i) c, if is_kind TABLE c then (t, b + 1, i)
      else if is_kind OCR c then (t, b, i + 1) else (t + 1, b, i)) (t, b, i) to_index in
    t' + b' + i' = t + b + i + Z.of_nat (length to_index)) as Hg; [|apply (Hg 0 0 0)].
  induction to_index as [|c l IH]; intros t b i; cbn [foldl length]; [lia|].
  specialize (IH (if is_kind TABLE c then t else if is_kind OCR c then t else t + 1)
    (if is_kind TABLE c then b + 1 else b) (if is_kind TABLE c then i else if is_kind OCR c then i + 1 else i)).
  destruct (is_kind TABLE c), (is_kind OCR c); cbn in IH; destruct (foldl _ _ l) as [[t' b'] i']; lia.
Qed.

Lemma chunk_seqs segments max_tokens overlap min_chars chunks :
  chunk_segments segments max_tokens overlap min_chars = Ok chunks →
  ck_seq <$> chunks = Z.of_nat <$> seq 0 (length chunks).
Proof.
  unfold chunk_segments. rewrite (number_spec []).
  2:{ intros d. split; [by intros ?%elem_of_nil|]. by intros (c' & ?%elem_of_nil & _). }
  destruct (existsb _ _); [done|]. intros [= <-]. rewrite length_imap. generalize (firsts [] (sort_by key_leb
    (candidates segments max_tokens overlap min_chars))). intros l.
  apply list_eq. intros i. rewrite !list_lookup_fmap, list_lookup_imap.
  destruct (l !! i) eqn:Hi; cbn.
  - rewrite (proj2 (lookup_seq 0 _ i i)); [cbn; f_equal; lia|].
    split; [done|]. by eapply lookup_lt_Some.
  - rewrite (lookup_seq_ge 0); [done|]. by apply lookup_ge_None.
Qed.

(** C16: A document reported as indexed is in the store: the outcome lists every chunk, numbered
    from 0, once and in order, however many batches failed and were taken up chunk by
    chunk; each has its point in the collection reported; the counts by kind add up; and
    the parents are those candidates some chunk points at. *)
Theorem indexed_means_stored self chunks w o w' :
  execute ctx document space model api_key self chunks w = (Ok o, w') →
  ∃ to_index drafts w1, prepare model api_key self chunks w = (Ok (to_index, drafts), w1) ∧
    io_chunks o = indexed_of document <$> to_index ∧
    ix_seq <$> io_chunks o = Z.of_nat <$> seq 0 (length to_index) ∧
    (∀ c, c ∈ io_chunks o → stored w' (io_collection o) (ix_chunk_id c)) ∧
    io_text_chunks o + io_table_chunks o + io_image_chunks o = Z.of_nat (length (io_chunks o)) ∧
    ∀ d, d ∈ io_parents o ↔ d ∈ drafts ∧ referenced to_index d = true.
Proof.
  unfold execute. intros ([to_index drafts] & w1 & Hprep & Hrest)%eff_bind_Ok.
  exists to_index, drafts, w1. split; [done|].
  assert (ck_seq <$> to_index = Z.of_nat <$> seq 0 (length to_index)) as Hseq.
  { unfold prepare in Hprep. apply eff_bind_Ok in Hprep as ([[slots d] pending] & x & _ & Hprep).
    apply eff_bind_Ok in Hprep as (slots' & x' & _ & Hprep).
    destruct (attach_text_parents _ _) as [segments page]. apply eff_bind_Ok in Hprep as (ti & x2 & Hc & Hret).
    injection Hret as <- _ _. apply eff_lift_Ok in Hc as [Hc _]. by eapply chunk_seqs. }
  clear Hprep. cbv zeta in Hrest.
  apply eff_bind_Ok in Hrest as (regime & w2 & _ & Hrest). apply eff_bind_Ok in Hrest as (rev & w3 & _ & Hrest).
  apply eff_bind_Ok in Hrest as (collection & w4 & _ & Hrest).
  case_bool_decide as Hnil.
  { injection Hrest as <- _. subst to_index. cbn. split_and!; [done|done|by intros c ?%elem_of_nil|done|].
    intros d. split; [by intros ?%elem_of_nil|by intros [_ ?]]. }
  apply eff_bind_Ok in Hrest as (indexed & w5 & Hi & Hret).
  apply index_batches_stores in Hi as [_ Hi]. destruct (Hi indexed eq_refl) as [-> Hall].
  unfold batches in *. rewrite chunked_concat in * by done.
  pose proof (count_by_kind_sum to_index) as Hsum.
  destruct (count_by_kind to_index) as [[t b] i]. injection Hret as <- <-. cbn.
  split_and!; [done|by rewrite <- list_fmap_compose|..].
  - intros c (c' & -> & Hc')%list_elem_of_fmap. by apply Hall.
  - by rewrite length_fmap.
  - intros d. rewrite elem_of_list_filter_bool. done.
Qed.
End Stored.
