(* ===== verification/IndexingDemo.v ===== *)
(** * IndexingDemo: a small document through the indexer

    A provider that fails on any batch of more than two texts, a store that remembers what
    it was given, and the witnesses of [Chunking], [Tables] and [IndexingPass]. *)

From S2P Require Import Prelude Text Calendar Errors Framework Files Keyset Events Wire Binary64 Lexical Tables Chunking Indexing IndexingPass.

Open Scope Z_scope.

#[local] Existing Instance ascii_unicode.
#[local] Existing Instance demo_lexicon.
#[local] Instance demo_hash : HashLib := {| sha256_hex b := b |}.
#[local] Instance demo_naming : Naming := {| uuid5 t := t; blake2s_hex b := b |}.
#[local] Instance demo_repr : Repr := {| py_repr _ := txt "?" |}.
#[local] Instance demo_interpreter : Interpreter := {| recursion_limit := 100%nat; wide_decode _ := None |}.
#[local] Instance demo_floats : FloatRepr := {| float_repr _ _ := txt "0.0" |}.

(** A sentence about pay points one way, any other text the other. *)
Definition direction (t : text) : list f64 :=
  if existsb (λ c, c =? 36) t then [of_Z 1; of_Z 0] else [of_Z 0; of_Z 1].

Definition store := list (text * text).

#[local] Instance demo_index : Index store := {|
  embed_texts texts _ _ := λ w,
    if (3 <? length texts)%nat then (Err (Other "TimeoutError"), w) else (Ok (direction <$> texts), w);
  embed_dimensions _ := 2;
  ensure_hybrid_collection name _ rev := λ w, (Ok (name ++ txt "-" ++ rev), w);
  upsert_points name points := λ w, (Ok tt, ((λ p, (name, ip_id p)) <$> points) ++ w);
  bm25 := DEFAULT_BM25
|}.

#[local] Instance demo_index_laws : IndexLaws store.
Proof.
  refine {| stored w c i := (c, i) ∈ w |}.
  - intros texts model key w r w' c i. cbn [embed_texts demo_index]. case_match; by intros [= _ <-].
  - by intros name dim rev w r w' c i [= _ <-].
  - intros name points w r w' c i [= _ <-] Hi. apply elem_of_app. by right.
  - intros name points w w' p [= <-] Hp. apply elem_of_app. left. by apply (list_elem_of_fmap_2 (λ p, (name, ip_id p))).
Defined.

Definition page (n : Z) : dict := [(txt "page_number", JInt n)].

Definition pay_row (name pay : string) : json :=
  JObj [(txt "Name", JStr (txt name)); (txt "Pay", JStr (txt pay)); (txt "No.", JInt 7)].

Definition pay_rows : list json := [pay_row "Ahmad" "10 a day, half a day on Friday"; pay_row "Mona" "12 a day, no day on Friday"].
Definition pay_headers : list json := [JStr (txt "Name"); JStr (txt "Pay"); JStr (txt "No.")].

Definition parsed : list ParsedChunk := [
  mk_ParsedChunk (txt "The entry fee is $5. It rose to $7. The sky above the town is blue.") 1 TEXT (page 1);
  mk_ParsedChunk (dumps (JObj [(txt "headers", JArr pay_headers); (txt "rows", JArr pay_rows)])) 2 TABLE (page 1);
  mk_ParsedChunk (txt "A page of its own") 1000 OCR (page 2)].

Definition indexer : IndexDocument := mk_IndexDocument 32 3 80.

Definition run_outcome := execute demo_ctx (txt "doc") None (txt "m") (txt "key") indexer parsed [].
Definition nothing : IndexOutcome := mk_IndexOutcome [] 0 [] [] 0 0 0.
Definition outcome : IndexOutcome := unwrap nothing run_outcome.1.

(** Five chunks, indexed one by one after the batch of five failed: a page parent for the
    two parts of the sentences and one for the table. *)
Lemma indexed_means_stored_witness :
  (length (io_chunks outcome) = 5%nat ∧ pd_key <$> io_parents outcome = [txt "table-1"; txt "text-0"]) ∧
  ∃ to_index drafts w1, prepare (txt "m") (txt "key") indexer parsed [] = (Ok (to_index, drafts), w1) ∧
    io_chunks outcome = indexed_of (txt "doc") <$> to_index ∧
    ix_seq <$> io_chunks outcome = Z.of_nat <$> seq 0 (length to_index) ∧
    (∀ c, c ∈ io_chunks outcome → stored run_outcome.2 (io_collection outcome) (ix_chunk_id c)) ∧
    io_text_chunks outcome + io_table_chunks outcome + io_image_chunks outcome =
      Z.of_nat (length (io_chunks outcome)) ∧
    ∀ d, d ∈ io_parents outcome ↔ d ∈ drafts ∧ referenced to_index d = true.
Proof.
  split; [split; vm_compute; reflexivity|].
  apply (indexed_means_stored demo_ctx (txt "doc") None (txt "m") (txt "key") indexer parsed [] outcome run_outcome.2).
  unfold outcome, run_outcome. rewrite <- unwrap_Ok by (vm_compute; reflexivity). apply surjective_pairing.
Defined.

Definition first_slots := unwrap ([], [], []) (first_pass 0 parsed).

(** The provider is there for the three sentences of the first page: they become two parts. *)
Lemma semantic_pass_witness :
  (length <$> unwrap [] (apply_semantic_splits (txt "m") (txt "key")
     (pack_sentence_requests first_slots.2) first_slots.1.1 []).1 = [2%nat; 2%nat; 1%nat]) ∧
  ∃ slots' w', apply_semantic_splits (txt "m") (txt "key") (pack_sentence_requests first_slots.2)
      first_slots.1.1 [] = (Ok slots', w') ∧
    length slots' = length parsed ∧
    ∀ i, slots' !! i = first_slots.1.1 !! i ∨
      ∃ chunk parts, parsed !! i = Some chunk ∧ pk_kind chunk ≠ TABLE ∧ slots' !! i = Some parts ∧
        refines chunk (split_sentences (pk_text chunk)) parts.
Proof.
  split; [vm_compute; reflexivity|].
  apply (semantic_pass_only_refines (txt "m") (txt "key") parsed first_slots.1.1 first_slots.1.2 first_slots.2 []).
  vm_compute. reflexivity.
Defined.

Definition refined_slots := unwrap [] (apply_semantic_splits (txt "m") (txt "key")
  (pack_sentence_requests first_slots.2) first_slots.1.1 []).1.

Lemma own_place_witness :
  length (candidates (attach_text_parents (concat refined_slots) 32).1 32 3 24) = 5%nat ∧
  NoDup (cd_key <$> candidates (attach_text_parents (concat refined_slots) 32).1 32 3 24).
Proof.
  split; [vm_compute; reflexivity|].
  apply (every_window_has_its_own_place (txt "m") (txt "key") parsed first_slots.1.1 first_slots.1.2
    first_slots.2 [] refined_slots []).
  - apply (bool_decide_unpack _). vm_compute. done.
  - vm_compute. reflexivity.
  - vm_compute. reflexivity.
Defined.

(** ** Chunks *)

Definition words_text (n : nat) : text := join [32] (replicate n (txt "w")).

Definition long_segment : SourceSegment := mk_SourceSegment (words_text 33) 2 (txt "text") [] 0.
Definition short_segment : SourceSegment := mk_SourceSegment (txt "a second segment") 1 (txt "text") [] 0.

(** 33 words in windows of 32: the last window, of four words, is too short and is merged, so
    the one chunk has 36 words, three of them twice. *)
Lemma windows_hold_the_text_witness :
  (length <$> merge_short_trailing_window (word_windows (split (words_text 33)) 32 3) 24 = [36%nat]) ∧
  (unwindow (Z.to_nat (Z.max (32 - 3) 1)) (word_windows (split (words_text 33)) 32 3) = split (words_text 33) ∧
   Forall (λ w, 1 ≤ Z.of_nat (length w) ≤ Z.max 32 1) (word_windows (split (words_text 33)) 32 3) ∧
   Forall (λ w, 1 ≤ Z.of_nat (length w) ≤ Z.max 32 1 + Z.max (24 / 2) 0)
     (merge_short_trailing_window (word_windows (split (words_text 33)) 32 3) 24)).
Proof.
  split; [vm_compute; reflexivity|].
  apply (windows_hold_the_text (words_text 33) 32 3 24). lia.
Defined.

Lemma arrival_order_witness :
  (ck_token_count <$> unwrap [] (chunk_segments [long_segment; short_segment] 32 3 24) = [3; 36]) ∧
  chunk_segments [long_segment; short_segment] 32 3 24 = chunk_segments [short_segment; long_segment] 32 3 24.
Proof.
  split; [vm_compute; reflexivity|].
  apply (chunks_forget_arrival_order [long_segment; short_segment] [short_segment; long_segment] 32 3 24).
  - apply Permutation_swap.
  - apply (bool_decide_unpack _). vm_compute. done.
Defined.

(** ** Tables *)

Definition demo_parent : ChunkParent := mk_ChunkParent (txt "p") (txt "one, two and three") true.
Definition demo_rows : list ParentedChunkText := [
  mk_ParentedChunkText (txt "one") (Some demo_parent); mk_ParentedChunkText (txt "alone") None;
  mk_ParentedChunkText (txt "three") (Some demo_parent)].

Lemma collapse_witness :
  collapse_parent_runs demo_rows = [txt "one, two and three"; txt "alone"] ∧
  ∀ row, row ∈ demo_rows → ∃ s a b, s ∈ collapse_parent_runs demo_rows ∧ s = a ++ pc_leaf row ++ b.
Proof.
  split; [vm_compute; reflexivity|].
  apply (collapse_keeps_every_text demo_rows).
  - intros row p Hrow. unfold demo_rows in Hrow.
    apply elem_of_cons in Hrow as [->|[->|[->|?%elem_of_nil]%elem_of_cons]%elem_of_cons]; cbn.
    + intros [= <-] _. exists [], (txt ", two and three"). reflexivity.
    + done.
    + intros [= <-] _. exists (txt "one, two and "), []. reflexivity.
    + done.
  - intros row row' p p' Hrow Hrow' Hp Hp' _. unfold demo_rows in Hrow, Hrow'.
    apply elem_of_cons in Hrow as [->|[->|[->|?%elem_of_nil]%elem_of_cons]%elem_of_cons]; [| | |done];
      apply elem_of_cons in Hrow' as [->|[->|[->|?%elem_of_nil]%elem_of_cons]%elem_of_cons]; cbn in Hp, Hp'; try done; congruence.
Defined.

(** A table whose rows are lists is no table to fall back from: its [AttributeError] leaves
    [_table_to_segments], which promises [None] for a text of another shape. *)
Example rows_that_are_lists_raise :
  table_to_segments (mk_ParsedChunk (dumps (JObj [(txt "headers", JArr []); (txt "rows", JArr [JArr [JInt 1]])]))
    0 TABLE []) (txt "table-0") = Err attribute_error.
Proof. vm_compute. reflexivity. Qed.

(** Two long pages: the first becomes a parent of its two segments. *)
Definition page_segments : list SourceSegment := [
  mk_SourceSegment (txt "later on page one") 5 (txt "text") (page 1) 0;
  mk_SourceSegment (txt "a short page") 1000 (txt "text") (page 2) 0;
  mk_SourceSegment (txt "first on page one") 1 (txt "text") (page 1) 0].

Example page_parents : pd_text <$> (attach_text_parents page_segments 32).2 =
  [txt "first on page one" ++ [10] ++ txt "later on page one"].
Proof. vm_compute. reflexivity. Qed.
