(* ===== verification/Retrieval.v ===== *)
(** * Retrieval: from a question to the passages that answer it

    [modules/knowledge/application/retrieval.py], with [framework/agent_runtime/
    source_label.py]: one search of both legs of a workspace's collection, fusion,
    diversity, relevance, reranking, widening to parents, and the budget. *)

From S2P Require Import Prelude Text Calendar Errors Framework Files Keyset Events Wire Binary64 Lexical Ranking Tables Chunking Indexing.

Open Scope Z_scope.

(** ** Data *)

Record ParentChunkText := mk_ParentChunkText { pt_id : text; pt_text : text; pt_is_complete : bool }.

Record VectorHit := mk_VectorHit {
  vh_id : text; vh_score : f64; vh_payload : dict; vh_vector : option (list f64)
}.

Record RerankedDocument := mk_RerankedDocument { rd_index : Z; rd_score : f64 }.

(** Citation fields keep the JSON value of the payload, [JNull] for none. *)
Record RetrievedChunk := mk_RetrievedChunk {
  rc_document_id : text; rc_chunk_id : text; rc_text : text; rc_score : f64;
  rc_file_name : json; rc_page_number : json; rc_section : json
}.

Record RetrievalTuning := mk_RetrievalTuning {
  weight_dense : f64; weight_bm25 : f64; rrf_k : Z;
  search_overfetch : Z; max_search_candidates : Z; max_sparse_candidates : Z; fusion_retention : Z;
  default_k : Z; max_k : Z;
  min_dense_score : f64; min_bm25_score : f64; min_fused_score : f64; relative_floor : f64;
  jaccard_threshold : f64; max_parent_chunk_chars : Z;
  mmr_lambda : f64; mmr_overfetch : Z;
  rerank_enabled : bool; rerank_candidates : Z;
  max_context_chars : Z; max_context_tokens : Z
}.

Definition DEFAULT_TUNING : RetrievalTuning :=
  mk_RetrievalTuning (lit 1 2) (lit 1 2) 60 3 100 20 3 5 50 fzero fzero fzero fzero (lit 95 100) 4000
    (lit 7 10) 6 false 20 12000 6000.

Record RetrievalResult := mk_RetrievalResult {
  rr_chunks : list RetrievedChunk; best_dense_score : option f64; best_bm25_score : option f64
}.

Definition SPACE_REQUIRED : string := "knowledge.space_required".
Definition PARENT_TRUNCATION_MARKER : text := [32; 91; 8230; 93].
Definition UNKNOWN_FILE : text := txt "unknown".
Definition CHUNK_SEPARATOR : text := [10; 10].

(** ** Python built-ins *)

(** [l[:n]] *)
Definition slice_to {A} (n : Z) (l : list A) : list A :=
  take (Z.to_nat (if n <? 0 then Z.of_nat (length l) + n else n)) l.

(** [p[key]] and [p.get(key)] where the code takes the value for a string or a number:
    what the indexing writes there is one; another value is an error here. *)
Definition key_error : exn := Other "KeyError".
Definition type_error : exn := Other "TypeError".

Definition text_at (p : dict) (key : text) : result exn text :=
  match alist_get key p with Some (JStr t) => Ok t | Some _ => Err type_error | None => Err key_error end.

Definition int_at (p : dict) (key : text) : result exn Z :=
  match alist_get key p with Some (JInt n) => Ok n | Some _ => Err type_error | None => Ok 0 end.

Definition any_at (p : dict) (key : text) : json := default JNull (alist_get key p).

Definition or_key_error {A} (v : option A) : result exn A :=
  match v with Some a => Ok a | None => Err key_error end.

(** ** Labels *)

Section Labels.
Context `{Repr}.

Definition format_label (file_name page_number section : json) : text :=
  let name := match file_name with JNull => UNKNOWN_FILE | v => py_str v end in
  let name := match page_number with JNull => name | v => name ++ txt " p." ++ py_str v end in
  let name := match section with JNull => name | v => name ++ txt " | section: " ++ py_str v end in
  [91] ++ name ++ [93].

Definition format_labeled_chunk (body : text) (file_name page_number section : json) : text :=
  format_label file_name page_number section ++ [10] ++ body.

Definition labeled_text (c : RetrievedChunk) : text :=
  format_labeled_chunk (rc_text c) (rc_file_name c) (rc_page_number c) (rc_section c).

Definition format_context_block (chunks : list RetrievedChunk) : text :=
  join CHUNK_SEPARATOR (labeled_text <$> chunks).

Definition context_text (r : RetrievalResult) : text := format_context_block (rr_chunks r).
End Labels.

(** ** The stages *)

Definition require_space_scope (space_id : option text) : result exn text :=
  match space_id with
  | Some s => if bool_decide (strip s = []) then Err (App (raise_code ValidationError SPACE_REQUIRED)) else Ok s
  | None => Err (App (raise_code ValidationError SPACE_REQUIRED))
  end.

Definition gate_by_score (hits : list VectorHit) (min_score : f64) : list VectorHit :=
  if fle min_score fzero then hits else List.filter (λ h, fle min_score (vh_score h)) hits.

Definition best_score (hits : list VectorHit) : option f64 :=
  match hits with [] => None | h :: rest => Some (max_from flt (vh_score h) (vh_score <$> rest)) end.

Definition payloads_by_id (hits : list VectorHit) : list (text * dict) :=
  foldl (λ d h, alist_set (vh_id h) (vh_payload h) d) [] hits.

Definition vectors_by_id (hits : list VectorHit) : list (text * list f64) :=
  foldl (λ d h, match vh_vector h with Some v => alist_set (vh_id h) v d | None => d end) [] hits.

(** [order.get(chunk_id, unranked)], [order] the position of each selected id. *)
Definition order_of (selected : list text) (unranked : nat) (id : text) : Z :=
  default (Z.of_nat unranked) (alist_get id (rank_dict selected)).

Definition mmr_rerank (fused : list FusedChunk) (vectors : list (text * list f64)) (top_n : Z) (lambda : f64)
    : list FusedChunk :=
  let candidates := omap (λ c, mk_MmrCandidate (fc_chunk_id c) (fc_score c) <$>
                                 alist_get (fc_chunk_id c) vectors) fused in
  if bool_decide (candidates = []) then slice_to top_n fused
  else
    let selected := maximal_marginal_relevance candidates top_n lambda in
    let order c := order_of selected (length fused) (fc_chunk_id c) in
    slice_to top_n (sort_by (λ x y, order x <=? order y) fused).

Definition to_scored_chunk (chunk : FusedChunk) (p : dict) : result exn ScoredChunk :=
  document ← text_at p (txt "document_id");
  body ← text_at p (txt "text");
  seq ← int_at p (txt "seq");
  Ok (mk_ScoredChunk (fc_chunk_id chunk) document body (fc_score chunk) seq).

Definition to_retrieved_chunk (chunk : ScoredChunk) (p : dict) : RetrievedChunk :=
  mk_RetrievedChunk (sc_document_id chunk) (sc_chunk_id chunk) (sc_text chunk) (sc_score chunk)
    (any_at p (txt "file_name")) (any_at p (txt "page_number")) (any_at p (txt "section")).

(** [_apply_rerank]: the valid indices as they come, [placed] before, then the rest. *)
Fixpoint reranked_order (n : nat) (placed : list nat) (ranked : list RerankedDocument) : list nat :=
  match ranked with
  | [] => []
  | d :: ranked =>
      let i := Z.to_nat (rd_index d) in
      if negb ((0 <=? rd_index d) && (rd_index d <? Z.of_nat n)) || bool_decide (i ∈ placed)
      then reranked_order n placed ranked
      else i :: reranked_order n (i :: placed) ranked
  end.

Definition apply_rerank (candidates : list ScoredChunk) (ranked : list RerankedDocument) : list ScoredChunk :=
  let picked := reranked_order (length candidates) [] ranked in
  omap (λ i, candidates !! i) picked ++
  (List.filter (λ p, negb (bool_decide (p.1 ∈ picked))) (imap pair candidates)).*2.

Definition cap_parent_text (t : text) (max_chars : Z) : text :=
  if len t <=? max_chars then t
  else
    let room := max_chars - len PARENT_TRUNCATION_MARKER in
    if room <=? 0 then slice_to max_chars t else slice_to room t ++ PARENT_TRUNCATION_MARKER.

(** [str.casefold] *)
Class CaseFold := { casefold : text → text }.

Section Widen.
Context `{Unicode, HashLib, CaseFold}.

Definition text_fingerprint (t : text) : result exn text :=
  b ← utf8 (casefold (join [32] (split (nfc t))));
  Ok (sha256_hex b).

(** The loop of [_widen_to_parents], with the parents and the fingerprints seen. *)
Fixpoint widen (parents : list (text * ParentChunkText)) (max_chars : Z) (seen_parents seen_text : list text)
    (candidates : list ScoredChunk) : result exn (list ScoredChunk) :=
  match candidates with
  | [] => Ok []
  | c :: candidates =>
      let deliver (seen_parents : list text) (entry : ScoredChunk) :=
        fingerprint ← text_fingerprint (sc_text entry);
        if bool_decide (fingerprint ∈ seen_text) then widen parents max_chars seen_parents seen_text candidates
        else
          rest ← widen parents max_chars seen_parents (fingerprint :: seen_text) candidates;
          Ok (entry :: rest) in
      match alist_get (sc_chunk_id c) parents with
      | Some parent =>
          if negb (pt_is_complete parent) then deliver seen_parents c
          else if bool_decide (pt_id parent ∈ seen_parents) then widen parents max_chars seen_parents seen_text candidates
          else deliver (pt_id parent :: seen_parents)
                 (mk_ScoredChunk (sc_chunk_id c) (sc_document_id c) (cap_parent_text (pt_text parent) max_chars)
                    (sc_score c) (sc_seq c))
      | None => deliver seen_parents c
      end
  end.

Definition widen_to_parents (candidates : list ScoredChunk) (parents : list (text * ParentChunkText))
    (max_parent_chunk_chars : Z) : result exn (list ScoredChunk) :=
  widen parents max_parent_chunk_chars [] [] candidates.
End Widen.

(** [_guard_revision] and [knowledge_collection_revision] of [domain/collections.py]. *)
Definition hex_digit (c : Z) : bool := is_digit c || ((97 <=? c) && (c <=? 102)).
Definition is_revision (r : text) : bool := (len r =? 12) && forallb hex_digit r.

Definition knowledge_collection_revision (workspace revision : text) : result exn text :=
  if is_revision revision then Ok (knowledge_collection workspace ++ [45] ++ revision) else Err value_error.

(** ** The service *)

(** The embedding provider, the hybrid vector store, the parents and the reranker, seen
    from here. *)
Class Retrieval (V : Type) := {
  query_embed : list text → text → text → eff V exn (list (list f64));
  query_dimensions : text → Z;
  search : text → list f64 → Z → dict → eff V exn (list VectorHit);
  search_sparse : text → SparseTerms → Z → dict → eff V exn (list VectorHit);
  parent_texts_for_chunk_ids : ExecutionContext → list text → eff V exn (list (text * ParentChunkText));
  reranker : option (text → list text → eff V exn (list RerankedDocument))
}.

Definition is_app (e : exn) : bool := match e with App _ => true | Other _ => false end.

Definition clamp_k (tuning : RetrievalTuning) (k : option Z) : Z :=
  Z.max 1 (Z.min (default (default_k tuning) k) (max_k tuning)).

Definition search_filter (ctx : ExecutionContext) (document_ids : option (list text)) (space : text) : dict :=
  [(txt "workspace_id", JStr (workspace_id ctx))] ++
  match document_ids with Some ids => [(txt "document_id", JArr (JStr <$> ids))] | None => [] end ++
  [(txt "space", JStr space)].

Section Execute.
Context {V : Type} `{Retrieval V, Naming, HashLib, Unicode, CaseFold, Lexicon, Repr}.
Variables (tuning : RetrievalTuning) (embedding_max_input_tokens : Z).
Abbreviation io := (eff V exn).

(** [_rerank]: an [AppError] of the reranker leaves the order as it was. *)
Definition rerank_stage (candidates : list ScoredChunk) (query : text) : io (list ScoredChunk) :=
  match reranker with
  | Some rerank =>
      if negb (rerank_enabled tuning) || bool_decide (candidates = []) then mret candidates
      else
        let scope := slice_to (rerank_candidates tuning) candidates in
        let tail := drop (length scope) candidates in
        eff_catch
          (ranked ← rerank query (sc_text <$> scope); mret (apply_rerank scope ranked ++ tail))
          is_app (λ _, mret candidates)
  | None => mret candidates
  end.

(** From the two lists of hits to the relevant chunks: no port is called. *)
Definition rank_hits (k : Z) (dense_hits sparse_hits : list VectorHit) : result exn (list ScoredChunk) :=
  let retain_k := Z.min (k * fusion_retention tuning) (max_search_candidates tuning) in
  let mmr_pool_k := Z.min (k * mmr_overfetch tuning) (max_search_candidates tuning) in
  fused ← reciprocal_rank_fusion (vh_id <$> dense_hits) (vh_id <$> sparse_hits) mmr_pool_k
            (weight_dense tuning) (weight_bm25 tuning) (rrf_k tuning);
  let hits := dense_hits ++ sparse_hits in
  let ranked := mmr_rerank fused (vectors_by_id hits) retain_k (mmr_lambda tuning) in
  scored ← map_result (λ c, p ← or_key_error (alist_get (fc_chunk_id c) (payloads_by_id hits)); to_scored_chunk c p)
             ranked;
  Ok (filter_relevant scored (min_fused_score tuning) (relative_floor tuning) true (jaccard_threshold tuning)).

(** From the widened chunks to what is delivered. *)
Definition pack_chunks (k : Z) (hits : list VectorHit) (widened : list ScoredChunk)
    : result exn (list RetrievedChunk) :=
  retrieved ← map_result (λ c, p ← or_key_error (alist_get (sc_chunk_id c) (payloads_by_id hits));
                               Ok (to_retrieved_chunk c p)) widened;
  Ok (slice_to k (fit_to_context_budget ((λ c, (c, labeled_text c)) <$> retrieved)
                    (max_context_chars tuning) (max_context_tokens tuning))).

Definition collection_of (ctx : ExecutionContext) (model : text) : result exn text :=
  regime ← new_EmbeddingRegime model (query_dimensions model) embedding_max_input_tokens;
  r ← revision regime;
  knowledge_collection_revision (workspace_id ctx) r.

Definition execute (ctx : ExecutionContext) (query model api_key : text) (k : option Z)
    (document_ids : option (list text)) (space_id : option text) : io RetrievalResult :=
  _ ← eff_lift (raise_if (bool_decide (strip query = [])) (App (raise_class ValidationError)));
  space ← eff_lift (require_space_scope space_id);
  let k := clamp_k tuning k in
  let search_k := Z.min (k * Z.max (search_overfetch tuning) (mmr_overfetch tuning)) (max_search_candidates tuning) in
  let sparse_k := Z.min search_k (max_sparse_candidates tuning) in
  collection ← eff_lift (collection_of ctx model);
  if bool_decide (document_ids = Some []) then mret (mk_RetrievalResult [] None None)
  else
    let flt := search_filter ctx document_ids space in
    vectors ← query_embed [query] model api_key;
    q_vector ← eff_lift (match vectors with v :: _ => Ok v | [] => Err (Other "IndexError") end);
    q_sparse ← eff_lift (build_query_terms query T_MULTILINGUAL true true);
    dense_hits ← search collection q_vector search_k flt;
    sparse_hits ← search_sparse collection q_sparse sparse_k flt;
    let dense_kept := gate_by_score dense_hits (min_dense_score tuning) in
    let sparse_kept := gate_by_score sparse_hits (min_bm25_score tuning) in
    relevant ← eff_lift (rank_hits k dense_kept sparse_kept);
    relevant ← rerank_stage relevant query;
    parents ← parent_texts_for_chunk_ids ctx (sc_chunk_id <$> relevant);
    widened ← eff_lift (widen_to_parents relevant parents (max_parent_chunk_chars tuning));
    chunks ← eff_lift (pack_chunks k (dense_kept ++ sparse_kept) widened);
    mret (mk_RetrievalResult chunks (best_score dense_hits) (best_score sparse_hits)).
End Execute.

(** ** Reranking only reorders *)

Lemma reranked_order_spec n placed ranked :
  NoDup (reranked_order n placed ranked) ∧
  Forall (λ i, (i < n)%nat ∧ i ∉ placed) (reranked_order n placed ranked).
Proof.
  revert placed; induction ranked as [|d ranked IH]; intros placed; cbn [reranked_order]; [split; constructor|].
  destruct (_ || _) eqn:E; [apply IH|]. apply orb_false_iff in E as [E Hp].
  apply negb_false_iff, andb_prop in E as [Hlo Hhi]. unbool. destruct (IH (Z.to_nat (rd_index d) :: placed)) as [Hnd Hin].
  split; constructor; [|done|split; [lia|done]|].
  - intros Hd. rewrite Forall_forall in Hin. destruct (Hin _ Hd) as [_ Hd']. apply Hd'. left.
  - eapply Forall_impl; [exact Hin|]. cbn. intros i [? ?]. split; [done|]. set_solver.
Qed.

Lemma apply_rerank_Permutation candidates ranked : apply_rerank candidates ranked ≡ₚ candidates.
Proof.
  unfold apply_rerank. destruct (reranked_order_spec (length candidates) [] ranked) as [Hnd Hin].
  set (picked := reranked_order _ _ ranked) in *. set (rest := List.filter _ _).
  set (head := omap (λ i, pair i <$> candidates !! i) picked).
  assert (head.*1 = picked ∧ head.*2 = omap (λ i, candidates !! i) picked) as [Hfst Hsnd].
  { subst head. clear Hnd rest. induction Hin as [|i l [Hi _] Hl IH]; [done|].
    destruct (lookup_lt_is_Some_2 candidates i Hi) as [c Hc]. cbn. rewrite Hc. cbn. destruct IH. by split; f_equal. }
  rewrite <- Hsnd, <- fmap_app. transitivity ((imap pair candidates).*2); [|by rewrite placed_snd].
  apply fmap_Permutation, NoDup_Permutation.
  - apply NoDup_app. split; [by eapply NoDup_fmap_1; rewrite Hfst|]. split.
    + intros p Hp [_ Hr]%elem_of_list_filter_bool. apply (list_elem_of_fmap_2 fst) in Hp. rewrite Hfst in Hp.
      apply negb_true_iff, bool_decide_eq_false in Hr. done.
    + eapply sublist_NoDup; [|apply list_filter_sublist]. eapply NoDup_fmap_1, imap_pair_keys.
  - eapply NoDup_fmap_1, imap_pair_keys.
  - intros [i c]. subst rest. rewrite elem_of_app, elem_of_list_filter_bool, imap_pair_lookup. cbn [fst].
    rewrite negb_true_iff, bool_decide_eq_false. subst head. rewrite list_elem_of_omap. split.
    + intros [(j & Hj & Hc)|[Hc _]]; [|done]. destruct (candidates !! j) eqn:E; [|done]. by injection Hc as -> ->.
    + intros Hc. destruct (decide (i ∈ picked)); [left|by right]. exists i. by rewrite Hc.
Qed.

(** ** Widening repeats nothing *)

Section Widening.
Context `{Unicode, HashLib, CaseFold}.
Variables (parents : list (text * ParentChunkText)) (max_chars : Z).

(** The complete parent of a candidate, and what is delivered for the candidate. *)
Definition complete_parent (c : ScoredChunk) : option ParentChunkText :=
  match alist_get (sc_chunk_id c) parents with
  | Some p => if pt_is_complete p then Some p else None
  | None => None
  end.

Definition entry_of (c : ScoredChunk) : ScoredChunk :=
  match complete_parent c with
  | Some p => mk_ScoredChunk (sc_chunk_id c) (sc_document_id c) (cap_parent_text (pt_text p) max_chars)
                (sc_score c) (sc_seq c)
  | None => c
  end.

Definition delivered (out : list ScoredChunk) (c : ScoredChunk) : Prop :=
  ∃ d, d ∈ out ∧ text_fingerprint (sc_text (entry_of c)) = text_fingerprint (sc_text d).

Lemma entry_of_id c : sc_chunk_id (entry_of c) = sc_chunk_id c.
Proof. unfold entry_of. by destruct (complete_parent c). Qed.

Lemma complete_parent_entry c : complete_parent (entry_of c) = complete_parent c.
Proof. unfold complete_parent at 1. by rewrite entry_of_id. Qed.

(** One step, both kinds of delivery in one. *)
Lemma widen_cons sp st c cs :
  widen parents max_chars sp st (c :: cs) =
  match complete_parent c with
  | Some p =>
      if bool_decide (pt_id p ∈ sp) then widen parents max_chars sp st cs
      else
        f ← text_fingerprint (sc_text (entry_of c));
        if bool_decide (f ∈ st) then widen parents max_chars (pt_id p :: sp) st cs
        else rest ← widen parents max_chars (pt_id p :: sp) (f :: st) cs; Ok (entry_of c :: rest)
  | None =>
      f ← text_fingerprint (sc_text (entry_of c));
      if bool_decide (f ∈ st) then widen parents max_chars sp st cs
      else rest ← widen parents max_chars sp (f :: st) cs; Ok (entry_of c :: rest)
  end.
Proof.
  cbn [widen]. unfold entry_of, complete_parent. destruct (alist_get (sc_chunk_id c) parents) as [p|]; [|done].
  by destruct (pt_is_complete p).
Qed.

Definition parent_ids (out : list ScoredChunk) : list text := omap (λ c, pt_id <$> complete_parent c) out.

(** A candidate skipped for its parent, seen before. *)
Definition parent_seen (sp : list text) (c : ScoredChunk) : Prop :=
  ∃ p, complete_parent c = Some p ∧ pt_id p ∈ sp.

Lemma widen_spec sp st cs out :
  widen parents max_chars sp st cs = Ok out →
  (∃ sub, sub `sublist_of` cs ∧ out = entry_of <$> sub) ∧
  (∃ fs, map_result (λ c, text_fingerprint (sc_text c)) out = Ok fs ∧ NoDup fs ∧ ∀ f, f ∈ fs → f ∉ st) ∧
  NoDup (parent_ids out) ∧ ∀ p, p ∈ parent_ids out → p ∉ sp.
Proof.
  revert sp st out; induction cs as [|c cs IH]; intros sp st out.
  { intros [= <-]. split; [by exists []|]. split; [exists []; split_and!; [done|constructor|by intros ? ?%elem_of_nil]|].
    split; [constructor|by intros ? ?%elem_of_nil]. }
  assert (∀ sp' f rest,
    text_fingerprint (sc_text (entry_of c)) = Ok f → f ∉ st → widen parents max_chars sp' (f :: st) cs = Ok rest →
    (∀ p, p ∈ sp → p ∈ sp') →
    match complete_parent c with Some p => pt_id p ∉ sp ∧ pt_id p ∈ sp' | None => True end →
    (∃ sub, sub `sublist_of` c :: cs ∧ entry_of c :: rest = entry_of <$> sub) ∧
    (∃ fs, map_result (λ c, text_fingerprint (sc_text c)) (entry_of c :: rest) = Ok fs ∧ NoDup fs ∧ ∀ f, f ∈ fs → f ∉ st) ∧
    NoDup (parent_ids (entry_of c :: rest)) ∧ ∀ p, p ∈ parent_ids (entry_of c :: rest) → p ∉ sp) as Hdeliver.
  { intros sp' f rest Hf Hfst Hrest Hsp Hp. destruct (IH _ _ _ Hrest) as ((sub & Hsub & ->) & (fs & Hfs & Hnd & Hst) & Hps & Hsps).
    split; [exists (c :: sub); by split; [constructor|]|]. split.
    - exists (f :: fs). cbn [map_result]. rewrite Hf, Hfs. split; [done|]. split.
      + constructor; [|done]. intros Hin. apply (Hst f Hin). left.
      + intros g [->|Hg]%elem_of_cons; [done|]. intros Hin. apply (Hst g Hg). by right.
    - unfold parent_ids. cbn [omap list_omap]. rewrite complete_parent_entry. fold (parent_ids (entry_of <$> sub)).
      destruct (complete_parent c) as [p|]; cbn [fmap option_fmap option_map].
      + destruct Hp as [Hp1 Hp2]. split; [constructor; [|done]; intros Hin; by apply (Hsps _ Hin)|].
        intros q [->|Hq]%elem_of_cons; [done|]. intros Hin. by apply (Hsps q Hq), Hsp.
      + split; [done|]. intros q Hq Hin. by apply (Hsps q Hq), Hsp. }
  assert (∀ sp' st', (∀ p, p ∈ sp → p ∈ sp') → (∀ f, f ∈ st → f ∈ st') → widen parents max_chars sp' st' cs = Ok out →
    (∃ sub, sub `sublist_of` c :: cs ∧ out = entry_of <$> sub) ∧
    (∃ fs, map_result (λ c, text_fingerprint (sc_text c)) out = Ok fs ∧ NoDup fs ∧ ∀ f, f ∈ fs → f ∉ st) ∧
    NoDup (parent_ids out) ∧ ∀ p, p ∈ parent_ids out → p ∉ sp) as Hskip.
  { intros sp' st' Hsp Hst Hw. destruct (IH _ _ _ Hw) as ((sub & Hsub & ->) & (fs & Hfs & Hnd & Hf) & Hps & Hsps).
    split; [exists sub; by split; [apply sublist_cons|]|]. split; [|split; [done|]; intros p Hp Hin; by apply (Hsps p Hp), Hsp].
    exists fs. split; [done|]. split; [done|]. intros f Hin Hs. by apply (Hf f Hin), Hst. }
  rewrite widen_cons. destruct (complete_parent c) as [p|] eqn:Hcp.
  - case_bool_decide as Hseen; [by apply Hskip|]. intros (f & Hf & Hw)%bind_Ok.
    case_bool_decide as Hfst; [apply (Hskip (pt_id p :: sp) st); [by right|done|done]|].
    apply bind_Ok in Hw as (rest & Hrest & [= <-]).
    eapply Hdeliver; [done..|by right|split; [done|left]].
  - intros (f & Hf & Hw)%bind_Ok. case_bool_decide; [by apply (Hskip sp st)|].
    apply bind_Ok in Hw as (rest & Hrest & [= <-]). by eapply Hdeliver.
Qed.

Definition same_parent (c c' : ScoredChunk) : Prop :=
  c' = c ∨ ∃ p p', complete_parent c = Some p ∧ complete_parent c' = Some p' ∧ pt_id p = pt_id p'.

(** A candidate's text is delivered, or was before, or its parent's turn came before. *)
Definition settled (sp st : list text) (cs out : list ScoredChunk) (c : ScoredChunk) : Prop :=
  parent_seen sp c ∨
  ∃ c', c' ∈ cs ∧ same_parent c c' ∧
    (delivered out c' ∨ ∃ f, text_fingerprint (sc_text (entry_of c')) = Ok f ∧ f ∈ st).

Lemma settled_step sp st c cs out sp' st' out' d :
  settled sp' st' cs out d →
  (∀ q, q ∈ sp' → q ∈ sp ∨ ∃ p, complete_parent c = Some p ∧ q = pt_id p) →
  (∀ f, f ∈ st' → f ∈ st ∨ text_fingerprint (sc_text (entry_of c)) = Ok f ∧ entry_of c ∈ out') →
  (∀ x, x ∈ out → x ∈ out') →
  (parent_seen sp c ∨ delivered out' c ∨ ∃ f, text_fingerprint (sc_text (entry_of c)) = Ok f ∧ f ∈ st) →
  settled sp st (c :: cs) out' d.
Proof.
  intros Hd Hsp Hst Hout Hc. destruct Hd as [(p & Hp & Hin)|(c' & Hc' & Hsame & Hset)].
  - destruct (Hsp _ Hin) as [|(q & Hq & Heq)]; [left; by exists p|]. destruct Hc as [(q' & Hq' & Hseen)|Hc].
    + left. exists p. split; [done|]. assert (q' = q) as -> by congruence. by rewrite Heq.
    + right. exists c. split; [left|]. split; [right; by exists p, q|]. exact Hc.
  - right. exists c'. split; [by right|]. split; [done|].
    destruct Hset as [(x & Hx & Hfp)|(f & Hf & Hin)]; [left; exists x; by split; [apply Hout|]|].
    destruct (Hst f Hin) as [|[Hfc He]]; [right; by exists f|]. left. exists (entry_of c). split; [done|]. congruence.
Qed.

Lemma widen_settles sp st cs out :
  widen parents max_chars sp st cs = Ok out → ∀ c, c ∈ cs → settled sp st cs out c.
Proof.
  revert sp st out; induction cs as [|c cs IH]; intros sp st out; [by intros _ c ?%elem_of_nil|].
  assert (∀ sp' st' out', widen parents max_chars sp' st' cs = Ok out' →
    (∀ q, q ∈ sp' → q ∈ sp ∨ ∃ p, complete_parent c = Some p ∧ q = pt_id p) →
    (∀ f, f ∈ st' → f ∈ st ∨ text_fingerprint (sc_text (entry_of c)) = Ok f ∧ entry_of c ∈ out) →
    (∀ x, x ∈ out' → x ∈ out) →
    (parent_seen sp c ∨ delivered out c ∨ ∃ f, text_fingerprint (sc_text (entry_of c)) = Ok f ∧ f ∈ st) →
    ∀ d, d ∈ c :: cs → settled sp st (c :: cs) out d) as Hstep.
  { intros sp' st' out' Hw Hsp Hst Hout Hc d [->|Hd]%elem_of_cons.
    - destruct Hc as [Hc|Hc]; [by left|]. right. exists c. split; [left|]. split; [by left|done].
    - by eapply settled_step; [apply (IH _ _ _ Hw)|..]. }
  rewrite widen_cons.
  assert (∀ sp' f, text_fingerprint (sc_text (entry_of c)) = Ok f →
    (∀ q, q ∈ sp' → q ∈ sp ∨ ∃ p, complete_parent c = Some p ∧ q = pt_id p) →
    (if bool_decide (f ∈ st) then widen parents max_chars sp' st cs
     else rest ← widen parents max_chars sp' (f :: st) cs; Ok (entry_of c :: rest)) = Ok out →
    ∀ d, d ∈ c :: cs → settled sp st (c :: cs) out d) as Hdeliver.
  { intros sp' f Hf Hsp Hw. case_bool_decide as Hin.
    - apply (Hstep sp' st out Hw Hsp); [by left|done|]. right; right. by exists f.
    - apply bind_Ok in Hw as (rest & Hrest & [= <-]). apply (Hstep sp' (f :: st) rest Hrest Hsp).
      + intros g [->|Hg]%elem_of_cons; [right; split; [done|left]|by left].
      + by right.
      + right; left. exists (entry_of c). split; [left|done]. }
  destruct (complete_parent c) as [p|] eqn:Hcp.
  - case_bool_decide as Hseen.
    + intros Hw. apply (Hstep sp st out Hw); [by left|by left|done|]. left. by exists p.
    + intros (f & Hf & Hw)%bind_Ok. apply (Hdeliver (pt_id p :: sp) f Hf); [|exact Hw].
      intros q [->|Hq]%elem_of_cons; [right; by exists p|by left].
  - intros (f & Hf & Hw)%bind_Ok. apply (Hdeliver sp f Hf); [by left|exact Hw].
Qed.
End Widening.

(** Widening the candidates to their parents delivers some of them in their order, each
    with its own text or that of its complete parent, capped; no complete parent is
    delivered twice and no two texts have the same fingerprint; and no candidate is left
    out unless its text, or that of a candidate with the same parent, is delivered. *)
Theorem widening_repeats_nothing `{Unicode, HashLib, CaseFold} (candidates out : list ScoredChunk)
    (parents : list (text * ParentChunkText)) (max_chars : Z)
    (Hrun : widen_to_parents candidates parents max_chars = Ok out) :
  (∃ sub, sub `sublist_of` candidates ∧ out = entry_of parents max_chars <$> sub) ∧
  NoDup (parent_ids parents out) ∧
  (∃ fs, map_result (λ c, text_fingerprint (sc_text c)) out = Ok fs ∧ NoDup fs) ∧
  ∀ c, c ∈ candidates → ∃ c', c' ∈ candidates ∧ same_parent parents c c' ∧ delivered parents max_chars out c'.
Proof.
  destruct (widen_spec _ _ _ _ _ _ Hrun) as (Hsub & (fs & Hfs & Hnd & _) & Hps & _).
  split; [done|]. split; [done|]. split; [by exists fs|]. intros c Hc.
  destruct (widen_settles _ _ _ _ _ _ Hrun c Hc) as [(p & _ & []%elem_of_nil)|(c' & Hc' & Hsame & Hset)].
  exists c'. split; [done|]. split; [done|]. by destruct Hset as [|(f & _ & []%elem_of_nil)].
Qed.

(** ** The ranking keeps ids apart and in the hits *)

Lemma slice_to_sublist {A} n (l : list A) : slice_to n l `sublist_of` l.
Proof. apply sublist_take. Qed.

Lemma slice_to_prefix {A} n (l : list A) : ∃ k, slice_to n l = take k l.
Proof. by eexists. Qed.

Lemma payloads_by_id_spec hits id p :
  alist_get id (payloads_by_id hits) = Some p → ∃ h, h ∈ hits ∧ vh_id h = id ∧ vh_payload h = p.
Proof.
  unfold payloads_by_id. induction hits as [|h hits IH] using rev_ind; [done|].
  rewrite foldl_app. cbn [foldl]. rewrite alist_get_set_if. case_bool_decide as Hid.
  - intros [= <-]. exists h. split; [|done]. apply elem_of_app. right. by apply list_elem_of_singleton.
  - intros (h' & Hh & Heq)%IH. exists h'. split; [|done]. apply elem_of_app. by left.
Qed.

Lemma mmr_rerank_spec fused vectors top_n lambda :
  ∃ perm, perm ≡ₚ fused ∧ mmr_rerank fused vectors top_n lambda `sublist_of` perm.
Proof.
  unfold mmr_rerank. case_bool_decide; [by exists fused; split; [|apply slice_to_sublist]|].
  eexists. split; [apply sort_by_Permutation|apply slice_to_sublist].
Qed.

Lemma mmr_rerank_ids fused vectors top_n lambda :
  NoDup (fc_chunk_id <$> fused) →
  NoDup (fc_chunk_id <$> mmr_rerank fused vectors top_n lambda) ∧
  ∀ c, c ∈ mmr_rerank fused vectors top_n lambda → c ∈ fused.
Proof.
  intros Hnd. destruct (mmr_rerank_spec fused vectors top_n lambda) as (perm & Hperm & Hsub). split.
  - eapply sublist_NoDup; [|by apply fmap_sublist]. by rewrite Hperm.
  - intros c Hc. rewrite <- Hperm. by eapply elem_of_sublist.
Qed.

(** A chunk that says what the payload of a hit of its id says. *)
Definition reads (hits : list VectorHit) (c : ScoredChunk) : Prop :=
  ∃ p, alist_get (sc_chunk_id c) (payloads_by_id hits) = Some p ∧
    text_at p (txt "document_id") = Ok (sc_document_id c) ∧ text_at p (txt "text") = Ok (sc_text c).

Section Delivery.
Context {V : Type} `{Retrieval V, Naming, HashLib, Unicode, CaseFold, Lexicon, Repr}.
Variables (tuning : RetrievalTuning) (embedding_max_input_tokens : Z).
Implicit Types (w : V).

Lemma rank_hits_spec k dense sparse relevant :
  rank_hits tuning k dense sparse = Ok relevant →
  NoDup (sc_chunk_id <$> relevant) ∧ Forall (reads (dense ++ sparse)) relevant.
Proof.
  unfold rank_hits. intros (fused & Hf & (scored & Hs & [= <-])%bind_Ok)%bind_Ok.
  apply fusion_ids in Hf as [Hnd _].
  apply (mmr_rerank_ids _ (vectors_by_id (dense ++ sparse))
    (Z.min (k * fusion_retention tuning) (max_search_candidates tuning)) (mmr_lambda tuning)) in Hnd as [Hnd _].
  set (ranked := mmr_rerank _ _ _ _) in *. apply map_result_Ok in Hs.
  assert (sc_chunk_id <$> scored = fc_chunk_id <$> ranked ∧ Forall (reads (dense ++ sparse)) scored) as [Hids Hall].
  { clear Hnd. induction Hs as [|c s ranked' scored' Hc Hs IH]; [by split; [|constructor]|].
    destruct IH as [IH1 IH2]. apply bind_Ok in Hc as (p & Hp & Hc).
    unfold or_key_error in Hp. destruct (alist_get _ _) as [q|] eqn:Hq; [|done]. injection Hp as ->.
    unfold to_scored_chunk in Hc. unresult. cbn [fmap list_fmap sc_chunk_id]. split; [by f_equal|].
    constructor; [|done]. exists p. done. }
  set (out := filter_relevant _ _ _ _ _).
  assert (out `sublist_of` scored) as Hsub by apply filter_relevant_sublist. split.
  - rewrite <- Hids in Hnd. eapply sublist_NoDup; [exact Hnd|by apply fmap_sublist].
  - rewrite Forall_forall in *. intros c Hc. apply Hall. by eapply elem_of_sublist.
Qed.

Lemma take_drop_length {A} n (l : list A) : take n l ++ drop (length (take n l)) l = l.
Proof.
  rewrite length_take. destruct (Nat.le_ge_cases n (length l)).
  - rewrite Nat.min_l by done. apply take_drop.
  - rewrite Nat.min_r, take_ge, drop_all by done. apply app_nil_r.
Qed.

Lemma rerank_stage_Ok candidates query w out w' :
  rerank_stage tuning candidates query w = (Ok out, w') →
  out ≡ₚ candidates ∧
  ∃ front, out = front ++ drop (length (slice_to (rerank_candidates tuning) candidates)) candidates.
Proof.
  set (scope := slice_to _ _). assert (scope ++ drop (length scope) candidates = candidates) as Hsplit
    by apply take_drop_length.
  unfold rerank_stage. fold scope. destruct reranker as [rerank|].
  2:{ intros [= <- <-]. split; [done|]. by exists scope. }
  destruct (_ || _); [intros [= <- <-]; split; [done|]; by exists scope|].
  unfold eff_catch, mbind, eff_bind. destruct (rerank _ _ w) as [[ranked|e] w1]; cbn [fst snd].
  - intros [= <- <-]. split; [|by eexists]. by rewrite apply_rerank_Permutation, Hsplit.
  - case_match; [|done]. intros [= <- <-]. split; [done|]. by exists scope.
Qed.

(** The reranking stage only reorders: what goes on is a permutation of the relevant
    chunks, of which those past the reranker's scope keep their places; it is the very list
    that came in when reranking is off, when there is no reranker, when there is nothing to
    rank and when the reranker fails with an [AppError], whatever it answers otherwise. *)
Theorem reranking_only_reorders (candidates : list ScoredChunk) (query : text) w :
  let scope := slice_to (rerank_candidates tuning) candidates in
  (rerank_enabled tuning = false ∨ reranker = None ∨ candidates = [] →
   rerank_stage tuning candidates query w = (Ok candidates, w)) ∧
  (∀ out w', rerank_stage tuning candidates query w = (Ok out, w') →
    out ≡ₚ candidates ∧ ∃ front, out = front ++ drop (length scope) candidates) ∧
  (∀ rerank e w', reranker = Some rerank → rerank_enabled tuning = true → candidates ≠ [] →
    rerank query (sc_text <$> scope) w = (Err (App e), w') →
    rerank_stage tuning candidates query w = (Ok candidates, w')) ∧
  ∀ e w', rerank_stage tuning candidates query w = (Err e, w') → is_app e = false.
Proof.
  intros scope. split_and!; [|intros out w'; apply rerank_stage_Ok|..]; unfold rerank_stage; fold scope.
  - intros [Hoff|[->|Hnil]]; [|done|]; destruct reranker; try done.
    + by rewrite Hoff.
    + by rewrite (bool_decide_true (candidates = [])), orb_true_r.
  - intros rerank e w' -> -> Hne Hr. rewrite bool_decide_false by done. cbn [negb orb].
    unfold eff_catch, mbind, eff_bind. by rewrite Hr.
  - intros e w'. destruct reranker as [rerank|]; [|done]. destruct (_ || _); [done|].
    unfold eff_catch, mbind, eff_bind.
    destruct (rerank _ _ w) as [[ranked|e'] w1]; [done|]. destruct (is_app e') eqn:He; [done|].
    by intros [= <- _].
Qed.

(** What [pack_chunks] makes of chunks that read as their hits do. *)
Definition shown (hits : list VectorHit) (c : ScoredChunk) (r : RetrievedChunk) : Prop :=
  ∃ p, alist_get (sc_chunk_id c) (payloads_by_id hits) = Some p ∧ r = to_retrieved_chunk c p.

Lemma pack_chunks_spec k hits widened chunks :
  1 ≤ k → pack_chunks tuning k hits widened = Ok chunks →
  ∃ n, Forall2 (shown hits) (take n widened) chunks ∧ Z.of_nat (length chunks) ≤ k.
Proof.
  intros Hk. unfold pack_chunks. intros (retrieved & Hr & [= <-])%bind_Ok.
  destruct (fit_from_spec false 0 0 (max_context_chars tuning) (max_context_tokens tuning)
    ((λ c, (c, labeled_text c)) <$> retrieved)) as (n & Hfit & _).
  unfold fit_to_context_budget. rewrite Hfit.
  assert ((take n ((λ c, (c, labeled_text c)) <$> retrieved)).*1 = take n retrieved) as ->.
  { rewrite <- !fmap_take. rewrite <- list_fmap_compose. f_equal. apply list_fmap_id. }
  unfold slice_to. destruct (Z.ltb_spec k 0); [lia|]. rewrite take_take.
  exists (Z.to_nat k `min` n)%nat. split; [|rewrite length_take; lia].
  apply Forall2_take. apply map_result_Ok in Hr. eapply Forall2_impl; [exact Hr|].
  intros c r (p & Hp & [= <-])%bind_Ok. unfold or_key_error in Hp.
  destruct (alist_get _ _) as [q|] eqn:Hq; [|done]. injection Hp as ->. by exists p.
Qed.

End Delivery.

(** A payload satisfies a filter: equal values, or one of a list. *)
Definition matches (flt p : dict) : Prop :=
  Forall (λ kv, match kv.2 with
                | JArr vs => ∃ x, alist_get kv.1 p = Some x ∧ x ∈ vs
                | v => alist_get kv.1 p = Some v
                end) flt.

(** What a search answers: points of the collection that satisfy the filter.  What the
    parents' table answers: the parents of the chunks asked for, in the workspace asked for. *)
Class RetrievalLaws (V : Type) `{Retrieval V} := {
  point_held : text → text → dict → Prop;
  parent_held : text → text → ParentChunkText → Prop;
  search_matches c v n flt w hits w' : search c v n flt w = (Ok hits, w') →
    Forall (λ h, point_held c (vh_id h) (vh_payload h) ∧ matches flt (vh_payload h)) hits;
  search_sparse_matches c v n flt w hits w' : search_sparse c v n flt w = (Ok hits, w') →
    Forall (λ h, point_held c (vh_id h) (vh_payload h) ∧ matches flt (vh_payload h)) hits;
  parents_answer ctx ids w ps w' : parent_texts_for_chunk_ids ctx ids w = (Ok ps, w') →
    Forall (λ ip, parent_held (workspace_id ctx) ip.1 ip.2) ps
}.

Section Scope.
Context {V : Type} `{RetrievalLaws V, Naming, HashLib, Unicode, CaseFold, Lexicon, Repr}.
Variables (tuning : RetrievalTuning) (embedding_max_input_tokens : Z).
Implicit Types (w : V).

(** A delivered chunk, its point and where its text comes from. *)
Definition in_scope (ctx : ExecutionContext) (collection space : text) (document_ids : option (list text))
    (c : RetrievedChunk) : Prop :=
  ∃ p, point_held collection (rc_chunk_id c) p ∧
    alist_get (txt "workspace_id") p = Some (JStr (workspace_id ctx)) ∧
    alist_get (txt "space") p = Some (JStr space) ∧
    alist_get (txt "document_id") p = Some (JStr (rc_document_id c)) ∧
    (∀ ids, document_ids = Some ids → rc_document_id c ∈ ids) ∧
    (alist_get (txt "text") p = Some (JStr (rc_text c)) ∨
     ∃ parent, parent_held (workspace_id ctx) (rc_chunk_id c) parent ∧ pt_is_complete parent = true ∧
       rc_text c = cap_parent_text (pt_text parent) (max_parent_chunk_chars tuning)) ∧
    rc_file_name c = any_at p (txt "file_name") ∧ rc_page_number c = any_at p (txt "page_number") ∧
    rc_section c = any_at p (txt "section").

Lemma require_space_scope_Ok space_id space :
  require_space_scope space_id = Ok space → space_id = Some space ∧ strip space ≠ [].
Proof.
  unfold require_space_scope. destruct space_id as [s|]; [|done]. case_bool_decide; [done|]. by intros [= ->].
Qed.

Lemma text_at_Ok p key t : text_at p key = Ok t → alist_get key p = Some (JStr t).
Proof. unfold text_at. destruct (alist_get key p) as [[]|]; naive_solver. Qed.

Lemma gate_elem hits m h : h ∈ gate_by_score hits m → h ∈ hits.
Proof. unfold gate_by_score. case_match; [done|]. by intros [? _]%elem_of_list_filter_bool. Qed.

Lemma search_filter_matches ctx ids space p :
  matches (search_filter ctx ids space) p →
  alist_get (txt "workspace_id") p = Some (JStr (workspace_id ctx)) ∧
  alist_get (txt "space") p = Some (JStr space) ∧
  ∀ l, ids = Some l → ∃ d, alist_get (txt "document_id") p = Some (JStr d) ∧ d ∈ l.
Proof.
  unfold matches, search_filter. intros [Hw [Hd Hs]%Forall_app]%Forall_cons. cbn in Hw.
  apply Forall_cons in Hs as [Hs _]. split; [done|]. split; [done|]. intros l ->.
  apply Forall_cons in Hd as [(x & Hx & (d & -> & Hd)%list_elem_of_fmap) _]. by exists d.
Qed.

Lemma shown_ids hits (f : ScoredChunk → ScoredChunk) sub chunks :
  (∀ c, sc_chunk_id (f c) = sc_chunk_id c) → Forall2 (shown hits) (f <$> sub) chunks →
  rc_chunk_id <$> chunks = sc_chunk_id <$> sub.
Proof.
  intros Hf. revert chunks; induction sub as [|c sub IH]; intros chunks; cbn [fmap list_fmap].
  { by inversion 1. }
  inversion 1 as [|? r ? l (p & _ & ->) Hl]; subst. cbn [fmap list_fmap]. f_equal; [apply Hf|by apply IH].
Qed.

(** A chunk widened from one that reads as its hit does. *)
Lemma shown_in_scope ctx collection space ids hits parents c r :
  Forall (λ h, point_held collection (vh_id h) (vh_payload h) ∧ matches (search_filter ctx ids space) (vh_payload h)) hits →
  Forall (λ ip, parent_held (workspace_id ctx) ip.1 ip.2) parents →
  reads hits c → shown hits (entry_of parents (max_parent_chunk_chars tuning) c) r →
  in_scope ctx collection space ids r.
Proof.
  intros Hhits Hparents (p & Hp & Hdoc%text_at_Ok & Htext%text_at_Ok) (q & Hq & ->).
  rewrite entry_of_id in Hq. assert (q = p) as -> by congruence.
  apply payloads_by_id_spec in Hp as (h & Hh & Hid & <-). rewrite Forall_forall in Hhits.
  destruct (Hhits h Hh) as [Hheld (Hws & Hsp & Hids)%search_filter_matches]. rewrite Hid in Hheld.
  assert (sc_document_id (entry_of parents (max_parent_chunk_chars tuning) c) = sc_document_id c) as Hd
    by (unfold entry_of; by destruct (complete_parent parents c)).
  exists (vh_payload h). unfold to_retrieved_chunk. cbn [rc_chunk_id rc_document_id rc_text rc_file_name rc_page_number rc_section].
  rewrite entry_of_id, Hd. split_and!; try done.
  - intros l Hl. destruct (Hids l Hl) as (d & Hd' & Hin). assert (d = sc_document_id c) as <- by congruence. done.
  - unfold entry_of, complete_parent. destruct (alist_get (sc_chunk_id c) parents) as [parent|] eqn:E; [|by left].
    destruct (pt_is_complete parent) eqn:Hc; [|by left]. right. exists parent. split; [|done].
    rewrite Forall_forall in Hparents. apply (Hparents (sc_chunk_id c, parent)). by apply alist_get_elem.
Qed.

(** C26: Whatever the tuning and whatever the ports answer, a retrieval that returns
    delivers at most the clamped number of chunks, no chunk twice, and each of them is a
    point of the collection of the caller's workspace and model, whose payload names that
    workspace, the space asked for and, if documents were named, one of them; its text is
    the point's own or its complete parent's, capped, and its citation that of the same
    payload. *)
Theorem retrieval_stays_in_scope ctx query model api_key k document_ids space_id w r w'
    (Hrun : execute tuning embedding_max_input_tokens ctx query model api_key k document_ids space_id w = (Ok r, w')) :
  ∃ space collection, space_id = Some space ∧ strip space ≠ [] ∧ strip query ≠ [] ∧
    collection_of embedding_max_input_tokens ctx model = Ok collection ∧
    Z.of_nat (length (rr_chunks r)) ≤ clamp_k tuning k ∧
    NoDup (rc_chunk_id <$> rr_chunks r) ∧
    Forall (in_scope ctx collection space document_ids) (rr_chunks r).
Proof.
  unfold execute in Hrun.
  apply eff_bind_Ok in Hrun as (u & w0 & [Hq ->]%eff_lift_Ok & Hrun).
  apply raise_if_Ok, bool_decide_eq_false in Hq.
  apply eff_bind_Ok in Hrun as (space & w0' & [Hspace ->]%eff_lift_Ok & Hrun).
  apply eff_bind_Ok in Hrun as (collection & w1 & [Hc ->]%eff_lift_Ok & Hrun).
  apply require_space_scope_Ok in Hspace as [Hs1 Hs2].
  exists space, collection. do 4 (split; [done|]). revert Hrun. case_bool_decide as Hnone.
  { intros [= <- <-]. cbn. split; [unfold clamp_k; lia|]. split; constructor. }
  intros Hrun. apply eff_bind_Ok in Hrun as (vectors & w2 & _ & Hrun).
  apply eff_bind_Ok in Hrun as (q_vector & w3 & _ & Hrun).
  apply eff_bind_Ok in Hrun as (q_sparse & w4 & _ & Hrun).
  apply eff_bind_Ok in Hrun as (dense & w5 & Hdense%search_matches & Hrun).
  apply eff_bind_Ok in Hrun as (sparse & w6 & Hsparse%search_sparse_matches & Hrun).
  apply eff_bind_Ok in Hrun as (relevant & w7 & [Hrank _]%eff_lift_Ok & Hrun).
  apply eff_bind_Ok in Hrun as (relevant' & w8 & [Hperm _]%rerank_stage_Ok & Hrun).
  apply eff_bind_Ok in Hrun as (parents & w9 & Hparents%parents_answer & Hrun).
  apply eff_bind_Ok in Hrun as (widened & w10 & [Hwide _]%eff_lift_Ok & Hrun).
  apply eff_bind_Ok in Hrun as (chunks & w11 & [Hpack _]%eff_lift_Ok & [= <- <-]). cbn [rr_chunks].
  apply rank_hits_spec in Hrank as [Hnd Hreads]. rewrite <- Hperm in Hnd, Hreads.
  apply widen_spec in Hwide as ((sub & Hsub & ->) & _).
  apply pack_chunks_spec in Hpack as (n & Hshown & Hlen); [|unfold clamp_k; lia].
  split; [done|]. set (hits := gate_by_score dense _ ++ gate_by_score sparse _) in *.
  rewrite <- fmap_take in Hshown. assert (take n sub `sublist_of` relevant') as Hts by (etrans; [apply sublist_take|done]).
  split.
  - assert (rc_chunk_id <$> chunks = sc_chunk_id <$> take n sub) as ->.
    { eapply shown_ids; [|exact Hshown]. intros c. apply entry_of_id. }
    eapply sublist_NoDup; [exact Hnd|by apply fmap_sublist].
  - apply Forall_forall. intros r Hr. apply Forall2_partner in Hshown as [_ Hback].
    destruct (Hback r Hr) as (d & (c & -> & Hcin)%list_elem_of_fmap & Hshow).
    eapply shown_in_scope; [|exact Hparents| |exact Hshow].
    + subst hits. apply Forall_app. rewrite !Forall_forall in *. split; intros h Hh%gate_elem; auto.
    + rewrite Forall_forall in Hreads. apply Hreads. by eapply elem_of_sublist.
Qed.
End Scope.

(** ** What indexing wrote is what retrieval reads *)

(** The citations of a payload, looked up by their keys. *)
Lemma citations_get metadata keys key :
  key ∈ keys → alist_get key (omap (citation metadata) keys) = snd <$> citation metadata key.
Proof.
  assert (∀ k e, citation metadata k = Some e → e.1 = k) as Hkey.
  { unfold citation. intros k e. destruct (if bool_decide _ then _ else _); [|done]. by intros [= <-]. }
  induction keys as [|k keys IH]; [by intros ?%elem_of_nil|]. intros Hin. cbn [omap list_omap].
  destruct (citation metadata k) as [[k' v]|] eqn:Hk.
  - pose proof (Hkey _ _ Hk) as Hk'. cbn in Hk'. subst k'. cbn [alist_get]. case_bool_decide as Heq.
    + subst key. by rewrite Hk.
    + apply elem_of_cons in Hin as [->|Hin]; [done|]. by apply IH.
  - apply elem_of_cons in Hin as [->|Hin]; [|by apply IH]. rewrite Hk. cbn.
    destruct (decide (k ∈ keys)) as [Hin|Hout]; [rewrite IH, Hk; done|]. clear IH.
    induction keys as [|k2 keys IH]; [done|]. cbn [omap list_omap]. apply not_elem_of_cons in Hout as [Hne Hout].
    destruct (citation metadata k2) as [[k3 v]|] eqn:Hk2; [|by apply IH].
    pose proof (Hkey _ _ Hk2) as Hk3. cbn in Hk3. subst k3. cbn [alist_get].
    rewrite bool_decide_false by done. by apply IH.
Qed.

(** C30: The payload the indexer writes for a chunk of a space satisfies the filter of every
    retrieval in that workspace and space that names its document or none, and reads back as
    that document, that text, that position and those citations; the payload of a chunk of
    no space satisfies no retrieval's filter. *)
Theorem indexed_chunks_are_found ctx document space point chunk score (ids : option (list text)) :
  let p := payload ctx document (Some space) point chunk in
  ((∀ l, ids = Some l → document ∈ l) → matches (search_filter ctx ids space) p) ∧
  to_scored_chunk (mk_FusedChunk point score) p =
    Ok (mk_ScoredChunk point document (ck_text chunk) score (ck_seq chunk)) ∧
  Forall (λ key, any_at p key = default JNull (snd <$> citation (ck_metadata chunk) key))
    (txt <$> ["file_name"; "page_number"; "section"]) ∧
  ¬ matches (search_filter ctx ids space) (payload ctx document None point chunk).
Proof.
  cbn zeta. split; [|split; [reflexivity|split]].
  - intros Hids. unfold matches, search_filter. apply Forall_app. split; [by repeat constructor|].
    apply Forall_app. split; [|by repeat constructor]. destruct ids as [l|]; [|constructor].
    constructor; [|constructor]. exists (JStr document). split; [done|]. by apply list_elem_of_fmap_2, Hids.
  - apply Forall_forall. intros key Hkey. unfold any_at, payload.
    rewrite alist_get_app, (proj2 (alist_get_None _ _)), alist_get_app, (proj2 (alist_get_None _ _)), citations_get; [done|..].
    + revert key Hkey. by apply Forall_forall, (bool_decide_unpack _).
    + cbn [fmap list_fmap fst]. revert key Hkey. by apply Forall_forall, (bool_decide_unpack _).
    + cbn [fmap list_fmap fst]. revert key Hkey. by apply Forall_forall, (bool_decide_unpack _).
  - intros (_ & Hs & _)%search_filter_matches. unfold payload in Hs.
    rewrite alist_get_app in Hs. cbn [app] in Hs. rewrite (proj2 (alist_get_None _ (omap _ _))) in Hs.
    { rewrite (proj2 (alist_get_None _ _)) in Hs; [done|]. cbn [fmap list_fmap fst]. by apply (bool_decide_unpack _). }
    intros Hin. apply list_elem_of_fmap in Hin as ([k v] & Heq & Hin). cbn [fst] in Heq. subst k. apply list_elem_of_omap in Hin as (key & Hin & Hc).
    assert (key = txt "space") as ->.
    { unfold citation in Hc. destruct (if bool_decide _ then _ else _); [|done]. by injection Hc. }
    revert Hin. by apply (bool_decide_unpack _).
Qed.

(** ** Requests that are refused *)

Section Refused.
Context {V : Type} `{Retrieval V, Naming, HashLib, Unicode, CaseFold, Lexicon, Repr}.
Variables (tuning : RetrievalTuning) (embedding_max_input_tokens : Z).

(** A blank question is a 422, and so is a request without a space or with a blank one,
    under its own code; one that names no document is answered with nothing.  In each case
    no port has been called. *)
Theorem refusals_call_no_port ctx query model api_key k document_ids space_id (w : V) :
  let run := execute tuning embedding_max_input_tokens ctx query model api_key k document_ids space_id w in
  let refusal code := Err (App (mk_app_error ValidationError code 422 None)) in
  (strip query = [] → run = (refusal "common.validation_error"%string, w)) ∧
  (strip query ≠ [] → (space_id = None ∨ ∃ s, space_id = Some s ∧ strip s = []) →
   run = (refusal "knowledge.space_required"%string, w)) ∧
  (∀ s collection, strip query ≠ [] → space_id = Some s → strip s ≠ [] → document_ids = Some [] →
   collection_of embedding_max_input_tokens ctx model = Ok collection →
   run = (Ok (mk_RetrievalResult [] None None), w)).
Proof.
  cbn zeta. unfold execute, mbind, eff_bind, eff_lift, raise_if, require_space_scope. split_and!.
  - intros ->. rewrite bool_decide_true by done. reflexivity.
  - intros Hq Hs. rewrite (bool_decide_false (strip query = [])) by done.
    destruct Hs as [->|(s & -> & Hs)]; [reflexivity|]. rewrite bool_decide_true by done. reflexivity.
  - intros s collection Hq -> Hs -> Hc. rewrite !bool_decide_false, Hc by done.
    by rewrite (bool_decide_true (Some [] = Some [])).
Qed.
End Refused.

(** ** A concrete run *)

(** A store of three points over two spaces, a child with a complete parent among them, and
    a reranker that is down. *)
Section Demo.
#[local] Existing Instance demo_lexicon.
#[local] Instance retrieval_naming : Naming := {| uuid5 t := t; blake2s_hex _ := txt "0123456789ab" |}.
#[local] Instance retrieval_hash : HashLib := {| sha256_hex x := x |}.
#[local] Instance retrieval_casefold : CaseFold := {| casefold t := ascii_lower <$> t |}.
#[local] Instance retrieval_repr : Repr := {| py_repr _ := txt "?" |}.

Definition equal_or_listed (v : json) (actual : option json) : bool :=
  match v, actual with
  | JStr x, Some (JStr y) => bool_decide (x = y)
  | JArr vs, Some (JStr y) => existsb (λ v, match v with JStr x => bool_decide (x = y) | _ => false end) vs
  | _, _ => false
  end.

Definition matches_bool (flt p : dict) : bool := forallb (λ kv, equal_or_listed kv.2 (alist_get kv.1 p)) flt.

Lemma matches_bool_sound flt p : matches_bool flt p = true → matches flt p.
Proof.
  unfold matches_bool, matches. induction flt as [|[k v] flt IH]; cbn [forallb]; [constructor|].
  intros [Hv Hrest]%andb_prop. constructor; [|by apply IH]. cbn [fst snd] in *. unfold equal_or_listed in Hv.
  destruct v as [| | | |x|vs| |]; try done; destruct (alist_get k p) as [[]|]; try done.
  - by apply bool_decide_eq_true in Hv as ->.
  - apply existsb_exists in Hv as (v & Hin & Hv). destruct v; try done.
    apply bool_decide_eq_true in Hv as ->. eexists. split; [done|]. by apply list_elem_of_In.
Qed.

Definition demo_point (id space doc body : string) (score : Z) : VectorHit :=
  mk_VectorHit (txt id) (of_Z score)
    [(txt "workspace_id", JStr (txt "ws1")); (txt "document_id", JStr (txt doc)); (txt "text", JStr (txt body));
     (txt "seq", JInt 0); (txt "space", JStr (txt space)); (txt "page_number", JInt 4)] (Some [of_Z score; of_Z 1]).

Definition demo_points : list VectorHit := [
  demo_point "p1" "s1" "d1" "valve data" 3; demo_point "p2" "s2" "d2" "valve secrets" 9;
  demo_point "p3" "s1" "d1" "pump data" 2].

Definition demo_search (flt : dict) : eff nat exn (list VectorHit) := λ w,
  (Ok (List.filter (λ h, matches_bool flt (vh_payload h)) demo_points), S w).

Lemma demo_search_matches flt w hits w' :
  demo_search flt w = (Ok hits, w') → Forall (λ h, True ∧ matches flt (vh_payload h)) hits.
Proof.
  unfold demo_search. generalize demo_points. intros points Heq. apply pair_equal_spec in Heq as [Heq%Ok_inj _].
  subst hits. apply Forall_forall. intros h [_ Hm]%elem_of_list_filter_bool. split; [done|by apply matches_bool_sound].
Qed.

Definition demo_parent : ParentChunkText := mk_ParentChunkText (txt "par") (txt "all about valves") true.

#[local] Instance demo_retrieval : Retrieval nat := {|
  query_embed texts _ _ := λ w, (Ok ((λ _, [of_Z 1]) <$> texts), S w);
  query_dimensions _ := 1;
  search _ _ _ flt := demo_search flt;
  search_sparse _ _ _ flt := demo_search flt;
  parent_texts_for_chunk_ids _ ids := λ w,
    (Ok (if bool_decide (txt "p1" ∈ ids) then [(txt "p1", demo_parent)] else []), S w);
  reranker := Some (λ _ _ w, (Err (App (raise_class AppError)), S w))
|}.

#[local] Instance demo_retrieval_laws : RetrievalLaws nat.
Proof.
  refine {| point_held _ _ _ := True; parent_held _ _ _ := True |}.
  - intros c v n flt w hits w'. apply demo_search_matches.
  - intros c v n flt w hits w'. apply demo_search_matches.
  - intros ctx ids w ps w' _. by apply Forall_forall.
Defined.

Definition demo_tuning : RetrievalTuning :=
  mk_RetrievalTuning (lit 1 2) (lit 1 2) 60 3 100 20 3 5 50 fzero fzero fzero fzero (lit 95 100) 4000
    (lit 7 10) 6 true 20 12000 6000.

Definition demo_execute := execute demo_tuning 512 demo_ctx (txt "which valve") (txt "m") (txt "key") (Some 2)
  (Some [txt "d1"]) (Some (txt "s1")) 0%nat.
Definition demo_result : RetrievalResult := unwrap (mk_RetrievalResult [] None None) demo_execute.1.

Lemma demo_execute_Ok : demo_execute = (Ok demo_result, demo_execute.2).
Proof. apply run_Ok. vm_compute. reflexivity. Qed.

Example demo_context :
  context_text demo_result = txt "[unknown p.4]" ++ [10] ++ txt "all about valves" ++ [10; 10] ++
                             txt "[unknown p.4]" ++ [10] ++ txt "pump data".
Proof. vm_compute. reflexivity. Qed.

Lemma retrieval_stays_in_scope_witness :
  NoDup (rc_chunk_id <$> rr_chunks demo_result) ∧ length (rr_chunks demo_result) = 2%nat.
Proof.
  destruct (retrieval_stays_in_scope demo_tuning 512 demo_ctx (txt "which valve") (txt "m") (txt "key") (Some 2)
    (Some [txt "d1"]) (Some (txt "s1")) 0%nat demo_result demo_execute.2 demo_execute_Ok)
    as (space & collection & _ & _ & _ & _ & _ & Hnd & _).
  split; [exact Hnd|vm_compute; reflexivity].
Defined.

Definition demo_widened : list ScoredChunk :=
  unwrap [] (widen_to_parents [mk_ScoredChunk (txt "p1") (txt "d1") (txt "a  B") fzero 0;
                               mk_ScoredChunk (txt "p2") (txt "d1") (txt "A b") fzero 1] [] 10).

Lemma widening_repeats_nothing_witness :
  length demo_widened = 1%nat ∧ NoDup (parent_ids [] demo_widened).
Proof.
  split; [vm_compute; reflexivity|].
  apply (widening_repeats_nothing [mk_ScoredChunk (txt "p1") (txt "d1") (txt "a  B") fzero 0;
                                   mk_ScoredChunk (txt "p2") (txt "d1") (txt "A b") fzero 1] demo_widened [] 10).
  apply unwrap_Ok. vm_compute. reflexivity.
Defined.
End Demo.
