(* ===== verification/Streams.v ===== *)
(** * Streams: the Redis Streams adapters

    [infrastructure/messaging/redis_streams.py].  The server itself is a parameter:
    [StreamServer] lists the commands the adapters send, [StreamServerLaws] what the
    Redis documentation (and the measurements quoted in the source) says each does
    to the pending lists; a command that reports an error may or may not have run. *)

From S2P Require Import Prelude Text Calendar Errors Framework Files Events Wire.

Open Scope Z_scope.

Record StreamMessage := mk_StreamMessage {
  msg_stream : text;
  msg_entry_id : text;
  msg_raw : option bytes;
  msg_delivery_count : Z;
  msg_trimmed : bool
}.

Record GroupInfo := mk_GroupInfo {
  gi_name : text; gi_consumers : Z; gi_pending : Z; gi_lag : option Z
}.

Record ConsumerInfo := mk_ConsumerInfo { ci_name : text; ci_pending : Z; ci_idle_ms : Z }.

(** [redis.RedisError], its subclass [ResponseError] with its text, and [OSError]. *)
Inductive redis_error : Type :=
  | ResponseError (message : text)
  | RedisError
  | OSError.

Abbreviation fields := (list (bytes * bytes)).
Abbreviation reply := (list (text * list (text * fields))).

Definition CE_FIELD : bytes := txt "ce".

(** ** The server *)

(** One entry of a group's pending list: delivered to [pe_owner], not yet acked. *)
Record Pending := mk_Pending { pe_id : text; pe_owner : text; pe_count : Z }.

(** What can be observed of the server: per stream and group the pending list and
    the entries never delivered, the fields an entry still has, and every entry
    ever added, oldest first. *)
Record Broker := mk_Broker {
  pend : text → text → list Pending;
  unread : text → text → list text;
  body : text → text → fields;
  added : list (text * fields)
}.

Inductive ReadFrom : Type := OwnPending | NewEntries (block_ms : Z).

Class StreamServer (W : Type) := {
  view : W → Broker;
  id_leb : text → text → bool;
  xgroup_create : text → text → eff W redis_error unit;
  xgroup_destroy : text → text → eff W redis_error unit;
  xreadgroup : text → text → ReadFrom → list text → Z → eff W redis_error reply;
  xpending_range : text → text → text → text → Z → text → eff W redis_error (list (text * Z));
  xack : text → text → text → eff W redis_error unit;
  xadd : text → option Z → fields → eff W redis_error text;
  xadd_xack : text → fields → text → text → text → eff W redis_error unit;
  xinfo_groups : text → eff W redis_error (list GroupInfo);
  xinfo_consumers : text → text → eff W redis_error (list ConsumerInfo);
  xgroup_delconsumer : text → text → text → eff W redis_error Z;
  xautoclaim : text → text → text → Z → text → Z → eff W redis_error (text * list text);
  xlen : text → eff W redis_error Z;
  xrange_first : text → eff W redis_error (option (text * fields))
}.

Definition owned (c : text) (l : list Pending) : list Pending :=
  List.filter (λ p, bool_decide (pe_owner p = c)) l.

Definition without (id : text) (l : list Pending) : list Pending :=
  List.filter (λ p, negb (bool_decide (pe_id p = id))) l.

(** A re-read of one's own pending entries counts as one more delivery of each. *)
Definition bump (ids : list text) (l : list Pending) : list Pending :=
  (λ p, if bool_decide (pe_id p ∈ ids) then mk_Pending (pe_id p) (pe_owner p) (pe_count p + 1)
        else p) <$> l.

Definition reread (c : text) (n : Z) (l : list Pending) : list text :=
  pe_id <$> take (Z.to_nat n) (owned c l).

Definition flatten (r : reply) : list (text * text * fields) :=
  '(s, es) ← r; (λ e, (s, e.1, e.2)) <$> es.

(** Outside the pending lists and positions of [touched] nothing moves. *)
Definition elsewhere (touched : text → text → Prop) (b b' : Broker) : Prop :=
  ∀ s g, ¬ touched s g → pend b' s g = pend b s g ∧ unread b' s g = unread b s g.

Definition here (s g : text) : text → text → Prop := λ s' g', s' = s ∧ g' = g.
Definition nowhere : text → text → Prop := λ _ _, False.

(** The pairs of the streams and what is read of each, in order. *)
Definition spread {A} (ss : list text) (f : text → list A) : list (text * A) :=
  s ← ss; (λ x, (s, x)) <$> f s.

Definition effect (A : Type) : Type := Broker → A → Broker → Prop.

Section Effects.
Context {W : Type} `{StreamServer W}.

(** A stream's entries are what they were. *)
Definition same_bodies (b b' : Broker) : Prop := ∀ s id, body b' s id = body b s id.

Definition silent {A} : effect A := λ b _ b',
  elsewhere nowhere b b' ∧ added b' = added b ∧ same_bodies b b'.

Definition reads_own (g c : text) (ss : list text) (n : Z) : effect reply := λ b r b',
  flatten r = (λ k, (k, body b k.1 k.2)) <$> spread ss (λ s, reread c n (pend b s g)) ∧
  elsewhere (λ s g', s ∈ ss ∧ g' = g) b b' ∧ added b' = added b ∧
  ∀ s, s ∈ ss →
    pend b' s g = bump (reread c n (pend b s g)) (pend b s g) ∧ unread b' s g = unread b s g.

Definition reads_new (g c : text) (ss : list text) (n : Z) : effect reply := λ b r b',
  flatten r = (λ k, (k, body b k.1 k.2)) <$> spread ss (λ s, take (Z.to_nat n) (unread b s g)) ∧
  elsewhere (λ s g', s ∈ ss ∧ g' = g) b b' ∧ added b' = added b ∧
  ∀ s, s ∈ ss →
    pend b' s g = pend b s g ++ ((λ id, mk_Pending id c 1) <$> take (Z.to_nat n) (unread b s g)) ∧
    unread b' s g = drop (Z.to_nat n) (unread b s g).

Definition lists_pending (s g lo hi : text) (n : Z) (c : text) : effect (list (text * Z)) :=
  λ b rows b', silent b rows b' ∧
    rows = (λ p, (pe_id p, pe_count p)) <$> take (Z.to_nat n)
      (List.filter (λ p, id_leb lo (pe_id p) && id_leb (pe_id p) hi) (owned c (pend b s g))).

Definition acks (s g id : text) : effect unit := λ b _ b',
  elsewhere (here s g) b b' ∧ added b' = added b ∧
  pend b' s g = without id (pend b s g) ∧ unread b' s g = unread b s g.

Definition adds (s : text) (fs : fields) : effect text := λ b _ b',
  elsewhere (λ s' _, s' = s) b b' ∧ added b' = added b ++ [(s, fs)] ∧
  ∀ g, pend b' s g = pend b s g.

Definition moves (dlq : text) (fs : fields) (s g id : text) : effect unit := λ b _ b',
  ∃ b1 i, adds dlq fs b i b1 ∧ acks s g id b1 tt b'.

Definition counts_owners (s g : text) : effect (list ConsumerInfo) := λ b infos b',
  silent b infos b' ∧
  (∀ i, i ∈ infos → ci_pending i = Z.of_nat (length (owned (ci_name i) (pend b s g)))) ∧
  ∀ p, p ∈ pend b s g → pe_owner p ∈ ci_name <$> infos.

Definition drops_consumer (s g c : text) : effect Z := λ b n b',
  elsewhere (here s g) b b' ∧ added b' = added b ∧ same_bodies b b' ∧ unread b' s g = unread b s g ∧
  n = Z.of_nat (length (owned c (pend b s g))) ∧
  pend b' s g = List.filter (λ p, negb (bool_decide (pe_owner p = c))) (pend b s g).

Definition counts_pending (s : text) : effect (list GroupInfo) := λ b infos b',
  silent b infos b' ∧
  ∀ i, i ∈ infos → gi_pending i = Z.of_nat (length (pend b s (gi_name i))).

Definition destroys (s g : text) : effect unit := λ b _ b',
  elsewhere (here s g) b b' ∧ added b' = added b ∧ same_bodies b b' ∧ pend b' s g = [].

(** [XAUTOCLAIM ... JUSTID]: the claimed entries change owner and keep their count;
    an entry the stream no longer holds leaves the pending list. *)
Definition claims (s g c : text) : effect (text * list text) := λ b r b',
  elsewhere (here s g) b b' ∧ added b' = added b ∧ same_bodies b b' ∧ unread b' s g = unread b s g ∧
  ∃ lost : list text, (∀ id, id ∈ lost → body b s id = []) ∧
    pend b' s g =
    (λ p, if bool_decide (pe_id p ∈ r.2) then mk_Pending (pe_id p) c (pe_count p) else p) <$>
    List.filter (λ p, negb (bool_decide (pe_id p ∈ lost))) (pend b s g).
End Effects.

(** A command has its effect, or reports an error having had it or not. *)
Definition acts {W A} `{StreamServer W} (m : eff W redis_error A) (spec : effect A) : Prop :=
  ∀ w, match m w with
       | (Ok a, w') => spec (view w) a (view w')
       | (Err _, w') => silent (view w) tt (view w') ∨ ∃ a, spec (view w) a (view w')
       end.

(** [str.startswith] and [in] on texts. *)
Definition starts_with (p s : text) : bool := bool_decide (is_Some (strip_prefix p s)).
Fixpoint contains (p s : text) : bool :=
  starts_with p s || match s with [] => false | _ :: s => contains p s end.

(** How the server says that a stream, or a group of it, does not exist. *)
Definition no_such_key : text → bool := contains (txt "no such key").
Definition no_group (t : text) : bool := no_such_key t || starts_with (txt "NOGROUP") t.

Class StreamServerLaws (W : Type) `{StreamServer W} := {
  id_leb_refl : ∀ x, id_leb x x = true;
  id_leb_antisym : ∀ x y, id_leb x y = true → id_leb y x = true → x = y;
  pending_sorted : ∀ w s g,
    StronglySorted (λ x y, id_leb x y = true ∧ x ≠ y) (pe_id <$> pend (view w) s g);
  unread_after : ∀ w s g i, i ∈ unread (view w) s g → i ∉ pe_id <$> pend (view w) s g;
  unread_distinct : ∀ w s g, NoDup (unread (view w) s g);
  xgroup_create_acts : ∀ s g, acts (xgroup_create s g) silent;
  xgroup_destroy_acts : ∀ s g, acts (xgroup_destroy s g) (destroys s g);
  xinfo_groups_acts : ∀ s, acts (xinfo_groups s) (counts_pending s);
  xreadgroup_own_acts : ∀ g c ss n, NoDup ss → acts (xreadgroup g c OwnPending ss n) (reads_own g c ss n);
  xreadgroup_new_acts : ∀ g c ss n ms, NoDup ss →
    acts (xreadgroup g c (NewEntries ms) ss n) (reads_new g c ss n);
  xpending_range_acts : ∀ s g lo hi n c,
    acts (xpending_range s g lo hi n c) (lists_pending s g lo hi n c);
  xack_acts : ∀ s g id, acts (xack s g id) (acks s g id);
  xadd_acts : ∀ s ml fs, acts (xadd s ml fs) (adds s fs);
  xadd_xack_acts : ∀ d fs s g id, acts (xadd_xack d fs s g id) (moves d fs s g id);
  xinfo_consumers_acts : ∀ s g, acts (xinfo_consumers s g) (counts_owners s g);
  xinfo_consumers_no_group : ∀ s g w t w', xinfo_consumers s g w = (Err (ResponseError t), w') →
    no_group t = true → pend (view w') s g = [];
  xgroup_delconsumer_acts : ∀ s g c, acts (xgroup_delconsumer s g c) (drops_consumer s g c);
  xautoclaim_acts : ∀ s g c ms st n, acts (xautoclaim s g c ms st n) (claims s g c)
}.

(** ** The adapters *)

(** [_translate] and [_translate_consume]: every driver failure is the one
    500-class error. *)
Definition stream_failed : exn := App (raise_code AppError "common.internal").

Section Adapter.
Context {W : Type} `{StreamServer W}.

(** [try: m] / [except (RedisError, OSError)]; [folds] is what a [ResponseError] is
    answered with instead, if anything. *)
Definition translating {A} (folds : text → option A) (m : eff W redis_error A) : eff W exn A :=
  λ w, match m w with
       | (Ok a, w') => (Ok a, w')
       | (Err (ResponseError t), w') =>
           (match folds t with Some a => Ok a | None => Err stream_failed end, w')
       | (Err _, w') => (Err stream_failed, w')
       end.

Definition never {A} : text → option A := λ _, None.
Definition when {A} (p : text → bool) (a : A) : text → option A :=
  λ t, if p t then Some a else None.

(** [RedisStreamsPublisher]: only a [RedisError] is translated, an [OSError] escapes. *)
Definition publishing {A} (m : eff W redis_error A) : eff W exn A :=
  λ w, match m w with
       | (Err OSError, w') => (Err (Other "OSError"), w')
       | _ => translating never m w
       end.

Definition publish `{FloatRepr} (maxlen : option Z) (stream : text) (event : json) : eff W exn text :=
  payload ← eff_lift (encode_event event);
  publishing (xadd stream maxlen [(CE_FIELD, payload)]).

Fixpoint publish_batch `{FloatRepr} (maxlen : option Z) (items : list (text * json))
    : eff W exn (list text) :=
  match items with
  | [] => mret []
  | (stream, event) :: items =>
      id ← publish maxlen stream event;
      ids ← publish_batch maxlen items;
      mret (id :: ids)
  end.

(** [RedisStreamsConsumer] *)
Definition ensure_group (stream group : text) : eff W exn unit :=
  translating (when (starts_with (txt "BUSYGROUP")) tt) (xgroup_create stream group).

Definition destroy_group (stream group : text) : eff W exn unit :=
  translating (when (contains (txt "requires the key to exist")) tt) (xgroup_destroy stream group).

Definition group_infos (stream : text) : eff W exn (list GroupInfo) :=
  translating (when no_such_key []) (xinfo_groups stream).

Definition list_groups (stream : text) : eff W exn (list text) :=
  translating (when no_such_key [])
    (gs ← xinfo_groups stream; mret (gi_name <$> gs)).

Definition list_consumers (stream group : text) : eff W exn (list ConsumerInfo) :=
  translating (when no_group []) (xinfo_consumers stream group).

Definition delete_consumer (stream group consumer : text) : eff W exn Z :=
  translating (when no_group 0) (xgroup_delconsumer stream group consumer).

Definition ORIGIN : text := txt "0-0".

(** [reclaim]'s cursor loop, at most [max_batches] calls; what was claimed before a
    failure stays claimed. *)
Fixpoint reclaim_from (stream group consumer : text) (min_idle count : Z) (cursor : text)
    (batches : nat) (claimed : list text) : eff W exn (list text) :=
  match batches with
  | O => mret claimed
  | S batches =>
      r ← translating (λ t, if no_group t then Some None else None)
            (r ← xautoclaim stream group consumer min_idle cursor count; mret (Some r));
      match r with
      | None => mret claimed
      | Some (cursor, ids) =>
          if bool_decide (cursor = ORIGIN) || bool_decide (ids = []) then mret (claimed ++ ids)
          else reclaim_from stream group consumer min_idle count cursor batches (claimed ++ ids)
      end
  end.

Definition reclaim (stream group consumer : text) (min_idle : Z) : eff W exn (list text) :=
  reclaim_from stream group consumer min_idle 100 ORIGIN 100 [].

(** [_to_messages]: an entry without fields was dropped by its stream. *)
Definition to_message (e : text * text * fields) : StreamMessage :=
  mk_StreamMessage e.1.1 e.1.2 (alist_get CE_FIELD e.2) 1 (bool_decide (e.2 = [])).

Definition to_messages (r : reply) : list StreamMessage := to_message <$> flatten r.

Definition ids_of (s : text) (ms : list StreamMessage) : list text :=
  msg_entry_id <$> List.filter (λ m, bool_decide (msg_stream m = s)) ms.

(** [_delivery_counts]: one [XPENDING] range per stream, from its first to its last. *)
Fixpoint delivery_counts_of (ms : list StreamMessage) (group consumer : text) (ss : list text)
    : eff W redis_error (list (text * text * Z)) :=
  match ss with
  | [] => mret []
  | s :: ss =>
      let ids := ids_of s ms in
      rows ← xpending_range s group (default [] (head ids)) (default [] (last ids))
               (Z.of_nat (length ids)) consumer;
      more ← delivery_counts_of ms group consumer ss;
      mret (((λ row, (s, row.1, row.2)) <$> rows) ++ more)
  end.

Definition delivery_counts (ms : list StreamMessage) (group consumer : text)
    : eff W redis_error (list (text * text * Z)) :=
  delivery_counts_of ms group consumer (dict_fromkeys (msg_stream <$> ms)).

Definition with_count (counts : list (text * text * Z)) (m : StreamMessage) : StreamMessage :=
  mk_StreamMessage (msg_stream m) (msg_entry_id m) (msg_raw m)
    (default 1 (alist_get (msg_stream m, msg_entry_id m) counts)) (msg_trimmed m).

(** [read]: one's own pending entries first, then new ones. *)
Definition read (streams : list text) (group consumer : text) (count block_ms : Z)
    : eff W exn (list StreamMessage) :=
  translating never
    (r ← xreadgroup group consumer OwnPending streams count;
     let recovered := to_messages r in
     recovered ← (if bool_decide (recovered = []) then mret recovered
                  else counts ← delivery_counts recovered group consumer;
                       mret (with_count counts <$> recovered));
     fresh ← xreadgroup group consumer (NewEntries block_ms) streams count;
     mret (recovered ++ to_messages fresh)).

Definition ack (stream group entry_id : text) : eff W exn unit :=
  translating never (xack stream group entry_id).

Definition dlq_of (stream : text) : text := stream ++ txt ".dlq".

(** [dead_letter]: the entry's bytes and the bookkeeping go to [<stream>.dlq] and the
    entry is acked, in one [MULTI]. *)
Definition dead_letter (stream group entry_id : text) (raw : option bytes) (reason : text)
    (delivery_count : Z) : eff W exn unit :=
  reason ← eff_lift (utf8 reason);
  source ← eff_lift (utf8 stream);
  id ← eff_lift (utf8 entry_id);
  grp ← eff_lift (utf8 group);
  let fs := [(txt "reason", reason); (txt "source_stream", source);
             (txt "source_entry_id", id); (txt "consumer_group", grp);
             (txt "deliveries", int_repr delivery_count)] ++
            match raw with Some ce => [(CE_FIELD, ce)] | None => [] end in
  translating never (xadd_xack (dlq_of stream) fs stream group entry_id).
End Adapter.

(** ** What a successful call did *)

Section Facts.
Context {W : Type} `{StreamServerLaws W}.
Implicit Types (l : list Pending) (w : W).

Lemma acts_Ok {A} (m : eff W redis_error A) spec w a w' :
  acts m spec → m w = (Ok a, w') → spec (view w) a (view w').
Proof. intros Hm Hw. specialize (Hm w). by rewrite Hw in Hm. Qed.

Lemma translating_Ok {A} (m : eff W redis_error A) w a w' :
  translating never m w = (Ok a, w') → m w = (Ok a, w').
Proof. unfold translating. destruct (m w) as [[x|[]] w1]; naive_solver. Qed.

Lemma bump_ids ids l : pe_id <$> bump ids l = pe_id <$> l.
Proof. unfold bump. rewrite <- list_fmap_compose. apply list_fmap_ext. intros i p _. cbn. by case_bool_decide. Qed.

Lemma owned_bump c ids l : owned c (bump ids l) = bump ids (owned c l).
Proof.
  unfold owned, bump. induction l as [|p l IH]; [done|]. cbn.
  assert (pe_owner (if bool_decide (pe_id p ∈ ids) then mk_Pending (pe_id p) (pe_owner p) (pe_count p + 1) else p)
    = pe_owner p) as -> by (by case_bool_decide).
  case_bool_decide; cbn; by rewrite IH.
Qed.

Lemma elem_of_owned c l p : p ∈ owned c l ↔ p ∈ l ∧ pe_owner p = c.
Proof. unfold owned. by rewrite elem_of_list_filter_bool, bool_decide_eq_true. Qed.

Lemma StronglySorted_sublist {A} (R : A → A → Prop) (l k : list A) :
  k `sublist_of` l → StronglySorted R l → StronglySorted R k.
Proof.
  induction 1 as [|x k l Hsub IH|x k l Hsub IH]; [done|..]; intros Hs;
    apply StronglySorted_inv in Hs as [Hs Hx]; [|by apply IH].
  constructor; [by apply IH|]. rewrite Forall_forall in *. intros y Hy.
  apply Hx. by eapply elem_of_sublist.
Qed.

Lemma filter_sublist_bool {A} (p : A → bool) (k : list A) : List.filter p k `sublist_of` k.
Proof. induction k as [|x k IH]; cbn; [constructor|]. case_match; by constructor. Qed.

Lemma filter_all {A} (p : A → bool) (k : list A) : Forall (λ x, p x = true) k → List.filter p k = k.
Proof. induction 1 as [|x k Hx Hk IH]; cbn; [done|]. by rewrite Hx, IH. Qed.

Lemma filter_none {A} (p : A → bool) (k : list A) : Forall (λ x, p x = false) k → List.filter p k = [].
Proof. by intros ?%filter_nil_iff. Qed.

(** The entries of a sorted list between the first and the last of a prefix are the
    prefix. *)
Definition id_sorted (l : list Pending) : Prop :=
  StronglySorted (λ x y, id_leb x y = true ∧ x ≠ y) (pe_id <$> l).

Lemma range_of_prefix P Q :
  P ≠ [] → id_sorted (P ++ Q) →
  List.filter (λ p, id_leb (default [] (head (pe_id <$> P))) (pe_id p) &&
                    id_leb (pe_id p) (default [] (last (pe_id <$> P)))) (P ++ Q) = P.
Proof.
  intros Hne. unfold id_sorted. rewrite fmap_app. intros Hs.
  apply StronglySorted_app in Hs as (Hcross & HP & _).
  rewrite List.filter_app, filter_all, filter_none, app_nil_r; [done|..].
  - apply Forall_forall. intros q Hq. apply andb_false_intro2.
    destruct (last (pe_id <$> P)) as [z|] eqn:Hz.
    + cbn. destruct (Hcross z (pe_id q)) as [Hle Hneq].
      * by apply last_Some_elem_of.
      * by apply list_elem_of_fmap_2.
      * apply not_true_iff_false. intros Hge. by apply Hneq, id_leb_antisym.
    + apply last_None in Hz. by apply fmap_nil_inv in Hz.
  - apply Forall_forall. intros p Hp. apply andb_true_intro. split.
    + destruct P as [|p0 P]; [done|]. cbn in *. apply StronglySorted_inv in HP as [_ Hall].
      apply elem_of_cons in Hp as [->|Hp]; [apply id_leb_refl|].
      rewrite Forall_forall in Hall. by apply Hall, list_elem_of_fmap_2.
    + destruct (last (pe_id <$> P)) as [z|] eqn:Hz;
        [|apply last_None in Hz; by apply fmap_nil_inv in Hz].
      apply last_Some in Hz as [ids Hids]. cbn. rewrite Hids in HP.
      apply StronglySorted_app in HP as (Hc & _ & _).
      apply (list_elem_of_fmap_2 pe_id) in Hp. rewrite Hids in Hp.
      apply elem_of_app in Hp as [Hp|Hp%list_elem_of_singleton]; [|rewrite Hp; apply id_leb_refl].
      apply Hc; [done|by apply list_elem_of_singleton].
Qed.

Lemma silent_refl {A} (a : A) b : silent b a b.
Proof. by split; [intros ? ?|]. Qed.

Lemma silent_pend b b' s g {A} (a : A) :
  silent b a b' → pend b' s g = pend b s g ∧ unread b' s g = unread b s g.
Proof. intros (He & _). apply He. by intros []. Qed.

Lemma silent_trans {A B C} (a : A) (a' : B) (a'' : C) b b1 b2 :
  silent b a b1 → silent b1 a' b2 → silent b a'' b2.
Proof.
  intros (H1 & Ha1 & Hb1) (H2 & Ha2 & Hb2). split_and!; [|congruence|].
  - intros s g Hn. destruct (H1 s g Hn), (H2 s g Hn). split; congruence.
  - intros s i. by rewrite Hb2, Hb1.
Qed.

Lemma owned_sorted w c s g : id_sorted (owned c (pend (view w) s g)).
Proof.
  unfold id_sorted. eapply StronglySorted_sublist; [|apply pending_sorted].
  apply fmap_sublist, filter_sublist_bool.
Qed.

Lemma sorted_NoDup l : id_sorted l → NoDup (pe_id <$> l).
Proof.
  unfold id_sorted. induction (pe_id <$> l) as [|x ids IH]; intros Hs; [constructor|].
  apply StronglySorted_inv in Hs as [Hs Hx]. constructor; [|by apply IH].
  rewrite Forall_forall in Hx. intros Hin. by apply (Hx x Hin).
Qed.

Lemma pending_NoDup w s g : NoDup (pe_id <$> pend (view w) s g).
Proof. apply sorted_NoDup, pending_sorted. Qed.

Lemma delivery_counts_Ok ms g c ks w rows w' :
  (∀ s, s ∈ ks → ∃ k, ids_of s ms = pe_id <$> take k (owned c (pend (view w) s g)) ∧ ids_of s ms ≠ []) →
  delivery_counts_of ms g c ks w = (Ok rows, w') →
  silent (view w) tt (view w') ∧
  rows = s ← ks; (λ p, (s, pe_id p, pe_count p)) <$>
    take (length (ids_of s ms)) (owned c (pend (view w) s g)).
Proof.
  revert w rows; induction ks as [|s ks IH]; intros w rows Hks; cbn [delivery_counts_of].
  { intros [= <- <-]. split; [apply silent_refl|done]. }
  intros (r1 & w1 & Hr1 & Hm)%eff_bind_Ok. apply eff_bind_Ok in Hm as (more & w2 & Hmore & Hret).
  injection Hret as <- ->.
  apply (acts_Ok _ _ _ _ _ (xpending_range_acts _ _ _ _ _ _)) in Hr1 as [Hsil ->].
  apply IH in Hmore as [Hsil' ->].
  - split; [by eapply silent_trans|]. rewrite bind_cons. f_equal.
    + rewrite <- list_fmap_compose. f_equal.
      destruct (Hks s) as (k & Hids & Hne); [left|]. rewrite Hids in *.
      rewrite length_fmap, Nat2Z.id.
      pose proof (range_of_prefix (take k (owned c (pend (view w) s g)))
                    (drop k (owned c (pend (view w) s g)))) as Hrange.
      rewrite take_drop in Hrange. rewrite Hrange; [| |apply owned_sorted];
        [by rewrite take_take, Nat.min_l by (rewrite length_take; lia)|].
      by intros Hnil; rewrite Hnil in Hne.
    + apply list_bind_ext; [|done]. intros s'. by rewrite (proj1 (silent_pend _ _ s' g _ Hsil)).
  - intros s' Hs'. rewrite (proj1 (silent_pend _ _ s' g _ Hsil)). apply Hks. by right.
Qed.

Lemma fmap_of_bind {A B C} (f : B → C) (h : A → list B) (l : list A) :
  f <$> (l ≫= h) = l ≫= λ x, f <$> h x.
Proof. induction l as [|x l IH]; [done|]. by rewrite !bind_cons, fmap_app, IH. Qed.

Lemma elem_of_spread {A} ss (f : text → list A) s x :
  (s, x) ∈ spread ss f ↔ s ∈ ss ∧ x ∈ f s.
Proof.
  unfold spread. rewrite list_elem_of_bind. split.
  - intros (s' & (x' & [= -> ->] & Hx)%list_elem_of_fmap & Hs). done.
  - intros [Hs Hx]. exists s. split; [|done]. by apply list_elem_of_fmap_2.
Qed.

Lemma NoDup_spread {A} ss (f : text → list A) :
  NoDup ss → (∀ s, s ∈ ss → NoDup (f s)) → NoDup (spread ss f).
Proof.
  intros Hss Hf. apply NoDup_bind; [| |done].
  - intros s1 s2 y _ _ (x1 & -> & _)%list_elem_of_fmap (x2 & [= ->] & _)%list_elem_of_fmap. done.
  - intros s Hs. apply NoDup_fmap_2; [|by apply Hf]. by intros ? ? [= ->].
Qed.

Lemma spread_at {A} ss (f : text → list A) s :
  NoDup ss → s ∈ ss → snd <$> List.filter (λ k, bool_decide (k.1 = s)) (spread ss f) = f s.
Proof.
  assert (∀ s', List.filter (λ k, bool_decide (k.1 = s)) ((λ x, (s', x)) <$> f s')
    = if bool_decide (s' = s) then (λ x, (s', x)) <$> f s' else []) as Hone.
  { intros s'. case_bool_decide as Heq; [apply filter_all|apply filter_none];
      apply Forall_fmap, Forall_true; intros x; cbn; [by apply bool_decide_eq_true|].
    by apply bool_decide_eq_false. }
  induction ss as [|s' ss IH]; intros Hnd Hs; [by apply elem_of_nil in Hs|].
  apply NoDup_cons in Hnd as [Hs' Hnd]. unfold spread. rewrite bind_cons, List.filter_app, Hone.
  fold (spread ss f). rewrite fmap_app. apply elem_of_cons in Hs as [->|Hs].
  - rewrite bool_decide_true by done. rewrite <- list_fmap_compose, list_fmap_id.
    assert (List.filter (λ k, bool_decide (k.1 = s')) (spread ss f) = []) as ->.
    { apply filter_none, Forall_forall. intros [t x] [Ht _]%elem_of_spread.
      apply bool_decide_eq_false. cbn. by intros ->. }
    by rewrite app_nil_r.
  - rewrite bool_decide_false by (by intros ->). by apply IH.
Qed.

(** The state right after a read of [ss] for [c] in [g], [b] being the state before. *)
Record read_post (ss : list text) (g c : text) (n : Z) (b : Broker)
    (ms : list StreamMessage) (b' : Broker) : Prop := {
  rp_keys : (λ m, (msg_stream m, msg_entry_id m)) <$> ms =
    spread ss (λ s, reread c n (pend b s g)) ++ spread ss (λ s, take (Z.to_nat n) (unread b s g));
  rp_counts : ∀ m, m ∈ ms →
    mk_Pending (msg_entry_id m) c (msg_delivery_count m) ∈ pend b' (msg_stream m) g;
  rp_groups : ∀ s, s ∈ ss →
    pend b' s g = bump (reread c n (pend b s g)) (pend b s g) ++
      ((λ id, mk_Pending id c 1) <$> take (Z.to_nat n) (unread b s g)) ∧
    unread b' s g = drop (Z.to_nat n) (unread b s g);
  rp_elsewhere : elsewhere (λ s g', s ∈ ss ∧ g' = g) b b';
  rp_added : added b' = added b
}.

Lemma to_messages_keys (r : reply) (b : Broker) ks :
  flatten r = (λ k, (k, body b k.1 k.2)) <$> ks →
  (λ m, (msg_stream m, msg_entry_id m)) <$> to_messages r = ks.
Proof.
  intros Hr. unfold to_messages. rewrite Hr, <- !list_fmap_compose.
  rewrite <- (list_fmap_id ks) at 2. apply list_fmap_ext. by intros ? [].
Qed.

Lemma ids_of_keys ms ss f s :
  (λ m, (msg_stream m, msg_entry_id m)) <$> ms = spread ss f → NoDup ss → s ∈ ss →
  ids_of s ms = f s.
Proof.
  intros Hks Hnd Hs. rewrite <- (spread_at ss f s Hnd Hs), <- Hks. unfold ids_of.
  clear Hks. induction ms as [|m ms IH]; [done|]. cbn. case_bool_decide; cbn; by rewrite IH.
Qed.

Lemma reread_bump c n l : reread c n (bump (reread c n l) l) = reread c n l.
Proof.
  unfold reread at 1. rewrite owned_bump. unfold bump.
  rewrite <- fmap_take, <- list_fmap_compose. unfold reread.
  apply list_fmap_ext. intros i p _. cbn. by case_bool_decide.
Qed.

Lemma elem_of_bump ids l p :
  p ∈ bump ids l ↔ ∃ q, q ∈ l ∧ pe_id p = pe_id q ∧ pe_owner p = pe_owner q ∧
    pe_count p = pe_count q + if bool_decide (pe_id q ∈ ids) then 1 else 0.
Proof.
  unfold bump. rewrite list_elem_of_fmap. split.
  - intros (q & -> & Hq). exists q. split; [done|]. case_bool_decide; cbn; by rewrite ?Z.add_0_r.
  - intros (q & Hq & Hi & Ho & Hc). exists q. split; [|done]. destruct p; cbn in *.
    case_bool_decide; rewrite ?Z.add_0_r in Hc; subst; [done|by destruct q].
Qed.

(** What [read]'s counters say of the entries it re-read. *)
Lemma recovered_counts w1 ss g c n ms rows w2 :
  NoDup ss →
  (λ m, (msg_stream m, msg_entry_id m)) <$> ms =
    spread ss (λ s, reread c n (pend (view w1) s g)) →
  delivery_counts ms g c w1 = (Ok rows, w2) →
  silent (view w1) tt (view w2) ∧
  ∀ m, m ∈ ms → ∃ p, p ∈ owned c (pend (view w1) (msg_stream m) g) ∧
    pe_id p = msg_entry_id m ∧ msg_delivery_count (with_count rows m) = pe_count p.
Proof.
  intros Hnd Hks Hrun.
  assert (∀ s, s ∈ msg_stream <$> ms → s ∈ ss) as Hss.
  { intros s Hs. assert (s ∈ (spread ss (λ s, reread c n (pend (view w1) s g))).*1) as Hin.
    { rewrite <- Hks, <- list_fmap_compose. done. }
    apply list_elem_of_fmap in Hin as ([s' x] & -> & [? _]%elem_of_spread). done. }
  unfold delivery_counts in Hrun. apply delivery_counts_Ok in Hrun as [Hsil Hrows].
  2:{ intros s Hs. rewrite elem_of_dict_fromkeys in Hs. exists (Z.to_nat n).
      split; [rewrite (ids_of_keys _ _ _ _ Hks Hnd (Hss _ Hs)); done|].
      apply list_elem_of_fmap in Hs as (m & -> & Hm). unfold ids_of. intros Hnil.
      apply fmap_nil_inv in Hnil. rewrite filter_nil_iff, Forall_forall in Hnil.
      apply Hnil, bool_decide_eq_false in Hm. done. }
  split; [done|]. intros m Hm.
  assert (msg_stream m ∈ ss) as Hms by (apply Hss; by apply list_elem_of_fmap_2).
  assert ((msg_stream m, msg_entry_id m) ∈ spread ss (λ s, reread c n (pend (view w1) s g))) as Hin.
  { rewrite <- Hks. by apply (list_elem_of_fmap_2 (λ m, (msg_stream m, msg_entry_id m))). }
  apply elem_of_spread in Hin as [_ Hin]. unfold reread in Hin.
  apply list_elem_of_fmap in Hin as (p & Hid & Hp).
  exists p. split; [by eapply elem_of_sublist, sublist_take|]. split; [done|].
  cbn. erewrite (alist_get_NoDup _ (pe_count p)); [done| |].
  - rewrite Hrows, fmap_of_bind.
    apply NoDup_bind; [| |apply NoDup_dict_fromkeys].
    + intros s1 s2 [y1 y2] _ _ H1 H2. cbn in H1, H2. rewrite <- list_fmap_compose in H1, H2.
      apply list_elem_of_fmap in H1 as (? & [= -> _] & _).
      apply list_elem_of_fmap in H2 as (? & [= -> _] & _). done.
    + intros s _. cbn. rewrite <- list_fmap_compose. unfold compose. cbn.
      rewrite (list_fmap_compose pe_id (λ i, (s, i))). apply NoDup_fmap_2; [by intros ? ? [= ->]|].
      eapply sublist_NoDup; [apply sorted_NoDup, owned_sorted|]. apply fmap_sublist, sublist_take.
  - rewrite Hrows. apply list_elem_of_bind. exists (msg_stream m). split.
    + apply list_elem_of_fmap. exists p. rewrite <- Hid. split; [done|].
      rewrite (ids_of_keys _ _ _ _ Hks Hnd Hms). unfold reread. rewrite length_fmap, length_take.
      destruct (Nat.le_ge_cases (Z.to_nat n) (length (owned c (pend (view w1) (msg_stream m) g)))).
      * by rewrite Nat.min_l.
      * rewrite Nat.min_r by done. rewrite take_ge in Hp by done. by rewrite firstn_all.
    + apply elem_of_dict_fromkeys. by apply list_elem_of_fmap_2.
Qed.

Lemma read_Ok ss g c n ms w msgs w' :
  NoDup ss → read ss g c n ms w = (Ok msgs, w') →
  read_post ss g c n (view w) msgs (view w').
Proof.
  intros Hnd Hread. apply translating_Ok in Hread.
  apply eff_bind_Ok in Hread as (r & w1 & Hr & Hread). cbn zeta in Hread.
  apply eff_bind_Ok in Hread as (rec & w2 & Hrec & Hread).
  apply eff_bind_Ok in Hread as (fr & w3 & Hfr & Hret). injection Hret as <- <-.
  apply (acts_Ok _ _ _ _ _ (xreadgroup_own_acts _ _ _ _ Hnd)) in Hr as (Hflat & Hel & Had & Hgrp).
  apply (acts_Ok _ _ _ _ _ (xreadgroup_new_acts _ _ _ _ _ Hnd)) in Hfr as (Hflat' & Hel' & Had' & Hgrp').
  pose proof (to_messages_keys _ _ _ Hflat) as Hks.
  pose proof (to_messages_keys _ _ _ Hflat') as Hks'.
  assert (silent (view w1) tt (view w2) ∧
    (λ m, (msg_stream m, msg_entry_id m)) <$> rec = spread ss (λ s, reread c n (pend (view w) s g)) ∧
    ∀ m, m ∈ rec → mk_Pending (msg_entry_id m) c (msg_delivery_count m)
      ∈ pend (view w1) (msg_stream m) g) as (Hsil & Hkrec & Hcnt).
  { case_bool_decide as Hnil.
    - injection Hrec as <- <-. split; [apply silent_refl|]. split; [done|].
      rewrite Hnil. by intros m ?%elem_of_nil.
    - apply eff_bind_Ok in Hrec as (rows & w4 & Hrows & Hret). injection Hret as <- ->.
      assert (∀ s, s ∈ ss → reread c n (pend (view w1) s g) = reread c n (pend (view w) s g)) as Hre
        by (intros s Hs; rewrite (proj1 (Hgrp s Hs)); apply reread_bump).
      assert (spread ss (λ s, reread c n (pend (view w1) s g))
              = spread ss (λ s, reread c n (pend (view w) s g))) as Hsp.
      { unfold spread. clear -Hre. induction ss as [|s ss IH]; [done|].
        rewrite !bind_cons, Hre by left. f_equal. apply IH. intros; apply Hre; by right. }
      apply (recovered_counts _ ss _ _ n) in Hrows as [Hsil Hcnt]; [|done|by rewrite Hsp].
      split; [done|]. split; [by rewrite <- list_fmap_compose|].
      intros m (m0 & -> & Hm0)%list_elem_of_fmap. destruct (Hcnt m0 Hm0) as (p & Hp & Hid & Hc).
      apply elem_of_owned in Hp as [Hp Ho]. cbn [with_count msg_stream msg_entry_id] in *.
      rewrite Hc, <- Hid, <- Ho. by destruct p. }
  assert (∀ s, s ∈ ss → pend (view w2) s g = pend (view w1) s g ∧ unread (view w2) s g = unread (view w) s g) as H12.
  { intros s Hs. destruct (silent_pend _ _ s g _ Hsil) as [-> ->]. by rewrite (proj2 (Hgrp s Hs)). }
  assert (spread ss (λ s, take (Z.to_nat n) (unread (view w2) s g))
          = spread ss (λ s, take (Z.to_nat n) (unread (view w) s g))) as Hsp.
  { unfold spread. clear -H12. induction ss as [|s ss IH]; [done|].
    rewrite !bind_cons, (proj2 (H12 s ltac:(left))). f_equal. apply IH. intros; apply H12; by right. }
  rewrite Hsp in Hks'.
  split.
  - rewrite fmap_app, Hkrec. f_equal. exact Hks'.
  - intros m [Hm|Hm]%elem_of_app.
    + apply Hcnt in Hm as Hp.
      assert ((msg_stream m, msg_entry_id m) ∈ spread ss (λ s, reread c n (pend (view w) s g)))
        as [Hs _]%elem_of_spread
        by (rewrite <- Hkrec; by apply (list_elem_of_fmap_2 (λ m, (msg_stream m, msg_entry_id m)))).
      rewrite (proj1 (Hgrp' _ Hs)), (proj1 (H12 _ Hs)). apply elem_of_app. by left.
    + assert ((msg_stream m, msg_entry_id m) ∈ spread ss (λ s, take (Z.to_nat n) (unread (view w) s g)))
        as [Hs Hid]%elem_of_spread
        by (rewrite <- Hks'; by apply (list_elem_of_fmap_2 (λ m, (msg_stream m, msg_entry_id m)))).
      rewrite (proj1 (Hgrp' _ Hs)), (proj2 (H12 _ Hs)). apply elem_of_app. right.
      apply list_elem_of_fmap. exists (msg_entry_id m). split; [|done].
      apply list_elem_of_fmap in Hm as (e & -> & _). done.
  - intros s Hs. rewrite (proj1 (Hgrp' s Hs)), (proj2 (Hgrp' s Hs)), (proj1 (H12 s Hs)), (proj2 (H12 s Hs)).
    by rewrite (proj1 (Hgrp s Hs)).
  - intros s g' Hn. destruct (Hel s g' Hn), (Hel' s g' Hn), (silent_pend _ _ s g' _ Hsil).
    split; congruence.
  - destruct Hsil as (_ & Had1 & _). congruence.
Qed.

Lemma ack_Ok s g id w u w' : ack s g id w = (Ok u, w') → acks s g id (view w) tt (view w').
Proof.
  intros Ha%translating_Ok. by apply (acts_Ok _ _ _ _ _ (xack_acts _ _ _)) in Ha.
Qed.

(** What lies on the dead-letter stream for an entry. *)
Definition dead_letter_for (s g id : text) (raw : option bytes) (fs : fields) : Prop :=
  alist_get CE_FIELD fs = raw ∧ Ok <$> alist_get (txt "source_entry_id") fs = Some (utf8 id) ∧
  Ok <$> alist_get (txt "source_stream") fs = Some (utf8 s) ∧
  Ok <$> alist_get (txt "consumer_group") fs = Some (utf8 g).

Lemma dead_letter_Ok s g id raw reason n w u w' :
  dead_letter s g id raw reason n w = (Ok u, w') →
  ∃ fs, dead_letter_for s g id raw fs ∧ moves (dlq_of s) fs s g id (view w) tt (view w').
Proof.
  unfold dead_letter. intros Hrun.
  apply eff_bind_Ok in Hrun as (x1 & w1 & [H1 ->]%eff_lift_Ok & Hrun).
  apply eff_bind_Ok in Hrun as (x2 & w2 & [H2 ->]%eff_lift_Ok & Hrun).
  apply eff_bind_Ok in Hrun as (x3 & w3 & [H3 ->]%eff_lift_Ok & Hrun).
  apply eff_bind_Ok in Hrun as (x4 & w4 & [H4 ->]%eff_lift_Ok & Hrun).
  cbn zeta in Hrun. apply translating_Ok in Hrun.
  apply (acts_Ok _ _ _ _ _ (xadd_xack_acts _ _ _ _ _)) in Hrun.
  eexists. split; [|exact Hrun]. unfold dead_letter_for. rewrite H2, H3, H4.
  destruct raw; vm_compute; done.
Qed.
End Facts.
