(* ===== verification/Retention.v ===== *)
(** * Retention: trimming a stream below its slowest reader

    [infrastructure/messaging/stream_retention.py], and the dead-letter watch of
    [consumers/dlq_watch.py].  As in [Streams] the server is a parameter: a type class
    of the commands the trimmer sends, and laws that say what each does while the other
    clients go on adding, reading and acknowledging. *)

From S2P Require Import Prelude Text Calendar Errors Framework Files Events Wire Cursor Binary64 Streams.

Open Scope Z_scope.

(** ** Stream ids *)

Abbreviation StreamId := (Z * Z)%type.

(** The comparison of Python's pairs. *)
Definition id_ltb (a b : StreamId) : bool := (a.1 <? b.1) || ((a.1 =? b.1) && (a.2 <? b.2)).
Definition id_lt (a b : StreamId) : Prop := id_ltb a b = true.
Definition id_min (a b : StreamId) : StreamId := if id_ltb b a then b else a.

(** A value of a reply. *)
Inductive raw : Type := RBytes (b : bytes) | RText (t : text) | ROther.

(** [raw.decode() if isinstance(raw, bytes) else raw] *)
Definition raw_text (r : raw) : result exn (option text) :=
  match r with
  | RBytes b => match utf8_strict b with Some t => Ok (Some t) | None => Err (Other "UnicodeDecodeError") end
  | RText t => Ok (Some t)
  | ROther => Ok None
  end.

Definition parse_stream_id `{Decimals} (r : raw) : result exn (option StreamId) :=
  t ← raw_text r;
  Ok (t ← t;
      let '(ms, _, seq) := partition 45 t in
      ms ← py_int ms;
      seq ← (if bool_decide (seq = []) then Some 0 else py_int seq);
      Some (ms, seq)).

Definition format_stream_id (id : StreamId) : text := int_repr id.1 ++ [45] ++ int_repr id.2.

(** ** The snapshot *)

Definition NOTIFY_GROUP_FAMILY : text := txt "cg.notify".

Record GroupPosition := mk_GroupPosition {
  gp_name : text;
  gp_consumers : Z;
  gp_pending : Z;
  last_delivered_id : StreamId;
  oldest_pending_id : option StreamId;
  entries_read : option Z;
  gp_lag : option Z;
  oldest_undelivered_id : option StreamId
}.

Definition family (g : GroupPosition) : text :=
  if starts_with (NOTIFY_GROUP_FAMILY ++ txt ".") (gp_name g) then NOTIFY_GROUP_FAMILY else gp_name g.

Definition needs_from (g : GroupPosition) : StreamId :=
  match oldest_pending_id g with
  | None => last_delivered_id g
  | Some p => id_min p (last_delivered_id g)
  end.

Definition oldest_unconsumed_id (g : GroupPosition) : option StreamId :=
  match oldest_pending_id g, oldest_undelivered_id g with
  | Some p, Some u => Some (id_min p u)
  | Some p, None => Some p
  | None, u => u
  end.

Definition unread_trimmed (g : GroupPosition) (entries_added : Z) : option Z :=
  match entries_read g, gp_lag g with
  | Some r, Some l => Some (Z.max 0 (entries_added - r - l))
  | _, _ => None
  end.

Record StreamSnapshot := mk_StreamSnapshot {
  ss_stream : text;
  ss_length : Z;
  entries_added : Z;
  last_generated_id : StreamId;
  first_entry_id : option StreamId;
  ss_groups : list GroupPosition;
  now_ms : Z
}.

(** [max(0.0, x)] *)
Definition fmax0 (x : f64) : f64 := if flt fzero x then x else fzero.

Definition age_s (s : StreamSnapshot) (entry_id : option StreamId) : f64 :=
  match entry_id with
  | None => fzero
  | Some id => fmax0 (fdiv (of_Z (now_ms s - id.1)) (of_Z 1000))
  end.

(** The replies of [TIME], [XINFO STREAM] and [XINFO GROUPS]. *)
Record StreamInfo := mk_StreamInfo {
  si_length : Z; si_entries_added : Z; si_last_generated : raw; si_first_entry : option raw
}.
Record GroupRow := mk_GroupRow {
  gr_name : text; gr_consumers : Z; gr_pending : Z; gr_last_delivered : raw;
  gr_entries_read : option Z; gr_lag : option Z
}.

(** The commands: the [MULTI] of the three, [XPENDING], [XRANGE] from after an id with
    [COUNT 1], and [XTRIM MINID ~]. *)
Class TrimServer (W : Type) := {
  snapshot_multi : text → eff W redis_error ((Z * Z) * StreamInfo * list GroupRow);
  xpending_min : text → text → eff W redis_error raw;
  xrange_after : text → text → eff W redis_error (option raw);
  xtrim_minid : text → text → eff W redis_error Z
}.

(** A driver exception that nothing translates. *)
Definition driver_exn (e : redis_error) : exn :=
  match e with
  | ResponseError _ => Other "ResponseError"
  | RedisError => Other "RedisError"
  | OSError => Other "OSError"
  end.

(** [parse_stream_id(...) or (0, 0)] *)
Definition or_origin (id : option StreamId) : StreamId := default (0, 0) id.

Section Trimmer.
Context {W : Type} `{TrimServer W, Decimals}.

Definition driver {A} (m : eff W redis_error A) : eff W exn A :=
  λ w, let '(r, w') := m w in (map_err driver_exn r, w').

Definition group_position (stream : text) (with_undelivered : bool) (row : GroupRow)
    : eff W exn GroupPosition :=
  cursor ← eff_lift (parse_stream_id (gr_last_delivered row));
  let cursor := or_origin cursor in
  oldest_pending ← (if 0 <? gr_pending row then
                      least ← driver (xpending_min stream (gr_name row));
                      eff_lift (parse_stream_id least)
                    else eff_ret _ None);
  oldest_undelivered ← (if with_undelivered && negb (bool_decide (gr_lag row = Some 0)) then
                          row ← driver (xrange_after stream (format_stream_id cursor));
                          eff_lift (match row with Some id => parse_stream_id id | None => Ok None end)
                        else eff_ret _ None);
  eff_ret _ (mk_GroupPosition (gr_name row) (gr_consumers row) (gr_pending row) cursor oldest_pending
               (gr_entries_read row) (gr_lag row) oldest_undelivered).

Fixpoint group_positions (stream : text) (with_undelivered : bool) (rows : list GroupRow)
    : eff W exn (list GroupPosition) :=
  match rows with
  | [] => eff_ret _ []
  | row :: rows =>
      g ← group_position stream with_undelivered row;
      gs ← group_positions stream with_undelivered rows;
      eff_ret _ (g :: gs)
  end.

(** The transaction; a stream that does not exist is no failure. *)
Definition snapshot_reply (stream : text)
    : eff W exn (option ((Z * Z) * StreamInfo * list GroupRow)) :=
  λ w, match snapshot_multi stream w with
       | (Ok r, w') => (Ok (Some r), w')
       | (Err (ResponseError t), w') =>
           (if no_such_key t then Ok None else Err (driver_exn (ResponseError t)), w')
       | (Err e, w') => (Err (driver_exn e), w')
       end.

Definition read_stream_snapshot (stream : text) (with_undelivered : bool)
    : eff W exn (option StreamSnapshot) :=
  reply ← snapshot_reply stream;
  match reply with
  | None => eff_ret _ None
  | Some (server_time, info, rows) =>
      last_generated ← eff_lift (parse_stream_id (si_last_generated info));
      first_entry ← eff_lift (match si_first_entry info with
                              | Some id => parse_stream_id id
                              | None => Ok None
                              end);
      groups ← group_positions stream with_undelivered rows;
      eff_ret _ (Some (mk_StreamSnapshot stream (si_length info) (si_entries_added info)
                         (or_origin last_generated) first_entry groups
                         (server_time.1 * 1000 + server_time.2 / 1000)))
  end.

(** ** The rule *)

Record TrimDecision := mk_TrimDecision {
  td_stream : text; minid : option text; holder : option text; boundary : StreamId
}.

(** The loop over the groups. *)
Fixpoint slowest (boundary : StreamId) (holder : option text) (groups : list GroupPosition)
    : StreamId * option text :=
  match groups with
  | [] => (boundary, holder)
  | g :: groups =>
      if bool_decide (holder = None) || id_ltb (needs_from g) boundary
      then slowest (needs_from g) (Some (gp_name g)) groups
      else slowest boundary holder groups
  end.

Definition trim_decision (s : StreamSnapshot) (margin_ms : Z) : TrimDecision :=
  let head := last_generated_id s in
  let '(boundary, holder) := slowest head None (ss_groups s) in
  let boundary := id_min boundary head in
  let cut := (boundary.1 - margin_ms, 0) in
  mk_TrimDecision (ss_stream s)
    (match first_entry_id s with
     | Some first => if (0 <? cut.1) && id_ltb first cut then Some (format_stream_id cut) else None
     | None => None
     end) holder boundary.

(** ** The trimmer *)

Record TrimReport := mk_TrimReport {
  tr_stream : text; length_before : Z; trimmed : Z; tr_minid : option text; tr_holder : option text;
  boundary_age_s : f64
}.

Record TrimmerConfig := mk_TrimmerConfig { tc_streams : list text; tc_margin_ms : Z }.

(** [StreamTrimmer.__init__]: the streams once each, the margin in milliseconds. *)
Definition new_StreamTrimmer (streams : list text) (interval_s margin_s : f64) : result exn TrimmerConfig :=
  if negb (flt fzero interval_s) then Err (Other "ValueError")
  else margin ← truncate (fmul margin_s (of_Z 1000)); Ok (mk_TrimmerConfig (dict_fromkeys streams) margin).

Fixpoint trim_streams (margin_ms : Z) (streams : list text) : eff W exn (list TrimReport) :=
  match streams with
  | [] => eff_ret _ []
  | stream :: streams =>
      snapshot ← read_stream_snapshot stream false;
      match snapshot with
      | None => trim_streams margin_ms streams
      | Some s =>
          let d := trim_decision s margin_ms in
          n ← (match minid d with
               | Some t => driver (xtrim_minid stream t)
               | None => eff_ret _ 0
               end);
          let report := mk_TrimReport stream (ss_length s) n (minid d) (holder d)
                          (round1 (age_s s (Some (boundary d)))) in
          reports ← trim_streams margin_ms streams;
          eff_ret _ (report :: reports)
      end
  end.

Definition trim_once (c : TrimmerConfig) : eff W exn (list TrimReport) :=
  trim_streams (tc_margin_ms c) (tc_streams c).

(** The passes of [run_forever]: a failed one is logged and the next one tries again. *)
Fixpoint run_forever (c : TrimmerConfig) (passes : nat) (w : W) : W :=
  match passes with
  | O => w
  | S passes => run_forever c passes (trim_once c w).2
  end.
End Trimmer.

(** ** The dead-letter watch *)

Record DlqBacklog := mk_DlqBacklog {
  db_stream : text; depth : Z;
  oldest_entry_id : option text; oldest_age_s : option f64; oldest_reason : option text
}.

Definition is_empty (b : DlqBacklog) : bool := depth b =? 0.

Section Watch.
Context {W : Type} `{StreamServer W, Decimals}.
(** [time()] *)
Variable now : f64.

Definition entry_id_age_s (entry_id : text) : result exn f64 :=
  let '(ms, _, _) := partition 45 entry_id in
  match py_int ms with
  | Some ms => Ok (fmax0 (fsub now (fdiv (of_Z ms) (of_Z 1000))))
  | None => Err (Other "ValueError")
  end.

Definition dlq_backlog (stream : text) : eff W exn DlqBacklog :=
  n ← translating never (xlen (dlq_of stream));
  row ← translating never (xrange_first (dlq_of stream));
  match row with
  | None => eff_ret _ (mk_DlqBacklog stream 0 None None None)
  | Some (entry_id, fields) =>
      age ← eff_lift (entry_id_age_s entry_id);
      reason ← eff_lift (match alist_get (txt "reason") fields with
                         | Some b => match utf8_strict b with
                                     | Some t => Ok (Some t)
                                     | None => Err (Other "UnicodeDecodeError")
                                     end
                         | None => Ok None
                         end);
      eff_ret _ (mk_DlqBacklog stream n (Some entry_id) (Some age) reason)
  end.

Fixpoint backlogs (streams : list text) : eff W exn (list DlqBacklog) :=
  match streams with
  | [] => eff_ret _ []
  | stream :: streams =>
      b ← dlq_backlog stream;
      found ← backlogs streams;
      eff_ret _ (if is_empty b then found else b :: found)
  end.

Definition report_dlq_backlog (streams : list text) : eff W exn (list DlqBacklog) :=
  backlogs (dict_fromkeys streams).

(** Each stream is reported at most once, and only if its queue holds something. *)
Lemma backlogs_nonempty streams w l w' :
  backlogs streams w = (Ok l, w') →
  db_stream <$> l `sublist_of` streams ∧ Forall (λ b, depth b ≠ 0) l.
Proof.
  revert w l; induction streams as [|stream streams IH]; intros w l; cbn [backlogs].
  { intros [= <- _]. by split. }
  intros (b & w1 & Hb & (found & w2 & Hf & Hr)%eff_bind_Ok)%eff_bind_Ok.
  injection Hr as <- ->. destruct (IH _ _ Hf) as [Hsub Hall].
  assert (db_stream b = stream) as Hs.
  { unfold dlq_backlog in Hb. apply eff_bind_Ok in Hb as (n & wa & _ & (row & wb & _ & Hb)%eff_bind_Ok).
    destruct row as [[id fs]|]; [|by injection Hb as <- _].
    apply eff_bind_Ok in Hb as (a & wc & _ & (re & wd & _ & Hb)%eff_bind_Ok). by injection Hb as <- _. }
  unfold is_empty. destruct (Z.eqb_spec (depth b) 0) as [Hz|Hz]; [split; [by apply sublist_cons|done]|].
  split; [|by constructor]. rewrite fmap_cons, Hs. by apply sublist_skip.
Qed.
End Watch.

(** ** What the server does *)

(** A group: how far it was read to, and the entries delivered and not yet acknowledged. *)
Record RGroup := mk_RGroup { cursor : StreamId; pel : list StreamId }.
(** [overrun] remembers every entry the length cap of a publish has dropped. *)
Record RStream := mk_RStream {
  entries : list StreamId; last_id : StreamId; r_groups : gmap text RGroup; overrun : list StreamId
}.
Abbreviation Redis := (gmap text RStream).

(** [settings.stream_maxlen], the [MAXLEN ~] every publish carries. *)
Class Backstop := { stream_maxlen : option nat }.

Section Retention.
Context `{cap : Backstop}.

Definition with_group (g : text) (G : RGroup) (s : RStream) : RStream :=
  mk_RStream (entries s) (last_id s) (<[g := G]> (r_groups s)) (overrun s).

Definition is_id (id : StreamId) : Prop := 0 ≤ id.1 < 2 ^ 64 ∧ 0 ≤ id.2 < 2 ^ 64.

(** The cap drops the oldest entries, some or none of them, and keeps as many as it says. *)
Definition capped (k : nat) (l : list StreamId) : Prop :=
  k = 0%nat ∨ ∃ n, stream_maxlen = Some n ∧ (n + k ≤ length l)%nat.

(** Everything the platform's other clients do to a stream: publishing, under the backstop,
    creating a group at the end of the stream, reading, acknowledging (a claimed entry that
    is gone leaves the list the same way) and destroying a group. *)
Inductive rstep : Redis → Redis → Prop :=
  | RCreate m name :
      m !! name = None → rstep m (<[name := mk_RStream [] (0, 0) ∅ []]> m)
  | RAdd m name s e k :
      m !! name = Some s → is_id e → id_lt (last_id s) e → capped k (entries s ++ [e]) →
      rstep m (<[name := mk_RStream (drop k (entries s ++ [e])) e (r_groups s)
                           (overrun s ++ take k (entries s ++ [e]))]> m)
  | RGroupCreate m name s g :
      m !! name = Some s → r_groups s !! g = None →
      rstep m (<[name := with_group g (mk_RGroup (last_id s) []) s]> m)
  | RRead m name s g G n new :
      m !! name = Some s → r_groups s !! g = Some G →
      new = take n (List.filter (id_ltb (cursor G)) (entries s)) →
      rstep m (<[name := with_group g (mk_RGroup (default (cursor G) (last new)) (pel G ++ new)) s]> m)
  | RAck m name s g G id :
      m !! name = Some s → r_groups s !! g = Some G →
      rstep m (<[name := with_group g
                   (mk_RGroup (cursor G) (List.filter (λ p, negb (bool_decide (p = id))) (pel G))) s]> m)
  | RDestroy m name s g :
      m !! name = Some s →
      rstep m (<[name := mk_RStream (entries s) (last_id s) (delete g (r_groups s)) (overrun s)]> m).

(** A group still has to see an entry: it is pending, or beyond what it read. *)
Definition needs (G : RGroup) (e : StreamId) : Prop := e ∈ pel G ∨ id_lt (cursor G) e.
Definition needed (s : RStream) (e : StreamId) : Prop :=
  ∃ g G, r_groups s !! g = Some G ∧ needs G e.

(** What [XTRIM] may do: drop some of the entries below an id, any of them. *)
Definition trims (cut : StreamId) (s s' : RStream) : Prop :=
  r_groups s' = r_groups s ∧ last_id s' = last_id s ∧ overrun s' = overrun s ∧
  ∃ keep : StreamId → bool, entries s' = List.filter keep (entries s) ∧
    ∀ e, e ∈ entries s → keep e = false → id_lt e cut.

Definition names (id : StreamId) (r : raw) : Prop := r = RBytes (format_stream_id id).

(** The documented reply to each command, and its effect. *)
Definition snapshots (name : text) (m : Redis) (r : (Z * Z) * StreamInfo * list GroupRow) (m' : Redis) : Prop :=
  m' = m ∧ ∃ s, m !! name = Some s ∧
    names (last_id s) (si_last_generated r.1.2) ∧
    match si_first_entry r.1.2 with
    | Some f => ∃ e, head (entries s) = Some e ∧ names e f
    | None => entries s = []
    end ∧
    ∀ g G, r_groups s !! g = Some G → ∃ row, row ∈ r.2 ∧ gr_name row = g ∧
      names (cursor G) (gr_last_delivered row) ∧ gr_pending row = Z.of_nat (length (pel G)).

Definition least_pending (name g : text) (m : Redis) (r : raw) (m' : Redis) : Prop :=
  m' = m ∧ ∃ s G, m !! name = Some s ∧ r_groups s !! g = Some G ∧
    ∀ e, e ∈ pel G → ∃ p, p ∈ pel G ∧ names p r ∧ ¬ id_lt e p.

Definition drops_below `{Decimals} (name minid : text) (m : Redis) (n : Z) (m' : Redis) : Prop :=
  ∃ s s' cut, m !! name = Some s ∧ parse_stream_id (RText minid) = Ok (Some cut) ∧
    trims cut s s' ∧ m' = <[name := s']> m ∧ n = Z.of_nat (length (entries s)) - Z.of_nat (length (entries s')).

Definition looks {A : Type} (m : Redis) (_ : A) (m' : Redis) : Prop := m' = m.

(** A command runs after whatever the others have done meanwhile; one that reports an error
    may have run as well. *)
Definition runs {W A : Type} (view : W → Redis) (c : eff W redis_error A)
    (spec : Redis → A → Redis → Prop) : Prop :=
  ∀ w, ∃ m, rtc rstep (view w) m ∧
    match c w with
    | (Ok a, w') => spec m a (view w')
    | (Err _, w') => view w' = m ∨ ∃ a, spec m a (view w')
    end.

(** Ids are pairs of 64-bit numbers, and no entry is newer than the last one. *)
Definition valid_stream (s : RStream) : Prop :=
  is_id (last_id s) ∧ Forall (λ e, is_id e ∧ ¬ id_lt (last_id s) e) (entries s) ∧
  ∀ g G, r_groups s !! g = Some G → is_id (cursor G) ∧ Forall is_id (pel G).

Definition valid (m : Redis) : Prop := ∀ name s, m !! name = Some s → valid_stream s.

Class TrimServerLaws (W : Type) `{TrimServer W, Decimals} := {
  redis_of : W → Redis;
  ids_valid w : valid (redis_of w);
  snapshot_runs name : runs redis_of (snapshot_multi name) (snapshots name);
  pending_runs name g : runs redis_of (xpending_min name g) (least_pending name g);
  xrange_runs name after : runs redis_of (xrange_after name after) looks;
  xtrim_runs name minid : runs redis_of (xtrim_minid name minid) (drops_below name minid)
}.

(** ** Comparing ids *)

Lemma id_lt_iff a b : id_lt a b ↔ a.1 < b.1 ∨ (a.1 = b.1 ∧ a.2 < b.2).
Proof. unfold id_lt, id_ltb. rewrite orb_true_iff, andb_true_iff, !Z.ltb_lt, Z.eqb_eq. done. Qed.

#[export] Instance id_lt_dec a b : base.Decision (id_lt a b).
Proof. unfold id_lt. apply _. Defined.

(** The order, for [lia]: [a] is not above [b]. *)
Definition id_le (a b : StreamId) : Prop := a.1 < b.1 ∨ (a.1 = b.1 ∧ a.2 ≤ b.2).

Lemma not_id_lt a b : ¬ id_lt a b ↔ id_le b a.
Proof. rewrite id_lt_iff. unfold id_le. lia. Qed.

Lemma id_min_le a b : id_le (id_min a b) a ∧ id_le (id_min a b) b.
Proof.
  unfold id_min. destruct (id_ltb b a) eqn:H; [apply id_lt_iff in H|]; unfold id_le; [lia|].
  assert (¬ id_lt b a) as Hn by (unfold id_lt; by rewrite H). apply not_id_lt in Hn.
  unfold id_le in Hn. lia.
Qed.

Lemma id_min_l a b : id_le (id_min a b) a.
Proof. apply id_min_le. Qed.
Lemma id_min_r a b : id_le (id_min a b) b.
Proof. apply id_min_le. Qed.

Lemma id_min_cases a b : id_min a b = a ∨ id_min a b = b.
Proof. unfold id_min. case_match; auto. Qed.

#[export] Instance id_le_refl : Reflexive id_le.
Proof. intros a. unfold id_le. lia. Qed.
#[export] Instance id_le_trans : Transitive id_le.
Proof. intros a b c. unfold id_le. lia. Qed.

Lemma id_lt_le a b : id_lt a b → id_le a b.
Proof. rewrite id_lt_iff. unfold id_le. lia. Qed.
Lemma id_le_lt_trans a b c : id_le a b → id_lt b c → id_lt a c.
Proof. rewrite !id_lt_iff. unfold id_le. lia. Qed.
Lemma id_lt_le_trans a b c : id_lt a b → id_le b c → id_lt a c.
Proof. rewrite !id_lt_iff. unfold id_le. lia. Qed.

(** ** Progress: what the other clients can change *)

(** Below the mark of a group only what was pending can ever be needed again. *)
Definition mark (s : RStream) (g : text) : StreamId :=
  match r_groups s !! g with Some G => id_min (cursor G) (last_id s) | None => last_id s end.

Record progress (s s' : RStream) : Prop := {
  last_grows : id_le (last_id s) (last_id s');
  cursors_grow : ∀ g G', r_groups s' !! g = Some G' → id_le (mark s g) (cursor G');
  pending_below : ∀ g G' p, r_groups s' !! g = Some G' → p ∈ pel G' →
    id_lt (mark s g) p ∨ ∃ G, r_groups s !! g = Some G ∧ p ∈ pel G
}.

Lemma mark_le_last s g : id_le (mark s g) (last_id s).
Proof. unfold mark. case_match; [apply id_min_le|done]. Qed.

Lemma mark_le_cursor s g G : r_groups s !! g = Some G → id_le (mark s g) (cursor G).
Proof. unfold mark. intros ->. apply id_min_le. Qed.

Lemma mark_mono s s' g : progress s s' → id_le (mark s g) (mark s' g).
Proof.
  intros Hp. unfold mark at 2. destruct (r_groups s' !! g) as [G'|] eqn:HG.
  - destruct (id_min_cases (cursor G') (last_id s')) as [-> | ->].
    + by eapply cursors_grow.
    + etrans; [apply mark_le_last|by apply last_grows].
  - etrans; [apply mark_le_last|by apply last_grows].
Qed.

#[export] Instance progress_refl : Reflexive progress.
Proof.
  intros s. split; [done|apply mark_le_cursor|]. intros g G' p HG Hp. right. eauto.
Qed.

#[export] Instance progress_trans : Transitive progress.
Proof.
  intros s1 s2 s3 H12 H23. split.
  - etrans; by apply last_grows.
  - intros g G' HG. etrans; [by apply mark_mono|by eapply cursors_grow].
  - intros g G' p HG Hp. destruct (pending_below _ _ H23 _ _ _ HG Hp) as [Hlt|(G & HG2 & Hp2)].
    + left. eapply id_le_lt_trans; [by apply mark_mono|done].
    + by eapply pending_below.
Qed.

(** ** Steps are progress *)

Definition evolves (m m' : Redis) : Prop :=
  ∀ name s, m !! name = Some s → ∃ s', m' !! name = Some s' ∧ progress s s'.

#[export] Instance evolves_refl : Reflexive evolves.
Proof. intros m name s Hs. exists s. by split. Qed.

#[export] Instance evolves_trans : Transitive evolves.
Proof.
  intros m1 m2 m3 H12 H23 name s Hs.
  destruct (H12 _ _ Hs) as (s2 & Hs2 & Hp). destruct (H23 _ _ Hs2) as (s3 & Hs3 & Hp').
  exists s3. split; [done|by etrans].
Qed.

Lemma evolves_insert m name s s' :
  m !! name = Some s → progress s s' → evolves m (<[name := s']> m).
Proof.
  intros Hs Hp n t Ht. destruct (decide (n = name)) as [->|Hne].
  - simplify_eq. exists s'. by simplify_map_eq.
  - exists t. rewrite lookup_insert_ne by done. by split.
Qed.

(** A change of one group only. *)
Lemma progress_group s g G G' :
  r_groups s !! g = Some G →
  id_le (cursor G) (cursor G') → (∀ p, p ∈ pel G' → p ∈ pel G ∨ id_lt (cursor G) p) →
  progress s (with_group g G' s).
Proof.
  intros HG Hc Hp. split; cbn [last_id entries r_groups with_group]; [done|..].
  - intros g' H' HH. destruct (decide (g' = g)) as [->|Hne]; simplify_map_eq.
    + etrans; [by apply mark_le_cursor|done].
    + by apply mark_le_cursor.
  - intros g' H' p HH Hin. destruct (decide (g' = g)) as [->|Hne]; simplify_map_eq.
    + destruct (Hp p Hin) as [?|Hlt]; [right; eauto|left].
      eapply id_le_lt_trans; [by apply mark_le_cursor|done].
    + right. eauto.
Qed.

Lemma rstep_evolves m m' : rstep m m' → evolves m m'.
Proof.
  destruct 1 as [m name Hn|m name s e k0 Hs Hid He Hcap|m name s g Hs Hg|m name s g G n new Hs HG ->
                |m name s g G id Hs HG|m name s g Hs].
  - intros n t Ht. exists t. rewrite lookup_insert_ne by congruence. by split.
  - eapply evolves_insert; [done|]. split; cbn.
    + by apply id_lt_le.
    + apply mark_le_cursor.
    + intros g G' p HG Hp. right. eauto.
  - eapply evolves_insert; [done|]. split; cbn; [done|..].
    + intros g' G' HG. destruct (decide (g' = g)) as [->|Hne]; simplify_map_eq;
        [apply mark_le_last|by apply mark_le_cursor].
    + intros g' G' p HG Hp. destruct (decide (g' = g)) as [->|Hne]; simplify_map_eq;
        [by apply not_elem_of_nil in Hp|right; eauto].
  - eapply evolves_insert; [done|].
    assert (∀ p, p ∈ take n (List.filter (id_ltb (cursor G)) (entries s)) → id_lt (cursor G) p) as Hnew.
    { intros p Hp. apply elem_of_take in Hp as (i & Hp & _). apply list_elem_of_lookup_2 in Hp.
      by apply elem_of_list_filter_bool in Hp as [_ ?]. }
    apply (progress_group s g G); [done|..]; cbn.
    + destruct (last _) as [p|] eqn:Hl; [|done]. apply id_lt_le, Hnew. by apply last_Some_elem_of.
    + intros p [?|Hp]%elem_of_app; [by left|right; by apply Hnew].
  - eapply evolves_insert; [done|]. apply (progress_group s g G); [done|done|].
    cbn. intros p Hp. left. by apply elem_of_list_filter_bool in Hp as [? _].
  - eapply evolves_insert; [done|]. split; cbn; [done|..].
    + intros g' G' HG. apply lookup_delete_Some in HG as [_ HG]. by apply mark_le_cursor.
    + intros g' G' p HG Hp. apply lookup_delete_Some in HG as [_ HG]. right. eauto.
Qed.

Lemma steps_evolve m m' : rtc rstep m m' → evolves m m'.
Proof. induction 1 as [|m1 m2 m3 H12 _ IH]; [done|]. etrans; [by apply rstep_evolves|done]. Qed.

(** ** Ids stay ids of the server *)

Lemma origin_is_id : is_id (0, 0).
Proof. split; (split; [cbn; lia|reflexivity]). Qed.

Lemma valid_insert m name s : valid m → valid_stream s → valid (<[name := s]> m).
Proof.
  intros Hm Hs n t Ht. destruct (decide (n = name)) as [->|Hne]; simplify_map_eq; [done|].
  by eapply Hm.
Qed.

Lemma valid_group s g G : valid_stream s → is_id (cursor G) → Forall is_id (pel G) → valid_stream (with_group g G s).
Proof.
  intros (Hl & He & Hg) Hc Hp. split_and!; cbn; [done|done|]. intros g' G' HG.
  destruct (decide (g' = g)) as [->|Hne]; simplify_map_eq; [done|by eapply Hg].
Qed.

Lemma rstep_valid m m' : rstep m m' → valid m → valid m'.
Proof.
  destruct 1 as [m name Hn|m name s e k0 Hs Hid He Hcap|m name s g Hs Hg|m name s g G n new Hs HG ->
                |m name s g G id Hs HG|m name s g Hs]; intros Hm;
    (apply valid_insert; [done|]); try (pose proof (Hm _ _ Hs) as (Hl & He' & Hgs)).
  - split_and!; cbn; [apply origin_is_id|constructor|by intros g G HG].
  - split_and!; cbn; [done| |done]. apply Forall_drop, Forall_app. split; [|constructor; [|done]].
    + eapply Forall_impl; [exact He'|]. intros x [Hx Hle]. split; [done|]. rewrite not_id_lt in *.
      etrans; [exact Hle|by apply id_lt_le].
    + split; [done|]. by rewrite not_id_lt.
  - by apply valid_group.
  - destruct (Hgs _ _ HG) as [Hc Hp].
    assert (Forall is_id (take n (List.filter (id_ltb (cursor G)) (entries s)))) as Hnew.
    { apply Forall_take. rewrite Forall_forall in *. intros p Hp'.
      apply elem_of_list_filter_bool in Hp' as [Hp' _]. by apply He'. }
    apply valid_group; [done| |cbn; by apply Forall_app]. cbn.
    destruct (last _) as [p|] eqn:Hlast; [|done]. rewrite Forall_forall in Hnew.
    apply Hnew. by apply last_Some_elem_of.
  - destruct (Hgs _ _ HG) as [Hc Hp]. apply valid_group; [done|done|]. cbn.
    rewrite Forall_forall in *. intros p Hp'. apply Hp. by apply elem_of_list_filter_bool in Hp' as [? _].
  - split_and!; cbn; [done|done|]. intros g' G' HG. apply lookup_delete_Some in HG as [_ HG]. by eapply Hgs.
Qed.

Lemma steps_valid m m' : rtc rstep m m' → valid m → valid m'.
Proof. induction 1 as [|m1 m2 m3 H12 _ IH]; [done|]. intros Hm. by eapply IH, rstep_valid. Qed.

(** ** Ids as text *)

Lemma u64_repr n :
  0 ≤ n < 2 ^ 64 → int_fits n = true ∧ Forall (λ c, is_digit c = true) (int_repr n) ∧ int_repr n ≠ [].
Proof.
  intros Hn. destruct (nat_repr_spec n ltac:(lia)) as (_ & Hall & c & r & Heq & _).
  assert (int_repr n = nat_repr n) as -> by (unfold int_repr; ztest; done). split_and!; [|done|by rewrite Heq].
  unfold int_fits, INT_MAX_STR_DIGITS. apply bool_decide_eq_true. rewrite Z.abs_eq by lia.
  unfold nat_repr. pose proof (dec_digits_length (S (Z.to_nat (Z.log2 n))) n).
  assert (Z.log2 n ≤ 63); [|lia]. change 63 with (Z.log2 (2 ^ 64 - 1)). apply Z.log2_le_mono. lia.
Qed.

Lemma partition_digits a b :
  Forall (λ c, is_digit c = true) a → partition 45 (a ++ 45 :: b) = (a, true, b).
Proof.
  induction 1 as [|c a Hc _ IH]; [done|]. cbn [app partition]. rewrite IH.
  unfold is_digit in Hc. unbool. by ztest.
Qed.

Lemma utf8_strict_ascii t : Forall (λ c, 0 ≤ c < 128) t → utf8_strict t = Some t.
Proof.
  intros Ht. assert (utf8_decode t = Some t ∧ existsb surrogate t = false) as [H1 H2].
  { induction Ht as [|c t Hc _ [IH1 IH2]]; [done|]. cbn [utf8_decode existsb]. ztest.
    rewrite IH1, IH2. unfold surrogate. by ztest. }
  unfold utf8_strict. rewrite H1. cbn. by rewrite H2.
Qed.

Section Ids.
Context `{Decimals}.

Lemma parse_format_text id : is_id id → parse_stream_id (RText (format_stream_id id)) = Ok (Some id).
Proof.
  destruct id as [ms seq]. intros [Hms Hseq]. cbn [fst snd] in *.
  destruct (u64_repr ms Hms) as (Hfms & Hdms & _). destruct (u64_repr seq Hseq) as (Hfseq & _ & Hne).
  unfold parse_stream_id, format_stream_id. cbn [raw_text mbind result_bind option_bind fst snd app].
  rewrite partition_digits by done. rewrite (py_int_repr ms Hfms). cbn [mbind option_bind].
  rewrite bool_decide_false by done. by rewrite (py_int_repr seq Hfseq).
Qed.

Lemma parse_names id r : is_id id → names id r → parse_stream_id r = Ok (Some id).
Proof.
  intros Hid ->. rewrite <- parse_format_text by done. unfold parse_stream_id. cbn [raw_text].
  rewrite utf8_strict_ascii; [done|]. destruct id as [ms seq], Hid as [Hms Hseq].
  destruct (u64_repr ms Hms) as (_ & Hdms & _). destruct (u64_repr seq Hseq) as (_ & Hds & _).
  assert (∀ l, Forall (λ c, is_digit c = true) l → Forall (λ c, 0 ≤ c < 128) l) as Himp.
  { intros l Hl. eapply Forall_impl; [exact Hl|]. intros c; cbn. unfold is_digit. intros Hc. unbool. lia. }
  unfold format_stream_id. cbn [fst snd app]. apply Forall_app. split; [by apply Himp|].
  constructor; [lia|by apply Himp].
Qed.
End Ids.

(** ** What a snapshot says *)

Section Snapshot.
Context {W : Type} `{TrimServerLaws W}.
Implicit Types (w : W) (m : Redis).

(** A command that changes nothing, among the others' steps. *)
Lemma reading_run {A} (c : eff W redis_error A) spec w r w' :
  runs redis_of c spec → (∀ m a m', spec m a m' → m' = m) → driver c w = (r, w') →
  rtc rstep (redis_of w) (redis_of w') ∧ ∀ a, r = Ok a → spec (redis_of w') a (redis_of w').
Proof.
  intros Hc Hsame Hw. destruct (Hc w) as (m & Hm & Hrun). unfold driver in Hw.
  destruct (c w) as [[a|e] w1]; injection Hw as <- <-; cbn.
  - pose proof (Hsame _ _ _ Hrun) as Heq. rewrite Heq in *. split; [done|]. by intros b [= <-].
  - split; [|done]. destruct Hrun as [-> |[a Ha]]; [done|]. by rewrite (Hsame _ _ _ Ha).
Qed.

Lemma looks_same A : ∀ m (a : A) m', looks m a m' → m' = m.
Proof. done. Qed.
Lemma least_pending_same name g : ∀ m a m', least_pending name g m a m' → m' = m.
Proof. by intros m a m' [? _]. Qed.
Lemma snapshots_same name : ∀ m a m', snapshots name m a m' → m' = m.
Proof. by intros m a m' [? _]. Qed.

Lemma view_valid w m : rtc rstep (redis_of w) m → valid m.
Proof. intros Hm. eapply steps_valid; [exact Hm|apply ids_valid]. Qed.

(** The oldest pending entry of a group, at some moment between [m0] and [m1]. *)
Definition pending_seen (stream : text) (g : GroupPosition) (m0 m1 : Redis) : Prop :=
  ∃ m s G, rtc rstep m0 m ∧ rtc rstep m m1 ∧ m !! stream = Some s ∧
    r_groups s !! gp_name g = Some G ∧
    ∀ e, e ∈ pel G → ∃ p, oldest_pending_id g = Some p ∧ id_le p e.

Lemma pending_seen_mono stream g m0 m0' m1 m1' :
  rtc rstep m0' m0 → rtc rstep m1 m1' → pending_seen stream g m0 m1 → pending_seen stream g m0' m1'.
Proof.
  intros Hbef Haft (m & s & G & Hb & Ha & Hs & HG & Hp). exists m, s, G.
  split_and!; [by etrans|by etrans|done..].
Qed.

Definition positioned (stream : text) (row : GroupRow) (g : GroupPosition) (m0 m1 : Redis) : Prop :=
  gp_name g = gr_name row ∧
  (∀ c, is_id c → names c (gr_last_delivered row) → last_delivered_id g = c) ∧
  (0 < gr_pending row → pending_seen stream g m0 m1).

Lemma positioned_mono stream row g m0 m0' m1 m1' :
  rtc rstep m0' m0 → rtc rstep m1 m1' → positioned stream row g m0 m1 → positioned stream row g m0' m1'.
Proof.
  intros Hbef Haft (Hn & Hc & Hp). split_and!; [done|done|]. intros Hpos.
  eapply pending_seen_mono; [done|done|by apply Hp].
Qed.

(** One of the reads that is made only when it is needed. *)
Lemma optional_read_run {A B} (b : bool) (c : eff W redis_error A) spec (f : A → result exn (option B)) w r w' :
  runs redis_of c spec → (∀ m a m', spec m a m' → m' = m) →
  (if b then a ← driver c; eff_lift (f a) else eff_ret _ None) w = (r, w') →
  rtc rstep (redis_of w) (redis_of w') ∧
  ∀ x, r = Ok x → b = true → ∃ a, spec (redis_of w') a (redis_of w') ∧ f a = Ok x.
Proof.
  intros Hc Hsame. destruct b; [|by intros [= <- <-]].
  intros [(e & He & ->)|(a & w1 & Ha & Hf)]%eff_bind_run.
  - by destruct (reading_run _ _ _ _ _ Hc Hsame He).
  - destruct (reading_run _ _ _ _ _ Hc Hsame Ha) as [Hs Hspec]. injection Hf as <- <-.
    split; [done|]. eauto.
Qed.

Lemma group_position_run stream flag row w r w' :
  group_position stream flag row w = (r, w') →
  rtc rstep (redis_of w) (redis_of w') ∧
  ∀ g, r = Ok g → positioned stream row g (redis_of w) (redis_of w').
Proof.
  unfold group_position. intros [(e & He & ->)|(cursor & w0 & Hcur & Hrun)]%eff_bind_run.
  { injection He as _ <-. by split. }
  apply eff_lift_Ok in Hcur as [Hcur ->].
  apply eff_bind_run in Hrun as [(e & He & ->)|(op & w1 & Hop & Hrun)].
  { by destruct (optional_read_run _ _ _ _ _ _ _ (pending_runs _ _) (least_pending_same _ _) He). }
  destruct (optional_read_run _ _ _ _ _ _ _ (pending_runs _ _) (least_pending_same _ _) Hop) as [Hs01 Hpend].
  apply eff_bind_run in Hrun as [(e & He & ->)|(ou & w2 & Hou & Hrun)].
  { destruct (optional_read_run _ _ _ _ _ _ _ (xrange_runs _ _) (looks_same _) He) as [Hs12 _].
    split; [by etrans|done]. }
  destruct (optional_read_run _ _ _ _ _ _ _ (xrange_runs _ _) (looks_same _) Hou) as [Hs12 _].
  injection Hrun as <- <-. split; [by etrans|]. intros g [= <-]. split_and!; cbn; [done| |].
  - intros c Hid Hname. rewrite (parse_names c _ Hid Hname) in Hcur. by injection Hcur as <-.
  - intros Hpos%Z.ltb_lt. destruct (Hpend op eq_refl Hpos) as (a & (_ & s & G & Hst & HG & Hleast) & Hparse).
    exists (redis_of w1), s, G. split_and!; [done..|]. intros e He.
    destruct (Hleast e He) as (p & Hp & Hname & Hlt). exists p. split; [|by apply not_id_lt].
    destruct (view_valid w _ Hs01 _ _ Hst) as (_ & _ & Hg). destruct (Hg _ _ HG) as [_ Hall].
    rewrite Forall_forall in Hall. rewrite (parse_names p a (Hall p Hp) Hname) in Hparse. by injection Hparse.
Qed.

Lemma group_positions_run stream flag rows w r w' :
  group_positions stream flag rows w = (r, w') →
  rtc rstep (redis_of w) (redis_of w') ∧
  ∀ gs, r = Ok gs → ∀ row, row ∈ rows →
    ∃ g, g ∈ gs ∧ positioned stream row g (redis_of w) (redis_of w').
Proof.
  revert w r; induction rows as [|row rows IH]; intros w r; cbn [group_positions].
  { intros [= <- <-]. split; [done|]. intros gs _ row []%elem_of_nil. }
  intros [(e & He & ->)|(g & w1 & Hg & Hrun)]%eff_bind_run.
  { by destruct (group_position_run _ _ _ _ _ _ He). }
  destruct (group_position_run _ _ _ _ _ _ Hg) as [Hs01 Hpos].
  apply eff_bind_run in Hrun as [(e & He & ->)|(gs & w2 & Hgs & Hrun)].
  { destruct (IH _ _ He). split; [by etrans|done]. }
  injection Hrun as <- ->. destruct (IH _ _ Hgs) as [Hs12 Hall]. split; [by etrans|].
  intros gs' [= <-] row' [->|Hin]%elem_of_cons.
  - exists g. split; [left|]. eapply positioned_mono; [reflexivity|exact Hs12|by apply Hpos].
  - destruct (Hall gs eq_refl row' Hin) as (g' & Hg' & Hp). exists g'. split; [by right|].
    eapply positioned_mono; [exact Hs01|reflexivity|exact Hp].
Qed.

Lemma snapshot_reply_run stream w r w' :
  snapshot_reply stream w = (r, w') →
  rtc rstep (redis_of w) (redis_of w') ∧
  ∀ x, r = Ok (Some x) → snapshots stream (redis_of w') x (redis_of w').
Proof.
  unfold snapshot_reply. destruct (snapshot_runs stream w) as (m & Hm & Hcase).
  destruct (snapshot_multi stream w) as [[a|err] w1].
  - intros [= <- <-]. pose proof (snapshots_same _ _ _ _ Hcase) as Heq. rewrite Heq in *.
    split; [done|]. by intros x [= <-].
  - assert (redis_of w1 = m) as Heq by (destruct Hcase as [? |(a & Ha)]; [done|by eapply snapshots_same]).
    destruct err as [t| |]; intros [= <- <-]; rewrite Heq; (split; [done|]); [|done..].
    by case_match.
Qed.

(** A snapshot of a stream is taken at one moment, and each group's oldest pending entry is
    read a little later. *)
Lemma snapshot_run stream flag w r w' :
  read_stream_snapshot stream flag w = (r, w') →
  rtc rstep (redis_of w) (redis_of w') ∧
  ∀ snap, r = Ok (Some snap) → ∃ m s,
    rtc rstep (redis_of w) m ∧ rtc rstep m (redis_of w') ∧ m !! stream = Some s ∧
    last_generated_id snap = last_id s ∧
    ∀ g G, r_groups s !! g = Some G → ∃ p, p ∈ ss_groups snap ∧ gp_name p = g ∧
      last_delivered_id p = cursor G ∧ (pel G ≠ [] → pending_seen stream p m (redis_of w')).
Proof.
  unfold read_stream_snapshot. intros [(e & He & ->)|(reply & w1 & Hrep & Hrun)]%eff_bind_run.
  { by destruct (snapshot_reply_run _ _ _ _ He). }
  destruct (snapshot_reply_run _ _ _ _ Hrep) as [Hs01 Hsnap].
  destruct reply as [[[time info] rows]|]; [|injection Hrun as <- <-; split; [done|]; by intros ? [= ]].
  destruct (Hsnap _ eq_refl) as (_ & s & Hst & Hlast & _ & Hgroups). cbn [fst snd] in *.
  apply eff_bind_run in Hrun as [(e & He & ->)|(lg & w2 & Hlg & Hrun)].
  { injection He as _ <-. by split. }
  apply eff_lift_Ok in Hlg as [Hlg ->].
  apply eff_bind_run in Hrun as [(e & He & ->)|(fe & w2 & Hfe & Hrun)].
  { injection He as _ <-. by split. }
  apply eff_lift_Ok in Hfe as [Hfe ->].
  apply eff_bind_run in Hrun as [(e & He & ->)|(gs & w2 & Hgs & Hrun)].
  { destruct (group_positions_run _ _ _ _ _ _ He) as [Hs12 _]. split; [by etrans|done]. }
  injection Hrun as <- ->. destruct (group_positions_run _ _ _ _ _ _ Hgs) as [Hs12 Hall].
  split; [by etrans|]. intros snap [= <-]. exists (redis_of w1), s.
  destruct (view_valid w _ Hs01 _ _ Hst) as (Hidlast & _ & Hidg).
  split_and!; [done|done|done| |]; cbn.
  - rewrite (parse_names _ _ Hidlast Hlast) in Hlg. by injection Hlg as <-.
  - intros g G HG. destruct (Hgroups g G HG) as (row & Hin & <- & Hname & Hcount).
    destruct (Hall gs eq_refl row Hin) as (p & Hp & Hpn & Hcur & Hpend). exists p.
    destruct (Hidg _ _ HG) as [Hidc _]. split_and!; [done|done|by apply Hcur|].
    intros Hne. apply Hpend. rewrite Hcount. destruct (pel G); [done|cbn; lia].
Qed.
End Snapshot.

(** ** The trim point *)

Lemma slowest_le groups b h b' h' :
  slowest b h groups = (b', h') →
  (h ≠ None → id_le b' b) ∧ ∀ g, g ∈ groups → id_le b' (needs_from g).
Proof.
  revert b h; induction groups as [|g groups IH]; intros b h; cbn [slowest].
  { intros [= <- <-]. split; [done|]. by intros g []%elem_of_nil. }
  destruct (bool_decide (h = None) || id_ltb (needs_from g) b) eqn:Hc; intros Hs;
    destruct (IH _ _ Hs) as [Hle Hall].
  - specialize (Hle ltac:(done)). split.
    + intros Hh. etrans; [exact Hle|]. rewrite bool_decide_false in Hc by done. by apply id_lt_le.
    + intros g' [->|Hin]%elem_of_cons; [done|by apply Hall].
  - apply orb_false_elim in Hc as [Hh Hlt]. apply bool_decide_eq_false in Hh. specialize (Hle Hh).
    split; [done|]. intros g' [->|Hin]%elem_of_cons; [|by apply Hall].
    etrans; [exact Hle|]. apply not_id_lt. unfold id_lt. by rewrite Hlt.
Qed.

(** The point lies below everything any group of the snapshot needs, and the stream's end. *)
Lemma trim_decision_minid s margin t :
  0 ≤ margin → minid (trim_decision s margin) = Some t →
  ∃ b : StreamId, boundary (trim_decision s margin) = b ∧ 0 < b.1 - margin ∧
    t = format_stream_id (b.1 - margin, 0) ∧ id_le b (last_generated_id s) ∧
    ∀ g, g ∈ ss_groups s → id_le b (needs_from g).
Proof.
  intros Hmargin. unfold trim_decision.
  destruct (slowest (last_generated_id s) None (ss_groups s)) as [b h] eqn:Hslow. cbn [minid boundary].
  destruct (slowest_le _ _ _ _ _ Hslow) as [_ Hall].
  destruct (first_entry_id s) as [first|]; [|done]. cbn [fst snd].
  destruct (0 <? _) eqn:Hpos; cbn [andb]; [|done]. destruct (id_ltb first _); [|done].
  intros [= <-]. unbool. eexists. split; [done|]. split_and!; [lia|done|apply id_min_r|].
  intros g Hg. etrans; [apply id_min_l|by apply Hall].
Qed.

Section Safety.
Context {W : Type} `{TrimServerLaws W}.
Implicit Types (w : W) (m : Redis).

(** What a group needs, at any time after the snapshot, is at or above the boundary. *)
Lemma needed_above_boundary stream flag w w' snap b m s e :
  read_stream_snapshot stream flag w = (Ok (Some snap), w') →
  id_le b (last_generated_id snap) → (∀ g, g ∈ ss_groups snap → id_le b (needs_from g)) →
  evolves (redis_of w') m → m !! stream = Some s → e ∈ entries s → needed s e → id_le b e.
Proof.
  intros Hrun Hhead Hgroups Hev Hs He (g & G & HG & Hneeds).
  destruct (snapshot_run _ _ _ _ _ Hrun) as [_ Hsnap].
  destruct (Hsnap _ eq_refl) as (m0 & s0 & _ & Hm0 & Hs0 & Hlast & Hpos). rewrite Hlast in Hhead.
  assert (evolves m0 m) as Hev0 by (etrans; [by apply steps_evolve|done]).
  destruct (Hev0 _ _ Hs0) as (s' & Hs' & Hprog). simplify_eq.
  assert (id_le b (mark s0 g)) as Hmark.
  { unfold mark. destruct (r_groups s0 !! g) as [G0|] eqn:HG0; [|done].
    destruct (Hpos _ _ HG0) as (p & Hp & _ & Hcur & _).
    destruct (id_min_cases (cursor G0) (last_id s0)) as [-> | ->]; [|done].
    etrans; [by apply Hgroups|]. unfold needs_from. rewrite Hcur.
    destruct (oldest_pending_id p); [apply id_min_r|done]. }
  destruct Hneeds as [Hpend|Hlt].
  - destruct (pending_below _ _ Hprog _ _ _ HG Hpend) as [Hlt|(G0 & HG0 & Hpend0)].
    { etrans; [exact Hmark|by apply id_lt_le]. }
    destruct (Hpos _ _ HG0) as (p & Hp & <- & _ & Hseen).
    destruct (Hseen ltac:(by intros Hnil; rewrite Hnil in Hpend0; apply not_elem_of_nil in Hpend0))
      as (m1 & s1 & G1 & Hm01 & Hm1 & Hs1 & HG1 & Hleast).
    destruct (steps_evolve _ _ Hm01 _ _ Hs0) as (? & ? & Hp01). simplify_eq.
    assert (evolves m1 m) as Hev1 by (etrans; [by apply steps_evolve|done]).
    destruct (Hev1 _ _ Hs1) as (? & ? & Hp1). simplify_eq.
    destruct (pending_below _ _ Hp1 _ _ _ HG Hpend) as [Hlt|(G1' & HG1' & Hin)].
    + etrans; [exact Hmark|]. etrans; [by apply mark_mono|by apply id_lt_le].
    + simplify_eq. destruct (Hleast e Hin) as (q & Hq & Hle). etrans; [by apply Hgroups|].
      unfold needs_from. rewrite Hq. etrans; [apply id_min_l|done].
  - etrans; [exact Hmark|]. etrans; [by eapply cursors_grow|by apply id_lt_le].
Qed.
End Safety.

(** ** What a pass may lose *)

(** On the stream, or dropped by the backstop. *)
Definition held (s : RStream) (e : StreamId) : Prop := e ∈ entries s ∨ e ∈ overrun s.

(** No group has lost an entry it was given, but to the backstop. *)
Definition intact (s : RStream) : Prop :=
  ∀ g G p, r_groups s !! g = Some G → p ∈ pel G → held s p.

Record safely (s s' : RStream) : Prop := {
  sf_progress : progress s s';
  sf_keeps : ∀ e, e ∈ entries s → needed s' e → held s' e;
  sf_overrun : overrun s ⊆ overrun s';
  sf_uncapped : stream_maxlen = None → overrun s' = overrun s;
  sf_intact : intact s → intact s'
}.

(** What is not needed any more stays so. *)
Lemma needed_before s s' e :
  progress s s' → id_le e (last_id s) → needed s' e → needed s e.
Proof.
  intros Hp Hlast (g & G' & HG' & Hneeds). apply not_id_lt in Hlast.
  assert (id_lt (mark s g) e ∨ ∃ G, r_groups s !! g = Some G ∧ e ∈ pel G) as [Hlt|(G & HG & Hin)].
  { destruct Hneeds as [Hin|Hlt]; [by eapply pending_below|left].
    eapply id_le_lt_trans; [by eapply cursors_grow|done]. }
  - unfold mark in Hlt. destruct (r_groups s !! g) as [G|] eqn:HG; [|done].
    exists g, G. split; [done|]. right. by destruct (id_min_cases (cursor G) (last_id s)) as [Hm|Hm];
      rewrite Hm in Hlt.
  - exists g, G. split; [done|by left].
Qed.

Lemma entry_le_last s e : valid_stream s → e ∈ entries s → id_le e (last_id s).
Proof.
  intros (_ & Hall & _) He. rewrite Forall_forall in Hall. apply not_id_lt. by apply Hall.
Qed.

#[export] Instance safely_refl : Reflexive safely.
Proof. intros s. split; [done|by left|done..]. Qed.

Lemma safely_trans s1 s2 s3 : valid_stream s1 → safely s1 s2 → safely s2 s3 → safely s1 s3.
Proof.
  intros Hv H12 H23. split.
  - etrans; by apply sf_progress.
  - intros e He Hn. destruct (sf_keeps _ _ H12 e He) as [He2|He2].
    + eapply needed_before; [by apply sf_progress| |done].
      etrans; [by apply entry_le_last|]. by apply last_grows, sf_progress.
    + by eapply sf_keeps.
    + right. by eapply sf_overrun.
  - etrans; by eapply sf_overrun.
  - intros Hn. rewrite (sf_uncapped _ _ H23), (sf_uncapped _ _ H12) by done. done.
  - intros Hi. by eapply sf_intact, sf_intact.
Qed.

Definition all_safely (m m' : Redis) : Prop :=
  ∀ name s, m !! name = Some s → ∃ s', m' !! name = Some s' ∧ safely s s'.

Lemma all_safely_trans m1 m2 m3 : valid m1 → all_safely m1 m2 → all_safely m2 m3 → all_safely m1 m3.
Proof.
  intros Hv H12 H23 name s Hs. destruct (H12 _ _ Hs) as (s2 & Hs2 & Hsf).
  destruct (H23 _ _ Hs2) as (s3 & Hs3 & Hsf'). exists s3. split; [done|].
  eapply safely_trans; [by eapply Hv|done|done].
Qed.

(** A change of one stream that drops nothing and hands out only what is there. *)
Lemma kept_safely s s' :
  progress s s' → (∀ e, e ∈ entries s → e ∈ entries s') → overrun s' = overrun s →
  (∀ g G' p, r_groups s' !! g = Some G' → p ∈ pel G' → p ∈ entries s ∨ ∃ G, r_groups s !! g = Some G ∧ p ∈ pel G) →
  safely s s'.
Proof.
  intros Hp Hsub Ho Hpel. split; [done|intros e He _; left; by apply Hsub|by rewrite Ho|done|].
  intros Hi g G' p HG' Hp'. destruct (Hpel g G' p HG' Hp') as [Hin|(G & HG & Hin)]; [left; by apply Hsub|].
  destruct (Hi g G p HG Hin) as [He|He]; [left; by apply Hsub|right; by rewrite Ho].
Qed.

(** A publish: what leaves the stream is what its cap drops. *)
Lemma added_safely s e k : progress s (mk_RStream (drop k (entries s ++ [e])) e (r_groups s) (overrun s ++ take k (entries s ++ [e]))) →
  capped k (entries s ++ [e]) →
  safely s (mk_RStream (drop k (entries s ++ [e])) e (r_groups s) (overrun s ++ take k (entries s ++ [e]))).
Proof.
  intros Hp Hcap. set (s' := mk_RStream _ _ _ _) in *.
  assert (∀ x, held s x → held s' x) as Hheld.
  { intros x [Hx|Hx]; [|right; apply elem_of_app; by left]. assert (x ∈ entries s ++ [e]) as Hin by (apply elem_of_app; by left).
    rewrite <- (take_drop k (entries s ++ [e])) in Hin. apply elem_of_app in Hin as [Hin|Hin]; [right; apply elem_of_app; by right|by left]. }
  split; [done|intros x Hx _; apply Hheld; by left| | |].
  - intros x Hx. apply elem_of_app. by left.
  - intros Hn. destruct Hcap as [->|(n & Hs & _)]; [apply app_nil_r|congruence].
  - intros Hi g G p HG Hp'. by apply Hheld, (Hi g G).
Qed.

(** The other clients drop nothing but what the backstop drops. *)
Lemma rstep_safely m m' : rstep m m' → all_safely m m'.
Proof.
  intros Hstep name s Hs. destruct (rstep_evolves _ _ Hstep _ _ Hs) as (s' & Hs' & Hp).
  exists s'. split; [done|].
  destruct Hstep as [m n Hn|m n t e k Ht Hid He Hcap|m n t g Ht Hg|m n t g G k new Ht HG ->
                |m n t g G id Ht HG|m n t g Ht];
    (destruct (decide (n = name)) as [->|Hne];
      [|rewrite lookup_insert_ne in Hs' by done; by simplify_eq]); simplify_map_eq.
  - by apply added_safely.
  - apply kept_safely; [done..|]. intros g' G' p HG' Hp'. cbn in HG'.
    destruct (decide (g' = g)) as [->|Hne]; simplify_map_eq; [by apply not_elem_of_nil in Hp'|right; eauto].
  - apply kept_safely; [done..|]. intros g' G' p HG' Hp'. cbn in HG'.
    destruct (decide (g' = g)) as [->|Hne]; simplify_map_eq; [|right; eauto].
    apply elem_of_app in Hp' as [Hin|Hin]; [right; eauto|left].
    apply elem_of_take in Hin as (i & Hin & _). apply list_elem_of_lookup_2 in Hin.
    by apply elem_of_list_filter_bool in Hin as [? _].
  - apply kept_safely; [done..|]. intros g' G' p HG' Hp'. cbn in HG'.
    destruct (decide (g' = g)) as [->|Hne]; simplify_map_eq; [|right; eauto].
    apply elem_of_list_filter_bool in Hp' as [Hin _]. right. eauto.
  - apply kept_safely; [done..|]. intros g' G' p HG' Hp'. cbn in HG'.
    apply lookup_delete_Some in HG' as [_ HG']. right. eauto.
Qed.

Lemma steps_safely m m' : rtc rstep m m' → valid m → all_safely m m'.
Proof.
  induction 1 as [m|m1 m2 m3 H12 _ IH]; intros Hv; [intros name s Hs; by exists s|].
  eapply all_safely_trans; [done|by apply rstep_safely|]. by eapply IH, rstep_valid.
Qed.

(** A trim below everything that is needed. *)
Lemma trim_safely m name s s' cut :
  m !! name = Some s → trims cut s s' → (∀ e, e ∈ entries s → needed s e → ¬ id_lt e cut) →
  all_safely m (<[name := s']> m).
Proof.
  intros Hs (Hg & Hl & Ho & keep & Hent & Hcut) Hneed n t Ht.
  destruct (decide (n = name)) as [->|Hne]; [|exists t; by rewrite lookup_insert_ne by done].
  assert (t = s) as -> by congruence. exists s'. split; [by simplify_map_eq|].
  assert (∀ e, e ∈ entries s → needed s e → e ∈ entries s') as Hkeep.
  { intros e He Hn. rewrite Hent, elem_of_list_filter_bool. split; [done|].
    destruct (keep e) eqn:Hk; [done|]. by destruct (Hneed e He Hn); apply Hcut. }
  split.
  - assert (∀ g, mark s' g = mark s g) as Hm by (intros g; unfold mark; by rewrite Hg, Hl).
    split; [by rewrite Hl| |].
    + intros g G'. rewrite Hg. apply mark_le_cursor.
    + intros g G' p. rewrite Hg. intros HG Hp. right. eauto.
  - intros e He Hn. left. apply Hkeep; [done|]. unfold needed in *. by rewrite Hg in Hn.
  - by rewrite Ho.
  - done.
  - intros Hi g G p. rewrite Hg. intros HG Hp. destruct (Hi g G p HG Hp) as [He|He]; [left|right; by rewrite Ho].
    apply Hkeep; [done|]. exists g, G. split; [done|by left].
Qed.

(** ** The passes *)

Section Passes.
Context {W : Type} `{TrimServerLaws W}.
Implicit Types (w : W) (m : Redis).

Lemma valid_of_steps m m' : valid m → rtc rstep m m' → valid m'.
Proof. intros Hm Hs. by eapply steps_valid. Qed.

(** The one command that drops entries, sent for a snapshot taken earlier. *)
Lemma xtrim_safely stream flag margin w0 w snap t r w' :
  0 ≤ margin → read_stream_snapshot stream flag w0 = (Ok (Some snap), w) →
  minid (trim_decision snap margin) = Some t → driver (xtrim_minid stream t) w = (r, w') →
  all_safely (redis_of w) (redis_of w').
Proof.
  intros Hmargin Hsnap Hmin Hrun.
  destruct (trim_decision_minid _ _ _ Hmargin Hmin) as (b & _ & Hpos & -> & Hhead & Hgroups).
  destruct (xtrim_runs stream (format_stream_id (b.1 - margin, 0)) w) as (m & Hm & Hcase).
  pose proof (ids_valid w) as Hv.
  assert (redis_of w' = m ∨ ∃ n, drops_below stream (format_stream_id (b.1 - margin, 0)) m n (redis_of w'))
    as [-> |(n & s & s' & cut & Hs & Hcut & Htrim & -> & _)].
  { unfold driver in Hrun. destruct (xtrim_minid _ _ w) as [[a|e] w1]; injection Hrun as _ <-; [right; eauto|done]. }
  - by apply steps_safely.
  - eapply all_safely_trans; [done|by apply steps_safely|].
    eapply trim_safely; [done..|]. intros e He Hneed Hlt.
    assert (id_le b e) as Hle.
    { eapply needed_above_boundary; [exact Hsnap|done|done| |done..]. by apply steps_evolve. }
    assert (is_id e) as [He1 He2].
    { destruct (steps_valid _ _ Hm Hv _ _ Hs) as (_ & Hall & _). rewrite Forall_forall in Hall. by apply Hall. }
    destruct (snapshot_run _ _ _ _ _ Hsnap) as [_ Hsn].
    destruct (Hsn _ eq_refl) as (m0 & s0 & Hm0 & _ & Hs0 & Hlast & _).
    destruct (view_valid w0 _ Hm0 _ _ Hs0) as ([Hl1 Hl2] & _). rewrite <- Hlast in Hl1, Hl2.
    rewrite parse_format_text in Hcut by (unfold id_le in Hhead; split; cbn [fst snd]; lia).
    injection Hcut as <-. apply id_lt_iff in Hlt. unfold id_le in Hle. cbn [fst snd] in Hlt. lia.
Qed.

Lemma snapshot_safely stream flag w r w' :
  read_stream_snapshot stream flag w = (r, w') → all_safely (redis_of w) (redis_of w').
Proof. intros Hrun. apply steps_safely; [by eapply snapshot_run|apply ids_valid]. Qed.

Lemma trim_streams_safely margin streams w r w' :
  0 ≤ margin → trim_streams margin streams w = (r, w') → all_safely (redis_of w) (redis_of w').
Proof.
  intros Hmargin. revert w r; induction streams as [|stream streams IH]; intros w r; cbn [trim_streams].
  { intros [= _ <-] name s Hs. by exists s. }
  intros [(e & He & _)|(snap & w1 & Hsnap & Hrun)]%eff_bind_run; [by eapply snapshot_safely|].
  apply (all_safely_trans _ (redis_of w1)); [apply ids_valid|by eapply snapshot_safely|].
  destruct snap as [snap|]; [|by eapply IH].
  assert (∀ r2 w2, match minid (trim_decision snap margin) with
                   | Some t => driver (xtrim_minid stream t)
                   | None => eff_ret _ 0
                   end w1 = (r2, w2) → all_safely (redis_of w1) (redis_of w2)) as Htrim.
  { intros r2 w2. destruct (minid _) as [t|] eqn:Hmin; [by eapply xtrim_safely|].
    intros [= _ <-] name s Hs. by exists s. }
  apply eff_bind_run in Hrun as [(e & He & _)|(n & w2 & Hn & Hrun)]; [by eapply Htrim|].
  apply (all_safely_trans _ (redis_of w2)); [apply ids_valid|by eapply Htrim|].
  apply eff_bind_run in Hrun as [(e & He & _)|(reports & w3 & Hrep & Hrun)]; [by eapply IH|].
  injection Hrun as _ <-. by eapply IH.
Qed.

(** C19: The trimmer deletes nothing anybody still has to read.  However many passes it runs,
    failed ones included, and whatever the publishers and consumer groups do between any two
    of its commands: a stream is never lost; every entry that was on it and that some group
    is still due at the end, because it is pending there or was never delivered to it, is on
    it at the end or was dropped by the [MAXLEN] of a publish, which the trimmer can neither
    see nor prevent; and if no group had lost the body of a pending entry but to that cap,
    none has.  With the cap switched off nothing is dropped by it, so nothing due is ever
    lost.  The margin may be as small as zero. *)
Theorem trimmer_loses_nothing (c : TrimmerConfig) passes w name s :
  0 ≤ tc_margin_ms c → redis_of w !! name = Some s →
  ∃ s', redis_of (run_forever c passes w) !! name = Some s' ∧
    (∀ e, e ∈ entries s → needed s' e → e ∈ entries s' ∨ e ∈ overrun s') ∧ (intact s → intact s') ∧
    (stream_maxlen = None → overrun s' = overrun s).
Proof.
  intros Hmargin Hs.
  assert (all_safely (redis_of w) (redis_of (run_forever c passes w))) as Hall.
  { clear s Hs. revert w. induction passes as [|passes IH]; intros w; [intros n s Hs; by exists s|].
    cbn [run_forever]. eapply all_safely_trans; [apply ids_valid| |apply IH].
    unfold trim_once. destruct (trim_streams _ _ w) as [r w'] eqn:Hrun. by eapply trim_streams_safely. }
  destruct (Hall _ _ Hs) as (s' & Hs' & Hsf). exists s'. by destruct Hsf.
Qed.
End Passes.
End Retention.

(** ** A server with one stream, before and after its trim *)

Definition demo_stream : text := txt "stream.files".
Definition demo_entries (trimmed : bool) : list StreamId :=
  (if trimmed then [] else [(1000, 0); (2000, 0)]) ++ [(3000, 0); (9000, 0)].
Definition demo_groups : gmap text RGroup := {[ txt "cg.a" := mk_RGroup (9000, 0) [(3000, 0)] ]}.
Definition demo_redis (trimmed : bool) : Redis :=
  {[ demo_stream := mk_RStream (demo_entries trimmed) (9000, 0) demo_groups [] ]}.

#[export] Instance demo_backstop : Backstop := {| stream_maxlen := Some 3%nat |}.

Definition demo_id (id : StreamId) : raw := RBytes (format_stream_id id).

#[export] Instance demo_server : TrimServer bool := {|
  snapshot_multi name w :=
    if bool_decide (name = demo_stream) then
      (Ok ((10, 0), mk_StreamInfo (Z.of_nat (length (demo_entries w))) 4 (demo_id (9000, 0))
             (demo_id <$> head (demo_entries w)),
           [mk_GroupRow (txt "cg.a") 0 1 (demo_id (9000, 0)) (Some 4) (Some 0)]), w)
    else (Err (ResponseError (txt "no such key")), w);
  xpending_min name g w :=
    if bool_decide (name = demo_stream ∧ g = txt "cg.a") then (Ok (demo_id (3000, 0)), w)
    else (Err (ResponseError (txt "NOGROUP")), w);
  xrange_after name after w := (Ok None, w);
  xtrim_minid name minid w :=
    if bool_decide (name = demo_stream ∧ minid = format_stream_id (2500, 0))
    then (Ok (if w then 0 else 2), true)
    else (Err RedisError, w)
|}.

Lemma demo_is_id n : 0 ≤ n < 2 ^ 64 → is_id (n, 0).
Proof. intros Hn. by split. Qed.

#[export] Instance demo_server_laws : @TrimServerLaws demo_backstop bool demo_server ascii_decimals.
Proof.
  refine {| redis_of := demo_redis |}.
  - intros w name s Hs. unfold demo_redis in Hs. apply lookup_singleton_Some in Hs as [<- <-].
    split_and!; [by apply demo_is_id| |].
    + unfold demo_entries. assert (∀ n, 0 ≤ n ≤ 9000 → is_id (n, 0) ∧ ¬ id_lt (9000, 0) (n, 0)) as Hall.
      { intros n Hn. split; [apply demo_is_id; lia|]. rewrite id_lt_iff. cbn. lia. }
      destruct w; repeat (constructor; [apply Hall; lia|]); constructor.
    + intros g G HG. cbn [r_groups] in HG. unfold demo_groups in HG. apply lookup_singleton_Some in HG as [<- <-].
      split; [by apply demo_is_id|]. constructor; [by apply demo_is_id|constructor].
  - intros name w. exists (demo_redis w). split; [done|]. cbn [snapshot_multi demo_server].
    case_bool_decide as Hn; [subst name|by left]. split; [done|].
    eexists. split; [reflexivity|]. split_and!; [done| |].
    + cbn. destruct w; cbn; eexists; split; reflexivity.
    + intros g G HG. cbn [r_groups] in HG. unfold demo_groups in HG. apply lookup_singleton_Some in HG as [<- <-].
      eexists. split; [left|]. split_and!; reflexivity.
  - intros name g w. exists (demo_redis w). split; [done|]. cbn [xpending_min demo_server].
    case_bool_decide as Hn; [destruct Hn as [-> ->]|by left]. split; [done|].
    do 2 eexists. split; [reflexivity|].
    split; [reflexivity|].
    intros e He%list_elem_of_singleton. subst e. exists (3000, 0). split_and!; [left|done|by intros ?].
  - intros name after w. exists (demo_redis w). split; [done|]. done.
  - intros name minid w. exists (demo_redis w). split; [done|]. cbn [xtrim_minid demo_server].
    case_bool_decide as Hn; [destruct Hn as [-> ->]|by left].
    exists (mk_RStream (demo_entries w) (9000, 0) demo_groups []), (mk_RStream (demo_entries true) (9000, 0) demo_groups []), (2500, 0).
    split_and!; [reflexivity|apply parse_format_text; by apply demo_is_id| | |].
    + split_and!; [done|done|done|]. exists (λ e, 2500 <? e.1). split; [by destruct w|].
      intros e He Hk. unbool. apply id_lt_iff. cbn.
      destruct w; repeat (apply elem_of_cons in He as [->|He]; [cbn in *; lia|]); by apply elem_of_nil in He.
    + unfold demo_redis. by rewrite insert_singleton_eq.
    + by destruct w.
Defined.

Definition demo_trimmer : TrimmerConfig := mk_TrimmerConfig [demo_stream] 500.

Example trimmer_loses_nothing_witness :
  @run_forever bool demo_server ascii_decimals demo_trimmer 2 false = true ∧
  (∃ s', @redis_of demo_backstop bool demo_server ascii_decimals demo_server_laws
           (@run_forever bool demo_server ascii_decimals demo_trimmer 2 false) !! demo_stream = Some s' ∧
    (∀ e, e ∈ demo_entries false → needed s' e → e ∈ entries s' ∨ e ∈ overrun s') ∧
    (intact (mk_RStream (demo_entries false) (9000, 0) demo_groups []) → intact s') ∧
    (stream_maxlen = None → overrun s' = [])).
Proof.
  split; [vm_compute; reflexivity|].
  apply (@trimmer_loses_nothing demo_backstop bool demo_server ascii_decimals demo_server_laws demo_trimmer 2 false demo_stream
           (mk_RStream (demo_entries false) (9000, 0) demo_groups [])).
  - cbn. lia.
  - reflexivity.
Defined.

(** The cap does drop what a group is due: three entries nobody has read, and a fourth is
    published under a cap of three. *)
Example backstop_drops_what_is_due :
  let due := mk_RStream [(1, 0); (2, 0); (3, 0)] (3, 0) {[ txt "cg.a" := mk_RGroup (0, 0) [] ]} [] in
  ∃ s, rstep {[ demo_stream := due ]} {[ demo_stream := s ]} ∧ needed s (1, 0) ∧ (1, 0) ∉ entries s ∧ overrun s = [(1, 0)].
Proof.
  intros due. exists (mk_RStream [(2, 0); (3, 0); (4, 0)] (4, 0) {[ txt "cg.a" := mk_RGroup (0, 0) [] ]} [(1, 0)]). split; [|split].
  - pose proof (RAdd {[ demo_stream := due ]} demo_stream due (4, 0) 1) as Hadd. rewrite insert_singleton_eq in Hadd.
    apply Hadd; [apply lookup_singleton_eq|by apply demo_is_id|done|]. right. exists 3%nat. split; [done|cbn; lia].
  - exists (txt "cg.a"), (mk_RGroup (0, 0) []). split; [apply lookup_singleton_eq|]. by right.
  - split; [|done]. cbn. rewrite !elem_of_cons. intros [|[|[|?%elem_of_nil]]]; done.
Qed.
