(* ===== verification/Registries.v ===== *)
(** * Registries: agents, tools and workflows by key

    [framework/agent_runtime/registry.py] and [plugin_loader.py], [framework/tools/registry.py]
    and [resolver.py], [framework/workflows/registry.py].  What reaches a registry is
    unchecked, so the fields it checks are of any type ([value]); what it keeps is typed. *)

From S2P Require Import Prelude Text Calendar Errors Framework Files Keyset Events.

Open Scope Z_scope.

(** ** Unchecked values *)

(** A Python object, as far as [isinstance] tells the registries. *)
Inductive value : Type :=
  | VStr (t : text)
  | VDict (items : list (value * value))
  | VOther.

Definition validation_exn : exn := App (raise_class ValidationError).

(** [isinstance(v, str) and v.strip()] *)
Definition non_blank (v : value) : option text :=
  match v with VStr t => if bool_decide (strip t = []) then None else Some t | _ => None end.

(** ** A strict map *)

Section Registry.
Context {V : Type}.
Implicit Types (d : list (text * V)).

(** A dict, in the order of registration. *)
Definition add_new (key : text) (v : V) d : result exn (list (text * V)) :=
  if bool_decide (is_Some (alist_get key d)) then Err validation_exn else Ok (d ++ [(key, v)]).

(** [sorted(d.items())] *)
Definition item_leb (x y : text * V) : bool := negb (text_ltb y.1 x.1).
Definition sorted_items d : list (text * V) := sort_by item_leb d.

Lemma item_leb_total x y : item_leb x y = true ∨ item_leb y x = true.
Proof.
  unfold item_leb. rewrite !negb_true_iff.
  destruct (text_ltb y.1 x.1) eqn:H1; [|by left]. right. destruct (text_ltb x.1 y.1) eqn:H2; [|done].
  destruct (text_lt_irrefl x.1). by eapply text_lt_trans.
Qed.

Lemma item_leb_trans x y z : item_leb x y = true → item_leb y z = true → item_leb x z = true.
Proof.
  unfold item_leb. rewrite !negb_true_iff. intros Hxy Hyz.
  destruct (text_ltb z.1 x.1) eqn:Hzx; [|done].
  destruct (text_lt_total x.1 y.1) as [Hl|[He|Hl]].
  - assert (text_ltb z.1 y.1 = true) by by eapply text_lt_trans. congruence.
  - congruence.
  - unfold text_lt in Hl. congruence.
Qed.

Lemma add_new_Ok key v d d' :
  add_new key v d = Ok d' → alist_get key d = None ∧ d' = d ++ [(key, v)].
Proof. unfold add_new. case_bool_decide as H; [done|]. intros [= <-]. by apply eq_None_not_Some in H. Qed.

Lemma add_new_keys key v d d' : add_new key v d = Ok d' → NoDup d.*1 → NoDup d'.*1.
Proof.
  intros [Hn ->]%add_new_Ok Hd. rewrite fmap_app. apply NoDup_app. split; [done|]. split.
  - intros k Hk ->%list_elem_of_singleton. by apply alist_get_None in Hn.
  - apply NoDup_singleton.
Qed.
End Registry.

(** ** Agents *)

Record AgentMetadata := mk_AgentMetadata {
  md_key : value; md_name : text; md_version : text; md_description : text;
  md_capabilities : list text; md_required_permissions : list text; md_default_tools : list text
}.

Section Agents.
(** An agent class, called with the context and the dependencies. *)
Context {Factory : Type}.

(** [None] for a metadata of another type, or a factory that cannot be called. *)
Definition register_agent (metadata : option AgentMetadata) (factory : option Factory)
    (entries : list (text * (AgentMetadata * Factory))) : result exn (list (text * (AgentMetadata * Factory))) :=
  match metadata with
  | None => Err validation_exn
  | Some md =>
      match non_blank (md_key md) with
      | None => Err validation_exn
      | Some key =>
          match factory with
          | None => Err validation_exn
          | Some f => add_new key (md, f) entries
          end
      end
  end.

(** [create], up to the call of the factory. *)
Definition find_agent (key : value) (entries : list (text * (AgentMetadata * Factory))) : result exn Factory :=
  match non_blank key with
  | None => Err validation_exn
  | Some key =>
      match alist_get key entries with
      | None => Err (App (raise_code NotFoundError "agent.unknown"))
      | Some (_, f) => Ok f
      end
  end.

Definition list_agents (entries : list (text * (AgentMetadata * Factory))) : list AgentMetadata :=
  (λ e, e.2.1) <$> sorted_items entries.

(** A folder under the package, as importing its two modules shows it: the [METADATA] object
    (absent, of another type, or a metadata), the concrete subclasses of [BaseAgent] the agent
    module defines, and whether the class's [metadata] is that very object. *)
Record Plugin := mk_Plugin {
  pl_name : text;
  pl_manifest : result exn (option (option AgentMetadata));
  pl_classes : result exn (list (Factory * bool))
}.

Definition is_lower_ascii (c : Z) : bool := (97 <=? c) && (c <=? 122).

(** [_KEY_RE.fullmatch] *)
Definition snake_case (t : text) : bool :=
  match t with
  | c :: t => is_lower_ascii c && forallb (λ c, is_lower_ascii c || is_digit c || (c =? 95)) t
  | [] => false
  end.

Definition load_one (p : Plugin) : result exn (AgentMetadata * Factory) :=
  candidate ← pl_manifest p;
  md ← match candidate with Some (Some md) => Ok md | _ => Err validation_exn end;
  _ ← match md_key md with
      | VStr key => raise_if (negb (snake_case key) || negb (bool_decide (key = pl_name p))) validation_exn
      | _ => Err validation_exn
      end;
  concrete ← pl_classes p;
  match concrete with
  | [(cls, bound)] => if bound : bool then Ok (md, cls) else Err validation_exn
  | _ => Err validation_exn
  end.

Record PluginLoadReport := mk_PluginLoadReport { loaded : list text; failures : list (text * exn) }.

(** The loop of [load_into] over the candidates. *)
Fixpoint load_plugins (plugins : list Plugin) (entries : list (text * (AgentMetadata * Factory)))
    (report : PluginLoadReport) : list (text * (AgentMetadata * Factory)) * PluginLoadReport :=
  match plugins with
  | [] => (entries, report)
  | p :: plugins =>
      match ('(md, cls) ← load_one p;
             entries' ← register_agent (Some md) (Some cls) entries;
             Ok (entries', pl_name p)) with
      | Ok (entries', key) => load_plugins plugins entries' (mk_PluginLoadReport (loaded report ++ [key]) (failures report))
      | Err e => load_plugins plugins entries (mk_PluginLoadReport (loaded report) (failures report ++ [(pl_name p, e)]))
      end
  end.

(** The packages [pkgutil] lists, underscored ones left out, by name. *)
Definition plugin_leb (x y : Plugin) : bool := negb (text_ltb (pl_name y) (pl_name x)).
Definition candidates (found : list Plugin) : list Plugin :=
  sort_by plugin_leb (List.filter (λ p, match pl_name p with c :: _ => negb (c =? 95) | [] => true end) found).

Definition load_into (is_package : bool) (found : list Plugin)
    (entries : list (text * (AgentMetadata * Factory)))
    : result exn (list (text * (AgentMetadata * Factory)) * PluginLoadReport) :=
  if is_package then Ok (load_plugins (candidates found) entries (mk_PluginLoadReport [] []))
  else Err validation_exn.
End Agents.

(** ** Tools *)

Record ToolSpec := mk_ToolSpec { ts_name : value; ts_description : text; ts_parameters : list (text * json) }.

Section Tools.
(** What a tool class does once built with the dependencies, and the dynamic catalog. *)
Context {W Impl : Type}.
Variable run_tool : Impl → list (text * json) → eff W exn (list (text * json)).

(** A concrete tool class has [tl_abstract = false]; [None] where [spec] is missing. *)
Record ToolClass := mk_ToolClass { tl_abstract : bool; tl_spec : option ToolSpec; tl_impl : Impl }.

Definition register_tool (tool_cls : option ToolClass) (tools : list (text * (ToolSpec * Impl)))
    : result exn (list (text * (ToolSpec * Impl))) :=
  match tool_cls with
  | None => Err validation_exn
  | Some c =>
      if tl_abstract c then Err validation_exn
      else match tl_spec c with
           | None => Err validation_exn
           | Some spec =>
               match non_blank (ts_name spec) with
               | None => Err validation_exn
               | Some name => add_new name (spec, tl_impl c) tools
               end
           end
  end.

Definition get_tool (name : value) (tools : list (text * (ToolSpec * Impl))) : result exn Impl :=
  match non_blank name with
  | None => Err validation_exn
  | Some name =>
      match alist_get name tools with
      | None => Err (App (raise_class NotFoundError))
      | Some (_, i) => Ok i
      end
  end.

Definition specs (tools : list (text * (ToolSpec * Impl))) : list ToolSpec :=
  (λ e, e.2.1) <$> sorted_items tools.

Record DiscoveredTool := mk_DiscoveredTool {
  dt_name : value; dt_description : text; dt_parameters : list (text * json); dt_source : text
}.

(** [DynamicToolCatalog] *)
Variable list_tools : ExecutionContext → eff W exn (list DiscoveredTool).
Variable invoke_tool : ExecutionContext → text → list (text * json) → eff W exn (list (text * json)).

Definition is_static (tools : list (text * (ToolSpec * Impl))) (name : text) : bool :=
  existsb (λ s, match ts_name s with VStr n => bool_decide (n = name) | _ => false end) (specs tools).

(** Which of the discovered tools join the static ones. *)
Definition visible (tools : list (text * (ToolSpec * Impl))) (t : DiscoveredTool) : bool :=
  match non_blank (dt_name t) with Some name => negb (is_static tools name) | None => false end.

Definition list_all (tools : list (text * (ToolSpec * Impl))) (ctx : ExecutionContext) : eff W exn (list ToolSpec) :=
  found ← list_tools ctx;
  eff_ret _ (specs tools ++
    ((λ t, mk_ToolSpec (dt_name t) (dt_description t) (dt_parameters t)) <$> List.filter (visible tools) found)).

Definition invoke (tools : list (text * (ToolSpec * Impl))) (ctx : ExecutionContext) (name : text)
    (args : list (text * json)) : eff W exn (list (text * json)) :=
  if is_static tools name then i ← eff_lift (get_tool (VStr name) tools); run_tool i args
  else invoke_tool ctx name args.
End Tools.

(** ** Workflows *)

Definition MAX_STEPS : nat := 10.

(** A definition as it is handed in; [None] for a step, or a tuple of steps, of another type. *)
Record RawStep := mk_RawStep { raw_agent_key : value; raw_input_map : value }.
Record RawDefinition := mk_RawDefinition {
  raw_key : value; raw_name : value; raw_steps : option (list (option RawStep))
}.

Record WorkflowStep := mk_WorkflowStep { agent_key : text; input_map : list (text * json) }.
Record WorkflowDefinition := mk_WorkflowDefinition {
  wf_key : text; wf_name : value; wf_steps : list WorkflowStep
}.

Definition map_entry (kv : value * value) : result exn (text * json) :=
  match kv with (VStr k, VStr source) => Ok (k, JStr source) | _ => Err validation_exn end.

Definition validate_step (s : option RawStep) : result exn WorkflowStep :=
  match s with
  | None => Err validation_exn
  | Some s =>
      match raw_agent_key s with
      | VStr key =>
          if bool_decide (strip key = []) then Err validation_exn
          else match raw_input_map s with
               | VDict items => entries ← map_result map_entry items; Ok (mk_WorkflowStep key entries)
               | _ => Err validation_exn
               end
      | _ => Err validation_exn
      end
  end.

(** [_validate_steps]; what it has checked is what the engine is typed with. *)
Definition validate_steps (d : RawDefinition) : result exn (list WorkflowStep) :=
  match raw_steps d with
  | None => Err validation_exn
  | Some steps =>
      _ ← raise_if (bool_decide (steps = [])) validation_exn;
      _ ← raise_if (MAX_STEPS <? length steps)%nat validation_exn;
      map_result validate_step steps
  end.

Abbreviation workflows := (list (text * WorkflowDefinition)).

Definition register_workflow (d : option RawDefinition) (defs : workflows) : result exn workflows :=
  match d with
  | None => Err validation_exn
  | Some d =>
      match non_blank (raw_key d) with
      | None => Err validation_exn
      | Some key =>
          steps ← validate_steps d;
          add_new key (mk_WorkflowDefinition key (raw_name d) steps) defs
      end
  end.

Definition get_workflow (key : value) (defs : workflows) : result exn WorkflowDefinition :=
  match non_blank key with
  | None => Err validation_exn
  | Some key =>
      match alist_get key defs with
      | None => Err (App (raise_code NotFoundError "workflow.unknown"))
      | Some d => Ok d
      end
  end.

Definition list_workflows (defs : workflows) : list WorkflowDefinition := snd <$> sorted_items defs.

(** Registering one after the other, those refused left out. *)
Definition register_all (ds : list (option RawDefinition)) (defs : workflows) : workflows :=
  foldl (λ defs d, match register_workflow d defs with Ok defs' => defs' | Err _ => defs end) defs ds.

(** ** What the registries keep *)

Lemma non_blank_Some v t : non_blank v = Some t → v = VStr t ∧ strip t ≠ [].
Proof. destruct v; cbn; [|done..]. case_bool_decide; [done|]. by intros [= ->]. Qed.

Definition sound_step (s : WorkflowStep) : Prop :=
  strip (agent_key s) ≠ [] ∧ Forall (λ kv, ∃ source, kv.2 = JStr source) (input_map s).

Definition sound_definition (d : WorkflowDefinition) : Prop :=
  strip (wf_key d) ≠ [] ∧ (1 ≤ length (wf_steps d) ≤ MAX_STEPS)%nat ∧ Forall sound_step (wf_steps d).

Lemma validate_step_sound s st : validate_step s = Ok st → sound_step st.
Proof.
  unfold validate_step. destruct s as [[k m]|]; cbn; [|done]. destruct k; [|done..].
  case_bool_decide; [done|]. destruct m; [done| |done]. intros He. unresult. split; [done|]. cbn.
  match goal with H : map_result _ _ = Ok _ |- _ => apply map_result_Ok in H as Hall; clear H end.
  induction Hall as [|[k v] y l ys Hk _ IH]; constructor; [|done].
  destruct k, v; try done. injection Hk as <-. by eexists.
Qed.

Lemma validate_steps_sound d steps :
  validate_steps d = Ok steps → (1 ≤ length steps ≤ MAX_STEPS)%nat ∧ Forall sound_step steps.
Proof.
  unfold validate_steps. destruct (raw_steps d) as [raw|]; [|done]. intros He. unresult.
  match goal with H : map_result _ _ = Ok _ |- _ => rename H into Hmap end.
  pose proof (map_result_length _ _ _ Hmap) as Hlen. apply map_result_Ok in Hmap.
  repeat match goal with H : bool_decide _ = false |- _ => apply bool_decide_eq_false in H
         | H : (_ <? _)%nat = false |- _ => apply Nat.ltb_ge in H end.
  split; [destruct raw; [done|]; cbn in *; lia|].
  clear -Hmap. induction Hmap; constructor; [by eapply validate_step_sound|done].
Qed.

Definition sound_workflows (defs : workflows) : Prop :=
  NoDup defs.*1 ∧ Forall (λ e, wf_key e.2 = e.1 ∧ sound_definition e.2) defs.

Lemma register_workflow_sound d defs defs' :
  register_workflow d defs = Ok defs' → sound_workflows defs → sound_workflows defs'.
Proof.
  unfold register_workflow. destruct d as [d|]; [|done].
  destruct (non_blank (raw_key d)) as [key|] eqn:Hk; [|done]. apply non_blank_Some in Hk as [_ Hk].
  intros He [Hnd Hall]. unresult.
  match goal with H : validate_steps _ = Ok _ |- _ => apply validate_steps_sound in H as [Hlen Hsteps] end.
  match goal with H : add_new _ _ _ = Ok _ |- _ => rename H into Hadd end.
  split; [by eapply add_new_keys|]. apply add_new_Ok in Hadd as [_ ->]. apply Forall_app. split; [done|].
  constructor; [|done]. by split.
Qed.

Lemma sorted_items_spec {V} (d : list (text * V)) :
  sorted_items d ≡ₚ d ∧ StronglySorted (λ x y, item_leb x y = true) (sorted_items d).
Proof.
  split; [apply sort_by_Permutation|].
  apply sort_by_sorted; [apply item_leb_total|apply item_leb_trans].
Qed.

(** What reaches the workflow catalog is runnable.  However many definitions are handed in,
    of whatever types and in whatever order, every one that is kept has between one and ten
    steps, each with an agent to ask for and a projection from texts to texts; no key is
    registered twice; looking a kept key up gives that very definition; and the catalog lists
    all of them, by key. *)
Theorem registered_workflows_are_runnable ds :
  let defs := register_all ds [] in
  sound_workflows defs ∧
  (∀ key d, (key, d) ∈ defs → get_workflow (VStr key) defs = Ok d ∧ sound_definition d) ∧
  list_workflows defs ≡ₚ defs.*2 ∧
  StronglySorted (λ x y, ¬ text_lt y x) (wf_key <$> list_workflows defs).
Proof.
  cbn zeta. assert (sound_workflows (register_all ds [])) as Hsound.
  { unfold register_all. assert (sound_workflows []) as Hs by by repeat constructor.
    revert Hs. generalize ([] : workflows). induction ds as [|d ds IH]; intros defs Hs; [done|].
    cbn. apply IH. destruct (register_workflow d defs) as [defs'|e] eqn:Hr; [|done].
    by eapply register_workflow_sound. }
  generalize dependent (register_all ds []). intros defs [Hnd Hall]. rewrite Forall_forall in Hall.
  destruct (sorted_items_spec defs) as [Hperm Hsort]. split_and!; [by split; [|apply Forall_forall]| | |].
  - intros key d Hin. destruct (Hall _ Hin) as [Hk Hd]. cbn in *. subst key.
    split; [|done]. unfold get_workflow, non_blank. destruct Hd as [Hk _].
    rewrite bool_decide_false by done. by rewrite (alist_get_NoDup _ d).
  - unfold list_workflows. by rewrite Hperm.
  - unfold list_workflows. assert (∀ e, e ∈ sorted_items defs → wf_key e.2 = e.1) as Hkeys.
    { intros e He. rewrite Hperm in He. by apply Hall. }
    clear -Hsort Hkeys. induction Hsort as [|x l Hl IH Hx]; cbn; constructor.
    + apply IH. intros e He. apply Hkeys. by right.
    + rewrite Forall_forall in Hx. apply Forall_forall. intros k (d & -> & (e & -> & He)%list_elem_of_fmap)%list_elem_of_fmap.
      specialize (Hx e He). unfold item_leb in Hx. rewrite negb_true_iff in Hx.
      rewrite (Hkeys x), (Hkeys e) by (by constructor). unfold text_lt. congruence.
Qed.

(** *** The plugin loader *)

Section Loading.
Context {Factory : Type}.
Implicit Types (entries : list (text * (AgentMetadata * Factory))) (p : @Plugin Factory).

(** What one folder comes to, on its own. *)
Definition plugin_entry p : list (text * (AgentMetadata * Factory)) :=
  match load_one p with Ok me => [(pl_name p, me)] | Err _ => [] end.
Definition plugin_failure p : list (text * exn) :=
  match load_one p with Ok _ => [] | Err e => [(pl_name p, e)] end.

Lemma snake_case_strip t : snake_case t = true → strip t ≠ [].
Proof.
  destruct t as [|c t]; [done|]. cbn. intros [Hc _]%andb_true_iff Hs.
  assert (py_isspace c = false) as Hsp.
  { unfold is_lower_ascii in Hc. unbool. unfold py_isspace.
    rewrite !bool_decide_false; [done|..]; try lia. set_unfold. lia. }
  unfold strip, lstrip in Hs. cbn in Hs. rewrite Hsp in Hs.
  unfold rstrip in Hs. apply (f_equal (@rev Z)) in Hs. rewrite rev_involutive in Hs.
  cbn in Hs. assert (∀ l, drop_while py_isspace (l ++ [c]) ≠ []) as Hd; [|by eapply Hd].
  intros l. induction l as [|d l IH]; cbn; [by rewrite Hsp|]. by destruct (py_isspace d).
Qed.

Lemma load_one_key p md cls :
  load_one p = Ok (md, cls) → md_key md = VStr (pl_name p) ∧ strip (pl_name p) ≠ [].
Proof.
  unfold load_one. intros He. unresult. repeat case_match; try done; simplify_eq.
  unresult. match goal with H : _ || _ = false |- _ => apply orb_false_elim in H as [Hs Hn] end.
  rewrite negb_false_iff in Hs, Hn. apply bool_decide_eq_true in Hn as ->.
  split; [done|by apply snake_case_strip].
Qed.

Lemma load_plugins_entries plugins entries report :
  NoDup (pl_name <$> plugins) → (∀ p, p ∈ plugins → pl_name p ∉ entries.*1) →
  load_plugins plugins entries report =
    (entries ++ flat_map plugin_entry plugins,
     mk_PluginLoadReport (loaded report ++ (flat_map plugin_entry plugins).*1)
       (failures report ++ flat_map plugin_failure plugins)).
Proof.
  revert entries report; induction plugins as [|p plugins IH]; intros entries report Hnd Hnew.
  { cbn. rewrite !app_nil_r. by destruct report. }
  rewrite fmap_cons in Hnd. apply NoDup_cons in Hnd as [Hp Hnd]. cbn [load_plugins flat_map].
  destruct (load_one p) as [[md cls]|e] eqn:Hone.
  - assert (plugin_entry p = [(pl_name p, (md, cls))]) as -> by (unfold plugin_entry; by rewrite Hone).
    assert (plugin_failure p = []) as -> by (unfold plugin_failure; by rewrite Hone).
    destruct (load_one_key _ _ _ Hone) as [Hkey Hne].
    assert (register_agent (Some md) (Some cls) entries = Ok (entries ++ [(pl_name p, (md, cls))])) as Hreg.
    { unfold register_agent, non_blank. rewrite Hkey, bool_decide_false by done.
      unfold add_new. rewrite bool_decide_false; [done|].
      rewrite (proj2 (alist_get_None _ _)) by (apply Hnew; left). by intros []. }
    cbn [mbind result_bind]. rewrite Hreg. cbn [mbind result_bind].
    rewrite IH; [|done|].
    + cbn [loaded failures app]. rewrite fmap_cons, <- !app_assoc. done.
    + intros q Hq. rewrite fmap_app. intros [Hin|Hin]%elem_of_app; [by eapply Hnew; [right|]|].
      apply list_elem_of_singleton in Hin. cbn in Hin. apply Hp. rewrite <- Hin. by apply list_elem_of_fmap_2.
  - assert (plugin_entry p = []) as -> by (unfold plugin_entry; by rewrite Hone).
    assert (plugin_failure p = [(pl_name p, e)]) as -> by (unfold plugin_failure; by rewrite Hone).
    cbn [mbind result_bind]. rewrite IH; [|done|intros q Hq; apply Hnew; by right].
    cbn [loaded failures app]. by rewrite <- app_assoc.
Qed.

Lemma candidates_names (found : list (@Plugin Factory)) : NoDup (pl_name <$> found) → NoDup (pl_name <$> candidates found).
Proof.
  intros Hnd. unfold candidates. rewrite sort_by_Permutation. revert Hnd.
  induction found as [|p found IH]; [done|]. rewrite fmap_cons. intros [Hp Hnd]%NoDup_cons.
  cbn [List.filter]. destruct (match pl_name p with [] => true | _ => _ end); [|by apply IH].
  rewrite fmap_cons. apply NoDup_cons. split; [|by apply IH]. intros (q & Hq & Hin)%list_elem_of_fmap.
  apply elem_of_list_filter_bool in Hin as [Hin _]. apply Hp. rewrite Hq. by apply list_elem_of_fmap_2.
Qed.
End Loading.

(** A broken plugin costs nothing but itself.  When the folders have different names and
    none of them is registered yet, loading registers exactly the folders that are in order,
    by name, and reports exactly the others with their reasons: what becomes of one folder
    does not depend on the rest.  An agent that loaded can be created from then on; a folder
    that is gone or broken answers [agent.unknown]. *)
Theorem plugins_are_isolated {Factory} (found : list (@Plugin Factory)) entries entries' report :
  NoDup (pl_name <$> found) → (∀ p, p ∈ candidates found → pl_name p ∉ entries.*1) →
  load_into true found entries = Ok (entries', report) →
  entries' = entries ++ flat_map plugin_entry (candidates found) ∧
  report = mk_PluginLoadReport (flat_map plugin_entry (candidates found)).*1
             (flat_map plugin_failure (candidates found)) ∧
  (∀ p md cls, p ∈ candidates found → load_one p = Ok (md, cls) →
     find_agent (VStr (pl_name p)) entries' = Ok cls) ∧
  (∀ key, strip key ≠ [] → key ∉ entries.*1 → key ∉ (flat_map plugin_entry (candidates found)).*1 →
     find_agent (VStr key) entries' = Err (App (raise_code NotFoundError "agent.unknown"))).
Proof.
  intros Hnd Hnew [= Hload]. pose proof (candidates_names _ Hnd) as Hnd'.
  rewrite (load_plugins_entries _ _ _ Hnd' Hnew) in Hload. injection Hload as <- <-. cbn [loaded failures app].
  split_and!; [done|done| |].
  - intros p md cls Hp Hone. unfold find_agent, non_blank.
    destruct (load_one_key _ _ _ Hone) as [_ Hne]. rewrite bool_decide_false by done.
    rewrite alist_get_app, (proj2 (alist_get_None _ _) (Hnew p Hp)).
    assert (alist_get (pl_name p) (flat_map plugin_entry (candidates found)) = Some (md, cls)) as ->; [|done].
    clear Hnew Hnd. induction (candidates found) as [|q l IH]; [by apply not_elem_of_nil in Hp|].
    rewrite fmap_cons in Hnd'. apply NoDup_cons in Hnd' as [Hq Hnd']. cbn [flat_map].
    apply elem_of_cons in Hp as [->|Hp].
    + unfold plugin_entry at 1. rewrite Hone. cbn. by rewrite bool_decide_true.
    + rewrite alist_get_app. unfold plugin_entry at 1.
      destruct (load_one q) as [me|e]; [|by apply IH]. cbn. rewrite bool_decide_false; [by apply IH|].
      intros Heq. apply Hq. rewrite Heq. by apply list_elem_of_fmap_2.
  - intros key Hne Hold Hout. unfold find_agent, non_blank. rewrite bool_decide_false by done.
    rewrite (proj2 (alist_get_None _ _)); [done|]. rewrite fmap_app, elem_of_app. naive_solver.
Qed.

(** ** Worked examples *)

Definition demo_step (agent : text) : option RawStep :=
  Some (mk_RawStep (VStr agent) (VDict [(VStr (txt "text"), VStr (txt "answer"))])).
Definition demo_definition (key : string) (steps : list (option RawStep)) : option RawDefinition :=
  Some (mk_RawDefinition (VStr (txt key)) VOther (Some steps)).

(** One definition in order, one without steps, one with a step of another type, and the first
    key again. *)
Definition demo_definitions : list (option RawDefinition) :=
  [demo_definition "report" [demo_step (txt "rag_agent"); demo_step (txt "image_agent")];
   demo_definition "empty" []; demo_definition "odd" [None]; None;
   demo_definition "report" [demo_step (txt "rag_agent")]; demo_definition "brief" [demo_step (txt "rag_agent")]].

Example registered_workflows_witness :
  fst <$> register_all demo_definitions [] = [txt "report"; txt "brief"] ∧
  wf_key <$> list_workflows (register_all demo_definitions []) = [txt "brief"; txt "report"] ∧
  ∃ d, get_workflow (VStr (txt "report")) (register_all demo_definitions []) = Ok d ∧ sound_definition d.
Proof.
  split; [vm_compute; reflexivity|]. split; [vm_compute; reflexivity|]. eexists.
  eapply (registered_workflows_are_runnable demo_definitions). vm_compute. apply list_elem_of_here.
Defined.

Definition demo_metadata (key : string) : AgentMetadata :=
  mk_AgentMetadata (VStr (txt key)) (txt "name") (txt "1") (txt "description") [] [] [].
Definition demo_plugins : list (@Plugin Z) :=
  [mk_Plugin (txt "rag_agent") (Ok (Some (Some (demo_metadata "rag_agent")))) (Ok [(1, true)]);
   mk_Plugin (txt "broken") (Err (Other "ModuleNotFoundError")) (Ok []);
   mk_Plugin (txt "_shared") (Ok None) (Ok []);
   mk_Plugin (txt "echo") (Ok (Some (Some (demo_metadata "echo")))) (Ok [(2, true)]);
   mk_Plugin (txt "two") (Ok (Some (Some (demo_metadata "two")))) (Ok [(3, true); (4, true)])].

Example plugins_are_isolated_witness :
  ∃ entries report, load_into true demo_plugins [] = Ok (entries, report) ∧
    loaded report = [txt "echo"; txt "rag_agent"] ∧ fst <$> failures report = [txt "broken"; txt "two"] ∧
    find_agent (VStr (txt "rag_agent")) entries = Ok 1.
Proof.
  assert (NoDup (pl_name <$> demo_plugins)) as Hnd by (apply (bool_decide_unpack _); vm_compute; exact I).
  destruct (load_into true demo_plugins []) as [[entries report]|e] eqn:Hload; [|discriminate Hload].
  exists entries, report.
  destruct (plugins_are_isolated demo_plugins [] entries report Hnd (λ p _, not_elem_of_nil _) Hload)
    as (Hent & Hrep & Hfind & _).
  split; [reflexivity|]. split; [rewrite Hrep; vm_compute; reflexivity|].
  split; [rewrite Hrep; vm_compute; reflexivity|].
  apply (Hfind (mk_Plugin (txt "rag_agent") (Ok (Some (Some (demo_metadata "rag_agent")))) (Ok [(1, true)]))
           (demo_metadata "rag_agent")); [|vm_compute; reflexivity].
  vm_compute. right. right. left.
Defined.
