(* ===== verification/Workflow.v ===== *)
(** * Workflow: driving an agent, and a pipeline of agents

    [framework/agent_runtime/base_agent.py], [lifecycle.py] and [executor.py], and
    [framework/workflows/engine.py].  A computation that is awaited may raise or be
    cancelled; only the former is an [Exception] the code catches. *)

From S2P Require Import Prelude Text Calendar Errors Framework Files Keyset Events Wire Registries.

Open Scope Z_scope.

(** ** Agents *)

Inductive stop : Type := Raised (e : exn) | Cancelled.

Abbreviation Json := (list (text * json)).

Record AgentRequest := mk_AgentRequest {
  rq_conversation_id : option text; rq_input : Json; rq_stream : bool; rq_space_id : option text
}.

Record AgentEvent := mk_AgentEvent { ev_type : text; ev_data : Json }.

Inductive AgentLifecycle : Type := CREATED | INITIALIZED | RUNNING | COMPLETED | FAILED | DISPOSED.

#[export] Instance AgentLifecycle_eq_dec : EqDecision AgentLifecycle.
Proof. solve_decision. Defined.

(** One instance: what its three methods do to the world.  [run] is a generator: the events it
    yields, each with the world at that moment, and how it ends. *)
Record BaseAgent (W : Type) := mk_BaseAgent {
  initialize : eff W stop unit;
  run : AgentRequest → W → list (AgentEvent * W) * result stop unit * W;
  dispose : eff W stop unit
}.
Arguments mk_BaseAgent {W}.
Arguments initialize {W}.
Arguments run {W}.
Arguments dispose {W}.

(** What a drive shows: the transitions it records, those it records as a failure, and the
    events it streams. *)
Inductive shown : Type :=
  | Transition (s : AgentLifecycle)
  | Warned (s : AgentLifecycle)
  | Yields (e : AgentEvent).

(** The human text of an error is a parameter. *)
Class Details := { detail : app_error → text }.

Section Executor.
Context {W : Type} `{Details}.

Definition error_data (exc : exn) : Json :=
  match exc with
  | App e => [(txt "code", JStr (txt (err_code e))); (txt "status", JInt (err_status e)); (txt "detail", JStr (detail e))]
  | Other _ => [(txt "code", JStr (txt "common.internal")); (txt "status", JInt 500);
                (txt "detail", JStr (txt "internal error"))]
  end.

(** [_error_event] of the executor. *)
Definition error_event (exc : exn) : AgentEvent :=
  mk_AgentEvent (txt "error")
    (error_data exc ++
     match exc with
     | App e =>
         match err_class e, err_retry_after_s e with
         | RateLimitedError, Some s => [(txt "retry_after_s", JInt s)]
         | _, _ => []
         end
     | Other _ => []
     end).

Abbreviation drive_result := (list shown * result stop unit * W)%type.

(** [finally: await self._dispose(agent, key)] *)
Definition finally_dispose (agent : BaseAgent W) (t : list shown) (r : result stop unit) (w : W) : drive_result :=
  match dispose agent w with
  | (Ok _, w') => (t ++ [Transition DISPOSED], r, w')
  | (Err (Raised _), w') => (t ++ [Warned DISPOSED], r, w')
  | (Err Cancelled, w') => (t, Err Cancelled, w')
  end.

(** The events up to where the client leaves, if it does: at the yield number [n]. *)
Definition left_at (taken : option nat) (events : list (AgentEvent * W)) : option (list AgentEvent * W) :=
  match taken with
  | Some (S n) => match events !! n with Some (_, w) => Some (fst <$> take (S n) events, w) | None => None end
  | _ => None
  end.

(** [except Exception]: the failure becomes the last event; a client may leave there too. *)
Definition fail_with (agent : BaseAgent W) (t : list shown) (before : nat) (taken : option nat) (e : exn) (w : W)
    : drive_result :=
  finally_dispose agent (t ++ [Warned FAILED; Yields (error_event e)])
    (if bool_decide (taken = Some (S before)) then Err Cancelled else Ok tt) w.

(** [drive]; [taken] is the number of events after which the client hangs up, which closes the
    generator where it stands.  A generator nobody ever asked for an event does not run. *)
Definition drive (agent : BaseAgent W) (req : AgentRequest) (taken : option nat) (w : W) : drive_result :=
  if bool_decide (taken = Some O) then ([], Err Cancelled, w)
  else
    let t := [Transition CREATED] in
    match initialize agent w with
    | (Err (Raised e), w1) => fail_with agent t 0 taken e w1
    | (Err Cancelled, w1) => finally_dispose agent t (Err Cancelled) w1
    | (Ok _, w1) =>
        let t := t ++ [Transition INITIALIZED; Transition RUNNING] in
        let '(events, r, w2) := run agent req w1 in
        match left_at taken events with
        | Some (seen, w3) => finally_dispose agent (t ++ (Yields <$> seen)) (Err Cancelled) w3
        | None =>
            let t := t ++ (Yields <$> (fst <$> events)) in
            match r with
            | Ok _ => finally_dispose agent (t ++ [Transition COMPLETED]) (Ok tt) w2
            | Err (Raised e) => fail_with agent t (length events) taken e w2
            | Err Cancelled => finally_dispose agent t (Err Cancelled) w2
            end
        end
    end.

Definition yields (t : list shown) : list AgentEvent :=
  omap (λ s, match s with Yields e => Some e | _ => None end) t.
Definition states (t : list shown) : list AgentLifecycle :=
  omap (λ s, match s with Transition s => Some s | Warned FAILED => Some FAILED | _ => None end) t.

(** ** The engine *)

(** [AgentDepsProvider] and [AgentRegistry.create]. *)
Context {Deps : Type}.
Record EngineConfig := mk_EngineConfig {
  for_agent : text → eff W stop Deps;
  create : text → ExecutionContext → Deps → eff W stop (BaseAgent W)
}.

Definition lift_stop {A} (r : result exn A) : eff W stop A := eff_lift (map_err Raised r).

(** The registry of the platform: its factories are the agents' constructors. *)
Definition create_from (entries : list (text * (AgentMetadata * (ExecutionContext → Deps → eff W stop (BaseAgent W)))))
    (key : text) (ctx : ExecutionContext) (deps : Deps) : eff W stop (BaseAgent W) :=
  factory ← lift_stop (find_agent (VStr key) entries);
  factory ctx deps.

(** [dict.update] *)
Definition dict_update (context output : Json) : Json := foldl (λ d kv, alist_set kv.1 kv.2 d) context output.

(** [_project] *)
Fixpoint projected (entries : Json) (context acc : Json) : result exn Json :=
  match entries with
  | [] => Ok acc
  | (field, JStr source) :: entries =>
      match alist_get source context with
      | Some v => projected entries context (alist_set field v acc)
      | None => Err validation_exn
      end
  | _ :: _ => Err validation_exn
  end.

Definition project (input_map context : Json) : result exn Json :=
  if bool_decide (input_map = []) then Ok context else projected input_map context [].

(** [_error_event] of the engine. *)
Definition engine_error_event (exc : exn) : AgentEvent := mk_AgentEvent (txt "error") (error_data exc).

Definition is_error (e : AgentEvent) : bool := bool_decide (ev_type e = txt "error").

Definition has_error (events : list AgentEvent) : bool := existsb is_error events.

(** The data of the last [final] event. *)
Definition step_output (events : list AgentEvent) : option Json :=
  ev_data <$> last (List.filter (λ e, bool_decide (ev_type e = txt "final")) events).

(** Merging a finished step's output onto the blackboard. *)
Definition merge (context : Json) (events : list AgentEvent) : Json :=
  match step_output events with Some out => dict_update context out | None => context end.

(** Between two steps: projection, dependencies, creation. *)
Definition prepare (c : EngineConfig) (ctx : ExecutionContext) (s : WorkflowStep) (context : Json)
    : eff W stop (BaseAgent W * Json) :=
  input ← lift_stop (project (input_map s) context);
  deps ← for_agent c (agent_key s);
  agent ← create c (agent_key s) ctx deps;
  eff_ret _ (agent, input).

Abbreviation stream_result := (list AgentEvent * result stop unit * W)%type.

Fixpoint run_steps (c : EngineConfig) (ctx : ExecutionContext) (steps : list WorkflowStep) (context : Json) (w : W)
    : stream_result :=
  match steps with
  | [] => ([], Ok tt, w)
  | s :: steps =>
      match prepare c ctx s context w with
      | (Err (Raised e), w1) => ([engine_error_event e], Ok tt, w1)
      | (Err Cancelled, w1) => ([], Err Cancelled, w1)
      | (Ok (agent, input), w1) =>
          let '(t, r, w2) := drive agent (mk_AgentRequest None input false None) None w1 in
          match r with
          | Err e => (yields t, Err e, w2)
          | Ok _ =>
              if has_error (yields t) then (yields t, Ok tt, w2)
              else
                let context := merge context (yields t) in
                let '(events, r, w3) := run_steps c ctx steps context w2 in
                (yields t ++ events, r, w3)
          end
      end
  end.

(** [SequentialWorkflowEngine.run] *)
Definition run_workflow (c : EngineConfig) (ctx : ExecutionContext) (d : WorkflowDefinition) (initial_input : Json)
    (w : W) : stream_result :=
  run_steps c ctx (wf_steps d) initial_input w.

(** ** What a drive shows *)

(** The machine of FR-15.  A client that leaves, or a cancellation, takes it from any state to
    [DISPOSED]. *)
Definition may_follow (s s' : AgentLifecycle) : Prop :=
  match s, s' with
  | CREATED, (INITIALIZED | FAILED | DISPOSED) => True
  | INITIALIZED, RUNNING => True
  | RUNNING, (COMPLETED | FAILED | DISPOSED) => True
  | COMPLETED, DISPOSED => True
  | FAILED, DISPOSED => True
  | _, _ => False
  end.

Fixpoint follows (s : AgentLifecycle) (l : list AgentLifecycle) : Prop :=
  match l with [] => True | s' :: l => may_follow s s' ∧ follows s' l end.

Lemma yields_app t t' : yields (t ++ t') = yields t ++ yields t'.
Proof. apply omap_app. Qed.
Lemma states_app t t' : states (t ++ t') = states t ++ states t'.
Proof. apply omap_app. Qed.
Lemma yields_Yields es : yields (Yields <$> es) = es.
Proof. unfold yields. induction es as [|e es IH]; [done|]. cbn. f_equal. exact IH. Qed.
Lemma states_Yields es : states (Yields <$> es) = [].
Proof. unfold states. induction es as [|e es IH]; [done|]. cbn. exact IH. Qed.

Implicit Types (agent : BaseAgent W) (t : list shown).

(** The disposal shows at most one thing, and nothing to the client. *)
Definition disposal (agent : BaseAgent W) (w : W) : list shown :=
  match (dispose agent w).1 with
  | Ok _ => [Transition DISPOSED]
  | Err (Raised _) => [Warned DISPOSED]
  | Err Cancelled => []
  end.
Definition disposed (agent : BaseAgent W) (w : W) : list AgentLifecycle :=
  match (dispose agent w).1 with Ok _ => [DISPOSED] | Err _ => [] end.
Definition after_disposal (agent : BaseAgent W) (w : W) (r : result stop unit) : result stop unit :=
  match (dispose agent w).1 with Err Cancelled => Err Cancelled | _ => r end.

Lemma finally_dispose_eq agent t r w :
  finally_dispose agent t r w = (t ++ disposal agent w, after_disposal agent w r, (dispose agent w).2).
Proof.
  unfold finally_dispose, disposal, after_disposal.
  destruct (dispose agent w) as [[[]|[e|]] w']; [done|done|]. by rewrite app_nil_r.
Qed.

Lemma yields_disposal agent w : yields (disposal agent w) = [].
Proof. unfold disposal. by destruct (dispose agent w).1 as [[]|[]]. Qed.
Lemma states_disposal agent w : states (disposal agent w) = disposed agent w.
Proof. unfold disposal, disposed. by destruct (dispose agent w).1 as [[]|[]]. Qed.

(** How a drive goes, the disposal left out: what it shows before, how it ends, and the world
    it disposes in. *)
Definition before_disposal (agent : BaseAgent W) (req : AgentRequest) (taken : option nat) (w : W) : drive_result :=
  let t := [Transition CREATED] in
  let failed t n e w := (t ++ [Warned FAILED; Yields (error_event e)],
                         if bool_decide (taken = Some (S n)) then Err Cancelled else Ok tt, w) in
  match initialize agent w with
  | (Err (Raised e), w1) => failed t 0%nat e w1
  | (Err Cancelled, w1) => (t, Err Cancelled, w1)
  | (Ok _, w1) =>
      let t := t ++ [Transition INITIALIZED; Transition RUNNING] in
      let '(events, r, w2) := run agent req w1 in
      match left_at taken events with
      | Some (seen, w3) => (t ++ (Yields <$> seen), Err Cancelled, w3)
      | None =>
          let t := t ++ (Yields <$> (fst <$> events)) in
          match r with
          | Ok _ => (t ++ [Transition COMPLETED], Ok tt, w2)
          | Err (Raised e) => failed t (length events) e w2
          | Err Cancelled => (t, Err Cancelled, w2)
          end
      end
  end.

Lemma drive_eq agent req taken w : taken ≠ Some O →
  drive agent req taken w =
    let '(t, r, w1) := before_disposal agent req taken w in
    (t ++ disposal agent w1, after_disposal agent w1 r, (dispose agent w1).2).
Proof.
  intros Ht. unfold drive, before_disposal, fail_with. rewrite bool_decide_false by done.
  destruct (initialize agent w) as [[[]|[e|]] w1]; cbn zeta; [|apply finally_dispose_eq..].
  destruct (run agent req w1) as [[events r] w2].
  destruct (left_at taken events) as [[seen w3]|]; [apply finally_dispose_eq|].
  destruct r as [[]|[e|]]; apply finally_dispose_eq.
Qed.

Lemma yields_Transition s t : yields (Transition s :: t) = yields t.
Proof. done. Qed.
Lemma yields_Warned s t : yields (Warned s :: t) = yields t.
Proof. done. Qed.
Lemma yields_one e t : yields (Yields e :: t) = e :: yields t.
Proof. done. Qed.
Lemma yields_nil : yields [] = [].
Proof. done. Qed.

Ltac show := repeat progress (rewrite ?states_app, ?yields_app, ?states_Yields, ?yields_Yields, ?states_disposal, ?yields_disposal,
  ?yields_Transition, ?yields_Warned, ?yields_one, ?yields_nil, ?app_nil_r; cbn [app]).

Lemma left_at_take taken events :
  match left_at taken events with
  | Some (seen, _) => ∃ n, taken = Some (S n) ∧ (n < length events)%nat ∧ seen = take (S n) events.*1
  | None => match taken with Some (S n) => (length events ≤ n)%nat | _ => True end
  end.
Proof.
  unfold left_at. destruct taken as [[|n]|]; [done| |done]. destruct (events !! n) as [[e w]|] eqn:Hn.
  - exists n. split_and!; [done|by eapply lookup_lt_Some|by rewrite fmap_take].
  - by apply lookup_ge_None in Hn.
Qed.

(** The states of a drive, up to its disposal. *)
Lemma before_states agent req taken w :
  let '(t, r, _) := before_disposal agent req taken w in
  (∃ l, states t = CREATED :: l ∧ follows CREATED (l ++ [DISPOSED])) ∧
  (∀ e, r ≠ Err (Raised e)) ∧
  (r = Ok tt → COMPLETED ∈ states t ∧ FAILED ∉ states t ∨
               FAILED ∈ states t ∧ COMPLETED ∉ states t ∧ ∃ own e, yields t = own ++ [error_event e]).
Proof.
  unfold before_disposal. destruct (initialize agent w) as [[[]|[e|]] w1]; cbn zeta.
  - destruct (run agent req w1) as [[events r] w2].
    destruct (left_at taken events) as [[seen w3]|]; [show; split_and!; [eexists; split; [cbn; reflexivity|]; cbn; tauto|done|done]|].
    destruct r as [[]|[e|]]; show; (split_and!; [eexists; split; [cbn; reflexivity|]; cbn; tauto| |]).
    + done.
    + intros _. left. cbn. set_solver.
    + intros e'. by case_bool_decide.
    + intros _. right. cbn. split_and!; [set_solver..|]. by exists events.*1, e.
    + done.
    + done.
  - show. split_and!; [eexists; split; [cbn; reflexivity|]; cbn; tauto| |].
    + intros e'. by case_bool_decide.
    + intros _. right. cbn. split_and!; [set_solver..|]. by exists [], e.
  - split_and!; [by exists []|done|done].
Qed.

(** A client that leaves has seen the beginning of what it would have seen. *)
Lemma before_yields agent req n w :
  yields (before_disposal agent req (Some (S n)) w).1.1 = take (S n) (yields (before_disposal agent req None w).1.1).
Proof.
  unfold before_disposal. destruct (initialize agent w) as [[[]|[e|]] w1]; cbn zeta; cbn [fst]; show;
    [|by rewrite firstn_cons, take_nil|done].
  destruct (run agent req w1) as [[events r] w2].
  pose proof (left_at_take (Some (S n)) events) as Hleft.
  destruct (left_at (Some (S n)) events) as [[seen w3]|] eqn:Hl.
  - destruct Hleft as (m & [= <-] & Hlen & ->). cbn [left_at fst app].
    destruct r as [[]|[e|]]; cbn [fst app]; show; [done| |done].
    rewrite (take_app_le _ [_]); [done|]. by rewrite length_fmap.
  - cbn [left_at app].
    destruct r as [[]|[e|]]; cbn [fst app]; show; rewrite take_ge; rewrite ?length_app, ?length_fmap; cbn; (done || lia).
Qed.

(** C20: an agent is always disposed, exactly once and last.  From the first event asked for, a
    drive walks the states of the lifecycle from [CREATED]; whatever happens -- the agent fails
    while it starts or while it streams, the client hangs up, the task is cancelled -- the
    world it leaves is the one [dispose] leaves.  No exception comes out of it: a drive that
    ends by itself either completed, or failed and said so in its last event.  A client that
    leaves after [n] events has seen the first [n] of what it would have seen. *)
Theorem drives_always_dispose agent req taken w t r w' :
  taken ≠ Some O → drive agent req taken w = (t, r, w') →
  (∃ w1 l, w' = (dispose agent w1).2 ∧ states t = CREATED :: l ++ disposed agent w1 ∧
           follows CREATED (l ++ [DISPOSED])) ∧
  (∀ e, r ≠ Err (Raised e)) ∧
  (r = Ok tt → COMPLETED ∈ states t ∧ FAILED ∉ states t ∨
               FAILED ∈ states t ∧ COMPLETED ∉ states t ∧ ∃ own e, yields t = own ++ [error_event e]) ∧
  (∀ n, taken = Some n → yields t = take n (yields (drive agent req None w).1.1)).
Proof.
  intros Ht Hd. pose proof (before_states agent req taken w) as Hb. pose proof (drive_eq agent req None w ltac:(done)) as Hn.
  rewrite drive_eq in Hd by done.
  assert (∀ n, taken = Some n → yields (before_disposal agent req taken w).1.1 =
                                take n (yields (before_disposal agent req None w).1.1)) as Hy.
  { intros [|n] ->; [done|apply before_yields]. }
  rewrite Hn. destruct (before_disposal agent req None w) as [[tn rn] wn].
  destruct (before_disposal agent req taken w) as [[t0 r0] w1]. injection Hd as <- <- <-.
  destruct Hb as ((l & Hl & Hf) & Hr & Hok). cbn [fst] in *. show.
  assert (∀ s, s ≠ DISPOSED → s ∈ states t0 ++ disposed agent w1 ↔ s ∈ states t0) as Hs.
  { intros s Hs. rewrite elem_of_app. unfold disposed. destruct (dispose agent w1).1; set_solver. }
  rewrite !Hs by done. split_and!.
  - exists w1, l. rewrite Hl. done.
  - intros e. unfold after_disposal. by destruct (dispose agent w1).1 as [?|[]].
  - intros Ha. apply Hok. unfold after_disposal in Ha. by destruct (dispose agent w1).1 as [?|[]].
  - intros n Hn'. by apply Hy.
Qed.

(** ** What a pipeline shows *)

Lemma drive_never_raises agent req w t r w' : drive agent req None w = (t, r, w') → ∀ e, r ≠ Err (Raised e).
Proof.
  rewrite drive_eq by done. pose proof (before_states agent req None w) as Hb.
  destruct (before_disposal agent req None w) as [[t0 r0] w1]. intros [= <- <- <-] e.
  unfold after_disposal. destruct Hb as (_ & Hb & _). by destruct (dispose agent w1).1 as [?|[]].
Qed.

(** How a run of [steps] from [context] ended: where it stopped, and what it had finished. *)
Definition stopped_at c ctx (steps : list WorkflowStep) (context : Json) (w : W) (events : list AgentEvent)
    (r : result stop unit) (w' : W) : Prop :=
  ∃ finished segments rest seg w1,
    steps = finished ++ rest ∧ length segments = length finished ∧ events = concat segments ++ seg ∧
    Forall (λ s, has_error s = false) segments ∧
    (∀ other, run_steps c ctx (finished ++ other) context w =
       let '(evs, r, w2) := run_steps c ctx other (foldl merge context segments) w1 in
       (concat segments ++ evs, r, w2)) ∧
    match rest with
    | [] => seg = [] ∧ r = Ok tt
    | s :: _ => (r = Err Cancelled ∨ has_error seg = true) ∧
                ∀ other, run_steps c ctx (finished ++ s :: other) context w = (events, r, w')
    end.

Lemma stopped_here c ctx s steps context w events r w' :
  (∀ other, run_steps c ctx (s :: other) context w = (events, r, w')) →
  r = Err Cancelled ∨ has_error events = true → stopped_at c ctx (s :: steps) context w events r w'.
Proof.
  intros Hall He. exists [], [], (s :: steps), events, w. split_and!; try done.
  intros other. cbn. by destruct (run_steps c ctx other context w) as [[? ?] ?].
Qed.

Lemma stopped_later c ctx s steps context w segment w1 events r w' :
  has_error segment = false →
  (∀ other, run_steps c ctx (s :: other) context w =
     let '(evs, r, w2) := run_steps c ctx other (merge context segment) w1 in (segment ++ evs, r, w2)) →
  stopped_at c ctx steps (merge context segment) w1 events r w' →
  stopped_at c ctx (s :: steps) context w (segment ++ events) r w'.
Proof.
  intros He Hgo (finished & segments & rest & seg & w2 & -> & Hlen & -> & Hall & Hmore & Hlast).
  exists (s :: finished), (segment :: segments), rest, seg, w2.
  split_and!; [done|by cbn; rewrite Hlen|cbn; by rewrite <- app_assoc|by constructor| |].
  - intros other. cbn [app]. rewrite Hgo, Hmore. cbn [foldl concat].
    destruct (run_steps c ctx other _ w2) as [[? ?] ?]. by rewrite <- app_assoc.
  - destruct rest as [|s' rest]; [done|]. destruct Hlast as [Hl Hsame]. split; [done|].
    intros other. cbn [app]. by rewrite Hgo, Hsame.
Qed.

Lemma run_steps_stopped c ctx steps context w events r w' :
  run_steps c ctx steps context w = (events, r, w') →
  (∀ e, r ≠ Err (Raised e)) ∧ stopped_at c ctx steps context w events r w'.
Proof.
  revert context w events r w'. induction steps as [|s steps IH]; intros context w events r w' Hrun.
  { injection Hrun as <- <- <-. split; [done|]. exists [], [], [], [], w.
    split_and!; try done. intros other. cbn. by destruct (run_steps c ctx other context w) as [[? ?] ?]. }
  cbn [run_steps] in Hrun.
  destruct (prepare c ctx s context w) as [[[agent input]|[e|]] w1] eqn:Hprep;
    [|injection Hrun as <- <- <-; split; [done|]; apply stopped_here; [cbn; by rewrite Hprep|auto]..].
  destruct (drive agent _ None w1) as [[t r0] w2] eqn:Hdrive.
  pose proof (drive_never_raises _ _ _ _ _ _ Hdrive) as Hr0.
  destruct r0 as [[]|e];
    [|injection Hrun as <- <- <-; split; [done|]; apply stopped_here; [cbn; by rewrite Hprep, Hdrive|
      left; destruct e; [by destruct (Hr0 e)|done]]].
  destruct (has_error (yields t)) eqn:Herr.
  { injection Hrun as <- <- <-. split; [done|]. apply stopped_here; [cbn; by rewrite Hprep, Hdrive, Herr|by right]. }
  destruct (run_steps c ctx steps (merge context (yields t)) w2) as [[evs r1] w3] eqn:Hrest.
  injection Hrun as <- <- <-. apply IH in Hrest as [Hr Hat]. split; [done|].
  eapply stopped_later; [done| |done]. intros other. cbn. by rewrite Hprep, Hdrive, Herr.
Qed.

(** A pipeline stops at its first failure, and what it did before stands.  The steps split
    into those that finished and the rest; the events are those of the finished steps, none of
    which is an error, followed by those of the step it stopped at.  The finished steps have
    merged their outputs onto the initial input in order, and any other steps put in place of
    the rest would go on from there.  When nothing is left the run is complete; otherwise the
    step it stopped at ended in an error event or was cancelled, and what comes after that step
    has no effect whatever.  No exception comes out of a run. *)
Theorem pipeline_stops_at_first_failure c ctx d initial_input w events r w' :
  run_workflow c ctx d initial_input w = (events, r, w') →
  (∀ e, r ≠ Err (Raised e)) ∧
  ∃ finished segments rest seg w1,
    wf_steps d = finished ++ rest ∧ length segments = length finished ∧ events = concat segments ++ seg ∧
    Forall (λ s, has_error s = false) segments ∧
    (∀ other, run_steps c ctx (finished ++ other) initial_input w =
       let '(evs, r, w2) := run_steps c ctx other (foldl merge initial_input segments) w1 in
       (concat segments ++ evs, r, w2)) ∧
    match rest with
    | [] => seg = [] ∧ r = Ok tt
    | s :: _ => (r = Err Cancelled ∨ has_error seg = true) ∧
                ∀ other, run_steps c ctx (finished ++ s :: other) initial_input w = (events, r, w')
    end.
Proof. apply run_steps_stopped. Qed.
End Executor.

(** ** Worked examples *)

(** A world that notes which agents were disposed. *)
#[local] Instance demo_details : Details := { detail e := txt (err_code e) }.

Definition demo_agent (name : string) (events : list AgentEvent) (r : result stop unit) : BaseAgent (list text) :=
  mk_BaseAgent (λ w, (Ok tt, w)) (λ _ w, ((λ e, (e, w)) <$> events, r, w)) (λ w, (Ok tt, w ++ [txt name])).

Definition demo_request : AgentRequest := mk_AgentRequest None [] false None.
Definition demo_token (s : string) : AgentEvent := mk_AgentEvent (txt "token") [(txt "text", JStr (txt s))].
Definition demo_failing : BaseAgent (list text) :=
  demo_agent "rag_agent" [demo_token "a"; demo_token "b"; demo_token "c"] (Err (Raised (Other "KeyError"))).

(** The client leaves at the second token of an agent that would fail after the third. *)
Example drives_always_dispose_witness :
  ∃ t r, drive demo_failing demo_request (Some 2%nat) [] = (t, r, [txt "rag_agent"]) ∧
    yields t = [demo_token "a"; demo_token "b"] ∧ states t = [CREATED; INITIALIZED; RUNNING; DISPOSED] ∧
    (∀ n, Some 2%nat = Some n → yields t = take n (yields (drive demo_failing demo_request None []).1.1)).
Proof.
  destruct (drive demo_failing demo_request (Some 2%nat) []) as [[t r] w'] eqn:Hd.
  pose proof Hd as Hc. vm_compute in Hc. injection Hc as <- <- <-. eexists _, _.
  split; [reflexivity|]. split; [reflexivity|]. split; [reflexivity|].
  exact (proj2 (proj2 (proj2 (drives_always_dispose demo_failing demo_request (Some 2%nat) [] _ _ _ ltac:(discriminate) Hd)))).
Defined.

Definition demo_final (k v : string) : AgentEvent := mk_AgentEvent (txt "final") [(txt k, JStr (txt v))].

(** Three steps; the second fails. *)
Definition demo_config : EngineConfig (W := list text) (Deps := unit) :=
  mk_EngineConfig (λ _ w, (Ok tt, w))
    (λ key _ _ w, (Ok (if bool_decide (key = txt "image_agent") then demo_agent "image_agent" [] (Err (Raised (Other "KeyError")))
                       else demo_agent "rag_agent" [demo_final "answer" "a cat"] (Ok tt)), w)).
Definition demo_workflow : WorkflowDefinition :=
  mk_WorkflowDefinition (txt "report") VOther
    [mk_WorkflowStep (txt "rag_agent") []; mk_WorkflowStep (txt "image_agent") [(txt "prompt", JStr (txt "answer"))];
     mk_WorkflowStep (txt "rag_agent") []].

Example pipeline_stops_at_first_failure_witness :
  ∃ events w', run_workflow demo_config demo_ctx demo_workflow [] [] = (events, Ok tt, w') ∧
    ev_type <$> events = [txt "final"; txt "error"] ∧ w' = [txt "rag_agent"; txt "image_agent"] ∧
    ∃ finished segments rest seg, wf_steps demo_workflow = finished ++ rest ∧ events = concat segments ++ seg ∧
      length segments = length finished.
Proof.
  destruct (run_workflow demo_config demo_ctx demo_workflow [] []) as [[events r] w'] eqn:Hrun.
  pose proof (pipeline_stops_at_first_failure _ _ _ _ _ _ _ _ Hrun)
    as (_ & finished & segments & rest & seg & w1 & Hs & Hl & He & _).
  vm_compute in Hrun. injection Hrun as <- <- <-. eexists _, _.
  split; [reflexivity|]. split; [reflexivity|]. split; [reflexivity|].
  exists finished, segments, rest, seg. auto.
Defined.
