(* ===== verification/Engine.v ===== *)
(** * Engine: one pass of a stream consumer

    [infrastructure/messaging/consumers/engine.py], up to [run_once]: decoding, the
    per-message policy, the dealing of a batch into lanes and the interleaved run of
    those lanes.  A lane has two places where another may come in between: while the
    handler runs, and between the handler and the acknowledgement. *)

From S2P Require Import Prelude Text Calendar Errors Framework Files Events Wire Streams.

Open Scope Z_scope.

(** [type(exc).__name__] and [str(exc)]. *)
Class ExnText := { exn_name : exn → text; exn_str : exn → text }.

(** The job-scoped [ExecutionContext]: the dataclass checks no types, so it holds
    whatever the envelope did; user, roles and request id are always empty. *)
Record JobContext := mk_JobContext { job_workspace_id : json; job_correlation_id : json }.

Definition EventHandler (W : Type) : Type := JobContext → list (text * json) → eff W exn unit.

Record Subscription (W : Type) := mk_Subscription {
  sub_stream : text;
  sub_group : text;
  sub_handlers : list (text * EventHandler W)
}.
Arguments mk_Subscription {W}.
Arguments sub_stream {W}.
Arguments sub_group {W}.
Arguments sub_handlers {W}.

(** [bool(value)]; a decimal below half the least subnormal double reads as [0.0]. *)
Definition truthy (j : json) : bool :=
  match j with
  | JNull => false
  | JBool b => b
  | JInt n => negb (n =? 0)
  | JFloat m e => negb ((m =? 0) || ((e <? 0) && (Z.abs m * 2 ^ 1075 <=? 10 ^ (- e))))
  | JConstant _ => true
  | JStr t => negb (bool_decide (t = []))
  | JArr items => match items with [] => false | _ => true end
  | JObj fields => match fields with [] => false | _ => true end
  end.

Definition get (key : string) (envelope : list (text * json)) : json :=
  default JNull (field (txt key) envelope).

(** [_is_permanent] *)
Definition CLIENT_ERROR_FLOOR : Z := 400.
Definition SERVER_ERROR_FLOOR : Z := 500.
Definition RETRYABLE_CLIENT_ERRORS : list Z := [409; 429].

Definition is_permanent (e : exn) : bool :=
  match e with
  | App a =>
      (CLIENT_ERROR_FLOOR <=? err_status a) && (err_status a <? SERVER_ERROR_FLOOR) &&
      negb (bool_decide (err_status a ∈ RETRYABLE_CLIENT_ERRORS))
  | Other _ => false
  end.

(** Why an entry is moved to the dead-letter stream. *)
Inductive Reason : Type :=
  | EntryTrimmed | MalformedEnvelope | UnroutableEnvelope
  | HandlerRejected (e : exn) | HandlerFailed (e : exn).

Definition reason_text `{ExnText} (r : Reason) : text :=
  let failure label e := take 500 (label ++ txt ": " ++ exn_name e ++ txt ": " ++ exn_str e) in
  match r with
  | EntryTrimmed => txt "entry_trimmed"
  | MalformedEnvelope => txt "malformed_envelope"
  | UnroutableEnvelope => txt "unroutable_envelope"
  | HandlerRejected e => failure (txt "handler_rejected") e
  | HandlerFailed e => failure (txt "handler_failed") e
  end.

(** What [_dispatch] decides about a message, before it acts on it. *)
Inductive Verdict : Type :=
  | Ack (handled : bool)
  | DeadLetter (r : Reason)
  | LeavePending.

Section Decode.
Context `{Interpreter}.

(** [_decode]: only a [ValueError] is caught, so a [RecursionError] escapes. *)
Definition decode (m : StreamMessage) : result exn (option (list (text * json))) :=
  match msg_raw m with
  | None => Ok None
  | Some raw =>
      match loads raw with
      | Ok (JObj fields) => Ok (Some fields)
      | Ok _ => Ok None
      | Err JSONDecodeError | Err DigitsError => Ok None
      | Err RecursionError => Err (Other "RecursionError")
      | Err OutOfFuel => Err (Other "OutOfFuel")
      end
  end.

(** [_entity_key] *)
Definition entity_key (m : StreamMessage) : result exn (text * text) :=
  envelope ← decode m;
  match get "subject" (default [] envelope) with
  | JStr ((_ :: _) as subject) => Ok (msg_stream m, subject)
  | _ => Ok (msg_stream m, msg_entry_id m)
  end.

(** [_lanes]: partition by entity, deal the partitions round-robin. *)
Definition file_under (parts : list (text * text * list StreamMessage))
    (km : text * text * StreamMessage) : list (text * text * list StreamMessage) :=
  alist_set km.1 (default [] (alist_get km.1 parts) ++ [km.2]) parts.

Definition partitions (keyed : list (text * text * StreamMessage))
    : list (text * text * list StreamMessage) := foldl file_under [] keyed.

Fixpoint deal (width index : nat) (parts : list (list StreamMessage))
    (lanes : list (list StreamMessage)) : list (list StreamMessage) :=
  match parts with
  | [] => lanes
  | p :: parts =>
      deal width (S index) parts
        (if (index <? width)%nat then lanes ++ [p]
         else alter (λ l, l ++ p) (index mod width)%nat lanes)
  end.

Definition lanes_of (width : nat) (messages : list StreamMessage)
    : result exn (list (list StreamMessage)) :=
  keyed ← map_result (λ m, k ← entity_key m; Ok (k, m)) messages;
  Ok (deal width 0 (snd <$> partitions keyed) []).
End Decode.

Record EngineConfig := mk_EngineConfig {
  consumer_name : text;
  block_ms : Z;
  batch_count : Z;
  max_deliveries : Z;
  concurrency : nat
}.

(** One lane of a batch: what it has still to do and the message it is busy with. *)
Record Lane := mk_Lane { todo : list StreamMessage; flight : option (StreamMessage * Verdict) }.

Section Engine.
Context {W : Type} `{StreamServer W, Interpreter, ExnText}.
Variable cfg : EngineConfig.

Abbreviation Subs := (list (text * Subscription W)).

(** [subscription.handlers.get(event_type)]: an array or object is not hashable. *)
Definition handler_for (handlers : list (text * EventHandler W)) (event_type : json)
    : result exn (option (EventHandler W)) :=
  match event_type with
  | JStr t => Ok (alist_get t handlers)
  | JArr _ | JObj _ => Err (Other "TypeError")
  | _ => Ok None
  end.

(** [by_stream.get(message.stream)] and the lookup in its handlers. *)
Definition route (by_stream : Subs) (m : StreamMessage) (event_type : json)
    : result exn (option (EventHandler W)) :=
  match alist_get (msg_stream m) by_stream with
  | Some sub => handler_for (sub_handlers sub) event_type
  | None => Ok None
  end.

(** [try: await handler(ctx, envelope)] and its [except]. *)
Definition call_handler (h : EventHandler W) (ctx : JobContext) (envelope : list (text * json))
    (delivery_count : Z) : eff W exn Verdict :=
  λ w, match h ctx envelope w with
       | (Ok _, w') => (Ok (Ack true), w')
       | (Err e, w') =>
           (Ok (if is_permanent e then DeadLetter (HandlerRejected e)
                else if max_deliveries cfg <=? delivery_count
                then DeadLetter (HandlerFailed e) else LeavePending), w')
       end.

(** [_dispatch], up to and including the handler. *)
Definition judge (by_stream : Subs) (m : StreamMessage) : eff W exn Verdict :=
  envelope ← (if msg_trimmed m then mret None else eff_lift (decode m));
  match envelope with
  | None => mret (DeadLetter (if msg_trimmed m then EntryTrimmed else MalformedEnvelope))
  | Some envelope =>
      let event_type := get "type" envelope in
      let workspace := get "workspaceid" envelope in
      let event_id := get "id" envelope in
      if negb (truthy event_type) || negb (truthy workspace) || negb (truthy event_id)
      then mret (DeadLetter UnroutableEnvelope)
      else
        handler ← eff_lift (route by_stream m event_type);
        match handler with
        | None => mret (Ack false)
        | Some h =>
            let correlation := get "correlationid" envelope in
            call_handler h
              (mk_JobContext workspace (if truthy correlation then correlation else event_id))
              envelope (msg_delivery_count m)
        end
  end.

(** The rest of [_dispatch]: what the verdict does, and whether it counts as handled. *)
Definition settle (group : text) (m : StreamMessage) (v : Verdict) : eff W exn bool :=
  match v with
  | Ack handled => _ ← ack (msg_stream m) group (msg_entry_id m); mret handled
  | DeadLetter r =>
      _ ← dead_letter (msg_stream m) group (msg_entry_id m) (msg_raw m) (reason_text r)
            (msg_delivery_count m);
      mret false
  | LeavePending => mret false
  end.

Definition dispatch (group : text) (by_stream : Subs) (m : StreamMessage) : eff W exn bool :=
  v ← judge by_stream m; settle group m v.

(** [_run_lane] *)
Fixpoint run_lane (group : text) (by_stream : Subs) (messages : list StreamMessage)
    : eff W exn Z :=
  match messages with
  | [] => mret 0
  | m :: messages =>
      ok ← dispatch group by_stream m;
      handled ← run_lane group by_stream messages;
      mret ((if ok : bool then 1 else 0) + handled)
  end.

Definition lane_step (group : text) (by_stream : Subs) (l : Lane) : eff W exn (Z * Lane) :=
  match flight l with
  | Some (m, v) =>
      ok ← settle group m v; mret (if ok : bool then 1 else 0, mk_Lane (todo l) None)
  | None =>
      match todo l with
      | [] => mret (0, l)
      | m :: rest => v ← judge by_stream m; mret (0, mk_Lane rest (Some (m, v)))
      end
  end.

(** The lanes of a batch, advanced in the order of a schedule; a lane that raises
    ends the batch. *)
Fixpoint run_schedule (group : text) (by_stream : Subs) (sched : list nat) (lanes : list Lane)
    (handled : Z) : eff W exn (Z * list Lane) :=
  match sched with
  | [] => mret (handled, lanes)
  | i :: sched =>
      match lanes !! i with
      | Some l =>
          '(n, l') ← lane_step group by_stream l;
          run_schedule group by_stream sched (<[i := l']> lanes) (handled + n)
      | None => run_schedule group by_stream sched lanes handled
      end
  end.

Definition start_lane (messages : list StreamMessage) : Lane := mk_Lane messages None.

(** Enough turns for every lane to end. *)
Definition turns (l : Lane) : nat :=
  (2 * length (todo l) + match flight l with Some _ => 1 | None => 0 end)%nat.
Definition to_the_end (lanes : list Lane) : list nat :=
  concat (imap (λ i l, replicate (turns l) i) lanes).

(** [_run_batch]: whatever interleaving the event loop picks first, every lane is run
    to its end. *)
Definition run_batch (sched : list nat) (group : text) (by_stream : Subs)
    (messages : list StreamMessage) : eff W exn Z :=
  ls ← eff_lift (lanes_of (concurrency cfg) messages);
  let lanes := start_lane <$> ls in
  '(handled, _) ← run_schedule group by_stream (sched ++ to_the_end lanes) lanes 0;
  mret handled.

(** [run_once]: the subscriptions regrouped, one read per group. *)
Definition by_group (subscriptions : list (Subscription W)) : list (text * Subs) :=
  foldl (λ groups s,
    alist_set (sub_group s)
      (alist_set (sub_stream s) s (default [] (alist_get (sub_group s) groups))) groups)
    [] subscriptions.

Definition MIN_BATCH_TO_SPLIT : nat := 2%nat.

(** Read one group and dispatch what came. *)
Definition group_pass (sched : list nat) (group : text) (by_stream : Subs) : eff W exn Z :=
  messages ← read by_stream.*1 group (consumer_name cfg) (batch_count cfg) (block_ms cfg);
  if bool_decide (concurrency cfg = 1%nat) || (length messages <? MIN_BATCH_TO_SPLIT)%nat
  then run_lane group by_stream messages
  else run_batch sched group by_stream messages.

Fixpoint run_groups (sched : list nat) (groups : list (text * Subs)) : eff W exn Z :=
  match groups with
  | [] => mret 0
  | (group, by_stream) :: groups =>
      n ← group_pass sched group by_stream;
      handled ← run_groups sched groups;
      mret (n + handled)
  end.

Definition run_once (sched : list nat) (subscriptions : list (Subscription W)) : eff W exn Z :=
  run_groups sched (by_group subscriptions).
End Engine.

(** ** Dealing a batch into lanes *)

Section Lanes.
Context `{Interpreter}.
Implicit Types (ls : list (list StreamMessage)) (msgs : list StreamMessage).

Definition of_key (k : text * text) (keyed : list (text * text * StreamMessage))
    : list StreamMessage := snd <$> List.filter (λ km, bool_decide (km.1 = k)) keyed.

Lemma of_key_snoc k keyed km :
  of_key k (keyed ++ [km]) = of_key k keyed ++ if bool_decide (km.1 = k) then [km.2] else [].
Proof. unfold of_key. rewrite List.filter_app, fmap_app. cbn. by case_bool_decide. Qed.

Lemma partitions_spec keyed :
  NoDup (partitions keyed).*1 ∧
  ∀ k, default [] (alist_get k (partitions keyed)) = of_key k keyed.
Proof.
  induction keyed as [|km keyed [Hnd Hget]] using rev_ind; [split; [constructor|done]|].
  unfold partitions. rewrite foldl_app. cbn [foldl]. fold (partitions keyed). unfold file_under.
  split; [by apply alist_set_keys|]. intros k. rewrite alist_get_set_if, of_key_snoc, <- !Hget.
  case_bool_decide as Hk; cbn; [by rewrite Hk|by rewrite app_nil_r].
Qed.

Lemma partitions_concat keyed : concat (partitions keyed).*2 ≡ₚ keyed.*2.
Proof.
  induction keyed as [|km keyed IH] using rev_ind; [done|].
  unfold partitions. rewrite foldl_app. cbn [foldl]. fold (partitions keyed).
  rewrite fmap_app, <- IH. unfold file_under. destruct km as [k m]. cbn [fst snd fmap list_fmap].
  destruct (partitions_spec keyed) as [Hnd _]. revert Hnd.
  generalize (partitions keyed). intros d Hnd. clear.
  induction d as [|[k1 l] d IH]; cbn; [done|].
  case_bool_decide; cbn.
  - rewrite <- !app_assoc. by rewrite (Permutation_app_comm [m]).
  - rewrite IH. by rewrite <- app_assoc.
Qed.

(** What a filter sees of the lanes while [deal] goes on. *)
Definition seen (q : StreamMessage → bool) ls : list (list StreamMessage) := List.filter q <$> ls.

Lemma deal_unseen q width index parts ls :
  (∀ p, p ∈ parts → List.filter q p = []) →
  ∃ n, seen q (deal width index parts ls) = seen q ls ++ replicate n [].
Proof.
  revert index ls; induction parts as [|p parts IH]; intros index ls Hp; cbn [deal].
  - exists 0%nat. by rewrite app_nil_r.
  - edestruct IH as [n Hn]; [intros; apply Hp; by right|]. rewrite Hn.
    destruct (index <? width)%nat.
    + exists (S n). unfold seen. rewrite fmap_app. cbn. rewrite Hp by left. by rewrite <- app_assoc.
    + exists n. f_equal. unfold seen. apply list_eq. intros i. rewrite !list_lookup_fmap.
      destruct (decide (i = index mod width)%nat) as [->|].
      * rewrite list_lookup_alter_eq. destruct (ls !! _); [|done]. cbn.
        by rewrite List.filter_app, (Hp p), app_nil_r by left.
      * by rewrite list_lookup_alter_ne.
Qed.

Lemma deal_lanes width index parts ls :
  (0 < width)%nat → length ls = (index `min` width)%nat →
  length (deal width index parts ls) = ((index + length parts) `min` width)%nat ∧
  concat (deal width index parts ls) ≡ₚ concat ls ++ concat parts.
Proof.
  intros Hw. revert index ls; induction parts as [|p parts IH]; intros index ls Hl; cbn [deal].
  { rewrite app_nil_r, Nat.add_0_r. done. }
  destruct (index <? width)%nat eqn:E.
  - apply Nat.ltb_lt in E. destruct (IH (S index) (ls ++ [p])) as [-> Hc].
    { rewrite length_app. cbn [length]. lia. }
    split; [cbn [length]; lia|]. rewrite Hc, concat_app. cbn. by rewrite app_nil_r, <- app_assoc.
  - apply Nat.ltb_ge in E.
    destruct (IH (S index) (alter (λ l, l ++ p) (index mod width)%nat ls)) as [-> Hc].
    { rewrite length_alter. lia. }
    split; [cbn [length]; lia|]. rewrite Hc. cbn [concat]. rewrite app_assoc. f_equiv.
    assert (index mod width < length ls)%nat as [l Hlk]%lookup_lt_is_Some.
    { pose proof (Nat.mod_upper_bound index width). lia. }
    clear -Hlk. revert Hlk. generalize (index mod width)%nat. intros i.
    revert i; induction ls as [|l' ls IH]; intros [|i]; cbn; try done.
    + intros [= ->]. rewrite <- !app_assoc. f_equiv. apply Permutation_app_comm.
    + intros Hi. rewrite (IH _ Hi). by rewrite <- app_assoc.
Qed.

(** One partition holds everything the filter sees: so does one lane. *)
Lemma deal_seen q width before p after :
  (0 < width)%nat →
  (∀ p, p ∈ before → List.filter q p = []) → (∀ p, p ∈ after → List.filter q p = []) →
  ∃ i, ∀ j l, deal width 0 (before ++ p :: after) [] !! j = Some l →
    List.filter q l = if bool_decide (j = i) then List.filter q p else [].
Proof.
  intros Hw Hb Ha.
  assert (∀ parts index ls, deal width index (before ++ parts) ls
    = deal width (length before + index) parts (deal width index before ls)) as Hsplit.
  { clear. induction before as [|x before IH]; intros parts index ls; [done|].
    cbn [deal app length]. rewrite IH. f_equal. lia. }
  rewrite Hsplit. cbn [deal].
  destruct (deal_unseen q width 0 before [] Hb) as [n Hn]. cbn in Hn.
  set (ls := deal width 0 before []) in *. set (idx := (length before + 0)%nat) in *.
  set (i := if (idx <? width)%nat then length ls else (idx mod width)%nat).
  match goal with |- context [deal width (S idx) after ?x] => set (ls' := x) end.
  destruct (deal_unseen q width (S idx) after ls' Ha) as [k Hk].
  exists i. intros j l Hj.
  assert (seen q (deal width (S idx) after ls') !! j = Some (List.filter q l)) as Hjs
    by (unfold seen; by rewrite list_lookup_fmap, Hj).
  rewrite Hk in Hjs.
  assert (∀ j l, seen q ls !! j = Some l → l = []) as Hempty.
  { intros j' l' Hl. rewrite Hn in Hl. by apply lookup_replicate_1 in Hl as [-> _]. }
  assert (∀ j l, seen q ls' !! j = Some l → l = if bool_decide (j = i) then List.filter q p else [])
    as Hls'.
  { intros j' l'. subst ls' i. unfold seen. destruct (idx <? width)%nat.
    - rewrite fmap_app. intros [Hl|[Hge Hl]]%lookup_app_Some.
      + rewrite bool_decide_false; [by eapply Hempty|]. apply lookup_lt_Some in Hl.
        rewrite length_fmap in Hl. lia.
      + rewrite length_fmap in *. destruct (j' - length ls)%nat as [|x] eqn:Hx;
          [|by destruct x]. injection Hl as <-.
        by rewrite bool_decide_true by lia.
    - rewrite list_lookup_fmap. intros (x & Hx & ->)%fmap_Some.
      destruct (decide (j' = idx mod width)%nat) as [->|Hne].
      + rewrite list_lookup_alter_eq in Hx. apply fmap_Some in Hx as (y & Hy & ->).
        rewrite bool_decide_true, List.filter_app by done.
        assert (List.filter q y = []) as ->; [|done].
        eapply Hempty. unfold seen. by rewrite list_lookup_fmap, Hy.
      + rewrite list_lookup_alter_ne in Hx by done. rewrite bool_decide_false by done.
        eapply Hempty. unfold seen. by rewrite list_lookup_fmap, Hx. }
  apply lookup_app_Some in Hjs as [Hl|[Hge Hl]]; [by apply Hls' in Hl|].
  apply lookup_replicate_1 in Hl as [Hl _]. rewrite Hl, bool_decide_false; [done|].
  intros ->. unfold seen in Hge. rewrite length_fmap in Hge. subst i ls'.
  destruct (idx <? width)%nat eqn:Ei.
  - rewrite length_app in Hge. cbn in Hge. lia.
  - rewrite length_alter in Hge. apply Nat.ltb_ge in Ei.
    destruct (deal_lanes width 0 before [] Hw) as [Hlen _]; [done|].
    fold ls in Hlen. pose proof (Nat.mod_upper_bound idx width). subst idx. lia.
Qed.

Definition of_entity (k : text * text) (m : StreamMessage) : bool :=
  bool_decide (entity_key m = Ok k).

Lemma keyed_of_entity msgs keyed k :
  map_result (λ m, k ← entity_key m; Ok (k, m)) msgs = Ok keyed →
  keyed.*2 = msgs ∧ of_key k keyed = List.filter (of_entity k) msgs ∧
  Forall (λ km, entity_key km.2 = Ok km.1) keyed.
Proof.
  intros Hall%map_result_Ok. induction Hall as [|m km msgs keyed Hm Hall (IH1 & IH2 & IH3)]; [done|].
  unresult. split_and!.
  - cbn. by f_equal.
  - unfold of_key, of_entity in *. cbn. rewrite H0.
    case_bool_decide as Hk; case_bool_decide as Hk'; cbn; rewrite ?IH2; try done; congruence.
  - by constructor.
Qed.

Lemma lanes_concat width msgs ls :
  (0 < width)%nat → lanes_of width msgs = Ok ls →
  (length ls ≤ width)%nat ∧ concat ls ≡ₚ msgs.
Proof.
  intros Hw. unfold lanes_of. intros H1. unresult. rename x into keyed.
  destruct (deal_lanes width 0 (partitions keyed).*2 [] Hw eq_refl) as [Hlen Hcat].
  split; [lia|]. rewrite Hcat. cbn. rewrite partitions_concat.
  by destruct (keyed_of_entity _ _ ([], []) H0) as (-> & _).
Qed.

(** C11: A batch is dealt into at most [width] lanes that hold its messages exactly once, and
    all messages of one entity are in one lane, in the order they arrived in. *)
Theorem lanes_keep_entity_order width msgs ls :
  (0 < width)%nat → lanes_of width msgs = Ok ls →
  (length ls ≤ width)%nat ∧ concat ls ≡ₚ msgs ∧
  ∀ k, ∃ i, ∀ j l, ls !! j = Some l →
    List.filter (of_entity k) l = if bool_decide (j = i) then List.filter (of_entity k) msgs else [].
Proof.
  intros Hw Hls. destruct (lanes_concat _ _ _ Hw Hls) as [? ?]. split; [done|]. split; [done|].
  apply bind_Ok in Hls as (keyed & Hkeyed & [= <-]).
  intros k. destruct (keyed_of_entity _ _ k Hkeyed) as (_ & <- & Hkeys).
  destruct (partitions_spec keyed) as [Hnd Hget].
  assert (∀ k' p, (k', p) ∈ partitions keyed →
    List.filter (of_entity k) p = if bool_decide (k' = k) then of_key k keyed else []) as Hpart.
  { intros k' p Hp. apply alist_get_NoDup in Hp; [|done].
    specialize (Hget k'). rewrite Hp in Hget. cbn in Hget. subst p.
    unfold of_key. rewrite Forall_forall in Hkeys. case_bool_decide as Hk.
    - subst k'. apply filter_all, Forall_forall. intros m (km & -> & Hkm)%list_elem_of_fmap.
      apply elem_of_list_filter_bool in Hkm as [Hkm Hk]. unbool.
      apply bool_decide_eq_true. by rewrite (Hkeys _ Hkm), Hk.
    - apply filter_none, Forall_forall. intros m (km & -> & Hkm)%list_elem_of_fmap.
      apply elem_of_list_filter_bool in Hkm as [Hkm Hk']. unbool.
      apply bool_decide_eq_false. rewrite (Hkeys _ Hkm), Hk'. congruence. }
  destruct (alist_get k (partitions keyed)) as [p|] eqn:Hp.
  - specialize (Hget k). rewrite Hp in Hget. cbn in Hget. subst p.
    apply alist_get_elem, list_elem_of_split in Hp as (before & after & Hsp).
    rewrite Hsp in Hnd, Hpart |- *. rewrite fmap_app in Hnd. cbn [fmap list_fmap fst] in Hnd.
    apply NoDup_app in Hnd as (_ & Hnb & [Hna _]%NoDup_cons).
    rewrite fmap_app. cbn [fmap list_fmap snd].
    assert (List.filter (of_entity k) (of_key k keyed) = of_key k keyed) as Hown.
    { rewrite (Hpart k (of_key k keyed)); [by rewrite bool_decide_true|].
      apply elem_of_app. right. left. }
    destruct (deal_seen (of_entity k) width before.*2 (of_key k keyed) after.*2 Hw) as [i Hi].
    + intros p ([k' p'] & -> & Hin)%list_elem_of_fmap. cbn. rewrite (Hpart k').
      * rewrite bool_decide_false; [done|]. intros ->.
        apply (Hnb k); [by apply (list_elem_of_fmap_2 fst) in Hin|left].
      * apply elem_of_app. by left.
    + intros p ([k' p'] & -> & Hin)%list_elem_of_fmap. cbn. rewrite (Hpart k').
      * rewrite bool_decide_false; [done|]. intros ->.
        apply Hna. by apply (list_elem_of_fmap_2 fst) in Hin.
      * apply elem_of_app. right. by right.
    + exists i. rewrite Hown in Hi. exact Hi.
  - specialize (Hget k). rewrite Hp in Hget. cbn in Hget. rewrite <- Hget.
    exists 0%nat. intros j l Hl.
    destruct (deal_unseen (of_entity k) width 0 (partitions keyed).*2 []) as [n Hn].
    { intros p ([k' p'] & -> & Hin)%list_elem_of_fmap. cbn. rewrite (Hpart _ _ Hin).
      case_bool_decide; [by rewrite <- Hget|done]. }
    assert (seen (of_entity k) (deal width 0 (partitions keyed).*2 []) !! j
      = Some (List.filter (of_entity k) l)) as Hs by (unfold seen; by rewrite list_lookup_fmap, Hl).
    rewrite Hn in Hs. cbn in Hs. apply lookup_replicate_1 in Hs as [-> _].
    by case_bool_decide.
Qed.
End Lanes.

(** ** A poisoned type *)

Section Poison.
Context {W : Type} `{StreamServer W, Interpreter, ExnText}.
Variable cfg : EngineConfig.

(** An envelope whose [type] is a non-empty JSON array or object is neither dead-lettered
    nor skipped: looking its handler up raises [TypeError], the pass ends there with
    nothing done, and the message stays to be read again. *)
Theorem unhashable_type_escapes g by_stream sub m rest envelope w :
  msg_trimmed m = false → decode m = Ok (Some envelope) →
  (∃ x xs, get "type" envelope = JArr (x :: xs)) ∨ (∃ x xs, get "type" envelope = JObj (x :: xs)) →
  truthy (get "workspaceid" envelope) = true → truthy (get "id" envelope) = true →
  alist_get (msg_stream m) by_stream = Some sub →
  run_lane cfg g by_stream (m :: rest) w = (Err (Other "TypeError"), w).
Proof.
  intros Htrim Hdec Htype Hws Hid Hsub.
  assert (judge cfg by_stream m w = (Err (Other "TypeError"), w)) as Hj.
  { unfold judge, eff_lift, mbind, eff_bind. rewrite Htrim, Hdec. cbn zeta.
    rewrite Hws, Hid. unfold route. rewrite Hsub.
    by destruct Htype as [(x & xs & ->)|(x & xs & ->)]. }
  cbn [run_lane]. unfold dispatch, mbind, eff_bind. by rewrite Hj.
Qed.
End Poison.
