(* ===== verification/Delivery.v ===== *)
(** * Delivery: what a pass does to the messages it reads

    The retry budget of [consumers/engine.py]: whatever the interleaving of a
    batch's lanes, every message a pass reads is acknowledged, dead-lettered, or left
    pending with deliveries to spare; and a completed pass pays a delivery for each entry it
    reads, so that what a consumer owes runs out. *)

From S2P Require Import Prelude Text Calendar Errors Framework Files Events Wire Streams Engine.

Open Scope Z_scope.

Section Delivery.
Context {W : Type} `{StreamServerLaws W, Interpreter, ExnText}.
Variable cfg : EngineConfig.
Implicit Types (w : W) (m : StreamMessage) (v : Verdict) (lanes : list Lane).

(** Handlers leave the streams alone: a module publishes through the outbox only. *)
Definition quiet (by_stream : list (text * Subscription W)) : Prop :=
  ∀ s sub t h ctx env w r w',
    alist_get s by_stream = Some sub → alist_get t (sub_handlers sub) = Some h →
    h ctx env w = (r, w') → view w' = view w.

Definition mkey m : text * text := (msg_stream m, msg_entry_id m).

(** [ok] holds at every state a pass over a group goes through. *)
Record keeps (g : text) (by_stream : list (text * Subscription W)) (ok : W → Prop) : Prop := {
  kp_read : ∀ w ms w', ok w →
    read by_stream.*1 g (consumer_name cfg) (batch_count cfg) (block_ms cfg) w = (Ok ms, w') → ok w';
  kp_judge : ∀ m w v w', ok w → judge cfg by_stream m w = (Ok v, w') → ok w';
  kp_settle : ∀ m v w b w', ok w → settle g m v w = (Ok b, w') → ok w'
}.

Definition anywhere : W → Prop := λ _, True.
Lemma keeps_anywhere g by_stream : keeps g by_stream anywhere.
Proof. by split. Qed.

Section Group.
Variables (g : text) (by_stream : list (text * Subscription W)) (ok : W → Prop).
Hypothesis Hquiet : quiet by_stream.
Hypothesis Hkeeps : keeps g by_stream ok.

Definition held m w : Prop :=
  mk_Pending (msg_entry_id m) (consumer_name cfg) (msg_delivery_count m)
    ∈ pend (view w) (msg_stream m) g.

Definition gone m w : Prop := msg_entry_id m ∉ pe_id <$> pend (view w) (msg_stream m) g.

(** The message was given the verdict, at a state of the pass. *)
Definition judged m v : Prop := ∃ w w', ok w ∧ judge cfg by_stream m w = (Ok v, w').

(** What each verdict leaves behind. *)
Definition settled m v w : Prop :=
  match v with
  | Ack _ => gone m w
  | DeadLetter _ =>
      gone m w ∧ ∃ fs, (dlq_of (msg_stream m), fs) ∈ added (view w) ∧
        dead_letter_for (msg_stream m) g (msg_entry_id m) (msg_raw m) fs
  | LeavePending => held m w
  end.

Lemma judge_view m w r w' : judge cfg by_stream m w = (r, w') → view w' = view w.
Proof.
  unfold judge, eff_lift, mret, eff_ret, mbind, eff_bind.
  destruct (msg_trimmed m); [by intros [= _ <-]|].
  destruct (decode m) as [[env|]|]; try (by intros [= _ <-]).
  cbn zeta. case_match; [by intros [= _ <-]|]. unfold route, handler_for.
  destruct (alist_get (msg_stream m) by_stream) as [sub|] eqn:Hsub; [|by intros [= _ <-]].
  destruct (get "type" env) as [| | | | |t| |]; try (by intros [= _ <-]).
  destruct (alist_get t (sub_handlers sub)) as [h|] eqn:Hh; [|by intros [= _ <-]].
  unfold call_handler. destruct (h _ env w) as [[u|e] w1] eqn:Hrun; intros [= _ <-];
    by eapply Hquiet.
Qed.

(** A message is left pending only while it has deliveries to spare. *)
Lemma judged_leave m : judged m LeavePending → msg_delivery_count m < max_deliveries cfg.
Proof.
  intros (w & w' & _ & Hj). revert Hj. unfold judge, eff_lift, mret, eff_ret, mbind, eff_bind.
  destruct (msg_trimmed m); [done|]. destruct (decode m) as [[env|]|]; try done.
  cbn zeta. case_match; [done|]. destruct (route _ _ _) as [[h|]|]; try done.
  unfold call_handler. destruct (h _ env w) as [[u|e] w1]; [done|].
  destruct (is_permanent e); [done|]. destruct (_ <=? _) eqn:E; [done|]. intros _. by unbool.
Qed.

Lemma elem_of_without id l p : p ∈ without id l ↔ p ∈ l ∧ pe_id p ≠ id.
Proof. unfold without. by rewrite elem_of_list_filter_bool, negb_true_iff, bool_decide_eq_false. Qed.

(** [b'] has the pending lists of [b] less entry [id] of [s]; nothing of the
    dead-letter streams is said here. *)
Definition less (s id : text) (b b' : Broker) : Prop :=
  (∀ s' g', pend b' s' g' = if bool_decide ((s', g') = (s, g)) then without id (pend b s g)
                            else pend b s' g') ∧
  (∀ s' g', s' ≠ dlq_of s → unread b' s' g' = unread b s' g') ∧
  ∃ more, added b' = added b ++ more.

Lemma acks_less s id b b' : acks s g id b tt b' → less s id b b'.
Proof.
  intros (Hel & Had & Hp & Hu). split_and!.
  - intros s' g'. case_bool_decide as Hk; [by injection Hk as -> ->|].
    apply Hel. intros [-> ->]. by apply Hk.
  - intros s' g' _. destruct (decide ((s', g') = (s, g))) as [[= -> ->]|Hk]; [done|].
    apply Hel. intros [-> ->]. by apply Hk.
  - exists []. by rewrite app_nil_r.
Qed.

Lemma moves_less s id fs b b' :
  moves (dlq_of s) fs s g id b tt b' → less s id b b' ∧ (dlq_of s, fs) ∈ added b'.
Proof.
  intros (b1 & i & (Hel & Had & Hp) & Hacks). pose proof (acks_less _ _ _ _ Hacks) as (Hp' & Hu' & more & Had').
  assert (∀ s' g', pend b1 s' g' = pend b s' g') as Hpend.
  { intros s' g'. destruct (decide (s' = dlq_of s)) as [->|Hne]; [apply Hp|by apply Hel]. }
  split; [split_and!|].
  - intros s' g'. by rewrite Hp', !Hpend.
  - intros s' g' Hne. rewrite Hu' by done. by apply Hel.
  - rewrite Had', Had, <- app_assoc. eauto.
  - rewrite Had', Had. apply elem_of_app. left. apply elem_of_app. right. by left.
Qed.

(** Settling a message: nothing, or exactly its own entry leaves the pending list. *)
Lemma settle_Ok m v w b w' :
  settle g m v w = (Ok b, w') →
  (v = LeavePending ∧ w' = w) ∨
  (v ≠ LeavePending ∧ less (msg_stream m) (msg_entry_id m) (view w) (view w') ∧ settled m v w').
Proof.
  unfold settle. destruct v as [h|r|].
  - intros (u & w1 & Hack & Hret)%eff_bind_Ok. injection Hret as _ <-. right. split; [done|].
    apply ack_Ok, acks_less in Hack. split; [done|]. destruct Hack as (Hp & _).
    cbn. unfold gone. rewrite Hp, bool_decide_true by done.
    intros (p & Hid & [_ Hne]%elem_of_without)%list_elem_of_fmap. congruence.
  - intros (u & w1 & Hdl & Hret)%eff_bind_Ok. injection Hret as _ <-. right. split; [done|].
    apply dead_letter_Ok in Hdl as (fs & Hfs & Hm). apply moves_less in Hm as [Hl Hin].
    split; [done|]. destruct Hl as (Hp & _). split; [|by exists fs].
    unfold gone. rewrite Hp, bool_decide_true by done.
    intros (p & Hid & [_ Hne]%elem_of_without)%list_elem_of_fmap. congruence.
  - intros [= _ <-]. by left.
Qed.

(** What is known of another message survives. *)
Lemma held_less m s id w w' :
  less s id (view w) (view w') → mkey m ≠ (s, id) → held m w → held m w'.
Proof.
  intros (Hp & _) Hne. unfold held. rewrite Hp. case_bool_decide as Hk; [|done].
  injection Hk as Hs. intros Hh. apply elem_of_without. rewrite <- Hs. split; [done|].
  cbn. unfold mkey in Hne. congruence.
Qed.

Lemma gone_less m s id w w' :
  less s id (view w) (view w') → gone m w → gone m w'.
Proof.
  intros (Hp & _). unfold gone. rewrite Hp. case_bool_decide as Hk; [|done].
  injection Hk as Hs. rewrite <- Hs.
  intros Hg (p & Hid & [Hin _]%elem_of_without)%list_elem_of_fmap. apply Hg. rewrite Hid.
  by apply list_elem_of_fmap_2.
Qed.

Lemma settled_less m v s id w w' :
  less s id (view w) (view w') → mkey m ≠ (s, id) → settled m v w → settled m v w'.
Proof.
  intros Hl Hne. destruct v; cbn; [by eapply gone_less| |by eapply held_less].
  intros (Hg & fs & Hin & Hfs). split; [by eapply gone_less|]. exists fs. split; [|done].
  destruct Hl as (_ & _ & more & ->). apply elem_of_app. by left.
Qed.

(** ** The lanes of a batch *)

Definition present (l : Lane) : list StreamMessage :=
  match flight l with Some (m, _) => [m] | None => [] end ++ todo l.

(** Only the batch's own entries have left; nothing has been read. *)
Definition within (ms : list StreamMessage) (w0 w : W) : Prop :=
  (∀ s g', sublist (pend (view w) s g') (pend (view w0) s g')) ∧
  (∀ s g' p, p ∈ pend (view w0) s g' → (g' = g → (s, pe_id p) ∉ mkey <$> ms) →
     p ∈ pend (view w) s g') ∧
  (∀ s g', (∀ m, m ∈ ms → s ≠ dlq_of (msg_stream m)) → unread (view w) s g' = unread (view w0) s g') ∧
  ∃ more, added (view w) = added (view w0) ++ more.

Record running (ms : list StreamMessage) (w0 : W) (lanes : list Lane) (w : W) : Prop := {
  run_distinct : NoDup (mkey <$> concat (present <$> lanes));
  run_held : ∀ m, m ∈ concat (present <$> lanes) → m ∈ ms ∧ held m w;
  run_judged : ∀ l m v, l ∈ lanes → flight l = Some (m, v) → judged m v;
  run_settled : ∀ m, m ∈ ms →
    m ∈ concat (present <$> lanes) ∨ ∃ v, judged m v ∧ settled m v w;
  run_within : within ms w0 w;
  run_ok : ok w
}.

Lemma within_less ms w0 w w' m :
  m ∈ ms → less (msg_stream m) (msg_entry_id m) (view w) (view w') →
  within ms w0 w → within ms w0 w'.
Proof.
  intros Hm (Hp & Hu & more & Ha) (Hs & Hk & Hr & more0 & Ha0). split_and!.
  - intros s g'. rewrite Hp. case_bool_decide as Heq; [|apply Hs]. injection Heq as -> ->.
    etrans; [apply filter_sublist_bool|apply Hs].
  - intros s g' p Hin Hne. rewrite Hp. case_bool_decide as Heq; [|by apply Hk].
    injection Heq as -> ->. apply elem_of_without. split; [by apply Hk|].
    intros Hid. apply Hne; [done|]. rewrite Hid. by apply (list_elem_of_fmap_2 mkey).
  - intros s g' Hne. rewrite Hu by (by apply Hne). by apply Hr.
  - exists (more0 ++ more). by rewrite Ha, Ha0, app_assoc.
Qed.

Lemma settled_view m v w w' : view w' = view w → settled m v w → settled m v w'.
Proof. unfold settled, gone, held. by intros ->. Qed.

Lemma running_view ms w0 lanes w w' :
  view w' = view w → ok w' → running ms w0 lanes w → running ms w0 lanes w'.
Proof.
  intros Heq Hok [Hd Hh Hj Hs Hw _]. split; [done| |done| | |done].
  - intros m Hm. unfold held. rewrite Heq. by apply Hh.
  - intros m Hm. destruct (Hs m Hm) as [|(v & ? & ?)]; [by left|right].
    exists v. split; [done|]. by eapply settled_view.
  - unfold within. rewrite Heq. apply Hw.
Qed.

Lemma concat_insert lanes i l l' :
  lanes !! i = Some l → ∃ A B,
    concat (present <$> lanes) = A ++ present l ++ B ∧
    concat (present <$> <[i := l']> lanes) = A ++ present l' ++ B ∧
    ∀ x, x ∈ <[i := l']> lanes → x = l' ∨ x ∈ lanes.
Proof.
  intros Hl. exists (concat (present <$> take i lanes)), (concat (present <$> drop (S i) lanes)).
  pose proof (lookup_lt_Some _ _ _ Hl) as Hi. split_and!.
  - rewrite <- (take_drop_middle lanes i l Hl) at 1. by rewrite fmap_app, concat_app.
  - rewrite insert_take_drop by done. by rewrite fmap_app, concat_app.
  - intros x Hx. apply list_elem_of_lookup in Hx as [j Hj].
    destruct (decide (i = j)) as [->|Hne].
    + rewrite list_lookup_insert_eq in Hj by done. left. congruence.
    + rewrite list_lookup_insert_ne in Hj by done. right. by eapply list_elem_of_lookup_2.
Qed.

Lemma lane_step_running ms w0 lanes w i l n l' w' :
  NoDup (mkey <$> ms) → lanes !! i = Some l → running ms w0 lanes w →
  lane_step cfg g by_stream l w = (Ok (n, l'), w') →
  running ms w0 (<[i := l']> lanes) w' ∧ turns l' = pred (turns l).
Proof.
  intros Hms Hi Hrun. unfold lane_step.
  destruct (concat_insert lanes i l l' Hi) as (A & B & Hold & Hnew & Hin).
  pose proof (run_distinct _ _ _ _ Hrun) as Hd.
  destruct (flight l) as [[m v]|] eqn:Hf; [|destruct (todo l) as [|m rest] eqn:Ht].
  - intros (b & w1 & Hset & Hret)%eff_bind_Ok. injection Hret as _ <- <-.
    assert (ok w1) as Hok1 by (eapply (kp_settle _ _ _ Hkeeps); [apply Hrun|exact Hset]).
    split; [|unfold turns; cbn; rewrite Hf; lia].
    assert (present l = m :: todo l) as Hpl by (unfold present; by rewrite Hf).
    assert (l ∈ lanes) as Hll by (by eapply list_elem_of_lookup_2).
    rewrite Hold, Hpl in Hd. cbn [app] in *.
    assert (m ∈ ms ∧ held m w) as [Hm Hheld].
    { apply (run_held _ _ _ _ Hrun). rewrite Hold, Hpl. set_solver. }
    assert (∀ x, x ∈ A ++ todo l ++ B → mkey x ≠ mkey m) as Hother.
    { intros x Hx Heq. rewrite fmap_app in Hd. cbn in Hd. rewrite <- Permutation_middle in Hd.
      apply NoDup_cons in Hd as [Hd _]. apply Hd. rewrite <- Heq, <- fmap_app.
      by apply list_elem_of_fmap_2. }
    assert (judged m v) as Hjm by (by eapply run_judged).
    assert (settled m v w1 ∧
      (∀ x, mkey x ≠ mkey m → held x w → held x w1) ∧
      (∀ x u, mkey x ≠ mkey m → settled x u w → settled x u w1) ∧ within ms w0 w1)
      as (Hsm & Hh & Hs & Hw).
    { apply settle_Ok in Hset as [[-> ->]|(Hne & Hl & Hs)].
      - split; [exact Hheld|]. split; [done|]. split; [done|]. apply Hrun.
      - split; [done|]. split; [intros x ?; by eapply held_less|].
        split; [intros x u ?; by eapply settled_less|].
        eapply within_less; [exact Hm|exact Hl|]. apply Hrun. }
    split; [| | | |done|done].
    + rewrite Hnew. unfold present; cbn. rewrite fmap_app in Hd |- *. cbn in Hd.
      rewrite <- Permutation_middle in Hd. by apply NoDup_cons in Hd as [_ Hd].
    + intros x Hx. rewrite Hnew in Hx. unfold present in Hx; cbn in Hx.
      assert (x ∈ ms ∧ held x w) as [Hxm Hxh].
      { apply (run_held _ _ _ _ Hrun). rewrite Hold, Hpl. set_solver. }
      split; [done|]. apply Hh; [by apply Hother|done].
    + intros x x' u Hx Hfx. apply Hin in Hx as [->|Hx]; [done|]. by eapply run_judged.
    + intros x Hx. destruct (run_settled _ _ _ _ Hrun x Hx) as [Hp|(u & Hu & Hus)].
      * rewrite Hold, Hpl in Hp. destruct (decide (mkey x = mkey m)) as [Heq|Hne].
        -- right. exists v. assert (x = m) as ->; [|done].
           by eapply (NoDup_fmap_key mkey ms).
        -- left. rewrite Hnew. unfold present; cbn. set_solver.
      * right. destruct (decide (mkey x = mkey m)) as [Heq|Hne].
        -- exists v. assert (x = m) as ->; [|done]. by eapply (NoDup_fmap_key mkey ms).
        -- exists u. split; [done|]. by apply Hs.
  - intros [= _ <- <-]. split; [|unfold turns; by rewrite Hf, Ht].
    by rewrite list_insert_id.
  - intros (v & w1 & Hj & Hret)%eff_bind_Ok. injection Hret as _ <- <-.
    split; [|unfold turns; cbn; rewrite Hf, Ht; cbn; lia].
    pose proof (run_ok _ _ _ _ Hrun) as Hokw.
    apply (running_view _ _ _ w); [by eapply judge_view|by eapply (kp_judge _ _ _ Hkeeps)|].
    assert (present (mk_Lane rest (Some (m, v))) = present l) as Hpl
      by (unfold present; by rewrite Hf, Ht).
    rewrite Hpl in Hnew. destruct Hrun as [Hrd Hrh Hrj Hrs Hrw _].
    split; rewrite ?Hnew, <- ?Hold; try done.
    intros x x' u Hx Hfx. apply Hin in Hx as [->|Hx]; [|by eapply Hrj].
    cbn in Hfx. injection Hfx as <- <-. by exists w, w1.
Qed.

Definition count (i : nat) (sched : list nat) : nat :=
  length (List.filter (λ j, bool_decide (j = i)) sched).

Lemma run_schedule_running ms w0 sched lanes handled w h' lanes' w' :
  NoDup (mkey <$> ms) → running ms w0 lanes w →
  run_schedule cfg g by_stream sched lanes handled w = (Ok (h', lanes'), w') →
  running ms w0 lanes' w' ∧ length lanes' = length lanes ∧
  ∀ i l, lanes !! i = Some l →
    ∃ l', lanes' !! i = Some l' ∧ turns l' = (turns l - count i sched)%nat.
Proof.
  intros Hms. revert lanes handled w; induction sched as [|j sched IH]; intros lanes handled w Hrun;
    cbn [run_schedule].
  { intros [= _ <- <-]. split; [done|]. split; [done|]. intros i l Hl. exists l. split; [done|].
    unfold count. cbn. lia. }
  destruct (lanes !! j) as [lj|] eqn:Hj.
  - intros ([n l1] & w1 & Hstep & Hrest)%eff_bind_Ok.
    destruct (lane_step_running _ _ _ _ _ _ _ _ _ Hms Hj Hrun Hstep) as [Hrun1 Ht].
    destruct (IH _ _ _ Hrun1 Hrest) as (Hrun' & Hlen & Hturn).
    split; [done|]. rewrite length_insert in Hlen. split; [done|]. intros i l Hl.
    destruct (decide (j = i)) as [->|Hne].
    + destruct (Hturn i l1) as (l' & ? & Hl').
      { apply list_lookup_insert_eq. by eapply lookup_lt_Some. }
      exists l'. split; [done|]. rewrite Hl', Ht. assert (lj = l) as -> by congruence.
      unfold count. cbn. rewrite bool_decide_true by done. cbn. lia.
    + destruct (Hturn i l) as (l' & ? & Hl'); [by rewrite list_lookup_insert_ne|].
      exists l'. split; [done|]. rewrite Hl'. unfold count. cbn. by rewrite bool_decide_false.
  - intros Hrest. destruct (IH _ _ _ Hrun Hrest) as (Hrun' & Hlen & Hturn).
    split; [done|]. split; [done|]. intros i l Hl. destruct (Hturn i l Hl) as (l' & ? & Hl').
    exists l'. split; [done|]. rewrite Hl'. unfold count. cbn.
    by rewrite bool_decide_false by (intros ->; congruence).
Qed.

Lemma count_app i s1 s2 : count i (s1 ++ s2) = (count i s1 + count i s2)%nat.
Proof. unfold count. by rewrite List.filter_app, length_app. Qed.

Lemma count_replicate i n : count i (replicate n i) = n.
Proof. unfold count. induction n as [|n IH]; [done|]. cbn. rewrite bool_decide_true by done. cbn. by rewrite IH. Qed.

Lemma to_the_end_enough lanes i l :
  lanes !! i = Some l → (turns l ≤ count i (to_the_end lanes))%nat.
Proof.
  intros Hl. unfold to_the_end.
  assert (imap (λ j l, replicate (turns l) j) lanes !! i = Some (replicate (turns l) i)) as Hi
    by (by rewrite list_lookup_imap, Hl).
  apply list_elem_of_lookup_2, list_elem_of_split in Hi as (a & b & ->).
  rewrite concat_app. cbn. rewrite !count_app, count_replicate. lia.
Qed.

Lemma turns_zero l : turns l = O → present l = [].
Proof. unfold turns, present. destruct (todo l), (flight l); cbn; done. Qed.

(** A batch that ran to its end. *)
Definition batch_post (ms : list StreamMessage) w0 w : Prop :=
  (∀ m, m ∈ ms → ∃ v, judged m v ∧ settled m v w) ∧ within ms w0 w.

Lemma run_to_the_end ms w0 sched lanes handled w h' lanes' w' :
  NoDup (mkey <$> ms) → running ms w0 lanes w →
  (∀ i l, lanes !! i = Some l → (turns l ≤ count i sched)%nat) →
  run_schedule cfg g by_stream sched lanes handled w = (Ok (h', lanes'), w') →
  batch_post ms w0 w'.
Proof.
  intros Hms Hrun Henough Hsched.
  destruct (run_schedule_running _ _ _ _ _ _ _ _ _ Hms Hrun Hsched) as (Hrun' & Hlen & Hturn).
  assert (concat (present <$> lanes') = []) as Hnil.
  { apply concat_nil_Forall, Forall_fmap, Forall_forall. intros l' Hl'.
    apply list_elem_of_lookup in Hl' as [i Hi].
    destruct (lookup_lt_is_Some_2 lanes i) as [l Hl]; [rewrite <- Hlen; by eapply lookup_lt_Some|].
    destruct (Hturn i l Hl) as (l1 & Hl1 & Ht). cbn. apply turns_zero.
    rewrite Hi in Hl1. injection Hl1 as ->. specialize (Henough i l Hl). lia. }
  split; [|by apply Hrun']. intros m Hm.
  destruct (run_settled _ _ _ _ Hrun' m Hm) as [Hin|]; [|done]. rewrite Hnil in Hin.
  by apply elem_of_nil in Hin.
Qed.

Lemma running_start ms ls w :
  NoDup (mkey <$> ms) → concat ls ≡ₚ ms → (∀ m, m ∈ ms → held m w) → ok w →
  running ms w (start_lane <$> ls) w.
Proof.
  intros Hms Hperm Hheld Hok.
  assert (concat (present <$> (start_lane <$> ls)) = concat ls) as Hpres.
  { rewrite <- list_fmap_compose. f_equal. rewrite <- (list_fmap_id ls) at 2. done. }
  split; rewrite ?Hpres, ?Hperm; try done.
  - intros m Hm. rewrite Hperm in Hm. split; [done|by apply Hheld].
  - intros l m v (x & -> & _)%list_elem_of_fmap. done.
  - intros m Hm. left. by rewrite Hperm.
  - split_and!; [done..|]. exists []. by rewrite app_nil_r.
Qed.

Lemma run_lane_schedule ms handled w n w' :
  run_lane cfg g by_stream ms w = (Ok n, w') →
  ∃ h', run_schedule cfg g by_stream (replicate (2 * length ms) 0%nat) [start_lane ms] handled w
    = (Ok (h', [start_lane []]), w').
Proof.
  revert handled w n; induction ms as [|m ms IH]; intros handled w n; cbn [run_lane].
  { intros [= _ <-]. by exists handled. }
  intros (b & w1 & Hd & Hrest)%eff_bind_Ok. apply eff_bind_Ok in Hrest as (k & w2 & Hlane & Hret).
  injection Hret as _ <-. apply eff_bind_Ok in Hd as (v & w3 & Hj & Hs).
  destruct (IH (handled + 0 + if b then 1 else 0) _ _ Hlane) as [h' Hh]. exists h'.
  replace (2 * length (m :: ms))%nat with (S (S (2 * length ms))) by (cbn; lia).
  cbn [replicate run_schedule]. change ([start_lane (m :: ms)] !! 0%nat) with (Some (start_lane (m :: ms))).
  apply eff_bind_Ok. exists (0, mk_Lane ms (Some (m, v))), w3.
  split; [apply eff_bind_Ok; by exists v, w3|]. cbn [run_schedule].
  change (<[0%nat:=?x]> [?y] !! 0%nat) with (Some x).
  apply eff_bind_Ok. exists (if b then 1 else 0, start_lane ms), w1.
  split; [apply eff_bind_Ok; by exists b, w1|]. exact Hh.
Qed.

(** [group_pass] after its read. *)
Lemma dispatch_batch sched ms w n w' :
  NoDup (mkey <$> ms) → (∀ m, m ∈ ms → held m w) → ok w → (0 < concurrency cfg)%nat →
  (if bool_decide (concurrency cfg = 1%nat) || (length ms <? MIN_BATCH_TO_SPLIT)%nat
   then run_lane cfg g by_stream ms
   else run_batch cfg sched g by_stream ms) w = (Ok n, w') →
  batch_post ms w w'.
Proof.
  intros Hms Hheld Hok Hconc. destruct (_ || _).
  - intros Hrun. destruct (run_lane_schedule _ 0 _ _ _ Hrun) as [h' Hs].
    eapply run_to_the_end; [done|apply (running_start ms [ms])|..|exact Hs]; try done.
    + cbn. by rewrite app_nil_r.
    + intros [|i] l Hl; [|done]. injection Hl as <-. rewrite count_replicate. unfold turns. cbn. lia.
  - intros (ls & w1 & [Hls ->]%eff_lift_Ok & Hrun)%eff_bind_Ok. cbn zeta in Hrun.
    apply eff_bind_Ok in Hrun as ([h lanes'] & w2 & Hrun & Hret). injection Hret as _ <-.
    eapply run_to_the_end; [done|apply (running_start ms ls)|..|exact Hrun]; try done.
    + by destruct (lanes_concat _ _ _ Hconc Hls).
    + intros i l Hl. rewrite count_app. pose proof (to_the_end_enough _ _ _ Hl). lia.
Qed.

(** ** One pass over the group *)

Definition streams : list text := by_stream.*1.

Lemma read_keys_NoDup ms w w1 :
  NoDup streams →
  read_post streams g (consumer_name cfg) (batch_count cfg) (view w) ms (view w1) →
  NoDup (mkey <$> ms).
Proof.
  intros Hss Hr. change (mkey <$> ms) with ((λ m, (msg_stream m, msg_entry_id m)) <$> ms).
  rewrite (rp_keys _ _ _ _ _ _ _ Hr). apply NoDup_app. split_and!.
  - apply NoDup_spread; [done|]. intros s _. unfold reread.
    eapply sublist_NoDup; [apply sorted_NoDup, owned_sorted|]. apply fmap_sublist, sublist_take.
  - intros [s id] [_ Hre]%elem_of_spread [_ Hnew]%elem_of_spread.
    assert (id ∈ unread (view w) s g) as Hu by (eapply elem_of_sublist; [exact Hnew|apply sublist_take]).
    apply unread_after in Hu. apply Hu. unfold reread in Hre.
    eapply elem_of_sublist; [exact Hre|]. apply fmap_sublist.
    etrans; [apply sublist_take|apply filter_sublist_bool].
  - apply NoDup_spread; [done|]. intros s _.
    eapply sublist_NoDup; [apply unread_distinct|apply sublist_take].
Qed.

Lemma group_pass_Ok sched w n w' :
  NoDup streams → (0 < concurrency cfg)%nat → ok w →
  group_pass cfg sched g by_stream w = (Ok n, w') →
  ∃ ms w1, read streams g (consumer_name cfg) (batch_count cfg) (block_ms cfg) w = (Ok ms, w1) ∧
    read_post streams g (consumer_name cfg) (batch_count cfg) (view w) ms (view w1) ∧
    NoDup (mkey <$> ms) ∧ batch_post ms w1 w'.
Proof.
  intros Hss Hconc Hok (ms & w1 & Hread & Hrun)%eff_bind_Ok.
  pose proof (read_Ok _ _ _ _ _ _ _ _ Hss Hread) as Hpost.
  exists ms, w1. pose proof (read_keys_NoDup _ _ _ Hss Hpost). split_and!; [done..|].
  eapply dispatch_batch; [done| |by eapply (kp_read _ _ _ Hkeeps)|done|exact Hrun].
  intros m Hm. by apply Hpost.
Qed.

Lemma read_streams ms w w1 m :
  read_post streams g (consumer_name cfg) (batch_count cfg) (view w) ms (view w1) →
  m ∈ ms → msg_stream m ∈ streams.
Proof.
  intros Hr Hm. assert (mkey m ∈ mkey <$> ms) as Hin by (by apply list_elem_of_fmap_2).
  change (mkey <$> ms) with ((λ m, (msg_stream m, msg_entry_id m)) <$> ms) in Hin.
  rewrite (rp_keys _ _ _ _ _ _ _ Hr) in Hin.
  by apply elem_of_app in Hin as [[? _]%elem_of_spread|[? _]%elem_of_spread].
Qed.

(** The entries of [s] this pass delivers. *)
Definition delivered (b : Broker) (s : text) : list text :=
  reread (consumer_name cfg) (batch_count cfg) (pend b s g) ++
  take (Z.to_nat (batch_count cfg)) (unread b s g).

Lemma read_message ms w w1 s id :
  read_post streams g (consumer_name cfg) (batch_count cfg) (view w) ms (view w1) →
  s ∈ streams → id ∈ delivered (view w) s → ∃ m, m ∈ ms ∧ mkey m = (s, id).
Proof.
  intros Hr Hs Hid.
  assert ((s, id) ∈ mkey <$> ms) as Hin.
  { change (mkey <$> ms) with ((λ m, (msg_stream m, msg_entry_id m)) <$> ms).
    rewrite (rp_keys _ _ _ _ _ _ _ Hr). unfold delivered in Hid.
    apply elem_of_app in Hid as [Hid|Hid]; apply elem_of_app; [left|right];
      by apply elem_of_spread. }
  apply list_elem_of_fmap in Hin as (m & Heq & Hm). by exists m.
Qed.

End Group.

(** ** The deliveries a consumer still owes *)

Section Owing.
Variables (g : text) (by_stream : list (text * Subscription W)).
Hypothesis Hquiet : quiet by_stream.

Lemma pass_Ok sched w n w' :
  NoDup by_stream.*1 → (0 < concurrency cfg)%nat →
  group_pass cfg sched g by_stream w = (Ok n, w') →
  ∃ ms w1, read_post by_stream.*1 g (consumer_name cfg) (batch_count cfg) (view w) ms (view w1) ∧
    (∀ m, m ∈ ms → msg_stream m ∈ by_stream.*1) ∧ batch_post g by_stream anywhere ms w1 w'.
Proof.
  intros Hss Hconc Hpass.
  destruct (group_pass_Ok g by_stream anywhere Hquiet (keeps_anywhere _ _) _ _ _ _ Hss Hconc I Hpass)
    as (ms & w1 & _ & Hr & _ & Hpost).
  exists ms, w1. split_and!; [done| |done]. intros m Hm. by eapply read_streams.
Qed.

(** What a pass delivered and left pending has deliveries to spare. *)
Lemma kept_spares sched w n w' s p :
  NoDup by_stream.*1 → (0 < concurrency cfg)%nat →
  group_pass cfg sched g by_stream w = (Ok n, w') →
  s ∈ by_stream.*1 → p ∈ pend (view w') s g → pe_id p ∈ delivered g (view w) s →
  pe_count p < max_deliveries cfg.
Proof.
  intros Hss Hconc Hpass Hs Hp Hd.
  destruct (pass_Ok _ _ _ _ Hss Hconc Hpass) as (ms & w1 & Hr & _ & Hset & _).
  destruct (read_message g by_stream _ _ _ _ _ Hr Hs Hd) as (m & Hm & Hk). injection Hk as Hms Hmid.
  destruct (Hset m Hm) as (v & Hj & Hsv).
  assert (gone g m w' → False) as Hng.
  { intros Hg. apply Hg. rewrite Hms, Hmid. by apply list_elem_of_fmap_2. }
  destruct v as [h|r|]; [by destruct Hng|destruct Hsv as [? _]; by destruct Hng|].
  apply judged_leave in Hj. unfold settled, held in Hsv. rewrite Hms, Hmid in Hsv.
  assert (p = mk_Pending (pe_id p) (consumer_name cfg) (msg_delivery_count m)) as ->; [|done].
  eapply (NoDup_fmap_key pe_id); [apply (pending_NoDup w' s g)|done|done|done].
Qed.

Definition below w : Prop :=
  ∀ s p, s ∈ by_stream.*1 → p ∈ pend (view w) s g → pe_owner p = consumer_name cfg →
    pe_count p < max_deliveries cfg.

(** After the pass an entry the consumer still holds has deliveries to spare: it was
    left pending on purpose, or it was not delivered at all. *)
Lemma pass_below sched w n w' :
  NoDup by_stream.*1 → (0 < concurrency cfg)%nat → below w →
  group_pass cfg sched g by_stream w = (Ok n, w') → below w'.
Proof.
  intros Hss Hconc Hb Hpass s p Hs Hp Ho.
  destruct (decide (pe_id p ∈ delivered g (view w) s)) as [Hd|Hd]; [by eapply kept_spares|].
  destruct (pass_Ok _ _ _ _ Hss Hconc Hpass) as (ms & w1 & Hr & _ & _ & Hsub & _).
  eapply elem_of_sublist in Hp as Hp1; [|apply Hsub].
  rewrite (proj1 (rp_groups _ _ _ _ _ _ _ Hr s Hs)) in Hp1. apply elem_of_app in Hp1 as [Hp1|Hp1].
  - apply elem_of_bump in Hp1 as (q & Hq & Hid & Hoq & Hc). rewrite bool_decide_false in Hc.
    + rewrite Hc, Z.add_0_r. apply (Hb s q); [done|done|]. congruence.
    + intros Hin. apply Hd, elem_of_app. left. by rewrite Hid.
  - apply list_elem_of_fmap in Hp1 as (id & -> & Hid). cbn in Hd. exfalso.
    apply Hd, elem_of_app. by right.
Qed.

(** An entry in hand may have the deliveries left of its budget, and one more where it
    has had them all; one just delivered is paid that delivery. *)
Definition allowance (p : Pending) : Z := Z.max 1 (max_deliveries cfg - pe_count p).
Definition remainder (ids : list text) (p : Pending) : Z :=
  if bool_decide (pe_id p ∈ ids) then Z.max 0 (max_deliveries cfg - pe_count p) else allowance p.
Definition credit (l : list Pending) : Z := sumZ (allowance <$> l).

Definition owes (b : Broker) (s : text) : Z :=
  credit (owned (consumer_name cfg) (pend b s g)) +
  max_deliveries cfg * Z.of_nat (length (unread b s g)).

Lemma sumZ_sublist {A} (f h : A → Z) l k :
  l `sublist_of` k → (∀ x, x ∈ l → f x ≤ h x) → (∀ x, x ∈ k → 0 ≤ h x) →
  sumZ (f <$> l) ≤ sumZ (h <$> k).
Proof.
  induction 1 as [|x l k Hs IH|x l k Hs IH]; intros Hf Hh; [done|..];
    rewrite ?fmap_cons, ?sumZ_cons.
  - specialize (IH (λ y Hy, Hf y ltac:(by right)) (λ y Hy, Hh y ltac:(by right))).
    specialize (Hf x ltac:(left)). lia.
  - specialize (IH Hf (λ y Hy, Hh y ltac:(by right))). specialize (Hh x ltac:(left)). lia.
Qed.

Lemma credit_sublist l k : l `sublist_of` k → credit l ≤ credit k.
Proof. intros Hs. apply sumZ_sublist; [done|done|]. unfold allowance. lia. Qed.

Lemma credit_pos l : Z.of_nat (length l) ≤ credit l.
Proof.
  unfold credit. induction l as [|p l IH]; [done|]. rewrite fmap_cons, sumZ_cons. unfold allowance at 1.
  cbn [length]. lia.
Qed.

(** Delivering a prefix takes one off the allowance of each of its entries. *)
Lemma remainder_bump ids l :
  sumZ (remainder ids <$> bump ids l)
  = credit l - Z.of_nat (length (List.filter (λ p, bool_decide (pe_id p ∈ ids)) l)).
Proof.
  unfold credit, bump, remainder, allowance. induction l as [|p l IH]; [done|].
  rewrite !fmap_cons, !sumZ_cons, IH. cbn [List.filter].
  destruct (bool_decide (pe_id p ∈ ids)) eqn:Hp; cbn [pe_id pe_count length]; rewrite Hp; lia.
Qed.

Lemma filter_prefix k l :
  NoDup (pe_id <$> l) → List.filter (λ p, bool_decide (pe_id p ∈ pe_id <$> take k l)) l = take k l.
Proof.
  intros Hnd. rewrite <- (take_drop k l) in Hnd. rewrite fmap_app in Hnd.
  apply NoDup_app in Hnd as (_ & Hdis & _).
  transitivity (List.filter (λ p, bool_decide (pe_id p ∈ pe_id <$> take k l)) (take k l ++ drop k l));
    [by rewrite take_drop|].
  rewrite List.filter_app, filter_all, filter_none, app_nil_r; [done|..]; apply Forall_forall; intros p Hp.
  - apply bool_decide_eq_false. intros Hin. by apply (Hdis _ Hin), list_elem_of_fmap_2.
  - by apply bool_decide_eq_true, list_elem_of_fmap_2.
Qed.

Lemma owned_new ids c :
  owned c ((λ id, mk_Pending id c 1) <$> ids) = (λ id, mk_Pending id c 1) <$> ids.
Proof. apply filter_all, Forall_fmap, Forall_true. intros id. cbn. by apply bool_decide_eq_true. Qed.

Lemma owned_sublist c l k : l `sublist_of` k → owned c l `sublist_of` owned c k.
Proof.
  unfold owned. induction 1 as [|p a b Hs IH|p a b Hs IH]; cbn; [done|..];
    case_bool_decide; try done; by constructor.
Qed.

(** What the consumer holds right after a read, weighed with its deliveries paid. *)
Lemma read_pays w ms w1 s :
  read_post by_stream.*1 g (consumer_name cfg) (batch_count cfg) (view w) ms (view w1) →
  1 ≤ max_deliveries cfg → s ∈ by_stream.*1 →
  sumZ (remainder (delivered g (view w) s) <$> owned (consumer_name cfg) (pend (view w1) s g))
  + max_deliveries cfg * Z.of_nat (length (unread (view w1) s g))
  = owes (view w) s - Z.of_nat (length (delivered g (view w) s)).
Proof.
  intros Hr HN Hs. destruct (rp_groups _ _ _ _ _ _ _ Hr s Hs) as [-> ->].
  unfold owes, delivered. set (c := consumer_name cfg). set (k := Z.to_nat (batch_count cfg)).
  set (l := pend (view w) s g). set (u := unread (view w) s g).
  assert (owned c (bump (reread c (batch_count cfg) l) l ++ ((λ id, mk_Pending id c 1) <$> take k u))
    = bump (reread c (batch_count cfg) l) (owned c l) ++ ((λ id, mk_Pending id c 1) <$> take k u)) as ->.
  { unfold owned. rewrite List.filter_app. fold (owned c). 
    change (List.filter _ (bump ?r l)) with (owned c (bump r l)).
    change (List.filter _ (?f <$> ?x)) with (owned c (f <$> x)). by rewrite owned_bump, owned_new. }
  rewrite fmap_app, sumZ_app, length_drop, length_app.
  assert (sumZ (remainder (reread c (batch_count cfg) l ++ take k u) <$>
            bump (reread c (batch_count cfg) l) (owned c l))
    = credit (owned c l) - Z.of_nat (length (reread c (batch_count cfg) l))) as ->.
  { transitivity (sumZ (remainder (reread c (batch_count cfg) l) <$>
      bump (reread c (batch_count cfg) l) (owned c l))).
    - f_equal. apply list_fmap_ext. intros i p Hp%list_elem_of_lookup_2. unfold remainder.
      enough (bool_decide (pe_id p ∈ reread c (batch_count cfg) l ++ take k u)
        = bool_decide (pe_id p ∈ reread c (batch_count cfg) l)) as -> by done.
      apply bool_decide_ext. rewrite elem_of_app. split; [intros [|Hu]; [done|]|by left].
      exfalso. apply elem_of_bump in Hp as (q & [Hq _]%elem_of_owned & Hid & _).
      apply (unread_after w s g (pe_id p)); [by eapply elem_of_sublist, sublist_take|].
      rewrite Hid. by apply list_elem_of_fmap_2.
    - rewrite remainder_bump. unfold reread.
      rewrite filter_prefix by (apply sorted_NoDup, owned_sorted). by rewrite length_fmap. }
  rewrite <- list_fmap_compose, (sumZ_const _ _ (max_deliveries cfg - 1)).
  2:{ intros id Hid. unfold remainder. cbn. rewrite bool_decide_true; [lia|].
      apply elem_of_app. by right. }
  rewrite length_take. nia.
Qed.

(** Each delivery is paid for. *)
Lemma pass_pays sched w n w' s :
  NoDup by_stream.*1 → (0 < concurrency cfg)%nat → 1 ≤ max_deliveries cfg → s ∈ by_stream.*1 →
  (∀ s', s' ∈ by_stream.*1 → s ≠ dlq_of s') →
  group_pass cfg sched g by_stream w = (Ok n, w') →
  owes (view w') s ≤ owes (view w) s - Z.of_nat (length (delivered g (view w) s)).
Proof.
  intros Hss Hconc HN Hs Hdlq Hpass.
  destruct (pass_Ok _ _ _ _ Hss Hconc Hpass) as (ms & w1 & Hr & Hms & _ & Hsub & _ & Hun & _).
  rewrite <- (read_pays _ _ _ _ Hr HN Hs). unfold owes.
  rewrite (Hun s g) by (intros m Hm; by apply Hdlq, Hms). apply Z.add_le_mono_r, sumZ_sublist.
  - apply owned_sublist, Hsub.
  - intros p [Hp _]%elem_of_owned. unfold remainder. case_bool_decide as Hd; [|done].
    pose proof (kept_spares _ _ _ _ _ _ Hss Hconc Hpass Hs Hp Hd). unfold allowance. lia.
  - intros p _. unfold remainder, allowance. case_bool_decide; lia.
Qed.

Lemma owes_bounds w s : 1 ≤ max_deliveries cfg → 1 ≤ batch_count cfg →
  0 ≤ owes (view w) s ∧ (delivered g (view w) s = [] → owes (view w) s = 0) ∧
  (owes (view w) s ≤ 0 →
     owned (consumer_name cfg) (pend (view w) s g) = [] ∧ unread (view w) s g = []).
Proof.
  intros HN Hn. pose proof (credit_pos (owned (consumer_name cfg) (pend (view w) s g))) as Hc.
  unfold owes, delivered, reread. assert (credit [] = 0) as Hz by done.
  set (l := owned (consumer_name cfg) (pend (view w) s g)) in *. set (u := unread (view w) s g).
  destruct (Z.to_nat (batch_count cfg)) as [|k] eqn:Hk; [lia|].
  split_and!.
  - nia.
  - destruct l as [|p l]; [|done]. destruct u as [|i u]; [|done]. intros _. rewrite Hz. cbn [length]. lia.
  - intros Hle. destruct l as [|p l].
    + destruct u as [|i u]; [done|]. rewrite Hz in Hle. cbn [length] in Hle. nia.
    + cbn [length] in Hc. nia.
Qed.

(** Another group is left as it was, but for what its dead-letter streams receive. *)
Lemma pass_other sched w n w' g' :
  NoDup by_stream.*1 → (0 < concurrency cfg)%nat → g' ≠ g →
  group_pass cfg sched g by_stream w = (Ok n, w') →
  ∀ s, pend (view w') s g' `sublist_of` pend (view w) s g' ∧
    (∀ p, p ∈ pend (view w) s g' → p ∈ pend (view w') s g') ∧
    ((∀ s', s' ∈ by_stream.*1 → s ≠ dlq_of s') → unread (view w') s g' = unread (view w) s g').
Proof.
  intros Hss Hconc Hne Hpass s.
  destruct (pass_Ok _ _ _ _ Hss Hconc Hpass) as (ms & w1 & Hr & Hms & _ & Hsub & Hkeep & Hun & _).
  destruct (rp_elsewhere _ _ _ _ _ _ _ Hr s g') as [Hp1 Hu1]; [by intros [_ ?]|].
  rewrite <- Hp1, <- Hu1. split_and!; [apply Hsub|by intros p Hp; apply Hkeep|].
  intros Hdlq. apply Hun. intros m Hm. by apply Hdlq, Hms.
Qed.

(** The dead-letter streams only grow. *)
Lemma pass_added sched w n w' :
  NoDup by_stream.*1 → (0 < concurrency cfg)%nat →
  group_pass cfg sched g by_stream w = (Ok n, w') → ∃ more, added (view w') = added (view w) ++ more.
Proof.
  intros Hss Hconc Hpass.
  destruct (pass_Ok _ _ _ _ Hss Hconc Hpass) as (ms & w1 & Hr & _ & _ & _ & _ & _ & Ha).
  by rewrite <- (rp_added _ _ _ _ _ _ _ Hr).
Qed.
End Owing.

(** ** All the groups of a worker *)

Abbreviation Subs := (list (text * Subscription W)).
Abbreviation Groups := (list (text * Subs)).

(** ** [by_group] *)

Definition grouped (subs : list (Subscription W)) (gs : Groups) : Prop :=
  NoDup gs.*1 ∧
  (∀ gb, gb ∈ gs → NoDup gb.2.*1 ∧ ∀ s sub, (s, sub) ∈ gb.2 →
     sub ∈ subs ∧ sub_stream sub = s ∧ sub_group sub = gb.1) ∧
  ∀ sub, sub ∈ subs → ∃ gb, gb ∈ gs ∧ gb.1 = sub_group sub ∧ sub_stream sub ∈ gb.2.*1.

Lemma elem_of_alist_set {K V} `{EqDecision K} (k : K) (v : V) d x :
  NoDup d.*1 → x ∈ alist_set k v d ↔ x = (k, v) ∨ (x ∈ d ∧ x.1 ≠ k).
Proof.
  induction d as [|[k' v'] d IH]; cbn; intros Hnd.
  { rewrite list_elem_of_singleton. set_solver. }
  apply NoDup_cons in Hnd as [Hk' Hnd]. case_bool_decide as Hk.
  - subst k'. rewrite !elem_of_cons. split.
    + intros [->|Hx]; [by left|]. right. split; [by right|]. intros Hxk. apply Hk'.
      rewrite <- Hxk. by apply list_elem_of_fmap_2.
    + intros [->|[[->|Hx] Hne]]; [by left|done|by right].
  - rewrite !elem_of_cons, IH by done. split.
    + intros [->|[->|[Hx Hne]]]; [by right; split; [left|]|by left|right; split; [by right|done]].
    + intros [->|[[->|Hx] Hne]]; [by right; left|by left|right; right; done].
Qed.

Lemma by_group_grouped subs : grouped subs (by_group subs).
Proof.
  induction subs as [|sub subs (Hnd & Hin & Hcov)] using rev_ind.
  { split_and!; [constructor|by intros gb ?%elem_of_nil|by intros sub ?%elem_of_nil]. }
  unfold by_group. rewrite foldl_app. cbn [foldl]. fold (by_group subs).
  set (bs := default [] (alist_get (sub_group sub) (by_group subs))).
  assert (NoDup bs.*1 ∧ ∀ s x, (s, x) ∈ bs → x ∈ subs ∧ sub_stream x = s ∧ sub_group x = sub_group sub)
    as [Hbs Hbsin].
  { subst bs. destruct (alist_get _ _) as [bs|] eqn:Hget; cbn.
    - apply alist_get_elem in Hget. by destruct (Hin _ Hget).
    - split; [constructor|]. by intros s x ?%elem_of_nil. }
  split_and!.
  - by apply alist_set_keys.
  - intros gb Hgb. apply elem_of_alist_set in Hgb as [->|[Hgb Hne]]; [| |done].
    + cbn. split; [by apply alist_set_keys|]. intros s x Hx.
      apply elem_of_alist_set in Hx as [[= -> ->]|[Hx _]]; [| |done].
      * split; [|done]. apply elem_of_app. right. by left.
      * destruct (Hbsin _ _ Hx) as (? & ? & ?). split; [|done]. apply elem_of_app. by left.
    + destruct (Hin _ Hgb) as [? Hx]. split; [done|]. intros s x Hsx.
      destruct (Hx _ _ Hsx) as (? & ? & ?). split; [|done]. apply elem_of_app. by left.
  - intros x Hx. destruct (decide (sub_group x = sub_group sub)) as [Heq|Hne].
    + exists (sub_group sub, alist_set (sub_stream sub) sub bs).
      split; [apply elem_of_alist_set; [done|by left]|]. split; [done|]. cbn.
      apply elem_of_app in Hx as [Hx|Hx%list_elem_of_singleton].
      * destruct (Hcov _ Hx) as (gb & Hgb & Hg & Hs).
        assert (bs = gb.2) as Hbeq.
        { subst bs. erewrite (alist_get_NoDup _ gb.2); [done|done|].
          rewrite <- Heq, <- Hg. by destruct gb. }
        rewrite <- Hbeq in Hs.
        destruct (decide (sub_stream x = sub_stream sub)) as [->|Hsne].
        -- apply list_elem_of_fmap. exists (sub_stream sub, sub).
           split; [done|]. apply elem_of_alist_set; [done|by left].
        -- apply list_elem_of_fmap in Hs as ([s y] & Hsy & Hy). cbn in Hsy.
           apply list_elem_of_fmap. exists (s, y). split; [done|].
           apply elem_of_alist_set; [done|]. right. split; [done|]. cbn. congruence.
      * subst x. apply list_elem_of_fmap. exists (sub_stream sub, sub).
        split; [done|]. apply elem_of_alist_set; [done|by left].
    + apply elem_of_app in Hx as [Hx|Hx%list_elem_of_singleton]; [|by subst].
      destruct (Hcov _ Hx) as (gb & Hgb & Hg & Hs). exists gb. split; [|done].
      apply elem_of_alist_set; [done|]. right. split; [done|congruence].
Qed.

(** ** What the groups owe *)

Definition group_owes (gb : text * Subs) w : Z :=
  sumZ ((λ s, owes gb.1 (view w) s) <$> gb.2.*1).
Definition total_owed (gs : Groups) w : Z := sumZ ((λ gb, group_owes gb w) <$> gs).

Definition all_below (gs : Groups) w : Prop := ∀ gb, gb ∈ gs → below gb.1 gb.2 w.

(** Nothing the worker reads is the dead-letter stream of something it reads. *)
Definition no_dlq (gs : Groups) : Prop :=
  ∀ gb gb' s s', gb ∈ gs → gb' ∈ gs → s ∈ gb.2.*1 → s' ∈ gb'.2.*1 → s ≠ dlq_of s'.

Record worker_ok (gs : Groups) : Prop := {
  wk_names : NoDup gs.*1;
  wk_streams : ∀ gb, gb ∈ gs → NoDup gb.2.*1;
  wk_quiet : ∀ gb, gb ∈ gs → quiet gb.2;
  wk_dlq : no_dlq gs
}.

Hypothesis Hconc : (0 < concurrency cfg)%nat.
Hypothesis HN : 1 ≤ max_deliveries cfg.
Hypothesis Hcount : 1 ≤ batch_count cfg.

Lemma sumZ_le {A} (f h : A → Z) l :
  (∀ x, x ∈ l → f x ≤ h x) → sumZ (f <$> l) ≤ sumZ (h <$> l).
Proof.
  induction l as [|x l IH]; intros Hle; [done|]. rewrite !fmap_cons, !sumZ_cons.
  pose proof (Hle x ltac:(left)). specialize (IH (λ y Hy, Hle y ltac:(by right))). lia.
Qed.

Lemma sumZ_lt {A} (f h : A → Z) l :
  (∀ x, x ∈ l → f x ≤ h x) → (∃ x, x ∈ l ∧ f x < h x) → sumZ (f <$> l) < sumZ (h <$> l).
Proof.
  induction l as [|x l IH]; intros Hle (y & Hy & Hlt); [by apply elem_of_nil in Hy|].
  rewrite !fmap_cons, !sumZ_cons. pose proof (Hle x ltac:(left)) as Hx.
  pose proof (sumZ_le f h l (λ y Hy, Hle y ltac:(by right))).
  apply elem_of_cons in Hy as [->|Hy]; [lia|].
  assert (sumZ (f <$> l) < sumZ (h <$> l)); [|lia].
  apply IH; [intros; apply Hle; by right|by exists y].
Qed.

Lemma sumZ_zero {A} (f : A → Z) l :
  (∀ x, x ∈ l → 0 ≤ f x) → sumZ (f <$> l) ≤ 0 → ∀ x, x ∈ l → f x ≤ 0.
Proof.
  induction l as [|x l IH]; intros Hf Hs y Hy; [by apply elem_of_nil in Hy|].
  rewrite fmap_cons, sumZ_cons in Hs.
  assert (0 ≤ sumZ (f <$> l)).
  { apply sumZ_nonneg, Forall_fmap, Forall_forall. intros z Hz. apply Hf. by right. }
  pose proof (Hf x ltac:(left)). apply elem_of_cons in Hy as [->|Hy]; [lia|].
  apply IH; [intros; apply Hf; by right|lia|done].
Qed.

Lemma group_self gs gb sched w n w' :
  worker_ok gs → gb ∈ gs → group_pass cfg sched gb.1 gb.2 w = (Ok n, w') →
  group_owes gb w' ≤ group_owes gb w ∧
  (0 < group_owes gb w → group_owes gb w' < group_owes gb w).
Proof.
  intros Hok Hgb Hpass. pose proof (wk_quiet _ Hok gb Hgb) as Hq.
  pose proof (wk_streams _ Hok gb Hgb) as Hss.
  assert (∀ s, s ∈ gb.2.*1 → owes gb.1 (view w') s
    ≤ owes gb.1 (view w) s - Z.of_nat (length (delivered gb.1 (view w) s))) as Hpay.
  { intros s Hs. eapply (pass_pays gb.1 gb.2 Hq); try done.
    intros s' Hs'. by apply (wk_dlq _ Hok gb gb). }
  split.
  - apply sumZ_le. intros s Hs. specialize (Hpay s Hs). lia.
  - intros Hpos. apply sumZ_lt; [intros s Hs; specialize (Hpay s Hs); lia|].
    destruct (decide (Exists (λ s, delivered gb.1 (view w) s ≠ []) gb.2.*1)) as [He|He].
    + apply Exists_exists in He as (s & Hs & Hd). exists s. split; [done|].
      specialize (Hpay s Hs). destruct (delivered gb.1 (view w) s); [done|]. cbn [length] in Hpay. lia.
    + exfalso. apply not_Exists_Forall in He; [|apply _].
      assert (group_owes gb w = 0) as Hz; [|lia]. unfold group_owes.
      rewrite (sumZ_const _ _ 0); [lia|]. intros s Hs. rewrite Forall_forall in He.
      destruct (owes_bounds gb.1 w s HN Hcount) as (_ & Hz & _). apply Hz.
      apply dec_stable. intros Hd. by apply (He s Hs).
Qed.

Lemma group_other gs gb gb' sched w n w' :
  worker_ok gs → gb ∈ gs → gb' ∈ gs → gb'.1 ≠ gb.1 →
  group_pass cfg sched gb.1 gb.2 w = (Ok n, w') → group_owes gb' w' ≤ group_owes gb' w.
Proof.
  intros Hok Hgb Hgb' Hne Hpass.
  pose proof (pass_other gb.1 gb.2 (wk_quiet _ Hok gb Hgb) _ _ _ _ gb'.1
    (wk_streams _ Hok gb Hgb) Hconc Hne Hpass) as Ho.
  apply sumZ_le. intros s Hs. destruct (Ho s) as (Hsub & _ & Hun). unfold owes.
  rewrite Hun by (intros s' Hs'; by apply (wk_dlq _ Hok gb' gb)).
  apply Z.add_le_mono_r, credit_sublist, owned_sublist, Hsub.
Qed.

(** What every pass over a group does, a pass over all of them does. *)
Lemma run_groups_each (R : W → W → Prop) sched todo_groups w n w' :
  (∀ x, R x x) → (∀ x y z, R x y → R y z → R x z) →
  (∀ gb x k y, gb ∈ todo_groups → group_pass cfg sched gb.1 gb.2 x = (Ok k, y) → R x y) →
  run_groups cfg sched todo_groups w = (Ok n, w') → R w w'.
Proof.
  intros Hrefl Htrans. revert w n; induction todo_groups as [|[g bs] rest IH]; intros w n Heach;
    cbn [run_groups].
  { intros [= _ <-]. apply Hrefl. }
  intros (k & w1 & Hpass & Hrest)%eff_bind_Ok.
  apply eff_bind_Ok in Hrest as (k' & w2 & Hrest & Hret). injection Hret as _ <-.
  apply (Htrans _ w1); [by apply (Heach (g, bs) w k w1); [left|]|].
  apply (IH w1 k'); [|done]. intros gb x j y Hgb. apply Heach. by right.
Qed.

Lemma group_monotone gs gb gb' sched w n w' :
  worker_ok gs → gb ∈ gs → gb' ∈ gs →
  group_pass cfg sched gb.1 gb.2 w = (Ok n, w') → group_owes gb' w' ≤ group_owes gb' w.
Proof.
  intros Hok Hgb Hgb' Hpass. destruct (decide (gb'.1 = gb.1)) as [Heq|Hne].
  - assert (gb' = gb) as -> by (by eapply (NoDup_fmap_key fst); [apply (wk_names _ Hok)|..]).
    by eapply group_self.
  - by eapply (group_other gs gb).
Qed.

Lemma run_groups_pays gs sched todo_groups w n w' :
  worker_ok gs → (∀ gb, gb ∈ todo_groups → gb ∈ gs) →
  run_groups cfg sched todo_groups w = (Ok n, w') →
  (∀ gb, gb ∈ gs → group_owes gb w' ≤ group_owes gb w) ∧
  ∀ gb, gb ∈ todo_groups → 0 < group_owes gb w → group_owes gb w' < group_owes gb w.
Proof.
  intros Hok. revert w n; induction todo_groups as [|[g bs] rest IH]; intros w n Hin;
    cbn [run_groups].
  { intros [= _ <-]. split; [done|]. by intros gb ?%elem_of_nil. }
  intros (k & w1 & Hpass & Hrest)%eff_bind_Ok.
  apply eff_bind_Ok in Hrest as (k' & w2 & Hrest & Hret). injection Hret as _ <-.
  assert ((g, bs) ∈ gs) as Hgb by (apply Hin; left).
  assert (∀ gb, gb ∈ gs → group_owes gb w1 ≤ group_owes gb w) as Hall
    by (intros gb Hgs; by eapply (group_monotone gs (g, bs))).
  destruct (IH w1 k' (λ gb H', Hin gb ltac:(by right)) Hrest) as (Hle2 & Hlt2).
  split; [intros gb Hgs; etrans; [by apply Hle2|by apply Hall]|].
  intros gb Hgb2 Hpos. apply elem_of_cons in Hgb2 as [->|Hgb2].
  - destruct (group_self gs (g, bs) sched w k w1 Hok Hgb Hpass) as [_ Hlt].
    specialize (Hlt Hpos). specialize (Hle2 _ Hgb). lia.
  - specialize (Hall gb (Hin gb ltac:(by right))). specialize (Hle2 gb (Hin gb ltac:(by right))).
    destruct (decide (0 < group_owes gb w1)) as [Hp|Hp]; [specialize (Hlt2 gb Hgb2 Hp)|]; lia.
Qed.

Lemma run_groups_below gs sched w n w' :
  worker_ok gs → run_groups cfg sched gs w = (Ok n, w') → all_below gs w → all_below gs w'.
Proof.
  intros Hok. apply (run_groups_each (λ x y, all_below gs x → all_below gs y)); [done|naive_solver|].
  intros gb x k y Hgb Hpass Hb gb' Hgb'. destruct (decide (gb'.1 = gb.1)) as [Heq|Hne].
  - assert (gb' = gb) as -> by (by eapply (NoDup_fmap_key fst); [apply (wk_names _ Hok)|..]).
    eapply (pass_below gb.1 gb.2 (wk_quiet _ Hok gb Hgb)); [by apply (wk_streams _ Hok)|done| |exact Hpass].
    by apply Hb.
  - intros s p Hs Hp Hown. apply (Hb _ Hgb' s p); [done| |done]. eapply elem_of_sublist; [exact Hp|].
    by apply (pass_other gb.1 gb.2 (wk_quiet _ Hok gb Hgb) _ _ _ _ gb'.1
      (wk_streams _ Hok gb Hgb) Hconc Hne Hpass).
Qed.

(** ** Whole passes *)

(** What a worker's subscriptions must satisfy. *)
Record subscriptions_ok (subs : list (Subscription W)) : Prop := {
  so_quiet : ∀ sub t h ctx env w r w', sub ∈ subs →
    alist_get t (sub_handlers sub) = Some h → h ctx env w = (r, w') → view w' = view w;
  so_dlq : ∀ sub sub', sub ∈ subs → sub' ∈ subs → sub_stream sub ≠ dlq_of (sub_stream sub')
}.

Lemma subscriptions_worker_ok subs : subscriptions_ok subs → worker_ok (by_group subs).
Proof.
  intros [Hq Hd]. destruct (by_group_grouped subs) as (Hnd & Hin & _). split.
  - done.
  - intros gb Hgb. by apply Hin.
  - intros gb Hgb s sub t h ctx env w r w' Hs Hh Hrun. apply alist_get_elem in Hs.
    destruct (Hin gb Hgb) as [_ Hx]. destruct (Hx _ _ Hs) as (Hsub & _). by eapply Hq.
  - intros gb gb' s s' Hgb Hgb' Hs Hs'.
    apply list_elem_of_fmap in Hs as ([k sub] & -> & Hs).
    apply list_elem_of_fmap in Hs' as ([k' sub'] & -> & Hs').
    destruct (Hin gb Hgb) as [_ Hx]. destruct (Hx _ _ Hs) as (? & <- & _).
    destruct (Hin gb' Hgb') as [_ Hx']. destruct (Hx' _ _ Hs') as (? & <- & _). by apply Hd.
Qed.

(** Every entry the consumer holds has deliveries to spare. *)
Definition within_budget (subs : list (Subscription W)) w : Prop :=
  ∀ sub p, sub ∈ subs → p ∈ pend (view w) (sub_stream sub) (sub_group sub) →
    pe_owner p = consumer_name cfg → pe_count p < max_deliveries cfg.

Lemma within_budget_all subs w : within_budget subs w ↔ all_below (by_group subs) w.
Proof.
  destruct (by_group_grouped subs) as (Hnd & Hin & Hcov). split.
  - intros Hb gb Hgb s p Hs Hp Ho. apply list_elem_of_fmap in Hs as ([k sub] & -> & Hs).
    destruct (Hin gb Hgb) as [_ Hx]. destruct (Hx _ _ Hs) as (Hsub & <- & Hg).
    apply (Hb sub p); [done| |done]. cbn in Hp. by rewrite Hg.
  - intros Hb sub p Hsub Hp Ho. destruct (Hcov sub Hsub) as (gb & Hgb & Hg & Hs).
    apply (Hb gb Hgb (sub_stream sub) p); [done| |done]. by rewrite Hg.
Qed.

(** What is still owed to everything subscribed to: for an entry pending with the
    consumer the deliveries it may yet have, for an unread one all of them. *)
Definition owed (subs : list (Subscription W)) w : Z := total_owed (by_group subs) w.

Lemma group_owes_pos gb w : 0 ≤ group_owes gb w.
Proof.
  apply sumZ_nonneg, Forall_fmap, Forall_forall. intros s _. by apply (owes_bounds gb.1 w s).
Qed.

Lemma run_once_pays subs sched w n w' :
  subscriptions_ok subs → run_once cfg sched subs w = (Ok n, w') →
  0 ≤ owed subs w' ∧ owed subs w' ≤ Z.max 0 (owed subs w - 1).
Proof.
  intros Hok%subscriptions_worker_ok Hrun.
  destruct (run_groups_pays _ _ _ _ _ _ Hok (λ gb H', H') Hrun) as (Hle & Hlt).
  unfold owed, total_owed. split.
  { apply sumZ_nonneg, Forall_fmap, Forall_true. intros gb. apply group_owes_pos. }
  destruct (decide (Exists (λ gb, 0 < group_owes gb w) (by_group subs))) as [He|He].
  - apply Exists_exists in He as (gb & Hgb & Hgt).
    assert (sumZ ((λ gb, group_owes gb w') <$> by_group subs)
      < sumZ ((λ gb, group_owes gb w) <$> by_group subs)); [|lia].
    apply sumZ_lt; [done|]. exists gb. split; [done|by apply Hlt].
  - apply not_Exists_Forall in He; [|apply _]. rewrite Forall_forall in He.
    rewrite (sumZ_const _ _ 0); [lia|]. intros gb Hgb.
    specialize (He gb Hgb). specialize (Hle gb Hgb). pose proof (group_owes_pos gb w'). cbn in He. lia.
Qed.

(** Successive passes, one schedule each. *)
Fixpoint run_passes (scheds : list (list nat)) (subs : list (Subscription W)) : eff W exn unit :=
  match scheds with
  | [] => mret tt
  | sched :: scheds => _ ← run_once cfg sched subs; run_passes scheds subs
  end.

Lemma run_passes_pays subs scheds w u w' :
  subscriptions_ok subs → run_passes scheds subs w = (Ok u, w') →
  owed subs w' ≤ Z.max 0 (owed subs w - Z.of_nat (length scheds)).
Proof.
  intros Hok. revert w; induction scheds as [|sched scheds IH]; intros w; cbn [run_passes].
  { intros [= _ <-]. cbn. lia. }
  intros (n & w1 & Hone & Hmore)%eff_bind_Ok.
  destruct (run_once_pays _ _ _ _ _ Hok Hone) as (Hge & Hle).
  specialize (IH w1 Hmore). cbn [length]. lia.
Qed.

Lemma nothing_owed subs w sub :
  owed subs w ≤ 0 → sub ∈ subs →
  owned (consumer_name cfg) (pend (view w) (sub_stream sub) (sub_group sub)) = [] ∧
  unread (view w) (sub_stream sub) (sub_group sub) = [].
Proof.
  intros Hle Hsub.
  destruct (by_group_grouped subs) as (_ & _ & Hcov). destruct (Hcov sub Hsub) as (gb & Hgb & <- & Hs).
  assert (group_owes gb w ≤ 0) as Hz.
  { apply (sumZ_zero (λ gb, group_owes gb w) (by_group subs)); [|done..].
    intros gb' _. apply group_owes_pos. }
  apply (owes_bounds gb.1 w (sub_stream sub) HN Hcount).
  apply (sumZ_zero (λ s, owes gb.1 (view w) s) gb.2.*1); [|done..].
  intros s _. by apply (owes_bounds gb.1 w s).
Qed.

(** A delivery budget is kept by every pass: if each entry the consumer holds has been
    delivered fewer than [max_deliveries] times, the same is true after a completed
    [run_once], whatever the handlers did and however the lanes interleaved. *)
Theorem retry_budget_is_kept subs sched w n w' :
  subscriptions_ok subs → within_budget subs w → run_once cfg sched subs w = (Ok n, w') →
  within_budget subs w'.
Proof.
  intros Hok%subscriptions_worker_ok Hb Hrun. rewrite within_budget_all in Hb |- *.
  by eapply run_groups_below.
Qed.

(** The per-message policy, whatever the interleaving: after a completed pass over a group
    every message it read has a verdict of its own and the state the verdict asks for:
    acknowledged, moved to [<stream>.dlq] with its bytes, or still pending, and that only
    with deliveries to spare. *)
Theorem pass_follows_policy g by_stream sched w n w' :
  quiet by_stream → NoDup by_stream.*1 → group_pass cfg sched g by_stream w = (Ok n, w') →
  ∃ ms : list StreamMessage, (∀ s id, s ∈ by_stream.*1 → id ∈ delivered g (view w) s → ∃ m, m ∈ ms ∧ mkey m = (s, id)) ∧
    ∀ m, m ∈ ms → ∃ v, judged by_stream anywhere m v ∧ settled g m v w' ∧
      (v = LeavePending → msg_delivery_count m < max_deliveries cfg).
Proof.
  intros Hq Hss Hpass. destruct (pass_Ok g by_stream Hq _ _ _ _ Hss Hconc Hpass) as (ms & w1 & Hr & _ & Hset & _).
  exists ms. split; [intros s id; by eapply read_message|].
  intros m Hm. destruct (Hset m Hm) as (v & Hj & Hsv). exists v. split_and!; [done..|].
  intros ->. by eapply judged_leave.
Qed.
End Delivery.
