(* ===== verification/Settlement.v ===== *)
(** * Settlement: what becomes of every message a consumer has before it

    [consumers/engine.py] again, from the other side than [Delivery]: while the server
    answers and what it holds can be read, passes complete, and each message the consumer
    held or had not read is acknowledged or dead-lettered for a reason the policy gives. *)

From S2P Require Import Prelude Text Calendar Errors Framework Files Events Wire Streams Engine Delivery.

Open Scope Z_scope.

Section Settlement.
Context {W : Type} `{StreamServerLaws W, Interpreter, ExnText}.
Variable cfg : EngineConfig.
Implicit Types (w : W) (m : StreamMessage) (v : Verdict).

Abbreviation me := (consumer_name cfg).

(** ** The conditions *)

(** The entry is pending with the consumer, or unread by its group. *)
Definition at_hand w (s g id : text) : Prop :=
  id ∈ pe_id <$> owned me (pend (view w) s g) ∨ id ∈ unread (view w) s g.

Definition encodable (t : text) : Prop := ∃ b, utf8 t = Ok b.

(** A payload the engine can act on: it is missing, or no JSON, or JSON within the
    parser's depth whose [type] is no array or object. *)
Definition legible (raw : option bytes) : Prop :=
  match raw with
  | None => True
  | Some raw =>
      match loads raw with
      | Ok (JObj envelope) =>
          match get "type" envelope with JArr (_ :: _) | JObj (_ :: _) => False | _ => True end
      | Err RecursionError | Err OutOfFuel => False
      | _ => True
      end
  end.

(** Wherever [ok] holds, [c] succeeds, keeps it, and gives what [Q] says. *)
Definition yields {E A} (ok : W → Prop) (c : eff W E A) (Q : A → Prop) : Prop :=
  ∀ w, ok w → ∃ a w', c w = (Ok a, w') ∧ ok w' ∧ Q a.

Definition anything {A} : A → Prop := λ _, True.

(** The conditions under which passes complete, kept by whatever a pass does: the server
    answers, an entry's fields are what was published or gone, and what is published is legible. *)
Record serves (subs : list (Subscription W)) (contents : text → text → fields) (ok : W → Prop)
    : Prop := {
  sv_read : ∀ g ss from, yields ok (xreadgroup g me from ss (batch_count cfg)) anything;
  sv_pending : ∀ s g lo hi n, yields ok (xpending_range s g lo hi n me) anything;
  sv_ack : ∀ s g id, yields ok (xack s g id) anything;
  sv_move : ∀ s fs g id, yields ok (xadd_xack (dlq_of s) fs s g id) anything;
  sv_handler : ∀ sub t h ctx env w r w', sub ∈ subs → alist_get t (sub_handlers sub) = Some h →
    ok w → h ctx env w = (r, w') → ok w';
  sv_body : ∀ sub w id, sub ∈ subs → ok w → at_hand w (sub_stream sub) (sub_group sub) id →
    encodable id ∧ body (view w) (sub_stream sub) id ∈ [contents (sub_stream sub) id; []];
  sv_legible : ∀ sub id, sub ∈ subs → legible (alist_get CE_FIELD (contents (sub_stream sub) id));
  sv_names : ∀ sub, sub ∈ subs → encodable (sub_stream sub) ∧ encodable (sub_group sub);
  sv_reasons : ∀ r, encodable (reason_text r)
}.

(** ** The outcomes *)

Definition acceptable (envelope : list (text * json)) : bool :=
  truthy (get "type" envelope) && truthy (get "workspaceid" envelope) && truthy (get "id" envelope).

Definition context_of (envelope : list (text * json)) : JobContext :=
  mk_JobContext (get "workspaceid" envelope)
    (if truthy (get "correlationid" envelope) then get "correlationid" envelope else get "id" envelope).

(** Why a message may leave the stream: its entry is gone or does not say what it is, nobody
    subscribed to its type, or the handler ran, at a state where [ok] holds, and returned,
    or failed for good, or failed with the budget spent. *)
Inductive warranted (by_stream : list (text * Subscription W)) (ok : W → Prop) m : Verdict → Prop :=
  | dropped : msg_trimmed m = true → warranted by_stream ok m (DeadLetter EntryTrimmed)
  | malformed : msg_trimmed m = false → decode m = Ok None →
      warranted by_stream ok m (DeadLetter MalformedEnvelope)
  | unroutable env : msg_trimmed m = false → decode m = Ok (Some env) → acceptable env = false →
      warranted by_stream ok m (DeadLetter UnroutableEnvelope)
  | unclaimed env : msg_trimmed m = false → decode m = Ok (Some env) → acceptable env = true →
      route by_stream m (get "type" env) = Ok None → warranted by_stream ok m (Ack false)
  | handled env h w w' : msg_trimmed m = false → decode m = Ok (Some env) → acceptable env = true →
      route by_stream m (get "type" env) = Ok (Some h) →
      ok w → h (context_of env) env w = (Ok tt, w') → warranted by_stream ok m (Ack true)
  | rejected env h w e w' : msg_trimmed m = false → decode m = Ok (Some env) → acceptable env = true →
      route by_stream m (get "type" env) = Ok (Some h) →
      ok w → h (context_of env) env w = (Err e, w') → is_permanent e = true →
      warranted by_stream ok m (DeadLetter (HandlerRejected e))
  | exhausted env h w e w' : msg_trimmed m = false → decode m = Ok (Some env) → acceptable env = true →
      route by_stream m (get "type" env) = Ok (Some h) →
      ok w → h (context_of env) env w = (Err e, w') → is_permanent e = false →
      max_deliveries cfg ≤ msg_delivery_count m →
      warranted by_stream ok m (DeadLetter (HandlerFailed e)).

(** The message is what was published under its entry, or the entry was trimmed. *)
Definition faithful (contents : text → text → fields) m : Prop :=
  ∃ fs, fs ∈ [contents (msg_stream m) (msg_entry_id m); []] ∧
    msg_raw m = alist_get CE_FIELD fs ∧ msg_trimmed m = bool_decide (fs = []).

(** A dead-lettered message lies on its stream's [.dlq]. *)
Definition recorded (g : text) m v w : Prop :=
  match v with
  | DeadLetter _ => ∃ fs, (dlq_of (msg_stream m), fs) ∈ added (view w) ∧
      dead_letter_for (msg_stream m) g (msg_entry_id m) (msg_raw m) fs
  | _ => True
  end.

(** The entry has left the group, acknowledged or dead-lettered with good reason. *)
Definition over (g : text) (by_stream : list (text * Subscription W))
    (contents : text → text → fields) (ok : W → Prop) (s id : text) w : Prop :=
  id ∉ pe_id <$> pend (view w) s g ∧ id ∉ unread (view w) s g ∧
  ∃ m v, mkey m = (s, id) ∧ faithful contents m ∧ warranted by_stream ok m v ∧ recorded g m v w.

(** ** Passes complete *)

Section Progress.
Variables (subs : list (Subscription W)) (contents : text → text → fields) (ok : W → Prop).
Hypothesis Hserves : serves subs contents ok.

Lemma yields_ret {E A} (Q : A → Prop) a : Q a → yields (E := E) ok (mret a) Q.
Proof. intros Hq w Hok. by exists a, w. Qed.

Lemma yields_lift {E A} (Q : A → Prop) (r : result E A) a : r = Ok a → Q a → yields ok (eff_lift r) Q.
Proof. intros -> Hq w Hok. by exists a, w. Qed.

Lemma yields_bind {E A B} (P : A → Prop) (Q : B → Prop) (c : eff W E A) (k : A → eff W E B) :
  yields ok c P → (∀ a, P a → yields ok (k a) Q) → yields ok (c ≫= k) Q.
Proof.
  intros Hc Hk w Hok. destruct (Hc w Hok) as (a & w1 & Ha & Hok1 & Hp).
  destruct (Hk a Hp w1 Hok1) as (b & w2 & Hb & Hrest). exists b, w2.
  split; [|done]. apply eff_bind_Ok. by exists a, w1.
Qed.

Lemma yields_any {E A} (c : eff W E A) Q : yields ok c Q → yields ok c anything.
Proof. intros Hc w Hok. destruct (Hc w Hok) as (a & w1 & ? & ? & _). by exists a, w1. Qed.

Lemma yields_translating {A} (folds : text → option A) (c : eff W redis_error A) Q :
  yields ok c Q → yields ok (translating folds c) Q.
Proof.
  intros Hc w Hok. destruct (Hc w Hok) as (a & w1 & Ha & Hrest). exists a, w1.
  unfold translating. by rewrite Ha.
Qed.

(** [ok] survives whatever succeeds. *)
Lemma yields_keeps {E A} (c : eff W E A) Q w a w' : yields ok c Q → ok w → c w = (Ok a, w') → ok w' ∧ Q a.
Proof. intros Hc Hok Hrun. destruct (Hc w Hok) as (b & w1 & Hb & ? & ?). rewrite Hrun in Hb. by injection Hb as -> ->. Qed.

Section Pass.
Variable gb : text * list (text * Subscription W).
Hypothesis Hgb : gb ∈ by_group subs.

Lemma in_group s sub : (s, sub) ∈ gb.2 → sub ∈ subs ∧ sub_stream sub = s ∧ sub_group sub = gb.1.
Proof. destruct (by_group_grouped subs) as (_ & Hin & _). by apply Hin. Qed.

Lemma group_streams : NoDup gb.2.*1.
Proof. destruct (by_group_grouped subs) as (_ & Hin & _). by apply Hin. Qed.

Lemma stream_named s : s ∈ gb.2.*1 → encodable s ∧ encodable gb.1.
Proof.
  intros ([s' sub] & -> & Hin)%list_elem_of_fmap. destruct (in_group _ _ Hin) as (Hsub & <- & <-).
  by apply (sv_names _ _ _ Hserves).
Qed.

(** What [read] returns of a message. *)
Definition sound m : Prop :=
  msg_stream m ∈ gb.2.*1 ∧ encodable (msg_entry_id m) ∧ faithful contents m ∧ legible (msg_raw m).

Lemma sound_entry w s id :
  ok w → s ∈ gb.2.*1 → at_hand w s gb.1 id → sound (to_message (s, id, body (view w) s id)).
Proof.
  intros Hok Hs Hid. split; [done|].
  apply list_elem_of_fmap in Hs as ([s' sub] & Heq & Hin). cbn in Heq. subst s'.
  destruct (in_group _ _ Hin) as (Hsub & Hstream & Hg). rewrite <- Hg, <- Hstream in *.
  destruct (sv_body _ _ _ Hserves sub w id Hsub Hok Hid) as (Henc & Hbody).
  split; [done|]. split.
  - by exists (body (view w) (sub_stream sub) id).
  - cbn. apply elem_of_cons in Hbody as [Hb|Hb%list_elem_of_singleton]; rewrite Hb; [|done].
    by apply (sv_legible _ _ _ Hserves).
Qed.

Lemma sound_count rows m : sound m → sound (with_count rows m).
Proof. done. Qed.

Lemma own_yields n : n = batch_count cfg →
  yields ok (xreadgroup gb.1 me OwnPending gb.2.*1 n) (λ r, ∀ m, m ∈ to_messages r → sound m).
Proof.
  intros -> w Hok. destruct (sv_read _ _ _ Hserves gb.1 gb.2.*1 OwnPending w Hok) as (r & w1 & Hr & Hok1 & _).
  exists r, w1. split_and!; [done..|].
  apply (acts_Ok _ _ _ _ _ (xreadgroup_own_acts _ _ _ _ group_streams)) in Hr as (Hflat & _).
  intros m. unfold to_messages. rewrite Hflat, <- list_fmap_compose.
  intros ([s id] & -> & [Hs Hid]%elem_of_spread)%list_elem_of_fmap. apply sound_entry; [done..|].
  left. unfold reread in Hid. eapply elem_of_sublist; [exact Hid|]. apply fmap_sublist, sublist_take.
Qed.

Lemma new_yields ms n : n = batch_count cfg →
  yields ok (xreadgroup gb.1 me (NewEntries ms) gb.2.*1 n) (λ r, ∀ m, m ∈ to_messages r → sound m).
Proof.
  intros -> w Hok. destruct (sv_read _ _ _ Hserves gb.1 gb.2.*1 (NewEntries ms) w Hok) as (r & w1 & Hr & Hok1 & _).
  exists r, w1. split_and!; [done..|].
  apply (acts_Ok _ _ _ _ _ (xreadgroup_new_acts _ _ _ _ _ group_streams)) in Hr as (Hflat & _).
  intros m. unfold to_messages. rewrite Hflat, <- list_fmap_compose.
  intros ([s id] & -> & [Hs Hid]%elem_of_spread)%list_elem_of_fmap. apply sound_entry; [done..|].
  right. eapply elem_of_sublist; [exact Hid|apply sublist_take].
Qed.

Lemma counts_yield ms g ss : yields ok (delivery_counts_of ms g me ss) anything.
Proof.
  induction ss as [|s ss IH]; cbn [delivery_counts_of]; [by apply yields_ret|].
  eapply yields_bind; [apply (sv_pending _ _ _ Hserves)|]. intros rows _.
  eapply yields_bind; [exact IH|]. intros more _. by apply yields_ret.
Qed.

Lemma read_yields :
  yields ok (read gb.2.*1 gb.1 me (batch_count cfg) (block_ms cfg)) (λ ms, ∀ m, m ∈ ms → sound m).
Proof.
  apply yields_translating. eapply yields_bind; [by apply own_yields|]. intros r Hr. cbn zeta.
  eapply (yields_bind (λ ms, ∀ m, m ∈ ms → sound m)).
  - case_bool_decide; [by apply yields_ret|].
    eapply yields_bind; [apply counts_yield|]. intros rows _. apply yields_ret.
    intros m (m0 & -> & Hm)%list_elem_of_fmap. by apply sound_count, Hr.
  - intros rec Hrec. eapply yields_bind; [by apply new_yields|]. intros fr Hfr. apply yields_ret.
    intros m [Hm|Hm]%elem_of_app; [by apply Hrec|by apply Hfr].
Qed.

Lemma decode_legible m : legible (msg_raw m) →
  ∃ o, decode m = Ok o ∧ ∀ envelope, o = Some envelope →
    match get "type" envelope with JArr (_ :: _) | JObj (_ :: _) => False | _ => True end.
Proof.
  unfold decode, legible. destruct (msg_raw m) as [raw|]; [|by exists None].
  destruct (loads raw) as [[| | | | | | |envelope]|[]]; try done; try by exists None.
  intros Ht. exists (Some envelope). split; [done|]. by intros ? [= <-].
Qed.

Lemma routed_keeps m ty h ctx env w r w' :
  route gb.2 m ty = Ok (Some h) → ok w → h ctx env w = (r, w') → ok w'.
Proof.
  unfold route. destruct (alist_get (msg_stream m) gb.2) as [sub|] eqn:Hsub; [|done].
  apply alist_get_elem in Hsub. destruct ty as [| | | | |t| |]; cbn; try done. intros [= Ht] Hok Hrun.
  by eapply (sv_handler _ _ _ Hserves); [apply (in_group _ _ Hsub)|..].
Qed.

(** One handler call at most, of a handler of a subscription. *)
Lemma judge_cases m w r w' :
  ok w → judge cfg gb.2 m w = (r, w') →
  ok w' ∧ (∀ v, r = Ok v → v = LeavePending ∨ warranted gb.2 ok m v) ∧
  (legible (msg_raw m) → ∃ v, r = Ok v).
Proof.
  intros Hok. unfold judge, eff_lift, mret, eff_ret, mbind, eff_bind.
  destruct (msg_trimmed m) eqn:Htrim.
  { intros [= <- <-]. split; [done|]. split; [|by eexists]. intros v [= <-]. right. by apply dropped. }
  destruct (decode m) as [[env|]|e] eqn:Hdec.
  3:{ intros [= <- <-]. split_and!; [done..|]. intros Hl.
      destruct (decode_legible m Hl) as (? & ? & _). congruence. }
  2:{ intros [= <- <-]. split; [done|]. split; [|by eexists]. intros v [= <-]. right. by apply malformed. }
  cbn zeta. rewrite <- !negb_andb. fold (acceptable env).
  destruct (acceptable env) eqn:Hacc; cbn [negb].
  2:{ intros [= <- <-]. split; [done|]. split; [|by eexists]. intros v [= <-]. right.
      by eapply unroutable. }
  destruct (route gb.2 m (get "type" env)) as [[h|]|e] eqn:Hroute.
  - unfold call_handler. fold (context_of env). destruct (h (context_of env) env w) as [[[]|e] w1] eqn:Hrun;
      intros [= <- <-].
    all: assert (ok w1) as Hok1 by (by eapply routed_keeps).
    + split; [done|]. split; [|by eexists]. intros v [= <-]. right. by apply (handled _ _ _ env h w w1).
    + split; [done|]. split; [|by eexists]. intros v [= <-].
      destruct (is_permanent e) eqn:Hp; [right; by apply (rejected _ _ _ env h w e w1)|].
      destruct (_ <=? _) eqn:Hn; [|by left]. right. unbool. by apply (exhausted _ _ _ env h w e w1).
  - intros [= <- <-]. split; [done|]. split; [|by eexists]. intros v [= <-]. right. by eapply unclaimed.
  - intros [= <- <-]. split_and!; [done..|]. intros Hl. exfalso.
    destruct (decode_legible m Hl) as (o & Ho & Hty). rewrite Hdec in Ho. injection Ho as <-.
    specialize (Hty env eq_refl). unfold route, handler_for in Hroute.
    destruct (alist_get _ _); [|done]. unfold acceptable in Hacc.
    destruct (get "type" env) as [| | | | | |[]|[]]; done.
Qed.

Lemma judge_yields m : sound m → yields ok (judge cfg gb.2 m) anything.
Proof.
  intros (_ & _ & _ & Hl) w Hok. destruct (judge cfg gb.2 m w) as [r w'] eqn:Hj.
  destruct (judge_cases m w r w' Hok Hj) as (Hok' & _ & Hv). destruct (Hv Hl) as [v ->]. by exists v, w'.
Qed.

Lemma dead_letter_yields m r : sound m →
  yields ok (dead_letter (msg_stream m) gb.1 (msg_entry_id m) (msg_raw m) (reason_text r)
    (msg_delivery_count m)) anything.
Proof.
  intros ([[b1 H1'] [b4 H4']]%stream_named & [b2 H2'] & _). destruct (sv_reasons _ _ _ Hserves r) as [b3 H3'].
  eapply yields_bind; [by apply (yields_lift anything _ b3)|intros ? _].
  eapply yields_bind; [by apply (yields_lift anything _ b1)|intros ? _].
  eapply yields_bind; [by apply (yields_lift anything _ b2)|intros ? _].
  eapply yields_bind; [by apply (yields_lift anything _ b4)|intros ? _]. cbn zeta.
  apply yields_translating, (sv_move _ _ _ Hserves).
Qed.

Lemma settle_yields m v : sound m → yields ok (settle gb.1 m v) anything.
Proof.
  intros Hm. destruct v as [h|r|]; cbn [settle].
  - eapply yields_bind; [apply yields_translating, (sv_ack _ _ _ Hserves)|]. intros _ _. by apply yields_ret.
  - eapply yields_bind; [by apply dead_letter_yields|]. intros _ _. by apply yields_ret.
  - by apply yields_ret.
Qed.

(** Nothing a pass does to the server ends [ok]. *)
Lemma settle_keeps m v w b w' : ok w → settle gb.1 m v w = (Ok b, w') → ok w'.
Proof.
  intros Hok. destruct v as [h|r|]; cbn [settle]; [| |by intros [= _ <-]].
  - intros (u & w1 & Hack & Hret)%eff_bind_Ok. injection Hret as _ <-.
    by destruct (yields_keeps _ _ _ _ _ (yields_translating never _ _ (sv_ack _ _ _ Hserves _ _ _)) Hok Hack).
  - intros (u & w1 & Hdl & Hret)%eff_bind_Ok. injection Hret as _ <-. unfold dead_letter in Hdl.
    do 4 (apply eff_bind_Ok in Hdl as (? & ? & [_ ->]%eff_lift_Ok & Hdl)). cbn zeta in Hdl.
    by destruct (yields_keeps _ _ _ _ _ (yields_translating never _ _ (sv_move _ _ _ Hserves _ _ _ _)) Hok Hdl).
Qed.

Lemma serving_keeps : keeps cfg gb.1 gb.2 ok.
Proof.
  split.
  - intros w ms w' Hok Hrun. by destruct (yields_keeps _ _ _ _ _ read_yields Hok Hrun).
  - intros m w v w' Hok Hrun. by eapply judge_cases.
  - intros m v w b w'. apply settle_keeps.
Qed.

Lemma run_lane_yields ms : (∀ m, m ∈ ms → sound m) → yields ok (run_lane cfg gb.1 gb.2 ms) anything.
Proof.
  induction ms as [|m ms IH]; intros Hms; cbn [run_lane]; [by apply yields_ret|].
  eapply yields_bind; [|intros b _].
  - eapply yields_bind; [apply judge_yields; apply Hms; left|]. intros v _. apply settle_yields, Hms. by left.
  - eapply yields_bind; [apply IH; intros; apply Hms; by right|]. intros n _. by apply yields_ret.
Qed.

Lemma lane_step_yields l : (∀ m, m ∈ present l → sound m) →
  yields ok (lane_step cfg gb.1 gb.2 l) (λ nl, ∀ m, m ∈ present nl.2 → sound m).
Proof.
  unfold lane_step, present. destruct l as [[|m rest] [[m' v]|]]; cbn [todo flight]; intros Hl.
  1,3: eapply yields_bind; [apply (settle_yields m' v), Hl; left|];
       intros b _; apply yields_ret; intros x Hx; apply Hl; by right.
  - apply yields_ret. intros x Hx. by apply Hl.
  - eapply yields_bind; [apply (judge_yields m), Hl; left|]. intros v _. apply yields_ret. apply Hl.
Qed.

Lemma schedule_yields sched lanes n : (∀ l m, l ∈ lanes → m ∈ present l → sound m) →
  yields ok (run_schedule cfg gb.1 gb.2 sched lanes n) anything.
Proof.
  revert lanes n; induction sched as [|i sched IH]; intros lanes n Hl; cbn [run_schedule]; [by apply yields_ret|].
  destruct (lanes !! i) as [l|] eqn:Hi; [|by apply IH].
  eapply yields_bind; [apply lane_step_yields; intros m; apply Hl; by eapply list_elem_of_lookup_2|].
  intros [k l'] Hl'. apply IH. intros l0 m Hl0. destruct (concat_insert lanes i l l' Hi) as (_ & _ & _ & _ & Hin).
  apply Hin in Hl0 as [->|Hl0]; [apply Hl'|by apply Hl].
Qed.

Lemma lanes_total width ms : (∀ m, m ∈ ms → sound m) → ∃ ls, lanes_of width ms = Ok ls.
Proof.
  intros Hms. unfold lanes_of.
  assert (∃ keyed, map_result (λ m, k ← entity_key m; Ok (k, m)) ms = Ok keyed) as [keyed ->]; [|by eexists].
  induction ms as [|m ms IH]; cbn [map_result]; [by eexists|].
  destruct IH as [ks Hks]; [intros; apply Hms; by right|].
  destruct (decode_legible m) as (o & Ho & _); [apply Hms; left|].
  assert (∃ k, entity_key m = Ok k) as [k ->].
  { unfold entity_key. rewrite Ho. cbn. destruct (get _ _) as [| | | | |[]| |]; by eexists. }
  cbn in Hks |- *. rewrite Hks. by eexists.
Qed.

Lemma group_pass_yields sched : (0 < concurrency cfg)%nat → yields ok (group_pass cfg sched gb.1 gb.2) anything.
Proof.
  intros Hconc. eapply yields_bind; [apply read_yields|]. intros ms Hms. destruct (_ || _).
  - by apply run_lane_yields.
  - destruct (lanes_total (concurrency cfg) ms Hms) as [ls Hls].
    eapply yields_bind; [by apply (yields_lift (λ x, x = ls) _ ls)|]. intros ? ->. cbn zeta.
    destruct (lanes_concat _ _ _ Hconc Hls) as [_ Hperm].
    eapply yields_bind; [apply schedule_yields|intros [h lanes] _; by apply yields_ret].
    intros l m (x & -> & Hx)%list_elem_of_fmap Hm. apply Hms. rewrite <- Hperm.
    apply list_elem_of_In, in_concat. exists x. split; by apply list_elem_of_In.
Qed.
End Pass.

Hypothesis Hconc : (0 < concurrency cfg)%nat.

Lemma run_groups_yields sched gs : (∀ gb, gb ∈ gs → gb ∈ by_group subs) →
  yields ok (run_groups cfg sched gs) anything.
Proof.
  induction gs as [|[g bs] gs IH]; intros Hgs; cbn [run_groups]; [by apply yields_ret|].
  eapply yields_bind; [apply (group_pass_yields (g, bs)); [apply Hgs; left|done]|]. intros n _.
  eapply yields_bind; [apply IH; intros; apply Hgs; by right|]. intros k _. by apply yields_ret.
Qed.

Lemma run_passes_yields scheds : yields ok (run_passes cfg scheds subs) anything.
Proof.
  induction scheds as [|sched scheds IH]; cbn [run_passes]; [by apply yields_ret|].
  eapply yields_bind; [by apply run_groups_yields|]. by intros n _.
Qed.

(** ** Messages are followed *)

Hypothesis Hok : subscriptions_ok subs.

Section Followed.
Variables (gb : text * list (text * Subscription W)) (s id : text).
Hypotheses (Hgb : gb ∈ by_group subs) (Hs : s ∈ gb.2.*1).

Abbreviation over_here := (over gb.1 gb.2 contents ok s id).
Abbreviation at_hand_here := (λ w, at_hand w s gb.1 id).

Lemma never_dlq gb' s' : gb' ∈ by_group subs → s' ∈ gb'.2.*1 → s ≠ dlq_of s'.
Proof. intros Hgb' Hs'. by apply (wk_dlq _ (subscriptions_worker_ok _ Hok) gb gb'). Qed.

Lemma group_quiet gb' : gb' ∈ by_group subs → quiet gb'.2.
Proof. apply (wk_quiet _ (subscriptions_worker_ok _ Hok)). Qed.

(** What is over stays over while nothing enters the group. *)
Lemma over_stays w w' :
  (∀ i, i ∈ pe_id <$> pend (view w') s gb.1 → i ∈ pe_id <$> pend (view w) s gb.1 ∨ i ∈ unread (view w) s gb.1) →
  (∀ i, i ∈ unread (view w') s gb.1 → i ∈ unread (view w) s gb.1) →
  (∃ more, added (view w') = added (view w) ++ more) → over_here w → over_here w'.
Proof.
  intros Hp Hu [more Ha] (Hnp & Hnu & m & v & Hk & Hf & Hv & Hr). split_and!.
  - intros [|]%Hp; contradiction.
  - by intros ?%Hu.
  - exists m, v. split_and!; [done..|]. destruct v; cbn in *; try done.
    destruct Hr as (fs & Hin & Hfs). exists fs. split; [|done]. rewrite Ha. apply elem_of_app. by left.
Qed.

Lemma delivered_is_read w :
  id ∈ delivered cfg gb.1 (view w) s →
  id ∉ drop (Z.to_nat (batch_count cfg)) (unread (view w) s gb.1).
Proof.
  intros [Hre|Hnew]%elem_of_app Hdrop.
  - apply (unread_after w s gb.1 id); [eapply elem_of_sublist; [exact Hdrop|apply sublist_drop]|].
    eapply elem_of_sublist; [exact Hre|]. apply fmap_sublist.
    etrans; [apply sublist_take|apply filter_sublist_bool].
  - pose proof (unread_distinct w s gb.1) as Hnd.
    rewrite <- (take_drop (Z.to_nat (batch_count cfg))) in Hnd. apply NoDup_app in Hnd as (_ & Hdis & _).
    by apply (Hdis id).
Qed.

(** The pass over its own group delivers the entry or leaves it where it was. *)
Lemma own_pass_follows sched w n w' :
  ok w → group_pass cfg sched gb.1 gb.2 w = (Ok n, w') →
  at_hand_here w → at_hand_here w' ∨ over_here w'.
Proof.
  intros Hokw Hpass Hhand.
  destruct (group_pass_Ok cfg gb.1 gb.2 ok (group_quiet _ Hgb) (serving_keeps gb Hgb) _ _ _ _
    (group_streams gb Hgb) Hconc Hokw Hpass) as (ms & w1 & Hread & Hr & _ & Hset & Hsub & Hkeep & Hun & _).
  destruct (rp_groups _ _ _ _ _ _ _ Hr s Hs) as [Hp1 Hu1].
  assert (unread (view w') s gb.1 = unread (view w1) s gb.1) as Hu'.
  { apply Hun. intros m Hm. apply (never_dlq gb); [done|]. by eapply read_streams. }
  destruct (decide (id ∈ delivered cfg gb.1 (view w) s)) as [Hd|Hd].
  - destruct (read_message cfg gb.1 gb.2 _ _ _ _ _ Hr Hs Hd) as (m & Hm & Hk).
    destruct (Hset m Hm) as (v & (wj & wj' & Hokj & Hj) & Hsv). injection Hk as Hms Hmid.
    destruct (judge_cases gb Hgb m _ _ _ Hokj Hj) as (_ & Hcase & _).
    destruct (Hcase v eq_refl) as [->|Hw].
    + left. left. unfold settled, held in Hsv. rewrite Hms, Hmid in Hsv.
      apply list_elem_of_fmap. eexists. split; [|by apply elem_of_owned; split; [exact Hsv|]]. done.
    + right. assert (gone gb.1 m w' ∧ recorded gb.1 m v w') as [Hgone Hrec].
      { inversion Hw; subst v; cbn in Hsv |- *; naive_solver. }
      unfold gone in Hgone. rewrite Hms, Hmid in Hgone. split_and!; [done| |].
      * rewrite Hu', Hu1. by apply delivered_is_read.
      * exists m, v. split_and!; [by rewrite <- Hms, <- Hmid| |done..].
        by apply (yields_keeps _ _ _ _ _ (read_yields gb Hgb) Hokw Hread).
  - left. destruct Hhand as [Hhand|Hhand].
    + left. apply list_elem_of_fmap in Hhand as (p & -> & [Hp Ho]%elem_of_owned).
      apply list_elem_of_fmap_2. apply elem_of_owned. split; [|done]. apply Hkeep.
      * rewrite Hp1. apply elem_of_app. left. apply elem_of_bump. exists p. split_and!; [done..|].
        rewrite bool_decide_false; [lia|]. intros Hin. apply Hd, elem_of_app. by left.
      * intros _ Hin. change (mkey <$> ms) with ((λ m, (msg_stream m, msg_entry_id m)) <$> ms) in Hin.
        rewrite (rp_keys _ _ _ _ _ _ _ Hr) in Hin. apply Hd, elem_of_app.
        apply elem_of_app in Hin as [[_ ?]%elem_of_spread|[_ ?]%elem_of_spread]; [by left|by right].
    + right. rewrite Hu', Hu1.
      rewrite <- (take_drop (Z.to_nat (batch_count cfg)) (unread (view w) s gb.1)) in Hhand.
      apply elem_of_app in Hhand as [Hin|]; [|done]. exfalso. apply Hd, elem_of_app. by right.
Qed.

Lemma own_pass_keeps_over sched w n w' :
  group_pass cfg sched gb.1 gb.2 w = (Ok n, w') → over_here w → over_here w'.
Proof.
  intros Hpass. pose proof (group_streams gb Hgb) as Hss.
  destruct (pass_Ok cfg gb.1 gb.2 (group_quiet _ Hgb) _ _ _ _ Hss Hconc Hpass)
    as (ms & w1 & Hr & Hms & _ & Hsub & _ & Hun & _).
  destruct (rp_groups _ _ _ _ _ _ _ Hr s Hs) as [Hp1 Hu1].
  apply over_stays; [| |by eapply (pass_added cfg gb.1 gb.2 (group_quiet _ Hgb))].
  - intros i (p & -> & Hp)%list_elem_of_fmap. eapply elem_of_sublist in Hp; [|apply Hsub].
    rewrite Hp1 in Hp. apply elem_of_app in Hp as [Hp|Hp].
    + left. rewrite <- (bump_ids (reread me (batch_count cfg) (pend (view w) s gb.1))).
      by apply list_elem_of_fmap_2.
    + right. apply list_elem_of_fmap in Hp as (j & -> & Hj). eapply elem_of_sublist; [exact Hj|apply sublist_take].
  - intros i. rewrite (Hun s gb.1), Hu1; [intros Hi; eapply elem_of_sublist; [exact Hi|apply sublist_drop]|].
    intros m Hm. apply (never_dlq gb); [done|by apply Hms].
Qed.

(** The pass over another group touches neither. *)
Lemma other_pass_follows gb' sched w n w' :
  gb' ∈ by_group subs → gb.1 ≠ gb'.1 → group_pass cfg sched gb'.1 gb'.2 w = (Ok n, w') →
  (at_hand_here w → at_hand_here w') ∧ (over_here w → over_here w').
Proof.
  intros Hgb' Hne Hpass.
  destruct (pass_other cfg gb'.1 gb'.2 (group_quiet _ Hgb') _ _ _ _ gb.1 (group_streams gb' Hgb') Hconc Hne Hpass s)
    as (Hsub & Hkeep & Hun).
  specialize (Hun (λ s', never_dlq gb' s' Hgb')). split.
  - intros [Hin|Hin]; [left|right; by rewrite Hun].
    apply list_elem_of_fmap in Hin as (p & -> & [Hp Ho]%elem_of_owned).
    apply list_elem_of_fmap_2. apply elem_of_owned. by split; [apply Hkeep|].
  - apply over_stays; [|by rewrite Hun|by eapply (pass_added cfg gb'.1 gb'.2 (group_quiet _ Hgb')); [apply group_streams|..]].
    intros i Hi. left. eapply elem_of_sublist; [exact Hi|]. by apply fmap_sublist.
Qed.

Lemma passes_follow scheds w u w' :
  ok w → run_passes cfg scheds subs w = (Ok u, w') →
  at_hand_here w ∨ over_here w → at_hand_here w' ∨ over_here w'.
Proof.
  assert (∀ gb' sched x k y, gb' ∈ by_group subs → ok x → group_pass cfg sched gb'.1 gb'.2 x = (Ok k, y) →
    at_hand_here x ∨ over_here x → at_hand_here y ∨ over_here y) as Hone.
  { intros gb' sched x k y Hgb' Hokx Hpass Hx. destruct (decide (gb.1 = gb'.1)) as [Heq|Hne].
    - assert (gb' = gb) as -> by (by eapply (NoDup_fmap_key fst); [apply (wk_names _ (subscriptions_worker_ok _ Hok))|..]).
      destruct Hx as [Hx|Hx]; [by eapply own_pass_follows|right; by eapply own_pass_keeps_over].
    - destruct (other_pass_follows _ _ _ _ _ Hgb' Hne Hpass) as [Ha Hb]. destruct Hx; [left; auto|right; auto]. }
  revert w; induction scheds as [|sched scheds IH]; intros w Hokw; cbn [run_passes]; [by intros [= _ <-]|].
  intros (n & w1 & Hrun & Hmore)%eff_bind_Ok Hw.
  assert (ok w1) as Hok1 by (by destruct (yields_keeps _ _ _ _ _ (run_groups_yields sched _ (λ _ h, h)) Hokw Hrun)).
  apply (IH w1 Hok1 Hmore).
  eapply (run_groups_each cfg (λ x y, ok x → ok y ∧ (at_hand_here x ∨ over_here x → at_hand_here y ∨ over_here y)));
    [..|exact Hrun|exact Hokw|exact Hw].
  - done.
  - naive_solver.
  - intros gb' x k y Hgb' Hpass Hokx. split; [|by eapply Hone].
    by destruct (yields_keeps _ _ _ _ _ (group_pass_yields gb' Hgb' sched Hconc) Hokx Hpass).
Qed.
End Followed.
End Progress.

End Settlement.
