(* ===== verification/Sweeper.v ===== *)
(** * Sweeper: readers that died without leaving

    [infrastructure/messaging/consumers/sweeper.py]: stale consumers of a live group,
    a clean exit's deregistration, and orphaned [cg.notify] groups.  Other processes act
    between the commands of a sweep; a consumer presumed dead must not wake up in between. *)

From S2P Require Import Prelude Text Calendar Errors Framework Files Events Wire Streams.

Open Scope Z_scope.

Definition CG_NOTIFY_PREFIX : text := txt "cg.notify".

(** [NotifyGroup] *)
Record NotifyGroup := mk_NotifyGroup {
  ng_stream : text;
  ng_name : text;
  ng_consumers : Z;
  ng_pending : Z;
  ng_readers : list ConsumerInfo
}.

(** The machine: its name and [os.kill(pid, 0)] ([pid_is_alive]). *)
Class Host := { gethostname : text; pid_is_alive : Z → bool }.

(** Why a group is not destroyed. *)
Inductive Refusal : Type :=
  | HoldsPending | ReaderOwes | LiveReader | Undecidable | ThisHostAlive.

#[export] Instance Refusal_eq_dec : EqDecision Refusal.
Proof. solve_decision. Defined.

Section Orphan.
Context `{Host}.

Definition process_tag (n : NotifyGroup) : text :=
  drop_while (λ c, c =? 46) (slice_from (len CG_NOTIFY_PREFIX) (ng_name n)).

Definition is_this_host (n : NotifyGroup) : bool :=
  starts_with (gethostname ++ txt ".") (process_tag n).

(** [_living_reader] *)
Definition living_reader (n : NotifyGroup) (min_idle : Z) : bool :=
  if min_idle <=? 0 then negb (bool_decide (ng_readers n = []))
  else existsb (λ r, ci_idle_ms r <? min_idle) (ng_readers n).

(** [tag.rsplit(".", 1)[-1]] *)
Definition pid_text (n : NotifyGroup) : text :=
  slice_from (rfind 46 (process_tag n) + 1) (process_tag n).

(** [pid_text.isdigit() and pid_is_alive(int(pid_text))], for ASCII digits. *)
Definition live_pid (t : text) : bool :=
  negb (bool_decide (t = [])) && forallb is_digit t && pid_is_alive (dec t).

(** [is_orphan]: [None] for an orphan, otherwise the gate that refused. *)
Definition is_orphan (n : NotifyGroup) (min_idle : Z) : option Refusal :=
  if 0 <? ng_pending n then Some HoldsPending
  else if 0 <? sumZ (ci_pending <$> ng_readers n) then Some ReaderOwes
  else if living_reader n min_idle then Some LiveReader
  else if (0 <? ng_consumers n) && bool_decide (ng_readers n = []) then Some Undecidable
  else if is_this_host n && live_pid (pid_text n) then Some ThisHostAlive
  else None.
End Orphan.

Section Sweeper.
Context {W : Type} `{StreamServer W}.

(** [_pending_of] *)
Definition pending_of (stream group name : text) : eff W exn Z :=
  infos ← list_consumers stream group;
  mret (match List.find (λ i, bool_decide (ci_name i = name)) infos with
        | Some i => ci_pending i
        | None => 0
        end).

Section Stale.
Variables (live_consumer : text) (min_idle : Z) (stream group : text).

(** One consumer of [sweep_stale_consumers]; whether it was deleted. *)
Definition sweep_one (info : ConsumerInfo) : eff W exn bool :=
  if bool_decide (ci_name info = live_consumer) || (ci_idle_ms info <? min_idle) then mret false
  else
    pending ← (if ci_pending info =? 0 then mret 0
               else _ ← reclaim stream group live_consumer min_idle;
                    pending_of stream group (ci_name info));
    if negb (pending =? 0) then mret false
    else _ ← delete_consumer stream group (ci_name info); mret true.

Fixpoint sweep_infos (infos : list ConsumerInfo) : eff W exn (list text) :=
  match infos with
  | [] => mret []
  | info :: infos =>
      gone ← sweep_one info;
      more ← sweep_infos infos;
      mret (if gone : bool then ci_name info :: more else more)
  end.
End Stale.

Fixpoint sweep_pairs (live_consumer : text) (min_idle : Z) (pairs : list (text * text))
    : eff W exn (list text) :=
  match pairs with
  | [] => mret []
  | (stream, group) :: pairs =>
      infos ← list_consumers stream group;
      swept ← sweep_infos live_consumer min_idle stream group infos;
      more ← sweep_pairs live_consumer min_idle pairs;
      mret (swept ++ more)
  end.

Definition sweep_stale_consumers (pairs : list (text * text)) (live_consumer : text)
    (min_idle : Z) : eff W exn (list text) :=
  sweep_pairs live_consumer min_idle (dict_fromkeys pairs).

(** [deregister_consumer] *)
Fixpoint deregister_pairs (name : text) (pairs : list (text * text)) : eff W exn (list text) :=
  match pairs with
  | [] => mret []
  | (stream, group) :: pairs =>
      pending ← pending_of stream group name;
      if negb (pending =? 0) then deregister_pairs name pairs
      else
        _ ← delete_consumer stream group name;
        more ← deregister_pairs name pairs;
        mret (name :: more)
  end.

Definition deregister_consumer (pairs : list (text * text)) (name : text) : eff W exn (list text) :=
  deregister_pairs name (dict_fromkeys pairs).

(** [read_notify_groups] *)
Fixpoint notify_groups_of (stream : text) (infos : list GroupInfo) : eff W exn (list NotifyGroup) :=
  match infos with
  | [] => mret []
  | i :: infos =>
      if starts_with CG_NOTIFY_PREFIX (gi_name i) then
        readers ← list_consumers stream (gi_name i);
        more ← notify_groups_of stream infos;
        mret (mk_NotifyGroup stream (gi_name i) (gi_consumers i) (gi_pending i) readers :: more)
      else notify_groups_of stream infos
  end.

Fixpoint read_notify_groups (streams : list text) : eff W exn (list NotifyGroup) :=
  match streams with
  | [] => mret []
  | s :: streams =>
      infos ← group_infos s;
      found ← notify_groups_of s infos;
      more ← read_notify_groups streams;
      mret (found ++ more)
  end.

Definition by_name (gs : list NotifyGroup) : list (text * text * NotifyGroup) :=
  foldl (λ d n, alist_set (ng_stream n, ng_name n) n d) [] gs.

(** [find_orphan_notify_groups]; [sleep] is where the rest of the fleet goes on. *)
Definition find_orphan_notify_groups `{Host} (sleep : eff W exn unit) (streams : list text)
    (settles : bool) (min_idle : Z) : eff W exn (list NotifyGroup) :=
  first ← read_notify_groups streams;
  let candidates := List.filter (λ kn, bool_decide (is_orphan kn.2 min_idle = None)) (by_name first) in
  if bool_decide (candidates = []) || negb settles then mret (candidates.*2)
  else
    _ ← sleep;
    second ← read_notify_groups streams;
    mret (omap (λ kn, match alist_get kn.1 (by_name second) with
                      | Some again =>
                          if bool_decide (is_orphan again min_idle = None) then Some again else None
                      | None => None
                      end) candidates).

(** [destroy_orphan_notify_groups] *)
Fixpoint destroy_orphan_notify_groups (orphans : list NotifyGroup) : eff W exn Z :=
  match orphans with
  | [] => mret 0
  | n :: orphans =>
      _ ← destroy_group (ng_stream n) (ng_name n);
      k ← destroy_orphan_notify_groups orphans;
      mret (1 + k)
  end.
End Sweeper.

(** ** Others at work

    Before each command the other processes go on: the next of the given changes of the world
    takes place, whatever they do in it. *)

Definition Beside (W : Type) : Type := W * list (W → W).

Definition behind {W A} (m : eff W redis_error A) : eff (Beside W) redis_error A := λ x,
  match x.2 with
  | [] => let '(r, w) := m x.1 in (r, (w, []))
  | f :: fs => let '(r, w) := m (f x.1) in (r, (w, fs))
  end.

#[export] Instance server_beside {W} `{StreamServer W} : StreamServer (Beside W) := {|
  view x := view x.1;
  id_leb := id_leb (W := W);
  xgroup_create s g := behind (xgroup_create s g);
  xgroup_destroy s g := behind (xgroup_destroy s g);
  xreadgroup g c from ss n := behind (xreadgroup g c from ss n);
  xpending_range s g lo hi n c := behind (xpending_range s g lo hi n c);
  xack s g id := behind (xack s g id);
  xadd s ml fs := behind (xadd s ml fs);
  xadd_xack q fs s g id := behind (xadd_xack q fs s g id);
  xinfo_groups s := behind (xinfo_groups s);
  xinfo_consumers s g := behind (xinfo_consumers s g);
  xgroup_delconsumer s g c := behind (xgroup_delconsumer s g c);
  xautoclaim s g c ms st n := behind (xautoclaim s g c ms st n);
  xlen s := behind (xlen s);
  xrange_first s := behind (xrange_first s)
|}.

(** ** No message is lost *)

Section Safety.
Context {W : Type} `{StreamServerLaws W}.
Implicit Types (b : Broker) (w : W).

(** Every pending entry whose message the stream still holds is pending afterwards,
    with as many deliveries, under its owner or under [live]; nothing else is pending,
    nothing unread moved. *)
Record kept (live : text) b b' : Prop := {
  kept_pending : ∀ s g p, p ∈ pend b s g → body b s (pe_id p) ≠ [] →
    ∃ o, (o = pe_owner p ∨ o = live) ∧ mk_Pending (pe_id p) o (pe_count p) ∈ pend b' s g;
  kept_from : ∀ s g p, p ∈ pend b' s g →
    ∃ o, (pe_owner p = o ∨ pe_owner p = live) ∧ mk_Pending (pe_id p) o (pe_count p) ∈ pend b s g;
  kept_unread : ∀ s g, unread b' s g = unread b s g;
  kept_bodies : same_bodies b b'
}.

Lemma kept_refl live b : kept live b b.
Proof.
  split; [| |done..]; [intros s g p Hp _|intros s g p Hp];
    exists (pe_owner p); (split; [by left|by destruct p]).
Qed.

Lemma kept_trans live b1 b2 b3 : kept live b1 b2 → kept live b2 b3 → kept live b1 b3.
Proof.
  intros [P1 F1 U1 B1] [P2 F2 U2 B2]. split.
  - intros s g p Hp Hb. destruct (P1 s g p Hp Hb) as (o & Ho & Hp1).
    destruct (P2 s g _ Hp1) as (o' & Ho' & Hp2); [cbn; by rewrite B1|].
    exists o'. cbn in *. split; [|done]. destruct Ho' as [-> | ->]; [done|by right].
  - intros s g p Hp. destruct (F2 s g p Hp) as (o & Ho & Hp2).
    destruct (F1 s g _ Hp2) as (o' & Ho' & Hp1). cbn in *. exists o'. split; [|done].
    destruct Ho as [-> | ->]; [destruct Ho' as [-> | ->]; auto|by right].
  - intros s g. by rewrite U2, U1.
  - intros s i. by rewrite B2, B1.
Qed.

(** A consumer other than [live] is handed nothing. *)
Lemma kept_owned live b b' s g c : kept live b b' → c ≠ live →
  owned c (pend b s g) = [] → owned c (pend b' s g) = [].
Proof.
  intros [_ F _ _] Hc Hnil. apply filter_none, Forall_forall. intros p Hp.
  apply bool_decide_eq_false. intros Ho. destruct (F s g p Hp) as (o & [Hpo|Hpo] & Hin); [|congruence].
  assert (mk_Pending (pe_id p) o (pe_count p) ∈ owned c (pend b s g)) as Hown
    by (apply elem_of_owned; cbn; split; congruence).
  rewrite Hnil in Hown. by apply elem_of_nil in Hown.
Qed.

Lemma kept_same live b b' : (∀ s g, pend b' s g = pend b s g) → (∀ s g, unread b' s g = unread b s g) →
  same_bodies b b' → kept live b b'.
Proof.
  intros Hp Hu Hb. split; [| |done..].
  - intros s g p Hin _. exists (pe_owner p). split; [by left|]. rewrite Hp. by destruct p.
  - intros s g p Hin. exists (pe_owner p). split; [by left|]. rewrite <- Hp. by destruct p.
Qed.

Lemma silent_kept {A} live b b' (a : A) : silent b a b' → kept live b b'.
Proof.
  intros Hs. pose proof (λ s g, silent_pend b b' s g a Hs) as Hp. destruct Hs as (_ & _ & Hb).
  apply kept_same; [intros s g; apply Hp..|done].
Qed.

Lemma here_cases (s g s' g' : text) : here s g s' g' ∨ ¬ here s g s' g'.
Proof. unfold here. destruct (decide (s' = s)), (decide (g' = g)); [left|right|right|right]; naive_solver. Qed.

Lemma claims_kept live s g r b b' : claims s g live b r b' → kept live b b'.
Proof.
  intros (He & _ & Hb & Hu & lost & Hlost & Hp). split; [| | |done].
  - intros s' g' p Hin Hne. destruct (here_cases s g s' g') as [[-> ->]|Hn].
    + exists (if bool_decide (pe_id p ∈ r.2) then live else pe_owner p).
      split; [case_bool_decide; [by right|by left]|]. rewrite Hp. apply list_elem_of_fmap.
      exists p. split; [case_bool_decide; [done|by destruct p]|].
      apply elem_of_list_filter_bool. split; [done|]. apply negb_true_iff, bool_decide_eq_false.
      intros Hl. by apply Hne, Hlost.
    + exists (pe_owner p). split; [by left|]. rewrite (proj1 (He _ _ Hn)). by destruct p.
  - intros s' g' p. destruct (here_cases s g s' g') as [[-> ->]|Hn].
    + rewrite Hp. intros (q & -> & Hq)%list_elem_of_fmap.
      apply elem_of_list_filter_bool in Hq as [Hq _]. exists (pe_owner q).
      destruct q as [i o k]. case_bool_decide; cbn; (split; [by auto|done]).
    + rewrite (proj1 (He _ _ Hn)). intros Hin. exists (pe_owner p). split; [by left|by destruct p].
  - intros s' g'. destruct (here_cases s g s' g') as [[-> ->]|Hn]; [done|]. by apply He.
Qed.

(** Deleting a consumer loses nothing when it owns nothing. *)
Lemma drops_kept live s g c n b b' :
  owned c (pend b s g) = [] → drops_consumer s g c b n b' → kept live b b'.
Proof.
  intros Hnil (He & _ & Hb & Hu & _ & Hp).
  assert (pend b' s g = pend b s g) as Hsame.
  { rewrite Hp. apply filter_all, Forall_forall. intros p Hin.
    apply negb_true_iff, bool_decide_eq_false. intros Ho.
    assert (p ∈ owned c (pend b s g)) as Hpo by (by apply elem_of_owned).
    rewrite Hnil in Hpo. by apply elem_of_nil in Hpo. }
  apply kept_same; [| |done]; intros s' g';
    (destruct (here_cases s g s' g') as [[-> ->]|Hn]; [done|by apply He]).
Qed.

(** A command through the adapter, whatever its outcome. *)
Lemma translating_kept {A} live (m : eff W redis_error A) folds spec w r w' :
  acts m spec → (∀ a b b', b = view w → spec b a b' → kept live b b') →
  translating folds m w = (r, w') → kept live (view w) (view w').
Proof.
  intros Hm Hs. specialize (Hm w). unfold translating.
  assert (∀ x, (m w).2 = x → kept live (view w) (view x)) as Hk.
  { intros x. destruct (m w) as [[a|e] w1]; intros <-; cbn; [by eapply Hs|].
    destruct Hm as [Hm|[a Hm]]; [by eapply silent_kept|by eapply Hs]. }
  destruct (m w) as [[a|[t| |]] w1]; intros [= _ <-]; by apply Hk.
Qed.

Lemma list_consumers_kept live s g w r w' :
  list_consumers s g w = (r, w') → kept live (view w) (view w').
Proof.
  apply (translating_kept live _ _ (counts_owners s g)); [apply xinfo_consumers_acts|].
  intros a b b' _ (Hs & _). by eapply silent_kept.
Qed.

(** A successful listing says what each consumer owns. *)
Lemma list_consumers_Ok s g w infos w' :
  list_consumers s g w = (Ok infos, w') →
  (∀ i, i ∈ infos → ci_pending i = 0 → owned (ci_name i) (pend (view w') s g) = []) ∧
  ∀ p, p ∈ pend (view w') s g → pe_owner p ∈ ci_name <$> infos.
Proof.
  unfold list_consumers, translating. pose proof (xinfo_consumers_acts s g w) as Ha.
  destruct (xinfo_consumers s g w) as [[a|[t| |]] w1] eqn:Hx; [| |done..].
  - intros [= <- <-]. destruct Ha as (Hs & Hc & Hall). rewrite (proj1 (silent_pend _ _ s g _ Hs)).
    split; [|done]. intros i Hi Hz. specialize (Hc i Hi). apply nil_length_inv. lia.
  - unfold when. destruct (no_group t) eqn:Hg; intros Heq; [|done].
    assert (infos = []) as -> by congruence. assert (w1 = w') as -> by congruence.
    rewrite (xinfo_consumers_no_group _ _ _ _ _ Hx Hg).
    split; [by intros i ?%elem_of_nil|by intros p ?%elem_of_nil].
Qed.

Lemma delete_consumer_kept live s g c w r w' :
  owned c (pend (view w) s g) = [] →
  delete_consumer s g c w = (r, w') → kept live (view w) (view w').
Proof.
  intros Hnil. apply (translating_kept live _ _ (drops_consumer s g c)); [apply xgroup_delconsumer_acts|].
  intros a b b' ->. by apply drops_kept.
Qed.

(** ** A fleet

    [others] are what the other processes do between two commands, [dead] the consumers that
    read no more and for whom nobody claims, [ok] the worlds the sweep can meet. *)

Record fleet (others : list (W → W)) (dead : text → Prop) (ok : W → Prop) : Prop := {
  fl_others f w : f ∈ others → ok w → ok (f w);
  fl_lists s g w : ok w → ok (xinfo_consumers s g w).2;
  fl_claims s g c ms st n w : ok w → ok (xautoclaim s g c ms st n w).2;
  fl_drops s g c w : ok w → ok (xgroup_delconsumer s g c w).2;
  fl_spares f w s g c : f ∈ others → ok w → dead c →
    owned c (pend (view w) s g) = [] → owned c (pend (view (f w)) s g) = []
}.

(** A consumer idle for the threshold, other than [live], is dead. *)
Definition presumed (live : text) (min_idle : Z) (dead : text → Prop) (ok : W → Prop) : Prop :=
  ∀ s g w infos w' i, ok w → xinfo_consumers s g w = (Ok infos, w') → i ∈ infos →
    ci_name i ≠ live → min_idle ≤ ci_idle_ms i → dead (ci_name i).

Lemma listed_presumed live ms dead ok s g w infos w' i :
  presumed live ms dead ok → ok w → list_consumers s g w = (Ok infos, w') → i ∈ infos →
  ci_name i ≠ live → ms ≤ ci_idle_ms i → dead (ci_name i).
Proof.
  intros Hpre Ho. unfold list_consumers, translating. destruct (xinfo_consumers s g w) as [[a|[t| |]] w1] eqn:Hx.
  - intros [= <- <-]. by eapply Hpre.
  - unfold when. destruct (no_group t); intros [=]; subst. by intros ?%elem_of_nil.
  - done.
  - done.
Qed.

Section Fleet.
Context (others : list (W → W)) (dead : text → Prop) (ok : W → Prop) (live : text).
Context (Hfleet : fleet others dead ok).

(** Either the sweep's own command, which loses nothing, or what the others do. *)
Inductive move : Broker → Broker → Prop :=
  | own_move b b' : kept live b b' → move b b'
  | other_move f w : f ∈ others → ok w → move (view w) (view (f w)).

Definition onward (x x' : Beside W) : Prop :=
  x.2 ⊆ others → ok x.1 → rtc move (view x.1) (view x'.1) ∧ x'.2 ⊆ others ∧ ok x'.1.

Lemma onward_refl x : onward x x.
Proof. by intros ??. Qed.

Lemma onward_trans x y z : onward x y → onward y z → onward x z.
Proof. intros Hxy Hyz Hs Ho. destruct (Hxy Hs Ho) as (? & Hs' & Ho'). destruct (Hyz Hs' Ho'). split; [by etrans|done]. Qed.

Lemma moves_owned b b' s g c : dead c → c ≠ live → rtc move b b' →
  owned c (pend b s g) = [] → owned c (pend b' s g) = [].
Proof.
  intros Hd Hc. induction 1 as [|b b1 b' Hm _ IH]; [done|]. intros Hnil. apply IH.
  destruct Hm as [b b1 Hk|f w Hf Ho]; [by eapply kept_owned|by apply (fl_spares _ _ _ Hfleet)].
Qed.

(** Alone, the sweep loses nothing at all. *)
Lemma moves_alone b b' : others = [] → rtc move b b' → kept live b b'.
Proof.
  intros Hnil. induction 1 as [|b b1 b' Hm _ IH]; [apply kept_refl|]. eapply kept_trans; [|exact IH].
  destruct Hm as [|f w Hf]; [done|]. rewrite Hnil in Hf. by apply elem_of_nil in Hf.
Qed.

(** The world a command finds. *)
Definition arrives (x : Beside W) (w0 : W) (x' : Beside W) : Prop :=
  (w0 = x.1 ∧ x.2 = [] ∧ x'.2 = []) ∨ ∃ f, f ∈ x.2 ∧ x.2 = f :: x'.2 ∧ w0 = f x.1.

Lemma behind_arrives {A} (m : eff W redis_error A) x r x' :
  behind m x = (r, x') → ∃ w0, arrives x w0 x' ∧ m w0 = (r, x'.1).
Proof.
  destruct x as [w [|f fs]]; unfold behind, arrives; cbn [fst snd].
  - destruct (m w) as [r1 w1] eqn:Hm. intros [= <- <-]. exists w. split; [by left|done].
  - destruct (m (f w)) as [r1 w1] eqn:Hm. intros [= <- <-]. exists (f w). split; [|done]. right. exists f. split; [left|done].
Qed.

Lemma translating_arrives {A} folds (m : eff W redis_error A) x r x' :
  translating folds (behind m) x = (r, x') → ∃ w0, arrives x w0 x' ∧ translating folds m w0 = (r, x'.1).
Proof.
  unfold translating. destruct (behind m x) as [y x1] eqn:Hb. apply behind_arrives in Hb as (w0 & Ha & Hm).
  intros Hr. assert (x1 = x') as -> by (destruct y as [?|[]]; congruence). exists w0. split; [done|]. rewrite Hm.
  destruct y as [?|[]]; by injection Hr as <-.
Qed.

Lemma arrives_onward x w0 x' : arrives x w0 x' → kept live (view w0) (view x'.1) →
  (ok w0 → ok x'.1) → onward x x'.
Proof.
  intros Ha Hk Ho Hs Hx. destruct Ha as [(-> & _ & ->)|(f & Hf & Hx2 & ->)].
  - split_and!; [by apply rtc_once, own_move|set_solver|auto].
  - assert (f ∈ others) as Hin by auto. split_and!; [|rewrite Hx2 in Hs; set_solver|apply Ho; by apply (fl_others _ _ _ Hfleet)].
    eapply rtc_l; [by apply other_move|]. by apply rtc_once, own_move.
Qed.

Lemma arrives_owned x w0 x' s g c : arrives x w0 x' → x.2 ⊆ others → ok x.1 → dead c →
  owned c (pend (view x.1) s g) = [] → owned c (pend (view w0) s g) = [].
Proof.
  intros [(-> & _)|(f & Hf & _ & ->)] Hs Hx Hd; [done|]. apply (fl_spares _ _ _ Hfleet); auto.
Qed.

(** One command through the adapter. *)
Lemma translating_ok {A} folds (m : eff W redis_error A) w r w' :
  translating folds m w = (r, w') → (m w).2 = w'.
Proof. unfold translating. destruct (m w) as [[?|[]] ?]; by intros [= _ <-]. Qed.

Lemma list_consumers_onward s g x r x' : list_consumers s g x = (r, x') → onward x x'.
Proof.
  intros (w0 & Ha & Hr)%translating_arrives. eapply arrives_onward; [exact Ha|by eapply list_consumers_kept|].
  intros Ho. rewrite <- (translating_ok _ _ _ _ _ Hr). by apply (fl_lists _ _ _ Hfleet).
Qed.

Lemma listed_Ok s g x infos x' : list_consumers s g x = (Ok infos, x') →
  (∀ i, i ∈ infos → ci_pending i = 0 → owned (ci_name i) (pend (view x'.1) s g) = []) ∧
  ∀ p, p ∈ pend (view x'.1) s g → pe_owner p ∈ ci_name <$> infos.
Proof. intros (w0 & _ & Hr)%translating_arrives. by eapply list_consumers_Ok. Qed.

Lemma delete_consumer_onward s g c x r x' : dead c → (x.2 ⊆ others → ok x.1 → owned c (pend (view x.1) s g) = []) →
  delete_consumer s g c x = (r, x') → onward x x'.
Proof.
  intros Hd Hnil (w0 & Ha & Hr)%translating_arrives Hs Ho. eapply arrives_onward; [exact Ha| | |done|done].
  - eapply delete_consumer_kept; [|exact Hr]. by eapply arrives_owned; [..|apply Hnil].
  - intros Ho0. rewrite <- (translating_ok _ _ _ _ _ Hr). by apply (fl_drops _ _ _ Hfleet).
Qed.

Lemma behind_fmap {A B} (m : eff W redis_error A) (f : A → B) x :
  (a ← behind m; mret (f a)) x = behind (a ← m; mret (f a)) x.
Proof.
  unfold behind, mbind, eff_bind, mret, eff_ret. destruct x as [w [|h fs]]; cbn [fst snd].
  - by destruct (m w) as [[?|?] ?].
  - by destruct (m (h w)) as [[?|?] ?].
Qed.

Lemma acts_fmap {A B} (m : eff W redis_error A) (f : A → B) spec :
  acts m spec → acts (a ← m; mret (f a)) (λ b x b', ∃ a, x = f a ∧ spec b a b').
Proof.
  intros Hm w. specialize (Hm w). unfold mbind, eff_bind, mret, eff_ret.
  destruct (m w) as [[a|e] w1]; naive_solver.
Qed.

Lemma reclaim_onward s g ms n cursor batches claimed x r x' :
  reclaim_from s g live ms n cursor batches claimed x = (r, x') → onward x x'.
Proof.
  revert cursor claimed x r x'; induction batches as [|k IH]; intros cursor claimed x r x'; cbn [reclaim_from].
  { intros [= _ <-]. apply onward_refl. }
  apply (eff_bind_inv (λ y, onward x y)).
  - intros r1 x1 Hr. unfold translating in Hr. cbn [xautoclaim server_beside] in Hr. rewrite behind_fmap in Hr.
    apply translating_arrives in Hr as (w0 & Ha & Hr). eapply arrives_onward; [exact Ha| |].
    + revert Hr. eapply translating_kept; [eapply acts_fmap, xautoclaim_acts|].
      intros a b b' _ (y & _ & Hy). by eapply claims_kept.
    + intros Ho. rewrite <- (translating_ok _ _ _ _ _ Hr). pose proof (fl_claims _ _ _ Hfleet s g live ms cursor n w0 Ho) as Hc.
      unfold mbind, eff_bind, mret, eff_ret. by destruct (xautoclaim _ _ _ _ _ _ w0) as [[?|?] ?].
  - intros [[c ids]|] x1 r2 x2 Hk; [|by intros [= _ <-]].
    destruct (_ || _); [by intros [= _ <-]|]. intros Hr. eapply onward_trans; [exact Hk|by eapply IH].
Qed.

Lemma pending_of_onward s g c x r x' : pending_of s g c x = (r, x') → onward x x'.
Proof.
  apply (eff_bind_inv (λ y, onward x y)).
  - intros r1 x1. by apply list_consumers_onward.
  - by intros a x1 r2 x2 Hk [= _ <-].
Qed.

Lemma pending_of_zero s g c x x' :
  pending_of s g c x = (Ok 0, x') → owned c (pend (view x'.1) s g) = [].
Proof.
  intros (infos & x1 & Hl & Hret)%eff_bind_Ok. injection Hret as Hz <-.
  apply listed_Ok in Hl as [Hc Hall].
  destruct (List.find _ infos) as [i|] eqn:Hf.
  - apply find_some in Hf as [Hi Hn%bool_decide_eq_true]. rewrite <- Hn. apply Hc; [|done].
    by apply list_elem_of_In.
  - apply filter_none, Forall_forall. intros p Hp. apply bool_decide_eq_false. intros Ho.
    apply Hall, list_elem_of_fmap in Hp as (i & Hi & Hin). apply list_elem_of_In in Hin.
    pose proof (find_none _ _ Hf i Hin) as Hne. cbn in Hne. apply bool_decide_eq_false in Hne. congruence.
Qed.

(** ** Stale consumers *)

Definition idle_ok (ms : Z) (s g : text) (x : Beside W) (i : ConsumerInfo) : Prop :=
  ci_name i ≠ live → ms ≤ ci_idle_ms i →
  dead (ci_name i) ∧ (ci_pending i = 0 → owned (ci_name i) (pend (view x.1) s g) = []).

Lemma idle_ok_onward ms s g x x' i : x.2 ⊆ others → ok x.1 → onward x x' → idle_ok ms s g x i → idle_ok ms s g x' i.
Proof.
  intros Hs Ho Hx Hi Hn Hms. destruct (Hi Hn Hms) as [Hd Hz]. split; [done|]. intros Hp.
  eapply moves_owned; [exact Hd|done|by apply Hx|auto].
Qed.

Lemma sweep_one_onward ms s g i x r x' : idle_ok ms s g x i → x.2 ⊆ others → ok x.1 →
  sweep_one live ms s g i x = (r, x') → onward x x' ∧ (r = Ok true → ci_name i ≠ live).
Proof.
  intros Hi Hs Ho. unfold sweep_one. case_bool_decide as Hn; cbn [orb].
  { intros [= <- <-]. split; [apply onward_refl|done]. }
  destruct (Z.ltb_spec (ci_idle_ms i) ms) as [_|Hms]; [intros [= <- <-]; split; [apply onward_refl|done]|].
  destruct (Hi Hn Hms) as [Hd Hz]. intros Hrun. split; [|done]. revert Hrun.
  set (observe := if ci_pending i =? 0 then _ else _).
  assert (∀ r1 x1, observe x = (r1, x1) → onward x x1 ∧
    (r1 = Ok 0 → owned (ci_name i) (pend (view x1.1) s g) = [])) as Hobs.
  { intros r1 x1. subst observe. destruct (Z.eqb_spec (ci_pending i) 0) as [Hp|Hp].
    { intros [= <- <-]. split; [apply onward_refl|]. auto. }
    unfold mbind at 1, eff_bind at 1. destruct (reclaim s g live ms x) as [[ids|e] x0] eqn:Hr;
      apply reclaim_onward in Hr; [|by intros [= <- <-]].
    intros Hpo. split; [eapply onward_trans; [exact Hr|by eapply pending_of_onward]|].
    intros ->. by eapply pending_of_zero. }
  unfold mbind at 1, eff_bind at 1. destruct (observe x) as [[p|e] x1] eqn:Hx;
    destruct (Hobs _ _ eq_refl) as [Hk Hzero]; [|by intros [= <- <-]].
  destruct (Z.eqb_spec p 0) as [->|Hp]; cbn [negb]; [|by intros [= _ <-]].
  apply (eff_bind_inv (λ y, onward x y)).
  - intros r2 x2 Hdel. eapply onward_trans; [exact Hk|]. eapply delete_consumer_onward; [exact Hd| |exact Hdel]. auto.
  - by intros a x2 r3 x3 Hk2 [= _ <-].
Qed.

Lemma sweep_infos_onward ms s g infos x r x' :
  Forall (idle_ok ms s g x) infos → x.2 ⊆ others → ok x.1 → sweep_infos live ms s g infos x = (r, x') →
  onward x x' ∧ ∀ gone, r = Ok gone → live ∉ gone.
Proof.
  revert x r x'; induction infos as [|i infos IH]; intros x r x'; cbn [sweep_infos].
  { intros _ _ _ [= <- <-]. split; [apply onward_refl|]. by intros ? [= <-] ?%elem_of_nil. }
  intros [Hi Hrest]%Forall_cons Hs Ho. unfold mbind at 1, eff_bind at 1.
  destruct (sweep_one live ms s g i x) as [[gone|e] x1] eqn:Hone;
    destruct (sweep_one_onward _ _ _ _ _ _ _ Hi Hs Ho Hone) as [Hk Hne]; [|by intros [= <- <-]].
  assert (Forall (idle_ok ms s g x1) infos) as Hrest1 by (eapply Forall_impl; [exact Hrest|]; intros j; by apply idle_ok_onward).
  destruct (Hk Hs Ho) as (_ & Hs1 & Ho1). unfold mbind at 1, eff_bind at 1.
  destruct (sweep_infos live ms s g infos x1) as [[more|e] x2] eqn:Hmore;
    destruct (IH _ _ _ Hrest1 Hs1 Ho1 Hmore) as [Hk2 Hl]; intros [= <- <-];
    (split; [by eapply onward_trans|]); [|done].
  intros swept [= <-]. specialize (Hl _ eq_refl). destruct gone; [|done].
  intros [Heq|Hin]%elem_of_cons; [by apply (Hne eq_refl)|done].
Qed.

Lemma sweep_pairs_onward ms pairs x r x' :
  presumed live ms dead ok → x.2 ⊆ others → ok x.1 → sweep_pairs live ms pairs x = (r, x') →
  onward x x' ∧ ∀ gone, r = Ok gone → live ∉ gone.
Proof.
  intros Hpre. revert x r x'; induction pairs as [|[s g] pairs IH]; intros x r x' Hs Ho; cbn [sweep_pairs].
  { intros [= <- <-]. split; [apply onward_refl|]. by intros ? [= <-] ?%elem_of_nil. }
  unfold mbind at 1, eff_bind at 1.
  destruct (list_consumers s g x) as [[infos|e] x1] eqn:Hl;
    pose proof (list_consumers_onward _ _ _ _ _ Hl) as Hk1; [|by intros [= <- <-]].
  assert (Forall (idle_ok ms s g x1) infos) as Hidle.
  { apply Forall_forall. intros i Hi Hn Hms. split; [|by apply (listed_Ok _ _ _ _ _ Hl)].
    apply translating_arrives in Hl as (w0 & Ha & Hl). eapply listed_presumed; [exact Hpre| |exact Hl|done..].
    destruct Ha as [(-> & _)|(f & Hf & _ & ->)]; [done|]. apply (fl_others _ _ _ Hfleet); auto. }
  destruct (Hk1 Hs Ho) as (_ & Hs1 & Ho1). unfold mbind at 1, eff_bind at 1.
  destruct (sweep_infos live ms s g infos x1) as [[swept|e] x2] eqn:Hsw;
    destruct (sweep_infos_onward _ _ _ _ _ _ _ Hidle Hs1 Ho1 Hsw) as [Hk2 Hn];
    pose proof (onward_trans _ _ _ Hk1 Hk2) as Hk12; [|by intros [= <- <-]].
  destruct (Hk12 Hs Ho) as (_ & Hs2 & Ho2). unfold mbind at 1, eff_bind at 1.
  destruct (sweep_pairs live ms pairs x2) as [[more|e] x3] eqn:Hp;
    destruct (IH _ _ _ Hs2 Ho2 Hp) as [Hk3 Hn3]; intros [= <- <-]; (split; [by eapply onward_trans|]); [|done].
  intros gone [= <-]. intros [Hin|Hin]%elem_of_app; [by apply (Hn swept)|by apply (Hn3 more)].
Qed.
End Fleet.

(** ** A clean exit *)

Lemma deregister_onward others dead ok live name pairs x r x' :
  fleet others dead ok → dead name → x.2 ⊆ others → ok x.1 →
  deregister_pairs name pairs x = (r, x') → onward others ok live x x'.
Proof.
  intros Hfl Hd. revert x r x'; induction pairs as [|[s g] pairs IH]; intros x r x' Hs Ho; cbn [deregister_pairs].
  { intros [= _ <-]. apply onward_refl. }
  unfold mbind at 1, eff_bind at 1.
  destruct (pending_of s g name x) as [[p|e] x1] eqn:Hp;
    pose proof (pending_of_onward _ _ _ live Hfl _ _ _ _ _ _ Hp) as Hk1; [|by intros [= _ <-]].
  destruct (Hk1 Hs Ho) as (_ & Hs1 & Ho1).
  destruct (Z.eqb_spec p 0) as [->|Hne]; cbn [negb].
  2:{ intros Hr. eapply onward_trans; [exact Hk1|by eapply IH]. }
  unfold mbind at 1, eff_bind at 1. destruct (delete_consumer s g name x1) as [r2 x2] eqn:Hdel.
  assert (onward others ok live x x2) as Hk2.
  { eapply onward_trans; [exact Hk1|]. eapply (delete_consumer_onward _ _ _ _ Hfl); [exact Hd| |exact Hdel].
    intros _ _. by eapply pending_of_zero. }
  destruct r2 as [n|e]; [|by intros [= _ <-]]. destruct (Hk2 Hs Ho) as (_ & Hs2 & Ho2).
  unfold mbind at 1, eff_bind at 1. destruct (deregister_pairs name pairs x2) as [[more|e] x3] eqn:Hmore;
    pose proof (IH _ _ _ Hs2 Ho2 Hmore) as Hk3; intros [= _ <-]; by eapply onward_trans.
Qed.

(** C12: Neither sweeping stale consumers nor a clean exit loses a message, however the run
    ends, while other processes go on before each of its commands.  They may do anything but
    hand entries to a consumer that is dead; a consumer that was idle for the threshold is
    presumed dead, and so is, to others, the one that leaves.  Then whatever happens to the
    server on the way is either done by them or one of the commands of the run, and each of
    these keeps every pending entry whose message the stream still holds, with as many
    deliveries, under its owner or the sweeping consumer, makes nothing else pending and moves
    nothing unread; alone, the run as a whole does so.  The sweeping consumer is never deleted.
    A consumer that is handed entries between the listing and its deletion, after all, does
    lose them: the demonstrations have such a run. *)
Theorem sweep_loses_nothing others dead ok live pairs w :
  fleet others dead ok → ok w →
  (∀ ms r x', presumed live ms dead ok →
     sweep_stale_consumers pairs live ms ((w, others) : Beside W) = (r, x') →
     rtc (move others ok live) (view w) (view x'.1) ∧ (others = [] → kept live (view w) (view x'.1)) ∧
     ∀ gone, r = Ok gone → live ∉ gone) ∧
  (∀ name r x', dead name → deregister_consumer pairs name ((w, others) : Beside W) = (r, x') →
     rtc (move others ok live) (view w) (view x'.1) ∧ (others = [] → kept live (view w) (view x'.1))).
Proof.
  intros Hfl Ho. assert ((w, others).2 ⊆ others) as Hs by done. split.
  - intros ms r x' Hpre Hr.
    destruct (sweep_pairs_onward _ _ _ _ Hfl _ _ _ _ _ Hpre Hs Ho Hr) as [Hx Hgone].
    destruct (Hx Hs Ho) as [Hm _]. split_and!; [done| |done]. intros Hnil. by eapply moves_alone.
  - intros name r x' Hd Hr. destruct (deregister_onward _ _ _ live _ _ _ _ _ Hfl Hd Hs Ho Hr Hs Ho) as [Hm _].
    split; [done|]. intros Hnil. by eapply moves_alone.
Qed.

(** ** Orphaned notify groups *)

Lemma group_infos_Ok s w infos w' : group_infos s w = (Ok infos, w') →
  silent (view w) tt (view w') ∧
  ∀ i, i ∈ infos → gi_pending i = Z.of_nat (length (pend (view w') s (gi_name i))).
Proof.
  unfold group_infos, translating. pose proof (xinfo_groups_acts s w) as Ha.
  destruct (xinfo_groups s w) as [[a|[t| |]] w1]; [| |done..].
  - intros [= <- <-]. destruct Ha as [Hs Hc]. split; [exact Hs|]. intros i Hi.
    by rewrite (proj1 (silent_pend _ _ s _ _ Hs)); apply Hc.
  - unfold when. destruct (no_such_key t); intros Heq; [|done].
    assert (infos = []) as -> by congruence. assert (w1 = w') as -> by congruence.
    split; [|by intros i ?%elem_of_nil]. destruct Ha as [Hs|[a [Hs _]]]; exact Hs.
Qed.

Lemma list_consumers_silent s g w infos w' :
  list_consumers s g w = (Ok infos, w') → silent (view w) tt (view w').
Proof.
  unfold list_consumers, translating. pose proof (xinfo_consumers_acts s g w) as Ha.
  destruct (xinfo_consumers s g w) as [[a|[t| |]] w1]; [| |done..].
  - intros [= _ <-]. by destruct Ha.
  - unfold when. destruct (no_group t); intros Heq; [|done].
    assert (w1 = w') as -> by congruence. destruct Ha as [Hs|[a [Hs _]]]; exact Hs.
Qed.

(** What a reading says of a group it returns. *)
Definition truly_read w (n : NotifyGroup) : Prop :=
  starts_with CG_NOTIFY_PREFIX (ng_name n) = true ∧
  ng_pending n = Z.of_nat (length (pend (view w) (ng_stream n) (ng_name n))).

Lemma truly_read_silent w w' n : silent (view w) tt (view w') → truly_read w n → truly_read w' n.
Proof.
  intros Hs [Hp Hn]. split; [done|]. by rewrite (proj1 (silent_pend _ _ (ng_stream n) (ng_name n) _ Hs)).
Qed.

Lemma notify_groups_Ok s infos w found w' :
  (∀ i, i ∈ infos → gi_pending i = Z.of_nat (length (pend (view w) s (gi_name i)))) →
  notify_groups_of s infos w = (Ok found, w') →
  silent (view w) tt (view w') ∧ ∀ n, n ∈ found → truly_read w' n.
Proof.
  revert w found; induction infos as [|i infos IH]; intros w found; cbn [notify_groups_of].
  { intros _ [= <- <-]. split; [apply silent_refl|]. by intros n ?%elem_of_nil. }
  intros Hi. destruct (starts_with _ _) eqn:Hpre.
  - intros (readers & w1 & Hl & Hrest)%eff_bind_Ok. apply list_consumers_silent in Hl.
    apply eff_bind_Ok in Hrest as (more & w2 & Hmore & Hret). injection Hret as <- <-.
    apply IH in Hmore as [Hs Hn].
    + split; [by eapply (silent_trans tt tt tt)|]. intros n [->|Hin]%elem_of_cons; [|by apply Hn].
      apply (truly_read_silent w); [by eapply (silent_trans tt tt tt)|]. split; [done|]. cbn. apply Hi. by left.
    + intros j Hj. rewrite (proj1 (silent_pend _ _ s (gi_name j) _ Hl)). apply Hi. by right.
  - apply IH. intros j Hj. apply Hi. by right.
Qed.

Lemma read_notify_Ok streams w found w' :
  read_notify_groups streams w = (Ok found, w') →
  silent (view w) tt (view w') ∧ ∀ n, n ∈ found → truly_read w' n.
Proof.
  revert w found; induction streams as [|s streams IH]; intros w found; cbn [read_notify_groups].
  { intros [= <- <-]. split; [apply silent_refl|]. by intros n ?%elem_of_nil. }
  intros (infos & w1 & Hg & Hrest)%eff_bind_Ok. apply group_infos_Ok in Hg as [Hs1 Hc].
  apply eff_bind_Ok in Hrest as (here_found & w2 & Hn & Hrest). apply (notify_groups_Ok _ _ _ _ _ Hc) in Hn as [Hs2 Hn].
  apply eff_bind_Ok in Hrest as (more & w3 & Hm & Hret). injection Hret as <- <-.
  apply IH in Hm as [Hs3 Hm]. split; [eapply (silent_trans tt tt tt); [exact Hs1|by eapply (silent_trans tt tt tt)]|].
  intros n [Hin|Hin]%elem_of_app; [|by apply Hm]. eapply truly_read_silent; [exact Hs3|by apply Hn].
Qed.

Lemma by_name_elem gs kn : kn ∈ by_name gs → kn.2 ∈ gs ∧ kn.1 = (ng_stream kn.2, ng_name kn.2).
Proof.
  unfold by_name. assert (∀ d, (∀ x, x ∈ d → x.2 ∈ gs ∧ x.1 = (ng_stream x.2, ng_name x.2)) →
    ∀ l, (∀ n, n ∈ l → n ∈ gs) →
    ∀ x, x ∈ foldl (λ d n, alist_set (ng_stream n, ng_name n) n d) d l →
    x.2 ∈ gs ∧ x.1 = (ng_stream x.2, ng_name x.2)) as Hg.
  { intros d Hd l; revert d Hd; induction l as [|n l IH]; intros d Hd Hl x; cbn; [apply Hd|].
    apply IH; [|intros m Hm; apply Hl; by right]. clear x. intros x Hx.
    apply alist_set_elem in Hx as [->|Hx]; [|by apply Hd]. split; [by apply Hl; left|done]. }
  apply Hg; [by intros x ?%elem_of_nil|done].
Qed.

Context `{Host}.

Lemma is_orphan_None n ms : is_orphan n ms = None →
  ng_pending n ≤ 0 ∧ living_reader n ms = false ∧ (is_this_host n && live_pid (pid_text n)) = false.
Proof.
  unfold is_orphan. destruct (Z.ltb_spec 0 (ng_pending n)); [done|]. destruct (_ <? _); [done|].
  destruct (living_reader n ms); [done|]. destruct (_ && bool_decide _); [done|].
  by destruct (is_this_host n && _).
Qed.

Lemma find_orphans_Ok sleep streams settles ms w found w' :
  find_orphan_notify_groups sleep streams settles ms w = (Ok found, w') →
  ∀ n, n ∈ found → truly_read w' n ∧ is_orphan n ms = None.
Proof.
  unfold find_orphan_notify_groups.
  intros (first & w1 & Hf & Hrest)%eff_bind_Ok. apply read_notify_Ok in Hf as [_ Hf].
  destruct (_ || _).
  - injection Hrest as <- <-. intros n (kn & -> & Hin)%list_elem_of_fmap.
    apply elem_of_list_filter_bool in Hin as [Hin Ho%bool_decide_eq_true].
    split; [|done]. by apply Hf, by_name_elem.
  - apply eff_bind_Ok in Hrest as (u & w2 & _ & Hrest).
    apply eff_bind_Ok in Hrest as (second & w3 & Hs & Hret). injection Hret as <- <-.
    apply read_notify_Ok in Hs as [_ Hs].
    intros n (kn & Hin & Heq)%list_elem_of_omap.
    destruct (alist_get kn.1 (by_name second)) as [again|] eqn:Hg; [|done].
    case_bool_decide as Ho; [|done]. injection Heq as ->. split; [|done].
    apply alist_get_elem, by_name_elem in Hg as [Hg _]. by apply Hs.
Qed.

Lemma destroy_orphans_kept orphans w r w' :
  (∀ n, n ∈ orphans → pend (view w) (ng_stream n) (ng_name n) = []) →
  destroy_orphan_notify_groups orphans w = (r, w') →
  ∀ s g, pend (view w') s g = pend (view w) s g ∧
    ((s, g) ∉ (λ n, (ng_stream n, ng_name n)) <$> orphans → unread (view w') s g = unread (view w) s g).
Proof.
  revert w r w'; induction orphans as [|n orphans IH]; intros w r w' Hnil; cbn [destroy_orphan_notify_groups].
  { by intros [= _ <-]. }
  unfold mbind at 1, eff_bind at 1.
  destruct (destroy_group (ng_stream n) (ng_name n) w) as [r1 w1] eqn:Hd.
  assert (∀ s g, pend (view w1) s g = pend (view w) s g ∧
    ((s, g) ≠ (ng_stream n, ng_name n) → unread (view w1) s g = unread (view w) s g)) as Hone.
  { revert Hd. unfold destroy_group, translating.
    pose proof (xgroup_destroy_acts (ng_stream n) (ng_name n) w) as Ha.
    assert (∀ x, (xgroup_destroy (ng_stream n) (ng_name n) w).2 = x → ∀ s g,
      pend (view x) s g = pend (view w) s g ∧
      ((s, g) ≠ (ng_stream n, ng_name n) → unread (view x) s g = unread (view w) s g)) as Hx.
    { assert (∀ x, destroys (ng_stream n) (ng_name n) (view w) tt (view x) → ∀ s g,
        pend (view x) s g = pend (view w) s g ∧
        ((s, g) ≠ (ng_stream n, ng_name n) → unread (view x) s g = unread (view w) s g)) as Hdes.
      { intros x (He & _ & _ & Hp) s g.
        destruct (here_cases (ng_stream n) (ng_name n) s g) as [[-> ->]|Hn].
        - rewrite Hp, Hnil by left. done.
        - by destruct (He s g Hn). }
      intros x. destruct (xgroup_destroy _ _ w) as [[[]|e] w2]; intros <-; cbn; [by apply Hdes|].
      destruct Ha as [Hs|[[] Hs]]; [|by apply Hdes].
      intros s g. by destruct (silent_pend _ _ s g _ Hs). }
    destruct (xgroup_destroy _ _ w) as [[a|[t| |]] w2]; intros [= _ <-]; by apply Hx. }
  destruct r1 as [u|e]; [|intros [= _ <-] s g; destruct (Hone s g) as [Hp Hu];
    split; [done|intros Hn; apply Hu; intros Heq; apply Hn; rewrite Heq; left]].
  intros Hrest s g. destruct (destroy_orphan_notify_groups orphans w1) as [r2 w2] eqn:Hmore.
  assert (w' = w2) as -> by (unfold mbind, eff_bind in Hrest; rewrite Hmore in Hrest; by destruct r2; injection Hrest).
  destruct (IH w1 r2 w2) with (s := s) (g := g) as [Hp2 Hu2]; [|done|].
  { intros m Hm. rewrite (proj1 (Hone _ _)). apply Hnil. by right. }
  destruct (Hone s g) as [Hp Hu]. split; [congruence|]. intros Hn. rewrite Hu2, Hu; [done|..].
  - intros Heq. apply Hn. rewrite Heq. left.
  - intros Hin. apply Hn. by right.
Qed.

(** Only dead notify groups are destroyed and nothing delivered is lost with them: each group
    found was, at the last reading, a [cg.notify] group with nothing pending and no reader
    seen within the threshold, and not of a live process of this host; destroying the
    groups found leaves every pending list as it was and moves no other group. *)
Theorem orphan_cleanup_spares_the_living sleep streams settles ms w found w1 r w2 :
  find_orphan_notify_groups sleep streams settles ms w = (Ok found, w1) →
  destroy_orphan_notify_groups found w1 = (r, w2) →
  (∀ n, n ∈ found → starts_with CG_NOTIFY_PREFIX (ng_name n) = true ∧ ng_pending n = 0 ∧
     living_reader n ms = false ∧ (is_this_host n && live_pid (pid_text n)) = false) ∧
  ∀ s g, pend (view w2) s g = pend (view w1) s g ∧
    ((s, g) ∉ (λ n, (ng_stream n, ng_name n)) <$> found → unread (view w2) s g = unread (view w1) s g).
Proof.
  intros Hf Hd. pose proof (find_orphans_Ok _ _ _ _ _ _ _ Hf) as Hok.
  assert (∀ n, n ∈ found → ng_pending n = 0) as Hz.
  { intros n Hn. destruct (Hok n Hn) as [[_ Hp] Ho%is_orphan_None]. lia. }
  split.
  - intros n Hn. destruct (Hok n Hn) as [[Hpre _] (_ & Hl & Hp)%is_orphan_None]. by eauto.
  - eapply destroy_orphans_kept; [|exact Hd]. intros n Hn. destruct (Hok n Hn) as [[_ Hp] _].
    rewrite (Hz n Hn) in Hp. apply nil_length_inv. lia.
Qed.
End Safety.
