(* ===== verification/StreamsDemo.v ===== *)
(** * StreamsDemo: a concrete stream server, and the consumer and sweeper theorems at work

    A small server that satisfies [StreamServerLaws]: per stream and group the
    entries delivered so far, each with its owner and count or settled, and how
    many more are unread; the i-th entry of a stream has the identifier [[i]]. *)

From S2P Require Import Prelude Text Calendar Errors Framework Files Events Wire Streams Engine Delivery Settlement Sweeper.

Open Scope Z_scope.

Record DemoGroup := mk_DemoGroup { taken : list (option (text * Z)); waiting : nat }.

Record Demo := mk_Demo {
  d_groups : gmap (text * text) DemoGroup;
  d_logs : gmap text (list fields);
  d_added : list (text * fields);
  d_consumers : list (text * Z);
  d_effects : list json
}.

Definition demo_id (i : nat) : text := [Z.of_nat i].

Fixpoint pending_from (i : nat) (t : list (option (text * Z))) : list Pending :=
  match t with
  | [] => []
  | Some (o, n) :: t => mk_Pending (demo_id i) o n :: pending_from (S i) t
  | None :: t => pending_from (S i) t
  end.

(** Rewrite every delivered entry by its identifier. *)
Fixpoint remap (f : text → text * Z → option (text * Z)) (i : nat) (t : list (option (text * Z)))
    : list (option (text * Z)) :=
  match t with
  | [] => []
  | None :: t => None :: remap f (S i) t
  | Some x :: t => f (demo_id i) x :: remap f (S i) t
  end.

Definition demo_group (d : Demo) (s g : text) : DemoGroup :=
  default (mk_DemoGroup [] 0) (d_groups d !! (s, g)).

Definition demo_log (d : Demo) (s : text) : list fields := default [] (d_logs d !! s).

Definition demo_body (d : Demo) (s id : text) : fields :=
  match id with [i] => default [] (demo_log d s !! Z.to_nat i) | _ => [] end.

Definition demo_view (d : Demo) : Broker :=
  {| pend s g := pending_from 0 (taken (demo_group d s g));
     unread s g := demo_id <$> seq (length (taken (demo_group d s g))) (waiting (demo_group d s g));
     body := demo_body d;
     added := d_added d |}.

(** Change the existing groups a test selects. *)
Definition on_groups (sel : text → text → bool) (f : DemoGroup → DemoGroup) (d : Demo) : Demo :=
  mk_Demo (map_imap (λ k G, Some (if sel k.1 k.2 then f G else G)) (d_groups d))
    (d_logs d) (d_added d) (d_consumers d) (d_effects d).

Definition remapped (f : text → text * Z → option (text * Z)) (G : DemoGroup) : DemoGroup :=
  mk_DemoGroup (remap f 0 (taken G)) (waiting G).

Definition handed (c : text) (n : nat) (G : DemoGroup) : DemoGroup :=
  mk_DemoGroup (taken G ++ replicate (n `min` waiting G) (Some (c, 1))) (waiting G - n).

Definition counted (ids : list text) (id : text) (x : text * Z) : option (text * Z) :=
  Some (x.1, if bool_decide (id ∈ ids) then x.2 + 1 else x.2).
Definition acked (id i : text) (x : text * Z) : option (text * Z) :=
  if bool_decide (i = id) then None else Some x.
Definition disowned (c i : text) (x : text * Z) : option (text * Z) :=
  if bool_decide (x.1 = c) then None else Some x.
Definition claimed (c i : text) (x : text * Z) : option (text * Z) := Some (c, x.2).

Definition own_read (c : text) (n : Z) (G : DemoGroup) : DemoGroup :=
  remapped (counted (reread c n (pending_from 0 (taken G)))) G.

Definition among (ss : list text) (g s g' : text) : bool :=
  bool_decide (s ∈ ss) && bool_decide (g' = g).

Definition demo_reply (d : Demo) (ss : list text) (ids : text → list text) : reply :=
  (λ s, (s, (λ id, (id, demo_body d s id)) <$> ids s)) <$> ss.

Definition demo_xadd (s : text) (fs : fields) (d : Demo) : Demo :=
  let d := on_groups (λ s' _, bool_decide (s' = s))
             (λ G, mk_DemoGroup (taken G) (S (waiting G))) d in
  mk_Demo (d_groups d) (<[s := demo_log d s ++ [fs]]> (d_logs d)) (d_added d ++ [(s, fs)])
    (d_consumers d) (d_effects d).

Definition demo_ack (s g id : text) (d : Demo) : Demo :=
  on_groups (among [s] g) (remapped (acked id)) d.

Definition demo_le (x y : text) : bool :=
  bool_decide (x = y) || match x, y with [a], [b] => a <? b | _, _ => false end.

(** The consumers a group knows, with their idle times. *)
Definition demo_consumers (d : Demo) (s g : text) : list (text * Z) :=
  d_consumers d ++
  ((λ p, (pe_owner p, 0)) <$>
   List.filter (λ p, negb (bool_decide (pe_owner p ∈ (d_consumers d).*1))) (pend (demo_view d) s g)).

#[export] Instance demo_server : StreamServer Demo := {|
  view := demo_view;
  id_leb := demo_le;
  xgroup_create s g := mret tt;
  xgroup_destroy s g d := (Ok tt, on_groups (among [s] g) (λ _, mk_DemoGroup [] 0) d);
  xreadgroup g c from ss n d :=
    match from with
    | OwnPending =>
        (Ok (demo_reply d ss (λ s, reread c n (pend (demo_view d) s g))),
         on_groups (among ss g) (own_read c n) d)
    | NewEntries _ =>
        (Ok (demo_reply d ss (λ s, take (Z.to_nat n) (unread (demo_view d) s g))),
         on_groups (among ss g) (handed c (Z.to_nat n)) d)
    end;
  xpending_range s g lo hi n c d :=
    (Ok ((λ p, (pe_id p, pe_count p)) <$> take (Z.to_nat n)
       (List.filter (λ p, demo_le lo (pe_id p) && demo_le (pe_id p) hi)
          (owned c (pend (demo_view d) s g)))), d);
  xack s g id d := (Ok tt, demo_ack s g id d);
  xadd s ml fs d := (Ok (demo_id (length (demo_log d s))), demo_xadd s fs d);
  xadd_xack q fs s g id d := (Ok tt, demo_ack s g id (demo_xadd q fs d));
  xinfo_groups s d :=
    (Ok ((λ kG, mk_GroupInfo kG.1.2 (Z.of_nat (length (d_consumers d)))
                  (Z.of_nat (length (pend (demo_view d) s kG.1.2))) (Some (Z.of_nat (waiting kG.2))))
           <$> List.filter (λ kG, bool_decide (kG.1.1 = s)) (map_to_list (d_groups d))), d);
  xinfo_consumers s g d :=
    (Ok ((λ c, mk_ConsumerInfo c.1 (Z.of_nat (length (owned c.1 (pend (demo_view d) s g)))) c.2)
           <$> demo_consumers d s g), d);
  xgroup_delconsumer s g c d :=
    (Ok (Z.of_nat (length (owned c (pend (demo_view d) s g)))),
     on_groups (among [s] g) (remapped (disowned c)) d);
  xautoclaim s g c ms st n d :=
    (Ok (ORIGIN, pe_id <$> pend (demo_view d) s g), on_groups (among [s] g) (remapped (claimed c)) d);
  xlen s d := (Ok (Z.of_nat (length (demo_log d s))), d);
  xrange_first s d := (Ok ((λ fs, (demo_id 0, fs)) <$> head (demo_log d s)), d)
|}.

(** ** The laws *)

Lemma demo_group_on (sel : text → text → bool) f d s g :
  f (mk_DemoGroup [] 0) = mk_DemoGroup [] 0 →
  demo_group (on_groups sel f d) s g = if sel s g then f (demo_group d s g) else demo_group d s g.
Proof.
  intros Hf. unfold demo_group, on_groups. cbn. rewrite map_lookup_imap.
  destruct (d_groups d !! (s, g)); cbn; [done|]. by case_match.
Qed.

Lemma pending_from_owned i t p :
  p ∈ pending_from i t → ∃ j, pe_id p = demo_id j ∧ (i ≤ j < i + length t)%nat.
Proof.
  revert i; induction t as [|[[o n]|] t IH]; intros i; cbn; [by intros ?%elem_of_nil| |].
  - intros [->|Hp]%elem_of_cons; [exists i; split; [done|lia]|].
    destruct (IH _ Hp) as (j & ? & ?). exists j. split; [done|lia].
  - intros Hp. destruct (IH _ Hp) as (j & ? & ?). exists j. split; [done|lia].
Qed.

Lemma demo_id_inj i j : demo_id i = demo_id j → i = j.
Proof. unfold demo_id. intros [= ?]. lia. Qed.

Lemma pending_from_sorted i t :
  StronglySorted (λ x y, demo_le x y = true ∧ x ≠ y) (pe_id <$> pending_from i t).
Proof.
  revert i; induction t as [|[[o n]|] t IH]; intros i; cbn; [constructor| |apply IH].
  constructor; [apply IH|]. apply Forall_fmap, Forall_forall. intros p Hp. cbn.
  destruct (pending_from_owned _ _ _ Hp) as (j & -> & ?). split.
  - unfold demo_le, demo_id. apply orb_true_intro. right. apply Z.ltb_lt. lia.
  - intros ?%demo_id_inj. lia.
Qed.

Lemma pending_remap f (h : Pending → list Pending) i t :
  (∀ (id : text) (x : text * Z), match f id x with
           | Some y => h (mk_Pending id x.1 x.2) = [mk_Pending id y.1 y.2]
           | None => h (mk_Pending id x.1 x.2) = [] end) →
  pending_from i (remap f i t) = pending_from i t ≫= h.
Proof.
  intros Hf. revert i; induction t as [|[[o n]|] t IH]; intros i; cbn [remap pending_from]; [done| |apply IH].
  rewrite bind_cons. specialize (Hf (demo_id i) (o, n)). cbn in Hf.
  destruct (f (demo_id i) (o, n)) as [[o' n']|]; cbn [pending_from]; by rewrite Hf, IH.
Qed.

Lemma bind_filter {A} (p : A → bool) (l : list A) :
  (l ≫= λ x, if p x then [x] else []) = List.filter p l.
Proof. induction l as [|x l IH]; [done|]. rewrite bind_cons, IH. cbn. by case_match. Qed.

Lemma bind_fmap {A B} (f : A → B) (l : list A) : (l ≫= λ x, [f x]) = f <$> l.
Proof. induction l as [|x l IH]; [done|]. by rewrite bind_cons, IH. Qed.

Lemma remap_length f i t : length (remap f i t) = length t.
Proof. revert i; induction t as [|[x|] t IH]; intros i; cbn; by rewrite ?IH. Qed.

Lemma pending_from_app i t u : pending_from i (t ++ u) = pending_from i t ++ pending_from (i + length t) u.
Proof.
  revert i; induction t as [|[[o n]|] t IH]; intros i; cbn; rewrite ?Nat.add_0_r; [done|..];
    rewrite IH, Nat.add_succ_comm; done.
Qed.

Lemma pending_new i c n :
  pending_from i (replicate n (Some (c, 1))) = (λ id, mk_Pending id c 1) <$> (demo_id <$> seq i n).
Proof. revert i; induction n as [|n IH]; intros i; cbn; [done|]. by rewrite IH. Qed.

Lemma flatten_reply d ss ids :
  flatten (demo_reply d ss ids) = (λ k, (k, demo_body d k.1 k.2)) <$> spread ss ids.
Proof.
  unfold flatten, demo_reply, spread. rewrite fmap_of_bind, list_fmap_bind.
  apply list_bind_ext; [|done]. intros s. cbn. by rewrite <- !list_fmap_compose.
Qed.

Lemma among_spec ss g s g' : among ss g s g' = true ↔ s ∈ ss ∧ g' = g.
Proof. unfold among. by rewrite andb_true_iff, !bool_decide_eq_true. Qed.

(** What a change of selected groups does to the view. *)
Lemma view_on_groups (sel : text → text → bool) f d s g :
  f (mk_DemoGroup [] 0) = mk_DemoGroup [] 0 →
  let G := if sel s g then f (demo_group d s g) else demo_group d s g in
  pend (demo_view (on_groups sel f d)) s g = pending_from 0 (taken G) ∧
  unread (demo_view (on_groups sel f d)) s g = demo_id <$> seq (length (taken G)) (waiting G).
Proof. intros Hf. cbn. by rewrite !demo_group_on. Qed.

Lemma elsewhere_on_groups (sel : text → text → bool) f d (touched : text → text → Prop) :
  f (mk_DemoGroup [] 0) = mk_DemoGroup [] 0 →
  (∀ s g, sel s g = true → touched s g) →
  elsewhere touched (demo_view d) (demo_view (on_groups sel f d)).
Proof.
  intros Hf Hsel s g Hn. destruct (view_on_groups sel f d s g Hf) as [-> ->].
  destruct (sel s g) eqn:E; [|done]. by apply Hsel in E.
Qed.

(** The commands that rewrite the delivered entries of one group. *)
Lemma remapped_at f (h : Pending → list Pending) d s g :
  (∀ (id : text) (x : text * Z), match f id x with
           | Some y => h (mk_Pending id x.1 x.2) = [mk_Pending id y.1 y.2]
           | None => h (mk_Pending id x.1 x.2) = [] end) →
  let d' := on_groups (among [s] g) (remapped f) d in
  elsewhere (here s g) (demo_view d) (demo_view d') ∧ added (demo_view d') = added (demo_view d) ∧
  unread (demo_view d') s g = unread (demo_view d) s g ∧
  pend (demo_view d') s g = pend (demo_view d) s g ≫= h.
Proof.
  intros Hf d'. subst d'. split; [|split; [done|]].
  - apply elsewhere_on_groups; [done|]. intros s' g' [->%list_elem_of_singleton ->]%among_spec. done.
  - destruct (view_on_groups (among [s] g) (remapped f) d s g eq_refl) as [-> ->].
    assert (among [s] g s g = true) as -> by (apply among_spec; split; [by left|done]).
    cbn. rewrite remap_length. split; [done|]. by apply pending_remap.
Qed.

Lemma reread_pending c n d s g :
  pending_from 0 (taken (own_read c n (demo_group d s g))) =
  bump (reread c n (pend (demo_view d) s g)) (pend (demo_view d) s g).
Proof.
  unfold own_read, remapped, bump. cbn [taken]. rewrite <- bind_fmap. apply pending_remap.
  intros id [o k]. cbn. by case_bool_decide.
Qed.

Lemma own_read_empty c n : own_read c n (mk_DemoGroup [] 0) = mk_DemoGroup [] 0.
Proof. done. Qed.

Lemma handed_empty c n : handed c n (mk_DemoGroup [] 0) = mk_DemoGroup [] 0.
Proof. unfold handed. cbn. by rewrite Nat.min_0_r. Qed.

Lemma demo_acks s g id d : acks s g id (demo_view d) tt (demo_view (demo_ack s g id d)).
Proof.
  destruct (remapped_at (acked id) (λ p, if negb (bool_decide (pe_id p = id)) then [p] else []) d s g)
    as (He & Ha & Hu & Hp).
  { intros i [o k]. unfold acked. cbn. by case_bool_decide. }
  unfold demo_ack. split; [done|]. split; [done|]. split; [|done].
  rewrite Hp. unfold without. apply bind_filter.
Qed.

Lemma demo_xadd_group s fs d s' g :
  demo_group (demo_xadd s fs d) s' g = demo_group d s' g ∨
  s' = s ∧ demo_group (demo_xadd s fs d) s' g =
    mk_DemoGroup (taken (demo_group d s' g)) (S (waiting (demo_group d s' g))).
Proof.
  unfold demo_group, demo_xadd, on_groups. cbn. rewrite map_lookup_imap.
  destruct (d_groups d !! (s', g)) as [G|]; cbn; [|by left].
  case_bool_decide; [by right|by left].
Qed.

Lemma demo_adds s fs d i : adds s fs (demo_view d) i (demo_view (demo_xadd s fs d)).
Proof.
  split; [|split; [done|]].
  - intros s' g Hn. cbn. destruct (demo_xadd_group s fs d s' g) as [->|[? _]]; [done|by destruct Hn].
  - intros g. cbn. by destruct (demo_xadd_group s fs d s g) as [->|[_ ->]].
Qed.

#[export] Instance demo_server_laws : StreamServerLaws Demo.
Proof.
  split.
  - intros x. cbn. unfold demo_le. by rewrite bool_decide_true.
  - intros x y Hxy Hyx. cbn in *. unfold demo_le in *.
    apply orb_true_iff in Hxy as [Hxy|Hxy]; [by apply bool_decide_eq_true in Hxy|].
    apply orb_true_iff in Hyx as [Hyx|Hyx]; [by apply bool_decide_eq_true in Hyx|].
    destruct x as [|a [|? ?]]; try done. destruct y as [|b [|? ?]]; try done. lia.
  - intros d s g. apply pending_from_sorted.
  - intros d s g i. cbn. intros (j & -> & Hj%elem_of_seq)%list_elem_of_fmap (p & Hid & Hp)%list_elem_of_fmap.
    destruct (pending_from_owned _ _ _ Hp) as (k & Hk & ?). rewrite Hk in Hid.
    apply demo_id_inj in Hid. lia.
  - intros d s g. cbn. apply NoDup_fmap_2; [exact demo_id_inj|apply NoDup_seq].
  - intros s g d. apply silent_refl.
  - intros s g d. cbn. split; [|split; [done|split; [done|]]].
    + apply elsewhere_on_groups; [done|]. intros s' g' [->%list_elem_of_singleton ->]%among_spec. done.
    + destruct (view_on_groups (among [s] g) (λ _, mk_DemoGroup [] 0) d s g eq_refl) as [-> _].
      by rewrite (proj2 (among_spec [s] g s g)) by (split; [left|done]).
  - intros s d. split; [apply silent_refl|]. intros i (k & -> & _)%list_elem_of_fmap. done.
  - intros g c ss n _ d. cbn. split; [apply flatten_reply|]. split; [|split; [done|]].
    + apply elsewhere_on_groups; [done|]. by intros s g' ?%among_spec.
    + intros s Hs. destruct (view_on_groups (among ss g) (own_read c n) d s g eq_refl) as [-> ->].
      rewrite (proj2 (among_spec ss g s g)) by done. rewrite reread_pending.
      split; [done|]. unfold own_read, remapped. cbn. by rewrite remap_length.
  - intros g c ss n ms _ d. cbn. split; [apply flatten_reply|]. split; [|split; [done|]].
    + apply elsewhere_on_groups; [apply handed_empty|]. by intros s g' ?%among_spec.
    + intros s Hs.
      destruct (view_on_groups (among ss g) (handed c (Z.to_nat n)) d s g (handed_empty _ _)) as [-> ->].
      rewrite (proj2 (among_spec ss g s g)) by done. unfold handed. cbn [taken waiting].
      rewrite pending_from_app, pending_new. cbn [demo_view pend unread].
      rewrite <- fmap_take, <- fmap_drop, take_seq, drop_seq, length_app, length_replicate.
      split; [done|]. set (k := Z.to_nat n). set (m := waiting _).
      destruct (decide (k ≤ m)%nat); [by rewrite Nat.min_l|].
      by replace (m - k)%nat with 0%nat by lia.
  - intros s g lo hi n c d. split; [apply silent_refl|done].
  - intros s g id d. apply demo_acks.
  - intros s ml fs d. apply demo_adds.
  - intros q fs s g id d. cbn. exists (demo_view (demo_xadd q fs d)), [].
    split; [apply demo_adds|apply demo_acks].
  - intros s g d. split; [apply silent_refl|]. split; [by intros i (c & -> & _)%list_elem_of_fmap|].
    intros p Hp. rewrite <- list_fmap_compose. apply list_elem_of_fmap.
    destruct (decide (pe_owner p ∈ (d_consumers d).*1)) as [Hin|Hn].
    + apply list_elem_of_fmap in Hin as (x & Hx & Hin). exists x. split; [done|].
      apply elem_of_app. by left.
    + exists (pe_owner p, 0). split; [done|]. apply elem_of_app. right. apply list_elem_of_fmap.
      exists p. split; [done|]. apply elem_of_list_filter_bool. by rewrite bool_decide_false.
  - by intros s g d t d'.
  - intros s g c d.
    destruct (remapped_at (disowned c) (λ p, if negb (bool_decide (pe_owner p = c)) then [p] else []) d s g)
      as (He & Ha & Hu & Hp).
    { intros i [o k]. unfold disowned. cbn. by case_bool_decide. }
    split; [done|]. split; [done|]. split; [done|]. split; [done|]. split; [done|].
    cbn in Hp |- *. rewrite Hp. apply bind_filter.
  - intros s g c ms st n d.
    destruct (remapped_at (claimed c) (λ p, [mk_Pending (pe_id p) c (pe_count p)]) d s g)
      as (He & Ha & Hu & Hp); [done|].
    split; [done|]. split; [done|]. split; [done|]. split; [done|]. exists []. split; [by intros id ?%elem_of_nil|].
    cbn in Hp |- *. rewrite Hp, bind_fmap. rewrite filter_all.
    + apply list_fmap_ext. intros i p Hip. rewrite bool_decide_true; [done|].
      apply list_elem_of_fmap_2. by eapply list_elem_of_lookup_2.
    + apply Forall_true. intros p. apply negb_true_iff, bool_decide_eq_false. by intros ?%elem_of_nil.
Qed.

(** ** A worker with one stream *)

#[local] Existing Instance demo_interpreter.
#[local] Existing Instance demo_floats.
#[local] Instance demo_exn_text : ExnText := {| exn_name _ := txt "Error"; exn_str _ := [] |}.

Definition demo_cfg : EngineConfig := mk_EngineConfig (txt "memory.host.1") 5000 2 2 2.

Definition record_effect : EventHandler Demo := λ _ envelope d,
  (Ok tt, mk_Demo (d_groups d) (d_logs d) (d_added d) (d_consumers d)
            (d_effects d ++ [get "id" envelope])).
Definition always_busy : EventHandler Demo := λ _ _ d, (Err (App (raise_class ConflictError)), d).
Definition always_invalid : EventHandler Demo := λ _ _ d, (Err (App (raise_class ValidationError)), d).

Definition files_stream : text := txt "stream.files".
Definition demo_sub : Subscription Demo :=
  mk_Subscription files_stream (txt "cg.memory")
    [(txt "a.b.ok.v1", record_effect); (txt "a.b.busy.v1", always_busy);
     (txt "a.b.bad.v1", always_invalid)].

Definition demo_entry (event_type : json) (id subject : string) : fields :=
  [(CE_FIELD, unwrap [] (encode_event (JObj
      [(txt "type", event_type); (txt "workspaceid", JStr (txt "w")); (txt "id", JStr (txt id));
       (txt "subject", JStr (txt subject))])))].

Definition typed (t : string) : json := JStr (txt t).

Definition demo_entries : list fields :=
  [demo_entry (typed "a.b.busy.v1") "e1" "doc1"; demo_entry (typed "a.b.ok.v1") "e2" "doc2";
   demo_entry (typed "a.b.ok.v1") "e3" "doc1"; demo_entry (typed "a.b.bad.v1") "e4" "doc3";
   [(txt "other", [])]].

Definition demo_start (entries : list fields) : Demo :=
  mk_Demo {[(files_stream, txt "cg.memory") := mk_DemoGroup [] (length entries)]}
    {[files_stream := entries]} [] [] [].

Lemma demo_subs_ok : subscriptions_ok [demo_sub].
Proof.
  split.
  - intros sub t h ctx env w r w' ->%list_elem_of_singleton Hh%alist_get_elem Hrun.
    repeat (apply elem_of_cons in Hh as [[= -> ->]|Hh]); [..|by apply elem_of_nil in Hh];
      by injection Hrun as _ <-.
  - intros sub sub' ->%list_elem_of_singleton ->%list_elem_of_singleton. vm_compute. done.
Qed.

Lemma demo_within : within_budget demo_cfg [demo_sub] (demo_start demo_entries).
Proof. intros sub p ->%list_elem_of_singleton Hp. vm_compute in Hp. by apply elem_of_nil in Hp. Qed.

Definition demo_schedules : list (list nat) := replicate 10 [1; 0; 1]%nat.

(** What holds of the demo server during the passes: its one log is as published, and its
    group has handed out or still has at most the five entries. *)
Definition demo_ok (d : Demo) : Prop :=
  demo_log d files_stream = demo_entries ∧
  (length (taken (demo_group d files_stream (txt "cg.memory")))
   + waiting (demo_group d files_stream (txt "cg.memory")) ≤ 5)%nat.

Definition demo_contents (s id : text) : fields := demo_body (demo_start demo_entries) s id.

(** A change of groups that makes none of them longer. *)
Lemma demo_ok_groups (sel : text → text → bool) f d :
  f (mk_DemoGroup [] 0) = mk_DemoGroup [] 0 →
  (∀ G, length (taken (f G)) + waiting (f G) ≤ length (taken G) + waiting G)%nat →
  demo_ok d → demo_ok (on_groups sel f d).
Proof.
  intros Hf Hle [Hlog Hlen]. split; [done|]. rewrite demo_group_on by done.
  destruct (sel _ _); [|done]. specialize (Hle (demo_group d files_stream (txt "cg.memory"))). lia.
Qed.

Lemma demo_ok_ack s g id d : demo_ok d → demo_ok (demo_ack s g id d).
Proof. apply demo_ok_groups; [done|]. intros G. cbn. by rewrite remap_length. Qed.

Lemma dlq_elsewhere s : dlq_of s ≠ files_stream.
Proof.
  intros Heq. assert (last (dlq_of s) = last files_stream) as Hl by (by rewrite Heq).
  unfold dlq_of in Hl. rewrite last_app in Hl. vm_compute in Hl. discriminate.
Qed.

Lemma demo_ok_xadd s fs d : s ≠ files_stream → demo_ok d → demo_ok (demo_xadd s fs d).
Proof.
  intros Hs [Hlog Hlen]. split.
  - unfold demo_log in *. cbn. by rewrite lookup_insert_ne.
  - destruct (demo_xadd_group s fs d files_stream (txt "cg.memory")) as [->|[Heq _]]; [done|]. congruence.
Qed.

Lemma demo_entry_id d id :
  demo_ok d → at_hand demo_cfg d files_stream (txt "cg.memory") id → ∃ j, id = demo_id j ∧ (j < 5)%nat.
Proof.
  intros [_ Hlen] [Hin|Hin].
  - apply list_elem_of_fmap in Hin as (p & -> & [Hp _]%elem_of_owned).
    destruct (pending_from_owned _ _ _ Hp) as (j & Hj & Hb). exists j. split; [done|lia].
  - apply list_elem_of_fmap in Hin as (j & -> & Hj%elem_of_seq). exists j. split; [done|lia].
Qed.

Lemma demo_legible id : legible (alist_get CE_FIELD (demo_contents files_stream id)).
Proof.
  unfold demo_contents, demo_body. change (demo_log _ files_stream) with demo_entries.
  destruct id as [|i [|]]; try done. unfold demo_entries.
  destruct (Z.to_nat i) as [|[|[|[|[|[|k]]]]]]; vm_compute; exact I.
Qed.

Lemma demo_serves : serves demo_cfg [demo_sub] demo_contents demo_ok.
Proof.
  split.
  - intros g ss [|ms] d Hd; (eexists; eexists; split; [reflexivity|]; split; [|done]).
    + apply demo_ok_groups; [apply own_read_empty| |done]. intros G. cbn. by rewrite remap_length.
    + apply demo_ok_groups; [apply handed_empty| |done]. intros G. cbn.
      rewrite length_app, length_replicate. lia.
  - intros s g lo hi n d Hd. by eexists; eexists.
  - intros s g id d Hd. eexists; eexists. split; [reflexivity|]. split; [by apply demo_ok_ack|done].
  - intros s fs g id d Hd. eexists; eexists. split; [reflexivity|]. split; [|done].
    apply demo_ok_ack, demo_ok_xadd; [apply dlq_elsewhere|done].
  - intros sub t h ctx env w r w' ->%list_elem_of_singleton Hh%alist_get_elem Hw Hrun.
    repeat (apply elem_of_cons in Hh as [[= -> ->]|Hh]); [..|by apply elem_of_nil in Hh];
      by injection Hrun as _ <-.
  - intros sub d id ->%list_elem_of_singleton Hd Hid.
    destruct (demo_entry_id d id Hd Hid) as (j & -> & Hj). split.
    + exists [Z.of_nat j]. destruct j as [|[|[|[|[|]]]]]; (reflexivity || lia).
    + apply elem_of_cons. left. cbn. unfold demo_contents, demo_body. cbn [demo_id].
      by rewrite (proj1 Hd).
  - intros sub id ->%list_elem_of_singleton. apply demo_legible.
  - intros sub ->%list_elem_of_singleton. split; eexists; vm_compute; reflexivity.
  - intros []; eexists; vm_compute; reflexivity.
Qed.

Definition demo_end : Demo :=
  (run_passes demo_cfg demo_schedules [demo_sub] (demo_start demo_entries)).2.

Lemma demo_sizes : (0 < concurrency demo_cfg)%nat ∧ 1 ≤ max_deliveries demo_cfg ∧ 1 ≤ batch_count demo_cfg.
Proof. cbn. lia. Qed.


Definition demo_once : Demo :=
  (run_once demo_cfg [1; 0; 1]%nat [demo_sub] (demo_start demo_entries)).2.

Lemma demo_first_pass :
  run_once demo_cfg [1; 0; 1]%nat [demo_sub] (demo_start demo_entries) = (Ok 1, demo_once).
Proof. unfold demo_once. apply run_Ok. vm_compute. reflexivity. Qed.

Lemma retry_budget_witness :
  map pe_count (pend (view demo_once) files_stream (txt "cg.memory")) = [1] ∧
  within_budget demo_cfg [demo_sub] demo_once.
Proof.
  split; [by vm_compute|]. destruct demo_sizes as (Hc & Hn & Hb).
  apply (retry_budget_is_kept demo_cfg Hc [demo_sub] [1; 0; 1]%nat (demo_start demo_entries) 1).
  - exact demo_subs_ok.
  - exact demo_within.
  - exact demo_first_pass.
Defined.

Definition demo_by_stream : list (text * Subscription Demo) := [(files_stream, demo_sub)].

Definition demo_passed : Demo :=
  (group_pass demo_cfg [1]%nat (txt "cg.memory") demo_by_stream (demo_start demo_entries)).2.

Lemma demo_group_pass :
  group_pass demo_cfg [1]%nat (txt "cg.memory") demo_by_stream (demo_start demo_entries)
  = (Ok 1, demo_passed).
Proof. unfold demo_passed. apply run_Ok. vm_compute. reflexivity. Qed.

Lemma demo_quiet : quiet demo_by_stream.
Proof.
  intros s sub t h ctx env w r w' Hs%alist_get_elem Hh Hrun.
  apply list_elem_of_singleton in Hs as [= -> ->].
  by eapply (so_quiet _ demo_subs_ok demo_sub); [left|..].
Qed.

Lemma pass_follows_policy_witness :
  ∃ ms : list StreamMessage,
    (∀ s id, s ∈ demo_by_stream.*1 →
       id ∈ delivered demo_cfg (txt "cg.memory") (view (demo_start demo_entries)) s →
       ∃ m, m ∈ ms ∧ mkey m = (s, id)) ∧
    ∀ m, m ∈ ms → ∃ v, judged demo_cfg demo_by_stream anywhere m v ∧
      settled demo_cfg (txt "cg.memory") m v demo_passed ∧
      (v = LeavePending → msg_delivery_count m < max_deliveries demo_cfg).
Proof.
  destruct demo_sizes as (Hc & Hn & Hb).
  apply (pass_follows_policy demo_cfg Hc (txt "cg.memory") demo_by_stream [1]%nat
    (demo_start demo_entries) 1 demo_passed).
  - exact demo_quiet.
  - apply NoDup_singleton.
  - exact demo_group_pass.
Defined.

Definition demo_batch : list StreamMessage :=
  imap (λ i fs, mk_StreamMessage files_stream (demo_id i) (alist_get CE_FIELD fs) 1 false) demo_entries.

Definition demo_lanes : list (list StreamMessage) := unwrap [] (lanes_of 2 demo_batch).

Lemma lanes_witness :
  (length demo_lanes ≤ 2)%nat ∧ concat demo_lanes ≡ₚ demo_batch ∧
  ∀ k, ∃ i, ∀ j l, demo_lanes !! j = Some l →
    List.filter (of_entity k) l =
    if bool_decide (j = i) then List.filter (of_entity k) demo_batch else [].
Proof.
  apply (lanes_keep_entity_order 2 demo_batch demo_lanes); [lia|].
  apply unwrap_Ok. by vm_compute.
Defined.

Definition poison : fields := demo_entry (JArr [JNull]) "e9" "doc".
Definition poison_message : StreamMessage := to_message (files_stream, demo_id 0, poison).

Lemma unhashable_type_witness :
  run_lane demo_cfg (txt "cg.memory") demo_by_stream [poison_message] (demo_start [poison]) =
  (Err (Other "TypeError"), demo_start [poison]).
Proof.
  apply (unhashable_type_escapes demo_cfg (txt "cg.memory") demo_by_stream demo_sub poison_message []
    (default [] (unwrap None (decode poison_message)))).
  - reflexivity.
  - vm_compute. reflexivity.
  - left. exists JNull, []. vm_compute. reflexivity.
  - vm_compute. reflexivity.
  - vm_compute. reflexivity.
  - vm_compute. reflexivity.
Defined.

(** A batch can be wider than the lanes it is dealt into, although [COUNT] equals the
    concurrency: after two transient failures one [read] returns the two entries it
    recovers and two new ones. *)
Example batch_wider_than_lanes :
  let entries := replicate 4 (demo_entry (typed "a.b.busy.v1") "e1" "doc1") in
  let w := (run_once demo_cfg [] [demo_sub] (demo_start entries)).2 in
  batch_count demo_cfg = Z.of_nat (concurrency demo_cfg) ∧
  length <$> (read [files_stream] (txt "cg.memory") (consumer_name demo_cfg)
                (batch_count demo_cfg) (block_ms demo_cfg) w).1 = Ok 4%nat.
Proof. vm_compute. split; reflexivity. Qed.

(** A worker that died with two entries in hand. *)
Definition dead_worker : text := txt "memory.host.7".

Definition abandoned : Demo :=
  let d := (xreadgroup (txt "cg.memory") dead_worker (NewEntries 0) [files_stream] 2
              (demo_start demo_entries)).2 in
  mk_Demo (d_groups d) (d_logs d) (d_added d)
    [(dead_worker, 3600000); (consumer_name demo_cfg, 10)] (d_effects d).

(** Another worker, which takes the next entry before the first and the third command. *)
Definition helper : text := txt "memory.host.2".
Definition takes (c : text) (d : Demo) : Demo :=
  (xreadgroup (txt "cg.memory") c (NewEntries 0) [files_stream] 1 d).2.
Definition at_work : list (Demo → Demo) := [takes helper; id; takes helper].
Definition none_for (c : text) : Prop := c ≠ helper.
Definition same_host (d : Demo) : Prop := d_consumers d = d_consumers abandoned.

Lemma at_work_fleet : fleet at_work none_for same_host.
Proof.
  split; try done.
  - intros f w Hf Hw. by repeat (apply elem_of_cons in Hf as [->|Hf]); [..|apply elem_of_nil in Hf].
  - intros f w s g c Hf _ Hc Hnil.
    assert (f = takes helper ∨ f = id) as [-> | ->] by (unfold at_work in Hf; set_solver); [|done].
    destruct (xreadgroup_new_acts (txt "cg.memory") helper [files_stream] 1 0 (NoDup_singleton _) w) as (_ & He & _ & Hp).
    destruct (decide (s ∈ [files_stream] ∧ g = txt "cg.memory")) as [[Hs ->]|Hn].
    + destruct (Hp s Hs) as [Hpend _]. rewrite (Hpend : pend (view (takes helper w)) s (txt "cg.memory") = _). unfold owned in *.
      rewrite List.filter_app, Hnil. apply filter_none, Forall_forall. intros p (i & -> & _)%list_elem_of_fmap.
      apply bool_decide_eq_false. intros Heq. by apply Hc.
    + destruct (He s g) as [Hpend _]; [naive_solver|]. by rewrite (Hpend : pend (view (takes helper w)) s g = _).
Qed.

Lemma at_work_presumed : presumed (consumer_name demo_cfg) 900000 none_for same_host.
Proof.
  intros s g w infos w' i Hw [= <- _] (x & -> & Hx)%list_elem_of_fmap Hn Hidle. cbn in Hn, Hidle.
  unfold demo_consumers in Hx. rewrite Hw in Hx. apply elem_of_app in Hx as [Hx|Hx].
  - apply elem_of_cons in Hx as [->|Hx%list_elem_of_singleton]; [by intros [=]|by subst x].
  - apply list_elem_of_fmap in Hx as (p & -> & _). cbn in Hidle. lia.
Qed.

Definition swept : result exn (list text) * Beside Demo :=
  sweep_stale_consumers [(files_stream, txt "cg.memory")] (consumer_name demo_cfg) 900000 (abandoned, at_work).

Definition left_behind : result exn (list text) * Beside Demo :=
  deregister_consumer [(files_stream, txt "cg.memory")] dead_worker (abandoned, at_work).

(** The two entries of the dead worker end with the sweeping one, and with them what the helper
    had taken before the claim; a worker that leaves with entries in hand keeps its name. *)
Lemma sweep_loses_nothing_witness :
  map pe_owner (pend (view abandoned) files_stream (txt "cg.memory")) = [dead_worker; dead_worker] ∧
  length (owned (consumer_name demo_cfg) (pend (view swept.2.1) files_stream (txt "cg.memory"))) = 3%nat ∧
  rtc (move at_work same_host (consumer_name demo_cfg)) (view abandoned) (view swept.2.1) ∧
  (∀ gone, Ok [dead_worker] = Ok (E := exn) gone → consumer_name demo_cfg ∉ gone) ∧
  left_behind.1 = Ok [] ∧ rtc (move at_work same_host (consumer_name demo_cfg)) (view abandoned) (view left_behind.2.1).
Proof.
  destruct (sweep_loses_nothing at_work none_for same_host (consumer_name demo_cfg) [(files_stream, txt "cg.memory")] abandoned
    at_work_fleet eq_refl) as [Hsweep Hleave].
  assert (sweep_stale_consumers [(files_stream, txt "cg.memory")] (consumer_name demo_cfg) 900000
            ((abandoned, at_work) : Beside Demo) = (Ok [dead_worker], swept.2)) as Hrun.
  { unfold swept. apply run_Ok. vm_compute. reflexivity. }
  destruct (Hsweep 900000 _ _ at_work_presumed Hrun) as (Hm & _ & Hgone).
  assert (left_behind.1 = Ok []) as Hnone by (vm_compute; reflexivity).
  assert (deregister_consumer [(files_stream, txt "cg.memory")] dead_worker ((abandoned, at_work) : Beside Demo)
          = (Ok [], left_behind.2)) as Hexit.
  { unfold left_behind. apply run_Ok. exact Hnone. }
  destruct (Hleave dead_worker _ _ ltac:(intros [=]) Hexit) as [Hm' _].
  split; [by vm_compute|]. split; [by vm_compute|]. split; [exact Hm|]. split; [exact Hgone|]. split; [exact Hnone|exact Hm'].
Defined.

(** A consumer presumed dead that wakes up and takes an entry before its deletion: the entry is
    neither pending nor unread afterwards. *)
Example woken_consumer_loses :
  let x := sweep_stale_consumers [(files_stream, txt "cg.memory")] (consumer_name demo_cfg) 900000
             ((abandoned, [id; id; id; takes dead_worker]) : Beside Demo) in
  x.1 = Ok [dead_worker] ∧
  unread (view abandoned) files_stream (txt "cg.memory") = demo_id <$> [2; 3; 4]%nat ∧
  unread (view x.2.1) files_stream (txt "cg.memory") = demo_id <$> [3; 4]%nat ∧
  pe_id <$> pend (view x.2.1) files_stream (txt "cg.memory") = demo_id <$> [0; 1]%nat.
Proof. vm_compute. split_and!; reflexivity. Qed.

#[local] Instance demo_host : Host := {| gethostname := txt "api-1"; pid_is_alive p := p =? 12 |}.

(** Two notify groups, the second of a live process. *)
Definition notify_groups : Demo :=
  mk_Demo {[(files_stream, txt "cg.notify.api-0.9") := mk_DemoGroup [] 3;
            (files_stream, txt "cg.notify.api-1.12") := mk_DemoGroup [] 3;
            (files_stream, txt "cg.memory") := mk_DemoGroup [] 3]}
    ∅ [] [] [].

Definition orphans_found : result exn (list NotifyGroup) * Demo :=
  find_orphan_notify_groups (mret tt) [files_stream] true 900000 notify_groups.

Definition orphans : list NotifyGroup := unwrap [] orphans_found.1.

Definition orphans_gone : result exn Z * Demo := destroy_orphan_notify_groups orphans orphans_found.2.

Lemma orphan_cleanup_witness :
  ng_name <$> orphans = [txt "cg.notify.api-0.9"] ∧
  (∀ n, n ∈ orphans → starts_with CG_NOTIFY_PREFIX (ng_name n) = true ∧ ng_pending n = 0 ∧
     living_reader n 900000 = false ∧ (is_this_host n && live_pid (pid_text n)) = false) ∧
  ∀ s g, pend (view orphans_gone.2) s g = pend (view orphans_found.2) s g ∧
    ((s, g) ∉ (λ n, (ng_stream n, ng_name n)) <$> orphans →
     unread (view orphans_gone.2) s g = unread (view orphans_found.2) s g).
Proof.
  split; [vm_compute; reflexivity|].
  apply (orphan_cleanup_spares_the_living (mret tt) [files_stream] true 900000 notify_groups orphans
    orphans_found.2 orphans_gone.1 orphans_gone.2).
  - apply run_Ok, unwrap_Ok. vm_compute. reflexivity.
  - apply surjective_pairing.
Defined.
