(* ===== verification/Outbox.v ===== *)
(** * Outbox: the transactional outbox and its relay

    [infrastructure/persistence/outbox.py] (the table, the producers' append and the
    relay's three statements) and [infrastructure/messaging/outbox.py] (the relay's
    cycle and its endless loop).  Every statement is a short transaction of its own that
    may fail, before or after it took effect; a publish is a Redis command. *)

From S2P Require Import Prelude Text Calendar Errors Framework Transactions Files Keyset Events Wire Streams.

Open Scope Z_scope.

(** One row of [platform.outbox] ([causation_id] is never written). *)
Record OutboxRow := mk_OutboxRow {
  or_id : text;
  or_workspace_id : text;
  or_aggregate_type : text;
  or_aggregate_id : text;
  or_event_type : text;
  or_stream : text;
  or_payload : json;
  or_correlation_id : text;
  or_created_at : instant;
  or_published_at : option instant;
  or_attempts : Z
}.

Definition with_published (t : instant) (r : OutboxRow) : OutboxRow :=
  mk_OutboxRow (or_id r) (or_workspace_id r) (or_aggregate_type r) (or_aggregate_id r)
    (or_event_type r) (or_stream r) (or_payload r) (or_correlation_id r) (or_created_at r)
    (Some t) (or_attempts r).

Definition with_attempt (r : OutboxRow) : OutboxRow :=
  mk_OutboxRow (or_id r) (or_workspace_id r) (or_aggregate_type r) (or_aggregate_id r)
    (or_event_type r) (or_stream r) (or_payload r) (or_correlation_id r) (or_created_at r)
    (or_published_at r) (or_attempts r + 1).

(** The [jsonb] column: the payload as the server hands it back. *)
Class Jsonb := { jsonb : json → json }.

(** [_translate_relay] *)
Definition translate_relay (sqlstate : option text) : exn := internal_exn.

(** [SqlEventOutbox.append], in a transaction that began at [now]: created with the
    database's defaults, all rows or none. *)
Definition new_row `{Jsonb} (ctx : ExecutionContext) (now : instant) (r : OutboxRecord) : OutboxRow :=
  mk_OutboxRow (ob_event_id r) (workspace_id ctx) (ob_aggregate_type r) (ob_aggregate_id r)
    (ob_event_type r) (ob_stream r) (jsonb (ob_payload r)) (correlation_id ctx) now None 0.

Definition append `{Jsonb} (ctx : ExecutionContext) (now : instant) (records : list OutboxRecord)
    (table : list OutboxRow) : result DbFault (list OutboxRow) :=
  if bool_decide (records = []) then Ok table
  else if negb (bool_decide (NoDup (or_id <$> table ++ (new_row ctx now <$> records))))
  then Err unique_violation
  else Ok (table ++ (new_row ctx now <$> records)).

Record OutboxEntry := mk_OutboxEntry {
  oe_event_id : text; oe_stream : text; oe_payload : json
}.

Definition entry_of (r : OutboxRow) : OutboxEntry := mk_OutboxEntry (or_id r) (or_stream r) (or_payload r).

(** [ORDER BY created_at, id] *)
Definition older_or_same (x y : OutboxRow) : Prop :=
  or_created_at x < or_created_at y ∨
  (or_created_at x = or_created_at y ∧ ¬ text_lt (or_id y) (or_id x)).

#[global] Instance older_or_same_dec x y : base.Decision (older_or_same x y).
Proof. unfold older_or_same. apply _. Defined.

Definition unpublished (r : OutboxRow) : bool := bool_decide (or_published_at r = None).

(** The rows of [fetch_unpublished]. *)
Definition oldest (limit : Z) (table : list OutboxRow) : list OutboxRow :=
  take (Z.to_nat limit) (merge_sort older_or_same (List.filter unpublished table)).

Definition touch (ids : list text) (f : OutboxRow → OutboxRow) (table : list OutboxRow) : list OutboxRow :=
  (λ r, if bool_decide (or_id r ∈ ids) then f r else r) <$> table.

(** The relay's world: the table, the stream server, and how many statements it has
    issued. *)
Record RelayWorld (R : Type) := mk_RelayWorld {
  table : list OutboxRow; redis : R; trips : nat
}.
Arguments mk_RelayWorld {R}.
Arguments table {R}.
Arguments redis {R}.
Arguments trips {R}.

Section Relay.
Context {R : Type} `{StreamServer R, FloatRepr, DB : Database}.

Definition statement {A} (run : instant → list OutboxRow → A * list OutboxRow)
    : eff (RelayWorld R) exn A :=
  λ w, let '(a, rows) := run (now_at (trips w)) (table w) in
       match fault (trips w) with
       | None => (Ok a, mk_RelayWorld rows (redis w) (S (trips w)))
       | Some (f, committed) =>
           (Err (translated translate_relay f),
            mk_RelayWorld (if committed : bool then rows else table w) (redis w) (S (trips w)))
       end.

Definition fetch_unpublished (limit : Z) : eff (RelayWorld R) exn (list OutboxEntry) :=
  statement (λ _ rows, (entry_of <$> oldest limit rows, rows)).

Definition mark_published (ids : list text) : eff (RelayWorld R) exn unit :=
  if bool_decide (ids = []) then mret tt
  else statement (λ now rows, (tt, touch ids (with_published now) rows)).

Definition bump_attempts (ids : list text) : eff (RelayWorld R) exn unit :=
  if bool_decide (ids = []) then mret tt
  else statement (λ _ rows, (tt, touch ids with_attempt rows)).

(** A Redis command in the relay's world. *)
Definition on_redis {A} (m : eff R exn A) : eff (RelayWorld R) exn A :=
  λ w, match m (redis w) with (r, x) => (r, mk_RelayWorld (table w) x (trips w)) end.

Record RelayConfig := mk_RelayConfig {
  batch_size : Z; poll_interval_ms : Z; max_backoff_ms : Z; stream_maxlen : option Z
}.
Variable cfg : RelayConfig.

(** The loop inside [run_once]: the prefix that reached Redis, and what ended it. *)
Fixpoint publish_each (entries : list OutboxEntry) (succeeded : list text) (w : RelayWorld R)
    : list text * option exn * RelayWorld R :=
  match entries with
  | [] => (succeeded, None, w)
  | e :: entries =>
      match on_redis (publish (stream_maxlen cfg) (oe_stream e) (oe_payload e)) w with
      | (Ok _, w') => publish_each entries (succeeded ++ [oe_event_id e]) w'
      | (Err err, w') =>
          match bump_attempts [oe_event_id e] w' with
          | (Ok _, w'') => (succeeded, Some err, w'')
          | (Err err', w'') => (succeeded, Some err', w'')
          end
      end
  end.

(** [run_once]; an exception of the [finally] replaces the one under way. *)
Definition run_once : eff (RelayWorld R) exn Z :=
  entries ← fetch_unpublished (batch_size cfg);
  if bool_decide (entries = []) then mret 0
  else λ w,
    let '(succeeded, failure, w') := publish_each entries [] w in
    (_ ← mark_published succeeded;
     match failure with
     | Some e => eff_raise e
     | None => mret (Z.of_nat (length succeeded))
     end) w'.

(** The first [cycles] rounds of [run_forever], which never ends by itself: how long it
    slept after each, if it did. *)
Fixpoint run_forever (cycles : nat) (backoff_ms : Z) : eff (RelayWorld R) exn (list Z) :=
  match cycles with
  | O => mret []
  | S cycles => λ w,
      match run_once w with
      | (Err (App _), w') =>
          (slept ← run_forever cycles (Z.min (backoff_ms * 2) (max_backoff_ms cfg));
           mret (backoff_ms :: slept)) w'
      | (Err (Other name), w') => (Err (Other name), w')
      | (Ok published, w') =>
          (slept ← run_forever cycles (poll_interval_ms cfg);
           mret (if published =? batch_size cfg then slept else poll_interval_ms cfg :: slept)) w'
      end
  end.
End Relay.

#[global] Instance older_or_same_total : Total older_or_same.
Proof.
  intros x y. unfold older_or_same.
  destruct (Z.lt_trichotomy (or_created_at x) (or_created_at y)) as [?|[He|?]]; [by left; left| |by right; left].
  destruct (decide (text_lt (or_id y) (or_id x))) as [Hl|Hl]; [right; right|left; right]; (split; [done|]); [|done].
  intros Hl'. exact (text_lt_irrefl _ (text_lt_trans _ _ _ Hl Hl')).
Qed.

#[global] Instance older_or_same_trans : Transitive older_or_same.
Proof.
  intros x y z. unfold older_or_same. intros [?|[? Hxy]] [?|[? Hyz]]; [left; lia..|].
  right. split; [congruence|]. intros Hl.
  destruct (text_lt_total (or_id x) (or_id y)) as [Hs|[Hs|Hs]]; [| |done].
  - apply Hyz. by eapply text_lt_trans.
  - apply Hyz. by rewrite <- Hs.
Qed.

Lemma oldest_elem limit rows r : r ∈ oldest limit rows → r ∈ rows ∧ or_published_at r = None.
Proof.
  intros Hr%elem_of_take. destruct Hr as (i & Hr & _). apply list_elem_of_lookup_2 in Hr.
  rewrite merge_sort_Permutation in Hr. apply elem_of_list_filter_bool in Hr as [Hr Hu].
  split; [done|by apply bool_decide_eq_true in Hu].
Qed.

Lemma oldest_length limit rows :
  length (oldest limit rows) = Nat.min (Z.to_nat limit) (length (List.filter unpublished rows)).
Proof. unfold oldest. rewrite length_take. by rewrite (Permutation_length (merge_sort_Permutation _ _)). Qed.

Lemma oldest_NoDup limit rows : NoDup (or_id <$> rows) → NoDup (or_id <$> oldest limit rows).
Proof.
  intros Hnd. unfold oldest. rewrite fmap_take. eapply sublist_NoDup; [|apply sublist_take].
  rewrite (merge_sort_Permutation older_or_same). eapply sublist_NoDup; [exact Hnd|].
  clear Hnd. induction rows as [|r rows IH]; cbn; [done|]. destruct (unpublished r); cbn; by constructor.
Qed.

Lemma oldest_sorted limit rows : StronglySorted older_or_same (oldest limit rows).
Proof.
  unfold oldest. pose proof (StronglySorted_merge_sort older_or_same (List.filter unpublished rows)) as Hs.
  rewrite <- (take_drop (Z.to_nat limit)) in Hs. by apply StronglySorted_app in Hs as (_ & Hs & _).
Qed.

Lemma touch_nil f rows : touch [] f rows = rows.
Proof.
  unfold touch. rewrite <- (list_fmap_id rows) at 2. apply list_fmap_ext. intros i r _.
  rewrite bool_decide_false; [done|]. by intros ?%elem_of_nil.
Qed.

(** ** What a publish does to the streams *)

Section Facts.
Context {R : Type} `{StreamServerLaws R, FloatRepr, DB : Database}.
Implicit Types (w : RelayWorld R).

Definition log w : list (text * fields) := added (view (redis w)).

(** An entry of a stream that carries a payload. *)
Definition wire (stream : text) (payload : json) (e : text * fields) : Prop :=
  ∃ p, encode_event payload = Ok p ∧ e = (stream, [(CE_FIELD, p)]).

Lemma publish_log ml stream payload (x : R) r x' :
  publish ml stream payload x = (r, x') →
  (∃ e, wire stream payload e ∧ added (view x') = added (view x) ++ [e]) ∨
  (is_ok r = false ∧ added (view x') = added (view x)).
Proof.
  unfold publish, mbind, eff_bind, eff_lift.
  destruct (encode_event payload) as [p|err] eqn:He; [|intros [= <- <-]; by right].
  unfold publishing, translating. pose proof (xadd_acts stream ml [(CE_FIELD, p)] x) as Ha.
  assert (∀ i x1, adds stream [(CE_FIELD, p)] (view x) i (view x1) →
    ∃ e, wire stream payload e ∧ added (view x1) = added (view x) ++ [e]) as Hadd.
  { intros i x1 (_ & Hl & _). exists (stream, [(CE_FIELD, p)]). split; [by exists p|done]. }
  destruct (xadd stream ml _ x) as [[i|e] x1]; [intros [= <- <-]; left; by eapply Hadd|].
  assert (∀ r1, is_ok r1 = false → (r1, x1) = (r, x') →
    (∃ e0, wire stream payload e0 ∧ added (view x') = added (view x) ++ [e0]) ∨
    is_ok r = false ∧ added (view x') = added (view x)) as Hfail.
  { intros r1 Hr [= <- <-]. destruct Ha as [(_ & Hl & _)|[i Hi]]; [by right|left; by eapply Hadd]. }
  destruct e; by apply Hfail.
Qed.

Lemma on_redis_run {A} (m : eff R exn A) w r w' :
  on_redis m w = (r, w') → table w' = table w ∧ m (redis w) = (r, redis w').
Proof. unfold on_redis. destruct (m (redis w)) as [r1 x]. by intros [= <- <-]. Qed.

Lemma statement_run {A} (run : instant → list OutboxRow → A * list OutboxRow) w r w' :
  statement run w = (r, w') →
  redis w' = redis w ∧
  ∃ now, (table w' = (run now (table w)).2 ∧ (∀ a, r = Ok a → a = (run now (table w)).1)) ∨
         (table w' = table w ∧ is_ok r = false).
Proof.
  unfold statement. destruct (run _ _) as [a rows] eqn:Hrun.
  destruct (fault (trips w)) as [[f c]|]; intros [= <- <-]; cbn; (split; [done|]);
    exists (now_at (trips w)); rewrite Hrun; cbn; [destruct c; [left; by split|by right]|left].
  split; [done|]. by intros ? [= ->].
Qed.

Lemma mark_run ids w r w' : mark_published ids w = (r, w') →
  redis w' = redis w ∧ ∃ now, table w' = touch ids (with_published now) (table w) ∨
    (table w' = table w ∧ is_ok r = false).
Proof.
  unfold mark_published. case_bool_decide as Hn.
  - intros [= _ <-]. split; [done|]. exists 0. left. by rewrite Hn, touch_nil.
  - intros (Hr & now & [[Ht _]|Ht])%statement_run; (split; [done|]); exists now; [by left|by right].
Qed.

Lemma bump_run ids w r w' : bump_attempts ids w = (r, w') →
  redis w' = redis w ∧ ∃ ids', table w' = touch ids' with_attempt (table w).
Proof.
  unfold bump_attempts. case_bool_decide as Hn.
  - intros [= _ <-]. split; [done|]. exists []. by rewrite touch_nil.
  - intros (Hr & now & [[Ht _]|[Ht _]])%statement_run; (split; [done|]);
      [by exists ids|exists []; by rewrite touch_nil].
Qed.

Lemma fetch_run limit w r w' : fetch_unpublished limit w = (r, w') →
  redis w' = redis w ∧ table w' = table w ∧ ∀ es, r = Ok es → es = entry_of <$> oldest limit (table w).
Proof.
  unfold fetch_unpublished. intros (Hr & now & [[Ht Hres]|[Ht Hno]])%statement_run; (split; [done|]); (split; [done|]); [done|].
  by intros es ->.
Qed.
End Facts.

(** ** The relay among producers and consumers *)

Section Steps.
Context {R : Type} `{StreamServerLaws R, FloatRepr, DB : Database, Jsonb}.
Variable cfg : RelayConfig.
Implicit Types (w : RelayWorld R) (es : list OutboxEntry).

(** Where the relay process stands: between cycles, or with entries left to publish
    and a prefix that reached the stream. *)
Inductive Phase : Type :=
  | Idle
  | Publishing (left : list OutboxEntry) (succeeded : list text).

(** One step of the system: the relay's own, its death or cancellation, a producer's
    commit, and anything other processes do to the streams. *)
Inductive relay_step : RelayWorld R * Phase → RelayWorld R * Phase → Prop :=
  | step_fetch w es w' :
      fetch_unpublished (batch_size cfg) w = (Ok es, w') →
      relay_step (w, Idle) (w', Publishing es [])
  | step_fetch_failed w e w' :
      fetch_unpublished (batch_size cfg) w = (Err e, w') → relay_step (w, Idle) (w', Idle)
  | step_publish w e es done_ i w' :
      on_redis (publish (stream_maxlen cfg) (oe_stream e) (oe_payload e)) w = (Ok i, w') →
      relay_step (w, Publishing (e :: es) done_) (w', Publishing es (done_ ++ [oe_event_id e]))
  | step_publish_failed w e es done_ err w' r w'' :
      on_redis (publish (stream_maxlen cfg) (oe_stream e) (oe_payload e)) w = (Err err, w') →
      bump_attempts [oe_event_id e] w' = (r, w'') →
      relay_step (w, Publishing (e :: es) done_) (w'', Publishing [] done_)
  | step_mark w done_ r w' :
      mark_published done_ w = (r, w') → relay_step (w, Publishing [] done_) (w', Idle)
  | step_cancelled w es done_ : relay_step (w, Publishing es done_) (w, Publishing [] done_)
  | step_killed w p : relay_step (w, p) (w, Idle)
  | step_commit w p ctx now records rows :
      append ctx now records (table w) = Ok rows →
      relay_step (w, p) (mk_RelayWorld rows (redis w) (trips w), p)
  | step_others w p x l :
      added (view x) = added (view (redis w)) ++ l →
      relay_step (w, p) (mk_RelayWorld (table w) x (trips w), p).

(** A whole cycle is a run of the relay's own steps. *)
Lemma publish_each_steps es done_ w succ failure w' :
  publish_each cfg es done_ w = (succ, failure, w') →
  rtc relay_step (w, Publishing es done_) (w', Publishing [] succ).
Proof.
  revert done_ w; induction es as [|e es IH]; intros done_ w; cbn [publish_each].
  { intros [= <- _ <-]. constructor. }
  destruct (on_redis _ w) as [[i|err] w1] eqn:Hp.
  - intros Hrest. eapply rtc_l; [by eapply step_publish|by apply IH].
  - destruct (bump_attempts _ w1) as [r w2] eqn:Hb. intros Hrest.
    assert (succ = done_ ∧ w' = w2) as [-> ->] by (destruct r; by injection Hrest as <- _ <-).
    by eapply rtc_once, step_publish_failed.
Qed.

(** A cycle of [run_once], whatever its outcome, is a run of the small steps that start and
    end between cycles, so everything shown of interleaved runs holds of whole cycles. *)
Theorem run_once_refines_steps w r w' :
  run_once cfg w = (r, w') → rtc relay_step (w, Idle) (w', Idle).
Proof.
  unfold run_once, mbind at 1, eff_bind at 1.
  destruct (fetch_unpublished _ w) as [[es|e] w1] eqn:Hf.
  2:{ intros [= _ <-]. by eapply rtc_once, step_fetch_failed. }
  intros Hrest. eapply rtc_l; [by eapply step_fetch|]. revert Hrest. case_bool_decide as Hes.
  { intros [= _ <-]. apply rtc_once. subst es. by eapply step_mark. }
  destruct (publish_each cfg es [] w1) as [[succ failure] w2] eqn:Hp. intros Hrest.
  etrans; [by eapply publish_each_steps|].
  unfold mbind, eff_bind in Hrest. destruct (mark_published succ w2) as [[u|e] w3] eqn:Hm.
  - assert (w' = w3) as -> by (destruct failure; by injection Hrest).
    by eapply rtc_once, step_mark.
  - injection Hrest as _ <-. by eapply rtc_once, step_mark.
Qed.

(** ** Nothing is lost *)

(** The row's event is on its stream. *)
Definition announced w (r : OutboxRow) : Prop :=
  ∃ e, wire (or_stream r) (or_payload r) e ∧ e ∈ log w.

(** The same event, further along. *)
Definition same_event (r r' : OutboxRow) : Prop :=
  or_id r' = or_id r ∧ or_stream r' = or_stream r ∧ or_payload r' = or_payload r ∧
  (or_published_at r ≠ None → or_published_at r' ≠ None).

Record relay_ok (s : RelayWorld R * Phase) : Prop := {
  ok_keys : NoDup (or_id <$> table s.1);
  ok_marked : ∀ r, r ∈ table s.1 → or_published_at r ≠ None → announced s.1 r;
  ok_phase : match s.2 with
    | Idle => True
    | Publishing es done_ =>
        (∀ e, e ∈ es → ∃ r, r ∈ table s.1 ∧ entry_of r = e) ∧
        ∀ i, i ∈ done_ → ∃ r, r ∈ table s.1 ∧ or_id r = i ∧ announced s.1 r
    end
}.

Definition carries w w' : Prop :=
  (∀ r, r ∈ table w → ∃ r', r' ∈ table w' ∧ same_event r r') ∧
  ∃ l, log w' = log w ++ l.

Lemma carries_refl w : carries w w.
Proof. split; [intros r Hr; by exists r|]. exists []. by rewrite app_nil_r. Qed.

Lemma carries_trans w1 w2 w3 : carries w1 w2 → carries w2 w3 → carries w1 w3.
Proof.
  intros [C1 [l1 L1]] [C2 [l2 L2]]. split.
  - intros r Hr. destruct (C1 r Hr) as (r1 & Hr1 & Hi & Hs & Hp & Hm).
    destruct (C2 r1 Hr1) as (r2 & Hr2 & Hi' & Hs' & Hp' & Hm').
    exists r2. split; [done|]. split_and!; [congruence..|auto].
  - exists (l1 ++ l2). by rewrite L2, L1, app_assoc.
Qed.

Lemma announced_carries w w' r r' :
  (∃ l, log w' = log w ++ l) → or_stream r' = or_stream r → or_payload r' = or_payload r →
  announced w r → announced w' r'.
Proof.
  intros [l Hl] Hs Hp (e & He & Hin). exists e. rewrite Hs, Hp, Hl. split; [done|].
  apply elem_of_app. by left.
Qed.

(** Rewriting rows in place, keeping their events. *)
Lemma touch_elem ids f rows r' : r' ∈ touch ids f rows →
  ∃ r, r ∈ rows ∧ r' = if bool_decide (or_id r ∈ ids) then f r else r.
Proof. intros (r & -> & Hr)%list_elem_of_fmap. by exists r. Qed.

Lemma touch_keys ids f rows : (∀ r, or_id (f r) = or_id r) →
  or_id <$> touch ids f rows = or_id <$> rows.
Proof.
  intros Hf. unfold touch. rewrite <- list_fmap_compose. apply list_fmap_ext.
  intros i r _. cbn. by case_bool_decide.
Qed.

Lemma touch_carries ids f w w' : table w' = touch ids f (table w) → redis w' = redis w →
  (∀ r, same_event r (f r)) → carries w w'.
Proof.
  intros Ht Hr Hf. split.
  - intros r Hin. exists (if bool_decide (or_id r ∈ ids) then f r else r). split.
    + rewrite Ht. apply list_elem_of_fmap. by exists r.
    + case_bool_decide; [apply Hf|by split_and!].
  - exists []. unfold log. by rewrite Hr, app_nil_r.
Qed.

Lemma phase_carries w w' p :
  carries w w' → relay_ok (w, p) →
  match p with
  | Idle => True
  | Publishing es done_ =>
      (∀ e, e ∈ es → ∃ r, r ∈ table w' ∧ entry_of r = e) ∧
      ∀ i, i ∈ done_ → ∃ r, r ∈ table w' ∧ or_id r = i ∧ announced w' r
  end.
Proof.
  intros [Hc Hl] [_ _ Hp]. destruct p as [|es done_]; [done|]. cbn in Hp. destruct Hp as [He Hd]. split.
  - intros e Hin. destruct (He e Hin) as (r & Hr & <-). destruct (Hc r Hr) as (r' & Hr' & Hi & Hs & Hpl & _).
    exists r'. split; [done|]. unfold entry_of. congruence.
  - intros i Hin. destruct (Hd i Hin) as (r & Hr & <- & Ha). destruct (Hc r Hr) as (r' & Hr' & Hi & Hs & Hpl & _).
    exists r'. split_and!; [done..|]. by eapply announced_carries.
Qed.

(** A step keeps the invariant when what it newly marks is on its stream. *)
Lemma ok_step w w' p :
  relay_ok (w, p) → carries w w' → NoDup (or_id <$> table w') →
  (∀ r', r' ∈ table w' → or_published_at r' ≠ None → announced w' r' ∨
     ∃ r, r ∈ table w ∧ or_stream r' = or_stream r ∧ or_payload r' = or_payload r ∧
          or_published_at r ≠ None) →
  relay_ok (w', p) ∧ carries w w'.
Proof.
  intros Hok Hc Hnd Hm. split; [|done]. split; [done| |by eapply phase_carries].
  intros r' Hr' Hpub. destruct (Hm r' Hr' Hpub) as [?|(r & Hr & Hs & Hp & Hrp)]; [done|].
  eapply announced_carries; [apply Hc|done..|]. by apply (ok_marked _ Hok).
Qed.

(** The same rows, over streams that only grew. *)
Lemma ok_log w w' p l :
  relay_ok (w, p) → table w' = table w → log w' = log w ++ l → relay_ok (w', p) ∧ carries w w'.
Proof.
  intros Hok Ht Hl. apply ok_step; [done| | |].
  - split; [|by exists l]. intros r Hr. exists r. rewrite Ht. split; [done|by split_and!].
  - rewrite Ht. apply Hok.
  - intros r Hr Hp. right. exists r. by rewrite <- Ht.
Qed.

Lemma bump_ok w ids r w' p :
  relay_ok (w, p) → bump_attempts ids w = (r, w') → relay_ok (w', p) ∧ carries w w'.
Proof.
  intros Hok (Hr & ids' & Ht)%bump_run. apply ok_step; [done| | |].
  - by eapply touch_carries.
  - rewrite Ht, touch_keys by done. apply Hok.
  - intros r' Hin Hp. right. rewrite Ht in Hin. apply touch_elem in Hin as (x & Hx & ->).
    exists x. by destruct (bool_decide _).
Qed.

Lemma mark_ok w done_ r w' :
  relay_ok (w, Publishing [] done_) → mark_published done_ w = (r, w') →
  relay_ok (w', Idle) ∧ carries w w'.
Proof.
  intros Hok (Hr & now & [Ht|[Ht _]])%mark_run.
  2:{ eapply (ok_log _ _ _ []) in Hok as [[Hnd Hm _] Hc]; [|exact Ht|by unfold log; rewrite Hr, app_nil_r].
      split; [by split|done]. }
  destruct (ok_step w w' (Publishing [] done_)) as [[Hnd Hm _] Hc]; [done| | | |by split; [split|]].
  - by eapply touch_carries.
  - rewrite Ht, touch_keys by done. apply Hok.
  - intros r' Hin Hp. rewrite Ht in Hin. apply touch_elem in Hin as (x & Hx & ->).
    case_bool_decide as Hd; [|right; by exists x].
    destruct (ok_phase _ Hok) as [_ Hdone]. destruct (Hdone _ Hd) as (y & Hy & Hid & Ha).
    assert (x = y) as -> by (eapply (NoDup_fmap_key or_id); [apply (ok_keys _ Hok)|done..]).
    left. eapply announced_carries; [exists []; by rewrite app_nil_r; unfold log; rewrite Hr|done..].
Qed.

Lemma append_ok ctx now records rows w p :
  relay_ok (w, p) → append ctx now records (table w) = Ok rows →
  relay_ok (mk_RelayWorld rows (redis w) (trips w), p) ∧
  carries w (mk_RelayWorld rows (redis w) (trips w)).
Proof.
  intros Hok. unfold append. case_bool_decide as Hn.
  { intros [= <-]. apply (ok_log _ _ _ []); [done..|by rewrite app_nil_r]. }
  destruct (bool_decide (NoDup _)) eqn:Hnd; cbn [negb]; [|done]. intros [= <-].
  apply bool_decide_eq_true in Hnd. apply ok_step; [done| |done|].
  - split; [|exists []; by rewrite app_nil_r]. intros r Hr. exists r. split; [|by split_and!].
    apply elem_of_app. by left.
  - intros r' [Hin|Hin]%elem_of_app Hp; [right; by exists r'|].
    apply list_elem_of_fmap in Hin as (x & -> & _). by cbn in Hp.
Qed.

Lemma relay_step_ok s s' : relay_step s s' → relay_ok s → relay_ok s' ∧ carries s.1 s'.1.
Proof.
  intros Hstep Hok. destruct Hstep as [w es w' Hf|w e w' Hf|w e es done_ i w' Hp|w e es done_ err w' r w'' Hp Hb
    |w done_ r w' Hm|w es done_|w p|w p ctx now records rows Ha|w p x l Hl].
  - apply fetch_run in Hf as (Hr & Ht & Hes). rewrite (Hes _ eq_refl). clear Hes es.
    apply (ok_log _ w' _ []) in Hok as [[Hnd Hm _] Hc]; [|done|by unfold log; rewrite Hr, app_nil_r].
    split; [|done]. split; [done..|]. split; [|by intros i ?%elem_of_nil].
    intros e (x & -> & Hx%oldest_elem)%list_elem_of_fmap. exists x. cbn. rewrite Ht. split; [apply Hx|done].
  - apply fetch_run in Hf as (Hr & Ht & _).
    apply (ok_log _ w' _ []); [done..|by unfold log; rewrite Hr, app_nil_r].
  - apply on_redis_run in Hp as [Ht Hp].
    apply publish_log in Hp as [(ev & Hev & Hl)|[? _]]; [|done].
    destruct (ok_phase _ Hok) as [He _]. destruct (He e) as (x & Hx & <-); [by left|].
    apply (ok_log _ w' _ [ev]) in Hok as [[Hnd Hm [He' Hd']] Hc]; [|done..].
    split; [|done]. split; [done..|]. split; [intros e' ?; apply He'; by right|].
    intros i' [Hi'|Hi'%list_elem_of_singleton]%elem_of_app; [by apply Hd'|subst i'].
    exists x. cbn. rewrite Ht. split_and!; [done..|]. exists ev. split; [done|].
    unfold log. rewrite Hl. apply elem_of_app. right. by left.
  - apply on_redis_run in Hp as [Ht Hp].
    assert (∃ l, log w' = log w ++ l) as [l Hl].
    { apply publish_log in Hp as [(ev & _ & Hl)|[_ Hl]]; [by exists [ev]|exists []; by rewrite app_nil_r]. }
    apply (ok_log _ w' _ l) in Hok as [Hok Hc]; [|done..].
    apply (bump_ok _ _ _ _ _ Hok) in Hb as [[Hnd Hm [He Hd]] Hc2].
    split; [|by eapply carries_trans]. split; [done..|]. split; [by intros i ?%elem_of_nil|done].
  - by eapply mark_ok.
  - split; [|apply carries_refl]. destruct Hok as [Hnd Hm [_ Hd]]. split; [done..|].
    split; [by intros i ?%elem_of_nil|done].
  - split; [|apply carries_refl]. by destruct Hok as [Hnd Hm _].
  - by eapply append_ok.
  - by apply (ok_log _ _ _ l).
Qed.

(** C13: No event is lost: from any point where the rows marked published are on their streams
    (an empty outbox, say), whatever the relay, its crashes, the producers and the
    consumers do, every row stays in the outbox with its stream and payload until its
    encoded payload has been added to that stream; only then is it marked published. *)
Theorem no_event_is_lost s s' r :
  relay_ok s → rtc relay_step s s' → r ∈ table s.1 →
  ∃ r', r' ∈ table s'.1 ∧ same_event r r' ∧ (or_published_at r' ≠ None → announced s'.1 r').
Proof.
  intros Hok Hrun Hr.
  assert (relay_ok s' ∧ carries s.1 s'.1) as [[_ Hm _] [Hc _]].
  { revert Hok. clear r Hr. induction Hrun as [s|s s1 s' Hstep Hrest IH]; intros Hok;
      [split; [done|apply carries_refl]|].
    destruct (relay_step_ok _ _ Hstep Hok) as [Hok1 Hc1]. destruct (IH Hok1) as [Hok2 Hc2].
    split; [done|by eapply carries_trans]. }
  destruct (Hc r Hr) as (r' & Hr' & Hs). exists r'. split; [done|]. split; [done|]. by apply Hm.
Qed.

End Steps.

(** ** One cycle *)

Section Cycle.
Context {R : Type} `{StreamServerLaws R, FloatRepr, DB : Database}.
Variable cfg : RelayConfig.
Implicit Types (w : RelayWorld R) (rows : list OutboxRow).

Definition wired rows (es : list (text * fields)) : Prop :=
  Forall2 (λ x e, wire (or_stream x) (or_payload x) e) rows es.

(** The loop publishes a prefix in order; the last entry may have got through although
    the command failed. *)
Lemma publish_each_spec rows done_ w succ failure w' :
  publish_each cfg (entry_of <$> rows) done_ w = (succ, failure, w') →
  ∃ k j es, (k ≤ j ≤ length rows)%nat ∧ succ = done_ ++ (or_id <$> take k rows) ∧
    wired (take j rows) es ∧ log w' = log w ++ es ∧
    (∃ ids, table w' = touch ids with_attempt (table w)) ∧
    (failure = None → k = length rows ∧ table w' = table w).
Proof.
  revert done_ w; induction rows as [|x rows IH]; intros done_ w; cbn [publish_each fmap list_fmap].
  { intros [= <- <- <-]. exists 0%nat, 0%nat, []. split_and!; [done|done|..].
    - by rewrite app_nil_r.
    - constructor.
    - by rewrite app_nil_r.
    - exists []. by rewrite touch_nil.
    - done. }
  destruct (on_redis _ w) as [[i|err] w1] eqn:Hp; apply on_redis_run in Hp as [Ht Hp]; apply publish_log in Hp.
  - destruct Hp as [(e & He & Hl)|[? _]]; [|done].
    intros (k & j & es & Hkj & -> & Hes & Hlog & (ids & Hids) & Hf)%IH.
    exists (S k), (S j), (e :: es). split_and!.
    + cbn. lia.
    + cbn. lia.
    + cbn. by rewrite <- app_assoc.
    + by constructor.
    + rewrite Hlog. unfold log in *. by rewrite Hl, <- app_assoc.
    + exists ids. by rewrite Hids, Ht.
    + intros Hn. destruct (Hf Hn) as [-> ->]. done.
  - destruct (bump_attempts _ w1) as [r w2] eqn:Hb. apply bump_run in Hb as (Hr & ids & Hids).
    intros Hrest. assert (succ = done_ ∧ is_Some failure ∧ w' = w2) as (-> & [err' ->] & ->).
    { by destruct r; injection Hrest as <- <- <-. }
    assert (∃ j es, (j ≤ 1)%nat ∧ wired (take j (x :: rows)) es ∧ added (view (redis w1)) = log w ++ es)
      as (j & es & Hj & Hes & Hlog).
    { destruct Hp as [(e & He & Hl)|[_ Hl]].
      - exists 1%nat, [e]. split; [done|]. split; [|done]. cbn. rewrite take_0. by repeat constructor.
      - exists 0%nat, []. split; [lia|]. split; [constructor|]. by rewrite app_nil_r. }
    exists 0%nat, j, es. split_and!; [lia|cbn; lia|by rewrite app_nil_r|done| |exists ids; by rewrite Hids, Ht|done].
    unfold log. by rewrite Hr.
Qed.

(** What a bump and a mark leave of the rows. *)
Lemma touched_rows ids picks now rows tab x' :
  (tab = touch picks (with_published now) (touch ids with_attempt rows) ∨ tab = touch ids with_attempt rows) →
  x' ∈ tab → ∃ x, x ∈ rows ∧ same_event x x' ∧
    (or_published_at x' ≠ None → or_published_at x ≠ None ∨ or_id x ∈ picks).
Proof.
  intros Htab Hx'.
  assert (∃ y, y ∈ touch ids with_attempt rows ∧ same_event y x' ∧
    (or_published_at x' ≠ None → or_published_at y ≠ None ∨ or_id y ∈ picks)) as (y & Hy & Hs & Hpub).
  { destruct Htab as [-> | ->]; [|exists x'; by split_and!; [..|left]].
    apply touch_elem in Hx' as (y & Hy & ->). exists y. split; [done|].
    case_bool_decide; [split; [by split_and!|by right]|split; [by split_and!|by left]]. }
  apply touch_elem in Hy as (x & Hx & ->). exists x. split; [done|].
  destruct Hs as (Hi & Hst & Hpl & Hm). destruct (bool_decide (or_id x ∈ ids)); cbn in *; by split_and!.
Qed.

(** A cycle publishes a prefix of the oldest unpublished rows, in order, and marks no row
    outside it, however it ends; when it returns it has published and marked all it
    fetched. *)
Theorem cycle_publishes_a_prefix w r w' :
  run_once cfg w = (r, w') →
  let rows := oldest (batch_size cfg) (table w) in
  StronglySorted older_or_same rows ∧
  ∃ j es, (j ≤ length rows)%nat ∧ wired (take j rows) es ∧ log w' = log w ++ es ∧
    (∀ x', x' ∈ table w' → ∃ x, x ∈ table w ∧ same_event x x' ∧
       (or_published_at x' ≠ None → or_published_at x ≠ None ∨ or_id x ∈ or_id <$> take j rows)) ∧
    ∀ n, r = Ok n → n = Z.of_nat (length rows) ∧ j = length rows ∧
      ∃ now, table w' = touch (or_id <$> rows) (with_published now) (table w).
Proof.
  intros Hrun rows. split; [apply oldest_sorted|]. revert Hrun.
  unfold run_once, mbind at 1, eff_bind at 1.
  destruct (fetch_unpublished _ w) as [[es|e] w1] eqn:Hf; apply fetch_run in Hf as (Hr & Ht & Hes).
  2:{ intros [= <- <-]. exists 0%nat, []. split_and!; [lia|constructor| | |done].
      - unfold log. by rewrite Hr, app_nil_r.
      - rewrite Ht. intros x Hx. exists x. split_and!; [done..|by split_and!|by left]. }
  rewrite (Hes es eq_refl). fold rows. case_bool_decide as Hn.
  { apply fmap_nil_inv in Hn. rewrite Hn. intros [= <- <-]. exists 0%nat, [].
    split_and!; [done|constructor| | |].
    - unfold log. by rewrite Hr, app_nil_r.
    - rewrite Ht. intros x Hx. exists x. split_and!; [done..|by split_and!|by left].
    - intros n [= <-]. split_and!; [done..|]. exists 0. by rewrite touch_nil. }
  destruct (publish_each cfg _ [] w1) as [[succ failure] w2] eqn:Hp.
  apply publish_each_spec in Hp as (k & j & evs & Hkj & -> & Hw & Hl & (ids & Hids) & Hfail).
  cbn [app]. unfold mbind, eff_bind.
  destruct (mark_published _ w2) as [m w3] eqn:Hm. apply mark_run in Hm as (Hr3 & now & Htab).
  intros Hend. assert (w' = w3) as -> by (destruct m, failure; by injection Hend).
  exists j, evs. split_and!; [lia|done| | |].
  - unfold log in *. by rewrite Hr3, Hl, Hr.
  - intros x' Hx'. destruct (touched_rows ids (or_id <$> take k rows) now (table w) (table w3) x')
      as (x & Hx & Hs & Hpub); [|done|].
    { rewrite <- Ht, <- Hids. destruct Htab as [Htab|[Htab _]]; [by left|by right]. }
    exists x. split_and!; [done..|]. intros Hp'. destruct (Hpub Hp') as [?|Hin]; [by left|right].
    apply list_elem_of_fmap in Hin as (z & -> & Hz). apply list_elem_of_fmap_2.
    apply elem_of_take in Hz as (i & Hi & Hlt). apply elem_of_take. exists i. split; [done|lia].
  - intros n ->. destruct m as [u|e], failure as [e'|]; try done. injection Hend as <-.
    destruct (Hfail eq_refl) as [-> Ht2]. destruct Htab as [Htab|[_ ?]]; [|done].
    rewrite take_ge in Htab |- * by done. split_and!; [by rewrite length_fmap|lia|].
    exists now. by rewrite Htab, Ht2, Ht.
Qed.
End Cycle.

(** ** The endless loop *)

Section Forever.
Context {R : Type} `{StreamServerLaws R, FloatRepr, DB : Database}.
Variable cfg : RelayConfig.
Implicit Types (w : RelayWorld R).

(** What the first cycles return. *)
Fixpoint outcomes (cycles : nat) w : list (result exn Z) :=
  match cycles with
  | O => []
  | S cycles => (run_once cfg w).1 :: outcomes cycles (run_once cfg w).2
  end.

(** The sleeps the outcomes of the cycles ask for. *)
Fixpoint naps (rs : list (result exn Z)) (backoff_ms : Z) : list Z :=
  match rs with
  | [] => []
  | Err _ :: rs => backoff_ms :: naps rs (Z.min (backoff_ms * 2) (max_backoff_ms cfg))
  | Ok published :: rs =>
      (if published =? batch_size cfg then [] else [poll_interval_ms cfg]) ++
      naps rs (poll_interval_ms cfg)
  end.

Lemma run_forever_naps cycles backoff w slept w' :
  run_forever cfg cycles backoff w = (Ok slept, w') → slept = naps (outcomes cycles w) backoff.
Proof.
  revert backoff w slept w'; induction cycles as [|k IH]; intros backoff w slept w';
    cbn [run_forever outcomes naps]; [by intros [= <- _]|].
  destruct (run_once cfg w) as [[n|[a|name]] w1]; cbn [fst snd].
  - intros (rest & w2 & Hrest & Hret)%eff_bind_Ok. injection Hret as <- _.
    apply IH in Hrest as ->. by destruct (n =? batch_size cfg).
  - intros (rest & w2 & Hrest & Hret)%eff_bind_Ok. injection Hret as <- _. by apply IH in Hrest as ->.
  - done.
Qed.

Lemma naps_failures rs b i :
  Forall (λ r, is_ok r = false) rs → poll_interval_ms cfg ≤ max_backoff_ms cfg →
  b = Z.min (poll_interval_ms cfg * 2 ^ Z.of_nat i) (max_backoff_ms cfg) →
  0 ≤ poll_interval_ms cfg →
  naps rs b = (λ j, Z.min (poll_interval_ms cfg * 2 ^ Z.of_nat j) (max_backoff_ms cfg)) <$> seq i (length rs).
Proof.
  intros Hrs Hle Hb Hpos. revert b i Hb; induction Hrs as [|r rs Hr Hrs IH]; intros b i Hb; cbn; [done|].
  destruct r; [done|]. f_equal; [done|]. apply IH. subst b. rewrite Nat2Z.inj_succ, Z.pow_succ_r by lia.
  assert (0 ≤ 2 ^ Z.of_nat i) by (apply Z.pow_nonneg; lia). nia.
Qed.

Lemma naps_app rs rs' b n :
  naps (rs ++ Ok n :: rs') b = naps (rs ++ [Ok n]) b ++ naps rs' (poll_interval_ms cfg).
Proof.
  revert b; induction rs as [|[m|e] rs IH]; intros b; cbn.
  - by rewrite app_nil_r.
  - by rewrite IH, app_assoc.
  - by rewrite IH.
Qed.

(** The loop backs off: after a clean cycle, the [i]-th failure in a row is followed by a
    sleep of the poll interval doubled [i] times, capped, whatever went before. *)
Theorem failures_back_off cycles w slept w' before n failed :
  0 ≤ poll_interval_ms cfg ≤ max_backoff_ms cfg →
  run_forever cfg cycles (poll_interval_ms cfg) w = (Ok slept, w') →
  outcomes cycles w = before ++ Ok n :: failed → Forall (λ r, is_ok r = false) failed →
  slept = naps (before ++ [Ok n]) (poll_interval_ms cfg) ++
    ((λ i, Z.min (poll_interval_ms cfg * 2 ^ Z.of_nat i) (max_backoff_ms cfg)) <$> seq 0 (length failed)).
Proof.
  intros [Hp Hle] Hrun Hout Hf. rewrite (run_forever_naps _ _ _ _ _ Hrun), Hout, naps_app.
  f_equal. apply naps_failures; [done..| |done]. cbn. lia.
Qed.

(** ** A healthy relay empties the outbox *)

(** From here on no statement fails and no publish of a row of the outbox does. *)
Definition healthy w : Prop :=
  NoDup (or_id <$> table w) ∧ (∀ i, (trips w ≤ i)%nat → fault i = None) ∧
  ∀ r x, r ∈ table w → is_ok (publish (stream_maxlen cfg) (or_stream r) (or_payload r) x).1 = true.

Definition waiting_rows w : nat := length (List.filter unpublished (table w)).

Lemma healthy_statement {A} (run : instant → list OutboxRow → A * list OutboxRow) w :
  fault (trips w) = None →
  statement run w = (Ok (run (now_at (trips w)) (table w)).1,
    mk_RelayWorld (run (now_at (trips w)) (table w)).2 (redis w) (S (trips w))).
Proof. intros Hf. unfold statement. rewrite Hf. by destruct (run _ _). Qed.

Lemma healthy_publish_each rows done_ w :
  (∀ r x, r ∈ rows → is_ok (publish (stream_maxlen cfg) (or_stream r) (or_payload r) x).1 = true) →
  ∃ w', publish_each cfg (entry_of <$> rows) done_ w = (done_ ++ (or_id <$> rows), None, w') ∧
    table w' = table w ∧ trips w' = trips w.
Proof.
  revert done_ w; induction rows as [|r rows IH]; intros done_ w Hok; cbn.
  { exists w. by rewrite app_nil_r. }
  unfold on_redis. pose proof (Hok r (redis w) ltac:(left)) as Hr.
  destruct (publish _ _ _ (redis w)) as [[i|e] x]; [|done].
  destruct (IH (done_ ++ [or_id r]) (mk_RelayWorld (table w) x (trips w))) as (w' & Hp & Ht & Hi).
  { intros r' x' Hr'. apply Hok. by right. }
  exists w'. by rewrite Hp, <- app_assoc.
Qed.

Lemma healthy_cycle w : healthy w → ∃ n w', run_once cfg w = (Ok n, w') ∧
  (trips w ≤ trips w')%nat ∧
  ∃ now, table w' = touch (or_id <$> oldest (batch_size cfg) (table w)) (with_published now) (table w).
Proof.
  intros (Hnd & Hf & Hp). unfold run_once, mbind, eff_bind, fetch_unpublished.
  rewrite healthy_statement by (by apply Hf). cbn [fst snd]. set (rows := oldest _ _).
  case_bool_decide as Hn.
  { apply fmap_nil_inv in Hn. eexists _, _. split; [done|]. split; [cbn; lia|].
    exists 0. by rewrite Hn, touch_nil. }
  destruct (healthy_publish_each rows [] (mk_RelayWorld (table w) (redis w) (S (trips w))))
    as (w1 & Hpub & Ht & Hi).
  { intros r x [Hr _]%oldest_elem. by apply Hp. }
  rewrite Hpub. cbn [app]. unfold mark_published.
  rewrite bool_decide_false by (intros Hnil; apply Hn; by apply fmap_nil_inv in Hnil as ->).
  rewrite healthy_statement by (apply Hf; rewrite Hi; cbn; lia).
  eexists _, _. split; [done|]. cbn. rewrite Hi, Ht. cbn. split; [lia|]. by eexists.
Qed.

Lemma touch_waiting limit now rows : NoDup (or_id <$> rows) →
  length (List.filter unpublished (touch (or_id <$> oldest limit rows) (with_published now) rows)) =
  (length (List.filter unpublished rows) - Z.to_nat limit)%nat.
Proof.
  intros Hnd. set (ids := or_id <$> oldest limit rows).
  assert (List.filter unpublished (touch ids (with_published now) rows) =
    List.filter (λ r, negb (bool_decide (or_id r ∈ ids))) (List.filter unpublished rows)) as ->.
  { clear Hnd. generalize ids. intros l. unfold touch. induction rows as [|r rows IH]; cbn; [done|].
    destruct (bool_decide (or_id r ∈ l)) eqn:Hd; cbn; [|destruct (unpublished r); cbn; rewrite ?Hd; cbn; by rewrite IH].
    destruct (unpublished r); cbn; rewrite ?Hd; cbn; by rewrite IH. }
  set (sorted := merge_sort older_or_same (List.filter unpublished rows)).
  assert (sorted ≡ₚ List.filter unpublished rows) as Hperm by apply merge_sort_Permutation.
  assert (NoDup (or_id <$> sorted)) as Hs.
  { rewrite Hperm. eapply sublist_NoDup; [exact Hnd|]. clear. induction rows as [|r rows IH]; cbn; [done|].
    destruct (unpublished r); cbn; by constructor. }
  assert (∀ p, length (List.filter p (List.filter unpublished rows)) = length (List.filter p sorted)) as Hlen.
  { intros p. clear Hs. induction Hperm as [|x a b _ IH|x y a|a b c _ IH1 _ IH2]; cbn; [done| | |congruence];
      repeat case_match; cbn; congruence. }
  rewrite Hlen, <- (Permutation_length Hperm).
  assert (∃ T D, ids = or_id <$> T ∧ sorted = T ++ D ∧ length D = (length sorted - Z.to_nat limit)%nat)
    as (T & D & -> & Hsplit & Hlast).
  { exists (take (Z.to_nat limit) sorted), (drop (Z.to_nat limit) sorted).
    split_and!; [done|by rewrite take_drop|apply length_drop]. }
  rewrite <- Hlast, Hsplit, List.filter_app, length_app. rewrite Hsplit, fmap_app in Hs.
  apply NoDup_app in Hs as (_ & Hdis & _). rewrite filter_none, filter_all; [done| |].
  - apply Forall_forall. intros r Hr. apply negb_true_iff, bool_decide_eq_false. intros Hin.
    apply (Hdis _ Hin). by apply list_elem_of_fmap_2.
  - apply Forall_forall. intros r Hr. apply negb_false_iff, bool_decide_eq_true. by apply list_elem_of_fmap_2.
Qed.

(** C14: A healthy relay empties the outbox: while no statement and no publish fails,
    [run_forever] goes on, and as soon as its cycles times the batch size reach the number
    of unpublished rows every row is marked published. *)
Theorem outbox_drains cycles backoff w :
  healthy w → 0 < batch_size cfg →
  Z.of_nat (waiting_rows w) ≤ Z.of_nat cycles * batch_size cfg →
  ∃ slept w', run_forever cfg cycles backoff w = (Ok slept, w') ∧
    or_id <$> table w' = or_id <$> table w ∧ ∀ r, r ∈ table w' → or_published_at r ≠ None.
Proof.
  intros Hh Hb. revert backoff w Hh; induction cycles as [|k IH]; intros backoff w Hh Hn; cbn [run_forever].
  { exists [], w. split; [done|]. split; [done|]. intros r Hr Hnone. unfold waiting_rows in Hn.
    assert (r ∈ List.filter unpublished (table w)) as Hin
      by (apply elem_of_list_filter_bool; split; [done|by apply bool_decide_eq_true]).
    destruct (List.filter unpublished (table w)); [by apply elem_of_nil in Hin|]. cbn in Hn. lia. }
  destruct (healthy_cycle w Hh) as (n & w1 & Hrun & Hi & now & Ht). destruct Hh as (Hnd & Hf & Hp).
  assert (healthy w1) as Hh1.
  { split; [by rewrite Ht, touch_keys|]. split; [intros i Hle; apply Hf; lia|].
    intros r x Hr. rewrite Ht in Hr. apply touch_elem in Hr as (y & Hy & ->).
    case_bool_decide; by apply (Hp y x). }
  rewrite Hrun. destruct (IH (poll_interval_ms cfg) w1 Hh1) as (slept & w' & Hrest & Hids & Hall).
  { unfold waiting_rows. rewrite Ht, touch_waiting by done. unfold waiting_rows in Hn. lia. }
  unfold mbind, eff_bind. rewrite Hrest. eexists _, w'. split; [done|]. split; [|done].
  by rewrite Hids, Ht, touch_keys.
Qed.
End Forever.
