(* ===== verification/OutboxDemo.v ===== *)
(** * OutboxDemo: the relay at work on concrete rows

    Witnesses of the theorems of [Outbox], over the server of [StreamsDemo]. *)

From S2P Require Import Prelude Text Calendar Errors Framework Transactions Files Keyset Events Wire Streams StreamsDemo Outbox.

Open Scope Z_scope.

#[local] Existing Instance demo_floats.
#[local] Instance demo_jsonb : Jsonb := {| jsonb j := j |}.
#[local] Instance demo_database : Database := {| now_at i := 1000 + Z.of_nat i; fault _ := None |}.

Definition relay_cfg : RelayConfig := mk_RelayConfig 2 500 30000 (Some 100000).

Definition demo_record (id : string) : OutboxRecord :=
  mk_OutboxRecord (txt id) (txt "file") (txt "f1") (txt "files.file.uploaded.v1") files_stream
    (JObj [(txt "id", JStr (txt id))]).

Definition records : list OutboxRecord := [demo_record "e1"; demo_record "e2"; demo_record "e3"].

Definition committed : list OutboxRow := unwrap [] (append demo_ctx 10 records []).

Definition relay_start : RelayWorld Demo := mk_RelayWorld committed (demo_start []) 0.

Lemma relay_start_ok : relay_ok (relay_start, Idle).
Proof.
  split; [by apply (bool_decide_unpack _)| |done].
  intros r Hr Hp. repeat (apply elem_of_cons in Hr as [->|Hr]; [by destruct Hp|]). by apply elem_of_nil in Hr.
Qed.

Definition first_row : OutboxRow := default (new_row demo_ctx 0 (demo_record "e1")) (head committed).

(** The relay fetches, publishes one row and dies before marking it. *)
Definition after_fetch : RelayWorld Demo := (fetch_unpublished (batch_size relay_cfg) relay_start).2.
Definition fetched : list OutboxEntry :=
  unwrap [] (fetch_unpublished (batch_size relay_cfg) relay_start).1.
Definition after_publish : RelayWorld Demo :=
  (on_redis (publish (stream_maxlen relay_cfg) (or_stream first_row) (or_payload first_row)) after_fetch).2.

Lemma dies_midway : rtc (relay_step relay_cfg) (relay_start, Idle) (after_publish, Idle).
Proof.
  eapply rtc_l; [eapply (step_fetch relay_cfg relay_start fetched after_fetch)|].
  - unfold after_fetch. apply run_Ok. vm_compute. reflexivity.
  - eapply rtc_l; [|apply rtc_once, step_killed].
    eapply (step_publish relay_cfg after_fetch (entry_of first_row) [entry_of _] []).
    unfold after_publish. apply run_Ok. vm_compute. reflexivity.
Qed.

Lemma no_event_is_lost_witness :
  (length (log relay_start), length (log after_publish)) = (0, 1)%nat ∧
  ∃ r', r' ∈ table after_publish ∧ same_event first_row r' ∧
    (or_published_at r' ≠ None → announced after_publish r').
Proof.
  split; [vm_compute; reflexivity|].
  apply (no_event_is_lost relay_cfg (relay_start, Idle) (after_publish, Idle) first_row).
  - exact relay_start_ok.
  - exact dies_midway.
  - by left.
Defined.

Lemma run_once_refines_witness :
  (run_once relay_cfg relay_start).1 = Ok 2 ∧
  rtc (relay_step relay_cfg) (relay_start, Idle) ((run_once relay_cfg relay_start).2, Idle).
Proof.
  split; [vm_compute; reflexivity|].
  apply (run_once_refines_steps relay_cfg relay_start (Ok 2)). apply run_Ok. vm_compute. reflexivity.
Defined.

Lemma cycle_publishes_a_prefix_witness :
  let rows := oldest (batch_size relay_cfg) (table relay_start) in
  let w' := (run_once relay_cfg relay_start).2 in
  length (log w') = 2%nat ∧
  StronglySorted older_or_same rows ∧
  ∃ j es, (j ≤ length rows)%nat ∧ wired (take j rows) es ∧ log w' = log relay_start ++ es ∧
    (∀ x', x' ∈ table w' → ∃ x, x ∈ table relay_start ∧ same_event x x' ∧
       (or_published_at x' ≠ None → or_published_at x ≠ None ∨ or_id x ∈ or_id <$> take j rows)) ∧
    ∀ n, Ok 2 = Ok (E := exn) n → n = Z.of_nat (length rows) ∧ j = length rows ∧
      ∃ now, table w' = touch (or_id <$> rows) (with_published now) (table relay_start).
Proof.
  split; [vm_compute; reflexivity|].
  apply (cycle_publishes_a_prefix relay_cfg relay_start (Ok 2)). apply run_Ok. vm_compute. reflexivity.
Defined.

Lemma relay_start_healthy : healthy relay_cfg relay_start.
Proof.
  split; [apply relay_start_ok|]. split; [done|]. intros r d Hr.
  repeat (apply elem_of_cons in Hr as [->|Hr]; [reflexivity|]). by apply elem_of_nil in Hr.
Qed.

Lemma outbox_drains_witness :
  waiting_rows relay_start = 3%nat ∧
  ∃ slept w', run_forever relay_cfg 2 500 relay_start = (Ok slept, w') ∧
    or_id <$> table w' = or_id <$> table relay_start ∧ ∀ r, r ∈ table w' → or_published_at r ≠ None.
Proof.
  split; [vm_compute; reflexivity|].
  apply (outbox_drains relay_cfg 2 500 relay_start).
  - exact relay_start_healthy.
  - reflexivity.
  - vm_compute. discriminate.
Defined.

(** A database that is away for the third and fourth statement. *)
Definition away : Database :=
  {| now_at i := 1000 + Z.of_nat i;
     fault i := if bool_decide (i ∈ [2; 3]%nat) then Some (Dbapi None, false) else None |}.

Definition one_row : RelayWorld Demo := mk_RelayWorld (take 1 committed) (demo_start []) 0.

Definition away_run : result exn (list Z) * RelayWorld Demo :=
  run_forever (DB := away) relay_cfg 3 500 one_row.

Lemma failures_back_off_witness :
  unwrap [] away_run.1 = [500; 500; 1000] ∧
  unwrap [] away_run.1 = naps relay_cfg ([] ++ [Ok 1]) 500 ++
    ((λ i, Z.min (500 * 2 ^ Z.of_nat i) 30000) <$> seq 0 2).
Proof.
  split; [vm_compute; reflexivity|].
  apply (failures_back_off (DB := away) relay_cfg 3 one_row _ away_run.2 [] 1
    [Err internal_exn; Err internal_exn]).
  - cbn. lia.
  - unfold away_run. apply run_Ok. vm_compute. reflexivity.
  - vm_compute. reflexivity.
  - by repeat constructor.
Defined.

(** [created_at] is the start of the producer's transaction: of two transactions that
    overlap, the one that began first is published first, unless a cycle ran between
    their commits; then it is published second. *)
Definition began_first (rows : list OutboxRow) : list OutboxRow :=
  unwrap [] (append demo_ctx 10 [demo_record "old"] rows).
Definition began_second (rows : list OutboxRow) : list OutboxRow :=
  unwrap [] (append demo_ctx 20 [demo_record "new"] rows).

Definition relayed (w : RelayWorld Demo) : RelayWorld Demo := (run_once relay_cfg w).2.
Definition with_table (f : list OutboxRow → list OutboxRow) (w : RelayWorld Demo) : RelayWorld Demo :=
  mk_RelayWorld (f (table w)) (redis w) (trips w).

Definition wire_of (id : string) : text * fields :=
  (files_stream, [(CE_FIELD, unwrap [] (encode_event (ob_payload (demo_record id))))]).

(** The stream order follows neither the commits nor [created_at]: with the same two
    commits the streams read old, new when no cycle runs in between and new, old when one
    does. *)
Example late_commit_reorders :
  let empty := mk_RelayWorld [] (demo_start []) 0 in
  log (relayed (with_table began_first (with_table began_second empty))) = [wire_of "old"; wire_of "new"] ∧
  log (relayed (with_table began_first (relayed (with_table began_second empty)))) = [wire_of "new"; wire_of "old"].
Proof. vm_compute. split; reflexivity. Qed.

(** A refused connection is not a [DBAPIError]: it ends the endless loop. *)
Definition refused : Database :=
  {| now_at i := 1000; fault _ := Some (Escapes (Other "ConnectionRefusedError"), false) |}.

Example refused_connection_ends_the_relay :
  (run_forever (DB := refused) relay_cfg 5 500 relay_start).1 = Err (Other "ConnectionRefusedError").
Proof. vm_compute. reflexivity. Qed.
