(* ===== verification/Memory.v ===== *)
(** * Memory: the memory module, from its domain to the worker that indexes it

    [modules/memory/] (domain, repository adapter, use cases, event mapping),
    [infrastructure/persistence/processed_events.py] and the memory handler of
    [workers/bootstrap.py]. *)

From S2P Require Import Prelude Text Calendar Errors Framework Transactions Files Keyset Events Wire Cursor Streams Engine Outbox.

Open Scope Z_scope.

(** ** Domain *)

Inductive MemoryErr : Type := MemoryError | InvalidMemoryInput.

Inductive MemoryKind : Type := SEMANTIC | EPISODIC.

#[export] Instance MemoryKind_eq_dec : EqDecision MemoryKind.
Proof. solve_decision. Defined.

Definition kind_value (k : MemoryKind) : text :=
  match k with SEMANTIC => txt "semantic" | EPISODIC => txt "episodic" end.

Definition parse_kind (t : text) : option MemoryKind :=
  List.find (λ k, bool_decide (kind_value k = t)) [SEMANTIC; EPISODIC].

Definition MAX_AGENT_KEY_LEN : Z := 64.

(** [_AGENT_KEY_RE] *)
Definition key_head (c : Z) : bool := is_lower c || is_digit c.
Definition key_char (c : Z) : bool := key_head c || (c =? 95) || (c =? 45).
Definition agent_key_re (t : text) : bool :=
  match t with c :: t => key_head c && forallb key_char t | [] => false end.

Definition new_AgentKey `{Unicode} (value : text) : result MemoryErr text :=
  let normalized := lower (strip value) in
  if bool_decide (normalized = []) || (MAX_AGENT_KEY_LEN <? len normalized) then Err InvalidMemoryInput
  else if negb (at_dollar agent_key_re normalized) then Err InvalidMemoryInput
  else Ok normalized.

Record VectorRef := mk_VectorRef { vr_collection : text; vr_point_id : text }.

Definition new_VectorRef (collection point_id : text) : result MemoryErr VectorRef :=
  if bool_decide (collection = []) then Err InvalidMemoryInput
  else if bool_decide (point_id = []) then Err InvalidMemoryInput
  else Ok (mk_VectorRef collection point_id).

(** A double, as a decimal [m * 10^e]: the module computes with none. *)
Abbreviation float := (Z * Z)%type.

Record MemoryItem := mk_MemoryItem {
  mi_id : text;
  mi_workspace_id : text;
  mi_agent_key : text;
  mi_kind : MemoryKind;
  mi_content : text;
  mi_vector_ref : option VectorRef;
  mi_salience : float;
  mi_created_at : instant;
  mi_deleted_at : option instant
}.

Definition attach_vector (v : VectorRef) (i : MemoryItem) : result MemoryErr MemoryItem :=
  if bool_decide (mi_deleted_at i ≠ None) then Err MemoryError
  else Ok (mk_MemoryItem (mi_id i) (mi_workspace_id i) (mi_agent_key i) (mi_kind i) (mi_content i)
             (Some v) (mi_salience i) (mi_created_at i) (mi_deleted_at i)).

Definition forget (now : instant) (i : MemoryItem) : MemoryItem :=
  match mi_deleted_at i with
  | Some _ => i
  | None => mk_MemoryItem (mi_id i) (mi_workspace_id i) (mi_agent_key i) (mi_kind i) (mi_content i)
              (mi_vector_ref i) (mi_salience i) (mi_created_at i) (Some now)
  end.

Inductive MemoryEvent : Type :=
  | MemoryStored (me_memory_id me_workspace_id me_agent_key : text) (me_at : instant)
  | MemoryForgotten (me_memory_id : text) (me_at : instant).

(** [memory_collection] and [memory_point_id], the latter a fixed function of the id. *)
Definition memory_collection (workspace : text) : text := txt "mem-" ++ workspace.
Class PointIds := { memory_point_id : text → text }.

(** ** The table *)

Record MemoryRow := mk_MemoryRow {
  mr_workspace_id : text;
  mr_agent_key : text;
  mr_kind : text;
  mr_content : text;
  mr_collection : option text;
  mr_point_id : option text;
  mr_salience : float;
  mr_created_at : instant;
  mr_deleted_at : option instant
}.

(** The tables a unit of work of this module writes: its own, the ledger of processed
    events and the outbox. *)
Record MemoryDb := mk_MemoryDb {
  memory_items : gmap text MemoryRow;
  processed_events : list (text * text);
  outbox_rows : list OutboxRow
}.

(** The [real] column: a double rounded to single precision. *)
Class Real := { real : float → float }.

Definition to_row `{Real} (i : MemoryItem) : MemoryRow :=
  mk_MemoryRow (mi_workspace_id i) (mi_agent_key i) (kind_value (mi_kind i)) (mi_content i)
    (vr_collection <$> mi_vector_ref i) (vr_point_id <$> mi_vector_ref i) (real (mi_salience i))
    (mi_created_at i) (mi_deleted_at i).

Definition domain_exn (e : MemoryErr) : exn :=
  match e with
  | MemoryError => Other "MemoryError"
  | InvalidMemoryInput => Other "InvalidMemoryInput"
  end.

(** [_hydrate] *)
Definition hydrate `{Unicode} (id : text) (r : MemoryRow) : result exn MemoryItem :=
  v ← match mr_collection r, mr_point_id r with
      | Some c, Some p => v ← map_err domain_exn (new_VectorRef c p); Ok (Some v)
      | _, _ => Ok None
      end;
  key ← map_err domain_exn (new_AgentKey (mr_agent_key r));
  kind ← match parse_kind (mr_kind r) with Some k => Ok k | None => Err (Other "ValueError") end;
  Ok (mk_MemoryItem id (mr_workspace_id r) key kind (mr_content r) v (mr_salience r)
        (mr_created_at r) (mr_deleted_at r)).

(** What [save] writes. *)
Definition saved (i : MemoryItem) (r : MemoryRow) : MemoryRow :=
  mk_MemoryRow (mr_workspace_id r) (mr_agent_key r) (mr_kind r) (mr_content r)
    (vr_collection <$> mi_vector_ref i) (vr_point_id <$> mi_vector_ref i) (mr_salience r)
    (mr_created_at r) (mi_deleted_at i).

Definition with_items (t : gmap text MemoryRow) (d : MemoryDb) : MemoryDb :=
  mk_MemoryDb t (processed_events d) (outbox_rows d).

(** The statements, row-level security included. *)
Definition insert_item `{Real} (ctx : ExecutionContext) (i : MemoryItem) (d : MemoryDb)
    : result DbFault (unit * MemoryDb) :=
  if negb (bool_decide (mi_workspace_id i = workspace_id ctx)) then Err insufficient_privilege
  else if bool_decide (is_Some (memory_items d !! mi_id i)) then Err unique_violation
  else Ok (tt, with_items (<[mi_id i := to_row i]> (memory_items d)) d).

Definition mine (ctx : ExecutionContext) (r : MemoryRow) : bool :=
  bool_decide (mr_workspace_id r = workspace_id ctx).

Definition select_item (ctx : ExecutionContext) (id : text) (d : MemoryDb) : option MemoryRow :=
  match memory_items d !! id with
  | Some r => if mine ctx r then Some r else None
  | None => None
  end.

Definition update_item (ctx : ExecutionContext) (i : MemoryItem) (d : MemoryDb)
    : result DbFault (unit * MemoryDb) :=
  match select_item ctx (mi_id i) d with
  | Some r => Ok (tt, with_items (<[mi_id i := saved i r]> (memory_items d)) d)
  | None => Ok (tt, d)
  end.

(** The listing: live rows of one agent, oldest identifier first, after the cursor. *)
Definition listed (ctx : ExecutionContext) (agent_key : text) (cursor : option text) (d : MemoryDb)
    : list (text * MemoryRow) :=
  List.filter (λ kr, mine ctx kr.2 && bool_decide (mr_agent_key kr.2 = agent_key) &&
                     bool_decide (mr_deleted_at kr.2 = None) &&
                     match cursor with Some c => text_ltb c kr.1 | None => true end)
    (rev (newest_first fst (map_to_list (memory_items d)))).

(** ** The ports *)

Record VectorPoint := mk_VectorPoint { vp_id : text; vp_vector : list float; vp_payload : list (text * json) }.
Record VectorHit := mk_VectorHit { vh_score : float; vh_payload : list (text * json) }.

(** The embedding provider and the vector store, seen from here. *)
Class Vectors (V : Type) := {
  embed : list text → text → text → eff V exn (list (list float));
  dimensions : text → Z;
  ensure_collection : text → Z → eff V exn text;
  upsert : text → list VectorPoint → eff V exn unit;
  search : text → list float → Z → list (text * json) → eff V exn (list VectorHit)
}.

Definition not_found_exn : exn := App (raise_class NotFoundError).
Definition validation_exn : exn := App (raise_class ValidationError).

Section Memory.
Context {V : Type} `{Vectors V, Env, DB : Database, Unicode, Real, Jsonb, PointIds}.
Abbreviation io A := (eff (DbWorld MemoryDb V) exn A).

(** [SqlMemoryRepository] *)
Definition add (ctx : ExecutionContext) (i : MemoryItem) : io unit :=
  adapter translate_unique ctx (execute (insert_item ctx i)).

Definition get (ctx : ExecutionContext) (id : text) : io (option MemoryItem) :=
  row ← adapter translate_unique ctx (execute (λ d, Ok (select_item ctx id d, d)));
  match row with
  | None => mret None
  | Some r => i ← eff_lift (hydrate id r); mret (Some i)
  end.

Definition save (ctx : ExecutionContext) (i : MemoryItem) : io unit :=
  adapter translate_unique ctx (execute (update_item ctx i)).

Definition list_by_agent (ctx : ExecutionContext) (agent_key : text) (limit : nat)
    (cursor : option text) : io (Page MemoryItem text) :=
  after ← eff_lift (match cursor with
                    | Some c => id ← decode_id_cursor c; Ok (Some id)
                    | None => Ok None
                    end);
  rows ← adapter translate_unique ctx (execute (λ d, Ok (take (S limit) (listed ctx agent_key after d), d)));
  let p := paginate fst rows limit in
  data ← eff_lift (map_result (λ kr, hydrate kr.1 kr.2) (page_data p));
  next ← eff_lift (match next_cursor p with
                   | Some last_id => c ← encode_id_cursor last_id; Ok (Some c)
                   | None => Ok None
                   end);
  mret (mk_Page data next).

(** [SqlEventOutbox.append]: no statement at all for no record. *)
Definition append_records (ctx : ExecutionContext) (records : list OutboxRecord) : io unit :=
  if bool_decide (records = []) then mret tt
  else adapter translate_unique ctx (λ w, execute (λ d,
    rows ← append ctx (began w) records (outbox_rows d);
    Ok (tt, mk_MemoryDb (memory_items d) (processed_events d) rows)) w).

(** [SqlProcessedEventLedger.claim]: the INSERT under a SAVEPOINT. *)
Definition insert_claim (group event_id : text) (d : MemoryDb) : result DbFault (unit * MemoryDb) :=
  if bool_decide ((group, event_id) ∈ processed_events d) then Err unique_violation
  else Ok (tt, mk_MemoryDb (memory_items d) (processed_events d ++ [(group, event_id)]) (outbox_rows d)).

Definition claim (ctx : ExecutionContext) (group event_id : text) : io bool :=
  adapter (λ _, internal_exn) ctx (λ w,
    match execute (insert_claim group event_id) w with
    | (Ok _, w') => (Ok true, w')
    | (Err (Dbapi (Some code)), w') =>
        (if bool_decide (code = txt "23505") then Ok false else Err (Dbapi (Some code)), w')
    | (Err f, w') => (Err f, w')
    end).

(** ** Use cases *)

(** [to_outbox_record] *)
Definition to_outbox_record (ctx : ExecutionContext) (e : MemoryEvent) : io (option OutboxRecord) :=
  match e with
  | MemoryStored id ws key at_ =>
      event_id ← new_uuid7;
      payload ← eff_lift (build_envelope event_id (txt "memory") (txt "memory.item.stored.v1") id at_ ws
                  (JObj [(txt "memory_id", JStr id); (txt "agent_key", JStr key)])
                  (Some (correlation_id ctx)) None);
      mret (Some (mk_OutboxRecord event_id (txt "memory_item") id (txt "memory.item.stored.v1")
                    (txt "stream.memory") payload))
  | MemoryForgotten _ _ => mret None
  end.

Definition checked_key (agent_key : text) : io text :=
  eff_lift (map_err (λ _, validation_exn) (new_AgentKey agent_key)).

Definition RememberInteraction (ctx : ExecutionContext) (agent_key content kind : text) (salience : float)
    : io (MemoryItem * list MemoryEvent) :=
  key ← checked_key agent_key;
  k ← eff_lift (match parse_kind kind with Some k => Ok k | None => Err validation_exn end);
  _ ← eff_lift (raise_if (bool_decide (strip content = [])) validation_exn);
  now ← utc_now;
  id ← new_uuid7;
  let item := mk_MemoryItem id (workspace_id ctx) key k content None salience now None in
  _ ← add ctx item;
  mret (item, [MemoryStored id (workspace_id ctx) key now]).

(** [RememberInteractionService.remember] *)
Fixpoint records_of (ctx : ExecutionContext) (events : list MemoryEvent) : io (list OutboxRecord) :=
  match events with
  | [] => mret []
  | e :: events =>
      r ← to_outbox_record ctx e;
      rs ← records_of ctx events;
      mret (match r with Some r => r :: rs | None => rs end)
  end.

Definition remember (ctx : ExecutionContext) (agent_key content kind : text) (salience : float)
    : io MemoryItem :=
  begin ctx ('(item, events) ← RememberInteraction ctx agent_key content kind salience;
             records ← records_of ctx events;
             _ ← append_records ctx records;
             mret item).

Definition ForgetMemory (ctx : ExecutionContext) (id : text) : io (MemoryItem * list MemoryEvent) :=
  item ← get ctx id;
  match item with
  | None => eff_raise not_found_exn
  | Some item =>
      let already := bool_decide (mi_deleted_at item ≠ None) in
      now ← utc_now;
      let item := forget now item in
      _ ← save ctx item;
      mret (item, if already then [] else [MemoryForgotten id now])
  end.

Record RecalledMemory := mk_RecalledMemory {
  rm_memory_id : text; rm_content : text; rm_kind : text; rm_salience : float; rm_score : float
}.

Definition MIN_RECALL_K : Z := 1.
Definition MAX_RECALL_K : Z := 50.

(** [vectors[0]] *)
Definition first_vector (vs : list (list float)) : result exn (list float) :=
  match vs with v :: _ => Ok v | [] => Err (Other "IndexError") end.

(** [hit.payload["memory_id"]], and what the [uuid] column takes of it. *)
Definition hit_id (h : VectorHit) : result exn text :=
  match field (txt "memory_id") (vh_payload h) with
  | Some (JStr id) => Ok id
  | Some _ => Err (Other "StatementError")
  | None => Err (Other "KeyError")
  end.

Fixpoint recalled_hits (ctx : ExecutionContext) (hits : list VectorHit) : io (list RecalledMemory) :=
  match hits with
  | [] => mret []
  | h :: hits =>
      id ← eff_lift (hit_id h);
      item ← get ctx id;
      more ← recalled_hits ctx hits;
      mret (match item with
            | Some i =>
                if bool_decide (mi_deleted_at i ≠ None) then more
                else mk_RecalledMemory (mi_id i) (mi_content i) (kind_value (mi_kind i))
                       (mi_salience i) (vh_score h) :: more
            | None => more
            end)
  end.

Definition RecallRelevant (ctx : ExecutionContext) (agent_key query model api_key : text) (k : Z)
    : io (list RecalledMemory) :=
  key ← checked_key agent_key;
  _ ← eff_lift (raise_if (bool_decide (strip query = [])) validation_exn);
  _ ← eff_lift (raise_if (negb ((MIN_RECALL_K <=? k) && (k <=? MAX_RECALL_K))) validation_exn);
  vs ← outside (embed [query] model api_key);
  v ← eff_lift (first_vector vs);
  hits ← outside (search (memory_collection (workspace_id ctx)) v k
            [(txt "workspace_id", JStr (workspace_id ctx)); (txt "agent_key", JStr key)]);
  recalled_hits ctx hits.

(** [IndexMemoryItem] *)
Record MemoryIndexAttempt := mk_MemoryIndexAttempt { ia_item : MemoryItem; ia_vector_ref : option VectorRef }.

Definition is_redelivery_noop (a : MemoryIndexAttempt) : bool := bool_decide (ia_vector_ref a = None).

Definition index_run (ctx : ExecutionContext) (id model api_key : text) : io MemoryIndexAttempt :=
  item ← get ctx id;
  match item with
  | None => eff_raise not_found_exn
  | Some item =>
      match mi_vector_ref item with
      | Some _ => mret (mk_MemoryIndexAttempt item None)
      | None =>
          vs ← outside (embed [mi_content item] model api_key);
          v ← eff_lift (first_vector vs);
          let point_id := memory_point_id (mi_id item) in
          collection ← outside (ensure_collection (memory_collection (workspace_id ctx)) (dimensions model));
          _ ← outside (upsert collection
                [mk_VectorPoint point_id v [(txt "workspace_id", JStr (workspace_id ctx));
                                            (txt "agent_key", JStr (mi_agent_key item));
                                            (txt "memory_id", JStr (mi_id item))]]);
          ref ← eff_lift (map_err domain_exn (new_VectorRef collection point_id));
          mret (mk_MemoryIndexAttempt item (Some ref))
      end
  end.

Definition finalize (ctx : ExecutionContext) (a : MemoryIndexAttempt) : io MemoryItem :=
  match ia_vector_ref a with
  | None => mret (ia_item a)
  | Some v =>
      item ← eff_lift (map_err domain_exn (attach_vector v (ia_item a)));
      _ ← save ctx item;
      mret item
  end.

(** [IndexMemoryItem.execute] *)
Definition index_execute (ctx : ExecutionContext) (id model api_key : text) : io MemoryItem :=
  attempt ← index_run ctx id model api_key;
  finalize ctx attempt.

(** ** [build_memory_index_handler] *)

Definition CG_MEMORY : text := txt "cg.memory".

Definition memory_index_handler (model api_key : text) (ctx : ExecutionContext)
    (envelope : list (text * json)) : io unit :=
  memory_id ← eff_lift (j ← subscript (field (txt "data") envelope) "memory_id"; as_uuid j);
  event_id ← eff_lift (subscript (Some (JObj envelope)) "id");
  attempt ← index_run ctx memory_id model api_key;
  if is_redelivery_noop attempt then mret tt
  else begin ctx (event_id ← eff_lift (as_uuid event_id);
                  claimed ← claim ctx CG_MEMORY event_id;
                  if negb claimed then mret tt
                  else _ ← finalize ctx attempt; mret tt).
End Memory.
