(* ===== verification/MemoryWorker.v ===== *)
(** * MemoryWorker: what the memory module promises

    The worker's effect happens once however often its event is delivered; storing an
    item and announcing it are one act; a recall returns live items of the caller's
    workspace only. *)

From S2P Require Import Prelude Text Calendar Errors Framework Transactions Files Keyset Events Wire Cursor Streams Engine Outbox Memory.

Open Scope Z_scope.

Section Worker.
Context {V : Type} `{Vectors V, Env, DB : Database, Unicode, Real, Jsonb, PointIds}.
Implicit Types (w : DbWorld MemoryDb V) (d : MemoryDb) (ctx : ExecutionContext).

(** ** The repository *)

Lemma outside_run {A} (m : eff V exn A) w r w' :
  outside m w = (r, w') → db w' = db w ∧ active w' = active w.
Proof. unfold outside. destruct (m (ext w)) as [r1 v]. by intros [= _ <-]. Qed.

Lemma lift_run {A} (x : result exn A) w r w' :
  eff_lift x w = (r, w') → r = x ∧ w' = w.
Proof. by intros [= <- <-]. Qed.

Lemma get_run ctx id w r w' : get ctx id w = (r, w') →
  db w' = db w ∧
  ∀ o, r = Ok o → match o with
                  | None => select_item ctx id (db w) = None
                  | Some i => ∃ row, select_item ctx id (db w) = Some row ∧ hydrate id row = Ok i
                  end.
Proof.
  unfold get, mbind, eff_bind.
  destruct (adapter _ _ _ w) as [[row|e] w1] eqn:Ha; pose proof Ha as Hrun;
    apply adapter_run in Ha as [[Hr Hd]|(a & s & [= <- <-] & Hd & Hr)]; try done.
  - destruct Hr as [[= ->]|[? _]]; [|done]. destruct (select_item ctx id (db w)) as [r0|].
    + unfold eff_lift. destruct (hydrate id r0) as [i|e] eqn:Hh; intros [= <- <-]; (split; [done|]); [|done].
      intros o [= <-]. by exists r0.
    + intros [= <- <-]. split; [done|]. by intros o [= <-].
  - by intros [= <- <-].
  - by intros [= <- <-].
Qed.

Lemma save_run ctx i w r w' : save ctx i w = (r, w') →
  (is_ok r = false ∧ db w' = db w) ∨
  (update_item ctx i (db w) = Ok (tt, db w') ∧ (r = Ok tt ∨ (is_ok r = false ∧ active w = None))).
Proof.
  intros [?|([] & s & Hq & <- & Hr)]%adapter_run; [by left|by right].
Qed.

(** A live reference or none. *)
Definition has_vector (row : MemoryRow) : Prop := mr_collection row ≠ None ∧ mr_point_id row ≠ None.

Lemma hydrate_vector id row i : hydrate id row = Ok i →
  mi_id i = id ∧ (mi_vector_ref i = None ↔ ¬ has_vector row).
Proof.
  unfold hydrate, has_vector. intros Hh. apply bind_Ok in Hh as (v & Hv & Hh).
  apply bind_Ok in Hh as (key & _ & Hh). apply bind_Ok in Hh as (k & _ & Hi). injection Hi as <-.
  cbn. split; [done|]. destruct (mr_collection row) as [c|], (mr_point_id row) as [p|];
    [|injection Hv as <-; naive_solver..].
  apply bind_Ok in Hv as (v' & _ & Hv). injection Hv as <-. naive_solver.
Qed.

(** ** The worker's effect, once *)

Section Once.
Context (ctx : ExecutionContext) (model api_key id event_id : text).

Definition indexed d : Prop := ∃ row, select_item ctx id d = Some row ∧ has_vector row.
Definition claimed d : Prop := (CG_MEMORY, event_id) ∈ processed_events d.

(** The claim and the effect are there together, or neither is. *)
Definition together d : Prop := claimed d ↔ indexed d.

(** Only a duplicate key is reported as a uniqueness violation. *)
Definition honest : Prop := ∀ i c, fault i ≠ Some (unique_violation, c).

Lemma index_run_run w r w' : index_run ctx id model api_key w = (r, w') →
  db w' = db w ∧ ∀ a, r = Ok a → ∃ row, select_item ctx id (db w) = Some row ∧
    hydrate id row = Ok (ia_item a) ∧ (ia_vector_ref a = None ↔ has_vector row).
Proof.
  intros [(e & Hg & ->)|(o & w1 & Hg & Hrest)]%eff_bind_run; apply get_run in Hg as [Hd Hg]; [done|].
  specialize (Hg o eq_refl). destruct o as [i|]; [|by injection Hrest as <- <-].
  destruct Hg as (row & Hrow & Hh). pose proof (hydrate_vector _ _ _ Hh) as [_ Hv].
  destruct (mi_vector_ref i) as [v|] eqn:Hi.
  { injection Hrest as <- <-. split; [done|]. intros a [= <-]. exists row. split_and!; [done..|]. cbn.
    split; [|done]. intros _. unfold has_vector in *.
    destruct (mr_collection row), (mr_point_id row); naive_solver. }
  assert (db w' = db w1 ∧ ∀ a, r = Ok a → ia_item a = i ∧ ia_vector_ref a ≠ None) as [Hd' Ha].
  { apply eff_bind_run in Hrest as [(e & [Ho _]%outside_run & ->)|(vs & w2 & [Ho2 _]%outside_run & Hrest)]; [done|].
    apply eff_bind_run in Hrest as [(e & [_ ->]%lift_run & ->)|(vec & w3 & [_ ->]%lift_run & Hrest)]; [done|].
    apply eff_bind_run in Hrest as [(e & [Ho _]%outside_run & ->)|(c & w4 & [Ho4 _]%outside_run & Hrest)]; [by rewrite Ho|].
    apply eff_bind_run in Hrest as [(e & [Ho _]%outside_run & ->)|(u & w5 & [Ho5 _]%outside_run & Hrest)]; [by rewrite Ho, Ho4|].
    apply eff_bind_run in Hrest as [(e & [_ ->]%lift_run & ->)|(ref & w6 & [_ ->]%lift_run & Hrest)]; [by rewrite Ho5, Ho4|].
    injection Hrest as <- <-. split; [by rewrite Ho5, Ho4|]. by intros a [= <-]. }
  split; [congruence|]. intros a Hr. destruct (Ha a Hr) as [-> Hn]. exists row. split_and!; [done..|].
  split; [done|]. intros Hvec. exfalso. by apply Hv.
Qed.

(** ** The claim *)

Lemma claim_run w r w' : honest → active w = Some (workspace_id ctx) →
  claim ctx CG_MEMORY event_id w = (r, w') →
  active w' = active w ∧
  ((is_ok r = false ∧ db w' = db w) ∨ (r = Ok false ∧ claimed (db w) ∧ db w' = db w) ∨
   (r = Ok true ∧ ¬ claimed (db w) ∧ memory_items (db w') = memory_items (db w) ∧ claimed (db w'))).
Proof.
  intros Hon Ha. unfold claim, adapter, tenant_session. rewrite Ha, bool_decide_true by done.
  destruct (execute _ w) as [r1 w1] eqn:He. pose proof He as Hrun.
  apply execute_run in Hrun as [Ha1 [(f & -> & Hd)|(u & -> & Hq)]].
  - assert (f = unique_violation → claimed (db w)) as Hdup.
    { intros ->. unfold execute in He. destruct (fault (issued w)) as [[f' c]|] eqn:Hf.
      - injection He as -> _. by destruct (Hon _ _ Hf).
      - unfold insert_claim in He. case_bool_decide; [done|]. by injection He. }
    destruct f as [[code|]|e]; [|intros [= <- <-]; by split; [congruence|left]..].
    case_bool_decide as Hc; intros [= <- <-]; (split; [congruence|]); [|by left].
    right. left. split_and!; [done| |done]. apply Hdup. unfold unique_violation. by rewrite Hc.
  - intros [= <- <-]. split; [congruence|]. right. right. unfold insert_claim in Hq.
    case_bool_decide as Hc; [done|]. injection Hq as _ Hd. rewrite <- Hd. split_and!; [done..|].
    apply elem_of_app. right. by left.
Qed.

Lemma hydrate_deleted row i : hydrate id row = Ok i → mi_deleted_at i = mr_deleted_at row.
Proof.
  unfold hydrate. intros Hh. apply bind_Ok in Hh as (v & _ & Hh).
  apply bind_Ok in Hh as (key & _ & Hh). apply bind_Ok in Hh as (k & _ & Hi). by injection Hi as <-.
Qed.

Lemma finalize_run a row w r w' :
  select_item ctx id (db w) = Some row → hydrate id row = Ok (ia_item a) →
  ia_vector_ref a ≠ None → finalize ctx a w = (r, w') → is_ok r = true →
  processed_events (db w') = processed_events (db w) ∧ indexed (db w') ∧ mr_deleted_at row = None.
Proof.
  intros Hrow Hh Hv. unfold finalize. destruct (ia_vector_ref a) as [v|]; [|done].
  intros [(e & _ & ->)|(i & w1 & [Hat ->]%lift_run & Hrest)]%eff_bind_run; [done|].
  apply eff_bind_run in Hrest as [(e & _ & ->)|(u & w2 & Hs & Hrest)]; [done|].
  injection Hrest as <- <-. intros _.
  assert (mi_id i = id ∧ mi_vector_ref i = Some v ∧ mr_deleted_at row = None) as (Hid & Hvi & Hdel).
  { rewrite <- (hydrate_deleted _ _ Hh). apply hydrate_vector in Hh as [<- _]. unfold attach_vector in Hat.
    destruct (mi_deleted_at (ia_item a)); [done|]. by injection Hat as ->. }
  apply save_run in Hs as [[? _]|[Hq _]]; [done|]. unfold update_item in Hq. rewrite Hid, Hrow in Hq.
  injection Hq as <-. split_and!; [done| |done]. unfold indexed, select_item in *. cbn [with_items memory_items].
  destruct (memory_items (db w) !! id) as [r0|] eqn:Hl; [|done].
  rewrite lookup_insert_eq. destruct (mine ctx r0) eqn:Hm; [|done]. injection Hrow as ->.
  exists (saved i row). assert (mine ctx (saved i row) = true) as -> by done.
  split; [done|]. unfold has_vector, saved. cbn. by rewrite Hvi.
Qed.

Context (envelope : list (text * json)).
Hypothesis Hmemory : ∃ data, field (txt "data") envelope = Some (JObj data) ∧ field (txt "memory_id") data = Some (JStr id).
Hypothesis Hevent : field (txt "id") envelope = Some (JStr event_id).

Abbreviation handler := (memory_index_handler model api_key ctx envelope).

(** One delivery: nothing happened in the database, or the claim and the effect did. *)
Lemma handler_cases w r w' : honest → handler w = (r, w') →
  (is_ok r = false ∧ db w' = db w) ∨
  (db w' = db w ∧ (indexed (db w) ∨ claimed (db w))) ∨
  (¬ claimed (db w) ∧ claimed (db w') ∧ indexed (db w') ∧
   ∃ row, select_item ctx id (db w) = Some row ∧ mr_deleted_at row = None).
Proof.
  intros Hon. destruct Hmemory as (data & Hdata & Hmid).
  assert (subscript (field (txt "data") envelope) "memory_id" = Ok (JStr id)) as Hs1
    by (unfold subscript; rewrite Hdata; cbv iota beta; by rewrite Hmid).
  assert (subscript (Some (JObj envelope)) "id" = Ok (JStr event_id)) as Hs2
    by (unfold subscript; by rewrite Hevent).
  unfold memory_index_handler. rewrite Hs1, Hs2. cbn [mbind result_bind as_uuid].
  intros [(e & [? _]%lift_run & _)|(x & w1 & [[= ->] ->]%lift_run & Hrest)]%eff_bind_run; [done|].
  apply eff_bind_run in Hrest as [(e & [? _]%lift_run & _)|(y & w1 & [[= ->] ->]%lift_run & Hrest)]; [done|].
  apply eff_bind_run in Hrest as [(e & [Hd _]%index_run_run & ->)|(a & w1 & [Hd Ha]%index_run_run & Hrest)];
    [by left|].
  destruct (Ha a eq_refl) as (row & Hrow & Hh & Hv). unfold is_redelivery_noop in Hrest.
  case_bool_decide as Hnoop.
  { injection Hrest as _ <-. right. left. split; [done|]. left. exists row. split; [done|by apply Hv]. }
  apply begin_run in Hrest as [[Hr Hd']|(u & w2 & w3 & Hd2 & Ha2 & _ & _ & _ & Hbody & Hd3 & Hr)].
  { left. by rewrite Hd', Hd. }
  right. apply eff_bind_run in Hbody as [(e & _ & ?)|(ev & w4 & [[= ->] ->]%lift_run & Hbody)]; [done|].
  apply eff_bind_run in Hbody as [(e & _ & ?)|(c & w4 & Hclaim & Hbody)]; [done|].
  apply claim_run in Hclaim as [_ [[? _]|[([= ->] & Hc & Hd4)|([= ->] & Hc & Hitems & Hc4)]]]; [done| |..|done|done].
  - cbn [negb] in Hbody. injection Hbody as _ <-. left. rewrite Hd3, Hd4, Hd2, Hd in *. split; [done|by right].
  - cbn [negb] in Hbody. apply eff_bind_run in Hbody as [(e & _ & ?)|(i & w5 & Hf & Hret)]; [done|].
    injection Hret as _ <-. right. rewrite Hd2, Hd in Hc.
    assert (select_item ctx id (db w4) = Some row) as Hrow4
      by (unfold select_item in *; by rewrite Hitems, Hd2, Hd).
    destruct (finalize_run _ _ _ _ _ Hrow4 Hh Hnoop Hf eq_refl) as (Hp & Hi & Hdel).
    rewrite Hd3. split_and!; [done| |done|by exists row]. unfold claimed. by rewrite Hp.
Qed.

Lemma handler_run w r w' : honest → together (db w) → handler w = (r, w') →
  together (db w') ∧ (r = Ok tt → claimed (db w') ∧ indexed (db w')).
Proof.
  intros Hon Htog [[Hr Hd]|[[Hd Hci]|(_ & Hc & Hi & _)]]%handler_cases; [| | |done].
  - rewrite Hd. split; [done|]. by intros ->.
  - rewrite Hd. split; [done|]. intros _. unfold together in Htog. tauto.
  - by split.
Qed.

(** What may happen between two deliveries: anything that leaves this item's index and
    this claim alone. *)
Inductive delivery : DbWorld MemoryDb V → DbWorld MemoryDb V → Prop :=
  | delivered_once w r w' : handler w = (r, w') → delivery w w'
  | others w w' :
      (claimed (db w') ↔ claimed (db w)) → (indexed (db w') ↔ indexed (db w)) → delivery w w'.

(** C15: The effect happens once: however often the event is delivered, with whatever database
    failures, and whatever else runs in between, the item is indexed exactly when the
    event is claimed, and a delivery that returns leaves both done. *)
Theorem effect_happens_once w w' :
  honest → together (db w) → rtc delivery w w' →
  together (db w') ∧
  ∀ w'', handler w' = (Ok tt, w'') → claimed (db w'') ∧ indexed (db w'').
Proof.
  intros Hon Htog Hrun.
  assert (together (db w')) as Htog'.
  { eapply (rtc_invariant delivery (λ x, together (db x))); [|exact Htog|exact Hrun].
    intros x y Hx Hstep. revert Hx. destruct Hstep as [x r y Hh|x y Hc Hi]; intros Hx.
    - by destruct (handler_run _ _ _ Hon Hx Hh).
    - unfold together. by rewrite Hc, Hi. }
  split; [done|]. intros w'' Hh. by apply (handler_run _ _ _ Hon Htog' Hh).
Qed.

(** An item forgotten before it was indexed is never acknowledged: [run] does not look at
    [deleted_at], so every delivery embeds and upserts its content again, [attach_vector]
    then raises, and nothing is claimed. *)
Theorem forgotten_item_is_never_acknowledged w r w' row t :
  honest → together (db w) → select_item ctx id (db w) = Some row → mr_deleted_at row = Some t →
  ¬ has_vector row → handler w = (r, w') → is_ok r = false ∧ db w' = db w.
Proof.
  intros Hon Htog Hrow Hdel Hvec.
  assert (¬ indexed (db w)) as Hni.
  { intros (row' & Hrow' & Hv). rewrite Hrow in Hrow'. by injection Hrow' as <-. }
  intros [?|[[_ Hci]|(_ & _ & _ & row' & Hrow' & Hd)]]%handler_cases; [done| | |done].
  - unfold together in Htog. tauto.
  - rewrite Hrow in Hrow'. injection Hrow' as <-. congruence.
Qed.
End Once.

(** ** Storing and announcing *)

(** The record a stored item is announced by. *)
Definition announces ctx (i : MemoryItem) (r : OutboxRecord) : Prop :=
  ob_stream r = txt "stream.memory" ∧ ob_event_type r = txt "memory.item.stored.v1" ∧
  ob_aggregate_id r = mi_id i ∧
  jget (ob_payload r) (txt "subject") = Some (JStr (mi_id i)) ∧
  jget (ob_payload r) (txt "id") = Some (JStr (ob_event_id r)) ∧
  jget (ob_payload r) (txt "workspaceid") = Some (JStr (workspace_id ctx)).

Lemma record_run ctx i key now w r w' :
  to_outbox_record ctx (MemoryStored (mi_id i) (workspace_id ctx) key now) w = (r, w') →
  db w' = db w ∧ active w' = active w ∧ began w' = began w ∧
  ∀ o, r = Ok o → ∃ rec, o = Some rec ∧ announces ctx i rec.
Proof.
  cbn [to_outbox_record]. intros Hrun.
  apply eff_bind_run in Hrun as [(e & Hu & _)|(ev & w1 & [= <- <-] & Hrun)]; [done|].
  apply eff_bind_run in Hrun as [(e & [_ ->]%lift_run & ->)|(p & w2 & [Hp ->]%lift_run & Hrun)]; [done|].
  injection Hrun as <- <-. split_and!; [done..|]. intros o [= <-]. eexists. split; [done|].
  unfold build_envelope in Hp. destruct (negb _); [done|]. injection Hp as ->.
  by split_and!.
Qed.

(** Storing and announcing are one act: whatever the database does, [remember] leaves it as
    it was, or with exactly one new row, pending indexing, and exactly one new unpublished
    outbox row announcing it; when it returns, the latter. *)
Theorem remember_is_announced ctx agent_key content kind salience w r w' :
  remember ctx agent_key content kind salience w = (r, w') →
  (is_ok r = false ∧ db w' = db w) ∨
  ∃ i rec at_, (r = Ok i ∨ is_ok r = false) ∧ mi_workspace_id i = workspace_id ctx ∧ mi_vector_ref i = None ∧
    memory_items (db w) !! mi_id i = None ∧
    memory_items (db w') = <[mi_id i := to_row i]> (memory_items (db w)) ∧
    announces ctx i rec ∧ outbox_rows (db w') = outbox_rows (db w) ++ [new_row ctx at_ rec] ∧
    processed_events (db w') = processed_events (db w).
Proof.
  intros [?|(i & w1 & w2 & Hd1 & Ha1 & _ & _ & _ & Hbody & Hd2 & Hr)]%begin_run; [by left|].
  right. rewrite Hd2, <- Hd1. clear Hd1 Hd2. apply eff_bind_run in Hbody as [(e & _ & ?)|([i' evs] & w3 & Hrem & Hbody)]; [done|].
  unfold RememberInteraction, checked_key in Hrem.
  apply eff_bind_run in Hrem as [(e & _ & ?)|(key & x & [_ ->]%lift_run & Hrem)]; [done|].
  apply eff_bind_run in Hrem as [(e & _ & ?)|(k & x & [_ ->]%lift_run & Hrem)]; [done|].
  apply eff_bind_run in Hrem as [(e & _ & ?)|(u & x & [_ ->]%lift_run & Hrem)]; [done|].
  apply eff_bind_run in Hrem as [(e & ? & _)|(now & x & [= <- <-] & Hrem)]; [done|].
  apply eff_bind_run in Hrem as [(e & ? & _)|(id & x & [= <- <-] & Hrem)]; [done|].
  set (item := mk_MemoryItem _ _ _ _ _ _ _ _ _) in Hrem.
  apply eff_bind_run in Hrem as [(e & _ & ?)|(u' & x & Hadd & Hrem)]; [done|]. injection Hrem as <- <- <-.
  assert (active x = active w1) as Ha3.
  { unfold add, adapter, tenant_session in Hadd. cbn [active] in Hadd. rewrite Ha1, bool_decide_true in Hadd by done.
    destruct (execute _ _) as [r1 x1] eqn:He. apply execute_run in He as [He _].
    destruct r1; [|done]. injection Hadd as _ <-. by rewrite He, Ha1. }
  apply adapter_Ok in Hadd. cbn [db] in Hadd. unfold insert_item in Hadd.
  destruct (negb _); [done|]. case_bool_decide as Hfresh; [done|]. injection Hadd as _ Hadd.
  cbn [records_of] in Hbody.
  apply eff_bind_run in Hbody as [(e & _ & ?)|(recs & w4 & Hrecs & Hbody)]; [done|].
  apply eff_bind_run in Hrecs as [(e & _ & ?)|(o & w5 & Hrec & Hrecs)]; [done|].
  apply (record_run ctx item) in Hrec as (Hd5 & Ha5 & _ & Ho). destruct (Ho o eq_refl) as (rec & -> & Hann).
  injection Hrecs as <- <-.
  apply eff_bind_run in Hbody as [(e & _ & ?)|(u2 & w6 & Happ & Hret)]; [done|]. injection Hret as <- <-.
  unfold append_records in Happ. rewrite bool_decide_false in Happ by done.
  unfold adapter, tenant_session in Happ. rewrite Ha5, Ha3, Ha1, bool_decide_true in Happ by done.
  destruct (execute _ w5) as [r6 w6'] eqn:He. apply execute_run in He as [_ [(f & -> & _)|(u6 & -> & Hq)]]; [done|].
  injection Happ as _ <-. unfold append in Hq. rewrite bool_decide_false in Hq by done.
  destruct (negb _); [done|]. cbn [mbind result_bind] in Hq. injection Hq as _ Hq.
  exists item, rec, (began w5). rewrite <- Hq, Hd5, <- Hadd. cbn.
  split_and!; [destruct Hr as [Hr|?]; [by left|by right]|done|done| |done|done|done|done].
  by apply eq_None_not_Some.
Qed.

(** ** Recall *)

Lemma recalled_run ctx hits w r w' : recalled_hits ctx hits w = (r, w') →
  db w' = db w ∧ ∀ ms, r = Ok ms → ∀ m, m ∈ ms →
    ∃ row, select_item ctx (rm_memory_id m) (db w) = Some row ∧ mr_deleted_at row = None ∧
           mr_content row = rm_content m.
Proof.
  revert w r w'; induction hits as [|h hits IH]; intros w r w'; cbn [recalled_hits].
  { intros [= <- <-]. split; [done|]. by intros ms [= <-] m ?%elem_of_nil. }
  intros [(e & [_ ->]%lift_run & ->)|(id & x & [_ ->]%lift_run & Hrun)]%eff_bind_run; [done|].
  apply eff_bind_run in Hrun as [(e & [Hd _]%get_run & ->)|(o & w1 & [Hd Hg]%get_run & Hrun)]; [done|].
  apply eff_bind_run in Hrun as [(e & [Hd2 _]%IH & ->)|(more & w2 & [Hd2 Hmore]%IH & Hret)]; [by rewrite Hd2, Hd|].
  injection Hret as <- <-. split; [by rewrite Hd2, Hd|]. specialize (Hmore more eq_refl). rewrite Hd in Hmore.
  specialize (Hg o eq_refl). intros ms [= <-] m. destruct o as [i|]; [|apply Hmore].
  case_bool_decide as Hdel; [apply Hmore|]. intros [->|Hm]%elem_of_cons; [|by apply Hmore].
  destruct Hg as (row & Hrow & Hh). pose proof Hh as Hid. apply hydrate_vector in Hid as [Hid _].
  exists row. cbn. rewrite Hid. split; [done|].
  unfold hydrate in Hh. apply bind_Ok in Hh as (v & _ & Hh). apply bind_Ok in Hh as (key & _ & Hh).
  apply bind_Ok in Hh as (k & _ & Hi). injection Hi as <-. cbn in *. split; [|done].
  destruct (mr_deleted_at row); [by destruct Hdel|done].
Qed.

(** A recall reads only: whatever the vector store answers, stale hits included, it returns
    live items of the caller's workspace with the content the table has. *)
Theorem recall_returns_live_items ctx agent_key query model api_key k w r w' :
  RecallRelevant ctx agent_key query model api_key k w = (r, w') →
  db w' = db w ∧ ∀ ms, r = Ok ms → 1 ≤ k ≤ 50 ∧ ∀ m, m ∈ ms →
    ∃ row, memory_items (db w) !! rm_memory_id m = Some row ∧ mr_workspace_id row = workspace_id ctx ∧
      mr_deleted_at row = None ∧ mr_content row = rm_content m.
Proof.
  unfold RecallRelevant, checked_key.
  intros [(e & [_ ->]%lift_run & ->)|(key & x & [_ ->]%lift_run & Hrun)]%eff_bind_run; [done|].
  apply eff_bind_run in Hrun as [(e & [_ ->]%lift_run & ->)|(u & x & [_ ->]%lift_run & Hrun)]; [done|].
  apply eff_bind_run in Hrun as [(e & [_ ->]%lift_run & ->)|(u' & x & [Hk ->]%lift_run & Hrun)]; [done|].
  apply eff_bind_run in Hrun as [(e & [Hd _]%outside_run & ->)|(vs & w1 & [Hd1 _]%outside_run & Hrun)]; [done|].
  apply eff_bind_run in Hrun as [(e & [_ ->]%lift_run & ->)|(v & x & [_ ->]%lift_run & Hrun)]; [done|].
  apply eff_bind_run in Hrun as [(e & [Hd _]%outside_run & ->)|(hits & w2 & [Hd2 _]%outside_run & Hrun)];
    [by rewrite Hd|].
  apply recalled_run in Hrun as [Hd Hms]. split; [congruence|]. intros ms Hr. split.
  - unfold raise_if, MIN_RECALL_K, MAX_RECALL_K in Hk. destruct ((1 <=? k) && (k <=? 50)) eqn:Hkk; [lia|done].
  - intros m Hm. destruct (Hms ms Hr m Hm) as (row & Hrow & Hdel & Hc). rewrite Hd2, Hd1 in Hrow.
    unfold select_item in Hrow. destruct (memory_items (db w) !! _) as [row'|]; [|done].
    destruct (mine ctx row') eqn:Hmine; [|done]. injection Hrow as ->. exists row.
    split_and!; [done| |done|done]. by apply bool_decide_eq_true in Hmine.
Qed.
End Worker.
