(* ===== verification/MemoryDemo.v ===== *)
(** * MemoryDemo: the memory module at work

    Witnesses of [MemoryWorker] on a small store of vectors, and two runs that show what
    goes wrong when an item is forgotten around its indexing. *)

From S2P Require Import Prelude Text Calendar Errors Framework Transactions Files Keyset Events Wire Cursor Streams Engine Outbox Memory MemoryWorker.

Open Scope Z_scope.

(** A vector store that remembers the points it was given, newest first. *)
#[local] Instance demo_vectors : Vectors (list text) := {|
  embed texts _ _ := mret ((λ t, [(len t, 0)]) <$> texts);
  dimensions _ := 1;
  ensure_collection name _ := mret name;
  upsert _ points := λ v, (Ok tt, (vp_id <$> points) ++ v);
  search _ _ _ _ := λ v, (Ok ((λ p, mk_VectorHit (1, 0) [(txt "memory_id", JStr p)]) <$> v), v)
|}.

#[local] Existing Instance ascii_unicode.
#[local] Instance demo_real : Real := {| real x := x |}.
#[local] Instance demo_jsonb : Jsonb := {| jsonb j := j |}.
#[local] Instance demo_points : PointIds := {| memory_point_id id := id |}.
#[local] Instance demo_clock : Env := demo_env 0.
#[local] Instance demo_database : Database := {| now_at i := Z.of_nat i; fault _ := None |}.

Abbreviation demo_state := (DbWorld MemoryDb (list text)).

Definition empty_state : demo_state := mk_DbWorld (mk_MemoryDb ∅ [] []) [] None 0 0 0 0.

Definition stored : demo_state :=
  (remember demo_ctx (txt "Helper ") (txt "likes tea") (txt "semantic") (5, -1) empty_state).2.

Definition item_id : text := [0].
Definition event_id : text := [1].
Definition model : text := txt "m".

Definition stored_envelope : list (text * json) :=
  match head (outbox_rows (db stored)) with
  | Some r => match or_payload r with JObj fields => fields | _ => [] end
  | None => []
  end.

Abbreviation demo_remember := (remember demo_ctx (txt "Helper ") (txt "likes tea") (txt "semantic") (5, -1) empty_state).
Abbreviation demo_handler := (memory_index_handler model (txt "key") demo_ctx stored_envelope).

Definition remembered : result exn MemoryItem := demo_remember.1.

Lemma remember_is_announced_witness :
  (db stored ≠ db empty_state ∧ is_ok remembered = true) ∧
  ((is_ok remembered = false ∧ db stored = db empty_state) ∨
  ∃ i rec at_, (remembered = Ok i ∨ is_ok remembered = false) ∧
    mi_workspace_id i = workspace_id demo_ctx ∧ mi_vector_ref i = None ∧
    memory_items (db empty_state) !! mi_id i = None ∧
    memory_items (db stored) = <[mi_id i := to_row i]> (memory_items (db empty_state)) ∧
    announces demo_ctx i rec ∧
    outbox_rows (db stored) = outbox_rows (db empty_state) ++ [new_row demo_ctx at_ rec] ∧
    processed_events (db stored) = processed_events (db empty_state)).
Proof.
  split; [split; [intros Heq%(f_equal (λ d, length (outbox_rows d))); vm_compute in Heq; discriminate Heq|vm_compute; reflexivity]|].
  apply (remember_is_announced demo_ctx (txt "Helper ") (txt "likes tea") (txt "semantic") (5, -1) empty_state).
  apply surjective_pairing.
Defined.

Lemma demo_honest : honest.
Proof. done. Qed.

Definition indexed_once : demo_state := (demo_handler stored).2.
Definition indexed_twice : demo_state := (demo_handler indexed_once).2.

Lemma not_indexed d row :
  select_item demo_ctx item_id d = Some row → mr_collection row = None → ¬ indexed demo_ctx item_id d.
Proof. intros Hrow Hc (row' & Hrow' & Hv & _). congruence. Qed.

Lemma nothing_claimed d : processed_events d = [] → ¬ claimed event_id d.
Proof. unfold claimed. intros ->. apply not_elem_of_nil. Qed.

Lemma stored_together : together demo_ctx item_id event_id (db stored).
Proof.
  split; intros Hx; exfalso; revert Hx.
  - apply nothing_claimed. vm_compute. reflexivity.
  - eapply not_indexed; vm_compute; reflexivity.
Qed.

Lemma stored_envelope_memory :
  ∃ data, field (txt "data") stored_envelope = Some (JObj data) ∧ field (txt "memory_id") data = Some (JStr item_id).
Proof. eexists. split; vm_compute; reflexivity. Qed.

Lemma stored_envelope_event : field (txt "id") stored_envelope = Some (JStr event_id).
Proof. vm_compute. reflexivity. Qed.

(** Delivered twice, with a stranger's work in between: one claim, one point in the store. *)
Lemma effect_happens_once_witness :
  (processed_events (db indexed_twice) = [(CG_MEMORY, event_id)] ∧ ext indexed_twice = [item_id]) ∧
  together demo_ctx item_id event_id (db indexed_twice) ∧
  ∀ w'', demo_handler indexed_twice = (Ok tt, w'') → claimed event_id (db w'') ∧ indexed demo_ctx item_id (db w'').
Proof.
  split; [split; vm_compute; reflexivity|].
  apply (effect_happens_once demo_ctx model (txt "key") item_id event_id stored_envelope
           stored_envelope_memory stored_envelope_event stored).
  - exact demo_honest.
  - exact stored_together.
  - eapply rtc_l; [eapply delivered_once, surjective_pairing|].
    eapply rtc_l; [eapply delivered_once, surjective_pairing|apply rtc_refl].
Defined.

(** ** Forgetting *)

Definition forgotten : demo_state := (ForgetMemory demo_ctx item_id stored).2.

Lemma forgotten_together : together demo_ctx item_id event_id (db forgotten).
Proof.
  split; intros Hx; exfalso; revert Hx.
  - apply nothing_claimed. vm_compute. reflexivity.
  - eapply not_indexed; vm_compute; reflexivity.
Qed.

(** The delivery fails, and the forgotten content is in the vector store. *)
Lemma forgotten_item_witness :
  ext (demo_handler forgotten).2 = [item_id] ∧
  (is_ok (demo_handler forgotten).1 = false ∧ db (demo_handler forgotten).2 = db forgotten).
Proof.
  split; [vm_compute; reflexivity|].
  eapply (forgotten_item_is_never_acknowledged demo_ctx model (txt "key") item_id event_id stored_envelope
            stored_envelope_memory stored_envelope_event forgotten).
  - exact demo_honest.
  - exact forgotten_together.
  - vm_compute. reflexivity.
  - vm_compute. reflexivity.
  - intros [Hc _]. apply Hc. vm_compute. reflexivity.
  - apply surjective_pairing.
Defined.

(** Forget while the worker is between its upsert and its transaction: [finalize] saves the
    item it had read, and the forgotten item is live again. *)
Definition racing : list (bool * option instant) :=
  match index_run demo_ctx item_id model (txt "key") stored with
  | (Ok attempt, w1) =>
      let '(r2, w2) := ForgetMemory demo_ctx item_id w1 in
      let '(r3, w3) := finalize demo_ctx attempt w2 in
      [(is_ok r2, mbind mr_deleted_at (select_item demo_ctx item_id (db w2)));
       (is_ok r3, mbind mr_deleted_at (select_item demo_ctx item_id (db w3)))]
  | _ => []
  end.

(** Indexing may bring a forgotten item back: forgotten after the worker has read it, and
    live again once the worker has attached its vector, both calls succeeding. *)
Example indexing_resurrects_forgotten : ∃ t, racing = [(true, Some t); (true, None)].
Proof. eexists. vm_compute. reflexivity. Qed.

(** ** Recall *)

Definition recalled : result exn (list RecalledMemory) * demo_state :=
  RecallRelevant demo_ctx (txt "helper") (txt "tea?") model (txt "key") 3 indexed_once.

Lemma recall_returns_live_items_witness :
  (rm_content <$> unwrap [] recalled.1) = [txt "likes tea"] ∧
  db recalled.2 = db indexed_once ∧ ∀ ms, recalled.1 = Ok ms → 1 ≤ 3 ≤ 50 ∧ ∀ m, m ∈ ms →
    ∃ row, memory_items (db indexed_once) !! rm_memory_id m = Some row ∧ mr_workspace_id row = workspace_id demo_ctx ∧
      mr_deleted_at row = None ∧ mr_content row = rm_content m.
Proof.
  split; [vm_compute; reflexivity|].
  eapply (recall_returns_live_items demo_ctx (txt "helper") (txt "tea?") model (txt "key") 3 indexed_once).
  apply surjective_pairing.
Defined.
