(* ===== verification/FilesApp.v ===== *)
(** * Files: the application services

    [modules/files/application/use_cases.py] and [event_mapping.py],
    [framework/di/file_replacement.py], [file_deletion.py] and [space_quota.py].
    The world of a call holds the file table, the outbox and the object store; only
    the first two are inside a unit of work, so an exception rolls back only those. *)

From S2P Require Import Prelude Text Calendar Errors Framework Files Keyset Events Wire Cursor FilesStore.

Open Scope Z_scope.

Record StoredPart := mk_StoredPart { part_number : Z; part_size : Z; part_etag : text }.

(** [framework/ports/storage_provider.py]: the object store, seen from here. *)
Class ObjectStorage (S : Type) := {
  start_multipart : text → text → S → result exn text * S;
  list_parts : text → text → S → result exn (list StoredPart);
  complete_multipart : text → text → list StoredPart → S → result exn unit * S;
  object_size : text → S → result exn (option Z);
  delete_object : text → S → result exn unit * S;
  presign_put : text → Z → text → S → result exn text;
  presign_get : text → Z → S → result exn text;
  presign_upload_part : text → text → Z → Z → S → result exn text
}.

(** [modules/files/ports/spaces.py] and the space row lock of [spaces]: what another
    module answers about a space of the caller's workspace. *)
Class ActiveSpaces := { space_is_active : ExecutionContext → text → bool }.

Record Limits := mk_Limits {
  allowed_mime : list text;
  max_upload_bytes : Z;
  max_single_put_bytes : Z;
  multipart_part_bytes : Z;
  max_files_per_workspace : Z;
  max_space_bytes : Z
}.

Record FilesWorld (S : Type) := mk_FilesWorld {
  db : FilesDb;
  outbox : list OutboxRecord;
  objects : S;
  fticks : nat;
  fminted : nat
}.
Arguments mk_FilesWorld {S}.
Arguments db {S}.
Arguments outbox {S}.
Arguments objects {S}.
Arguments fticks {S}.
Arguments fminted {S}.

Abbreviation fio S A := (eff (FilesWorld S) exn A).

Inductive FileEvent : Type :=
  | FileUploaded (fe_file_id fe_workspace_id : text) (fe_space_id : option text)
      (fe_content_type : text) (fe_size : Z) (fe_key : text) (fe_checksum : option text)
      (fe_at : instant) (fe_tags : FileTags)
  | FileDeleted (fe_file_id fe_workspace_id : text) (fe_at : instant).

Definition validation_exn : exn := App (raise_class ValidationError).
Definition not_found_exn : exn := App (raise_class NotFoundError).
Definition conflict_exn : exn := App (raise_class ConflictError).

(** [except FileError -> ValidationError], [except FileStateError -> ConflictError]. *)
Definition as_validation (e : FileError) : exn := validation_exn.
Definition as_boundary (e : FileError) : exn :=
  match e with FileStateError => conflict_exn | InvalidFileInput => validation_exn end.

Definition is_not_found (e : exn) : bool :=
  match e with App a => bool_decide (err_class a = NotFoundError) | Other _ => false end.

(** ** [event_mapping.py] *)

Definition uploaded_data (file_id : text) (space : option text) (ct : text) (size : Z)
    (key : text) (t : FileTags) : json :=
  JObj ([(txt "file_id", JStr file_id); (txt "content_type", JStr ct);
         (txt "size_bytes", JInt size); (txt "storage_key", JStr key)] ++
        opt_field (txt "space_id") space ++
        (if tags_empty t then []
         else [(txt "tags", JObj (flat_map (λ k, opt_field (tag_value k) (tag_of t k)) TAG_KINDS))])).

Section World.
Context `{Env} {S : Type}.

Definition now_utc : fio S instant :=
  λ w, (Ok (clock (fticks w)), mk_FilesWorld (db w) (outbox w) (objects w) (1 + fticks w) (fminted w)).

Definition mint : fio S text :=
  λ w, (Ok (uuid7 (fminted w)), mk_FilesWorld (db w) (outbox w) (objects w) (fticks w) (1 + fminted w)).

Definition db_read {A} (q : FilesDb → result exn A) : fio S A := λ w, (q (db w), w).

Definition db_write {A} (u : FilesDb → result exn (A * FilesDb)) : fio S A :=
  λ w, match u (db w) with
       | Ok (a, d) => (Ok a, mk_FilesWorld d (outbox w) (objects w) (fticks w) (fminted w))
       | Err e => (Err e, w)
       end.

Definition storage {A} (u : S → result exn A * S) : fio S A :=
  λ w, let '(r, o) := u (objects w) in
       (r, mk_FilesWorld (db w) (outbox w) o (fticks w) (fminted w)).

Definition storage_read {A} (q : S → result exn A) : fio S A := λ w, (q (objects w), w).

Definition outbox_append (records : list OutboxRecord) : fio S unit :=
  λ w, (Ok tt, mk_FilesWorld (db w) (outbox w ++ records) (objects w) (fticks w) (fminted w)).

(** [async with uow.begin(ctx)] *)
Definition unit_of_work {A} (body : fio S A) : fio S A :=
  eff_atomic (λ w, (db w, outbox w))
    (λ p w, mk_FilesWorld p.1 p.2 (objects w) (fticks w) (fminted w)) body.
End World.

(** [to_outbox_record] *)
Definition to_outbox_record `{Env} {S} (ctx : ExecutionContext) (e : FileEvent)
    : fio S (option OutboxRecord) :=
  match e with
  | FileDeleted _ _ _ => mret None
  | FileUploaded fid ws space ct size key _ at_ t =>
      event_id ← mint;
      payload ← eff_lift (build_envelope event_id (txt "files") (txt "files.file.uploaded.v1") fid
        at_ ws (uploaded_data fid space ct size key t) (Some (correlation_id ctx)) None);
      mret (Some (mk_OutboxRecord event_id (txt "file") fid (txt "files.file.uploaded.v1")
                    (txt "stream.files") payload))
  end.

Fixpoint outbox_records `{Env} {S} (ctx : ExecutionContext) (events : list FileEvent)
    : fio S (list OutboxRecord) :=
  match events with
  | [] => mret []
  | e :: rest =>
      r ← to_outbox_record ctx e;
      rs ← outbox_records ctx rest;
      mret (match r with Some x => x :: rs | None => rs end)
  end.

Section Services.
Context `{Env} `{Unicode} `{Collation} `{ActiveSpaces} {S : Type} `{ObjectStorage S}.
Context (limits : Limits) (put_ttl_s get_ttl_s : Z).
Implicit Types (ctx : ExecutionContext).

Inductive UploadMode : Type := SINGLE | MULTIPART.

(** The file, or a 404. *)
Definition get_file ctx (id : text) : fio S File :=
  f ← db_read (get ctx id);
  match f with Some x => mret x | None => eff_raise not_found_exn end.

(** [files.save]: the database stamps the row with its own clock. *)
Definition save_file ctx (f : File) : fio S File :=
  now ← now_utc; db_write (save ctx f now).

(** [RegisterUpload.execute]: the checks, in order. *)
Definition check_upload ctx (space : option text) (ct : ContentType) (size : Z)
    (mode : UploadMode) (d : FilesDb) : result exn unit :=
  let too_large code := App (raise_code TooLargeError code) in
  _ ← raise_if (negb (bool_decide (ct_value ct ∈ allowed_mime limits)))
        (App (raise_code UnsupportedTypeError "files.unsupported_type"));
  _ ← raise_if (size <? 0) validation_exn;
  _ ← raise_if (max_upload_bytes limits <? size) (too_large "files.too_large"%string);
  _ ← raise_if (match mode with SINGLE => max_single_put_bytes limits <? size | MULTIPART => false end)
        (too_large "files.multipart_required"%string);
  _ ← raise_if (match mode with MULTIPART => size <? 1 | SINGLE => false end) validation_exn;
  _ ← raise_if (match space with Some s => negb (space_is_active ctx s) | None => false end)
        not_found_exn;
  raise_if (max_files_per_workspace limits <=? count ctx d)
    (App (raise_code ConflictError "files.too_many")).

Definition open_session (mode : UploadMode) (key : StorageKey) (ct : ContentType)
    : fio S (option MultipartUpload) :=
  match mode with
  | SINGLE => mret None
  | MULTIPART =>
      upload_id ← storage (start_multipart (sk_value key) (ct_value ct));
      m ← eff_lift (map_err file_exn (new_MultipartUpload upload_id (multipart_part_bytes limits)));
      mret (Some m)
  end.

Definition RegisterUpload ctx (space : option text) (raw_name raw_type : text) (size : Z)
    (mode : UploadMode) (raw_tags : option (gmap text (option text))) : fio S File :=
  n ← eff_lift (map_err as_validation (new_FileName raw_name));
  ct ← eff_lift (map_err as_validation (new_ContentType raw_type));
  t ← eff_lift (map_err as_validation
        (match raw_tags with
         | Some m => if bool_decide (m = ∅) then Ok no_tags else from_mapping m
         | None => Ok no_tags
         end));
  _ ← db_read (check_upload ctx space ct size mode);
  id ← mint;
  key ← eff_lift (map_err file_exn (for_file (workspace_id ctx) id));
  session ← open_session mode key ct;
  now ← now_utc;
  let f := mk_File id (workspace_id ctx) space n ct size key None UPLOADED (user_id ctx)
             now now None 1 session t in
  _ ← db_write (add ctx f);
  mret f.

(** [CompleteUpload.execute] *)
Definition CompleteUpload ctx (id : text) (raw_checksum : option text)
    : fio S (File * list FileEvent) :=
  f ← get_file ctx id;
  sha ← eff_lift (match raw_checksum with
                  | Some c => h ← map_err as_validation (new_Sha256 c); Ok (Some h)
                  | None => Ok None
                  end);
  now ← now_utc;
  f1 ← eff_lift (map_err as_boundary (complete sha now f));
  f2 ← save_file ctx f1;
  mret (f2, [FileUploaded (file_id f2) (workspace_id ctx) (file_space_id f2)
               (ct_value (content_type f2)) (size_bytes f2) (sk_value (storage_key f2))
               (sha_value <$> sha) now (tags f2)]).

(** [FindNamesakes.execute] *)
Definition FindNamesakes ctx (id : text) : fio S (list text) :=
  f ← get_file ctx id; db_read (λ d, Ok (live_namesakes ctx f d)).

Definition RenameFile ctx (id raw_name : text) : fio S File :=
  f ← get_file ctx id;
  n ← eff_lift (map_err as_validation (new_FileName raw_name));
  now ← now_utc;
  f1 ← eff_lift (map_err as_boundary (rename n now f));
  if bool_decide (fn_value (name f1) = fn_value (name f)) then mret f1 else save_file ctx f1.

Definition RetagFile ctx (id : text) (raw : gmap text (option text)) : fio S File :=
  f ← get_file ctx id;
  t ← eff_lift (map_err as_validation (from_mapping raw));
  now ← now_utc;
  r ← eff_lift (map_err as_boundary (retag t now f));
  if r.1 : bool then save_file ctx r.2 else mret r.2.

(** [SoftDeleteFile.execute] *)
Definition SoftDeleteFile ctx (id : text) : fio S (File * list FileEvent) :=
  f ← get_file ctx id;
  now ← now_utc;
  f1 ← save_file ctx (soft_delete now f);
  mret (f1, if bool_decide (deleted_at f ≠ None) then []
            else [FileDeleted (file_id f1) (workspace_id ctx) (updated_at f1)]).

(** [PurgeSpaceFiles.execute]: objects before rows. *)
Definition PurgeSpaceFiles ctx (space : text) : fio S Z :=
  keys ← db_read (λ d, Ok (storage_keys_in_space ctx space d));
  _ ← eff_iter (λ k, storage (delete_object k)) keys;
  db_write (λ d, Ok (purge_space ctx space d)).

(** [FilesQueryService.get_readable] *)
Definition get_readable ctx (id : text) : fio S (option File) :=
  f ← db_read (get ctx id);
  mret (match f with Some x => if is_ready x then Some x else None | None => None end).

(** ** Multipart *)

Definition registered_by_caller ctx (f : File) : bool :=
  match user_id ctx with
  | Some u => bool_decide (uploaded_by f = Some u)
  | None => false
  end.

(** [_open_upload] *)
Definition open_upload ctx (id : text) : fio S (File * MultipartUpload) :=
  f ← db_read (get ctx id);
  match f with
  | None => eff_raise not_found_exn
  | Some f =>
      if bool_decide (deleted_at f ≠ None) || negb (registered_by_caller ctx f)
      then eff_raise not_found_exn
      else match multipart f with
           | None => eff_raise conflict_exn
           | Some m => if bool_decide (status f ≠ UPLOADED) then eff_raise conflict_exn
                       else mret (f, m)
           end
  end.

Fixpoint sign_each (f : File) (m : MultipartUpload) (ns : list Z) : fio S (list (Z * text)) :=
  match ns with
  | [] => mret []
  | n :: rest =>
      url ← storage_read (presign_upload_part (sk_value (storage_key f)) (mp_upload_id m) n put_ttl_s);
      urls ← sign_each f m rest;
      mret ((n, url) :: urls)
  end.

Definition sign_parts ctx (id : text) (part_ns : list Z) : fio S (list (Z * text)) :=
  fm ← open_upload ctx id;
  let n := part_count fm.2 (size_bytes fm.1) in
  _ ← eff_lift (raise_if (negb (bool_decide (NoDup part_ns))) validation_exn);
  _ ← eff_lift (raise_if (existsb (λ k, negb ((1 <=? k) && (k <=? n))) part_ns) validation_exn);
  sign_each fm.1 fm.2 part_ns.

Definition joined_earlier (key : text) (size : Z) : fio S unit :=
  s ← storage_read (object_size key);
  eff_lift (raise_if (bool_decide (s ≠ Some size))
              (App (raise_code ConflictError "files.upload_expired"))).

Definition by_number (p q : StoredPart) : Prop := part_number p ≤ part_number q.
#[global] Instance by_number_dec p q : base.Decision (by_number p q).
Proof. unfold by_number. apply _. Defined.

(** The part of [assemble] after the parts are listed. *)
Definition join_parts (f : File) (m : MultipartUpload) (parts : list StoredPart) : fio S unit :=
  let key := sk_value (storage_key f) in
  let sizes := list_to_map (rev ((λ p, (part_number p, part_size p)) <$> parts)) in
  check ← eff_lift (map_err file_exn (check_parts m (size_bytes f) sizes));
  _ ← eff_lift (raise_if (negb (complete_check check))
                  (App (raise_code ConflictError "files.upload_incomplete")));
  let ordered := merge_sort by_number
    (List.filter (λ p, part_number p <=? part_count m (size_bytes f)) parts) in
  joined ← eff_catch
    (_ ← storage (complete_multipart key (mp_upload_id m) ordered); mret true)
    is_not_found (λ _, _ ← joined_earlier key (size_bytes f); mret false);
  if joined : bool then
    s ← storage_read (object_size key);
    eff_lift (raise_if (bool_decide (s ≠ Some (size_bytes f)))
                (App (raise_code ConflictError "files.upload_incomplete")))
  else mret tt.

(** [assemble] *)
Definition assemble ctx (id : text) : fio S unit :=
  f ← db_read (get ctx id);
  match f with
  | Some f =>
      match multipart f with
      | Some m =>
          if bool_decide (deleted_at f ≠ None) || bool_decide (status f ≠ UPLOADED) then mret tt
          else if negb (registered_by_caller ctx f) then eff_raise not_found_exn
          else
            parts ← eff_catch
              (ps ← storage_read (list_parts (sk_value (storage_key f)) (mp_upload_id m));
               mret (Some ps))
              is_not_found
              (λ _, _ ← joined_earlier (sk_value (storage_key f)) (size_bytes f); mret None);
            match parts with
            | Some ps => join_parts f m ps
            | None => mret tt
            end
      | None => mret tt
      end
  | None => mret tt
  end.

(** [CompleteUploadService.complete] *)
Definition complete_and_publish ctx (id : text) (raw_checksum : option text) : fio S File :=
  unit_of_work
    (fe ← CompleteUpload ctx id raw_checksum;
     records ← outbox_records ctx fe.2;
     _ ← outbox_append records;
     mret fe.1).

Definition complete_service ctx (id : text) (raw_checksum : option text) : fio S File :=
  _ ← assemble ctx id;
  complete_and_publish ctx id raw_checksum.

(** [SoftDeleteFileService.delete] *)
Definition delete_service ctx (id : text) : fio S File :=
  unit_of_work
    (fe ← SoftDeleteFile ctx id;
     records ← outbox_records ctx fe.2;
     _ ← outbox_append records;
     mret fe.1).

(** [FileTransferService.register] and [SpaceQuotaService.register] with it as the
    registrar; the two locks are the subject of [UsageRace]'s kind of argument and
    hold nothing here. *)
Definition transfer_register ctx (space : option text) (raw_name raw_type : text) (size : Z)
    (raw_tags : option (gmap text (option text))) : fio S (File * text) :=
  f ← RegisterUpload ctx space raw_name raw_type size SINGLE raw_tags;
  url ← storage_read (presign_put (sk_value (storage_key f)) put_ttl_s (ct_value (content_type f)));
  mret (f, url).

Definition multipart_register ctx (space : option text) (raw_name raw_type : text) (size : Z)
    (raw_tags : option (gmap text (option text))) : fio S (File * (Z * Z)) :=
  f ← RegisterUpload ctx space raw_name raw_type size MULTIPART raw_tags;
  match multipart f with
  | None => eff_raise (App (raise_code AppError "common.internal"))
  | Some m => mret (f, (mp_part_bytes m, part_count m (size_bytes f)))
  end.

Definition quota_register {R} (register : ExecutionContext → option text → text → text → Z →
      option (gmap text (option text)) → fio S R)
    ctx (space raw_name raw_type : text) (size : Z)
    (raw_tags : option (gmap text (option text))) : fio S R :=
  unit_of_work
    (_ ← eff_lift (raise_if (negb (space_is_active ctx space)) not_found_exn);
     used ← db_read (λ d, Ok (bytes_in_space ctx space d));
     _ ← eff_lift (raise_if
           ((size <=? max_upload_bytes limits) && (max_space_bytes limits <? used + size))
           (App (raise_code ConflictError "spaces.quota_exceeded")));
     register ctx (Some space) raw_name raw_type size raw_tags).

(** [describe]: a presigned GET for a ready file only. *)
Definition describe (f : File) : fio S (File * option text) :=
  if negb (is_ready f) then mret (f, None)
  else url ← storage_read (presign_get (sk_value (storage_key f)) get_ttl_s); mret (f, Some url).

Definition transfer_get ctx (id : text) : fio S (File * option text) :=
  f ← db_read (get ctx id);
  match f with
  | Some f => if bool_decide (deleted_at f ≠ None) then eff_raise not_found_exn else describe f
  | None => eff_raise not_found_exn
  end.

(** ** Replacement *)

(** What [knowledge] and [electrical] destroy for a file lies outside this model;
    whether it succeeds does not. *)
Context (purge_corpus : ExecutionContext → text → result exn Z).

(** [DeleteFileService.delete] *)
Definition DeleteFile ctx (id : text) : fio S Z :=
  _ ← delete_service ctx id;
  eff_lift (purge_corpus ctx id).

(** [_sweep]: nothing raised here reaches the caller. *)
Definition sweep ctx (id : text) : fio S unit :=
  replaced ← eff_catch (ids ← FindNamesakes ctx id; mret ids) (λ _, true) (λ _, mret []);
  eff_iter (λ old, eff_catch (_ ← DeleteFile ctx old; mret tt) (λ _, true) (λ _, mret tt)) replaced.

Definition replace_complete ctx (id : text) (raw_checksum : option text) : fio S File :=
  f ← complete_service ctx id raw_checksum;
  _ ← sweep ctx id;
  mret f.

Definition replace_rename ctx (id raw_name : text) : fio S File :=
  f ← RenameFile ctx id raw_name;
  if bool_decide (status f = READY) then _ ← sweep ctx id; mret f else mret f.

Definition replace_retag ctx (id : text) (raw : gmap text (option text)) : fio S File :=
  f ← RetagFile ctx id raw;
  if bool_decide (status f = READY) then _ ← sweep ctx id; mret f else mret f.
End Services.

(** ** Inverting runs *)

Section Inversion.
Context `{Env} {S : Type}.
Implicit Types w : FilesWorld S.

Lemma now_utc_Ok w r w' : now_utc w = (r, w') →
  r = Ok (clock (fticks w)) ∧
  w' = mk_FilesWorld (db w) (outbox w) (objects w) (1 + fticks w) (fminted w).
Proof. unfold now_utc. naive_solver. Qed.

Lemma mint_Ok w r w' : mint w = (r, w') →
  r = Ok (uuid7 (fminted w)) ∧
  w' = mk_FilesWorld (db w) (outbox w) (objects w) (fticks w) (1 + fminted w).
Proof. unfold mint. naive_solver. Qed.

Lemma db_read_Ok {A} (q : FilesDb → result exn A) w r w' :
  db_read q w = (r, w') → r = q (db w) ∧ w' = w.
Proof. unfold db_read. naive_solver. Qed.

Lemma db_write_Ok {A} (u : FilesDb → result exn (A * FilesDb)) w a w' :
  db_write u w = (Ok a, w') →
  ∃ d, u (db w) = Ok (a, d) ∧
    w' = mk_FilesWorld d (outbox w) (objects w) (fticks w) (fminted w).
Proof. unfold db_write. destruct (u (db w)) as [[a' d]|e]; naive_solver. Qed.

Lemma db_write_Err {A} (u : FilesDb → result exn (A * FilesDb)) w e w' :
  db_write u w = (Err e, w') → w' = w.
Proof. unfold db_write. destruct (u (db w)) as [[a' d]|e']; naive_solver. Qed.

Lemma storage_read_Ok {A} (q : S → result exn A) w r w' :
  storage_read q w = (r, w') → r = q (objects w) ∧ w' = w.
Proof. unfold storage_read. naive_solver. Qed.

Lemma lift_eff {A} (x : result exn A) w r w' : eff_lift x w = (r, w') → r = x ∧ w' = w.
Proof. unfold eff_lift. naive_solver. Qed.

(** A unit of work that raises leaves the database and the outbox alone. *)
Lemma unit_of_work_Ok {A} (m : fio S A) w a w' :
  unit_of_work m w = (Ok a, w') → m w = (Ok a, w').
Proof. unfold unit_of_work, eff_atomic. destruct (m w) as [[?|?] ?]; naive_solver. Qed.

Lemma unit_of_work_Err {A} (m : fio S A) w e w' :
  unit_of_work m w = (Err e, w') → db w' = db w ∧ outbox w' = outbox w.
Proof. unfold unit_of_work, eff_atomic. destruct (m w) as [[?|?] ?]; naive_solver. Qed.
End Inversion.

(** Take the next step of a successful run apart. *)
Ltac ueff :=
  repeat match goal with
  | H : (?m ≫= _) _ = (Ok _, _) |- _ => apply eff_bind_Ok in H as (? & ? & ? & ?)
  | H : now_utc _ = (_, _) |- _ => apply now_utc_Ok in H as [? ?]
  | H : mint _ = (_, _) |- _ => apply mint_Ok in H as [? ?]
  | H : db_read _ _ = (_, _) |- _ => apply db_read_Ok in H as [? ?]
  | H : db_write _ _ = (Ok _, _) |- _ => apply db_write_Ok in H as (? & ? & ?)
  | H : storage_read _ _ = (_, _) |- _ => apply storage_read_Ok in H as [? ?]
  | H : eff_lift _ _ = (_, _) |- _ => apply lift_eff in H as [? ?]
  | H : mret _ _ = (Ok _, _) |- _ => apply pair_equal_spec in H as [? ?]
  | H : Ok _ = Ok _ |- _ => apply Ok_inj in H
  | H : eff_raise _ _ = (Ok _, _) |- _ => discriminate H
  end; subst.

Section Correctness.
Context {EV : Env} {EVL : EnvLaws EV} {U : Unicode} {UL : UnicodeLaws U} {K : Collation}
  {SP : ActiveSpaces} {S : Type} {OS : ObjectStorage S}.
Context (limits : Limits) (put_ttl get_ttl : Z) (purge : ExecutionContext → text → result exn Z).
Implicit Types (w : FilesWorld S) (ctx : ExecutionContext).

Lemma get_file_Ok ctx id w f w' :
  get_file ctx id w = (Ok f, w') → get ctx id (db w) = Ok (Some f) ∧ w' = w.
Proof.
  unfold get_file. intros (o & w1 & [Ho ->]%db_read_Ok & Hx)%eff_bind_Ok.
  destruct o as [x|]; [|done]. apply pair_equal_spec in Hx as [Hx ->].
  apply Ok_inj in Hx as ->. done.
Qed.

Lemma save_file_Ok ctx f w f' w' :
  save_file ctx f w = (Ok f', w') →
  ∃ d, save ctx f (clock (fticks w)) (db w) = Ok (f', d) ∧
    w' = mk_FilesWorld d (outbox w) (objects w) (1 + fticks w) (fminted w).
Proof.
  unfold save_file. intros (now & w1 & [Hn ->]%now_utc_Ok & Hx)%eff_bind_Ok.
  apply Ok_inj in Hn as ->. apply db_write_Ok in Hx as (d & Hs & ->). eauto.
Qed.

Lemma complete_Ok c now f f' :
  complete c now f = Ok f' →
  deleted_at f = None ∧ scannable (status f) = true ∧
  f' = with_state f (name f) c READY now (deleted_at f) (tags f).
Proof.
  unfold complete. intros Hx. apply bind_Ok in Hx as (u & Hg%guard_Ok & Hx).
  apply bind_Ok in Hx as ([] & Hs%raise_if_Ok & Hx). apply Ok_inj in Hx as <-.
  by unbool.
Qed.

Lemma to_outbox_uploaded ctx fid ws space ct size key sha at_ t w r w' :
  to_outbox_record ctx (FileUploaded fid ws space ct size key sha at_ t) w = (Ok r, w') →
  ∃ payload, r = Some (mk_OutboxRecord (uuid7 (fminted w)) (txt "file") fid
                         (txt "files.file.uploaded.v1") (txt "stream.files") payload) ∧
    build_envelope (uuid7 (fminted w)) (txt "files") (txt "files.file.uploaded.v1") fid at_ ws
      (uploaded_data fid space ct size key t) (Some (correlation_id ctx)) None = Ok payload ∧
    db w' = db w ∧ outbox w' = outbox w ∧ objects w' = objects w.
Proof.
  cbn [to_outbox_record]. intros (eid & w1 & [Hid ->]%mint_Ok & Hx)%eff_bind_Ok.
  apply Ok_inj in Hid as ->. apply eff_bind_Ok in Hx as (p & w2 & [Hp ->]%lift_eff & Hx).
  apply pair_equal_spec in Hx as [Hr <-]. apply Ok_inj in Hr as <-. eauto 6.
Qed.

(** What an upload event says, once on the wire. *)
Definition announces (rec : OutboxRecord) ctx (f : File) : Prop :=
  ob_aggregate_id rec = file_id f ∧ ob_stream rec = txt "stream.files" ∧
  ob_event_type rec = txt "files.file.uploaded.v1" ∧
  jget (ob_payload rec) (txt "id") = Some (JStr (ob_event_id rec)) ∧
  jget (ob_payload rec) (txt "type") = Some (JStr (ob_event_type rec)) ∧
  jget (ob_payload rec) (txt "workspaceid") = Some (JStr (workspace_id ctx)) ∧
  jget (ob_payload rec) (txt "correlationid") = Some (JStr (correlation_id ctx)) ∧
  jget (ob_payload rec) (txt "data") =
    Some (uploaded_data (file_id f) (file_space_id f) (ct_value (content_type f))
            (size_bytes f) (sk_value (storage_key f)) (tags f)).

Lemma envelope_fields eid fid at_ ws data corr p :
  build_envelope eid (txt "files") (txt "files.file.uploaded.v1") fid at_ ws data (Some corr) None
    = Ok p →
  jget p (txt "id") = Some (JStr eid) ∧
  jget p (txt "type") = Some (JStr (txt "files.file.uploaded.v1")) ∧
  jget p (txt "workspaceid") = Some (JStr ws) ∧
  jget p (txt "correlationid") = Some (JStr corr) ∧ jget p (txt "data") = Some data.
Proof.
  unfold build_envelope.
  assert (at_dollar event_type_re (txt "files.file.uploaded.v1") = true) as -> by reflexivity.
  cbn [negb]. intros Hp. apply Ok_inj in Hp as <-. split_and!; reflexivity.
Qed.

Lemma complete_and_publish_Ok ctx id raw w f w' :
  db_ok (db w) → complete_and_publish ctx id raw w = (Ok f, w') →
  ∃ f0 row rec,
      get ctx id (db w) = Ok (Some f0) ∧ deleted_at f0 = None ∧ scannable (status f0) = true ∧
      db w' = <[id := row]> (db w) ∧ row_status row = status_value READY ∧
      row_checksum row = sha_value <$> checksum f ∧ row_version row = version f0 + 1 ∧
      is_ready f = true ∧ same_bytes f0 (with_version f (version f0) (updated_at f)) ∧
      outbox w' = outbox w ++ [rec] ∧ announces rec ctx f ∧ objects w' = objects w.
Proof.
  intros Hok. unfold complete_and_publish.
  intros Hx%unit_of_work_Ok. apply eff_bind_Ok in Hx as ([f2 evs] & w1 & Hc & Hx).
  unfold CompleteUpload in Hc.
  apply eff_bind_Ok in Hc as (f0 & w2 & [Hget ->]%get_file_Ok & Hc).
  apply eff_bind_Ok in Hc as (sha & w3 & [Hsha ->]%lift_eff & Hc).
  apply eff_bind_Ok in Hc as (now & w4 & [Hn ->]%now_utc_Ok & Hc). apply Ok_inj in Hn as ->.
  apply eff_bind_Ok in Hc as (f1 & w5 & [Hf1 ->]%lift_eff & Hc).
  symmetry in Hf1. apply map_err_Ok, complete_Ok in Hf1 as (Hdel & Hscan & ->).
  apply eff_bind_Ok in Hc as (f3 & w6 & (d & Hsave & ->)%save_file_Ok & Hc).
  apply pair_equal_spec in Hc as [Hc <-]. apply Ok_inj, pair_equal_spec in Hc as [<- <-].
  apply save_Ok in Hsave as (row & Hrow & Hws & Hver & Hchk & -> & ->).
  destruct (get_Ok _ _ _ _ Hok Hget) as (Hval & Hdb & Hid & Hfws).
  apply eff_bind_Ok in Hx as (records & w7 & Hrec & Hx). cbn [snd outbox_records] in Hrec.
  apply eff_bind_Ok in Hrec as (rec & w8 & Hrec & Hrest).
  apply to_outbox_uploaded in Hrec as (payload & -> & Hpay & Hdb8 & Hob8 & Hobj8).
  apply eff_bind_Ok in Hrest as (nil_ & w9 & Hnil & Hrest).
  apply pair_equal_spec in Hnil as [Hnil <-]. apply Ok_inj in Hnil as <-.
  apply pair_equal_spec in Hrest as [Hrest <-]. apply Ok_inj in Hrest as <-.
  apply eff_bind_Ok in Hx as (u & w10 & Happ & Hx).
  apply pair_equal_spec in Happ as [_ <-]. apply pair_equal_spec in Hx as [Hx <-].
  apply Ok_inj in Hx as <-. cbn [db outbox fst].
  apply envelope_fields in Hpay as (Hp1 & Hp2 & Hp3 & Hp4 & Hp5).
  do 3 eexists. split_and!; [exact Hget|exact Hdel|exact Hscan|by rewrite Hdb8, <- Hid|..];
    try done.
  - unfold updated_row. cbn [row_version]. by rewrite Hver.
  - unfold is_ready. cbn [status deleted_at with_version with_state]. by rewrite Hdel.
  - by rewrite Hob8.
  - unfold announces. cbn. by split_and!.
Qed.

(** Completing an upload and announcing it are one event.  If the completion
    succeeds, the file was awaiting its bytes and not deleted, its row is now ready
    with the recorded checksum, no other row changed, and exactly one record was
    appended to the outbox, telling the consumer about this file under the event's
    own identifier; if it raises, neither the table nor the outbox changed. *)
Theorem completion_is_announced ctx id raw w r w' :
  db_ok (db w) → complete_and_publish ctx id raw w = (r, w') →
  match r with
  | Ok f => ∃ f0 row rec,
      get ctx id (db w) = Ok (Some f0) ∧ deleted_at f0 = None ∧ scannable (status f0) = true ∧
      db w' = <[id := row]> (db w) ∧ row_status row = status_value READY ∧
      row_checksum row = sha_value <$> checksum f ∧ row_version row = version f0 + 1 ∧
      is_ready f = true ∧ same_bytes f0 (with_version f (version f0) (updated_at f)) ∧
      outbox w' = outbox w ++ [rec] ∧ announces rec ctx f
  | Err _ => db w' = db w ∧ outbox w' = outbox w
  end.
Proof.
  intros Hok Hrun. destruct r as [f|e]; [|by eapply unit_of_work_Err].
  destruct (complete_and_publish_Ok _ _ _ _ _ _ Hok Hrun)
    as (f0 & row & rec & H1 & H2 & H3 & H4 & H5 & H6 & H7 & H8 & H9 & H10 & H11 & _).
  by exists f0, row, rec.
Qed.

(** ** A multipart file is ready only when its object is there *)

Lemma storage_inv {A} (u : S → result exn A * S) w r w' :
  storage u w = (r, w') →
  u (objects w) = (r, objects w') ∧ db w' = db w ∧ outbox w' = outbox w.
Proof. unfold storage. destruct (u (objects w)) as [r1 o]. naive_solver. Qed.

Lemma joined_earlier_Ok key size w u w' :
  joined_earlier key size w = (Ok u, w') →
  object_size key (objects w) = Ok (Some size) ∧ w' = w.
Proof.
  unfold joined_earlier. intros (s & w1 & [Hs ->]%storage_read_Ok & Hx)%eff_bind_Ok.
  apply lift_eff in Hx as [Hx ->]. symmetry in Hx. apply raise_if_Ok in Hx.
  apply bool_decide_eq_false in Hx. apply dec_stable in Hx. by subst.
Qed.

(** Neither the table nor the outbox is touched by the storage half. *)
Definition same_db w w' : Prop := db w' = db w ∧ outbox w' = outbox w.

Ltac same_db_step :=
  match goal with
  | |- (_ ≫= _) _ = _ → _ => eapply (eff_bind_inv (same_db _))
  | |- eff_catch _ _ _ _ = _ → _ => eapply (eff_catch_inv (same_db _))
  | |- eff_lift _ _ = _ → _ => intros [_ ->]%lift_eff
  | |- db_read _ _ = _ → _ => intros [_ ->]%db_read_Ok
  | |- storage_read _ _ = _ → _ => intros [_ ->]%storage_read_Ok
  | |- mret _ _ = _ → _ => intros [_ <-]%pair_equal_spec
  | |- eff_raise _ _ = _ → _ => intros [_ <-]%pair_equal_spec
  | |- (if ?b then _ else _) _ = _ → _ => destruct b
  | |- ∀ _, _ => intro
  end.

Lemma same_db_refl w : same_db w w.
Proof. done. Qed.

Lemma joined_earlier_db key size w0 w r w' :
  same_db w0 w → joined_earlier key size w = (r, w') → same_db w0 w'.
Proof. intros Hw. unfold joined_earlier. by repeat same_db_step. Qed.

Lemma storage_db {A} (u : S → result exn A * S) w0 w r w' :
  same_db w0 w → storage u w = (r, w') → same_db w0 w'.
Proof. intros [H1 H2] (_ & Hd & Ho)%storage_inv. split; congruence. Qed.

Lemma join_parts_db f m ps w0 w r w' :
  same_db w0 w → join_parts f m ps w = (r, w') → same_db w0 w'.
Proof.
  intros Hw. unfold join_parts.
  repeat (same_db_step; try done; eauto using storage_db, joined_earlier_db).
Qed.

Lemma assemble_db ctx id w r w' : assemble ctx id w = (r, w') → same_db w w'.
Proof.
  unfold assemble. apply (eff_bind_inv (same_db w)); [by repeat same_db_step|].
  intros [f|] w1 r1 w2 H1; [|by repeat same_db_step].
  destruct (multipart f) as [m|]; [|by repeat same_db_step].
  destruct (_ || _); [by repeat same_db_step|].
  destruct (negb _); [by repeat same_db_step|].
  apply (eff_bind_inv (same_db w)).
  - repeat (same_db_step; try done; eauto using joined_earlier_db).
  - intros [ps|] w3 r2 w4 H3; [|by repeat same_db_step]. by apply join_parts_db.
Qed.

Lemma join_parts_Ok f m ps w u w' :
  join_parts f m ps w = (Ok u, w') →
  object_size (sk_value (storage_key f)) (objects w') = Ok (Some (size_bytes f)).
Proof.
  unfold join_parts. intros (c & w1 & [_ ->]%lift_eff & Hx)%eff_bind_Ok.
  apply eff_bind_Ok in Hx as (u1 & w1 & [_ ->]%lift_eff & Hx).
  apply eff_bind_Ok in Hx as (b & w2 & Hc & Hx).
  apply eff_catch_Ok in Hc as [Hc|(e & w3 & _ & _ & Hh)].
  - apply eff_bind_Ok in Hc as (u2 & w3 & _ & Hc). apply pair_equal_spec in Hc as [Hc ->].
    apply Ok_inj in Hc as <-.
    apply eff_bind_Ok in Hx as (sz & w4 & [Hsz ->]%storage_read_Ok & Hx).
    apply lift_eff in Hx as [Hx ->]. symmetry in Hx. apply raise_if_Ok in Hx.
    apply bool_decide_eq_false in Hx. apply dec_stable in Hx. by subst.
  - apply eff_bind_Ok in Hh as (u2 & w4 & [Hsz ->]%joined_earlier_Ok & Hh).
    apply pair_equal_spec in Hh as [Hh <-]. apply Ok_inj in Hh as <-.
    by apply pair_equal_spec in Hx as [_ <-].
Qed.

Lemma assemble_Ok ctx id w u w' f m :
  get ctx id (db w) = Ok (Some f) → multipart f = Some m → status f = UPLOADED →
  deleted_at f = None → assemble ctx id w = (Ok u, w') →
  registered_by_caller ctx f = true ∧
  object_size (sk_value (storage_key f)) (objects w') = Ok (Some (size_bytes f)).
Proof.
  intros Hget Hm Hst Hdel Ha. unfold assemble in Ha.
  apply eff_bind_Ok in Ha as (o & w2 & [Ho ->]%db_read_Ok & Ha).
  rewrite Hget in Ho. apply Ok_inj in Ho as ->. rewrite Hm, Hst, Hdel in Ha. cbn in Ha.
  destruct (registered_by_caller ctx f); [|done]. cbn [negb] in Ha. split; [done|].
  apply eff_bind_Ok in Ha as (parts & w2 & Hp & Ha).
  apply eff_catch_Ok in Hp as [Hp|(e & w3 & _ & _ & Hh)].
  - apply eff_bind_Ok in Hp as (ps & w3 & _ & Hp). apply pair_equal_spec in Hp as [Hp <-].
    apply Ok_inj in Hp as <-. by eapply join_parts_Ok.
  - apply eff_bind_Ok in Hh as (? & w4 & [Hsz ->]%joined_earlier_Ok & Hh).
    apply pair_equal_spec in Hh as [Hh <-]. apply Ok_inj in Hh as <-.
    by apply pair_equal_spec in Ha as [_ <-].
Qed.

(** C6: a multipart file is never ready without its bytes.  If completing a file that
    was registered as a multipart upload succeeds, the caller is the user who
    registered it and storage holds an object of exactly the declared size under its
    key; and whenever completion raises -- parts missing, join refused, upload gone --
    the file stays as it was and nothing is announced. *)
Theorem multipart_ready_has_bytes ctx id raw w r w' f m :
  db_ok (db w) → get ctx id (db w) = Ok (Some f) → multipart f = Some m →
  status f = UPLOADED →
  complete_service ctx id raw w = (r, w') →
  match r with
  | Ok f' => registered_by_caller ctx f = true ∧ is_ready f' = true ∧
      object_size (sk_value (storage_key f)) (objects w') = Ok (Some (size_bytes f))
  | Err _ => db w' = db w ∧ outbox w' = outbox w
  end.
Proof.
  intros Hok Hget Hm Hst Hrun. unfold complete_service in Hrun. destruct r as [f'|e].
  - apply eff_bind_Ok in Hrun as ([] & w1 & Ha & Hc).
    pose proof (assemble_db _ _ _ _ _ Ha) as [Hdb Hob]. rewrite <- Hdb in Hok.
    destruct (complete_and_publish_Ok _ _ _ _ _ _ Hok Hc)
      as (f0 & row & rec & Hget' & Hdel & _ & _ & _ & _ & _ & Hready & _ & _ & _ & Hobj).
    rewrite Hdb, Hget in Hget'. apply Ok_inj in Hget'. injection Hget' as <-.
    rewrite Hobj. destruct (assemble_Ok _ _ _ _ _ _ _ Hget Hm Hst Hdel Ha). done.
  - apply eff_bind_Err in Hrun as [Ha|(u & w1 & Ha & Hc)]; [by eapply assemble_db|].
    apply assemble_db in Ha as [Hd Ho]. apply unit_of_work_Err in Hc as [Hd' Ho'].
    split; congruence.
Qed.

(** ** Replacement *)

(** What deleting does to a row: only [deleted_at], [version] and [updated_at] move. *)
Definition erased (r r' : FileRow) : Prop :=
  row_deleted_at r' ≠ None ∧ row_id r' = row_id r ∧ row_workspace_id r' = row_workspace_id r ∧
  row_name r' = row_name r ∧ row_content_type r' = row_content_type r ∧
  row_size_bytes r' = row_size_bytes r ∧ row_storage_key r' = row_storage_key r ∧
  row_checksum r' = row_checksum r ∧ row_status r' = row_status r ∧
  row_created_at r' = row_created_at r ∧ row_space_id r' = row_space_id r ∧
  row_tags r' = row_tags r.

Lemma soft_delete_fields now f :
  deleted_at (soft_delete now f) ≠ None ∧ name (soft_delete now f) = name f ∧
  checksum (soft_delete now f) = checksum f ∧ status (soft_delete now f) = status f ∧
  tags (soft_delete now f) = tags f ∧ version (soft_delete now f) = version f ∧
  file_id (soft_delete now f) = file_id f ∧ deleted_at (soft_delete now f) = Some (default now (deleted_at f)).
Proof. unfold soft_delete. destruct (deleted_at f) eqn:Hd; cbn; rewrite ?Hd; by split_and!. Qed.

Lemma deleted_row_checks now t f :
  row_checks (to_row f) = true → version f < INT4_MAX →
  row_checks (updated_row (soft_delete now f) t (to_row f)) = true.
Proof.
  destruct (soft_delete_fields now f) as (_ & Hn & Hc & Hs & Ht & Hv & _ & _).
  unfold row_checks, updated_row, to_row. rewrite Hn, Hc, Hs, Ht. cbn.
  rewrite !andb_true_iff, !Z.leb_le. intuition lia.
Qed.

Lemma delete_service_run ctx id w f :
  db_ok (db w) → get ctx id (db w) = Ok (Some f) → version f < INT4_MAX →
  ∃ f' row' w', delete_service ctx id w = (Ok f', w') ∧
    db w' = <[id := row']> (db w) ∧ outbox w' = outbox w ∧ objects w' = objects w ∧
    erased (to_row f) row' ∧ row_ok row'.
Proof.
  intros Hok Hget Hv. destruct (get_Ok _ _ _ _ Hok Hget) as (Hval & Hdb & Hid & Hws).
  destruct (proj1 Hok _ _ Hdb) as [_ [Hchk _]].
  destruct (soft_delete_fields (clock (fticks w)) f) as (Hd & Hn & Hc & Hs & Ht & Hver & Hfid & _).
  set (now := clock (fticks w)) in *. set (t := clock (1 + fticks w)).
  set (row' := updated_row (soft_delete now f) t (to_row f)).
  assert (row_checks row' = true) as Hchk' by by apply deleted_row_checks.
  assert (save ctx (soft_delete now f) t (db w) =
    Ok (with_version (soft_delete now f) (version f + 1) t, <[id := row']> (db w))) as Hsave.
  { unfold save. rewrite Hfid, Hid, Hdb. fold row'. rewrite Hchk', Hver.
    assert (in_workspace ctx (to_row f) = true) as -> by by apply bool_decide_eq_true.
    cbn [row_version to_row]. by rewrite Z.eqb_refl. }
  do 3 eexists. split.
  { unfold delete_service, unit_of_work, eff_atomic, SoftDeleteFile, get_file, save_file.
    unfold mbind, eff_bind, db_read, mret, eff_ret, now_utc, db_write. cbn [db outbox objects fticks fminted].
    rewrite Hget. cbn [db outbox objects fticks fminted]. fold now. fold t. rewrite Hsave.
    cbn [snd fst]. case_bool_decide; cbn [outbox_records to_outbox_record];
      unfold mbind, eff_bind, mret, eff_ret, outbox_append; cbn; rewrite app_nil_r; reflexivity. }
  cbn [db outbox objects]. split_and!; try done.
  - unfold erased, row', updated_row, to_row. cbn. rewrite Hn, Hc, Hs, Ht. by split_and!.
  - apply updated_row_ok; [by apply (proj1 Hok _ _ Hdb)| |done].
    destruct Hval as (V1 & V2 & V3 & V4 & V5 & V6). unfold file_valid.
    rewrite Hn, Hc, Ht. unfold soft_delete. destruct (deleted_at f); cbn; by split_and!.
Qed.

Lemma delete_keeps_ok d id row' f :
  db_ok d → d !! id = Some (to_row f) → row_ok row' → erased (to_row f) row' →
  db_ok (<[id := row']> d).
Proof.
  intros [Hok Hu] Hd Hro (_ & Hid & _ & _ & _ & _ & Hk & _). split.
  - intros j r Hj. apply lookup_insert_Some in Hj as [[<- <-]|[_ Hj]]; [|by apply Hok].
    split; [|done]. rewrite Hid. by apply (Hok _ _ Hd).
  - intros i j r t Hi Hj He.
    apply lookup_insert_Some in Hi as [[<- <-]|[Hni Hi]];
      apply lookup_insert_Some in Hj as [[<- <-]|[Hnj Hj]]; try done.
    + apply (Hu _ _ (to_row f) t); congruence.
    + apply (Hu _ _ r (to_row f)); congruence.
    + by apply (Hu _ _ r t).
Qed.

(** What a sweep over [ids] leaves of a row. *)
Definition swept (ids : list text) (d d' : FilesDb) : Prop :=
  ∀ j, match d !! j with
       | Some row => if bool_decide (j ∈ ids) then ∃ row', d' !! j = Some row' ∧ erased row row'
                     else d' !! j = Some row
       | None => d' !! j = None
       end.

Definition erase_one ctx (old : text) : fio S unit :=
  eff_catch (_ ← DeleteFile purge ctx old; mret tt) (λ _, true) (λ _, mret tt).

Definition erasable ctx (d : FilesDb) (j : text) : Prop :=
  ∃ f, get ctx j d = Ok (Some f) ∧ version f < INT4_MAX.

Lemma erase_one_run ctx j w :
  db_ok (db w) → erasable ctx (db w) j →
  ∃ f row' w', erase_one ctx j w = (Ok tt, w') ∧ db w !! j = Some (to_row f) ∧
    db w' = <[j := row']> (db w) ∧ outbox w' = outbox w ∧
    erased (to_row f) row' ∧ db_ok (db w').
Proof.
  intros Hok (f & Hget & Hv).
  destruct (delete_service_run ctx j w f Hok Hget Hv)
    as (f' & row' & w' & Hrun & Hdb & Hob & _ & He & Hro).
  destruct (get_Ok _ _ _ _ Hok Hget) as (_ & Hlook & _ & _).
  exists f, row', w'. split_and!; try done; [|rewrite Hdb; by eapply delete_keeps_ok].
  unfold erase_one, eff_catch, DeleteFile, mbind, eff_bind. rewrite Hrun.
  unfold eff_lift. by destruct (purge ctx j).
Qed.

Lemma sweep_loop ctx ids w :
  db_ok (db w) → NoDup ids → (∀ j, j ∈ ids → erasable ctx (db w) j) →
  ∃ w', eff_iter (erase_one ctx) ids w = (Ok tt, w') ∧
    outbox w' = outbox w ∧ swept ids (db w) (db w').
Proof.
  revert w. induction ids as [|j ids IH]; intros w Hok Hnd Her.
  { exists w. split_and!; [done|done|]. intros k. destruct (db w !! k); [|done].
    rewrite bool_decide_false by (by intros ?%elem_of_nil). done. }
  apply NoDup_cons in Hnd as [Hni Hnd].
  destruct (erase_one_run ctx j w Hok (Her j ltac:(left)))
    as (f & row' & w1 & Hrun & Hlook & Hdb & Hob & He & Hok1).
  destruct (IH w1 Hok1 Hnd) as (w' & Hloop & Hob' & Hsw).
  { intros k Hk. destruct (Her k ltac:(by right)) as (g & Hg & Hv). exists g. split; [|done].
    rewrite <- Hg. unfold get. rewrite Hdb, lookup_insert_ne; [done|]. intros ->. done. }
  exists w'. split_and!; [|congruence|].
  { cbn [eff_iter]. unfold mbind, eff_bind. by rewrite Hrun. }
  intros k. specialize (Hsw k). rewrite Hdb in Hsw.
  destruct (decide (k = j)) as [->|Hne].
  - rewrite lookup_insert_eq, bool_decide_false in Hsw by done. rewrite Hlook.
    rewrite bool_decide_true by left. eauto.
  - rewrite lookup_insert_ne in Hsw by done. destruct (db w !! k) as [row|]; [|done].
    case_bool_decide as H1; case_bool_decide as H2; try done; exfalso; set_solver.
Qed.

Lemma elem_of_namesakes ctx f d j :
  db_ok d → j ∈ live_namesakes ctx f d ↔
  ∃ r, d !! j = Some r ∧
    same_name ctx f r && same_tags f r && older r (created_at f) (file_id f) = true.
Proof.
  intros [Hok _]. unfold live_namesakes. rewrite list_elem_of_fmap.
  setoid_rewrite elem_of_rows_where. split.
  - intros (r & -> & Hp & id & Hid). destruct (Hok _ _ Hid) as [-> _]. eauto.
  - intros (r & Hr & Hp). exists r. destruct (Hok _ _ Hr) as [-> _]. eauto.
Qed.

Lemma older_irrefl r : older r (row_created_at r) (row_id r) = false.
Proof.
  unfold older. rewrite Z.ltb_irrefl, Z.eqb_refl. cbn. apply not_true_iff_false, text_lt_irrefl.
Qed.

(** A replacement deletes exactly what it replaces.  Sweeping for a file never
    raises, whatever the purge of the corpus does.  It soft-deletes every live file of
    the same workspace, space, name and tags that is strictly older, leaves every
    other row -- the file's own included -- untouched, announces nothing, and leaves
    no older namesake behind. *)
Theorem sweep_replaces_exactly ctx id w f :
  db_ok (db w) → get ctx id (db w) = Ok (Some f) →
  (∀ j r, db w !! j = Some r → row_version r < INT4_MAX) →
  ∃ w', sweep purge ctx id w = (Ok tt, w') ∧ outbox w' = outbox w ∧
    swept (live_namesakes ctx f (db w)) (db w) (db w') ∧
    db w' !! id = db w !! id ∧ live_namesakes ctx f (db w') = [].
Proof.
  intros Hok Hget Hmax. set (ids := live_namesakes ctx f (db w)).
  destruct (get_Ok _ _ _ _ Hok Hget) as (_ & Hlook & Hid & _).
  destruct (sweep_loop ctx ids w Hok) as (w' & Hloop & Hob & Hsw).
  { by apply rows_where_ids. }
  { intros j (r & Hr & Hp)%elem_of_namesakes; [|done].
    destruct (proj1 Hok _ _ Hr) as [_ Hro]. destruct (hydrate_valid _ Hro) as (g & Hg & _ & ->).
    exists g. split; [|by apply (Hmax _ _ Hr)]. unfold get. rewrite Hr, Hg.
    assert (in_workspace ctx (to_row g) = true) as -> by (unfold same_name in Hp; by unbool).
    done. }
  assert (db w' !! id = db w !! id) as Hself.
  { specialize (Hsw id). rewrite Hlook in *. rewrite bool_decide_false in Hsw; [done|].
    intros (r & Hr & Hp)%elem_of_namesakes; [|done]. rewrite Hlook in Hr. injection Hr as <-.
    apply andb_prop in Hp as [_ Ho]. pose proof (older_irrefl (to_row f)) as Hi.
    cbn in Hi. congruence. }
  exists w'. split_and!; try done.
  - unfold sweep, eff_catch, FindNamesakes, get_file, mbind, eff_bind, db_read, mret, eff_ret.
    rewrite Hget. fold ids. exact Hloop.
  - apply elem_of_nil_inv. intros j Hj. unfold live_namesakes in Hj.
    apply list_elem_of_fmap in Hj as (r & -> & Hj).
    apply elem_of_rows_where in Hj as [Hp [k Hk]]. specialize (Hsw k).
    destruct (db w !! k) as [row|] eqn:Hr; [|congruence]. case_bool_decide as Hin.
    + destruct Hsw as (row' & Hk' & Hdel & _). rewrite Hk in Hk'. injection Hk' as <-.
      unfold same_name, active in Hp. by unbool.
    + rewrite Hk in Hsw. injection Hsw as <-. apply Hin, elem_of_namesakes; eauto.
Qed.

(** ** The space's quota *)

Lemma rows_where_insert d id r p :
  d !! id = None →
  rows_where (<[id := r]> d) p ≡ₚ (if p r then [r] else []) ++ rows_where d p.
Proof.
  intros Hn. unfold rows_where. rewrite map_to_list_insert by done. cbn.
  by destruct (p r).
Qed.

Lemma register_Ok ctx space raw_name raw_type size mode raw_tags w f w' :
  RegisterUpload limits ctx space raw_name raw_type size mode raw_tags w = (Ok f, w') →
  0 ≤ size ≤ max_upload_bytes limits ∧ count ctx (db w) < max_files_per_workspace limits ∧
  (∀ s, space = Some s → space_is_active ctx s = true) ∧
  size_bytes f = size ∧ file_space_id f = space ∧ status f = UPLOADED ∧ deleted_at f = None ∧
  (mode = SINGLE → size ≤ max_single_put_bytes limits) ∧
  ∃ u, add ctx f (db w) = Ok (u, db w').
Proof.
  unfold RegisterUpload. intros (n & w1 & [_ ->]%lift_eff & Hx)%eff_bind_Ok.
  apply eff_bind_Ok in Hx as (ct & w1 & [_ ->]%lift_eff & Hx).
  apply eff_bind_Ok in Hx as (t & w1 & [_ ->]%lift_eff & Hx).
  apply eff_bind_Ok in Hx as (u & w1 & [Hchk ->]%db_read_Ok & Hx). symmetry in Hchk.
  apply eff_bind_Ok in Hx as (id & w1 & [_ ->]%mint_Ok & Hx).
  apply eff_bind_Ok in Hx as (key & w1 & [_ ->]%lift_eff & Hx).
  apply eff_bind_Ok in Hx as (session & w1 & Hses & Hx).
  apply eff_bind_Ok in Hx as (now & w2 & [_ ->]%now_utc_Ok & Hx).
  apply eff_bind_Ok in Hx as (v & w3 & (d & Hadd & ->)%db_write_Ok & Hx).
  apply pair_equal_spec in Hx as [Hf <-]. apply Ok_inj in Hf as <-.
  assert (db w1 = db w) as Hdb.
  { destruct mode; cbn [open_session] in Hses; [by apply pair_equal_spec in Hses as [_ <-]|].
    apply eff_bind_Ok in Hses as (i & w4 & (_ & Hd & _)%storage_inv & Hses).
    apply eff_bind_Ok in Hses as (m & w5 & [_ ->]%lift_eff & Hses).
    by apply pair_equal_spec in Hses as [_ <-]. }
  unfold check_upload in Hchk. unresult. unbool. cbn [db] in Hadd. rewrite Hdb in Hadd.
  cbn [size_bytes file_space_id status deleted_at db]. split_and!; try done; try lia.
  - intros s ->. by unbool.
  - intros ->. by unbool.
  - eauto.
Qed.

(** A space never holds more than its quota.  When a registration passes the
    quota service, then afterwards the active files of the space fit in the space's
    ceiling, the workspace is within its file cap, and the caller's file is filed
    under that space; when it is refused, no row was written. *)
Theorem quota_bounds_space ctx space raw_name raw_type size raw_tags w r w' :
  quota_register limits (transfer_register limits put_ttl) ctx space raw_name raw_type size
    raw_tags w = (r, w') →
  match r with
  | Ok (f, _) =>
      bytes_in_space ctx space (db w') ≤ max_space_bytes limits ∧
      count ctx (db w') ≤ max_files_per_workspace limits ∧
      file_space_id f = Some space ∧ space_is_active ctx space = true ∧
      bytes_in_space ctx space (db w') = bytes_in_space ctx space (db w) + size
  | Err _ => db w' = db w
  end.
Proof.
  unfold quota_register. destruct r as [[f url]|e]; [|by intros [? _]%unit_of_work_Err].
  intros Hx%unit_of_work_Ok.
  apply eff_bind_Ok in Hx as (u & w1 & [Hact ->]%lift_eff & Hx).
  apply eff_bind_Ok in Hx as (used & w1 & [Hused ->]%db_read_Ok & Hx).
  apply eff_bind_Ok in Hx as (u2 & w1 & [Hq ->]%lift_eff & Hx).
  apply eff_bind_Ok in Hx as (f1 & w1 & Hreg & Hx).
  apply eff_bind_Ok in Hx as (u3 & w2 & [_ ->]%storage_read_Ok & Hx).
  apply pair_equal_spec in Hx as [Hx <-]. apply Ok_inj, pair_equal_spec in Hx as [<- _].
  apply register_Ok in Hreg as (Hsz & Hcnt & Hs & Hfs & Hsp & _ & Hdel & _ & v & Hadd).
  apply Ok_inj in Hused as ->. symmetry in Hq. apply raise_if_Ok in Hq.
  rewrite (proj2 (Z.leb_le size _)) in Hq by lia. cbn [andb] in Hq. unbool.
  apply add_Ok in Hadd as (Hws & _ & Hn & _ & Hdb).
  assert (in_workspace ctx (to_row f1) = true) as Hin by by apply bool_decide_eq_true.
  assert (bytes_in_space ctx space (db w1) = bytes_in_space ctx space (db w) + size) as Hb.
  { unfold bytes_in_space. rewrite Hdb, rows_where_insert by done.
    unfold listed, active. rewrite Hin. cbn. rewrite Hdel, Hsp.
    rewrite !bool_decide_true by done. cbn. rewrite sumZ_cons, Hfs. lia. }
  split_and!; [lia| |done|by apply Hs|done].
  unfold count. rewrite Hdb, rows_where_insert by done. rewrite length_app.
  unfold count in Hcnt. destruct (_ && _); cbn; lia.
Qed.
End Correctness.
