(* ===== verification/FilesRace.v ===== *)
(** * Files: replacements that run at the same time

    [framework/di/file_replacement.py] holds no lock.  Any number of completions,
    renames and re-tags sweep concurrently; each first asks for the files it replaces
    and then erases them one by one, some of the erasures failing.  A step relation
    interleaves these steps; an erasure is whatever [DeleteFile] leaves of a row
    ([FilesApp.erased]). *)

From S2P Require Import Prelude Text Calendar Errors Framework Files Keyset Events Wire Cursor FilesStore FilesApp.

Open Scope Z_scope.

(** A greatest element above a given one, for any strict order on a list. *)
Section Greatest.
Context {A : Type} (R : A → A → bool).
Context (R_irrefl : ∀ x, R x x = false).
Context (R_trans : ∀ x y z, R x y = true → R y z = true → R x z = true).

Fixpoint greatest (x : A) (l : list A) : A :=
  match l with
  | [] => x
  | z :: l => if R (greatest x l) z then z else greatest x l
  end.

Lemma greatest_spec x l :
  (greatest x l = x ∨ greatest x l ∈ l ∧ R x (greatest x l) = true) ∧
  ∀ z, z ∈ l → R (greatest x l) z = false.
Proof.
  induction l as [|z l [IH1 IH2]]; cbn [greatest]; [split; [by left|by intros ? ?%elem_of_nil]|].
  destruct (R (greatest x l) z) eqn:Hz.
  - split.
    + right. split; [by left|]. destruct IH1 as [He|[_ Hx]]; [by rewrite <- He|by eapply R_trans].
    + intros y [->|Hy]%elem_of_cons; [done|]. apply not_true_iff_false. intros Hzy.
      specialize (IH2 y Hy). by rewrite (R_trans _ _ _ Hz Hzy) in IH2.
  - split.
    + destruct IH1 as [He|[Hin Hx]]; [by left|right; split; [by right|done]].
    + intros y [->|Hy]%elem_of_cons; [done|by apply IH2].
Qed.
End Greatest.

Section Race.
Context {U : Unicode} {UL : UnicodeLaws U} {K : Collation}.
Context (ctx : ExecutionContext).

(** The table, the sweeps that have asked, and the erasures still to come. *)
Record Sweeps := mk_Sweeps {
  table : FilesDb;
  asked : list text;
  pending : list (text * text)
}.

Inductive sweep_step (may_fail : bool) (sweepers : list text) : Sweeps → Sweeps → Prop :=
  | sweep_ask s id f :
      id ∈ sweepers → get ctx id (table s) = Ok (Some f) →
      sweep_step may_fail sweepers s
        (mk_Sweeps (table s) (id :: asked s)
           (((λ g, (id, g)) <$> live_namesakes ctx f (table s)) ++ pending s))
  | sweep_erase s id g r r' before after :
      pending s = before ++ (id, g) :: after →
      table s !! g = Some r → erased r r' → row_ok r' →
      sweep_step may_fail sweepers s
        (mk_Sweeps (<[g := r']> (table s)) (asked s) (before ++ after))
  | sweep_fail s id g before after :
      may_fail = true → pending s = before ++ (id, g) :: after →
      sweep_step may_fail sweepers s (mk_Sweeps (table s) (asked s) (before ++ after)).

(** The identity of a row: what no sweep ever changes. *)
Definition same_row (r r' : FileRow) : Prop :=
  row_id r' = row_id r ∧ row_workspace_id r' = row_workspace_id r ∧
  row_name r' = row_name r ∧ row_created_at r' = row_created_at r ∧
  row_space_id r' = row_space_id r ∧ row_tags r' = row_tags r ∧
  row_storage_key r' = row_storage_key r.

(** Two files of one workspace, space, name and tag set. *)
Definition same_class (r s : FileRow) : Prop :=
  in_workspace ctx r = true ∧ in_workspace ctx s = true ∧
  row_space_id r = row_space_id s ∧ name_key (row_name r) = name_key (row_name s) ∧
  row_tags r = row_tags s.

Definition row_before (r s : FileRow) : bool := older r (row_created_at s) (row_id s).

Lemma row_before_irrefl r : row_before r r = false.
Proof. apply older_irrefl. Qed.

Lemma row_before_iff r s :
  row_before r s = true ↔
  row_created_at r < row_created_at s ∨
  (row_created_at r = row_created_at s ∧ text_lt (row_id r) (row_id s)).
Proof.
  unfold row_before, older. by rewrite orb_true_iff, andb_true_iff, Z.ltb_lt, Z.eqb_eq.
Qed.

Lemma row_before_trans r s t :
  row_before r s = true → row_before s t = true → row_before r t = true.
Proof.
  rewrite !row_before_iff. intros [?|[? ?]] [?|[? ?]]; [left; lia..|].
  right. split; [congruence|by eapply text_lt_trans].
Qed.

Lemma row_before_total r s :
  row_id r ≠ row_id s → row_before r s = true ∨ row_before s r = true.
Proof.
  rewrite !row_before_iff. intros Hne.
  destruct (Z.lt_trichotomy (row_created_at r) (row_created_at s)) as [?|[?|?]]; [auto| |auto].
  destruct (text_lt_total (row_id r) (row_id s)) as [?|[?|?]]; [auto|done|auto].
Qed.

Lemma same_row_refl r : same_row r r.
Proof. by unfold same_row. Qed.

Lemma same_row_trans r s t : same_row r s → same_row s t → same_row r t.
Proof. unfold same_row. intuition congruence. Qed.

Lemma erased_same_row r r' : erased r r' → same_row r r'.
Proof. unfold erased, same_row. intuition congruence. Qed.

Lemma same_class_ext r r' s s' :
  same_row r r' → same_row s s' → same_class r' s' → same_class r s.
Proof.
  unfold same_row, same_class, in_workspace. rewrite !bool_decide_eq_true.
  intuition congruence.
Qed.

Lemma row_before_ext r r' s s' :
  same_row r r' → same_row s s' → row_before r' s' = true → row_before r s = true.
Proof.
  rewrite !row_before_iff. intros (-> & _ & _ & -> & _) (-> & _ & _ & -> & _). done.
Qed.

Lemma namesake_facts d f j :
  db_ok d → file_workspace_id f = workspace_id ctx →
  j ∈ live_namesakes ctx f d ↔
  ∃ r, d !! j = Some r ∧ active r = true ∧ same_class r (to_row f) ∧
    row_before r (to_row f) = true.
Proof.
  intros Hok Hws. rewrite elem_of_namesakes by done.
  assert (in_workspace ctx (to_row f) = true) as Hin by by apply bool_decide_eq_true.
  unfold same_name, same_tags, in_space, same_class, row_before. cbn [row_created_at row_id to_row].
  split.
  - intros (r & Hr & Hp). unbool. exists r. by split_and!.
  - intros (r & Hr & Ha & (Hw & _ & Hs & Hn & Ht) & Ho). exists r. split; [done|].
    rewrite Hw, Ha, Ho, !bool_decide_true by done. done.
Qed.

Context (start : FilesDb) (start_ok : db_ok start) (sweepers : list text).
Context (sweepers_live : ∀ id, id ∈ sweepers → ∃ r, start !! id = Some r ∧ active r = true).

(** How a table came from [start]: rows keep their identity, and a row that lost its
    life lost it to a strictly newer one of its class that was live at the start. *)
Definition derived (d : FilesDb) : Prop :=
  ∀ j, match start !! j with
       | None => d !! j = None
       | Some r0 => ∃ r, d !! j = Some r ∧ same_row r0 r ∧
           (active r = true → active r0 = true) ∧
           (active r0 = true → active r = false →
            ∃ k s0, start !! k = Some s0 ∧ active s0 = true ∧ same_class r0 s0 ∧
              row_before r0 s0 = true)
       end.

Definition due (d : FilesDb) (p : text * text) : Prop :=
  ∃ s0 r0, start !! p.1 = Some s0 ∧ active s0 = true ∧ start !! p.2 = Some r0 ∧
    same_class r0 s0 ∧ row_before r0 s0 = true.

(** Nothing older than a sweep that has asked is live, unless its erasure is due. *)
Definition complete_asked (s : Sweeps) : Prop :=
  ∀ id s0 j r, id ∈ asked s → start !! id = Some s0 → table s !! j = Some r →
    active r = true → same_class r s0 → row_before r s0 = true → (id, j) ∈ pending s.

Definition sweeps_ok (may_fail : bool) (s : Sweeps) : Prop :=
  db_ok (table s) ∧ derived (table s) ∧ Forall (due (table s)) (pending s) ∧
  (may_fail = false → complete_asked s).

Lemma derived_lookup d j r :
  derived d → d !! j = Some r → ∃ r0, start !! j = Some r0 ∧ same_row r0 r ∧
    (active r = true → active r0 = true).
Proof.
  intros Hd Hr. specialize (Hd j). destruct (start !! j) as [r0|]; [|congruence].
  destruct Hd as (r' & Hr' & ? & ? & _). rewrite Hr in Hr'. injection Hr' as <-. eauto.
Qed.

Lemma erased_inactive r r' : erased r r' → active r' = false.
Proof. intros [Hd _]. unfold active. by apply bool_decide_eq_false. Qed.

Lemma ask_ok may_fail s id f :
  sweeps_ok may_fail s → id ∈ sweepers → get ctx id (table s) = Ok (Some f) →
  sweeps_ok may_fail (mk_Sweeps (table s) (id :: asked s)
    (((λ g, (id, g)) <$> live_namesakes ctx f (table s)) ++ pending s)).
Proof.
  intros (Hok & Hd & Hp & Hc) Hid Hget.
  destruct (get_Ok _ _ _ _ Hok Hget) as (_ & Hlook & _ & Hws).
  destruct (derived_lookup _ _ _ Hd Hlook) as (s0 & Hs0 & Hsame & _).
  destruct (sweepers_live id Hid) as (s0' & Hs0' & Hact).
  rewrite Hs0 in Hs0'. injection Hs0' as <-.
  split_and!; try done; cbn [table pending asked].
  - apply Forall_app. split; [|done]. apply Forall_forall. intros p Hp'.
    apply list_elem_of_fmap in Hp' as (j & -> & Hj).
    apply namesake_facts in Hj as (r & Hr & _ & Hcl & Hb); [|done..].
    destruct (derived_lookup _ _ _ Hd Hr) as (r0 & Hr0 & Hsr & _).
    exists s0, r0. split_and!; try done; [by eapply same_class_ext|by eapply row_before_ext].
  - intros Hf id' s0' j r [->|Hid']%elem_of_cons Hs0' Hr Ha Hcl Hb; apply elem_of_app.
    + left. apply list_elem_of_fmap. exists j. split; [done|].
      rewrite Hs0 in Hs0'. injection Hs0' as <-.
      apply namesake_facts; [done..|]. exists r. split_and!; try done.
      * unfold same_class, in_workspace in *. rewrite !bool_decide_eq_true in *.
        unfold same_row in Hsame. intuition congruence.
      * rewrite row_before_iff in *. destruct Hsame as (-> & _ & _ & -> & _). done.
    + right. by eapply (Hc Hf).
Qed.

Lemma erase_ok may_fail s id g r r' before after :
  sweeps_ok may_fail s → pending s = before ++ (id, g) :: after →
  table s !! g = Some r → erased r r' → row_ok r' →
  sweeps_ok may_fail (mk_Sweeps (<[g := r']> (table s)) (asked s) (before ++ after)).
Proof.
  intros (Hok & Hd & Hp & Hc) Hpend Hr He Hro.
  pose proof (erased_same_row _ _ He) as Hsame.
  pose proof Hp as Hall. rewrite Hpend in Hp. apply Forall_app in Hp as [Hb Ha].
  apply Forall_cons in Ha as [(s0 & r0 & Hs0 & Hact & Hr0 & Hcl & Hbef) Ha].
  split_and!; cbn [table pending asked].
  - destruct (proj1 Hok _ _ Hr) as [_ (_ & f & _ & Hf)].
    apply (delete_keeps_ok _ _ _ f); congruence.
  - intros j. specialize (Hd j). destruct (start !! j) as [q0|] eqn:Hq.
    + destruct Hd as (q & Hq' & Hs & Hl & Hk). destruct (decide (g = j)) as [->|Hne].
      * rewrite lookup_insert_eq. exists r'. cbn in Hr0. rewrite Hr0 in Hq. injection Hq as <-.
        rewrite Hr in Hq'. injection Hq' as <-.
        split_and!; [done|by eapply same_row_trans| |eauto 6].
        by rewrite (erased_inactive _ _ He).
      * rewrite lookup_insert_ne by done. by exists q.
    + rewrite lookup_insert_ne; [done|]. intros ->. congruence.
  - by apply Forall_app.
  - intros Hf id' s0' j q Hid' Hs0' Hq Hqa Hqc Hqb. cbn [table asked pending] in *.
    destruct (decide (g = j)) as [->|Hne].
    { rewrite lookup_insert_eq in Hq. injection Hq as <-.
      by rewrite (erased_inactive _ _ He) in Hqa. }
    rewrite lookup_insert_ne in Hq by done.
    pose proof (Hc Hf id' s0' j q Hid' Hs0' Hq Hqa Hqc Hqb) as Hin.
    rewrite Hpend in Hin. set_solver.
Qed.

Lemma fail_ok s id g before after :
  sweeps_ok true s → pending s = before ++ (id, g) :: after →
  sweeps_ok true (mk_Sweeps (table s) (asked s) (before ++ after)).
Proof.
  intros (Hok & Hd & Hp & Hc) Hpend. split_and!; try done. cbn.
  rewrite Hpend in Hp. apply Forall_app in Hp as [Hb Ha].
  apply Forall_cons in Ha as [_ Ha]. by apply Forall_app.
Qed.

Definition sweeps_start : Sweeps := mk_Sweeps start [] [].

Lemma sweeps_reachable may_fail s :
  rtc (sweep_step may_fail sweepers) sweeps_start s → sweeps_ok may_fail s.
Proof.
  apply rtc_invariant.
  - intros x y Hx Hxy. inversion Hxy; subst;
      [by eapply ask_ok|by eapply erase_ok|by eapply fail_ok].
  - split_and!; [done| |constructor|by intros _ ? ? ? ? ?%elem_of_nil].
    intros j. cbn. destruct (start !! j) as [r0|]; [|done]. exists r0.
    split_and!; [done|apply same_row_refl|done|]. intros -> [=].
Qed.

#[local] Instance same_class_dec r t : base.Decision (same_class r t).
Proof. unfold same_class. apply _. Defined.

Lemma same_class_sym r t : same_class r t → same_class t r.
Proof. unfold same_class. intuition congruence. Qed.

Lemma same_class_trans r t q : same_class r t → same_class t q → same_class r q.
Proof. unfold same_class. intuition congruence. Qed.

(** C5: replacements never destroy each other.  However any number of concurrent
    sweeps interleave, and whichever erasures fail, every name keeps a live file: for
    each file live at the start there is, at every later moment, a live file of the
    same workspace, space, name and tags that is that file or a newer one. *)
Theorem a_newest_file_survives may_fail s j r0 :
  rtc (sweep_step may_fail sweepers) sweeps_start s →
  start !! j = Some r0 → active r0 = true → in_workspace ctx r0 = true →
  ∃ k t0 t, start !! k = Some t0 ∧ table s !! k = Some t ∧ active t = true ∧
    same_class r0 t0 ∧ (t0 = r0 ∨ row_before r0 t0 = true).
Proof.
  intros (_ & Hd & _)%sweeps_reachable Hr0 Ha0 Hw0.
  set (l := rows_where start (λ r, active r && bool_decide (same_class r0 r))).
  destruct (greatest_spec row_before row_before_irrefl row_before_trans r0 l) as [Hg Hmax].
  set (t0 := greatest row_before r0 l) in *.
  assert (same_class r0 t0 ∧ active t0 = true ∧ (∃ k, start !! k = Some t0) ∧
    (t0 = r0 ∨ row_before r0 t0 = true)) as (Hcl & Hact & (k & Hk) & Hor).
  { destruct Hg as [->|[Hin Hb]].
    - split_and!; [by unfold same_class|done|by exists j|by left].
    - apply elem_of_rows_where in Hin as [Hp Hex]. unbool. split_and!; auto. }
  pose proof (Hd k) as Hdk. rewrite Hk in Hdk. destruct Hdk as (t & Ht & _ & _ & Hdead).
  exists k, t0, t. split_and!; try done.
  destruct (active t) eqn:Hta; [done|]. exfalso.
  destruct (Hdead Hact eq_refl) as (k' & q & Hq & Hqa & Hqc & Hqb).
  assert (q ∈ l) as Hin.
  { apply elem_of_rows_where. split; [|by exists k']. rewrite Hqa. apply bool_decide_eq_true.
    by eapply same_class_trans. }
  specialize (Hmax q Hin). congruence.
Qed.

(** And they converge.  Once every sweep's erasures are done, none having failed,
    and every file still live has been swept for, each workspace, space, name and tag
    set has at most one live file: the replacement rule holds without any lock. *)
Theorem replacements_converge s :
  rtc (sweep_step false sweepers) sweeps_start s →
  pending s = [] →
  (∀ j r, table s !! j = Some r → active r = true → in_workspace ctx r = true → j ∈ asked s) →
  ∀ i j r t, table s !! i = Some r → table s !! j = Some t →
    active r = true → active t = true → same_class r t → i = j.
Proof.
  intros (Hok & Hd & _ & Hc)%sweeps_reachable Hpend Hall i j r t Hr Ht Har Hat Hcl.
  destruct (proj1 Hok _ _ Hr) as [Hir _]. destruct (proj1 Hok _ _ Ht) as [Hjt _].
  assert (∀ i j r t, table s !! i = Some r → table s !! j = Some t → active r = true →
    active t = true → same_class r t → row_before r t = true → False) as Hno.
  { clear i j r t Hr Ht Har Hat Hcl Hir Hjt. intros i j r t Hr Ht Har Hat Hcl Hb.
    destruct (derived_lookup _ _ _ Hd Ht) as (t0 & Ht0 & Hst & _).
    assert (in_workspace ctx t = true) as Hwt by (unfold same_class in Hcl; tauto).
    pose proof (Hc eq_refl j t0 i r (Hall _ _ Ht Hat Hwt) Ht0 Hr Har) as Hin.
    rewrite Hpend in Hin. apply (not_elem_of_nil (j, i)), Hin.
    - unfold same_class, in_workspace in *. rewrite !bool_decide_eq_true in *.
      unfold same_row in Hst. intuition congruence.
    - unfold same_row in Hst. destruct Hst as (Hi' & _ & _ & Hc' & _).
      apply row_before_iff. apply row_before_iff in Hb. rewrite <- Hi', <- Hc'. exact Hb. }
  destruct (decide (i = j)) as [|Hne]; [done|exfalso].
  destruct (row_before_total r t) as [Hb|Hb]; [congruence| |].
  - exact (Hno i j r t Hr Ht Har Hat Hcl Hb).
  - exact (Hno j i t r Ht Hr Hat Har (same_class_sym _ _ Hcl) Hb).
Qed.
End Race.

(** ** Witnesses: two uploads of one name *)

#[export] Instance ascii_collation : Collation := {| name_key t := ascii_lower <$> t |}.

Definition two_files_file (id key : text) (t : instant) : File :=
  mk_File id (txt "ws1") None (mk_FileName (txt "report.pdf"))
    (mk_ContentType (txt "application/pdf")) 10 (mk_StorageKey key) None READY
    None t t None 1 None no_tags.

Definition file_a : File := two_files_file (txt "a") (txt "ws1/a") 1.
Definition file_b : File := two_files_file (txt "b") (txt "ws1/b") 2.
Definition two_files : FilesDb := {[ txt "a" := to_row file_a; txt "b" := to_row file_b ]}.

Lemma two_files_lookup j r :
  two_files !! j = Some r → (j = txt "a" ∧ r = to_row file_a) ∨ (j = txt "b" ∧ r = to_row file_b).
Proof.
  unfold two_files. rewrite lookup_insert_Some, lookup_singleton_Some. naive_solver.
Qed.

Lemma two_files_valid f : f = file_a ∨ f = file_b → file_valid f ∧ row_checks (to_row f) = true.
Proof. intros [-> | ->]; (split; [repeat split; vm_compute; reflexivity|vm_compute; reflexivity]). Qed.

Lemma two_files_ok : db_ok two_files.
Proof.
  split.
  - intros j r [[-> ->]|[-> ->]]%two_files_lookup; (split; [done|]); split.
    1, 3: apply two_files_valid; auto.
    + exists file_a. split; [apply two_files_valid; auto|done].
    + exists file_b. split; [apply two_files_valid; auto|done].
  - intros i j r t [[-> ->]|[-> ->]]%two_files_lookup [[-> ->]|[-> ->]]%two_files_lookup He;
      try done; vm_compute in He; discriminate.
Qed.

Lemma two_files_live id : id ∈ [txt "b"] → ∃ r, two_files !! id = Some r ∧ active r = true.
Proof. intros ->%list_elem_of_singleton. exists (to_row file_b). split; vm_compute; reflexivity. Qed.

Definition erased_a : FileRow := updated_row (soft_delete 5 file_a) 6 (to_row file_a).
Definition two_files_end : Sweeps :=
  mk_Sweeps (<[txt "a" := erased_a]> two_files) [txt "b"] [].

Lemma two_files_run may_fail :
  rtc (sweep_step demo_ctx may_fail [txt "b"]) (sweeps_start two_files) two_files_end.
Proof.
  eapply rtc_l.
  - apply (sweep_ask demo_ctx may_fail [txt "b"] (sweeps_start two_files) (txt "b") file_b); [left|].
    vm_compute. reflexivity.
  - eapply rtc_l; [|apply rtc_refl].
    assert (live_namesakes demo_ctx file_b two_files = [txt "a"]) as Hl by (vm_compute; reflexivity).
    cbn [sweeps_start table asked pending]. rewrite Hl.
    refine (sweep_erase demo_ctx may_fail [txt "b"]
      (mk_Sweeps two_files [txt "b"] [(txt "b", txt "a")])
      (txt "b") (txt "a") (to_row file_a) erased_a [] [] _ _ _ _).
    + reflexivity.
    + vm_compute. reflexivity.
    + unfold erased. split_and!; vm_compute; congruence.
    + apply updated_row_ok; [by apply (proj1 two_files_ok (txt "a"))| |vm_compute; reflexivity].
      repeat split; vm_compute; reflexivity.
Qed.

Example a_newest_file_survives_witness :
  ∃ k t, table two_files_end !! k = Some t ∧ active t = true.
Proof.
  destruct (a_newest_file_survives demo_ctx two_files two_files_ok [txt "b"] two_files_live true
    two_files_end (txt "a") (to_row file_a) (two_files_run true)
    ltac:(vm_compute; reflexivity) ltac:(vm_compute; reflexivity) ltac:(vm_compute; reflexivity))
    as (k & t0 & t & _ & Ht & Ha & _).
  by exists k, t.
Defined.

Example replacements_converge_witness :
  pending two_files_end = [] ∧ txt "b" = txt "b".
Proof.
  split; [reflexivity|].
  refine (replacements_converge demo_ctx two_files two_files_ok [txt "b"] two_files_live
    two_files_end (two_files_run false) eq_refl _ (txt "b") (txt "b") (to_row file_b)
    (to_row file_b) _ _ _ _ _).
  - intros k r Hk Hr _. cbn in Hk. apply lookup_insert_Some in Hk as [[<- <-]|[Hne Hk]].
    + vm_compute in Hr. discriminate.
    + apply two_files_lookup in Hk as [[-> _]|[-> _]]; [by destruct Hne|left].
  - vm_compute. reflexivity.
  - vm_compute. reflexivity.
  - vm_compute. reflexivity.
  - vm_compute. reflexivity.
  - split_and!; vm_compute; reflexivity.
Defined.
