(* ===== verification/FilesDemo.v ===== *)
(** * Files: worked examples

    A concrete object store and concrete runs at which the hypotheses of the theorems
    of [FilesStore] and [FilesApp] hold. *)

From S2P Require Import Prelude Text Calendar Errors Framework Files Keyset Events Wire Cursor FilesStore FilesApp FilesRace.

Open Scope Z_scope.

(** Objects by key; every upload holds one part of 100 bytes. *)
#[export] Instance demo_storage : ObjectStorage (gmap text Z) := {|
  start_multipart _ _ o := (Ok (txt "up"), o);
  list_parts _ _ _ := Ok [mk_StoredPart 1 100 (txt "etag")];
  complete_multipart key _ ps o := (Ok tt, <[key := sumZ (part_size <$> ps)]> o);
  object_size key o := Ok (o !! key);
  delete_object key o := (Ok tt, delete key o);
  presign_put key _ _ _ := Ok key;
  presign_get key _ _ := Ok key;
  presign_upload_part key _ _ _ _ := Ok key
|}.

#[export] Instance all_spaces : ActiveSpaces := {| space_is_active _ _ := true |}.
#[local] Instance files_env : Env := demo_env 1000.

Definition demo_user : ExecutionContext :=
  mk_ExecutionContext (txt "ws1") (Some (txt "u1")) (txt "corr") [] None.

Definition demo_limits : Limits :=
  mk_Limits [txt "application/pdf"] 1073741824 52428800 16777216 10000 1000.

Definition files_world (d : FilesDb) : FilesWorld (gmap text Z) := mk_FilesWorld d [] ∅ 0 0.

Definition multipart_file : File :=
  mk_File (txt "m") (txt "ws1") None (mk_FileName (txt "big.pdf"))
    (mk_ContentType (txt "application/pdf")) 100 (mk_StorageKey (txt "ws1/m")) None UPLOADED
    (Some (txt "u1")) 1 1 None 1 (Some (mk_MultipartUpload (txt "up") 5242880)) no_tags.

Definition multipart_db : FilesDb := {[ txt "m" := to_row multipart_file ]}.

Lemma multipart_db_ok : db_ok multipart_db.
Proof.
  unfold multipart_db. split.
  - intros j r [<- <-]%lookup_singleton_Some. split; [done|]. split; [vm_compute; reflexivity|].
    exists multipart_file. split; [repeat split; vm_compute; reflexivity|done].
  - intros i j r t [<- _]%lookup_singleton_Some [<- _]%lookup_singleton_Some _. done.
Qed.

Definition completed := complete_service demo_user (txt "m") None (files_world multipart_db).
Definition published := complete_and_publish demo_user (txt "m") None (files_world multipart_db).

Example completion_is_announced_witness :
  is_ok published.1 = true ∧
  match published.1 with
  | Ok f => ∃ rec, outbox published.2 = [] ++ [rec] ∧ announces rec demo_user f
  | Err _ => False
  end.
Proof.
  assert (is_ok published.1 = true) as Hok by (vm_compute; reflexivity).
  split; [exact Hok|].
  pose proof (completion_is_announced demo_user (txt "m") None (files_world multipart_db)
    published.1 published.2 multipart_db_ok (surjective_pairing _)) as Ht.
  destruct published.1 as [f|e]; [|discriminate Hok].
  destruct Ht as (_ & _ & rec & _ & _ & _ & _ & _ & _ & _ & _ & _ & Hout & Hann).
  exists rec. exact (conj Hout Hann).
Defined.

Example multipart_ready_has_bytes_witness :
  object_size (txt "ws1/m") (objects completed.2) = Ok (Some 100).
Proof.
  assert (is_ok completed.1 = true) as Hok by (vm_compute; reflexivity).
  pose proof (multipart_ready_has_bytes demo_user (txt "m") None (files_world multipart_db)
    completed.1 completed.2 multipart_file (mk_MultipartUpload (txt "up") 5242880)
    multipart_db_ok ltac:(vm_compute; reflexivity) eq_refl eq_refl (surjective_pairing _)) as Ht.
  destruct completed.1 as [f|e]; [|discriminate Hok]. exact (proj2 (proj2 Ht)).
Defined.

Example sweep_replaces_exactly_witness :
  ∃ w', sweep (λ _ _, Ok 0) demo_ctx (txt "b") (files_world two_files) = (Ok tt, w') ∧
    live_namesakes demo_ctx file_b (db w') = [].
Proof.
  destruct (sweep_replaces_exactly (λ _ _, Ok 0) demo_ctx (txt "b") (files_world two_files) file_b
    two_files_ok ltac:(vm_compute; reflexivity)
    ltac:(intros j r [[_ ->]|[_ ->]]%two_files_lookup; vm_compute; reflexivity))
    as (w' & Hs & _ & _ & _ & Hn).
  by exists w'.
Defined.

Definition registered :=
  quota_register demo_limits (transfer_register demo_limits 900) demo_user (txt "s1")
    (txt "a.pdf") (txt "application/pdf") 999 None (files_world ∅).

Example quota_bounds_space_witness :
  is_ok registered.1 = true ∧ bytes_in_space demo_user (txt "s1") (db registered.2) ≤ 1000.
Proof.
  assert (is_ok registered.1 = true) as Hok by (vm_compute; reflexivity).
  split; [exact Hok|].
  pose proof (quota_bounds_space demo_limits 900 demo_user (txt "s1") (txt "a.pdf")
    (txt "application/pdf") 999 None (files_world ∅) registered.1 registered.2
    (surjective_pairing _)) as Ht.
  destruct registered.1 as [[f u]|e]; [|discriminate Hok]. exact (proj1 Ht).
Defined.

(** A second tenant with a file of the same name. *)
Definition other_ctx : ExecutionContext := mk_ExecutionContext (txt "ws2") None (txt "corr") [] None.
Definition file_c : File :=
  mk_File (txt "c") (txt "ws2") (file_space_id file_a) (name file_a) (content_type file_a) 7 (mk_StorageKey (txt "ws2/c"))
    None READY (Some (txt "u2")) 1 1 None 1 None no_tags.
Definition two_tenants : FilesDb := (unwrap (tt, ∅) (add other_ctx file_c two_files)).2.

Lemma two_tenants_Ok : add other_ctx file_c two_files = Ok (tt, two_tenants).
Proof. unfold two_tenants. vm_compute. reflexivity. Qed.

Lemma two_tenants_ok : db_ok two_tenants.
Proof. eapply add_keeps; [exact two_files_ok| |exact two_tenants_Ok]. repeat split; vm_compute; reflexivity. Qed.

Example tenants_are_isolated_witness :
  size two_tenants = 3%nat ∧ count demo_ctx two_tenants = 2 ∧ count demo_ctx (own demo_ctx two_tenants) = 2 ∧
  ready_names demo_ctx [txt "c"] (own demo_ctx two_tenants) = ∅ ∧ ready_names demo_ctx [txt "c"] two_tenants = ∅ ∧
  is_ok (save other_ctx (soft_delete 5 file_c) 6 two_tenants) = true ∧
  own demo_ctx (unwrap (file_c, ∅) (save other_ctx (soft_delete 5 file_c) 6 two_tenants)).2 = own demo_ctx two_tenants.
Proof.
  pose proof (tenants_are_isolated demo_ctx two_tenants two_tenants_ok) as (_ & _ & Hc & _ & _ & Hn & _).
  pose proof (tenants_are_isolated other_ctx two_tenants two_tenants_ok) as (_ & _ & _ & _ & _ & _ & _ & _ & _ & _ & Hw).
  split; [vm_compute; reflexivity|]. split; [vm_compute; reflexivity|]. split; [rewrite <- Hc; vm_compute; reflexivity|].
  split; [rewrite <- Hn; vm_compute; reflexivity|]. split; [vm_compute; reflexivity|]. split; [vm_compute; reflexivity|].
  destruct (Hw demo_ctx ltac:(discriminate)) as (_ & Hs & _).
  apply (Hs (soft_delete 5 file_c) 6 (unwrap (file_c, ∅) (save other_ctx (soft_delete 5 file_c) 6 two_tenants)).1).
  rewrite <- surjective_pairing. refine (unwrap_Ok _ _ _). vm_compute. reflexivity.
Defined.

Definition saved : result exn (File * FilesDb) :=
  save demo_ctx (soft_delete 5 file_a) 6 two_files.

Example save_is_compare_and_set_witness :
  save demo_ctx file_a 7 (unwrap (file_a, ∅) saved).2 = Err (App (raise_class ConflictError)).
Proof.
  refine (proj2 (proj2 (save_is_compare_and_set demo_ctx (soft_delete 5 file_a) 6 two_files
    (unwrap (file_a, ∅) saved).1 (unwrap (file_a, ∅) saved).2 two_files_ok _)) file_a 7 eq_refl eq_refl).
  rewrite <- surjective_pairing. refine (unwrap_Ok _ _ _). vm_compute. reflexivity.
Defined.

Example stored_files_stay_readable_witness :
  ∃ f, get demo_ctx (txt "a") (<[txt "a" := to_row file_a]> ∅) = Ok (Some f).
Proof.
  destruct (stored_files_stay_readable (<[txt "a" := to_row file_a]> ∅)) as (Hread & _ & _).
  - apply rtc_once. apply (store_add demo_ctx file_a tt); [apply two_files_valid; by left|].
    vm_compute. reflexivity.
  - destruct (Hread demo_ctx (txt "a") (to_row file_a)) as (f & _ & _ & _ & Hf).
    + apply lookup_insert_eq.
    + rewrite Hf. case_bool_decide as Hw; [by exists f|].
      exfalso. revert Hf. vm_compute. discriminate.
Defined.

Definition newer_deleted : FilesDb :=
  <[txt "b" := updated_row (soft_delete 5 file_b) 6 (to_row file_b)]> two_files.

(** A sweep does not ask whether its own file is still alive.  If the newer upload
    is deleted between its completion and its sweep, the sweep still destroys the older
    one, and the name is left with no live file at all. *)
Theorem sweep_of_a_deleted_file :
  let w' := (sweep (S := gmap text Z) (λ _ _, Ok 0) demo_ctx (txt "b") (files_world newer_deleted)).2 in
  (active <$> newer_deleted !! txt "a") = Some true ∧
  (active <$> db w' !! txt "a") = Some false ∧ (active <$> db w' !! txt "b") = Some false.
Proof. cbn zeta. split_and!; vm_compute; reflexivity. Qed.
