(* ===== verification/ZSets.v ===== *)
(** * ZSets: the sorted sets of a Redis server

    The commands the admission scripts of [infrastructure/cache/redis_rate_limiter.py] and
    [infrastructure/streaming/redis_connection_registry.py] use, as a type class with their
    documented behaviour as laws: a set maps members to integer scores, a key that got
    [PEXPIRE] vanishes when the server's clock reaches its instant.  The server runs a
    script from its first command to its last with nothing in between, and its clock
    stands still meanwhile. *)

From S2P Require Import Prelude Text.
From stdpp Require Import gmap.

Open Scope Z_scope.

Abbreviation zset := (gmap text Z).

Class ZServer (S : Type) := {
  zget : S → text → zset;
  expires : S → text → option Z;
  now_ms : S → Z;
  zremrangebyscore : text → Z → S → S;
  zadd : text → Z → text → S → S;
  zadd_xx_gt : text → Z → text → S → S;
  zrem : text → text → S → S;
  pexpire : text → Z → S → S;
  pass_time : Z → S → S
}.

(** [ZREMRANGEBYSCORE key -inf max]: the scores above [max] stay. *)
Definition keep_above (max : Z) (z : zset) : zset := filter (λ e, max < e.2) z.

(** [ZRANGE key 0 0 WITHSCORES]: the least score. *)
Definition zoldest (z : zset) : option Z := min_by Z.leb ((map_to_list z).*2).

(** [ZADD key XX GT score member]: only a member that is there, only upwards. *)
Definition zset_xx_gt (score : Z) (member : text) (z : zset) : zset :=
  match z !! member with
  | Some s => if s <? score then <[member := score]> z else z
  | None => z
  end.

(** What a command does to one key it names, to the others (nothing), and to the clock. *)
Definition touches {S} `{ZServer S} (key : text) (f : zset → zset) (op : S → S) : Prop :=
  ∀ s, zget (op s) key = f (zget s key) ∧
    (∀ k, k ≠ key → zget (op s) k = zget s k ∧ expires (op s) k = expires s k) ∧ now_ms (op s) = now_ms s.

(** A command that leaves the expiry of its key, if the key is still there. *)
Definition keeps_expiry {S} `{ZServer S} (key : text) (op : S → S) : Prop :=
  ∀ s, zget (op s) key ≠ ∅ → zget s key ≠ ∅ → expires (op s) key = expires s key.

Class ZServerLaws (S : Type) `{ZServer S} := {
  zremrangebyscore_law key max : touches key (keep_above max) (zremrangebyscore key max);
  zadd_law key score member : touches key <[member := score]> (zadd key score member);
  zadd_xx_gt_law key score member : touches key (zset_xx_gt score member) (zadd_xx_gt key score member);
  zrem_law key member : touches key (delete member) (zrem key member);
  pexpire_law key ms : touches key id (pexpire key ms);
  pexpire_sets key ms s : zget s key ≠ ∅ → expires (pexpire key ms s) key = Some (now_ms s + ms);
  zrem_expiry key member : keeps_expiry key (zrem key member);
  zremrangebyscore_expiry key max : keeps_expiry key (zremrangebyscore key max);
  zadd_xx_gt_expiry key score member : keeps_expiry key (zadd_xx_gt key score member);
  pass_time_clock d s : 0 ≤ d → now_ms (pass_time d s) = now_ms s + d;
  pass_time_keys d s k : 0 ≤ d →
    zget (pass_time d s) k = match expires s k with
                             | Some t => if t <=? now_ms s + d then ∅ else zget s k
                             | None => zget s k
                             end ∧
    (zget (pass_time d s) k ≠ ∅ → expires (pass_time d s) k = expires s k)
}.

(** How a call to the server can go: it answers, the request is lost, or the answer is. *)
Inductive link : Type := Answers | RequestLost | ReplyLost.

(** A script through the next link, [None] for a driver error; without more links known
    the server answers. *)
Definition through {S A} (script : S → A * S) (links : list link) (s : S) : option A * S * list link :=
  match links with
  | RequestLost :: links => (None, s, links)
  | ReplyLost :: links => (None, (script s).2, links)
  | Answers :: links => (Some (script s).1, (script s).2, links)
  | [] => (Some (script s).1, (script s).2, [])
  end.

(** ** Facts about sets *)

Lemma lookup_keep_above max z m x : keep_above max z !! m = Some x ↔ z !! m = Some x ∧ max < x.
Proof. unfold keep_above. by rewrite map_lookup_filter_Some. Qed.

Lemma keep_above_size max z : (size (keep_above max z) ≤ size z)%nat.
Proof. apply map_subseteq_size, map_filter_subseteq. Qed.

Lemma keep_above_above max max' z : max ≤ max' → keep_above max' (keep_above max z) = keep_above max' z.
Proof.
  intros Hle. apply map_eq. intros m. apply option_eq. intros x. rewrite !lookup_keep_above. split; [tauto|].
  intros [? ?]. split; [split; [done|lia]|done].
Qed.

Lemma keep_above_all max z : map_Forall (λ _ x, max < x) z → keep_above max z = z.
Proof. intros Hz. unfold keep_above. apply map_filter_id. intros m x Hm. by apply (Hz m). Qed.

Lemma keep_above_none max z : map_Forall (λ _ x, x ≤ max) z → keep_above max z = ∅.
Proof.
  intros Hz. apply map_empty. intros m. destruct (keep_above max z !! m) as [x|] eqn:E; [|done].
  apply lookup_keep_above in E as [Hm Hx]. specialize (Hz m x Hm). cbn in Hz. lia.
Qed.

Lemma zoldest_spec z s : zoldest z = Some s → (∃ m, z !! m = Some s) ∧ map_Forall (λ _ x, s ≤ x) z.
Proof.
  unfold zoldest. intros Hs. split.
  - apply min_by_elem, list_elem_of_fmap in Hs as ([m x] & -> & Hm). exists m. by apply elem_of_map_to_list.
  - intros m x Hm. apply Z.leb_le. eapply (min_by_le Z.leb); [..|exact Hs|].
    + intros a b c. rewrite !Z.leb_le. lia.
    + intros a b. rewrite !Z.leb_le. lia.
    + apply list_elem_of_fmap. exists (m, x). split; [done|]. by apply elem_of_map_to_list.
Qed.

Lemma zoldest_None z : zoldest z = None → z = ∅.
Proof.
  unfold zoldest. rewrite min_by_None. intros Hz. apply fmap_nil_inv in Hz. by apply map_to_list_empty_iff.
Qed.

Lemma keep_above_nonempty max z : keep_above max z ≠ ∅ → z ≠ ∅.
Proof. intros Hz ->. apply Hz. apply keep_above_none, map_Forall_empty. Qed.

(** ** Scripts that start by evicting *)

Section Evictions.
Context {S : Type} `{ZServerLaws S}.
Implicit Types (s : S).

Lemma evict_key key max s : zget (zremrangebyscore key max s) key = keep_above max (zget s key).
Proof. by destruct (zremrangebyscore_law key max s) as [-> _]. Qed.

Lemma evict_now key max s : now_ms (zremrangebyscore key max s) = now_ms s.
Proof. by destruct (zremrangebyscore_law key max s) as (_ & _ & ->). Qed.

Lemma evict_other key max s k : k ≠ key → zget (zremrangebyscore key max s) k = zget s k.
Proof. intros Hk. destruct (zremrangebyscore_law key max s) as (_ & Ho & _). by apply Ho. Qed.

Context (window_of : text → Z).

(** What a run of evictions may change: entries outside their windows. *)
Definition evicted s s' : Prop :=
  now_ms s' = now_ms s ∧
  ∀ k, (zget s' k = zget s k ∧ expires s' k = expires s k) ∨
       zget s' k = keep_above (now_ms s - window_of k) (zget s k) ∧
       (zget s' k ≠ ∅ → expires s' k = expires s k).

Lemma evicted_refl s : evicted s s.
Proof. split; [done|]. by left. Qed.

Lemma evicted_step key s s1 :
  evicted s s1 → evicted s (zremrangebyscore key (now_ms s1 - window_of key) s1).
Proof.
  intros [Hn Hk]. split; [by rewrite evict_now|]. intros k.
  destruct (decide (k = key)) as [->|Hne].
  - right. pose proof (evict_key key (now_ms s1 - window_of key) s1) as Hkey. rewrite Hn in Hkey |- *.
    destruct (Hk key) as [[Hz He]|[Hz He]].
    + rewrite Hz in Hkey. split; [done|]. intros Hne. rewrite <- He.
      apply zremrangebyscore_expiry; [exact Hne|]. rewrite Hz. eapply keep_above_nonempty. rewrite <- Hkey. exact Hne.
    + rewrite Hz, keep_above_above in Hkey by done. split; [done|]. intros Hne.
      assert (zget s1 key ≠ ∅) as Hne1 by (rewrite Hz, <- Hkey; done). rewrite <- He by done.
      by apply zremrangebyscore_expiry.
  - destruct (zremrangebyscore_law key (now_ms s1 - window_of key) s1) as (_ & Ho & _). destruct (Ho k Hne) as [-> ->]. apply Hk.
Qed.

Lemma evicted_entry s s' k m t : evicted s s' → zget s' k !! m = Some t → zget s k !! m = Some t.
Proof. intros [_ Hk] Hm. destruct (Hk k) as [[Hz _]|[Hz _]]; rewrite Hz in Hm; [done|]. by apply lookup_keep_above in Hm as [? _]. Qed.

Lemma evicted_recent s s' k m t :
  evicted s s' → now_ms s - window_of k < t → zget s k !! m = Some t → zget s' k !! m = Some t.
Proof. intros [_ Hk] Ht Hm. destruct (Hk k) as [[-> _]|[-> _]]; [done|]. by apply lookup_keep_above. Qed.

Lemma evicted_young s s' k max :
  evicted s s' → now_ms s - window_of k ≤ max → keep_above max (zget s' k) = keep_above max (zget s k).
Proof. intros [_ Hk] Hm. destruct (Hk k) as [[-> _]|[-> _]]; [done|]. by rewrite keep_above_above. Qed.

Lemma evicted_expiry s s' k m t x :
  evicted s s' → zget s' k !! m = Some t → expires s' k = Some x → expires s k = Some x.
Proof.
  intros [_ Hk] Hm Hx. destruct (Hk k) as [[_ He]|[_ He]]; [congruence|]. rewrite <- He; [done|].
  intros Hz. by rewrite Hz in Hm.
Qed.
End Evictions.

(** ** A server *)

Record memory_server := mk_memory_server { ms_sets : gmap text zset; ms_expires : gmap text Z; ms_clock : Z }.

Definition ms_get (s : memory_server) (k : text) : zset := default ∅ (ms_sets s !! k).

(** A set without members is no key, and has no expiry. *)
Definition ms_update (k : text) (f : zset → zset) (s : memory_server) : memory_server :=
  let z := f (ms_get s k) in
  if bool_decide (z = ∅) then mk_memory_server (delete k (ms_sets s)) (delete k (ms_expires s)) (ms_clock s)
  else mk_memory_server (<[k := z]> (ms_sets s)) (ms_expires s) (ms_clock s).

Definition ms_due (t : Z) (e : option Z) : bool := match e with Some x => x <=? t | None => false end.

#[export] Instance memory_zserver : ZServer memory_server := {|
  zget := ms_get;
  expires s k := ms_expires s !! k;
  now_ms := ms_clock;
  zremrangebyscore k max := ms_update k (keep_above max);
  zadd k score member := ms_update k (<[member := score]>);
  zadd_xx_gt k score member := ms_update k (zset_xx_gt score member);
  zrem k member := ms_update k (delete member);
  pexpire k ms s :=
    if bool_decide (ms_get s k = ∅) then s
    else mk_memory_server (ms_sets s) (<[k := ms_clock s + ms]> (ms_expires s)) (ms_clock s);
  pass_time d s :=
    let t := ms_clock s + d in
    mk_memory_server (filter (λ kz, ms_due t (ms_expires s !! kz.1) = false) (ms_sets s))
      (filter (λ ke, t < ke.2) (ms_expires s)) t
|}.

Lemma ms_update_touches k f : (f ∅ = ∅ ∨ ∀ z, f z ≠ ∅) → touches k f (ms_update k f).
Proof.
  intros Hf s. unfold zget, expires, now_ms. cbn. unfold ms_update. split_and!.
  - case_bool_decide as Hz; unfold ms_get; cbn; [by rewrite lookup_delete_eq|by rewrite lookup_insert_eq].
  - intros k' Hk. case_bool_decide; unfold ms_get; cbn; [by rewrite !lookup_delete_ne|by rewrite lookup_insert_ne].
  - by case_bool_decide.
Qed.

Lemma ms_update_expiry k f : keeps_expiry k (ms_update k f).
Proof.
  intros s. unfold zget, expires. cbn. unfold ms_update. case_bool_decide as Hz; [|done].
  unfold ms_get at 1. cbn. by rewrite lookup_delete_eq.
Qed.

#[export] Instance memory_laws : ZServerLaws memory_server.
Proof.
  split.
  - intros key max. apply ms_update_touches. by left.
  - intros key score member. apply ms_update_touches. right. intros z. apply insert_non_empty.
  - intros key score member. apply ms_update_touches. by left.
  - intros key member. apply ms_update_touches. left. apply delete_empty.
  - intros key ms s. unfold zget, expires, now_ms. cbn. case_bool_decide; [by split_and!|].
    cbn. split_and!; [done| |done]. intros k Hk. by rewrite lookup_insert_ne.
  - intros key ms s Hz. unfold expires, now_ms. cbn. rewrite bool_decide_false by done. cbn. by rewrite lookup_insert_eq.
  - intros key member. apply ms_update_expiry.
  - intros key max. apply ms_update_expiry.
  - intros key score member. apply ms_update_expiry.
  - done.
  - intros d s k Hd. unfold zget, expires, now_ms, pass_time. cbn. unfold ms_get. cbn.
    assert (∀ t, filter (λ kz : text * zset, ms_due t (ms_expires s !! kz.1) = false) (ms_sets s) !! k =
      if ms_due t (ms_expires s !! k) then None else ms_sets s !! k) as Hget.
    { intros t. rewrite map_lookup_filter. destruct (ms_sets s !! k) as [z|]; cbn; [|by destruct (ms_due _ _)].
      case_guard as Hdue; destruct (ms_due _ _); done. }
    rewrite Hget. unfold ms_due. rewrite map_lookup_filter. destruct (ms_expires s !! k) as [t|]; [|by split].
    destruct (Z.leb_spec t (ms_clock s + d)); cbn; [by split|]. split; [done|]. intros _. by rewrite option_guard_True by lia.
Qed.

Definition empty_server : memory_server := mk_memory_server ∅ ∅ 0.

Lemma empty_keys k : zget empty_server k = ∅.
Proof. unfold zget. cbn. unfold ms_get. cbn. by rewrite lookup_empty. Qed.
