(* ===== verification/RateLimit.v ===== *)
(** * RateLimit: sliding-window request limits over Redis

    [framework/ports/rate_limiter.py], [infrastructure/cache/redis_rate_limiter.py] with its
    Lua script, and the two limiters of [api/middleware/rate_limit.py]. *)

From S2P Require Import Prelude Text Calendar Errors Framework ZSets.
From stdpp Require Import gmap.

Open Scope Z_scope.

(** ** Data *)

Record RateBucket := mk_RateBucket { rb_scope : text; rb_key : text; rb_limit : Z; rb_window_s : Z }.
Record RateVerdict := mk_RateVerdict { rv_allowed : bool; rv_scope : text; rv_retry_after_s : Z }.

Definition ALLOWED : RateVerdict := mk_RateVerdict true [] 0.
Definition DEFAULT_KEY_PREFIX : text := txt "rate".
Definition WINDOW_S : Z := 60.
Definition USER_SCOPE : text := txt "user".
Definition WORKSPACE_SCOPE : text := txt "workspace".
Definition HEAVY_SCOPE : text := txt "heavy".

(** A key, its limit and its window in milliseconds: what the script gets per bucket. *)
Abbreviation window := (text * Z * Z)%type.

(** ** The script *)

Section Script.
Context {S : Type} `{ZServer S}.

(** What is still inside the window of a bucket. *)
Definition live (s : S) (b : window) : zset := keep_above (now_ms s - b.2) (zget s b.1.1).

Definition retry_ms (s : S) (b : window) : Z :=
  let retry := match zoldest (zget s b.1.1) with
               | Some oldest => oldest + b.2 - now_ms s
               | None => b.2
               end in
  if retry <? 1 then 1 else retry.

(** The first loop, [i] the index of the first bucket: what is refused and when to retry. *)
Fixpoint check_buckets (i : Z) (buckets : list window) (s : S) : option (Z * Z) * S :=
  match buckets with
  | [] => (None, s)
  | b :: buckets =>
      let s := zremrangebyscore b.1.1 (now_ms s - b.2) s in
      if b.1.2 <=? Z.of_nat (size (zget s b.1.1)) then (Some (i, retry_ms s b), s)
      else check_buckets (i + 1) buckets s
  end.

Definition add_to (member : text) (s : S) (b : window) : S :=
  pexpire b.1.1 b.2 (zadd b.1.1 (now_ms s) member s).

(** [_CONSUME_LUA] *)
Definition consume_lua (member : text) (buckets : list window) (s : S) : list Z * S :=
  match check_buckets 1 buckets s with
  | (Some (i, retry), s) => ([0; i; retry], s)
  | (None, s) => ([1; 0; 0], foldl (add_to member) s buckets)
  end.
End Script.

(** ** The adapter *)

(** The server, the identifiers minted so far, and how the next calls will go. *)
Record LimiterWorld (S : Type) := mk_LimiterWorld { lw_server : S; lw_minted : nat; lw_links : list link }.
Arguments mk_LimiterWorld {S}.
Arguments lw_server {S}.
Arguments lw_minted {S}.
Arguments lw_links {S}.

Definition validation_error : exn := App (raise_class ValidationError).
Definition internal_error : exn := App (raise_class AppError).

Definition guard_bucket (b : RateBucket) : result exn unit :=
  _ ← raise_if (rb_limit b <=? 0) validation_error;
  _ ← raise_if (rb_window_s b <=? 0) validation_error;
  raise_if (bool_decide (strip (rb_key b) = [])) validation_error.

Fixpoint guard_buckets (buckets : list RateBucket) : result exn unit :=
  match buckets with
  | [] => Ok tt
  | b :: buckets => _ ← guard_bucket b; guard_buckets buckets
  end.

Definition verdict (outcome : list Z) (buckets : list RateBucket) : RateVerdict :=
  match outcome with
  | allowed :: index :: retry_ms :: _ =>
      if (allowed =? 1) || negb ((1 <=? index) && (index <=? Z.of_nat (length buckets))) then ALLOWED
      else match buckets !! Z.to_nat (index - 1) with
           | Some b => mk_RateVerdict false (rb_scope b) (Z.max 1 (- (- retry_ms / 1000)))
           | None => ALLOWED
           end
  | _ => ALLOWED
  end.

Definition key_for (bucket_key : text) : text := DEFAULT_KEY_PREFIX ++ [58] ++ bucket_key.

Definition script_window (b : RateBucket) : window := (key_for (rb_key b), rb_limit b, rb_window_s b * 1000).

Section Adapter.
Context `{Env} {S : Type} `{ZServer S}.
Abbreviation io := (eff (LimiterWorld S) exn).

Definition new_member : io text :=
  λ w, (Ok (uuid7 (lw_minted w)), mk_LimiterWorld (lw_server w) (Datatypes.S (lw_minted w)) (lw_links w)).

(** Running a script: a driver error is translated to [common.internal]. *)
Definition call_script (script : S → list Z * S) : io (list Z) := λ w,
  let '(answer, server, links) := through script (lw_links w) (lw_server w) in
  (match answer with Some outcome => Ok outcome | None => Err internal_error end,
   mk_LimiterWorld server (lw_minted w) links).

Definition try_consume (buckets : list RateBucket) : io RateVerdict :=
  if bool_decide (buckets = []) then mret ALLOWED
  else
    member ← new_member;
    _ ← eff_lift (guard_buckets buckets);
    outcome ← call_script (consume_lua member (script_window <$> buckets));
    mret (verdict outcome buckets).

(** ** The limiters of the API *)

Definition guard_per_min (per_min : Z) : result exn Z :=
  if per_min <=? 0 then Err validation_error else Ok per_min.

Record ApiRateLimiter := mk_ApiRateLimiter { user_per_min : Z; workspace_per_min : Z }.
Record HeavyJobRateLimiter := mk_HeavyJobRateLimiter { jobs_per_min : Z }.

Definition new_ApiRateLimiter (user workspace : Z) : result exn ApiRateLimiter :=
  user ← guard_per_min user; workspace ← guard_per_min workspace; Ok (mk_ApiRateLimiter user workspace).

Definition new_HeavyJobRateLimiter (jobs : Z) : result exn HeavyJobRateLimiter :=
  jobs ← guard_per_min jobs; Ok (mk_HeavyJobRateLimiter jobs).

Definition api_buckets (l : ApiRateLimiter) (user workspace : text) : list RateBucket := [
  mk_RateBucket USER_SCOPE (USER_SCOPE ++ [58] ++ user) (user_per_min l) WINDOW_S;
  mk_RateBucket WORKSPACE_SCOPE (WORKSPACE_SCOPE ++ [58] ++ workspace) (workspace_per_min l) WINDOW_S].

Definition heavy_buckets (l : HeavyJobRateLimiter) (user : text) : list RateBucket := [
  mk_RateBucket HEAVY_SCOPE (HEAVY_SCOPE ++ [58] ++ user) (jobs_per_min l) WINDOW_S].

Definition is_app_error (e : exn) : bool := match e with App _ => true | Other _ => false end.

(** Either check: open while the limiter is unavailable, 429 on a refusal. *)
Definition checked (buckets : list RateBucket) : io unit :=
  v ← eff_catch (v ← try_consume buckets; mret (Some v)) is_app_error (λ _, mret None);
  match v with
  | None => mret tt
  | Some v =>
      if rv_allowed v then mret tt
      else eff_raise (App (rate_limited_init None None (Some (rv_retry_after_s v))))
  end.

Definition api_check (l : ApiRateLimiter) (user workspace : text) : io unit := checked (api_buckets l user workspace).
Definition heavy_check (l : HeavyJobRateLimiter) (user : text) : io unit := checked (heavy_buckets l user).
End Adapter.

(** When a request was admitted, as whom, and in which buckets. *)
Abbreviation admission := (Z * text * list text)%type.

(** ** What the script does *)

Section Facts.
Context {S : Type} `{ZServerLaws S}.
Implicit Types (s : S) (b : window) (bs : list window).

(** The bucket has room at this moment. *)
Definition room s b : bool := Z.of_nat (size (live s b)) <? b.1.2.

Context (limit_of window_of : text → Z).

(** Buckets of one configuration: each key has its limit and its window. *)
Definition configured b : Prop := b.1.2 = limit_of b.1.1 ∧ b.2 = window_of b.1.1 ∧ 0 < b.2.

Lemma evicted_evict s s1 b :
  configured b → evicted window_of s s1 → evicted window_of s (zremrangebyscore b.1.1 (now_ms s1 - b.2) s1).
Proof. intros (_ & -> & _). apply evicted_step. Qed.

Lemma evicted_live s s' b : configured b → evicted window_of s s' → live s' b = live s b.
Proof.
  intros (_ & Hb & _) [Hn Hk]. unfold live. rewrite Hn. destruct (Hk b.1.1) as [[-> _]|[-> _]]; [done|].
  rewrite keep_above_above; [done|]. rewrite Hb. lia.
Qed.

(** The first loop refuses the first bucket without room, or goes through them all. *)
Lemma check_buckets_spec i bs s s0 r s' :
  Forall configured bs → evicted window_of s0 s → check_buckets i bs s = (r, s') →
  evicted window_of s0 s' ∧
  match r with
  | None => Forall (λ b, room s0 b = true) bs
  | Some (j, retry) => ∃ pre b post, bs = pre ++ b :: post ∧ j = i + Z.of_nat (length pre) ∧
      Forall (λ b, room s0 b = true) pre ∧ room s0 b = false ∧
      retry = Z.max 1 (match zoldest (live s0 b) with Some o => o + b.2 - now_ms s0 | None => b.2 end)
  end.
Proof.
  intros Hbs. revert i s; induction Hbs as [|b bs Hb Hbs IH]; intros i s Hs; cbn [check_buckets].
  { intros [= <- <-]. by split. }
  pose proof (evicted_evict _ _ b Hb Hs) as Hs1. set (s1 := zremrangebyscore _ _ s) in *.
  assert (zget s1 b.1.1 = live s0 b) as Hget by (rewrite <- (evicted_live s0 s b Hb Hs); apply evict_key).
  rewrite Hget. destruct (Z.leb_spec b.1.2 (Z.of_nat (size (live s0 b)))) as [Hfull|Hroom].
  - intros [= <- <-]. split; [done|]. exists [], b, bs. split; [done|]. split; [cbn; lia|]. split; [constructor|].
    split; [unfold room; by apply Z.ltb_ge|]. unfold retry_ms. rewrite Hget, (proj1 Hs1).
    destruct (zoldest (live s0 b)); match goal with |- context [?a <? 1] => destruct (Z.ltb_spec a 1) end; lia.
  - intros Hc. destruct (IH _ _ Hs1 Hc) as [Hs' Hr]. split; [done|].
    assert (room s0 b = true) as Hrb by (unfold room; by apply Z.ltb_lt). destruct r as [[j retry]|]; [|by constructor].
    destruct Hr as (pre & c & post & -> & -> & Hpre & Hfull & Hret). exists (b :: pre), c, post.
    split; [done|]. split; [cbn [length]; lia|]. by split; [constructor|].
Qed.

(** The second loop. *)
Lemma add_to_spec member s b : configured b →
  now_ms (add_to member s b) = now_ms s ∧
  zget (add_to member s b) b.1.1 = <[member := now_ms s]> (zget s b.1.1) ∧
  expires (add_to member s b) b.1.1 = Some (now_ms s + window_of b.1.1) ∧
  ∀ k, k ≠ b.1.1 → zget (add_to member s b) k = zget s k ∧ expires (add_to member s b) k = expires s k.
Proof.
  intros (_ & Hb & _). unfold add_to. set (s1 := zadd b.1.1 (now_ms s) member s).
  destruct (zadd_law b.1.1 (now_ms s) member s) as (Hz & Ho & Hn). fold s1 in Hz, Ho, Hn.
  destruct (pexpire_law b.1.1 b.2 s1) as (Hz2 & Ho2 & Hn2).
  split; [congruence|]. split; [by rewrite Hz2|]. split.
  - rewrite pexpire_sets by (rewrite Hz; apply insert_non_empty). by rewrite Hn, Hb.
  - intros k Hk. destruct (Ho2 k Hk) as [-> ->]. by apply Ho.
Qed.

Lemma add_all_spec member bs s : Forall configured bs →
  let s' := foldl (add_to member) s bs in
  now_ms s' = now_ms s ∧
  ∀ k, if bool_decide (k ∈ bs.*1.*1)
       then zget s' k = <[member := now_ms s]> (zget s k) ∧ expires s' k = Some (now_ms s + window_of k)
       else zget s' k = zget s k ∧ expires s' k = expires s k.
Proof.
  intros Hbs. revert s; induction Hbs as [|b bs Hb Hbs IH]; intros s; cbn [foldl fmap list_fmap]; [by split|].
  destruct (add_to_spec member s b Hb) as (Hn & Hz & He & Ho). destruct (IH (add_to member s b)) as [IHn IHk].
  split; [by rewrite IHn|]. intros k. specialize (IHk k). rewrite Hn in IHk.
  destruct (decide (k = b.1.1)) as [->|Hne].
  - rewrite (bool_decide_true (b.1.1 ∈ _ :: _)) by left. case_bool_decide.
    + by rewrite Hz, insert_insert_eq in IHk.
    + destruct IHk as [-> ->]. by split.
  - destruct (Ho k Hne) as [Hzk Hek]. rewrite Hzk, Hek in IHk.
    rewrite (bool_decide_ext (k ∈ b.1.1 :: _) (k ∈ bs.*1.*1)) by (rewrite elem_of_cons; tauto). done.
Qed.

(** ** Requests of many processes, in any order *)

Record Race := mk_Race { rc_server : S; rc_log : list admission }.

Inductive race_step : Race → Race → Prop :=
  | step_time d s log : 0 ≤ d → race_step (mk_Race s log) (mk_Race (pass_time d s) log)
  | step_admitted member bs s s' log :
      Forall configured bs → member ∉ log.*1.*2 → consume_lua member bs s = ([1; 0; 0], s') →
      race_step (mk_Race s log) (mk_Race s' ((now_ms s, member, bs.*1.*1) :: log))
  | step_refused member bs s s' log i retry :
      Forall configured bs → consume_lua member bs s = ([0; i; retry], s') →
      race_step (mk_Race s log) (mk_Race s' log).

Definition in_bucket (k : text) (a : Z) (e : admission) : bool :=
  bool_decide (k ∈ e.2) && (a <? e.1.1) && (e.1.1 <=? a + window_of k).

(** Admissions of a bucket in the half-open interval of its window that starts after [a]. *)
Definition admitted_in (k : text) (a : Z) (log : list admission) : nat := length (List.filter (in_bucket k a) log).

Record race_inv (r : Race) : Prop := {
  inv_members : NoDup (rc_log r).*1.*2;
  inv_past e : e ∈ rc_log r → e.1.1 ≤ now_ms (rc_server r);
  inv_recent e k : e ∈ rc_log r → k ∈ e.2 → now_ms (rc_server r) - window_of k < e.1.1 →
    zget (rc_server r) k !! e.1.2 = Some e.1.1;
  inv_entries k m t : zget (rc_server r) k !! m = Some t →
    t ≤ now_ms (rc_server r) ∧ ∀ x, expires (rc_server r) k = Some x → t + window_of k ≤ x;
  inv_size k : 0 < limit_of k → Z.of_nat (size (keep_above (now_ms (rc_server r) - window_of k) (zget (rc_server r) k))) ≤ limit_of k;
  inv_count k a : 0 < limit_of k → Z.of_nat (admitted_in k a (rc_log r)) ≤ limit_of k
}.

(** Admissions still inside the window are entries of the set. *)
Lemma recent_admissions r k a :
  race_inv r → now_ms (rc_server r) - window_of k ≤ a →
  (admitted_in k a (rc_log r) ≤ size (keep_above (now_ms (rc_server r) - window_of k) (zget (rc_server r) k)))%nat.
Proof.
  intros Hinv Ha. set (z := keep_above _ _). set (l := List.filter (in_bucket k a) (rc_log r)).
  assert (NoDup l.*1.*2) as Hnd.
  { eapply sublist_NoDup; [exact (inv_members r Hinv)|]. do 2 apply fmap_sublist. subst l.
    induction (rc_log r) as [|e log IH]; cbn; [constructor|]. destruct (in_bucket k a e); by constructor. }
  assert (∀ m, m ∈ l.*1.*2 → m ∈ dom z) as Hin.
  { intros m ([t m'] & -> & ((t' & ks) & Heq & He)%list_elem_of_fmap)%list_elem_of_fmap. cbn in Heq. subst t'.
    apply elem_of_list_filter_bool in He as [He Hb]. unfold in_bucket in Hb. cbn [fst snd] in Hb.
    apply andb_prop in Hb as [[Hk Hlt]%andb_prop _]. apply bool_decide_eq_true in Hk. apply Z.ltb_lt in Hlt.
    apply elem_of_dom. exists t. apply lookup_keep_above. split; [|lia].
    apply (inv_recent r Hinv (t, m', ks) k He Hk). cbn [fst]. lia. }
  unfold admitted_in. fold l. assert (length l = size (list_to_set l.*1.*2 : gset text)) as ->.
  { rewrite size_list_to_set by done. by rewrite !length_fmap. }
  rewrite <- size_dom. apply subseteq_size. intros m Hm. apply Hin. by apply elem_of_list_to_set in Hm.
Qed.

Lemma evicted_inv s s' log : evicted window_of s s' → race_inv (mk_Race s log) → race_inv (mk_Race s' log).
Proof.
  intros Hev Hinv. pose proof (proj1 Hev) as Hn. destruct Hinv as [Hm Hp Hr He Hs Hc].
  split; cbn [rc_server rc_log] in *; [done|by rewrite Hn| | | |done].
  - intros e k Hin Hk Ht. rewrite Hn in Ht. eapply evicted_recent; [done..|]. by apply Hr.
  - intros k m t Hz. pose proof (evicted_entry _ _ _ _ _ _ Hev Hz) as Hz0. destruct (He k m t Hz0) as [Ht Hx].
    rewrite Hn. split; [done|]. intros x Hex. eapply Hx, evicted_expiry; done.
  - intros k Hk. rewrite Hn. specialize (Hs k Hk). destruct (proj2 Hev k) as [[-> _]|[-> _]]; [done|].
    by rewrite keep_above_above.
Qed.

Lemma time_inv d s log : 0 ≤ d → race_inv (mk_Race s log) → race_inv (mk_Race (pass_time d s) log).
Proof.
  intros Hd [Hm Hp Hr He Hs Hc]. split; cbn [rc_server rc_log] in *; [done| | | | |done]; rewrite pass_time_clock by done.
  - intros e Hin. specialize (Hp e Hin). lia.
  - intros e k Hin Hk Ht. destruct (pass_time_keys d s k Hd) as [-> _].
    assert (zget s k !! e.1.2 = Some e.1.1) as Hz by (apply Hr; [done|done|lia]).
    destruct (expires s k) as [x|] eqn:Hx; [|done]. destruct (Z.leb_spec x (now_ms s + d)); [|done].
    destruct (He _ _ _ Hz) as [_ Hxx]. specialize (Hxx x Hx). lia.
  - intros k m t Hz. destruct (pass_time_keys d s k Hd) as [Hg Hex].
    assert (zget (pass_time d s) k ≠ ∅) as Hne by (intros Hne; by rewrite Hne in Hz). rewrite (Hex Hne).
    assert (zget s k !! m = Some t) as Hz0.
    { rewrite Hg in Hz. destruct (expires s k); [destruct (_ <=? _)|]; done. }
    destruct (He _ _ _ Hz0) as [Ht Hx]. split; [lia|done].
  - intros k Hk. specialize (Hs k Hk). destruct (pass_time_keys d s k Hd) as [Hg _].
    assert (keep_above (now_ms s + d - window_of k) (zget (pass_time d s) k) ⊆
            keep_above (now_ms s - window_of k) (zget s k)) as Hsub; [|apply map_subseteq_size in Hsub; lia].
    apply map_subseteq_spec. intros m x. rewrite !lookup_keep_above, Hg.
    destruct (expires s k); [destruct (_ <=? _)|]; intros [Hx ?]; (split; [done|lia]).
Qed.

Lemma admitted_in_cons k a e log :
  admitted_in k a (e :: log) = ((if in_bucket k a e then 1 else 0) + admitted_in k a log)%nat.
Proof. unfold admitted_in. cbn. by destruct (in_bucket k a e). Qed.

Lemma admitted_inv member bs s s1 log :
  Forall configured bs → member ∉ log.*1.*2 → Forall (λ b, room s b = true) bs → evicted window_of s s1 →
  race_inv (mk_Race s log) →
  race_inv (mk_Race (foldl (add_to member) s1 bs) ((now_ms s, member, bs.*1.*1) :: log)).
Proof.
  intros Hbs Hfresh Hroom Hev Hinv0. pose proof (evicted_inv _ _ _ Hev Hinv0) as Hinv. pose proof (proj1 Hev) as Hn.
  destruct (add_all_spec member bs s1 Hbs) as [Hn2 Hk]. set (s2 := foldl (add_to member) s1 bs) in *.
  assert (∀ k, k ∈ bs.*1.*1 → 0 < window_of k ∧
    Z.of_nat (size (keep_above (now_ms s - window_of k) (zget s k))) < limit_of k) as Hcfg.
  { intros k (kl & -> & (b & -> & Hb)%list_elem_of_fmap)%list_elem_of_fmap. rewrite Forall_forall in Hbs, Hroom.
    destruct (Hbs b Hb) as (Hl & Hw & Hpos). specialize (Hroom b Hb). unfold room in Hroom. apply Z.ltb_lt in Hroom.
    rewrite <- Hw, <- Hl. by split. }
  assert (∀ k, keep_above (now_ms s - window_of k) (zget s1 k) = keep_above (now_ms s - window_of k) (zget s k)) as Hlive.
  { intros k. destruct (proj2 Hev k) as [[-> _]|[-> _]]; [done|]. by rewrite keep_above_above. }
  destruct Hinv as [Hm Hp Hr He Hs Hc]. cbn [rc_server rc_log] in *.
  split; cbn [rc_server rc_log]; rewrite ?Hn2, ?Hn in *.
  - cbn. by constructor.
  - intros e [->|Hin]%elem_of_cons; [done|by apply Hp].
  - intros e k Hin Hke Ht. specialize (Hk k). apply elem_of_cons in Hin as [->|Hin].
    + cbn [fst snd] in *. rewrite bool_decide_true in Hk by done. destruct Hk as [-> _]. by rewrite lookup_insert_eq.
    + assert (zget s1 k !! e.1.2 = Some e.1.1) as Hz by (by apply Hr). case_bool_decide.
      * destruct Hk as [-> _]. rewrite lookup_insert_ne; [done|]. intros ->. apply Hfresh.
        by do 2 apply list_elem_of_fmap_2.
      * by destruct Hk as [-> _].
  - intros k m t Hz. specialize (Hk k). case_bool_decide as Hin.
    + destruct Hk as [Hzk ->]. rewrite Hzk in Hz. assert (t ≤ now_ms s) as Ht.
      { apply lookup_insert_Some in Hz as [[_ <-]|[_ Hz]]; [lia|]. by apply (He k m t). }
      split; [done|]. intros x [= <-]. lia.
    + destruct Hk as [Hzk ->]. rewrite Hzk in Hz. by apply (He k m t).
  - intros k Hlim. specialize (Hk k). specialize (Hs k Hlim). case_bool_decide as Hin.
    + destruct Hk as [-> _]. destruct (Hcfg k Hin) as [Hw Hsz]. rewrite <- Hlive in Hsz.
      assert (keep_above (now_ms s - window_of k) (<[member:=now_ms s]> (zget s1 k)) =
              <[member:=now_ms s]> (keep_above (now_ms s - window_of k) (zget s1 k))) as ->.
      { unfold keep_above. rewrite map_filter_insert_True; [done|]. cbn. lia. }
      rewrite map_size_insert. destruct (_ !! member); unfold id; lia.
    + by destruct Hk as [-> _].
  - intros k a Hlim. rewrite admitted_in_cons. specialize (Hc k a Hlim). destruct (in_bucket k a _) eqn:Hb; [|lia].
    unfold in_bucket in Hb. cbn [fst snd] in Hb. apply andb_prop in Hb as [[Hin%bool_decide_eq_true Ha]%andb_prop Hab].
    apply Z.ltb_lt in Ha. apply Z.leb_le in Hab. destruct (Hcfg k Hin) as [Hw Hsz].
    pose proof (recent_admissions (mk_Race s log) k a Hinv0) as Hrec. cbn [rc_server rc_log] in Hrec. lia.
Qed.

Lemma consume_lua_spec member bs s outcome s' :
  Forall configured bs → consume_lua member bs s = (outcome, s') →
  (∃ s1, outcome = [1; 0; 0] ∧ evicted window_of s s1 ∧ s' = foldl (add_to member) s1 bs ∧ Forall (λ b, room s b = true) bs) ∨
  (∃ pre b post, bs = pre ++ b :: post ∧ evicted window_of s s' ∧ Forall (λ b, room s b = true) pre ∧ room s b = false ∧
     outcome = [0; 1 + Z.of_nat (length pre);
                Z.max 1 (match zoldest (live s b) with Some o => o + b.2 - now_ms s | None => b.2 end)]).
Proof.
  intros Hbs. unfold consume_lua. destruct (check_buckets 1 bs s) as [r s1] eqn:Hc.
  destruct (check_buckets_spec 1 bs s s r s1 Hbs (evicted_refl window_of s) Hc) as [Hev Hr].
  destruct r as [[i retry]|]; intros [= <- <-].
  - right. destruct Hr as (pre & b & post & -> & -> & Hpre & Hfull & ->). by exists pre, b, post.
  - left. by exists s1.
Qed.

Lemma race_step_inv r r' : race_step r r' → race_inv r → race_inv r'.
Proof.
  intros Hstep Hinv. destruct Hstep as [d s log Hd|member bs s s' log Hbs Hfresh Hc|member bs s s' log i retry Hbs Hc].
  - by apply time_inv.
  - destruct (consume_lua_spec _ _ _ _ _ Hbs Hc) as [(s1 & _ & Hev & -> & Hroom)|(pre & b & post & _ & _ & _ & _ & [=])].
    by apply admitted_inv.
  - destruct (consume_lua_spec _ _ _ _ _ Hbs Hc) as [(s1 & [=] & _)|(pre & b & post & _ & Hev & _)].
    by eapply evicted_inv.
Qed.

Lemma empty_inv s : (∀ k, zget s k = ∅) → race_inv (mk_Race s []).
Proof.
  intros Hs. split; cbn [rc_server rc_log].
  - constructor.
  - by intros e ?%elem_of_nil.
  - by intros e k ?%elem_of_nil.
  - intros k m t. by rewrite Hs.
  - intros k Hk. rewrite Hs, keep_above_none by apply map_Forall_empty. rewrite map_size_empty. lia.
  - intros k a Hk. cbn. lia.
Qed.

Lemma race_reachable s r :
  (∀ k, zget s k = ∅) → rtc race_step (mk_Race s []) r → race_inv r.
Proof.
  intros Hs. apply (rtc_invariant race_step race_inv); [|by apply empty_inv]. intros x y Hx Hy. by eapply race_step_inv.
Qed.

(** The ceiling holds whatever requests of whatever processes the server runs, in any
    order and at any times: in no interval of a bucket's window, wherever it starts, are
    more requests admitted than the bucket's limit. *)
Theorem no_window_overflows (s : S) (r : Race) (k : text) (a : Z)
    (Hempty : ∀ k, zget s k = ∅) (Hrun : rtc race_step (mk_Race s []) r) (Hlimit : 0 < limit_of k) :
  Z.of_nat (admitted_in k a (rc_log r)) ≤ limit_of k.
Proof. by apply (inv_count r (race_reachable s r Hempty Hrun)). Qed.

(** What a bucket sees when time passes and nobody else comes. *)
Lemma room_later r b d :
  race_inv r → configured b → 0 ≤ d →
  live (pass_time d (rc_server r)) b = keep_above (now_ms (rc_server r) + d - b.2) (zget (rc_server r) b.1.1).
Proof.
  intros Hinv (_ & Hw & _) Hd. unfold live. rewrite pass_time_clock by done.
  destruct (pass_time_keys d (rc_server r) b.1.1 Hd) as [-> _]. destruct (expires _ _) as [x|] eqn:Hx; [|done].
  destruct (Z.leb_spec x (now_ms (rc_server r) + d)); [|done].
  assert (keep_above (now_ms (rc_server r) + d - b.2) ∅ = ∅) as -> by apply keep_above_none, map_Forall_empty.
  symmetry. apply keep_above_none. intros m t Ht. destruct (inv_entries r Hinv b.1.1 m t Ht) as [_ Hxx].
  specialize (Hxx x Hx). rewrite <- Hw in Hxx. lia.
Qed.

Lemma retry_bounded r member bs i retry s' :
  race_inv r → Forall configured bs → Forall (λ b, 0 < b.1.2) bs →
  consume_lua member bs (rc_server r) = ([0; i; retry], s') →
  1 ≤ i ≤ Z.of_nat (length bs) ∧ ∃ b, b ∈ bs ∧ 1 ≤ retry ≤ b.2.
Proof.
  intros Hinv Hbs Hlimits Hc.
  destruct (consume_lua_spec _ _ _ _ _ Hbs Hc) as [(s1 & [=] & _)|(pre & b & post & -> & _ & _ & _ & [= -> ->])].
  split; [rewrite length_app; cbn; lia|]. exists b. split; [apply elem_of_app; right; left|].
  rewrite Forall_app, Forall_cons in Hbs. destruct Hbs as (_ & (_ & _ & Hpos) & _). split; [lia|].
  destruct (zoldest (live (rc_server r) b)) as [o|] eqn:Ho; [|lia].
  apply zoldest_spec in Ho as [[m Hm] _]. apply lookup_keep_above in Hm as [Hm _].
  destruct (inv_entries r Hinv _ _ _ Hm) as [Hpast _]. lia.
Qed.

(** A refused request has spent nothing in any bucket, and its hint is the truth: if
    nobody else comes, the bucket that refused it stays full until [retry] milliseconds
    have passed and has room from then on. *)
Theorem refusals_cost_nothing_and_hint_exactly (s : S) (r : Race) member bs i retry s'
    (Hempty : ∀ k, zget s k = ∅) (Hrun : rtc race_step (mk_Race s []) r) (Hbs : Forall configured bs)
    (Hlimits : Forall (λ b, 0 < b.1.2) bs)
    (Hrefused : consume_lua member bs (rc_server r) = ([0; i; retry], s')) :
  (∀ b, configured b → live s' b = live (rc_server r) b) ∧
  ∃ b, bs !! Z.to_nat (i - 1) = Some b ∧ 1 ≤ i ≤ Z.of_nat (length bs) ∧ 1 ≤ retry ≤ b.2 ∧
    ∀ d, 0 ≤ d → room (pass_time d s') b = (retry <=? d).
Proof.
  pose proof (race_reachable s r Hempty Hrun) as Hinv0.
  destruct (consume_lua_spec _ _ _ _ _ Hbs Hrefused) as [(s1 & [=] & _)|(pre & b & post & -> & Hev & _ & Hfull & [= -> ->])].
  assert (race_inv (mk_Race s' (rc_log r))) as Hinv by (eapply evicted_inv; [exact Hev|by destruct r]).
  assert (configured b ∧ 0 < b.1.2) as [Hb Hlim].
  { rewrite Forall_app, Forall_cons in Hbs, Hlimits. tauto. }
  split; [intros c Hc; by apply evicted_live|]. exists b.
  split; [replace (Z.to_nat _) with (length pre) by lia; by apply list_lookup_middle|].
  split; [rewrite length_app; cbn; lia|].
  assert (live s' b = live (rc_server r) b) as Hlive by by apply evicted_live.
  pose proof (proj1 Hev) as Hn. destruct Hb as (Hl & Hw & Hpos).
  pose proof (inv_size r Hinv0 b.1.1) as Hsize. rewrite <- Hw, <- Hl in Hsize. specialize (Hsize Hlim).
  unfold room in Hfull. apply Z.ltb_ge in Hfull.
  destruct (zoldest (live (rc_server r) b)) as [o|] eqn:Ho.
  2:{ apply zoldest_None in Ho. rewrite Ho in Hfull. rewrite map_size_empty in Hfull. lia. }
  apply zoldest_spec in Ho as [[mo Hmo] Hleast]. apply lookup_keep_above in Hmo as Hmo'. destruct Hmo' as [Hz Ho].
  destruct (inv_entries r Hinv0 _ _ _ Hz) as [Hpast _].
  rewrite Z.max_r by lia. split; [lia|]. intros d Hd. unfold room.
  pose proof (room_later (mk_Race s' (rc_log r)) b d Hinv) as Hlater. cbn [rc_server] in Hlater.
  rewrite Hlater, Hn by done.
  assert (keep_above (now_ms (rc_server r) + d - b.2) (zget s' b.1.1) =
          keep_above (now_ms (rc_server r) + d - b.2) (live (rc_server r) b)) as ->.
  { rewrite <- Hlive. unfold live. rewrite Hn, keep_above_above by lia. done. }
  destruct (Z.leb_spec (o + b.2 - now_ms (rc_server r)) d).
  - apply Z.ltb_lt. assert (size (keep_above (now_ms (rc_server r) + d - b.2) (live (rc_server r) b)) <
      size (live (rc_server r) b))%nat; [|unfold live in *; lia].
    set (z := live (rc_server r) b) in *.
    assert (keep_above (now_ms (rc_server r) + d - b.2) z ⊆ delete mo z) as Hsub.
    { apply map_subseteq_spec. intros m x [Hx Hlt]%lookup_keep_above. rewrite lookup_delete_ne; [done|].
      intros <-. assert (x = o) as -> by congruence. lia. }
    apply map_subseteq_size in Hsub. rewrite map_size_delete, Hmo in Hsub.
    assert (size z ≠ 0%nat) as Hne by (intros Hz0%map_size_empty_inv; by rewrite Hz0 in Hmo). lia.
  - apply Z.ltb_ge. rewrite keep_above_all; [done|]. eapply map_Forall_impl; [exact Hleast|]. cbn. intros m x Hx. lia.
Qed.
End Facts.

(** ** The limits seen from the API *)

Lemma drop_while_nil p t : drop_while p t = [] → Forall (λ c, p c = true) t.
Proof. induction t as [|c t IH]; cbn; [constructor|]. destruct (p c) eqn:Hc; [|done]. intros. constructor; [done|by apply IH]. Qed.

Lemma strip_not_blank c t : py_isspace c = false → strip (c :: t) ≠ [].
Proof.
  intros Hc Hs. unfold strip, lstrip in Hs. cbn [drop_while] in Hs. rewrite Hc in Hs. unfold rstrip in Hs.
  apply (f_equal (@rev Z)) in Hs. rewrite rev_involutive in Hs. apply drop_while_nil, Forall_rev in Hs.
  rewrite rev_involutive in Hs. apply Forall_cons in Hs as [Hs _]. congruence.
Qed.

Section Api.
Context {S : Type} `{ZServerLaws S, EnvLaws}.
Variables (api : ApiRateLimiter) (heavy : HeavyJobRateLimiter).
Context (user_positive : 0 < user_per_min api) (workspace_positive : 0 < workspace_per_min api)
  (jobs_positive : 0 < jobs_per_min heavy).
Implicit Types (w : LimiterWorld S).

(** What the API asks of the limiters. *)
Inductive request : Type := ApiRequest (user workspace : text) | HeavyJob (user : text).

Definition buckets_of (q : request) : list RateBucket :=
  match q with
  | ApiRequest user workspace => api_buckets api user workspace
  | HeavyJob user => heavy_buckets heavy user
  end.

Definition keys_of (q : request) : list text := (λ b, key_for (rb_key b)) <$> buckets_of q.

Definition starts (p k : text) : bool := bool_decide (p `prefix_of` k).

Definition limit_of_key (k : text) : Z :=
  if starts (key_for (USER_SCOPE ++ [58])) k then user_per_min api
  else if starts (key_for (WORKSPACE_SCOPE ++ [58])) k then workspace_per_min api
  else jobs_per_min heavy.

Definition window_of_key (_ : text) : Z := 60000.

Lemma limit_of_user user : limit_of_key (key_for (USER_SCOPE ++ [58] ++ user)) = user_per_min api.
Proof.
  unfold limit_of_key, starts. rewrite bool_decide_true; [done|]. exists user. unfold key_for. by rewrite <- !app_assoc.
Qed.

Lemma limit_of_workspace ws : limit_of_key (key_for (WORKSPACE_SCOPE ++ [58] ++ ws)) = workspace_per_min api.
Proof.
  unfold limit_of_key, starts. rewrite bool_decide_false by (intros [k [=]]).
  rewrite bool_decide_true; [done|]. exists ws. unfold key_for. by rewrite <- !app_assoc.
Qed.

Lemma limit_of_heavy user : limit_of_key (key_for (HEAVY_SCOPE ++ [58] ++ user)) = jobs_per_min heavy.
Proof.
  unfold limit_of_key, starts. by rewrite !bool_decide_false by (intros [k [=]]).
Qed.

Lemma buckets_configured q :
  Forall (configured limit_of_key window_of_key) (script_window <$> buckets_of q) ∧
  Forall (λ b : window, 0 < b.1.2) (script_window <$> buckets_of q) ∧ guard_buckets (buckets_of q) = Ok tt ∧
  buckets_of q ≠ [].
Proof.
  assert (∀ scope key limit, 0 < limit → limit = limit_of_key (key_for key) → strip key ≠ [] →
    let b := mk_RateBucket scope key limit WINDOW_S in
    configured limit_of_key window_of_key (script_window b) ∧ 0 < (script_window b).1.2 ∧ guard_bucket b = Ok tt) as Hone.
  { intros scope key limit Hl Heq Hk. cbn. split; [by split_and!|]. split; [done|].
    unfold guard_bucket. cbn. rewrite (bool_decide_false _ Hk). destruct (Z.leb_spec limit 0); [lia|done]. }
  destruct q as [user ws|user]; cbn [buckets_of api_buckets heavy_buckets fmap list_fmap guard_buckets].
  - destruct (Hone USER_SCOPE (USER_SCOPE ++ [58] ++ user) (user_per_min api)) as (Hc1 & Hl1 & Hg1);
      [done|by rewrite limit_of_user|by apply strip_not_blank|].
    destruct (Hone WORKSPACE_SCOPE (WORKSPACE_SCOPE ++ [58] ++ ws) (workspace_per_min api)) as (Hc2 & Hl2 & Hg2);
      [done|by rewrite limit_of_workspace|by apply strip_not_blank|].
    split_and!; [by repeat constructor..| |done]. by rewrite Hg1, Hg2.
  - destruct (Hone HEAVY_SCOPE (HEAVY_SCOPE ++ [58] ++ user) (jobs_per_min heavy)) as (Hc1 & Hl1 & Hg1);
      [done|by rewrite limit_of_heavy|by apply strip_not_blank|].
    split_and!; [by repeat constructor..| |done]. by rewrite Hg1.
Qed.

(** What [_verdict] makes of a refusal: the limiter's scope, and whole seconds. *)
Definition too_many (seconds : Z) : exn :=
  App (mk_app_error RateLimitedError "common.rate_limited" 429 (Some seconds)).

Definition member_of w : text := uuid7 (lw_minted w).
Definition script_of q w : list Z * S := consume_lua (member_of w) (script_window <$> buckets_of q) (lw_server w).
Definition answers w : bool := match lw_links w with RequestLost :: _ | ReplyLost :: _ => false | _ => true end.

(** A check, outcome by outcome. *)
Lemma checked_spec q w r w' :
  checked (buckets_of q) w = (r, w') →
  lw_minted w' = Datatypes.S (lw_minted w) ∧
  if answers w then
    lw_server w' = (script_of q w).2 ∧
    match (script_of q w).1 with
    | [0; i; retry] =>
        if (1 <=? i) && (i <=? Z.of_nat (length (buckets_of q)))
        then r = Err (too_many (Z.max 1 (- (- retry / 1000)))) else r = Ok tt
    | _ => r = Ok tt
    end
  else r = Ok tt ∧ (lw_server w' = lw_server w ∨ lw_server w' = (script_of q w).2).
Proof.
  destruct (buckets_configured q) as (Hcfg & _ & Hguard & Hne). unfold checked, try_consume.
  rewrite bool_decide_false by done. unfold eff_catch, mbind, eff_bind, new_member, eff_lift, call_script, through.
  rewrite Hguard. cbn [lw_links lw_server lw_minted]. fold (member_of w). fold (script_of q w). unfold answers.
  destruct (lw_links w) as [|[] links]; cbn [is_app_error internal_error].
  2,3,4: idtac.
  all: try (intros [= <- <-]; split; [done|]; split; [done|]; by auto).
  all: destruct (script_of q w) as [outcome s'] eqn:Hs; unfold script_of in Hs;
    destruct (consume_lua_spec limit_of_key window_of_key _ _ _ _ _ Hcfg Hs)
      as [(s1 & -> & _)|(pre & b & post & Hsplit & _ & _ & _ & ->)]; cbn [fst snd];
    [intros [= <- <-]; by split_and!|].
  all: unfold verdict; cbn [Z.eqb orb]; set (i := 1 + Z.of_nat (length pre));
    destruct ((1 <=? i) && (i <=? Z.of_nat (length (buckets_of q)))) eqn:Hi; cbn [negb];
    [|intros [= <- <-]; by split_and!].
  all: destruct (lookup_lt_is_Some_2 (buckets_of q) (Z.to_nat (i - 1))) as [rb Hrb];
    [apply andb_prop in Hi as [Hi1%Z.leb_le Hi2%Z.leb_le]; lia|].
  all: rewrite Hrb; cbn [rv_allowed rv_retry_after_s]; intros [= <- <-]; split; [done|]; split; [done|].
  all: unfold eff_raise, too_many, rate_limited_init; cbn; by rewrite (proj2 (Z.ltb_lt 0 _)) by lia.
Qed.

(** ** Any traffic *)

(** The requests that the limiter answered and let pass, with their instants. *)
Abbreviation passed := (list (Z * request)).

Inductive api_step : LimiterWorld S * passed → LimiterWorld S * passed → Prop :=
  | api_time d w log : 0 ≤ d →
      api_step (w, log) (mk_LimiterWorld (pass_time d (lw_server w)) (lw_minted w) (lw_links w), log)
  | api_network links w log : api_step (w, log) (mk_LimiterWorld (lw_server w) (lw_minted w) links, log)
  | api_request q r w w' log : checked (buckets_of q) w = (r, w') →
      api_step (w, log) (w', if answers w && is_ok r then (now_ms (lw_server w), q) :: log else log).

Definition passed_in (p : request → bool) (a : Z) (log : passed) : nat :=
  length (List.filter (λ e, p e.2 && (a <? e.1) && (e.1 <=? a + 60000)) log).

Definition by_user (user : text) (q : request) : bool :=
  match q with ApiRequest u _ => bool_decide (u = user) | HeavyJob _ => false end.
Definition in_workspace (workspace : text) (q : request) : bool :=
  match q with ApiRequest _ ws => bool_decide (ws = workspace) | HeavyJob _ => false end.
Definition job_of (user : text) (q : request) : bool :=
  match q with ApiRequest _ _ => false | HeavyJob u => bool_decide (u = user) end.

Abbreviation race_of := (race_step limit_of_key window_of_key).

(** What the log of the API has to do with that of the server. *)
Definition api_inv (s0 : S) (c : LimiterWorld S * passed) : Prop :=
  ∃ rlog : list admission, rtc race_of (mk_Race s0 []) (mk_Race (lw_server c.1) rlog) ∧
    (∀ m, m ∈ rlog.*1.*2 → ∃ i, (i < lw_minted c.1)%nat ∧ m = uuid7 i) ∧
    ((λ e, (e.1, keys_of e.2)) <$> c.2) `sublist_of` ((λ e : admission, (e.1.1, e.2)) <$> rlog).

Lemma script_step q w rlog :
  (∀ m, m ∈ rlog.*1.*2 → ∃ i, (i < lw_minted w)%nat ∧ m = uuid7 i) →
  race_of (mk_Race (lw_server w) rlog)
    (mk_Race (script_of q w).2
       (if bool_decide ((script_of q w).1 = [1; 0; 0]) then (now_ms (lw_server w), member_of w, keys_of q) :: rlog else rlog)).
Proof.
  intros Hold. destruct (buckets_configured q) as (Hcfg & _). destruct (script_of q w) as [outcome s'] eqn:Hs.
  unfold script_of in Hs. cbn [fst snd].
  assert (keys_of q = (script_window <$> buckets_of q).*1.*1) as Hkeys.
  { unfold keys_of. by rewrite <- !list_fmap_compose. }
  pose proof (consume_lua_spec _ _ _ _ _ _ _ Hcfg Hs) as [(s1 & -> & _)|(pre & b & post & _ & _ & _ & _ & ->)].
  - rewrite bool_decide_true by done. rewrite Hkeys. eapply step_admitted; [exact Hcfg| |exact Hs].
    intros (i & Hi & Heq)%Hold. apply uuid7_inj in Heq. lia.
  - rewrite bool_decide_false by done. eapply step_refused; [exact Hcfg|exact Hs].
Qed.

Lemma api_step_inv s0 c c' : api_step c c' → api_inv s0 c → api_inv s0 c'.
Proof.
  intros Hstep (rlog & Hrun & Hold & Hsub). destruct Hstep as [d w log Hd|links w log|q r w w' log Hc]; cbn [fst snd] in *.
  - exists rlog. split_and!; [|done|done]. eapply rtc_r; [exact Hrun|by apply step_time].
  - by exists rlog.
  - destruct (checked_spec _ _ _ _ Hc) as [Hminted Hr]. pose proof (script_step q w rlog Hold) as Hstep.
    assert (∀ m, m ∈ rlog.*1.*2 → ∃ i, (i < lw_minted w')%nat ∧ m = uuid7 i) as Hold'.
    { intros m (i & Hi & ->)%Hold. exists i. split; [lia|done]. }
    set (rlog' := if bool_decide ((script_of q w).1 = [1; 0; 0]) then (now_ms (lw_server w), member_of w, keys_of q) :: rlog else rlog) in *.
    assert (∀ m, m ∈ rlog'.*1.*2 → ∃ i, (i < lw_minted w')%nat ∧ m = uuid7 i) as Hnew.
    { subst rlog'. case_match; [|done]. intros m [->|Hm]%elem_of_cons; [|by apply Hold']. exists (lw_minted w). split; [lia|done]. }
    assert (rtc race_of (mk_Race s0 []) (mk_Race (script_of q w).2 rlog')) as Hrun' by (eapply rtc_r; done).
    assert (rlog `sublist_of` rlog') as Hgrow by (subst rlog'; case_match; [by apply sublist_cons|done]).
    assert (((λ e : Z * request, (e.1, keys_of e.2)) <$> log) `sublist_of` ((λ e : admission, (e.1.1, e.2)) <$> rlog')) as Hsub'.
    { etrans; [exact Hsub|by apply fmap_sublist]. }
    destruct (answers w) eqn:Ha; cbn [andb].
    + destruct Hr as [Hserver Hr]. exists rlog'. cbn [fst snd]. rewrite Hserver. split_and!; [done|done|].
      destruct (is_ok r) eqn:Hok; [|done]. subst rlog'. case_bool_decide as Hadm; [by constructor|].
      destruct (buckets_configured q) as (Hcfg & Hlim & _). destruct (script_of q w) as [outcome s'] eqn:Hs.
      unfold script_of in Hs. cbn [fst snd] in *.
      pose proof (race_reachable limit_of_key window_of_key s0) as _.
      destruct (consume_lua_spec _ _ _ _ _ _ _ Hcfg Hs) as [(s1 & -> & _)|(pre & b & post & Hsplit & _ & _ & _ & ->)]; [done|].
      exfalso. apply (f_equal length) in Hsplit. rewrite length_fmap, length_app in Hsplit. cbn in Hsplit, Hr.
      rewrite (proj2 (Z.leb_le 1 _)), (proj2 (Z.leb_le _ (Z.of_nat (length (buckets_of q))))) in Hr by lia.
      cbn in Hr. by subst r.
    + destruct Hr as [-> [Hserver|Hserver]]; [exists rlog|exists rlog']; cbn [fst snd]; by rewrite Hserver.
Qed.

Lemma api_reachable s0 n links c : rtc api_step (mk_LimiterWorld s0 n links, []) c → api_inv s0 c.
Proof.
  apply (rtc_invariant api_step (api_inv s0)); [intros x y Hx Hy; by eapply api_step_inv|].
  exists []. split_and!; [done|by intros m ?%elem_of_nil|done].
Qed.

Lemma sublist_count {A} (p : A → bool) (l k : list A) : l `sublist_of` k → (length (List.filter p l) ≤ length (List.filter p k))%nat.
Proof. induction 1 as [|x l k _ IH|x l k _ IH]; cbn; [done| |]; destruct (p x); cbn; lia. Qed.

Lemma passed_admitted p k a (log : passed) (rlog : list admission) :
  (∀ q, p q = true → k ∈ keys_of q) →
  ((λ e, (e.1, keys_of e.2)) <$> log) `sublist_of` ((λ e : admission, (e.1.1, e.2)) <$> rlog) →
  (passed_in p a log ≤ admitted_in window_of_key k a rlog)%nat.
Proof.
  intros Hp Hsub.
  set (test := λ e : Z * list text, bool_decide (k ∈ e.2) && (a <? e.1) && (e.1 <=? a + 60000)).
  apply (sublist_count test) in Hsub.
  assert (admitted_in window_of_key k a rlog = length (List.filter test ((λ e : admission, (e.1.1, e.2)) <$> rlog))) as ->.
  { unfold admitted_in. clear. induction rlog as [|e l IH]; [done|]. cbn [fmap list_fmap List.filter].
    change (test (e.1.1, e.2)) with (in_bucket window_of_key k a e). destruct (in_bucket _ k a e); cbn [length]; by rewrite IH. }
  etrans; [|exact Hsub]. unfold passed_in. clear Hsub. induction log as [|[t q] log IH]; [done|].
  cbn [fmap list_fmap List.filter fst snd]. assert (p q && (a <? t) && (t <=? a + 60000) = true → test (t, keys_of q) = true) as Himp.
  { intros [[Hpq Ht]%andb_prop Ht2]%andb_prop. unfold test. cbn [fst snd]. by rewrite bool_decide_true, Ht, Ht2 by by apply Hp. }
  destruct (p q && _ && _) eqn:E1; destruct (test (t, keys_of q)) eqn:E2; cbn [length]; try lia.
Qed.

(** C31: Whatever traffic the processes of the API see, however the network treats their
    calls and however long they wait: of the requests the limiter answered, no minute
    passes more of one user, of one workspace or of one user's heavy jobs than the settings
    say; a check that is not answered lets the request pass, and one that refuses answers
    429 with a hint between one second and a minute. *)
Theorem api_limits_hold (s0 : S) n links w (log : passed) (a : Z)
    (Hempty : ∀ k, zget s0 k = ∅) (Hrun : rtc api_step (mk_LimiterWorld s0 n links, []) (w, log)) :
  (∀ user, Z.of_nat (passed_in (by_user user) a log) ≤ user_per_min api) ∧
  (∀ ws, Z.of_nat (passed_in (in_workspace ws) a log) ≤ workspace_per_min api) ∧
  (∀ user, Z.of_nat (passed_in (job_of user) a log) ≤ jobs_per_min heavy) ∧
  ∀ q r w', checked (buckets_of q) w = (r, w') →
    r = Ok tt ∨ answers w = true ∧ ∃ seconds, r = Err (too_many seconds) ∧ 1 ≤ seconds ≤ 60.
Proof.
  destruct (api_reachable _ _ _ _ Hrun) as (rlog & Hrace & Hold & Hsub). cbn [fst snd] in *.
  pose proof (race_reachable limit_of_key window_of_key s0 _ Hempty Hrace) as Hinv.
  assert (∀ p k, (∀ q, p q = true → k ∈ keys_of q) → 0 < limit_of_key k →
    Z.of_nat (passed_in p a log) ≤ limit_of_key k) as Hbound.
  { intros p k Hp Hk. pose proof (inv_count _ _ _ Hinv k a Hk) as Hc. cbn [rc_log] in Hc.
    pose proof (passed_admitted p k a log rlog Hp Hsub). lia. }
  split_and!.
  - intros user. rewrite <- (limit_of_user user). apply Hbound; [|by rewrite limit_of_user].
    intros [u ws|u]; cbn [by_user]; [intros ->%bool_decide_eq_true; left|done].
  - intros ws. rewrite <- (limit_of_workspace ws). apply Hbound; [|by rewrite limit_of_workspace].
    intros [u ws'|u]; cbn [in_workspace]; [intros ->%bool_decide_eq_true; right; left|done].
  - intros user. rewrite <- (limit_of_heavy user). apply Hbound; [|by rewrite limit_of_heavy].
    intros [u ws|u]; cbn [job_of]; [done|intros ->%bool_decide_eq_true; left].
  - intros q r w' [_ Hr]%checked_spec. destruct (answers w) eqn:Ha; [|by left; destruct Hr as [-> _]].
    destruct Hr as [_ Hr]. destruct (buckets_configured q) as (Hcfg & Hlim & _).
    destruct (script_of q w) as [outcome s'] eqn:Hs. unfold script_of in Hs. cbn [fst snd] in Hr.
    destruct (consume_lua_spec _ _ _ _ _ _ _ Hcfg Hs) as [(s1 & -> & _)|(pre & b & post & _ & _ & _ & _ & ->)]; [by left|].
    destruct (retry_bounded _ _ _ _ _ _ _ _ Hinv Hcfg Hlim Hs) as [_ (c & Hc & Hlo & Hhi)].
    apply list_elem_of_fmap in Hc as (rb & -> & Hrb).
    assert ((script_window rb).2 = 60000) as Hw.
    { destruct q; cbn in Hrb; repeat (apply elem_of_cons in Hrb as [->|Hrb]; [done|]); by apply elem_of_nil in Hrb. }
    rewrite Hw in Hhi. destruct (_ && _); [|by left]. right. split; [done|]. eexists. split; [exact Hr|].
    split; [lia|]. apply Z.max_lub; [lia|]. match goal with |- - (- ?m / 1000) ≤ 60 => assert (-60 ≤ - m / 1000) end; [|lia].
    apply Z.div_le_lower_bound; lia.
Qed.
End Api.

(** ** Concrete traffic *)

Section Demo.
#[local] Instance limiter_env : Env := demo_env 0.

Definition demo_api : ApiRateLimiter := mk_ApiRateLimiter 2 5.
Definition demo_heavy : HeavyJobRateLimiter := mk_HeavyJobRateLimiter 1.

Definition ask : LimiterWorld memory_server → result exn unit * LimiterWorld memory_server :=
  checked (buckets_of demo_api demo_heavy (ApiRequest (txt "u") (txt "w"))).

(** Two requests pass; the third, 20 seconds later, is told to come back in 40. *)
Definition world0 : LimiterWorld memory_server := mk_LimiterWorld empty_server 0 [].
Definition later (w : LimiterWorld memory_server) : LimiterWorld memory_server :=
  mk_LimiterWorld (pass_time 20000 (lw_server w)) (lw_minted w) (lw_links w).
Definition world1 := (ask world0).2.
Definition world2 := (ask world1).2.
Definition world3 := later world2.

Example third_request_waits : (ask world0).1 = Ok tt ∧ (ask world1).1 = Ok tt ∧ (ask world3).1 = Err (too_many 40).
Proof. split_and!; vm_compute; reflexivity. Qed.

Definition demo_log : list (Z * request) := [(0, ApiRequest (txt "u") (txt "w")); (0, ApiRequest (txt "u") (txt "w"))].

Lemma demo_traffic : rtc (api_step demo_api demo_heavy) (world0, []) (world3, demo_log).
Proof.
  assert (ask world0 = (Ok tt, world1)) as H1 by (vm_compute; reflexivity).
  assert (ask world1 = (Ok tt, world2)) as H2 by (vm_compute; reflexivity).
  eapply rtc_l; [exact (api_request demo_api demo_heavy _ _ world0 world1 [] H1)|].
  eapply rtc_l; [exact (api_request demo_api demo_heavy _ _ world1 world2 _ H2)|].
  eapply rtc_l; [|apply rtc_refl]. exact (api_time demo_api demo_heavy 20000 world2 _ ltac:(lia)).
Qed.

Lemma api_limits_hold_witness :
  passed_in (by_user (txt "u")) (-1) demo_log = 2%nat ∧ Z.of_nat (passed_in (by_user (txt "u")) (-1) demo_log) ≤ 2.
Proof.
  split; [vm_compute; reflexivity|].
  destruct (api_limits_hold demo_api demo_heavy ltac:(reflexivity) ltac:(reflexivity) ltac:(reflexivity)
    empty_server 0 [] world3 demo_log (-1) empty_keys demo_traffic) as [Hu _].
  exact (Hu (txt "u")).
Defined.

Definition demo_window : window := (txt "k", 1, 60000).
Definition full_server : memory_server := (consume_lua (txt "m") [demo_window] empty_server).2.
Definition demo_race : Race (S := memory_server) := mk_Race full_server [(0, txt "m", [txt "k"])].

Lemma demo_configured : Forall (configured (λ _, 1) (λ _, 60000)) [demo_window].
Proof. by repeat constructor. Qed.

Lemma demo_race_run : rtc (race_step (λ _, 1) (λ _, 60000)) (mk_Race empty_server []) demo_race.
Proof.
  eapply rtc_l; [|apply rtc_refl].
  change demo_race with (mk_Race full_server [(now_ms empty_server, txt "m", [demo_window].*1.*1)]).
  apply (step_admitted _ _ (txt "m") [demo_window] empty_server full_server []).
  - exact demo_configured.
  - by intros ?%elem_of_nil.
  - vm_compute. reflexivity.
Qed.

Lemma no_window_overflows_witness :
  Z.of_nat (admitted_in (λ _, 60000) (txt "k") (-1) (rc_log demo_race)) ≤ 1 ∧
  admitted_in (λ _, 60000) (txt "k") (-1) (rc_log demo_race) = 1%nat.
Proof.
  split; [|vm_compute; reflexivity].
  exact (no_window_overflows (λ _, 1) (λ _, 60000) empty_server demo_race (txt "k") (-1) empty_keys
    demo_race_run ltac:(reflexivity)).
Defined.

Definition refused_server : memory_server := (consume_lua (txt "n") [demo_window] full_server).2.

Lemma refusals_cost_nothing_and_hint_exactly_witness :
  room (pass_time 59999 refused_server) demo_window = false ∧ room (pass_time 60000 refused_server) demo_window = true.
Proof.
  assert (consume_lua (txt "n") [demo_window] full_server = ([0; 1; 60000], refused_server)) as Hc
    by (vm_compute; reflexivity).
  destruct (refusals_cost_nothing_and_hint_exactly (λ _, 1) (λ _, 60000) empty_server demo_race (txt "n") [demo_window]
    1 60000 refused_server empty_keys demo_race_run demo_configured ltac:(by repeat constructor) Hc)
    as (_ & b & Hb & _ & _ & Hroom).
  cbn in Hb. injection Hb as <-. split; [exact (Hroom 59999 ltac:(lia))|exact (Hroom 60000 ltac:(lia))].
Defined.
End Demo.
