(* ===== verification/WsRegistry.v ===== *)
(** * WsRegistry: the connections of a user, counted across processes

    [framework/ports/ws_connection_registry.py] and
    [infrastructure/streaming/redis_connection_registry.py] with its Lua scripts. *)

From S2P Require Import Prelude Text Calendar Errors Framework ZSets.
From stdpp Require Import gmap.

Open Scope Z_scope.

(** ** The scripts *)

Section Scripts.
Context {S : Type} `{ZServer S}.

Definition card (s : S) (key : text) : Z := Z.of_nat (size (zget s key)).

(** [ZREMRANGEBYSCORE key -inf now_ms - ttl_ms], the first command of each script. *)
Definition evict_aged (key : text) (ttl_ms : Z) (s : S) : S := zremrangebyscore key (now_ms s - ttl_ms) s.

(** [_ACQUIRE_LUA] *)
Definition acquire_lua (key member : text) (ttl_ms max_connections : Z) (s : S) : Z * S :=
  let s := evict_aged key ttl_ms s in
  if max_connections <=? card s key then (0, s)
  else (1, pexpire key ttl_ms (zadd key (now_ms s) member s)).

(** [_RENEW_LUA] *)
Definition renew_lua (key : text) (ttl_ms : Z) (members : list text) (s : S) : Z * S :=
  let s := evict_aged key ttl_ms s in
  let s := foldl (λ s m, zadd_xx_gt key (now_ms s) m s) s members in
  let s := pexpire key ttl_ms s in
  (card s key, s).

(** [_COUNT_LUA] *)
Definition count_lua (key : text) (ttl_ms : Z) (s : S) : Z * S :=
  let s := evict_aged key ttl_ms s in (card s key, s).
End Scripts.

(** ** The adapter *)

Definition CONN_KEY_PREFIX : text := txt "ws:conn".
Definition RENEW_CHUNK : nat := 100.

Definition conn_key_for (user_id : text) : text := CONN_KEY_PREFIX ++ [58] ++ user_id.
Definition ms (seconds : Z) : Z := seconds * 1000.

Definition registry_error : exn := App (raise_class AppError).

Section Adapter.
Context {S : Type} `{ZServer S}.

(** The server, and how the next calls to it will go. *)
Abbreviation redis := (S * list link)%type.
Abbreviation io := (eff redis exn).

Definition call {A} (script : S → A * S) : io A := λ w,
  let '(answer, server, links) := through script w.2 w.1 in
  (match answer with Some a => Ok a | None => Err registry_error end, (server, links)).

Definition try_acquire (user_id connection_id : text) (max_connections ttl_s : Z) : io bool :=
  admitted ← call (acquire_lua (conn_key_for user_id) connection_id (ms ttl_s) max_connections);
  mret (admitted =? 1).

(** [pipe.execute()]: every command is sent; one that failed makes the call fail, after
    the others have had their effect. *)
Fixpoint pipeline (commands : list (S → Z * S)) : io unit := λ w,
  match commands with
  | [] => (Ok tt, w)
  | c :: commands =>
      let '(r, w) := call c w in
      let '(rs, w) := pipeline commands w in
      (match r with Ok _ => rs | Err e => Err e end, w)
  end.

Fixpoint pipelines (chunks : list (list (S → Z * S))) : io unit :=
  match chunks with
  | [] => mret tt
  | chunk :: chunks => _ ← pipeline chunk; pipelines chunks
  end.

(** Users of no entry are not asked about. *)
Definition held (entries : list (text * list text)) : list (text * list text) :=
  List.filter (λ e, negb (bool_decide (e.2 = []))) entries.

Definition renewal (ttl_s : Z) (e : text * list text) : S → Z * S :=
  renew_lua (conn_key_for e.1) (ms ttl_s) e.2.

Definition renew (entries : list (text * list text)) (ttl_s : Z) : io unit :=
  if bool_decide (held entries = []) then mret tt
  else pipelines (List.map (List.map (renewal ttl_s)) (chunked RENEW_CHUNK (held entries))).

Definition release (user_id connection_id : text) : io unit :=
  call (λ s, (tt, zrem (conn_key_for user_id) connection_id s)).

Definition count (user_id : text) (ttl_s : Z) : io Z := call (count_lua (conn_key_for user_id) (ms ttl_s)).
End Adapter.

(** ** What the port promises

    A connection somebody was admitted with and has not released: whose it is, when its
    process last asked for it, and whether no two of those calls lay a lifetime apart. *)
Record Hold := mk_Hold { h_user : text; h_last : Z; h_punctual : bool }.

Abbreviation holds := (gmap text Hold).

Section Registry.
Context {S : Type} `{ZServerLaws S}.
Context (ttl max : Z) (max_natural : 0 <= max).
Implicit Types (s : S) (hs : holds) (u c : text).

Record Reg := mk_Reg { rg_server : S; rg_holds : holds }.

Definition refreshed (u : text) (ids : list text) (now : Z) (c : text) (h : Hold) : Hold :=
  if bool_decide (c ∈ ids) && bool_decide (h_user h = u)
  then mk_Hold u now (h_punctual h && (now - h_last h <? ttl)) else h.

Definition freed (u c : text) (hs : holds) : holds :=
  match hs !! c with
  | Some h => if bool_decide (h_user h = u) then delete c hs else hs
  | None => hs
  end.

(** The scripts of all processes, in any order and at any times; a connection identifier
    is fresh when it is used to acquire. *)
Inductive reg_step : Reg → Reg → Prop :=
  | reg_time d s hs : 0 <= d → reg_step (mk_Reg s hs) (mk_Reg (pass_time d s) hs)
  | reg_acquired u c s s' hs : hs !! c = None → acquire_lua (conn_key_for u) c ttl max s = (1, s') →
      reg_step (mk_Reg s hs) (mk_Reg s' (<[c := mk_Hold u (now_ms s) true]> hs))
  | reg_refused u c s s' hs : acquire_lua (conn_key_for u) c ttl max s = (0, s') →
      reg_step (mk_Reg s hs) (mk_Reg s' hs)
  | reg_renewed u ids s hs :
      reg_step (mk_Reg s hs)
        (mk_Reg (renew_lua (conn_key_for u) ttl ids s).2 (map_imap (λ c h, Some (refreshed u ids (now_ms s) c h)) hs))
  | reg_released u c s hs :
      reg_step (mk_Reg s hs) (mk_Reg (zrem (conn_key_for u) c s) (freed u c hs))
  | reg_counted u s hs :
      reg_step (mk_Reg s hs) (mk_Reg (count_lua (conn_key_for u) ttl s).2 hs).

(** Its process asked for it less than a lifetime ago, and never later than that before. *)
Definition attended (r : Reg) (c : text) (u : text) : Prop :=
  ∃ h, rg_holds r !! c = Some h ∧ h_user h = u ∧ h_punctual h = true ∧ now_ms (rg_server r) - ttl < h_last h.

Record reg_inv (r : Reg) : Prop := {
  reg_past c h : rg_holds r !! c = Some h → h_last h ≤ now_ms (rg_server r);
  reg_member c h : rg_holds r !! c = Some h → h_punctual h = true → now_ms (rg_server r) - ttl < h_last h →
    zget (rg_server r) (conn_key_for (h_user h)) !! c = Some (h_last h);
  reg_entry u c t : zget (rg_server r) (conn_key_for u) !! c = Some t →
    ∃ h, rg_holds r !! c = Some h ∧ h_user h = u ∧ h_last h = t;
  reg_expiry u c t x : zget (rg_server r) (conn_key_for u) !! c = Some t →
    expires (rg_server r) (conn_key_for u) = Some x → t + ttl ≤ x;
  reg_cap u : Z.of_nat (size (keep_above (now_ms (rg_server r) - ttl) (zget (rg_server r) (conn_key_for u)))) ≤ max
}.

Definition lifetime (_ : text) : Z := ttl.

Lemma conn_key_inj u u' : conn_key_for u = conn_key_for u' → u = u'.
Proof. unfold conn_key_for. intros Hk. by do 2 apply app_inv_head in Hk. Qed.

Lemma evict_aged_evicted key s : evicted lifetime s (evict_aged key ttl s).
Proof. apply (evicted_step lifetime key s s), evicted_refl. Qed.

Lemma evicted_reg_inv s s' hs : evicted lifetime s s' → reg_inv (mk_Reg s hs) → reg_inv (mk_Reg s' hs).
Proof.
  intros Hev [Hp Hm He Hx Hc]. pose proof (proj1 Hev) as Hn. split; cbn [rg_server rg_holds] in *; rewrite ?Hn.
  - done.
  - intros c h Hh Hpu Hl. eapply evicted_recent; [exact Hev|done|by apply Hm].
  - intros u c t Hz. by eapply He, evicted_entry.
  - intros u c t x Hz Hex. eapply Hx; [by eapply evicted_entry|by eapply evicted_expiry].
  - intros u. rewrite (evicted_young lifetime s s' _ _ Hev) by done. apply Hc.
Qed.

(** Moving the scores of the members that are there. *)
Lemma renew_scores key ids s :
  map_Forall (λ _ t, t ≤ now_ms s) (zget s key) →
  let s' := foldl (λ s m, zadd_xx_gt key (now_ms s) m s) s ids in
  now_ms s' = now_ms s ∧
  (∀ m, zget s' key !! m = if bool_decide (m ∈ ids) then const (now_ms s) <$> zget s key !! m else zget s key !! m) ∧
  (∀ k, k ≠ key → zget s' k = zget s k ∧ expires s' k = expires s k).
Proof.
  revert s; induction ids as [|i ids IH]; intros s Hs; cbn [foldl]; [by split_and!|].
  destruct (zadd_xx_gt_law key (now_ms s) i s) as (Hz & Ho & Hn). set (s1 := zadd_xx_gt key (now_ms s) i s) in *.
  assert (∀ m, zget s1 key !! m = if bool_decide (m = i) then const (now_ms s) <$> zget s key !! m else zget s key !! m) as Hone.
  { intros m. rewrite Hz. unfold zset_xx_gt. destruct (zget s key !! i) as [t|] eqn:Hi.
    - specialize (Hs i t Hi). cbn in Hs. destruct (Z.ltb_spec t (now_ms s)).
      + case_bool_decide; [subst m; by rewrite lookup_insert_eq, Hi|by rewrite lookup_insert_ne].
      + case_bool_decide; [subst m; rewrite Hi; cbn; f_equal; lia|done].
    - case_bool_decide; [by subst m; rewrite Hi|done]. }
  destruct (IH s1) as (IHn & IHz & IHo).
  { intros m t Hm. rewrite Hn. rewrite Hone in Hm. case_bool_decide; [|by apply (Hs m)].
    destruct (zget s key !! m); [|done]. cbn in Hm. injection Hm as <-. lia. }
  rewrite IHn, Hn. split; [done|]. split.
  - intros m. rewrite IHz, Hn, Hone.
    rewrite (bool_decide_ext (m ∈ i :: ids) (m = i ∨ m ∈ ids)) by (rewrite elem_of_cons; tauto).
    repeat case_bool_decide; try tauto; by destruct (zget s key !! m).
  - intros k Hk. destruct (IHo k Hk) as [-> ->]. by apply Ho.
Qed.

Lemma past_entries s hs u : reg_inv (mk_Reg s hs) → map_Forall (λ _ t, t ≤ now_ms s) (zget s (conn_key_for u)).
Proof. intros [Hp _ He _ _] c t Hz. destruct (He u c t Hz) as (h & Hh & _ & <-). by apply (Hp c). Qed.

Lemma renewed_inv u ids s hs : reg_inv (mk_Reg s hs) →
  reg_inv (mk_Reg (renew_lua (conn_key_for u) ttl ids s).2 (map_imap (λ c h, Some (refreshed u ids (now_ms s) c h)) hs)).
Proof.
  intros Hinv. set (key := conn_key_for u). set (s1 := evict_aged key ttl s).
  pose proof (evict_aged_evicted key s) as Hev. fold s1 in Hev. pose proof (proj1 Hev) as Hn1.
  pose proof (evicted_reg_inv _ _ _ Hev Hinv) as Hinv1.
  assert (∀ m t, zget s1 key !! m = Some t → now_ms s - ttl < t) as Hyoung.
  { intros m t. unfold s1, evict_aged. rewrite evict_key. by intros [_ ?]%lookup_keep_above. }
  destruct (renew_scores key ids s1 (past_entries _ _ _ Hinv1)) as (Hn2 & Hz2 & Ho2).
  unfold renew_lua. fold s1. cbn [snd]. set (s2 := foldl _ s1 ids) in *.
  destruct (pexpire_law key ttl s2) as (Hz3 & Ho3 & Hn3). pose proof (pexpire_sets key ttl s2) as Hx3.
  set (s3 := pexpire key ttl s2) in *. cbn [id] in Hz3.
  assert (now_ms s3 = now_ms s) as Hn by congruence.
  assert (∀ c h, map_imap (λ c h, Some (refreshed u ids (now_ms s) c h)) hs !! c = Some h ↔
    ∃ h0, hs !! c = Some h0 ∧ h = refreshed u ids (now_ms s) c h0) as Hhs.
  { intros c h. rewrite map_lookup_imap. destruct (hs !! c); cbn; split; [intros [= <-]; eauto|by intros (? & [= ->] & ->)|done|by intros (? & ? & _)]. }
  assert (∀ m, zget s3 key !! m = if bool_decide (m ∈ ids) then const (now_ms s) <$> zget s1 key !! m else zget s1 key !! m) as Hz.
  { intros m. by rewrite Hz3, Hz2, Hn1. }
  assert (∀ k, k ≠ key → zget s3 k = zget s1 k ∧ expires s3 k = expires s1 k) as Ho.
  { intros k Hk. destruct (Ho3 k Hk) as [-> ->]. by apply Ho2. }
  destruct Hinv1 as [Hp Hm He Hx Hc]. cbn [rg_server rg_holds] in *. rewrite Hn1 in *.
  split; cbn [rg_server rg_holds]; rewrite ?Hn.
  - intros c h (h0 & Hh0 & ->)%Hhs. unfold refreshed. case_match; cbn [h_last]; [lia|by apply (Hp c)].
  - intros c h (h0 & Hh0 & ->)%Hhs Hpu Hl. unfold refreshed in *.
    destruct (bool_decide (c ∈ ids) && bool_decide (h_user h0 = u)) eqn:Hb; cbn [h_last h_user h_punctual] in *.
    + apply andb_prop in Hb as [Hci%bool_decide_eq_true Hu%bool_decide_eq_true].
      apply andb_prop in Hpu as [Hpu Hlt%Z.ltb_lt]. fold key. rewrite Hz, bool_decide_true by done.
      assert (zget s1 key !! c = Some (h_last h0)) as -> by (unfold key; rewrite <- Hu; apply Hm; [done..|lia]). done.
    + destruct (decide (conn_key_for (h_user h0) = key)) as [Hk|Hk].
      * rewrite Hk, Hz. apply conn_key_inj in Hk as Hu. rewrite (bool_decide_true (h_user h0 = u)) in Hb by done.
        rewrite andb_true_r in Hb. rewrite Hb. rewrite <- Hk. by apply Hm.
      * destruct (Ho _ Hk) as [-> _]. by apply Hm.
  - intros u' c t Hzc. destruct (decide (conn_key_for u' = key)) as [Hk|Hk].
    + apply conn_key_inj in Hk as ->. fold key in Hzc. rewrite Hz in Hzc.
      assert (∃ t0, zget s1 key !! c = Some t0 ∧ t = if bool_decide (c ∈ ids) then now_ms s else t0) as (t0 & Ht0 & ->).
      { case_bool_decide; [|eauto]. destruct (zget s1 key !! c) eqn:E; [|done]. cbn in Hzc. injection Hzc as <-. eauto. }
      destruct (He u c t0 Ht0) as (h0 & Hh0 & Hu & Hl). exists (refreshed u ids (now_ms s) c h0).
      split; [apply Hhs; eauto|]. unfold refreshed. rewrite (bool_decide_true _ Hu), andb_true_r.
      case_bool_decide; cbn; [done|by split].
    + destruct (Ho _ Hk) as [Hzo _]. rewrite Hzo in Hzc. destruct (He u' c t Hzc) as (h0 & Hh0 & Hu & Hl).
      exists (refreshed u ids (now_ms s) c h0). split; [apply Hhs; eauto|]. unfold refreshed.
      rewrite (bool_decide_false (h_user h0 = u)) by (intros Hu'; apply Hk; unfold key; congruence).
      by rewrite andb_false_r.
  - intros u' c t x Hzc Hxc. destruct (decide (conn_key_for u' = key)) as [Hk|Hk].
    + rewrite Hk in *. assert (zget s2 key ≠ ∅) as Hne by (rewrite <- Hz3; intros E; by rewrite E in Hzc).
      rewrite (Hx3 Hne) in Hxc. injection Hxc as <-. rewrite Hn2. rewrite Hz in Hzc.
      assert (t ≤ now_ms s); [|lia]. case_bool_decide; [destruct (zget s1 key !! c); [cbn in Hzc; injection Hzc as <-; lia|done]|].
      rewrite <- Hk in Hzc. destruct (He u' c t Hzc) as (h & Hh & _ & <-). by apply (Hp c).
    + destruct (Ho _ Hk) as [Hzo Hxo]. rewrite Hzo in Hzc. rewrite Hxo in Hxc. by eapply Hx.
  - intros u'. destruct (decide (conn_key_for u' = key)) as [Hk|Hk].
    + rewrite Hk. specialize (Hc u'). rewrite Hk in Hc. rewrite (keep_above_all _ (zget s1 key)) in Hc by exact Hyoung.
      pose proof (keep_above_size (now_ms s - ttl) (zget s3 key)).
      assert (size (zget s3 key) = size (zget s1 key)) as Hsz; [|lia]. rewrite <- !size_dom. f_equal. apply set_eq.
      intros m. rewrite !elem_of_dom, Hz. case_bool_decide; [|done]. by destruct (zget s1 key !! m).
    + destruct (Ho _ Hk) as [-> _]. apply Hc.
Qed.

Lemma acquire_outcome u c s a s' : acquire_lua (conn_key_for u) c ttl max s = (a, s') →
  let young := size (keep_above (now_ms s - ttl) (zget s (conn_key_for u))) in
  let s1 := evict_aged (conn_key_for u) ttl s in
  (a = 0 ∧ max ≤ Z.of_nat young ∧ s' = s1) ∨
  (a = 1 ∧ Z.of_nat young < max ∧ s' = pexpire (conn_key_for u) ttl (zadd (conn_key_for u) (now_ms s1) c s1)).
Proof.
  unfold acquire_lua. unfold card. assert (zget (evict_aged (conn_key_for u) ttl s) (conn_key_for u) =
    keep_above (now_ms s - ttl) (zget s (conn_key_for u))) as -> by apply evict_key.
  destruct (Z.leb_spec max (Z.of_nat (size (keep_above (now_ms s - ttl) (zget s (conn_key_for u))))));
    intros [= <- <-]; [left|right]; done.
Qed.

Lemma acquired_inv u c s s' hs : hs !! c = None → reg_inv (mk_Reg s hs) →
  acquire_lua (conn_key_for u) c ttl max s = (1, s') →
  reg_inv (mk_Reg s' (<[c := mk_Hold u (now_ms s) true]> hs)).
Proof.
  intros Hfresh Hinv Ha. destruct (acquire_outcome _ _ _ _ _ Ha) as [[? _]|(_ & Hroom & ->)]; [done|].
  set (key := conn_key_for u) in *. set (s1 := evict_aged key ttl s).
  pose proof (evict_aged_evicted key s) as Hev. fold s1 in Hev. pose proof (proj1 Hev) as Hn1.
  pose proof (evicted_reg_inv _ _ _ Hev Hinv) as Hinv1.
  assert (zget s1 key = keep_above (now_ms s - ttl) (zget s key)) as Hs1 by apply evict_key. rewrite <- Hs1 in Hroom.
  destruct (zadd_law key (now_ms s1) c s1) as (Hz2 & Ho2 & Hn2). set (s2 := zadd key (now_ms s1) c s1) in *.
  destruct (pexpire_law key ttl s2) as (Hz3 & Ho3 & Hn3). pose proof (pexpire_sets key ttl s2) as Hx3.
  set (s3 := pexpire key ttl s2) in *. unfold id in Hz3. rewrite Hz2 in Hz3. rewrite Hn1 in *.
  assert (now_ms s3 = now_ms s) as Hn by congruence.
  assert (∀ k, k ≠ key → zget s3 k = zget s1 k ∧ expires s3 k = expires s1 k) as Ho.
  { intros k Hk. destruct (Ho3 k Hk) as [-> ->]. by apply Ho2. }
  assert (∀ u', zget s1 (conn_key_for u') !! c = None) as Hnone.
  { intros u'. destruct (zget s1 (conn_key_for u') !! c) as [t|] eqn:E; [|done].
    destruct (reg_entry _ Hinv1 u' c t E) as (h & Hh & _). cbn in Hh. congruence. }
  destruct Hinv1 as [Hp Hm He Hx Hc]. cbn [rg_server rg_holds] in *. rewrite Hn1 in *.
  split; cbn [rg_server rg_holds]; rewrite ?Hn.
  - intros c' h [[<- <-]|[_ Hh]]%lookup_insert_Some; [done|by apply (Hp c')].
  - intros c' h [[<- <-]|[Hne Hh]]%lookup_insert_Some Hpu Hl; cbn [h_user h_last].
    + fold key. by rewrite Hz3, lookup_insert_eq.
    + destruct (decide (conn_key_for (h_user h) = key)) as [Hk|Hk].
      * rewrite Hk, Hz3, lookup_insert_ne by done. rewrite <- Hk. by apply Hm.
      * destruct (Ho _ Hk) as [-> _]. by apply Hm.
  - intros u' c' t Hz. destruct (decide (conn_key_for u' = key)) as [Hk|Hk].
    + apply conn_key_inj in Hk as ->. fold key in Hz. rewrite Hz3 in Hz.
      apply lookup_insert_Some in Hz as [[<- <-]|[Hne Hz]]; [by rewrite lookup_insert_eq; eauto|].
      rewrite lookup_insert_ne by done. by apply He.
    + destruct (Ho _ Hk) as [Hzo _]. rewrite Hzo in Hz. rewrite lookup_insert_ne; [by apply He|].
      intros <-. by rewrite Hnone in Hz.
  - intros u' c' t x Hz Hxx. destruct (decide (conn_key_for u' = key)) as [Hk|Hk].
    + rewrite Hk in *. rewrite Hx3 in Hxx by (rewrite Hz2; apply insert_non_empty). injection Hxx as <-. rewrite Hn2.
      rewrite Hz3 in Hz. apply lookup_insert_Some in Hz as [[_ <-]|[_ Hz]]; [lia|]. rewrite <- Hk in Hz.
      destruct (He u' c' t Hz) as (h & Hh & _ & <-). specialize (Hp c' h Hh). lia.
    + destruct (Ho _ Hk) as [Hzo Hxo]. rewrite Hzo in Hz. rewrite Hxo in Hxx. by eapply Hx.
  - intros u'. destruct (decide (conn_key_for u' = key)) as [Hk|Hk].
    + rewrite Hk, Hz3. pose proof (keep_above_size (now_ms s - ttl) (<[c:=now_ms s]> (zget s1 key))) as Hle.
      specialize (Hnone u). fold key in Hnone. rewrite map_size_insert, Hnone in Hle. lia.
    + destruct (Ho _ Hk) as [-> _]. apply Hc.
Qed.

Lemma freed_lookup u c hs c' h :
  freed u c hs !! c' = Some h ↔ hs !! c' = Some h ∧ ¬ (c' = c ∧ h_user h = u).
Proof.
  unfold freed. destruct (hs !! c) as [h0|] eqn:Hc.
  - case_bool_decide as Hu; [rewrite lookup_delete_Some|]; (split; [intros Hh|intros [Hh Hn]]).
    + destruct Hh. split; [done|]. intros [<- _]. done.
    + split; [intros <-; apply Hn; split; congruence|done].
    + split; [done|]. intros [-> <-]. congruence.
    + done.
  - split; [intros Hh; split; [done|]; intros [-> _]; congruence|tauto].
Qed.

Lemma released_inv u c s hs : reg_inv (mk_Reg s hs) → reg_inv (mk_Reg (zrem (conn_key_for u) c s) (freed u c hs)).
Proof.
  intros [Hp Hm He Hx Hc]. destruct (zrem_law (conn_key_for u) c s) as (Hz & Ho & Hn).
  pose proof (zrem_expiry (conn_key_for u) c s) as Hex. set (s1 := zrem (conn_key_for u) c s) in *.
  assert (∀ u' c' t, zget s1 (conn_key_for u') !! c' = Some t ↔
    zget s (conn_key_for u') !! c' = Some t ∧ ¬ (c' = c ∧ u' = u)) as Hzz.
  { intros u' c' t. destruct (decide (u' = u)) as [->|Hu].
    - rewrite Hz, lookup_delete_Some. naive_solver.
    - destruct (Ho (conn_key_for u')) as [-> _]; [by intros ?%conn_key_inj|]. naive_solver. }
  split; cbn [rg_server rg_holds] in *; rewrite ?Hn.
  - intros c' h [Hh _]%freed_lookup. by apply (Hp c').
  - intros c' h [Hh Hne]%freed_lookup Hpu Hl. apply Hzz. split; [by apply Hm|done].
  - intros u' c' t [Hzc Hne]%Hzz. destruct (He u' c' t Hzc) as (h & Hh & <- & Hl). exists h.
    by split; [apply freed_lookup|].
  - intros u' c' t x Hzc Hxx. pose proof Hzc as [Hzc0 _]%Hzz. eapply Hx; [exact Hzc0|].
    destruct (decide (u' = u)) as [->|Hu].
    + rewrite <- Hex; [done|intros E; by rewrite E in Hzc|intros E; by rewrite E in Hzc0].
    + destruct (Ho (conn_key_for u')) as [_ <-]; [by intros ?%conn_key_inj|done].
  - intros u'. specialize (Hc u'). assert (keep_above (now_ms s - ttl) (zget s1 (conn_key_for u')) ⊆
      keep_above (now_ms s - ttl) (zget s (conn_key_for u'))) as Hsub; [|apply map_subseteq_size in Hsub; lia].
    apply map_subseteq_spec. intros c' t [[Hzc _]%Hzz Ht]%lookup_keep_above. by apply lookup_keep_above.
Qed.

Lemma reg_time_inv d s hs : 0 <= d → reg_inv (mk_Reg s hs) → reg_inv (mk_Reg (pass_time d s) hs).
Proof.
  intros Hd [Hp Hm He Hx Hc].
  assert (∀ k c t, zget (pass_time d s) k !! c = Some t → zget s k !! c = Some t) as Hsub.
  { intros k c t. destruct (pass_time_keys d s k Hd) as [-> _].
    destruct (expires s k); [destruct (_ <=? _)|]; done. }
  split; cbn [rg_server rg_holds] in *; rewrite ?pass_time_clock by done.
  - intros c h Hh. specialize (Hp c h Hh). lia.
  - intros c h Hh Hpu Hl. assert (zget s (conn_key_for (h_user h)) !! c = Some (h_last h)) as Hz by (apply Hm; [done|done|lia]).
    destruct (pass_time_keys d s (conn_key_for (h_user h)) Hd) as [-> _].
    destruct (expires s (conn_key_for (h_user h))) as [x|] eqn:Ex; [|done].
    specialize (Hx _ _ _ _ Hz Ex). destruct (Z.leb_spec x (now_ms s + d)); [lia|done].
  - intros u c t Hz. by apply (He u c t), Hsub.
  - intros u c t x Hz Hxx. destruct (pass_time_keys d s (conn_key_for u) Hd) as [_ Hex].
    rewrite Hex in Hxx by (intros E; by rewrite E in Hz). eapply Hx; [by apply Hsub|done].
  - intros u. specialize (Hc u). assert (keep_above (now_ms s + d - ttl) (zget (pass_time d s) (conn_key_for u)) ⊆
      keep_above (now_ms s - ttl) (zget s (conn_key_for u))) as Hle; [|apply map_subseteq_size in Hle; lia].
    apply map_subseteq_spec. intros c t [Hzc Ht]%lookup_keep_above. apply lookup_keep_above. split; [by apply Hsub|lia].
Qed.

Lemma reg_step_inv r r' : reg_step r r' → reg_inv r → reg_inv r'.
Proof.
  intros Hstep Hinv. destruct Hstep as [d s hs Hd|u c s s' hs Hf Ha|u c s s' hs Ha|u ids s hs|u c s hs|u s hs].
  - by apply reg_time_inv.
  - by apply acquired_inv.
  - destruct (acquire_outcome _ _ _ _ _ Ha) as [(_ & _ & ->)|[? _]]; [|done].
    eapply evicted_reg_inv; [apply evict_aged_evicted|done].
  - by apply renewed_inv.
  - by apply released_inv.
  - eapply evicted_reg_inv; [apply evict_aged_evicted|done].
Qed.

Lemma empty_reg_inv s : (∀ k, zget s k = ∅) → reg_inv (mk_Reg s ∅).
Proof.
  intros Hs. split; cbn [rg_server rg_holds]; [done|done|intros ???; by rewrite Hs|intros ????; by rewrite Hs|].
  intros u. rewrite Hs, keep_above_none, map_size_empty by apply map_Forall_empty. lia.
Qed.

Lemma reg_reachable s r : (∀ k, zget s k = ∅) → rtc reg_step (mk_Reg s ∅) r → reg_inv r.
Proof.
  intros Hs. apply (rtc_invariant reg_step reg_inv); [|by apply empty_reg_inv]. intros x y Hx Hy. by eapply reg_step_inv.
Qed.

Lemma attended_entry r u c : reg_inv r → attended r c u →
  ∃ t, keep_above (now_ms (rg_server r) - ttl) (zget (rg_server r) (conn_key_for u)) !! c = Some t.
Proof.
  intros Hinv (h & Hh & <- & Hpu & Hl). exists (h_last h). apply lookup_keep_above. split; [|done]. by apply (reg_member r Hinv).
Qed.

Lemma subset_size (z : zset) (l : list text) :
  NoDup l → (∀ c, c ∈ l → is_Some (z !! c)) → (length l ≤ size z)%nat.
Proof.
  intros Hnd Hin. rewrite <- (size_list_to_set (C := gset text) l Hnd), <- size_dom. apply subseteq_size.
  intros c Hc%elem_of_list_to_set. by apply elem_of_dom, Hin.
Qed.

Lemma counted_eq r u :
  (count_lua (conn_key_for u) ttl (rg_server r)).1 =
  Z.of_nat (size (keep_above (now_ms (rg_server r) - ttl) (zget (rg_server r) (conn_key_for u)))).
Proof. unfold count_lua, card, evict_aged. cbn [fst]. by rewrite evict_key. Qed.

Lemma counted_capped r u : reg_inv r → (count_lua (conn_key_for u) ttl (rg_server r)).1 ≤ max.
Proof. intros Hinv. rewrite counted_eq. by apply reg_cap. Qed.

Lemma attended_counted r u l : reg_inv r → NoDup l → (∀ c, c ∈ l → attended r c u) →
  Z.of_nat (length l) ≤ (count_lua (conn_key_for u) ttl (rg_server r)).1.
Proof.
  intros Hinv Hnd Hl. rewrite counted_eq. apply Nat2Z.inj_le, subset_size; [done|].
  intros c Hc. destruct (attended_entry r u c Hinv (Hl c Hc)) as [t Ht]. by exists t.
Qed.

Lemma attended_capped r u l : reg_inv r → NoDup l → (∀ c, c ∈ l → attended r c u) → Z.of_nat (length l) ≤ max.
Proof. intros Hinv Hnd Hl. etrans; [by apply attended_counted|by apply counted_capped]. Qed.

(** C33: However the scripts of all processes interleave and whenever they run, a user never
    has more attended connections than the ceiling; each of them is counted; what is
    counted was admitted for this user, is not released, and was asked for less than a
    lifetime ago - nothing released or aged out comes back; and a request is refused only
    where that many such connections exist. *)
Theorem registry_holds_the_cap (s : S) (r : Reg) (u : text)
    (Hempty : ∀ k, zget s k = ∅) (Hrun : rtc reg_step (mk_Reg s ∅) r) :
  (∀ l, NoDup l → (∀ c, c ∈ l → attended r c u) → Z.of_nat (length l) ≤ max) ∧
  ∃ counted : gset text,
    (count_lua (conn_key_for u) ttl (rg_server r)).1 = Z.of_nat (size counted) ∧
    (∀ c, attended r c u → c ∈ counted) ∧
    (∀ c, c ∈ counted → ∃ h, rg_holds r !! c = Some h ∧ h_user h = u ∧ now_ms (rg_server r) - ttl < h_last h) ∧
    ∀ c s', acquire_lua (conn_key_for u) c ttl max (rg_server r) = (0, s') → max = Z.of_nat (size counted).
Proof.
  pose proof (reg_reachable s r Hempty Hrun) as Hinv. split; [intros l; by apply attended_capped|].
  set (young := keep_above (now_ms (rg_server r) - ttl) (zget (rg_server r) (conn_key_for u))).
  exists (dom young). rewrite size_dom. split.
  { apply counted_eq. }
  split; [intros c Hc; by apply elem_of_dom, attended_entry|]. split.
  - intros c [t [Hz Ht]%lookup_keep_above]%elem_of_dom. destruct (reg_entry r Hinv u c t Hz) as (h & Hh & Hu & Hl).
    exists h. rewrite Hl. by split_and!.
  - intros c s' Ha. destruct (acquire_outcome _ _ _ _ _ Ha) as [(_ & Hfull & _)|[? _]]; [|done].
    pose proof (reg_cap r Hinv u) as Hcap. fold young in Hfull, Hcap. lia.
Qed.
End Registry.

(** A call that fails may have had its effect or not. *)
Lemma call_spec {S} `{ZServer S} {A} (script : S → A * S) w r w' :
  call script w = (r, w') →
  (w'.1 = w.1 ∧ r = Err registry_error) ∨
  (w'.1 = (script w.1).2 ∧ (r = Ok (script w.1).1 ∨ r = Err registry_error)).
Proof. unfold call, through. destruct w.2 as [|[] ?]; intros [= <- <-]; cbn; auto. Qed.

(** ** A run: one slot, two connections *)

Section RegistryDemo.
Definition demo_slot : Z * memory_server := acquire_lua (conn_key_for (txt "u")) (txt "c1") 90000 1 empty_server.
Definition demo_renewed : memory_server :=
  (renew_lua (conn_key_for (txt "u")) 90000 [txt "c1"; txt "c2"] (pass_time 20000 demo_slot.2)).2.
Definition demo_registry : Reg := mk_Reg demo_renewed {[txt "c1" := mk_Hold (txt "u") 20000 true]}.

Lemma demo_registry_run : rtc (reg_step 90000 1) (mk_Reg empty_server ∅) demo_registry.
Proof.
  eapply rtc_l.
  { apply (reg_acquired 90000 1 (txt "u") (txt "c1") empty_server demo_slot.2 ∅); [reflexivity|vm_compute; reflexivity]. }
  eapply rtc_l; [apply (reg_time 90000 1 20000); lia|].
  pose proof (reg_renewed 90000 1 (txt "u") [txt "c1"; txt "c2"] (pass_time 20000 demo_slot.2)
    (<[txt "c1" := mk_Hold (txt "u") 0 true]> ∅)) as Hrenewed.
  assert (map_imap (λ c h, Some (refreshed 90000 (txt "u") [txt "c1"; txt "c2"] (now_ms (pass_time 20000 demo_slot.2)) c h))
    (<[txt "c1" := mk_Hold (txt "u") 0 true]> ∅ : holds) = {[txt "c1" := mk_Hold (txt "u") 20000 true]}) as Hholds
    by (vm_compute; reflexivity).
  rewrite Hholds in Hrenewed. eapply rtc_l; [exact Hrenewed|apply rtc_refl].
Qed.

Lemma registry_holds_the_cap_witness :
  (acquire_lua (conn_key_for (txt "u")) (txt "c2") 90000 1 demo_renewed).1 = 0 ∧
  Z.of_nat (length [txt "c1"]) ≤ 1 ∧ attended 90000 demo_registry (txt "c1") (txt "u").
Proof.
  assert (attended 90000 demo_registry (txt "c1") (txt "u")) as Hatt.
  { exists (mk_Hold (txt "u") 20000 true). split; [reflexivity|]. split; [reflexivity|]. split; vm_compute; reflexivity. }
  split; [vm_compute; reflexivity|]. split; [|exact Hatt].
  destruct (registry_holds_the_cap 90000 1 ltac:(lia) empty_server demo_registry (txt "u") empty_keys demo_registry_run) as [Hcap _].
  apply Hcap; [apply NoDup_singleton|]. by intros c ->%list_elem_of_singleton.
Defined.
End RegistryDemo.
