(* ===== verification/Hub.v ===== *)
(** * Hub: live sessions, their outboxes and their share of the connection cap

    [framework/streaming/hub.py] and [framework/streaming/notifications.py].  Between two
    [await]s a coroutine runs alone, so each operation below is one such section. *)

From S2P Require Import Prelude Text Calendar Errors Framework Events ZSets WsRegistry.
From stdpp Require Import gmap.

Open Scope Z_scope.

(** ** Data *)

(** A session is known by its [id()]. *)
Abbreviation session := nat.

Record Slot := mk_Slot { slot_user : text; slot_connection : text }.

(** The payloads not yet taken, and whether the sender is inside [send_json]. *)
Record SessionOutbox := mk_SessionOutbox { ob_queue : list json; ob_sending : bool }.

Record HubConfig := mk_HubConfig { max_per_user : Z; entry_ttl_s : Z; renew_interval_s : Z; session_queue_size : Z }.

Definition DEFAULT_ENTRY_TTL_S : Z := 90.
Definition DEFAULT_RENEW_INTERVAL_S : Z := 20.
Definition DEFAULT_SESSION_QUEUE_SIZE : Z := 64.
Definition OVERFLOW_CLOSE_CODE : Z := 1013.
Definition RESTART_CLOSE_CODE : Z := 1012.
Definition DISABLED_CLOSE_CODE : Z := 1008.

Definition value_error : exn := Other "ValueError".

Definition new_ConnectionHub (max_connections_per_user entry_ttl renew_interval queue_size : Z) : result exn HubConfig :=
  _ ← raise_if (entry_ttl <=? renew_interval) value_error;
  _ ← raise_if (queue_size <? 1) value_error;
  Ok (mk_HubConfig max_connections_per_user entry_ttl renew_interval queue_size).

(** The hub of one process; [sent] is what each session's [send_json] was called with and
    [closes] the closes asked for, oldest first. *)
Record Hub := mk_Hub {
  by_workspace : gmap text (list session);
  slots : gmap session Slot;
  outboxes : gmap session SessionOutbox;
  sent : gmap session (list json);
  closes : list (session * Z)
}.

Definition empty_hub : Hub := mk_Hub ∅ ∅ ∅ ∅ [].

(** ** The sections of the coroutines *)

Definition sessions_of (h : Hub) (workspace : text) : list session := default [] (by_workspace h !! workspace).
Definition sent_to (h : Hub) (s : session) : list json := default [] (sent h !! s).

(** [try_register] once the registry has said yes. *)
Definition enrol (workspace user : text) (s : session) (connection : text) (h : Hub) : Hub :=
  mk_Hub (<[workspace := sessions_of h workspace ++ [s]]> (by_workspace h))
    (<[s := mk_Slot user connection]> (slots h))
    (<[s := mk_SessionOutbox [] false]> (outboxes h)) (sent h) (closes h).

Definition drop_from_routing (workspace : text) (s : session) (h : Hub) : Hub :=
  match by_workspace h !! workspace with
  | None => h
  | Some sessions =>
      if negb (bool_decide (s ∈ sessions)) then h
      else
        let sessions := remove_first s sessions in
        mk_Hub (if bool_decide (sessions = []) then delete workspace (by_workspace h)
                else <[workspace := sessions]> (by_workspace h))
          (slots h) (outboxes h) (sent h) (closes h)
  end.

Definition close_outbox (s : session) (h : Hub) : Hub :=
  mk_Hub (by_workspace h) (slots h) (delete s (outboxes h)) (sent h) (closes h).

Definition ask_close (s : session) (code : Z) (h : Hub) : Hub :=
  mk_Hub (by_workspace h) (slots h) (outboxes h) (sent h) (closes h ++ [(s, code)]).

Definition evict (workspace : text) (s : session) (h : Hub) : Hub :=
  ask_close s OVERFLOW_CLOSE_CODE (close_outbox s (drop_from_routing workspace s h)).

Definition set_outbox (s : session) (o : SessionOutbox) (h : Hub) : Hub :=
  mk_Hub (by_workspace h) (slots h) (<[s := o]> (outboxes h)) (sent h) (closes h).

Definition notification (event_type data : json) : json :=
  JObj [(txt "type", JStr (txt "notification")); (txt "event", event_type); (txt "data", data)].

(** The body of [notify]'s loop: [put_nowait], or [QueueFull]. *)
Definition offer (queue_size : Z) (workspace : text) (payload : json) (h : Hub) (s : session) : Hub :=
  match outboxes h !! s with
  | None => h
  | Some o =>
      if queue_size <=? Z.of_nat (length (ob_queue o)) then evict workspace s h
      else set_outbox s (mk_SessionOutbox (ob_queue o ++ [payload]) (ob_sending o)) h
  end.

Definition notify (queue_size : Z) (workspace : text) (event_type data : json) (h : Hub) : Hub :=
  foldl (offer queue_size workspace (notification event_type data)) h (sessions_of h workspace).

(** The sender task: it takes a payload and calls [send_json]; the call returns or fails. *)
Definition sender_takes (s : session) (h : Hub) : Hub :=
  match outboxes h !! s with
  | Some (mk_SessionOutbox (payload :: queue) false) =>
      mk_Hub (by_workspace h) (slots h) (<[s := mk_SessionOutbox queue true]> (outboxes h))
        (<[s := sent_to h s ++ [payload]]> (sent h)) (closes h)
  | _ => h
  end.

Definition sender_done (s : session) (h : Hub) : Hub :=
  match outboxes h !! s with
  | Some o => set_outbox s (mk_SessionOutbox (ob_queue o) false) h
  | None => h
  end.

(** [unregister] up to the release of the slot, if there is one. *)
Definition leave (workspace : text) (s : session) (h : Hub) : option Slot * Hub :=
  let h := drop_from_routing workspace s h in
  match slots h !! s with
  | None => (None, close_outbox s h)
  | Some slot => (Some slot, mk_Hub (by_workspace h) (delete s (slots h)) (outboxes h) (sent h) (closes h))
  end.

(** [disconnect_user]: whom it concerns, and what it does to each. *)
Definition sessions_of_user (user : text) (h : Hub) : list session :=
  List.filter (λ s, match slots h !! s with Some slot => bool_decide (slot_user slot = user) | None => false end)
    (concat (map_to_list (by_workspace h)).*2).

Definition disconnect (s : session) (h : Hub) : Hub := ask_close s DISABLED_CLOSE_CODE (close_outbox s h).

(** [drain]: the sessions it schedules, and the end of [_drain_one]. *)
Definition drain_sessions (h : Hub) : list (text * session) :=
  '(workspace, sessions) ← map_to_list (by_workspace h); pair workspace <$> sessions.

Definition drain_one (workspace : text) (s : session) (h : Hub) : Hub :=
  ask_close s RESTART_CLOSE_CODE (close_outbox s (drop_from_routing workspace s h)).

(** [by_user.setdefault(user, []).append(connection)] *)
Fixpoint add_entry (user connection : text) (entries : list (text * list text)) : list (text * list text) :=
  match entries with
  | [] => [(user, [connection])]
  | (u, ids) :: entries =>
      if bool_decide (u = user) then (u, ids ++ [connection]) :: entries
      else (u, ids) :: add_entry user connection entries
  end.

(** The entries [renew_once] asks to renew. *)
Definition renewal_entries (h : Hub) : list (text * list text) :=
  foldl (λ entries slot, add_entry (slot_user slot) (slot_connection slot) entries) [] (map_to_list (slots h)).*2.

Definition user_connection_count (user : text) (h : Hub) : Z :=
  Z.of_nat (length (List.filter (λ slot, bool_decide (slot_user slot = user)) (map_to_list (slots h)).*2)).
Definition workspace_session_count (workspace : text) (h : Hub) : Z := Z.of_nat (length (sessions_of h workspace)).
Definition session_backlog (s : session) (h : Hub) : Z :=
  match outboxes h !! s with Some o => Z.of_nat (length (ob_queue o)) | None => 0 end.

(** ** The coroutines, when nobody else runs at their [await]s *)

Section Coroutines.
Context `{Env} {S : Type} `{ZServer S}.
Variable config : HubConfig.

Record HubWorld := mk_HubWorld { hw_hub : Hub; hw_redis : S * list link; hw_minted : nat }.
Abbreviation io := (eff HubWorld exn).

Definition on_redis {A} (m : eff (S * list link) exn A) : io A := λ w,
  let '(r, redis) := m (hw_redis w) in (r, mk_HubWorld (hw_hub w) redis (hw_minted w)).

Definition on_hub {A} (f : Hub → A * Hub) : io A := λ w,
  let '(a, h) := f (hw_hub w) in (Ok a, mk_HubWorld h (hw_redis w) (hw_minted w)).

Definition hub_update (f : Hub → Hub) : io unit := on_hub (λ h, (tt, f h)).

Definition new_connection : io text := λ w,
  (Ok (uuid7 (hw_minted w)), mk_HubWorld (hw_hub w) (hw_redis w) (Datatypes.S (hw_minted w))).

Definition is_app_error (e : exn) : bool := match e with App _ => true | Other _ => false end.

Definition try_register (workspace user : text) (s : session) : io bool :=
  connection ← new_connection;
  admitted ← eff_catch (on_redis (try_acquire user connection (max_per_user config) (entry_ttl_s config)))
    is_app_error (λ _, mret false);
  if negb admitted then mret false
  else _ ← hub_update (enrol workspace user s connection); mret true.

Definition unregister (workspace : text) (s : session) : io unit :=
  slot ← on_hub (leave workspace s);
  match slot with
  | None => mret tt
  | Some slot =>
      _ ← eff_catch (on_redis (release (slot_user slot) (slot_connection slot))) is_app_error (λ _, mret tt);
      hub_update (close_outbox s)
  end.

Definition renew_once : io unit :=
  entries ← on_hub (λ h, (renewal_entries h, h));
  if bool_decide (entries = []) then mret tt
  else eff_catch (on_redis (renew entries (entry_ttl_s config))) is_app_error (λ _, mret tt).

Definition disconnect_user (user : text) : io unit :=
  sessions ← on_hub (λ h, (sessions_of_user user h, h));
  hub_update (λ h, foldl (λ h s, disconnect s h) h sessions).

Definition global_user_connection_count (user : text) : io Z := on_redis (count user (entry_ttl_s config)).

(** [make_notification_handler]: the envelope of an event of [ctx]'s workspace. *)
Definition notification_handle (ctx : ExecutionContext) (envelope : list (text * json)) : io unit :=
  match alist_get (txt "type") envelope with
  | None => eff_raise (Other "KeyError")
  | Some event_type =>
      let data := match alist_get (txt "data") envelope with Some (JObj fields) => JObj fields | _ => JObj [] end in
      hub_update (notify (session_queue_size config) (workspace_id ctx) event_type data)
  end.
End Coroutines.

(** ** What every session hears

    One process: its hub, what was announced so far, where and when each session joined,
    and the sessions whose endpoint has called [unregister]. *)

Section Delivery.
Variable size : Z.

Record Run := mk_Run {
  run_hub : Hub; run_news : list (text * json); run_joined : gmap session (text * nat); run_left : gset session
}.

Inductive run_step : Run → Run → Prop :=
  | run_admit ws user s c h news joined left : joined !! s = None →
      run_step (mk_Run h news joined left) (mk_Run (enrol ws user s c h) news (<[s := (ws, length news)]> joined) left)
  | run_leave ws s h news joined left :
      run_step (mk_Run h news joined left) (mk_Run (leave ws s h).2 news joined ({[s]} ∪ left))
  | run_close s h news joined left : s ∈ left →
      run_step (mk_Run h news joined left) (mk_Run (close_outbox s h) news joined left)
  | run_notify ws event data h news joined left :
      run_step (mk_Run h news joined left)
        (mk_Run (notify size ws event data h) (news ++ [(ws, notification event data)]) joined left)
  | run_takes s h news joined left :
      run_step (mk_Run h news joined left) (mk_Run (sender_takes s h) news joined left)
  | run_done s h news joined left :
      run_step (mk_Run h news joined left) (mk_Run (sender_done s h) news joined left)
  | run_disconnect s h news joined left :
      run_step (mk_Run h news joined left) (mk_Run (disconnect s h) news joined left)
  | run_drain ws s h news joined left :
      run_step (mk_Run h news joined left) (mk_Run (drain_one ws s h) news joined left).

Definition start : Run := mk_Run empty_hub [] ∅ ∅.

(** What was announced to a workspace from position [n] on. *)
Definition since (news : list (text * json)) (ws : text) (n : nat) : list json :=
  (List.filter (λ e, bool_decide (e.1 = ws)) (drop n news)).*2.

Definition routed (h : Hub) (ws : text) (s : session) : bool := bool_decide (s ∈ sessions_of h ws).

(** One session, which joined [ws] when [n] announcements had been made. *)
Record hears (h : Hub) (news : list (text * json)) (left : gset session) (s : session) (ws : text) (n : nat) : Prop := {
  hears_past : (n ≤ length news)%nat;
  hears_here ws' : s ∈ sessions_of h ws' → ws' = ws;
  hears_open o : outboxes h !! s = Some o →
    Z.of_nat (length (ob_queue o)) ≤ size ∧
    if routed h ws s then sent_to h s ++ ob_queue o = since news ws n
    else sent_to h s ++ ob_queue o `prefix_of` since news ws n;
  hears_closed : outboxes h !! s = None → sent_to h s `prefix_of` since news ws n;
  hears_told : (s ∈ sessions_of h ws ∧ is_Some (outboxes h !! s)) ∨ (∃ code, (s, code) ∈ closes h) ∨ s ∈ left
}.

Record run_inv (r : Run) : Prop := {
  inv_routes ws : NoDup (sessions_of (run_hub r) ws);
  inv_joined s : run_joined r !! s = None →
    outboxes (run_hub r) !! s = None ∧ sent (run_hub r) !! s = None ∧ ∀ ws, s ∉ sessions_of (run_hub r) ws;
  inv_hears s ws n : run_joined r !! s = Some (ws, n) → hears (run_hub r) (run_news r) (run_left r) s ws n
}.

(** *** What the operations do to one session *)

Lemma remove_first_absent x l : x ∉ l → remove_first x l = l.
Proof.
  induction l as [|y l IH]; cbn; [done|]. intros [Hne Hl]%not_elem_of_cons.
  destruct (Nat.eqb_spec x y); [done|]. by rewrite IH.
Qed.

Lemma sessions_drop ws s h ws' :
  sessions_of (drop_from_routing ws s h) ws' =
  if bool_decide (ws' = ws) then remove_first s (sessions_of h ws) else sessions_of h ws'.
Proof.
  unfold drop_from_routing, sessions_of. destruct (by_workspace h !! ws) as [l|] eqn:El.
  - case_bool_decide as Hin; cbn [negb].
    + case_bool_decide as Hnil; cbn [by_workspace]; case_bool_decide as Hws; try subst ws'.
      * rewrite lookup_delete_eq. cbn [default from_option id] in *. by rewrite Hnil.
      * by rewrite lookup_delete_ne.
      * by rewrite lookup_insert_eq.
      * by rewrite lookup_insert_ne.
    + case_bool_decide; [|done]. subst ws'. rewrite El. cbn. by rewrite remove_first_absent.
  - case_bool_decide; [|done]. subst ws'. by rewrite El.
Qed.

Lemma drop_rest ws s h :
  slots (drop_from_routing ws s h) = slots h ∧ outboxes (drop_from_routing ws s h) = outboxes h ∧
  sent (drop_from_routing ws s h) = sent h ∧ closes (drop_from_routing ws s h) = closes h.
Proof. unfold drop_from_routing. destruct (_ !! _); [|done]. by case_match. Qed.

(** Nothing that concerns this session has changed, but for closes asked for. *)
Record untouched (s : session) (h h' : Hub) : Prop := {
  untouched_routes ws : s ∈ sessions_of h' ws ↔ s ∈ sessions_of h ws;
  untouched_outbox : outboxes h' !! s = outboxes h !! s;
  untouched_sent : sent h' !! s = sent h !! s;
  untouched_closes : closes h ⊆ closes h'
}.

Lemma untouched_refl s h : untouched s h h.
Proof. by split. Qed.

Lemma untouched_trans s h1 h2 h3 : untouched s h1 h2 → untouched s h2 h3 → untouched s h1 h3.
Proof.
  intros [R1 O1 S1 C1] [R2 O2 S2 C2]. split; [intros ws; by rewrite R2, R1|congruence|congruence|by etrans].
Qed.

Lemma hears_untouched h h' news left left' s ws n :
  untouched s h h' → left ⊆ left' → hears h news left s ws n → hears h' news left' s ws n.
Proof.
  intros [Hr Ho Hs Hc] Hl [Hp Hh Hop Hcl Ht].
  assert (sent_to h' s = sent_to h s) as Hst by (unfold sent_to; by rewrite Hs).
  assert (routed h' ws s = routed h ws s) as Hro by (apply bool_decide_ext, Hr).
  split; [done|intros ws'; rewrite Hr; apply Hh|..]; rewrite ?Ho, ?Hst, ?Hro, ?Hr; [done|done|].
  destruct Ht as [?|[[code ?]|?]]; [by left|right; left; exists code; by apply Hc|right; right; by apply Hl].
Qed.

Lemma untouched_drop ws s s' h : s' ≠ s → (∀ ws', NoDup (sessions_of h ws')) → untouched s' h (drop_from_routing ws s h).
Proof.
  intros Hne Hnd. destruct (drop_rest ws s h) as (_ & Ho & Hs & Hc). split; [|by rewrite Ho|by rewrite Hs|by rewrite Hc].
  intros ws'. rewrite sessions_drop. case_bool_decide; [|done]. subst ws'.
  rewrite elem_of_remove_first by apply Hnd. tauto.
Qed.

Lemma untouched_close s s' h : s' ≠ s → untouched s' h (close_outbox s h).
Proof. intros Hne. split; cbn; [done|by rewrite lookup_delete_ne|done|done]. Qed.

Lemma untouched_ask s s' code h : untouched s' h (ask_close s code h).
Proof. split; cbn; [done|done|done|]. intros c Hc. apply elem_of_app. by left. Qed.

Lemma untouched_set s s' o h : s' ≠ s → untouched s' h (set_outbox s o h).
Proof. intros Hne. split; cbn; [done|by rewrite lookup_insert_ne|done|done]. Qed.

Lemma NoDup_drop ws s h : (∀ ws', NoDup (sessions_of h ws')) → ∀ ws', NoDup (sessions_of (drop_from_routing ws s h) ws').
Proof. intros Hnd ws'. rewrite sessions_drop. case_bool_decide; [apply NoDup_remove_first, Hnd|apply Hnd]. Qed.

Lemma since_length news ws : since news ws (length news) = [].
Proof. unfold since. by rewrite drop_all. Qed.

Lemma since_snoc news ws n ws' x : (n ≤ length news)%nat →
  since (news ++ [(ws', x)]) ws n = since news ws n ++ (if bool_decide (ws' = ws) then [x] else []).
Proof.
  intros Hn. unfold since. rewrite drop_app_le by done. rewrite List.filter_app, fmap_app. cbn.
  by case_bool_decide.
Qed.

(** A session that stays open or closed as it was, outside the routing from now on. *)
Lemma hears_unrouted h h' news left left' s ws n :
  hears h news left s ws n → (∀ ws', s ∉ sessions_of h' ws') →
  (outboxes h' !! s = outboxes h !! s ∨ outboxes h' !! s = None) → sent h' !! s = sent h !! s →
  left ⊆ left' → ((∃ code, (s, code) ∈ closes h') ∨ s ∈ left') → hears h' news left' s ws n.
Proof.
  intros [Hp Hh Hop Hcl Ht] Hr Ho Hs Hl Htold.
  assert (sent_to h' s = sent_to h s) as Hst by (unfold sent_to; by rewrite Hs).
  split; [done|by intros ws' ?%Hr| |rewrite Hst|by right].
  - intros o Hos. destruct Ho as [Ho|Ho]; [|congruence]. rewrite Ho in Hos. destruct (Hop o Hos) as [Hlen Hpre].
    split; [done|]. unfold routed at 1. rewrite bool_decide_false by apply Hr. rewrite Hst.
    destruct (routed h ws s); [by rewrite Hpre|done].
  - intros _. destruct (outboxes h !! s) as [o|] eqn:Eo; [|by apply Hcl].
    destruct (Hop o eq_refl) as [_ Hpre]. trans (sent_to h s ++ ob_queue o); [by exists (ob_queue o)|].
    destruct (routed h ws s); [by rewrite Hpre|done].
Qed.

(** Told to come back, or leaving of its own. *)
Definition told (h : Hub) (left : gset session) (s : session) : Prop := (∃ code, (s, code) ∈ closes h) ∨ s ∈ left.

Lemma hears_drop h news left s ws n ws' :
  (∀ ws', NoDup (sessions_of h ws')) → told h left s → hears h news left s ws n →
  hears (drop_from_routing ws' s h) news left s ws n.
Proof.
  intros Hnd Htold Hh. destruct (drop_rest ws' s h) as (_ & Ho & Hs & Hc). destruct (decide (ws' = ws)) as [->|Hne].
  - apply (hears_unrouted h _ _ left); rewrite ?Ho, ?Hs, ?Hc; [done| |by left|done|done|done].
    intros ws'. rewrite sessions_drop. case_bool_decide; [subst ws'|intros Hin; by apply (hears_here _ _ _ _ _ _ Hh) in Hin].
    rewrite elem_of_remove_first by apply Hnd. tauto.
  - eapply (hears_untouched h); [|reflexivity|done]. split; [|by rewrite Ho|by rewrite Hs|by rewrite Hc].
    intros ws''. rewrite sessions_drop. case_bool_decide; [subst ws''|done].
    rewrite elem_of_remove_first by apply Hnd. split; [tauto|]. intros Hin. by apply (hears_here _ _ _ _ _ _ Hh) in Hin.
Qed.

Lemma hears_close h news left s ws n :
  told h left s → hears h news left s ws n → hears (close_outbox s h) news left s ws n.
Proof.
  intros Htold [Hp Hh Hop Hcl Ht]. split; [done|done| | |by right].
  - intros o. cbn. by rewrite lookup_delete_eq.
  - intros _. change (sent_to (close_outbox s h) s) with (sent_to h s).
    destruct (outboxes h !! s) as [o|] eqn:Eo; [|by apply Hcl]. destruct (Hop o eq_refl) as [_ Hpre].
    trans (sent_to h s ++ ob_queue o); [by exists (ob_queue o)|]. destruct (routed h ws s); [by rewrite Hpre|done].
Qed.

Lemma drop_ask ws s s' code h : drop_from_routing ws s (ask_close s' code h) = ask_close s' code (drop_from_routing ws s h).
Proof. unfold drop_from_routing. cbn. destruct (by_workspace h !! ws); [|done]. by case_match. Qed.

Lemma told_ask s code h left : told (ask_close s code h) left s.
Proof. left. exists code. cbn. apply elem_of_app. right. by left. Qed.

(** Leaving the routing and the outbox with a close asked for: [evict] and [drain_one]. *)
Definition turn_away (ws : text) (s : session) (code : Z) (h : Hub) : Hub :=
  ask_close s code (close_outbox s (drop_from_routing ws s h)).

Lemma hears_turned_away h news left s ws n ws' code :
  (∀ ws', NoDup (sessions_of h ws')) → hears h news left s ws n →
  hears (turn_away ws' s code h) news left s ws n.
Proof.
  intros Hnd Hh.
  assert (turn_away ws' s code h = close_outbox s (drop_from_routing ws' s (ask_close s code h))) as ->.
  { unfold turn_away. by rewrite drop_ask. }
  apply hears_close; [|apply hears_drop; [done|apply told_ask|]].
  - destruct (drop_rest ws' s (ask_close s code h)) as (_ & _ & _ & Hc). unfold told. rewrite Hc. apply told_ask.
  - eapply hears_untouched; [apply untouched_ask|done|done].
Qed.

Lemma untouched_turned_away ws s s' code h :
  s' ≠ s → (∀ ws', NoDup (sessions_of h ws')) → untouched s' h (turn_away ws s code h).
Proof.
  intros Hne Hnd. eapply untouched_trans; [by apply (untouched_drop ws s)|].
  eapply untouched_trans; [by apply (untouched_close s)|]. apply untouched_ask.
Qed.

(** *** [notify] *)

Lemma untouched_offer ws x s s' h :
  s' ≠ s → (∀ ws', NoDup (sessions_of h ws')) → untouched s' h (offer size ws x h s).
Proof.
  intros Hne Hnd. unfold offer. destruct (outboxes h !! s) as [o|]; [|apply untouched_refl].
  case_match; [by apply untouched_turned_away|by apply untouched_set].
Qed.

Lemma NoDup_offer ws x s h : (∀ ws', NoDup (sessions_of h ws')) → ∀ ws', NoDup (sessions_of (offer size ws x h s) ws').
Proof.
  intros Hnd. unfold offer. destruct (outboxes h !! s) as [o|]; [|done]. case_match; [|done].
  by apply (NoDup_drop ws s h).
Qed.

Lemma hears_longer h news left s ws n ws' x :
  hears h news left s ws n → ¬ (ws' = ws ∧ s ∈ sessions_of h ws ∧ is_Some (outboxes h !! s)) →
  hears h (news ++ [(ws', x)]) left s ws n.
Proof.
  intros [Hp Hh Hop Hcl Ht] Hnot.
  assert (since news ws n `prefix_of` since (news ++ [(ws', x)]) ws n) as Hpre by (rewrite since_snoc by done; by eexists).
  split; [rewrite length_app; cbn; lia|done| |intros Ho; etrans; [by apply Hcl|done]|done].
  intros o Ho. destruct (Hop o Ho) as [Hlen Hq]. split; [done|]. unfold routed in *. case_bool_decide as Hin; [|by etrans].
  rewrite Hq, since_snoc, bool_decide_false, app_nil_r by (naive_solver || done). done.
Qed.

Lemma hears_offer h news left s ws n x :
  (∀ ws', NoDup (sessions_of h ws')) → s ∈ sessions_of h ws → hears h news left s ws n →
  hears (offer size ws x h s) (news ++ [(ws, x)]) left s ws n.
Proof.
  intros Hnd Hin Hh. unfold offer. destruct (outboxes h !! s) as [o|] eqn:Eo.
  2:{ apply hears_longer; [done|]. intros (_ & _ & [o Ho]). congruence. }
  destruct (Z.leb_spec size (Z.of_nat (length (ob_queue o)))).
  - apply hears_longer; [by apply hears_turned_away|]. intros (_ & _ & [o' Ho]).
    unfold evict, ask_close, close_outbox in Ho. cbn in Ho. by rewrite lookup_delete_eq in Ho.
  - destruct Hh as [Hp Hh Hop Hcl Ht]. destruct (Hop o Eo) as [Hlen Hq].
    assert (routed h ws s = true) as Hr by by apply bool_decide_eq_true. rewrite Hr in Hq.
    split; [rewrite length_app; cbn; lia|done| | |left; split; [done|cbn; by rewrite lookup_insert_eq]].
    + intros o'. cbn. rewrite lookup_insert_eq. intros [= <-]. cbn [ob_queue]. split; [rewrite length_app; cbn; lia|].
      change (routed _ ws s) with (routed h ws s). change (sent_to _ s) with (sent_to h s).
      by rewrite Hr, app_assoc, Hq, since_snoc, bool_decide_true.
    + cbn. by rewrite lookup_insert_eq.
Qed.

(** The rest of the loop: sessions still to be offered have heard the old announcements. *)
Lemma hears_notify ws x todo h news left s ws' n :
  NoDup todo → (∀ ws', NoDup (sessions_of h ws')) → (∀ s', s' ∈ todo → s' ∈ sessions_of h ws) →
  hears h (if bool_decide (s ∈ todo) then news else news ++ [(ws, x)]) left s ws' n →
  hears (foldl (offer size ws x) h todo) (news ++ [(ws, x)]) left s ws' n.
Proof.
  intros Htodo. revert h; induction Htodo as [|s0 todo Hs0 Htodo IH]; intros h Hnd Hin Hh; [done|].
  cbn [foldl]. apply IH; [by apply NoDup_offer| |].
  - intros s' Hs'. assert (s' ≠ s0) as Hne by (intros ->; done).
    apply (untouched_routes _ _ _ (untouched_offer ws x s0 s' h Hne Hnd)). apply Hin. by right.
  - destruct (decide (s = s0)) as [->|Hne].
    + rewrite bool_decide_true in Hh by left. rewrite bool_decide_false by done.
      assert (ws = ws') as <- by (by apply (hears_here _ _ _ _ _ _ Hh), Hin; left).
      apply hears_offer; [done|by apply Hin; left|done].
    + rewrite (bool_decide_ext (s ∈ s0 :: todo) (s ∈ todo)) in Hh by (rewrite elem_of_cons; tauto).
      eapply hears_untouched; [by apply untouched_offer|done|done].
Qed.

Lemma sessions_notify ws x todo h :
  (∀ ws', NoDup (sessions_of h ws')) → ∀ s ws', s ∈ sessions_of (foldl (offer size ws x) h todo) ws' → s ∈ sessions_of h ws'.
Proof.
  revert h; induction todo as [|s0 todo IH]; intros h Hnd s ws' Hs; [done|]. cbn [foldl] in Hs.
  apply IH in Hs; [|by apply NoDup_offer]. revert Hs. unfold offer. destruct (outboxes h !! s0); [|done]. case_match; [|done].
  change (sessions_of (evict ws s0 h) ws') with (sessions_of (drop_from_routing ws s0 h) ws'). rewrite sessions_drop.
  case_bool_decide; [subst ws'|done]. rewrite elem_of_remove_first by apply Hnd. tauto.
Qed.

Lemma NoDup_notify ws x todo h :
  (∀ ws', NoDup (sessions_of h ws')) → ∀ ws', NoDup (sessions_of (foldl (offer size ws x) h todo) ws').
Proof. revert h; induction todo as [|s todo IH]; intros h Hnd; [done|]. apply IH, NoDup_offer, Hnd. Qed.

Lemma untouched_notify ws x todo h s :
  s ∉ todo → (∀ ws', NoDup (sessions_of h ws')) → untouched s h (foldl (offer size ws x) h todo).
Proof.
  revert h; induction todo as [|s0 todo IH]; intros h Hs Hnd; [apply untouched_refl|]. cbn [foldl].
  apply not_elem_of_cons in Hs as [Hne Hs]. eapply untouched_trans; [by apply untouched_offer|].
  apply IH; [done|by apply NoDup_offer].
Qed.

(** *** The invariant *)

(** No session appears that was not there. *)
Definition shrinks (h h' : Hub) : Prop :=
  (∀ ws, NoDup (sessions_of h' ws)) ∧ (∀ s ws, s ∈ sessions_of h' ws → s ∈ sessions_of h ws) ∧
  ∀ s, outboxes h !! s = None → outboxes h' !! s = None ∧ sent h' !! s = sent h !! s.

Lemma shrinks_drop ws s h h' :
  (∀ ws', NoDup (sessions_of h ws')) →
  by_workspace h' = by_workspace (drop_from_routing ws s h) →
  (∀ s', outboxes h !! s' = None → outboxes h' !! s' = None ∧ sent h' !! s' = sent h !! s') → shrinks h h'.
Proof.
  intros Hnd Hb Ho. assert (∀ ws', sessions_of h' ws' = sessions_of (drop_from_routing ws s h) ws') as He.
  { intros ws'. unfold sessions_of. by rewrite Hb. }
  split_and!; [intros ws'; rewrite He; by apply NoDup_drop| |done].
  intros s' ws'. rewrite He, sessions_drop. case_bool_decide; [subst ws'|done].
  rewrite elem_of_remove_first by apply Hnd. tauto.
Qed.

Lemma shrinks_rest h h' : (∀ ws', NoDup (sessions_of h ws')) → by_workspace h' = by_workspace h →
  (∀ s', outboxes h !! s' = None → outboxes h' !! s' = None ∧ sent h' !! s' = sent h !! s') → shrinks h h'.
Proof. intros Hnd Hb Ho. unfold shrinks, sessions_of in *. rewrite Hb. by split_and!. Qed.

Lemma delete_None {A} (s s' : session) (m : gmap session A) : m !! s' = None → delete s m !! s' = None.
Proof. intros Hs. by rewrite lookup_delete_None; right. Qed.

Lemma shrinks_leave ws s h : (∀ ws', NoDup (sessions_of h ws')) → shrinks h (leave ws s h).2.
Proof.
  intros Hnd. destruct (drop_rest ws s h) as (_ & Ho & Hs & _). unfold leave.
  destruct (slots (drop_from_routing ws s h) !! s); (eapply (shrinks_drop ws s); [done|done|]); cbn; rewrite Ho, Hs; [done|].
  intros s' Hs'. by split; [apply delete_None|].
Qed.

Lemma shrinks_turned_away ws s code h : (∀ ws', NoDup (sessions_of h ws')) → shrinks h (turn_away ws s code h).
Proof.
  intros Hnd. destruct (drop_rest ws s h) as (_ & Ho & Hs & _). eapply (shrinks_drop ws s); [done|done|].
  cbn. rewrite Ho, Hs. intros s' Hs'. by split; [apply delete_None|].
Qed.

Lemma shrinks_close s h : (∀ ws', NoDup (sessions_of h ws')) → shrinks h (close_outbox s h).
Proof. intros Hnd. apply shrinks_rest; [done|done|]. cbn. intros s' Hs'. by split; [apply delete_None|]. Qed.

Lemma shrinks_takes s h : (∀ ws', NoDup (sessions_of h ws')) → shrinks h (sender_takes s h).
Proof.
  intros Hnd. unfold sender_takes. destruct (outboxes h !! s) as [[[|p q] []]|] eqn:Eo; try (by apply shrinks_rest).
  apply shrinks_rest; [done|done|]. cbn. intros s' Hs'. assert (s ≠ s') as Hne by (intros ->; congruence).
  by rewrite !lookup_insert_ne.
Qed.

Lemma shrinks_done s h : (∀ ws', NoDup (sessions_of h ws')) → shrinks h (sender_done s h).
Proof.
  intros Hnd. unfold sender_done. destruct (outboxes h !! s) as [o|] eqn:Eo; [|by apply shrinks_rest].
  apply shrinks_rest; [done|done|]. cbn. intros s' Hs'. assert (s ≠ s') as Hne by (intros ->; congruence).
  by rewrite !lookup_insert_ne.
Qed.

Lemma shrinks_notify ws x todo h : (∀ ws', NoDup (sessions_of h ws')) → shrinks h (foldl (offer size ws x) h todo).
Proof.
  intros Hnd. split_and!; [by apply NoDup_notify|by apply sessions_notify|].
  revert h Hnd; induction todo as [|s0 todo IH]; intros h Hnd s Hs; [done|]. cbn [foldl].
  assert (outboxes (offer size ws x h s0) !! s = None ∧ sent (offer size ws x h s0) !! s = sent h !! s) as [Ho Hst].
  { unfold offer. destruct (outboxes h !! s0) as [o|] eqn:Eo; [|done]. case_match.
    - by apply (shrinks_turned_away ws s0 OVERFLOW_CLOSE_CODE h).
    - cbn. split; [|done]. rewrite lookup_insert_ne; [done|]. intros ->. congruence. }
  destruct (IH _ (NoDup_offer ws x s0 h Hnd) s Ho) as [-> ->]. done.
Qed.

(** An operation on one session that is no admission. *)
Lemma one_session_inv s0 h h' news joined left left' :
  run_inv (mk_Run h news joined left) → shrinks h h' → left ⊆ left' → (∀ s, s ≠ s0 → untouched s h h') →
  (∀ ws n, hears h news left s0 ws n → hears h' news left' s0 ws n) → run_inv (mk_Run h' news joined left').
Proof.
  intros [Hnd Hj Hh] (Hnd' & Hin & Hs) Hl Hother Hself. split; cbn [run_hub run_news run_joined run_left] in *; [done| |].
  - intros s Hns. destruct (Hj s Hns) as (Ho & Hst & Hr). destruct (Hs s Ho) as [-> ->].
    split_and!; [done|done|]. intros ws Hws. by apply (Hr ws), Hin.
  - intros s ws n Hsj. specialize (Hh s ws n Hsj). destruct (decide (s = s0)) as [->|Hne]; [by apply Hself|].
    eapply hears_untouched; [by apply Hother|done|done].
Qed.

Lemma admit_sessions ws user s c h ws' :
  sessions_of (enrol ws user s c h) ws' = if bool_decide (ws' = ws) then sessions_of h ws ++ [s] else sessions_of h ws'.
Proof.
  unfold enrol, sessions_of. cbn. case_bool_decide; [subst ws'; by rewrite lookup_insert_eq|by rewrite lookup_insert_ne].
Qed.

Lemma admit_inv ws user s c h news joined left : 0 < size → joined !! s = None →
  run_inv (mk_Run h news joined left) →
  run_inv (mk_Run (enrol ws user s c h) news (<[s := (ws, length news)]> joined) left).
Proof.
  intros Hsize Hs [Hnd Hj Hh]. cbn [run_hub run_news run_joined run_left] in *. destruct (Hj s Hs) as (Ho & Hst & Hr).
  split; cbn [run_hub run_news run_joined run_left].
  - intros ws'. rewrite admit_sessions. case_bool_decide; [|done]. apply NoDup_app. split_and!; [done| |apply NoDup_singleton].
    intros s' Hs' ->%list_elem_of_singleton. by apply (Hr ws).
  - intros s' [Hs' Hne]%lookup_insert_None. destruct (Hj s' Hs') as (Ho' & Hst' & Hr'). cbn.
    rewrite lookup_insert_ne by done. split_and!; [done|done|]. intros ws'. rewrite admit_sessions.
    case_bool_decide; [|done]. subst ws'. intros [?| ->%list_elem_of_singleton]%elem_of_app; [by eapply Hr'|done].
  - intros s' ws' n [[<- Heq]|[Hne Hs']]%lookup_insert_Some.
    + injection Heq as <- <-. split; [done| | | |left].
      * intros ws'. rewrite admit_sessions. case_bool_decide; [done|]. by intros ?%Hr.
      * intros o. cbn. rewrite lookup_insert_eq. intros [= <-]. cbn. split; [lia|].
        unfold routed. rewrite admit_sessions, (bool_decide_true (ws = ws)) by done.
        rewrite bool_decide_true by (apply elem_of_app; right; by left).
        unfold sent_to. cbn. by rewrite Hst, since_length.
      * cbn. by rewrite lookup_insert_eq.
      * rewrite admit_sessions, bool_decide_true by done. split; [apply elem_of_app; right; by left|].
        cbn. by rewrite lookup_insert_eq.
    + eapply hears_untouched; [|reflexivity|by apply Hh]. split; cbn; [|by rewrite lookup_insert_ne|done|done].
      intros ws''. rewrite admit_sessions. case_bool_decide; [subst ws''|done]. rewrite elem_of_app, list_elem_of_singleton.
      split; [intros [?| ->]; done|by left].
Qed.

Lemma run_step_inv r r' : 0 < size → run_step r r' → run_inv r → run_inv r'.
Proof.
  intros Hsize Hstep Hinv. pose proof (inv_routes _ Hinv) as Hnd.
  destruct Hstep as [ws user s c h news joined left Hs|ws s h news joined left|s h news joined left Hs|
    ws event data h news joined left|s h news joined left|s h news joined left|s h news joined left|ws s h news joined left];
    cbn [run_hub] in Hnd.
  - by apply admit_inv.
  - apply (one_session_inv s h _ _ _ left); [done|by apply shrinks_leave|set_solver| |].
    + intros s' Hne. eapply untouched_trans; [by apply (untouched_drop ws s)|]. unfold leave.
      destruct (slots _ !! s); [done|by apply untouched_close].
    + intros ws' n Hh. assert (hears (drop_from_routing ws s h) news ({[s]} ∪ left) s ws' n) as Hd.
      { apply hears_drop; [done|right; set_solver|]. apply (hears_untouched h h news left); [apply untouched_refl|set_solver|done]. }
      unfold leave. destruct (slots _ !! s); cbn [snd].
      * eapply hears_untouched; [|reflexivity|exact Hd]. done.
      * apply hears_close; [right; set_solver|done].
  - apply (one_session_inv s h _ _ _ left); [done|by apply shrinks_close|done| |].
    + intros s' Hne. by apply untouched_close.
    + intros ws n Hh. apply hears_close; [by right|done].
  - pose proof Hinv as [_ Hj Hh]. cbn [run_hub run_news run_joined run_left] in *.
    destruct (shrinks_notify ws (notification event data) (sessions_of h ws) h Hnd) as (Hnd' & Hin & Hsh).
    split; cbn [run_hub run_news run_joined run_left]; [done| |].
    + intros s Hs. destruct (Hj s Hs) as (Ho & Hst & Hr). destruct (Hsh s Ho) as [Ho' Hst'].
      split_and!; [done|by etrans; [exact Hst'|]|]. intros ws' ?%Hin. by eapply Hr.
    + intros s ws' n Hs. specialize (Hh s ws' n Hs). apply hears_notify; [by apply Hnd|done|done|].
      case_bool_decide as Hin'; [done|]. apply hears_longer; [done|]. intros (-> & Hs' & _). done.
  - apply (one_session_inv s h _ _ _ left); [done|by apply shrinks_takes|done| |].
    + intros s' Hne. unfold sender_takes. destruct (outboxes h !! s) as [[[|p q] []]|]; try apply untouched_refl.
      split; cbn; [done|by rewrite lookup_insert_ne|by rewrite lookup_insert_ne|done].
    + intros ws n Hh. unfold sender_takes. destruct (outboxes h !! s) as [[[|p q] []]|] eqn:Eo; try done.
      destruct Hh as [Hp Hhere Hop Hcl Ht]. destruct (Hop _ Eo) as [Hlen Hq]. cbn [ob_queue length] in *.
      split; [done|done| |cbn; by rewrite lookup_insert_eq|].
      * intros o. cbn. rewrite lookup_insert_eq. intros [= <-]. cbn [ob_queue]. split; [lia|].
        assert (∀ b q ss cl, sent_to (mk_Hub b q ss (<[s := sent_to h s ++ [p]]> (sent h)) cl) s = sent_to h s ++ [p]) as Hst.
        { intros b q' ss cl. unfold sent_to at 1. cbn [sent]. by rewrite lookup_insert_eq. }
        rewrite Hst, <- app_assoc. exact Hq.
      * cbn. rewrite lookup_insert_eq. destruct Ht as [[? _]|Ht]; [by left|by right].
  - apply (one_session_inv s h _ _ _ left); [done|by apply shrinks_done|done| |].
    + intros s' Hne. unfold sender_done. destruct (outboxes h !! s); [by apply untouched_set|apply untouched_refl].
    + intros ws n Hh. unfold sender_done. destruct (outboxes h !! s) as [o|] eqn:Eo; [|done].
      destruct Hh as [Hp Hhere Hop Hcl Ht]. split; [done|done| |cbn; by rewrite lookup_insert_eq|].
      * intros o'. cbn. rewrite lookup_insert_eq. intros [= <-]. by apply (Hop o).
      * cbn. rewrite lookup_insert_eq. destruct Ht as [[? _]|Ht]; [by left|by right].
  - apply (one_session_inv s h _ _ _ left); [done|by apply shrinks_close|done| |].
    + intros s' Hne. eapply untouched_trans; [by apply (untouched_close s)|apply untouched_ask].
    + intros ws n Hh. change (disconnect s h) with (close_outbox s (ask_close s DISABLED_CLOSE_CODE h)).
      apply hears_close; [apply told_ask|]. eapply hears_untouched; [apply untouched_ask|done|done].
  - apply (one_session_inv s h _ _ _ left); [done|by apply (shrinks_turned_away ws s RESTART_CLOSE_CODE)|done| |].
    + intros s' Hne. by apply (untouched_turned_away ws s s' RESTART_CLOSE_CODE).
    + intros ws' n Hh. by apply (hears_turned_away h news left s ws' n ws RESTART_CLOSE_CODE).
Qed.

Lemma start_inv : run_inv start.
Proof.
  split; cbn; [intros ws; unfold sessions_of; cbn; rewrite lookup_empty; constructor| |done].
  intros s _. split_and!; [done|done|]. intros ws. unfold sessions_of. cbn. rewrite lookup_empty. by intros ?%elem_of_nil.
Qed.

Lemma run_reachable r : 0 < size → rtc run_step start r → run_inv r.
Proof.
  intros Hsize. apply (rtc_invariant run_step run_inv); [|apply start_inv]. intros x y Hx Hy. by eapply run_step_inv.
Qed.

(** The sender ends one call and makes the next. *)
Definition sender_round (s : session) (h : Hub) : Hub := sender_takes s (sender_done s h).

Lemma sender_catches_up s k h o : outboxes h !! s = Some o → length (ob_queue o) = k →
  sent_to (Nat.iter k (sender_round s) h) s = sent_to h s ++ ob_queue o.
Proof.
  revert h o; induction k as [|k IH]; intros h [q b] Ho Hk; cbn [ob_queue] in *.
  { destruct q; [|done]. by rewrite app_nil_r. }
  destruct q as [|p q]; [done|]. rewrite Nat.iter_succ_r.
  assert (outboxes (sender_round s h) !! s = Some (mk_SessionOutbox q true) ∧ sent_to (sender_round s h) s = sent_to h s ++ [p])
    as [Ho' Hs'].
  { unfold sender_round, sender_done, sender_takes. rewrite Ho. cbn. rewrite !lookup_insert_eq. cbn.
    unfold sent_to. cbn. by rewrite !lookup_insert_eq. }
  rewrite (IH _ _ Ho') by (cbn in *; lia). by rewrite Hs', <- app_assoc.
Qed.
End Delivery.

(** C34: However the endpoints, the bridge, the senders, the administrators and a deployment
    interleave in one process, a session has been sent announcements of its own workspace
    only, from the moment it joined, in order and without a gap; as long as it is routed the
    rest is in its outbox, within the bound, and is sent as soon as its sender makes as many
    calls; and a session that is cut off from an announcement has been told so by a close, or
    was leaving. *)
Theorem nobody_misses_silently (size : Z) (r : Run) (s : session) (ws : text) (n : nat)
    (Hsize : 0 < size) (Hrun : rtc (run_step size) start r) (Hjoined : run_joined r !! s = Some (ws, n)) :
  sent_to (run_hub r) s `prefix_of` since (run_news r) ws n ∧
  ((∃ o, s ∈ sessions_of (run_hub r) ws ∧ outboxes (run_hub r) !! s = Some o ∧
      Z.of_nat (length (ob_queue o)) ≤ size ∧
      sent_to (run_hub r) s ++ ob_queue o = since (run_news r) ws n ∧
      sent_to (Nat.iter (length (ob_queue o)) (sender_round s) (run_hub r)) s = since (run_news r) ws n) ∨
   (∃ code, (s, code) ∈ closes (run_hub r)) ∨ s ∈ run_left r).
Proof.
  destruct (inv_hears size r (run_reachable size r Hsize Hrun) s ws n Hjoined) as [Hp Hh Hop Hcl Ht]. split.
  - destruct (outboxes (run_hub r) !! s) as [o|]; [|by apply Hcl]. destruct (Hop o eq_refl) as [_ Hq].
    trans (sent_to (run_hub r) s ++ ob_queue o); [by exists (ob_queue o)|]. destruct (routed _ ws s); [by rewrite Hq|done].
  - destruct Ht as [[Hin [o Ho]]|Ht]; [left|by right]. exists o. destruct (Hop o Ho) as [Hlen Hq].
    unfold routed in Hq. rewrite bool_decide_true in Hq by done.
    split_and!; [done..|]. by rewrite (sender_catches_up s _ _ o Ho eq_refl).
Qed.

(** *** A run *)

Section DeliveryDemo.
Definition demo_news (i : Z) : json := JInt i.

(** One outbox of a single place: the first announcement is taken, the second waits, the
    third closes the session. *)
Definition demo_joined_hub : Hub := enrol (txt "w") (txt "u") 7%nat (txt "c") empty_hub.
Definition demo_heard_hub : Hub :=
  notify 1 (txt "w") (JStr (txt "e")) (demo_news 2)
    (sender_takes 7%nat (notify 1 (txt "w") (JStr (txt "e")) (demo_news 1) demo_joined_hub)).
Definition demo_full_hub : Hub := notify 1 (txt "w") (JStr (txt "e")) (demo_news 3) demo_heard_hub.

Definition demo_announced (l : list Z) : list (text * json) :=
  (λ i, (txt "w", notification (JStr (txt "e")) (demo_news i))) <$> l.

Lemma demo_hub_run :
  rtc (run_step 1) start (mk_Run demo_full_hub (demo_announced [1; 2; 3]) {[7%nat := (txt "w", 0%nat)]} ∅).
Proof.
  eapply rtc_l; [apply (run_admit 1 (txt "w") (txt "u") 7%nat (txt "c")); reflexivity|].
  eapply rtc_l; [apply (run_notify 1 (txt "w") (JStr (txt "e")) (demo_news 1))|].
  eapply rtc_l; [apply (run_takes 1 7%nat)|].
  eapply rtc_l; [apply (run_notify 1 (txt "w") (JStr (txt "e")) (demo_news 2))|].
  eapply rtc_l; [apply (run_notify 1 (txt "w") (JStr (txt "e")) (demo_news 3))|]. apply rtc_refl.
Qed.

Lemma demo_hub_closed :
  outboxes demo_full_hub !! 7%nat = None ∧ closes demo_full_hub = [(7%nat, 1013)] ∧
  sent_to demo_full_hub 7%nat = [notification (JStr (txt "e")) (demo_news 1)] ∧
  outboxes demo_heard_hub !! 7%nat = Some (mk_SessionOutbox [notification (JStr (txt "e")) (demo_news 2)] true).
Proof. split_and!; vm_compute; reflexivity. Qed.

Lemma nobody_misses_silently_witness :
  sent_to demo_full_hub 7%nat `prefix_of` since (demo_announced [1; 2; 3]) (txt "w") 0 ∧
  closes demo_full_hub = [(7%nat, 1013)].
Proof.
  split; [|apply demo_hub_closed].
  destruct (nobody_misses_silently 1 _ 7%nat (txt "w") 0 ltac:(reflexivity) demo_hub_run ltac:(reflexivity)) as [Hp _].
  exact Hp.
Defined.
End DeliveryDemo.
