(* ===== verification/HubCluster.v ===== *)
(** * HubCluster: the hubs of all processes and the registry they share

    Requests to register, to unregister and to renew, interleaved at every [await] over the
    scripts of [WsRegistry]; processes crash, calls and answers get lost. *)

From S2P Require Import Prelude Text Calendar Errors Framework Events ZSets WsRegistry Hub.
From stdpp Require Import gmap.

Open Scope Z_scope.

(** ** Tasks suspended at an [await] *)

Inductive task : Type :=
  | Acquiring (workspace user : text) (s : session) (connection : text)
  | Acquired (workspace user : text) (s : session) (connection : text) (admitted : bool)
  | Releasing (s : session) (slot : Slot)
  | Released (s : session)
  | Renewing (entries : list (text * list text)).

(** What a process does between two [await]s without the registry. *)
Inductive local_op : Type :=
  | Notify (workspace : text) (event_type data : json)
  | SenderTakes (s : session)
  | SenderDone (s : session)
  | Disconnect (s : session)
  | DrainOne (workspace : text) (s : session).

Section Cluster.
Context {S : Type} `{ZServerLaws S, EnvLaws}.
Context (config : HubConfig) (max_natural : 0 <= max_per_user config).
Abbreviation ttl := (ms (entry_ttl_s config)).
Abbreviation max := (max_per_user config).
Abbreviation size := (session_queue_size config).

Definition local (op : local_op) (r : Run) : Run :=
  let '(mk_Run h news joined gone) := r in
  match op with
  | Notify ws event data => mk_Run (notify size ws event data h) (news ++ [(ws, notification event data)]) joined gone
  | SenderTakes s => mk_Run (sender_takes s h) news joined gone
  | SenderDone s => mk_Run (sender_done s h) news joined gone
  | Disconnect s => mk_Run (disconnect s h) news joined gone
  | DrainOne ws s => mk_Run (drain_one ws s h) news joined gone
  end.

(** A process is a number, and so is a task. *)
Record Cluster := mk_Cluster {
  cl_reg : Reg (S := S); cl_hubs : gmap nat Run; cl_tasks : gmap nat (nat * task); cl_minted : nat
}.

Definition admitted_run (ws user : text) (s : session) (c : text) (r : Run) : Run :=
  mk_Run (enrol ws user s c (run_hub r)) (run_news r) (<[s := (ws, length (run_news r))]> (run_joined r)) (run_left r).
Definition left_run (ws : text) (s : session) (r : Run) : Run :=
  mk_Run (leave ws s (run_hub r)).2 (run_news r) (run_joined r) ({[s]} ∪ run_left r).
Definition closed_run (s : session) (r : Run) : Run :=
  mk_Run (close_outbox s (run_hub r)) (run_news r) (run_joined r) (run_left r).

Definition survivors (p : nat) (tasks : gmap nat (nat * task)) : gmap nat (nat * task) :=
  filter (λ e, e.2.1 ≠ p) tasks.

Inductive cl_step : Cluster → Cluster → Prop :=
  | cl_time d s hs hubs tasks n : 0 <= d →
      cl_step (mk_Cluster (mk_Reg s hs) hubs tasks n) (mk_Cluster (mk_Reg (pass_time d s) hs) hubs tasks n)
  | cl_count u s hs hubs tasks n :
      cl_step (mk_Cluster (mk_Reg s hs) hubs tasks n)
        (mk_Cluster (mk_Reg (count_lua (conn_key_for u) ttl s).2 hs) hubs tasks n)
  | cl_boot p reg hubs tasks n : hubs !! p = None →
      cl_step (mk_Cluster reg hubs tasks n) (mk_Cluster reg (<[p := start]> hubs) tasks n)
  | cl_crash p reg hubs tasks n :
      cl_step (mk_Cluster reg hubs tasks n) (mk_Cluster reg (delete p hubs) (survivors p tasks) n)
  | cl_local p op r reg hubs tasks n : hubs !! p = Some r →
      cl_step (mk_Cluster reg hubs tasks n) (mk_Cluster reg (<[p := local op r]> hubs) tasks n)
  | cl_register p t ws u s reg hubs tasks n : tasks !! t = None →
      cl_step (mk_Cluster reg hubs tasks n)
        (mk_Cluster reg hubs (<[t := (p, Acquiring ws u s (uuid7 n))]> tasks) (Datatypes.S n))
  | cl_acquire t p ws u s c answered a s1 s2 hs hubs tasks n :
      tasks !! t = Some (p, Acquiring ws u s c) → acquire_lua (conn_key_for u) c ttl max s1 = (a, s2) →
      cl_step (mk_Cluster (mk_Reg s1 hs) hubs tasks n)
        (mk_Cluster (mk_Reg s2 (if a =? 1 then <[c := mk_Hold u (now_ms s1) true]> hs else hs)) hubs
           (<[t := (p, Acquired ws u s c (answered && (a =? 1)))]> tasks) n)
  | cl_acquire_lost t p ws u s c reg hubs tasks n : tasks !! t = Some (p, Acquiring ws u s c) →
      cl_step (mk_Cluster reg hubs tasks n) (mk_Cluster reg hubs (<[t := (p, Acquired ws u s c false)]> tasks) n)
  | cl_admit t p ws u s c r reg hubs tasks n :
      tasks !! t = Some (p, Acquired ws u s c true) → hubs !! p = Some r → run_joined r !! s = None →
      cl_step (mk_Cluster reg hubs tasks n) (mk_Cluster reg (<[p := admitted_run ws u s c r]> hubs) (delete t tasks) n)
  | cl_refuse t p ws u s c reg hubs tasks n : tasks !! t = Some (p, Acquired ws u s c false) →
      cl_step (mk_Cluster reg hubs tasks n) (mk_Cluster reg hubs (delete t tasks) n)
  | cl_leave p t ws s r reg hubs tasks n : hubs !! p = Some r → tasks !! t = None →
      cl_step (mk_Cluster reg hubs tasks n)
        (mk_Cluster reg (<[p := left_run ws s r]> hubs)
           (match (leave ws s (run_hub r)).1 with
            | Some slot => <[t := (p, Releasing s slot)]> tasks
            | None => tasks
            end) n)
  | cl_release t p s slot s1 hs hubs tasks n : tasks !! t = Some (p, Releasing s slot) →
      cl_step (mk_Cluster (mk_Reg s1 hs) hubs tasks n)
        (mk_Cluster (mk_Reg (zrem (conn_key_for (slot_user slot)) (slot_connection slot) s1)
                       (freed (slot_user slot) (slot_connection slot) hs)) hubs (<[t := (p, Released s)]> tasks) n)
  | cl_release_lost t p s slot reg hubs tasks n : tasks !! t = Some (p, Releasing s slot) →
      cl_step (mk_Cluster reg hubs tasks n) (mk_Cluster reg hubs (<[t := (p, Released s)]> tasks) n)
  | cl_close t p s r reg hubs tasks n :
      tasks !! t = Some (p, Released s) → hubs !! p = Some r → s ∈ run_left r →
      cl_step (mk_Cluster reg hubs tasks n) (mk_Cluster reg (<[p := closed_run s r]> hubs) (delete t tasks) n)
  | cl_renew_all p t r reg hubs tasks n : hubs !! p = Some r → tasks !! t = None →
      cl_step (mk_Cluster reg hubs tasks n)
        (mk_Cluster reg hubs (<[t := (p, Renewing (renewal_entries (run_hub r)))]> tasks) n)
  | cl_renew t p u ids rest s1 hs hubs tasks n : tasks !! t = Some (p, Renewing ((u, ids) :: rest)) →
      cl_step (mk_Cluster (mk_Reg s1 hs) hubs tasks n)
        (mk_Cluster (mk_Reg (renew_lua (conn_key_for u) ttl ids s1).2
                       (map_imap (λ c h, Some (refreshed ttl u ids (now_ms s1) c h)) hs)) hubs
           (<[t := (p, Renewing rest)]> tasks) n)
  | cl_renew_lost t p e rest reg hubs tasks n : tasks !! t = Some (p, Renewing (e :: rest)) →
      cl_step (mk_Cluster reg hubs tasks n) (mk_Cluster reg hubs (<[t := (p, Renewing rest)]> tasks) n)
  | cl_renew_end t p rest reg hubs tasks n : tasks !! t = Some (p, Renewing rest) →
      cl_step (mk_Cluster reg hubs tasks n) (mk_Cluster reg hubs (delete t tasks) n).

(** ** Who claims a connection *)

Inductive place : Type := AtSlot (p : nat) (s : session) | AtTask (t : nat).

#[local] Instance place_eq_dec : EqDecision place.
Proof. solve_decision. Defined.

(** The connection, its user, and whether the registry is known to have admitted it. *)
Abbreviation claimed := (text * text * bool)%type.

Definition task_claim (k : task) : option claimed :=
  match k with
  | Acquiring _ u _ c => Some (c, u, false)
  | Acquired _ u _ c admitted => Some (c, u, admitted)
  | Releasing _ slot => Some (slot_connection slot, slot_user slot, false)
  | Released _ | Renewing _ => None
  end.

Definition slot_claim (r : Run) (s : session) : option claimed :=
  slot ← slots (run_hub r) !! s; Some (slot_connection slot, slot_user slot, true).

Definition claim (hubs : gmap nat Run) (tasks : gmap nat (nat * task)) (pl : place) : option claimed :=
  match pl with
  | AtSlot p s => r ← hubs !! p; slot_claim r s
  | AtTask t => pk ← tasks !! t; task_claim pk.2
  end.

Definition known (hs : holds) (c u : text) : Prop := ∃ h, hs !! c = Some h ∧ h_user h = u.
Definition minted_before (n : nat) (c : text) : Prop := ∃ i, (i < n)%nat ∧ c = uuid7 i.

Record cl_inv (cl : Cluster) : Prop := {
  cl_registry : reg_inv ttl max (cl_reg cl);
  cl_runs p r : cl_hubs cl !! p = Some r → rtc (run_step size) start r;
  cl_owner pl pl' c u b u' b' : claim (cl_hubs cl) (cl_tasks cl) pl = Some (c, u, b) →
    claim (cl_hubs cl) (cl_tasks cl) pl' = Some (c, u', b') → pl = pl';
  cl_claims_minted pl c u b : claim (cl_hubs cl) (cl_tasks cl) pl = Some (c, u, b) → minted_before (cl_minted cl) c;
  cl_holds_minted c h : rg_holds (cl_reg cl) !! c = Some h → minted_before (cl_minted cl) c;
  cl_sure pl c u : claim (cl_hubs cl) (cl_tasks cl) pl = Some (c, u, true) → known (rg_holds (cl_reg cl)) c u;
  cl_fresh t p ws u s c : cl_tasks cl !! t = Some (p, Acquiring ws u s c) → rg_holds (cl_reg cl) !! c = None
}.

(** ** One step *)

Lemma transfer cl reg hubs tasks f :
  cl_inv cl → reg_inv ttl max reg → (∀ p r, hubs !! p = Some r → rtc (run_step size) start r) →
  (∀ pl c u b, claim hubs tasks pl = Some (c, u, b) → ∃ b', claim (cl_hubs cl) (cl_tasks cl) (f pl) = Some (c, u, b') ∧
    (b = true → b' = true ∨ known (rg_holds reg) c u)) →
  (∀ pl pl', is_Some (claim hubs tasks pl) → is_Some (claim hubs tasks pl') → f pl = f pl' → pl = pl') →
  (∀ c h, rg_holds reg !! c = Some h → minted_before (cl_minted cl) c) →
  (∀ pl c u, claim hubs tasks pl = Some (c, u, true) → known (rg_holds (cl_reg cl)) c u → known (rg_holds reg) c u) →
  (∀ t p ws u s c, tasks !! t = Some (p, Acquiring ws u s c) → rg_holds reg !! c = None) →
  cl_inv (mk_Cluster reg hubs tasks (cl_minted cl)).
Proof.
  intros [Hreg Hruns Howner Hcm Hhm Hsure Hfresh] Hreg' Hruns' Hc Hf Hm Hk Hfr.
  split; cbn [cl_reg cl_hubs cl_tasks cl_minted]; [done|done| | |done| |done].
  - intros pl pl' c u b u' b' Hx Hy. destruct (Hc _ _ _ _ Hx) as (b1 & Hb1 & _). destruct (Hc _ _ _ _ Hy) as (b2 & Hb2 & _).
    apply Hf; [by eexists|by eexists|]. by eapply Howner.
  - intros pl c u b Hx. destruct (Hc _ _ _ _ Hx) as (b1 & Hb1 & _). by eapply Hcm.
  - intros pl c u Hx. destruct (Hc _ _ _ _ Hx) as (b1 & Hb1 & Hb). destruct (Hb eq_refl) as [-> |]; [|done].
    eapply Hk; [done|]. by eapply Hsure.
Qed.

Lemma claim_task hubs tasks t p k pl :
  claim hubs (<[t := (p, k)]> tasks) pl = if bool_decide (pl = AtTask t) then task_claim k else claim hubs tasks pl.
Proof.
  destruct pl as [q s|t']; [done|]. cbn. destruct (decide (t' = t)) as [->|Hne].
  - by rewrite lookup_insert_eq, bool_decide_true.
  - by rewrite lookup_insert_ne, bool_decide_false by congruence.
Qed.

Lemma claim_done hubs tasks t pl :
  claim hubs (delete t tasks) pl = if bool_decide (pl = AtTask t) then None else claim hubs tasks pl.
Proof.
  destruct pl as [q s|t']; [done|]. cbn. destruct (decide (t' = t)) as [->|Hne].
  - by rewrite lookup_delete_eq, bool_decide_true.
  - by rewrite lookup_delete_ne, bool_decide_false by congruence.
Qed.

Lemma claim_hub hubs tasks p r pl :
  claim (<[p := r]> hubs) tasks pl =
  match pl with AtSlot q s => if bool_decide (q = p) then slot_claim r s else claim hubs tasks pl | AtTask _ => claim hubs tasks pl end.
Proof.
  destruct pl as [q s|t]; [|done]. cbn. destruct (decide (q = p)) as [->|Hne].
  - by rewrite lookup_insert_eq, bool_decide_true.
  - by rewrite lookup_insert_ne, bool_decide_false by congruence.
Qed.

Lemma slots_turned_away ws s code h : slots (turn_away ws s code h) = slots h.
Proof. apply (drop_rest ws s h). Qed.

Lemma slots_notify q ws x todo h : slots (foldl (offer q ws x) h todo) = slots h.
Proof.
  revert h; induction todo as [|s todo IH]; intros h; [done|]. cbn [foldl]. rewrite IH. unfold offer.
  destruct (outboxes h !! s); [|done]. case_match; [apply slots_turned_away|done].
Qed.

Lemma local_slots op r s : slot_claim (local op r) s = slot_claim r s.
Proof.
  assert (slots (run_hub (local op r)) = slots (run_hub r)) as Hs; [|unfold slot_claim; by rewrite Hs].
  destruct r as [h news joined gone]. destruct op; cbn [local run_hub].
  - apply slots_notify.
  - unfold sender_takes. by destruct (outboxes h !! s0) as [[[|] []]|].
  - unfold sender_done. by destruct (outboxes h !! s0).
  - done.
  - apply (slots_turned_away workspace s0 RESTART_CLOSE_CODE).
Qed.

Lemma local_step op r : run_step size r (local op r).
Proof. destruct r as [h news joined gone], op; cbn [local]; constructor. Qed.

Lemma admitted_slots ws u s c r s' :
  slot_claim (admitted_run ws u s c r) s' = if bool_decide (s' = s) then Some (c, u, true) else slot_claim r s'.
Proof.
  unfold slot_claim. cbn. destruct (decide (s' = s)) as [->|Hne].
  - by rewrite lookup_insert_eq, bool_decide_true.
  - by rewrite lookup_insert_ne, bool_decide_false by congruence.
Qed.

Lemma left_slots ws s r s' :
  slot_claim (left_run ws s r) s' = if bool_decide (s' = s) then None else slot_claim r s'.
Proof.
  assert (slots (run_hub (left_run ws s r)) = delete s (slots (run_hub r))) as Hs.
  { cbn. destruct (drop_rest ws s (run_hub r)) as (Hs & _). unfold leave. rewrite Hs.
    destruct (slots (run_hub r) !! s) eqn:Ee; cbn; [done|by rewrite Hs, delete_id]. }
  unfold slot_claim. rewrite Hs. destruct (decide (s' = s)) as [->|Hne].
  - by rewrite lookup_delete_eq, bool_decide_true.
  - by rewrite lookup_delete_ne, bool_decide_false by congruence.
Qed.

Lemma leave_slot ws s r : (leave ws s (run_hub r)).1 = slots (run_hub r) !! s.
Proof. destruct (drop_rest ws s (run_hub r)) as (Hs & _). unfold leave. rewrite Hs. by destruct (slots (run_hub r) !! s). Qed.

Lemma runs_insert p r (hubs : gmap nat Run) :
  rtc (run_step size) start r → (∀ p r, hubs !! p = Some r → rtc (run_step size) start r) →
  ∀ q r', <[p := r]> hubs !! q = Some r' → rtc (run_step size) start r'.
Proof. intros Hr Hh q r' [[_ <-]|[_ Hq]]%lookup_insert_Some; [done|by eapply Hh]. Qed.

Lemma minted_later n c : minted_before n c → minted_before (Datatypes.S n) c.
Proof. intros (i & Hi & ->). exists i. split; [lia|done]. Qed.

(** Nothing changes hands. *)
Lemma transfer_id cl reg hubs tasks :
  cl_inv cl → reg_inv ttl max reg → (∀ p r, hubs !! p = Some r → rtc (run_step size) start r) →
  (∀ pl c u b, claim hubs tasks pl = Some (c, u, b) → ∃ b', claim (cl_hubs cl) (cl_tasks cl) pl = Some (c, u, b') ∧
    (b = true → b' = true ∨ known (rg_holds reg) c u)) →
  (∀ c h, rg_holds reg !! c = Some h → minted_before (cl_minted cl) c) →
  (∀ pl c u, claim hubs tasks pl = Some (c, u, true) → known (rg_holds (cl_reg cl)) c u → known (rg_holds reg) c u) →
  (∀ t p ws u s c, tasks !! t = Some (p, Acquiring ws u s c) → rg_holds reg !! c = None) →
  cl_inv (mk_Cluster reg hubs tasks (cl_minted cl)).
Proof. intros. by eapply (transfer cl _ _ _ id). Qed.

(** Only a task has moved on, without a claim of its own or with the one it had. *)
Lemma task_inv cl t p k :
  cl_inv cl → (∀ ws u s c, k ≠ Acquiring ws u s c) →
  (∀ c u b, task_claim k = Some (c, u, b) → b = false ∧ claim (cl_hubs cl) (cl_tasks cl) (AtTask t) = Some (c, u, false)) →
  cl_inv (mk_Cluster (cl_reg cl) (cl_hubs cl) (<[t := (p, k)]> (cl_tasks cl)) (cl_minted cl)).
Proof.
  intros Hinv Hk Hclaim. apply transfer_id; [done|apply Hinv|apply Hinv| |apply Hinv|done|].
  - intros pl c u b. rewrite claim_task. case_bool_decide as Hpl; [|by eauto]. subst pl.
    intros Hc. destruct (Hclaim _ _ _ Hc) as [-> Hold]. exists false. by split.
  - intros t' p' ws u s c [[_ [= _ Heq]]|[_ Ht]]%lookup_insert_Some; [by apply Hk in Heq|by eapply Hinv].
Qed.

Lemma done_inv cl t :
  cl_inv cl → cl_inv (mk_Cluster (cl_reg cl) (cl_hubs cl) (delete t (cl_tasks cl)) (cl_minted cl)).
Proof.
  intros Hinv. apply transfer_id; [done|apply Hinv|apply Hinv| |apply Hinv|done|].
  - intros pl c u b. rewrite claim_done. case_bool_decide; [done|]. eauto.
  - intros t' p' ws u s c [_ Ht]%lookup_delete_Some. by eapply Hinv.
Qed.

(** Only the registry has changed, and keeps every hold that is claimed. *)
Lemma registry_inv cl reg :
  cl_inv cl → reg_inv ttl max reg →
  (∀ c h, rg_holds reg !! c = Some h → is_Some (rg_holds (cl_reg cl) !! c)) →
  (∀ pl c u, claim (cl_hubs cl) (cl_tasks cl) pl = Some (c, u, true) → known (rg_holds (cl_reg cl)) c u → known (rg_holds reg) c u) →
  cl_inv (mk_Cluster reg (cl_hubs cl) (cl_tasks cl) (cl_minted cl)).
Proof.
  intros Hinv Hreg Hsub Hkeep. apply transfer_id; [done|done|apply Hinv|intros pl c u b Hc; exists b; by auto| |done|].
  - intros c h Hc. destruct (Hsub c h Hc) as [h' Hh']. by apply (cl_holds_minted _ Hinv c h').
  - intros t p ws u s c Ht. destruct (rg_holds reg !! c) as [h|] eqn:Ee; [|done]. destruct (Hsub c h Ee) as [h' Hh'].
    rewrite (cl_fresh _ Hinv _ _ _ _ _ _ Ht) in Hh'. done.
Qed.

(** The hub of one process has changed, not its slots. *)
Lemma hub_inv cl p r r' :
  cl_inv cl → cl_hubs cl !! p = Some r → run_step size r r' → (∀ s, slot_claim r' s = slot_claim r s) →
  cl_inv (mk_Cluster (cl_reg cl) (<[p := r']> (cl_hubs cl)) (cl_tasks cl) (cl_minted cl)).
Proof.
  intros Hinv Hp Hstep Hs. apply transfer_id; [done|apply Hinv| | |apply Hinv|done|apply Hinv].
  - apply runs_insert; [|apply Hinv]. eapply rtc_r; [by eapply Hinv|done].
  - intros pl c u b Hc. exists b. split; [|by left]. rewrite claim_hub in Hc. destruct pl as [q s|t]; [|done].
    case_bool_decide; [subst q|done]. rewrite Hs in Hc. cbn. by rewrite Hp.
Qed.

Lemma minted_twice n : ¬ minted_before n (uuid7 n).
Proof. intros (i & Hi & Heq%uuid7_inj). lia. Qed.

Lemma register_inv cl t p ws u s :
  cl_inv cl → cl_tasks cl !! t = None →
  cl_inv (mk_Cluster (cl_reg cl) (cl_hubs cl) (<[t := (p, Acquiring ws u s (uuid7 (cl_minted cl)))]> (cl_tasks cl))
            (Datatypes.S (cl_minted cl))).
Proof.
  intros Hinv Ht. split; cbn [cl_reg cl_hubs cl_tasks cl_minted]; [apply Hinv|apply Hinv| | | | |].
  - intros pl pl' c u1 b u2 b'. rewrite !claim_task. case_bool_decide as Hpl; case_bool_decide as Hpl'.
    + by subst.
    + intros [= <- <- <-] Hc. by apply (cl_claims_minted _ Hinv), minted_twice in Hc.
    + intros Hc [= <- <- <-]. by apply (cl_claims_minted _ Hinv), minted_twice in Hc.
    + apply (cl_owner _ Hinv).
  - intros pl c u1 b. rewrite claim_task. case_bool_decide.
    + intros [= <- <- <-]. exists (cl_minted cl). split; [lia|done].
    + intros Hc. eapply minted_later, (cl_claims_minted _ Hinv), Hc.
  - intros c h Hc. eapply minted_later, (cl_holds_minted _ Hinv), Hc.
  - intros pl c u1. rewrite claim_task. case_bool_decide; [done|]. apply (cl_sure _ Hinv).
  - intros t' p' ws' u' s' c [[_ [= _ _ _ _ <-]]|[_ Ht']]%lookup_insert_Some.
    + destruct (rg_holds (cl_reg cl) !! uuid7 (cl_minted cl)) as [h|] eqn:Eh; [|done].
      by apply (cl_holds_minted _ Hinv), minted_twice in Eh.
    + by apply (cl_fresh _ Hinv t' p' ws' u' s').
Qed.

Lemma known_insert hs c u now c' u' : hs !! c = None → known hs c' u' → known (<[c := mk_Hold u now true]> hs) c' u'.
Proof. intros Hc (h & Hh & Hu). exists h. split; [|done]. rewrite lookup_insert_ne; [done|]. intros ->. congruence. Qed.

Lemma acquired_task_inv cl t p ws u s c answered a s2 :
  cl_inv cl → cl_tasks cl !! t = Some (p, Acquiring ws u s c) →
  acquire_lua (conn_key_for u) c ttl max (rg_server (cl_reg cl)) = (a, s2) →
  cl_inv (mk_Cluster (mk_Reg s2 (if a =? 1 then <[c := mk_Hold u (now_ms (rg_server (cl_reg cl))) true]> (rg_holds (cl_reg cl))
                                 else rg_holds (cl_reg cl))) (cl_hubs cl)
            (<[t := (p, Acquired ws u s c (answered && (a =? 1)))]> (cl_tasks cl)) (cl_minted cl)).
Proof.
  intros Hinv Ht Ha. pose proof (cl_fresh _ Hinv _ _ _ _ _ _ Ht) as Hnone.
  assert (claim (cl_hubs cl) (cl_tasks cl) (AtTask t) = Some (c, u, false)) as Hclaim by (cbn; by rewrite Ht).
  set (hs' := if a =? 1 then _ else _).
  assert (reg_step ttl max (cl_reg cl) (mk_Reg s2 hs')) as Hstep.
  { subst hs'. destruct (cl_reg cl) as [s1 hs]. cbn [rg_server rg_holds] in *.
    destruct (acquire_outcome ttl max _ _ _ _ _ Ha) as [(-> & _)|(-> & _)].
    - by eapply reg_refused.
    - by apply reg_acquired. }
  assert (∀ c' u', known (rg_holds (cl_reg cl)) c' u' → known hs' c' u') as Hknown.
  { intros c' u' Hk. subst hs'. destruct (a =? 1); [by apply known_insert|done]. }
  apply transfer_id; cbn [rg_holds].
  - done.
  - eapply reg_step_inv; [exact Hstep|apply Hinv].
  - apply Hinv.
  - intros pl c' u' b. rewrite claim_task. case_bool_decide as Hpl; [subst pl|intros Hc; exists b; by auto].
    cbn [task_claim]. intros [= <- <- <-]. exists false. split; [done|]. intros [_ Hone]%andb_prop. right. subst hs'.
    rewrite Hone. exists (mk_Hold u (now_ms (rg_server (cl_reg cl))) true). by rewrite lookup_insert_eq.
  - intros c' h Hc. subst hs'. destruct (a =? 1); [|by apply (cl_holds_minted _ Hinv c' h)].
    apply lookup_insert_Some in Hc as [[<- _]|[_ Hc]]; [|by apply (cl_holds_minted _ Hinv c' h)].
    by apply (cl_claims_minted _ Hinv _ _ _ _ Hclaim).
  - intros pl c' u' _. apply Hknown.
  - intros t' p' ws' u' s' c' [[_ [=]]|[Hne Ht']]%lookup_insert_Some.
    pose proof (cl_fresh _ Hinv _ _ _ _ _ _ Ht') as Hnone'. subst hs'. destruct (a =? 1); [|done].
    rewrite lookup_insert_ne; [done|]. intros <-.
    assert (claim (cl_hubs cl) (cl_tasks cl) (AtTask t') = Some (c, u', false)) as Hclaim' by (cbn; by rewrite Ht').
    pose proof (cl_owner _ Hinv _ _ _ _ _ _ _ Hclaim Hclaim'). congruence.
Qed.

Lemma admission_inv cl t p ws u s c r :
  cl_inv cl → cl_tasks cl !! t = Some (p, Acquired ws u s c true) → cl_hubs cl !! p = Some r →
  run_joined r !! s = None →
  cl_inv (mk_Cluster (cl_reg cl) (<[p := admitted_run ws u s c r]> (cl_hubs cl)) (delete t (cl_tasks cl)) (cl_minted cl)).
Proof.
  intros Hinv Ht Hp Hs.
  apply (transfer cl _ _ _ (λ pl, if bool_decide (pl = AtSlot p s) then AtTask t else pl)).
  - done.
  - apply Hinv.
  - apply runs_insert; [|apply Hinv]. eapply rtc_r; [by apply (cl_runs _ Hinv p)|].
    destruct r as [h news joined gone]. by apply run_admit.
  - intros pl c' u' b. rewrite claim_hub. destruct pl as [q s'|t'].
    + case_bool_decide as Hq; [subst q; rewrite admitted_slots; case_bool_decide as Hs'|].
      * subst s'. intros [= <- <- <-]. rewrite bool_decide_true by done. exists true. cbn. rewrite Ht. by auto.
      * intros Hc. rewrite bool_decide_false by congruence. exists b. cbn. rewrite Hp. by auto.
      * rewrite claim_done, bool_decide_false by done. intros Hc. rewrite bool_decide_false by congruence. by eauto.
    + rewrite claim_done. case_bool_decide; [done|]. rewrite bool_decide_false by done. by eauto.
  - assert (∀ pl, is_Some (claim (<[p:=admitted_run ws u s c r]> (cl_hubs cl)) (delete t (cl_tasks cl)) pl) → pl ≠ AtTask t) as Hnot.
    { intros pl [x Hx] ->. rewrite claim_hub, claim_done, bool_decide_true in Hx by done. done. }
    intros pl pl' Hx%Hnot Hy%Hnot. repeat case_bool_decide; congruence.
  - apply Hinv.
  - done.
  - intros t' p' ws' u' s' c' [_ Ht']%lookup_delete_Some. by eapply (cl_fresh _ Hinv).
Qed.

Lemma left_inv cl t p ws s r :
  cl_inv cl → cl_hubs cl !! p = Some r → cl_tasks cl !! t = None →
  cl_inv (mk_Cluster (cl_reg cl) (<[p := left_run ws s r]> (cl_hubs cl))
            (match (leave ws s (run_hub r)).1 with
             | Some slot => <[t := (p, Releasing s slot)]> (cl_tasks cl)
             | None => cl_tasks cl
             end) (cl_minted cl)).
Proof.
  intros Hinv Hp Ht. rewrite leave_slot.
  assert (∀ q r', <[p := left_run ws s r]> (cl_hubs cl) !! q = Some r' → rtc (run_step size) start r') as Hruns.
  { apply runs_insert; [|apply Hinv]. eapply rtc_r; [by apply (cl_runs _ Hinv p)|].
    destruct r as [h news joined gone]. apply run_leave. }
  destruct (slots (run_hub r) !! s) as [slot|] eqn:Eslot.
  - apply (transfer cl _ _ _ (λ pl, if bool_decide (pl = AtTask t) then AtSlot p s else pl)).
    + done.
    + apply Hinv.
    + done.
    + intros pl c u b. rewrite claim_hub. destruct pl as [q s'|t'].
      * rewrite (bool_decide_false (AtSlot q s' = AtTask t)) by done.
        case_bool_decide as Hq; [subst q; rewrite left_slots; case_bool_decide as Hs'|].
        -- done.
        -- intros Hc. exists b. cbn. rewrite Hp. by auto.
        -- rewrite claim_task, bool_decide_false by done. by eauto.
      * rewrite claim_task. case_bool_decide; [|by eauto]. cbn [task_claim]. intros [= <- <- <-]. exists true. cbn.
        rewrite Hp. cbn. unfold slot_claim. rewrite Eslot. by split; [|left].
    + assert (∀ pl, is_Some (claim (<[p:=left_run ws s r]> (cl_hubs cl)) (<[t:=(p, Releasing s slot)]> (cl_tasks cl)) pl) →
        pl ≠ AtSlot p s) as Hnot.
      { intros pl [x Hx] ->. rewrite claim_hub, bool_decide_true, left_slots, bool_decide_true in Hx by done. done. }
      intros pl pl' Hx%Hnot Hy%Hnot. repeat case_bool_decide; congruence.
    + apply Hinv.
    + done.
    + intros t' p' ws' u' s' c' [[_ [=]]|[_ Ht']]%lookup_insert_Some. by eapply (cl_fresh _ Hinv).
  - apply transfer_id; [done|apply Hinv|done| |apply Hinv|done|apply Hinv].
    intros pl c u b. rewrite claim_hub. destruct pl as [q s'|t']; [|by eauto].
    case_bool_decide as Hq; [subst q; rewrite left_slots; case_bool_decide as Hs'|by eauto]; [done|].
    intros Hc. exists b. cbn. rewrite Hp. by auto.
Qed.

Lemma registry_step_inv cl reg :
  cl_inv cl → reg_step ttl max (cl_reg cl) reg →
  (∀ c h, rg_holds reg !! c = Some h → is_Some (rg_holds (cl_reg cl) !! c)) →
  (∀ pl c u, claim (cl_hubs cl) (cl_tasks cl) pl = Some (c, u, true) → known (rg_holds (cl_reg cl)) c u → known (rg_holds reg) c u) →
  cl_inv (mk_Cluster reg (cl_hubs cl) (cl_tasks cl) (cl_minted cl)).
Proof. intros Hinv Hstep. apply registry_inv; [done|]. eapply reg_step_inv; [exact Hstep|apply Hinv]. Qed.

Lemma released_task_inv cl t p s slot :
  cl_inv cl → cl_tasks cl !! t = Some (p, Releasing s slot) →
  cl_inv (mk_Cluster (mk_Reg (zrem (conn_key_for (slot_user slot)) (slot_connection slot) (rg_server (cl_reg cl)))
                        (freed (slot_user slot) (slot_connection slot) (rg_holds (cl_reg cl)))) (cl_hubs cl)
            (<[t := (p, Released s)]> (cl_tasks cl)) (cl_minted cl)).
Proof.
  intros Hinv Ht. set (reg := mk_Reg _ _). assert (reg_step ttl max (cl_reg cl) reg) as Hstep.
  { subst reg. destruct (cl_reg cl). apply reg_released. }
  assert (claim (cl_hubs cl) (cl_tasks cl) (AtTask t) = Some (slot_connection slot, slot_user slot, false)) as Hclaim
    by (cbn; by rewrite Ht).
  apply (task_inv (mk_Cluster reg (cl_hubs cl) (cl_tasks cl) (cl_minted cl))); [|done|done].
  apply registry_step_inv; [done|done| |]; subst reg; cbn [rg_holds].
  - intros c h [Hc _]%freed_lookup. by exists h.
  - intros pl c u Hpl (h & Hh & Hu). exists h. split; [|done]. apply freed_lookup. split; [done|]. intros [-> _].
    pose proof (cl_owner _ Hinv _ _ _ _ _ _ _ Hpl Hclaim) as ->. congruence.
Qed.

Lemma renewed_task_inv cl t p u ids rest :
  cl_inv cl → cl_tasks cl !! t = Some (p, Renewing ((u, ids) :: rest)) →
  cl_inv (mk_Cluster (mk_Reg (renew_lua (conn_key_for u) ttl ids (rg_server (cl_reg cl))).2
                        (map_imap (λ c h, Some (refreshed ttl u ids (now_ms (rg_server (cl_reg cl))) c h)) (rg_holds (cl_reg cl))))
            (cl_hubs cl) (<[t := (p, Renewing rest)]> (cl_tasks cl)) (cl_minted cl)).
Proof.
  intros Hinv Ht. set (reg := mk_Reg _ _). assert (reg_step ttl max (cl_reg cl) reg) as Hstep.
  { subst reg. destruct (cl_reg cl). apply reg_renewed. }
  apply (task_inv (mk_Cluster reg (cl_hubs cl) (cl_tasks cl) (cl_minted cl))); [|done|done].
  apply registry_step_inv; [done|done| |]; subst reg; cbn [rg_holds].
  - intros c h. rewrite map_lookup_imap. by destruct (rg_holds (cl_reg cl) !! c).
  - intros pl c u' _ (h & Hh & Hu). eexists. rewrite map_lookup_imap, Hh. split; [reflexivity|]. unfold refreshed.
    destruct (bool_decide (c ∈ ids)); [|done]. case_bool_decide; cbn; congruence.
Qed.

Lemma crash_inv cl p :
  cl_inv cl → cl_inv (mk_Cluster (cl_reg cl) (delete p (cl_hubs cl)) (survivors p (cl_tasks cl)) (cl_minted cl)).
Proof.
  intros Hinv. apply transfer_id; [done|apply Hinv| | |apply Hinv|done|].
  - intros q r [_ Hq]%lookup_delete_Some. by eapply (cl_runs _ Hinv).
  - intros pl c u b Hc. exists b. split; [|by left]. destruct pl as [q s|t]; cbn in *.
    + destruct (delete p (cl_hubs cl) !! q) as [r|] eqn:Eq; [|done]. apply lookup_delete_Some in Eq as [_ ->]. done.
    + destruct (survivors p (cl_tasks cl) !! t) as [k|] eqn:Et; [|done]. apply map_lookup_filter_Some in Et as [-> _]. done.
  - intros t q ws u s c [Ht _]%map_lookup_filter_Some. by eapply (cl_fresh _ Hinv).
Qed.

Lemma cl_step_inv cl cl' : cl_step cl cl' → cl_inv cl → cl_inv cl'.
Proof.
  intros Hstep Hinv. destruct Hstep as [d s hs hubs tasks n Hd|u s hs hubs tasks n|p reg hubs tasks n Hp|p reg hubs tasks n|
    p op r reg hubs tasks n Hp|p t ws u s reg hubs tasks n Ht|t p ws u s c answered a s1 s2 hs hubs tasks n Ht Ha|
    t p ws u s c reg hubs tasks n Ht|t p ws u s c r reg hubs tasks n Ht Hp Hs|t p ws u s c reg hubs tasks n Ht|
    p t ws s r reg hubs tasks n Hp Ht|t p s slot s1 hs hubs tasks n Ht|t p s slot reg hubs tasks n Ht|
    t p s r reg hubs tasks n Ht Hp Hs|p t r reg hubs tasks n Hp Ht|t p u ids rest s1 hs hubs tasks n Ht|
    t p e rest reg hubs tasks n Ht|t p rest reg hubs tasks n Ht].
  - apply (registry_step_inv (mk_Cluster (mk_Reg s hs) hubs tasks n)); [done|by apply reg_time|by intros c h ?; exists h|done].
  - apply (registry_step_inv (mk_Cluster (mk_Reg s hs) hubs tasks n)); [done|apply reg_counted|by intros c h ?; exists h|done].
  - apply (transfer_id (mk_Cluster reg hubs tasks n)); [done|apply Hinv|apply runs_insert; [apply rtc_refl|apply Hinv]| |apply Hinv|done|apply Hinv].
    intros pl c u b. rewrite claim_hub. destruct pl as [q s|t]; [case_bool_decide; [done|]|]; by eauto.
  - by apply (crash_inv (mk_Cluster reg hubs tasks n)).
  - apply (hub_inv (mk_Cluster reg hubs tasks n) p r); [done|done|apply local_step|intros s; apply local_slots].
  - by apply (register_inv (mk_Cluster reg hubs tasks n)).
  - by apply (acquired_task_inv (mk_Cluster (mk_Reg s1 hs) hubs tasks n) t p ws u s c answered a s2).
  - apply (task_inv (mk_Cluster reg hubs tasks n)); [done|done|]. cbn. intros c' u' b [= <- <- <-]. by rewrite Ht.
  - by apply (admission_inv (mk_Cluster reg hubs tasks n)).
  - by apply (done_inv (mk_Cluster reg hubs tasks n)).
  - by apply (left_inv (mk_Cluster reg hubs tasks n)).
  - by apply (released_task_inv (mk_Cluster (mk_Reg s1 hs) hubs tasks n)).
  - by apply (task_inv (mk_Cluster reg hubs tasks n)).
  - eapply (done_inv (mk_Cluster reg _ tasks n) t).
    apply (hub_inv (mk_Cluster reg hubs tasks n) p r); [done|done| |done].
    destruct r as [h news joined gone]. by apply run_close.
  - by apply (task_inv (mk_Cluster reg hubs tasks n)).
  - by apply (renewed_task_inv (mk_Cluster (mk_Reg s1 hs) hubs tasks n)).
  - by apply (task_inv (mk_Cluster reg hubs tasks n)).
  - by apply (done_inv (mk_Cluster reg hubs tasks n)).
Qed.

Definition no_process (s0 : S) (n : nat) : Cluster := mk_Cluster (mk_Reg s0 ∅) ∅ ∅ n.

Lemma cl_reachable s0 n cl : (∀ k, zget s0 k = ∅) → rtc cl_step (no_process s0 n) cl → cl_inv cl.
Proof.
  intros Hs. apply (rtc_invariant cl_step cl_inv); [intros x y Hx Hy; by eapply cl_step_inv|].
  split; cbn; [by apply empty_reg_inv|done| |by intros [p s|t]|done|by intros [p s|t]|done].
  intros [p s|t]; cbn; by rewrite ?lookup_empty.
Qed.

(** C32: The cap holds over all processes together.  Whatever they do and however their
    coroutines interleave over the registry, through crashes, lost calls and lost answers:
    the sessions the hubs hold for one user whose process keeps renewing them -- every call
    that ran asked for them less than an entry's lifetime after the last, and the last less
    than that ago -- are each a young entry of their own in the sorted set of their user; so
    there are never more of them than the registry counts, nor than the ceiling.  Nothing is
    said of a session whose renewals have lapsed: the registry may have dropped it.  And what
    the hub of a process went through is a run of one hub. *)
Theorem hubs_share_the_cap (s0 : S) (n : nat) (cl : Cluster) (u : text)
    (Hempty : ∀ k, zget s0 k = ∅) (Hrun : rtc cl_step (no_process s0 n) cl) :
  (∀ l : list (nat * session), NoDup l →
     (∀ p s, (p, s) ∈ l → ∃ r slot, cl_hubs cl !! p = Some r ∧ slots (run_hub r) !! s = Some slot ∧
        slot_user slot = u ∧ attended ttl (cl_reg cl) (slot_connection slot) u) →
     Z.of_nat (length l) ≤ (count_lua (conn_key_for u) ttl (rg_server (cl_reg cl))).1) ∧
  (count_lua (conn_key_for u) ttl (rg_server (cl_reg cl))).1 ≤ max ∧
  (∀ p r s slot, cl_hubs cl !! p = Some r → slots (run_hub r) !! s = Some slot →
     attended ttl (cl_reg cl) (slot_connection slot) (slot_user slot) →
     ∃ t, zget (rg_server (cl_reg cl)) (conn_key_for (slot_user slot)) !! slot_connection slot = Some t ∧
       now_ms (rg_server (cl_reg cl)) - ttl < t) ∧
  (∀ p p' r r' s s' slot slot', cl_hubs cl !! p = Some r → slots (run_hub r) !! s = Some slot →
     cl_hubs cl !! p' = Some r' → slots (run_hub r') !! s' = Some slot' →
     slot_connection slot = slot_connection slot' → p = p' ∧ s = s') ∧
  ∀ p r, cl_hubs cl !! p = Some r → rtc (run_step size) start r.
Proof.
  pose proof (cl_reachable s0 n cl Hempty Hrun) as Hinv.
  assert (∀ p r s slot, cl_hubs cl !! p = Some r → slots (run_hub r) !! s = Some slot →
    claim (cl_hubs cl) (cl_tasks cl) (AtSlot p s) = Some (slot_connection slot, slot_user slot, true)) as Hclaim.
  { intros p r s slot Hp Hs. cbn. rewrite Hp. cbn. unfold slot_claim. by rewrite Hs. }
  split_and!.
  - intros l Hl Hall.
    set (connection := λ ps : nat * session,
      match claim (cl_hubs cl) (cl_tasks cl) (AtSlot ps.1 ps.2) with Some (c, _, _) => c | None => [] end).
    rewrite <- (length_fmap connection l). apply (attended_counted ttl max (cl_reg cl) u); [apply Hinv| |].
    + apply NoDup_fmap_2_strong; [|done]. intros [p s] [p' s'] Hin Hin'. unfold connection. cbn [fst snd].
      destruct (Hall p s Hin) as (r & slot & Hp & Hs & _). destruct (Hall p' s' Hin') as (r' & slot' & Hp' & Hs' & _).
      pose proof (Hclaim _ _ _ _ Hp Hs) as Hc. pose proof (Hclaim _ _ _ _ Hp' Hs') as Hc'. rewrite Hc, Hc'. intros Heq.
      rewrite Heq in Hc. pose proof (cl_owner _ Hinv _ _ _ _ _ _ _ Hc Hc'). congruence.
    + intros c ([p s] & -> & Hin)%list_elem_of_fmap. destruct (Hall p s Hin) as (r & slot & Hp & Hs & Hu & Hatt).
      unfold connection. cbn [fst snd]. by rewrite (Hclaim _ _ _ _ Hp Hs).
  - apply counted_capped, Hinv.
  - intros p r s slot Hp Hs Hatt. destruct (attended_entry _ _ _ _ _ (cl_registry _ Hinv) Hatt) as [t Ht].
    exists t. by apply lookup_keep_above.
  - intros p p' r r' s s' slot slot' Hp Hs Hp' Hs' Heq. pose proof (Hclaim _ _ _ _ Hp Hs) as Hc.
    pose proof (Hclaim _ _ _ _ Hp' Hs') as Hc'. rewrite Heq in Hc.
    pose proof (cl_owner _ Hinv _ _ _ _ _ _ _ Hc Hc') as [= -> ->]. done.
  - apply Hinv.
Qed.

(** ** The coroutines are paths

    A call of a hub's coroutine that nobody interrupts is a sequence of the steps above: the
    sections between its [await]s, in its order. *)

Definition world_of (cl : Cluster) (p : nat) (w : HubWorld (S := S)) : Prop :=
  ∃ r, cl_hubs cl !! p = Some r ∧ run_hub r = hw_hub w ∧ rg_server (cl_reg cl) = (hw_redis w).1 ∧ cl_minted cl = hw_minted w.

(** The path from [cl] leaves no task behind and ends in the world [w']. *)
Definition leads (cl : Cluster) (p : nat) (w' : HubWorld (S := S)) : Prop :=
  ∃ cl', rtc cl_step cl cl' ∧ world_of cl' p w' ∧ cl_tasks cl' = cl_tasks cl.

Lemma try_register_leads cl p t ws u s w r w' :
  world_of cl p w → cl_tasks cl !! t = None → (∀ r, cl_hubs cl !! p = Some r → run_joined r !! s = None) →
  try_register config ws u s w = (r, w') → is_ok r ∧ leads cl p w'.
Proof.
  destruct cl as [[srv hs] hubs tasks n]. intros (run & Hp & Hh & Hsrv & Hn) Ht Hs. cbn [cl_hubs cl_tasks cl_minted cl_reg rg_server] in *.
  specialize (Hs run Hp). destruct w as [h redis n']. cbn [hw_hub hw_redis hw_minted] in *. subst n' h srv.
  unfold try_register, try_acquire, eff_catch, on_redis, hub_update, on_hub, mbind, eff_bind, new_connection. cbn [hw_hub hw_redis hw_minted].
  destruct (call (acquire_lua (conn_key_for u) (uuid7 n) ttl max) redis) as [answer redis'] eqn:Hcall. apply call_spec in Hcall.
  destruct (acquire_lua (conn_key_for u) (uuid7 n) ttl max redis.1) as [a s2] eqn:Ha. cbn [fst snd] in Hcall.
  assert (∀ reg, rtc cl_step (mk_Cluster reg hubs (<[t := (p, Acquired ws u s (uuid7 n) false)]> tasks) (Datatypes.S n))
    (mk_Cluster reg hubs tasks (Datatypes.S n))) as Hrefuse.
  { intros reg. eapply rtc_l; [eapply (cl_refuse t); apply lookup_insert_eq|].
    rewrite delete_insert_id by done. apply rtc_refl. }
  assert (∀ answered, rtc cl_step (mk_Cluster (mk_Reg redis.1 hs) hubs tasks n)
    (mk_Cluster (mk_Reg s2 (if a =? 1 then <[uuid7 n := mk_Hold u (now_ms redis.1) true]> hs else hs)) hubs
       (<[t := (p, Acquired ws u s (uuid7 n) (answered && (a =? 1)))]> tasks) (Datatypes.S n))) as Hran.
  { intros answered. eapply rtc_l; [by apply (cl_register p t ws u s)|].
    eapply rtc_l; [eapply (cl_acquire t p ws u s (uuid7 n) answered); [apply lookup_insert_eq|exact Ha]|].
    rewrite insert_insert_eq. apply rtc_refl. }
  destruct Hcall as [[Hsame ->]|[Hserver [->| ->]]]; cbn [is_app_error registry_error mret eff_ret negb hw_hub hw_redis hw_minted].
  - intros [= <- <-]. split; [done|]. exists (mk_Cluster (mk_Reg redis.1 hs) hubs tasks (Datatypes.S n)).
    split; [|split; [exists run; by split_and!|done]]. eapply rtc_l; [by apply (cl_register p t ws u s)|].
    eapply rtc_l; [eapply (cl_acquire_lost t); apply lookup_insert_eq|]. rewrite insert_insert_eq. apply Hrefuse.
  - destruct (a =? 1) eqn:Ea; cbn [mret eff_ret negb hub_update on_hub hw_hub hw_redis hw_minted]; intros [= <- <-]; (split; [done|]).
    + eexists. split; [eapply rtc_r; [apply (Hran true)|]|].
      * cbn [andb]. eapply (cl_admit t p ws u s (uuid7 n) run); [apply lookup_insert_eq|done|done].
      * rewrite delete_insert_id by done. split; [|done]. exists (admitted_run ws u s (uuid7 n) run).
        split_and!; [apply lookup_insert_eq|done|done|done].
    + eexists. split; [etrans; [apply (Hran true)|cbn [andb]; apply Hrefuse]|]. split; [|done]. exists run. by split_and!.
  - intros [= <- <-]. split; [done|]. eexists. split; [etrans; [apply (Hran false)|cbn [andb]; apply Hrefuse]|].
    split; [|done]. exists run. by split_and!.
Qed.

Lemma unregister_leads cl p t ws s w r w' :
  world_of cl p w → cl_tasks cl !! t = None → unregister ws s w = (r, w') → is_ok r ∧ leads cl p w'.
Proof.
  destruct cl as [[srv hs] hubs tasks n]. intros (run & Hp & Hh & Hsrv & Hn) Ht. cbn [cl_hubs cl_tasks cl_minted cl_reg rg_server] in *.
  destruct w as [h redis n']. cbn [hw_hub hw_redis hw_minted] in *. subst n' h srv.
  unfold unregister, release, eff_catch, on_redis, hub_update, on_hub, mbind, eff_bind. cbn [hw_hub hw_redis hw_minted].
  pose proof (cl_leave p t ws s run (mk_Reg redis.1 hs) hubs tasks n Hp Ht) as Hleave.
  destruct (leave ws s (run_hub run)) as [[slot|] h'] eqn:Hl; cbn [fst] in Hleave; cbn [hw_hub hw_redis hw_minted].
  2:{ intros [= <- <-]. split; [done|]. eexists. split; [apply rtc_once, Hleave|]. split; [|done].
      exists (left_run ws s run). split_and!; [apply lookup_insert_eq|cbn; by rewrite Hl|done|done]. }
  destruct (call (λ s : S, (tt, zrem (conn_key_for (slot_user slot)) (slot_connection slot) s)) redis) as [answer redis'] eqn:Hcall. apply call_spec in Hcall. cbn [snd] in Hcall.
  set (run' := left_run ws s run) in *. assert (run_hub run' = h') as Hrun' by (cbn; by rewrite Hl).
  assert (∀ reg, rtc cl_step (mk_Cluster reg (<[p := run']> hubs) (<[t := (p, Released s)]> tasks) n)
    (mk_Cluster reg (<[p := closed_run s run']> hubs) tasks n)) as Hclose.
  { intros reg. eapply rtc_l; [eapply (cl_close t p s run'); [apply lookup_insert_eq|apply lookup_insert_eq|cbn; set_solver]|].
    rewrite delete_insert_id, insert_insert_eq by done. apply rtc_refl. }
  destruct Hcall as [[Hsame ->]|[Hserver [->| ->]]]; cbn [is_app_error registry_error mret eff_ret]; intros [= <- <-];
    (split; [done|]).
  - eexists. split; [eapply rtc_l; [exact Hleave|]; eapply rtc_l; [eapply (cl_release_lost t); apply lookup_insert_eq|];
      rewrite insert_insert_eq; apply Hclose|].
    split; [|done]. exists (closed_run s run'). split_and!; [apply lookup_insert_eq|cbn; by rewrite Hl|done|done].
  - eexists. split; [eapply rtc_l; [exact Hleave|]; eapply rtc_l; [eapply (cl_release t); apply lookup_insert_eq|];
      rewrite insert_insert_eq; apply Hclose|].
    split; [|done]. exists (closed_run s run'). split_and!; [apply lookup_insert_eq|cbn; by rewrite Hl|done|done].
  - eexists. split; [eapply rtc_l; [exact Hleave|]; eapply rtc_l; [eapply (cl_release t); apply lookup_insert_eq|];
      rewrite insert_insert_eq; apply Hclose|].
    split; [|done]. exists (closed_run s run'). split_and!; [apply lookup_insert_eq|cbn; by rewrite Hl|done|done].
Qed.

Lemma pipeline_leads p t es rest hubs tasks n hs redis r redis' :
  tasks !! t = Some (p, Renewing (es ++ rest)) →
  pipeline (List.map (renewal (entry_ttl_s config)) es) redis = (r, redis') →
  (r = Ok tt ∨ r = Err registry_error) ∧
  ∃ hs', rtc cl_step (mk_Cluster (mk_Reg redis.1 hs) hubs tasks n)
           (mk_Cluster (mk_Reg redis'.1 hs') hubs (<[t := (p, Renewing rest)]> tasks) n).
Proof.
  revert tasks hs redis r redis'; induction es as [|[u ids] es IH]; intros tasks hs redis r redis' Ht; cbn [List.map pipeline].
  { intros [= <- <-]. split; [by left|]. exists hs. rewrite insert_id by done. apply rtc_refl. }
  destruct (call (renewal (entry_ttl_s config) (u, ids)) redis) as [r1 redis1] eqn:Hcall.
  destruct (pipeline (List.map (renewal (entry_ttl_s config)) es) redis1) as [rs redis2] eqn:Hp. intros [= <- <-].
  set (tasks1 := <[t := (p, Renewing (es ++ rest))]> tasks).
  assert (∃ hs1, rtc cl_step (mk_Cluster (mk_Reg redis.1 hs) hubs tasks n) (mk_Cluster (mk_Reg redis1.1 hs1) hubs tasks1 n))
    as [hs1 Hone].
  { apply call_spec in Hcall as [[-> _]|[-> _]].
    - exists hs. apply rtc_once. by apply (cl_renew_lost t p (u, ids) (es ++ rest)).
    - eexists. apply rtc_once. by apply (cl_renew t p u ids (es ++ rest)). }
  destruct (IH tasks1 hs1 redis1 rs redis2) as [Hrs [hs2 Hrest]]; [apply lookup_insert_eq|done|]. split.
  - apply call_spec in Hcall as [[_ ->]|[_ [->| ->]]]; [by right|done|by right].
  - exists hs2. etrans; [exact Hone|]. unfold tasks1 in Hrest at 2. by rewrite insert_insert_eq in Hrest.
Qed.

Lemma pipelines_leads p t chunks hubs tasks n hs redis r redis' :
  tasks !! t = Some (p, Renewing (concat chunks)) →
  pipelines (List.map (List.map (renewal (entry_ttl_s config))) chunks) redis = (r, redis') →
  (r = Ok tt ∨ r = Err registry_error) ∧
  ∃ hs' rest, rtc cl_step (mk_Cluster (mk_Reg redis.1 hs) hubs tasks n)
                (mk_Cluster (mk_Reg redis'.1 hs') hubs (<[t := (p, Renewing rest)]> tasks) n).
Proof.
  revert tasks hs redis; induction chunks as [|es chunks IH]; intros tasks hs redis Ht; cbn [List.map pipelines concat] in *.
  { intros [= <- <-]. split; [by left|]. exists hs, []. rewrite insert_id by done. apply rtc_refl. }
  unfold mbind, eff_bind.
  destruct (pipeline (List.map (renewal (entry_ttl_s config)) es) redis) as [r1 redis1] eqn:Hp.
  destruct (pipeline_leads p t es (concat chunks) hubs tasks n hs redis r1 redis1 Ht Hp) as [Hr1 [hs1 Hone]].
  destruct Hr1 as [->| ->].
  - intros Hrun. destruct (IH (<[t := (p, Renewing (concat chunks))]> tasks) hs1 redis1) as [Hr (hs2 & rest & Hrest)];
      [apply lookup_insert_eq|done|]. split; [done|]. exists hs2, rest. etrans; [exact Hone|].
    by rewrite insert_insert_eq in Hrest.
  - intros [= <- <-]. split; [by right|]. by exists hs1, (concat chunks).
Qed.

Lemma add_entry_filled u c entries : Forall (λ e : text * list text, e.2 ≠ []) entries → Forall (λ e, e.2 ≠ []) (add_entry u c entries).
Proof.
  induction 1 as [|[u' ids] entries He Hes IH]; cbn; [by repeat constructor|]. case_bool_decide; constructor; try done.
  cbn. by destruct ids.
Qed.

Lemma held_entries h : held (renewal_entries h) = renewal_entries h.
Proof.
  unfold renewal_entries. set (l := (map_to_list (slots h)).*2).
  assert (∀ entries, Forall (λ e : text * list text, e.2 ≠ []) entries →
    Forall (λ e : text * list text, e.2 ≠ []) (foldl (λ entries slot, add_entry (slot_user slot) (slot_connection slot) entries) entries l)) as Hall.
  { induction l as [|slot l IH]; intros entries He; [done|]. cbn [foldl]. by apply IH, add_entry_filled. }
  specialize (Hall [] (Forall_nil_2 _)). unfold held. induction Hall as [|e es He Hes IH]; [done|]. cbn [List.filter].
  by rewrite bool_decide_false, IH.
Qed.

Lemma renew_once_leads cl p t w r w' :
  world_of cl p w → cl_tasks cl !! t = None → renew_once config w = (r, w') → is_ok r ∧ leads cl p w'.
Proof.
  destruct cl as [[srv hs] hubs tasks n]. intros (run & Hp & Hh & Hsrv & Hn) Ht. cbn [cl_hubs cl_tasks cl_minted cl_reg rg_server] in *.
  destruct w as [h redis n']. cbn [hw_hub hw_redis hw_minted] in *. subst n' h srv.
  unfold renew_once, renew, eff_catch, on_redis, on_hub, mbind, eff_bind. cbn [hw_hub hw_redis hw_minted]. rewrite held_entries.
  case_bool_decide as Hnil.
  { intros [= <- <-]. split; [done|]. eexists. split; [apply rtc_refl|]. split; [|done]. exists run. by split_and!. }
  set (es := renewal_entries (run_hub run)) in *. cbn [hw_hub hw_redis hw_minted].
  destruct (pipelines _ redis) as [answer redis'] eqn:Hrun.
  destruct (pipelines_leads p t (chunked RENEW_CHUNK es) hubs (<[t := (p, Renewing es)]> tasks) n hs redis answer redis')
    as [Hanswer (hs' & rest & Hpath)]; [rewrite chunked_concat by (unfold RENEW_CHUNK; lia); apply lookup_insert_eq|done|].
  assert (leads (mk_Cluster (mk_Reg redis.1 hs) hubs tasks n) p (mk_HubWorld (run_hub run) redis' n)) as Hleads.
  { exists (mk_Cluster (mk_Reg redis'.1 hs') hubs tasks n). split; [|split; [exists run; cbn; by split_and!|reflexivity]]. cbn [cl_tasks].
    eapply rtc_l; [by apply (cl_renew_all p t run)|]. etrans; [exact Hpath|].
    eapply rtc_l; [eapply (cl_renew_end t); apply lookup_insert_eq|].
    rewrite insert_insert_eq, delete_insert_id by done. apply rtc_refl. }
  destruct Hanswer as [->| ->]; cbn [is_app_error registry_error mret eff_ret]; intros [= <- <-]; by split.
Qed.

(** The coroutines of the hub, run without interruption, never raise whatever happens to
    their calls, and each is a path of the interleaving semantics that leaves no task
    behind: so whatever holds of every interleaving holds of them. *)
Theorem coroutines_take_steps (cl : Cluster) (p t : nat) (w : HubWorld (S := S)) ws u s
    (Hworld : world_of cl p w) (Ht : cl_tasks cl !! t = None)
    (Hnew : ∀ r, cl_hubs cl !! p = Some r → run_joined r !! s = None) :
  (∀ r w', try_register config ws u s w = (r, w') → is_ok r ∧ leads cl p w') ∧
  (∀ r w', unregister ws s w = (r, w') → is_ok r ∧ leads cl p w') ∧
  (∀ r w', renew_once config w = (r, w') → is_ok r ∧ leads cl p w').
Proof.
  split_and!; intros r w' Hrun.
  - by eapply try_register_leads.
  - by eapply unregister_leads.
  - by eapply renew_once_leads.
Qed.
End Cluster.

(** ** A run: two processes, a socket on each *)

Section ClusterDemo.
#[local] Instance cluster_env : Env := demo_env 0.

Definition demo_config : HubConfig := mk_HubConfig 2 90 20 64.
Definition one_socket : memory_server := (acquire_lua (conn_key_for (txt "u")) (uuid7 0) 90000 2 empty_server).2.
Definition two_sockets : memory_server := (acquire_lua (conn_key_for (txt "u")) (uuid7 1) 90000 2 one_socket).2.
Definition demo_run (i : nat) : Run := admitted_run (txt "w") (txt "u") 7%nat (uuid7 i) start.
Definition demo_holds : holds := <[uuid7 1 := mk_Hold (txt "u") 0 true]> {[uuid7 0 := mk_Hold (txt "u") 0 true]}.
Definition demo_cluster : Cluster (S := memory_server) :=
  mk_Cluster (mk_Reg two_sockets demo_holds) (<[1%nat := demo_run 1]> {[0%nat := demo_run 0]}) ∅ 2.

(** A socket of process [i], admitted as the [i]-th connection. *)
Lemma demo_socket i s1 s2 hs hubs n :
  hubs !! n = Some start → acquire_lua (conn_key_for (txt "u")) (uuid7 i) 90000 2 s1 = (1, s2) →
  rtc (cl_step demo_config) (mk_Cluster (mk_Reg s1 hs) hubs ∅ i)
    (mk_Cluster (mk_Reg s2 (<[uuid7 i := mk_Hold (txt "u") (now_ms s1) true]> hs)) (<[n := demo_run i]> hubs) ∅ (Datatypes.S i)).
Proof.
  intros Hn Ha. eapply rtc_l; [by apply (cl_register demo_config n 0%nat (txt "w") (txt "u") 7%nat)|].
  eapply rtc_l.
  { apply (cl_acquire demo_config 0%nat n (txt "w") (txt "u") 7%nat (uuid7 i) true 1 s1 s2); [by rewrite lookup_insert_eq|done]. }
  eapply rtc_l; [eapply (cl_admit demo_config 0%nat n (txt "w") (txt "u") 7%nat (uuid7 i) start); [by rewrite lookup_insert_eq|done|done]|].
  rewrite insert_insert_eq, delete_insert_id by done. apply rtc_refl.
Qed.

Lemma demo_cluster_run : rtc (cl_step demo_config) (no_process empty_server 0) demo_cluster.
Proof.
  eapply rtc_l; [apply (cl_boot demo_config 0%nat); reflexivity|].
  etrans; [apply (demo_socket 0 empty_server one_socket _ _ 0%nat); [reflexivity|vm_compute; reflexivity]|].
  eapply rtc_l; [apply (cl_boot demo_config 1%nat); reflexivity|].
  etrans; [apply (demo_socket 1 one_socket two_sockets _ _ 1%nat); [reflexivity|vm_compute; reflexivity]|].
  match goal with |- rtc _ ?cl _ => assert (cl = demo_cluster) as -> by (vm_compute; reflexivity) end. apply rtc_refl.
Qed.

(** Both sessions are attended entries of the set, the registry counts two, and a third request
    is refused on either process. *)
Lemma hubs_share_the_cap_witness :
  2 ≤ (count_lua (conn_key_for (txt "u")) 90000 two_sockets).1 ∧
  (count_lua (conn_key_for (txt "u")) 90000 two_sockets).1 ≤ 2 ∧
  (∃ t, zget two_sockets (conn_key_for (txt "u")) !! uuid7 1 = Some t ∧ 0 - 90000 < t) ∧
  (acquire_lua (conn_key_for (txt "u")) (uuid7 2) 90000 2 two_sockets).1 = 0.
Proof.
  destruct (hubs_share_the_cap demo_config ltac:(cbn; lia) empty_server 0 demo_cluster (txt "u") empty_keys
    demo_cluster_run) as (Hcap & Hmax & Hentry & _).
  assert (∀ i, (i < 2)%nat → attended 90000 (cl_reg demo_cluster) (uuid7 i) (txt "u")) as Hatt.
  { intros i Hi. exists (mk_Hold (txt "u") 0 true). split; [|split; [reflexivity|split; vm_compute; reflexivity]].
    destruct i as [|[|i]]; [vm_compute; reflexivity..|lia]. }
  assert (∀ i, (i < 2)%nat → cl_hubs demo_cluster !! i = Some (demo_run i)) as Hhub.
  { intros i Hi. destruct i as [|[|i]]; [reflexivity..|lia]. }
  assert (∀ i, slots (run_hub (demo_run i)) !! 7%nat = Some (mk_Slot (txt "u") (uuid7 i))) as Hslot by reflexivity.
  split; [|split; [exact Hmax|split; [|vm_compute; reflexivity]]].
  - apply (Hcap [(0%nat, 7%nat); (1%nat, 7%nat)]); [apply NoDup_cons; split; [by intros [=]%list_elem_of_singleton|apply NoDup_singleton]|].
    intros p s [[= -> ->]|[[= -> ->]|?%elem_of_nil]%elem_of_cons]%elem_of_cons; [| |done].
    + exists (demo_run 0), (mk_Slot (txt "u") (uuid7 0)). split; [apply Hhub; lia|]. split; [apply Hslot|]. split; [reflexivity|].
      apply Hatt. lia.
    + exists (demo_run 1), (mk_Slot (txt "u") (uuid7 1)). split; [apply Hhub; lia|]. split; [apply Hslot|]. split; [reflexivity|].
      apply Hatt. lia.
  - apply (Hentry 1%nat (demo_run 1) 7%nat (mk_Slot (txt "u") (uuid7 1))); [apply Hhub; lia|apply Hslot|apply Hatt; lia].
Defined.
End ClusterDemo.
