(* ===== verification/Knowledge.v ===== *)
(** * Knowledge: documents, their chunks, and the jobs that rebuild or summarise them

    [modules/knowledge/domain/entities.py], [value_objects.py], [events.py] and the
    fingerprint rule of [pipeline.py]: the life of a document, of a re-index job, which is
    read off the documents it made, and of a summary job, which is stored. *)

From S2P Require Import Prelude Text Calendar Errors.

Open Scope Z_scope.

(** ** Enumerations *)

Inductive IndexStatus : Type := PENDING | INDEXING | INDEXED | INDEX_FAILED.
Inductive SummaryKind : Type := OVERVIEW | FULL.
Inductive SummaryLanguage : Type := AUTO | AR | EN.
Inductive SummaryJobStatus : Type := QUEUED | RUNNING | SUCCEEDED | FAILED | CANCELLED.

#[export] Instance IndexStatus_eq_dec : EqDecision IndexStatus.
Proof. solve_decision. Defined.
#[export] Instance SummaryKind_eq_dec : EqDecision SummaryKind.
Proof. solve_decision. Defined.
#[export] Instance SummaryLanguage_eq_dec : EqDecision SummaryLanguage.
Proof. solve_decision. Defined.
#[export] Instance SummaryJobStatus_eq_dec : EqDecision SummaryJobStatus.
Proof. solve_decision. Defined.

Definition index_status_value (s : IndexStatus) : text :=
  match s with
  | PENDING => txt "pending" | INDEXING => txt "indexing" | INDEXED => txt "indexed" | INDEX_FAILED => txt "failed"
  end.
Definition summary_kind_value (k : SummaryKind) : text :=
  match k with OVERVIEW => txt "overview" | FULL => txt "full" end.
Definition language_value (l : SummaryLanguage) : text :=
  match l with AUTO => txt "auto" | AR => txt "ar" | EN => txt "en" end.

(** ** Documents *)

Record Document := mk_Document {
  doc_id : text;
  doc_workspace_id : text;
  doc_space_id : option text;
  doc_file_id : text;
  doc_status : IndexStatus;
  doc_chunk_count : Z;
  doc_error : option text;
  doc_created_at : instant;
  doc_updated_at : instant;
  doc_version : Z;
  doc_content_hash : option text;
  doc_pipeline_version : option Z;
  doc_text_chunks : Z;
  doc_table_chunks : Z;
  doc_image_chunks : Z
}.

Inductive KnowledgeErr : Type := DocumentStateError | SummaryJobStateError.

(** The document with what a transition writes; the kinds and the fingerprint are those of
    its completion. *)
Definition doc_moved (st : IndexStatus) (error : option text) (now : instant) (d : Document) : Document :=
  mk_Document (doc_id d) (doc_workspace_id d) (doc_space_id d) (doc_file_id d) st (doc_chunk_count d) error
    (doc_created_at d) now (doc_version d) (doc_content_hash d) (doc_pipeline_version d)
    (doc_text_chunks d) (doc_table_chunks d) (doc_image_chunks d).

Definition start_indexing (now : instant) (d : Document) : result KnowledgeErr Document :=
  match doc_status d with
  | PENDING | INDEXING => Ok (doc_moved INDEXING (doc_error d) now d)
  | _ => Err DocumentStateError
  end.

Definition complete_indexing (chunk_count : Z) (now : instant) (content_hash : option text) (pipeline_version : option Z)
    (text_chunks table_chunks image_chunks : Z) (d : Document) : result KnowledgeErr Document :=
  match doc_status d with
  | INDEXING =>
      Ok (mk_Document (doc_id d) (doc_workspace_id d) (doc_space_id d) (doc_file_id d) INDEXED chunk_count None
            (doc_created_at d) now (doc_version d) content_hash pipeline_version text_chunks table_chunks image_chunks)
  | _ => Err DocumentStateError
  end.

Definition fail_indexing (reason : text) (now : instant) (d : Document) : result KnowledgeErr Document :=
  match doc_status d with
  | INDEXING => Ok (doc_moved INDEX_FAILED (Some reason) now d)
  | _ => Err DocumentStateError
  end.

(** [_TERMINAL] *)
Definition index_terminal (s : IndexStatus) : bool := match s with INDEXED | INDEX_FAILED => true | _ => false end.

Definition PIPELINE_VERSION : Z := 7.

Definition content_pipeline_unchanged (stored_hash : option text) (current_hash : text) (stored_version : option Z)
    (current_version : Z) : bool :=
  bool_decide (stored_hash = Some current_hash) && bool_decide (stored_version = Some current_version).

(** [_reflects_current_pipeline] *)
Definition reflects_current_pipeline (d : Document) : bool :=
  match doc_content_hash d with
  | None => false
  | Some h => content_pipeline_unchanged (Some h) h (doc_pipeline_version d) PIPELINE_VERSION
  end.

Record VectorRef := mk_VectorRef { vr_collection : text; vr_point_id : text }.

Record Chunk := mk_Chunk {
  ck_id : text; ck_document_id : text; ck_workspace_id : text; ck_seq : Z; ck_text : text;
  ck_token_count : option Z; ck_vector_ref : option VectorRef; ck_parent_id : option text
}.

Record ParentChunk := mk_ParentChunk {
  pa_id : text; pa_document_id : text; pa_workspace_id : text; pa_seq : Z; pa_text : text;
  pa_created_at : instant; pa_is_complete : bool
}.

(** ** Re-index jobs *)

Record ReindexItem := mk_ReindexItem {
  ri_document_id : text; ri_file_id : text; ri_source_document_id : text; ri_status : IndexStatus
}.

Record ReindexJob := mk_ReindexJob {
  rj_id : text; rj_workspace_id : text; rj_items : list ReindexItem;
  rj_cancelled_at : option instant; rj_created_at : instant
}.

Inductive ReindexJobStatus : Type := JOB_RUNNING | JOB_COMPLETED | JOB_CANCELLED.

#[export] Instance ReindexJobStatus_eq_dec : EqDecision ReindexJobStatus.
Proof. solve_decision. Defined.

Definition item_terminal (i : ReindexItem) : bool := index_terminal (ri_status i).
Definition finished (j : ReindexJob) : Z := Z.of_nat (length (List.filter item_terminal (rj_items j))).

Definition reindex_status (j : ReindexJob) : ReindexJobStatus :=
  if bool_decide (rj_cancelled_at j ≠ None) then JOB_CANCELLED
  else if finished j =? Z.of_nat (length (rj_items j)) then JOB_COMPLETED
  else JOB_RUNNING.

Definition reindex_percent (j : ReindexJob) : Z :=
  if bool_decide (rj_items j = []) then 100
  else finished j * 100 / Z.of_nat (length (rj_items j)).

Definition current (j : ReindexJob) : option ReindexItem :=
  List.find (λ i, bool_decide (ri_status i = INDEXING)) (rj_items j).

Definition is_pending (i : ReindexItem) : bool := bool_decide (ri_status i = PENDING).

Definition claimed_item (i : ReindexItem) : ReindexItem :=
  if is_pending i then mk_ReindexItem (ri_document_id i) (ri_file_id i) (ri_source_document_id i) INDEX_FAILED else i.

(** The documents claimed, and the job as it then is. *)
Definition cancel_reindex (now : instant) (j : ReindexJob) : list text * ReindexJob :=
  if bool_decide (rj_cancelled_at j ≠ None) then ([], j)
  else (ri_document_id <$> List.filter is_pending (rj_items j),
        mk_ReindexJob (rj_id j) (rj_workspace_id j) (claimed_item <$> rj_items j) (Some now) (rj_created_at j)).

(** ** Summaries *)

Record Summary := mk_Summary {
  su_id : text;
  su_workspace_id : text;
  su_document_id : text;
  su_kind : SummaryKind;
  su_lang : SummaryLanguage;
  su_text : text;
  su_model : text;
  su_source_chunks : Z;
  su_truncated : bool;
  su_built_at : instant
}.

(** ** Jobs *)

Record SummaryJob := mk_SummaryJob {
  sj_id : text;
  sj_workspace_id : text;
  sj_document_id : text;
  sj_kind : SummaryKind;
  sj_lang : SummaryLanguage;
  sj_status : SummaryJobStatus;
  sj_total_chunks : Z;
  sj_done_chunks : Z;
  sj_error : option text;
  sj_cancelled_at : option instant;
  sj_finished_at : option instant;
  sj_created_at : instant;
  sj_updated_at : instant
}.

(** [_JOB_TERMINAL] *)
Definition terminal_status (s : SummaryJobStatus) : bool :=
  match s with SUCCEEDED | FAILED | CANCELLED => true | QUEUED | RUNNING => false end.

Definition is_terminal (j : SummaryJob) : bool := terminal_status (sj_status j).

Definition percent (j : SummaryJob) : Z :=
  if bool_decide (sj_status j = SUCCEEDED) then 100
  else if sj_total_chunks j <=? 0 then 0
  else Z.min (sj_done_chunks j * 100 / sj_total_chunks j) 99.

(** A job with the columns a transition writes. *)
Definition moved (st : SummaryJobStatus) (total finished_chunks : Z) (error : option text)
    (cancelled finished : option instant) (j : SummaryJob) : SummaryJob :=
  mk_SummaryJob (sj_id j) (sj_workspace_id j) (sj_document_id j) (sj_kind j) (sj_lang j) st total finished_chunks
    error cancelled finished (sj_created_at j) (sj_updated_at j).

Definition start (total_chunks : Z) (j : SummaryJob) : result KnowledgeErr SummaryJob :=
  match sj_status j with
  | QUEUED | RUNNING => Ok (moved RUNNING total_chunks 0 (sj_error j) (sj_cancelled_at j) (sj_finished_at j) j)
  | _ => Err SummaryJobStateError
  end.

Definition advance (done_chunks : Z) (j : SummaryJob) : result KnowledgeErr SummaryJob :=
  match sj_status j with
  | RUNNING =>
      Ok (moved RUNNING (sj_total_chunks j) (Z.max 0 (Z.min done_chunks (sj_total_chunks j)))
            (sj_error j) (sj_cancelled_at j) (sj_finished_at j) j)
  | _ => Err SummaryJobStateError
  end.

Definition succeed (now : instant) (j : SummaryJob) : result KnowledgeErr SummaryJob :=
  match sj_status j with
  | RUNNING => Ok (moved SUCCEEDED (sj_total_chunks j) (sj_total_chunks j) None (sj_cancelled_at j) (Some now) j)
  | _ => Err SummaryJobStateError
  end.

Definition fail (reason : text) (now : instant) (j : SummaryJob) : result KnowledgeErr SummaryJob :=
  if is_terminal j then Err SummaryJobStateError
  else Ok (moved FAILED (sj_total_chunks j) (sj_done_chunks j) (Some reason) (sj_cancelled_at j) (Some now) j).

(** Whether anything changed, with the job as it then is. *)
Definition cancel (reason : text) (now : instant) (j : SummaryJob) : bool * SummaryJob :=
  if is_terminal j then (false, j)
  else (true, moved CANCELLED (sj_total_chunks j) (sj_done_chunks j) (Some reason) (Some now) (Some now) j).

(** ** Events *)

Inductive KnowledgeEvent : Type :=
  | DocumentRegistered (document_id workspace_id file_id : text) (at_ : instant)
  | DocumentIndexed (document_id workspace_id file_id : text) (chunk_count : Z) (collection : text) (at_ : instant)
  | DocumentIndexingFailed (document_id workspace_id reason : text) (at_ : instant)
  | SummaryRequested (job_id workspace_id document_id kind lang : text) (conversation_id : option text) (at_ : instant)
  | SummaryBuilt (job_id workspace_id document_id kind lang : text) (conversation_id : option text) (at_ : instant)
  | SummaryBuildFailed (job_id workspace_id document_id reason : text) (conversation_id : option text) (at_ : instant).

(** ** The life of a job *)

(** A job with work left has not ended; one that has ended says when, one that failed or was
    cancelled says why, and the instant of a cancellation is kept by cancelled jobs alone. *)
Definition coherent (j : SummaryJob) : Prop :=
  0 ≤ sj_total_chunks j ∧ 0 ≤ sj_done_chunks j ≤ sj_total_chunks j ∧
  (sj_finished_at j = None ↔ is_terminal j = false) ∧
  (sj_error j = None ↔ sj_status j ≠ FAILED ∧ sj_status j ≠ CANCELLED) ∧
  (sj_cancelled_at j = None ↔ sj_status j ≠ CANCELLED) ∧
  (sj_status j = QUEUED → sj_total_chunks j = 0) ∧
  (sj_status j = SUCCEEDED → sj_done_chunks j = sj_total_chunks j).

(** The moves of the domain. *)
Inductive moves : SummaryJob → SummaryJob → Prop :=
  | moves_start n j j' : 0 ≤ n → start n j = Ok j' → moves j j'
  | moves_advance n j j' : advance n j = Ok j' → moves j j'
  | moves_succeed t j j' : succeed t j = Ok j' → moves j j'
  | moves_fail r t j j' : fail r t j = Ok j' → moves j j'
  | moves_cancel r t j : moves j (cancel r t j).2.

Lemma moves_terminal j j' : moves j j' → is_terminal j = true → j' = j.
Proof.
  unfold is_terminal. destruct 1 as [n j j' _ Hs|n j j' Hs|t j j' Hs|r t j j' Hs|r t j]; intros Ht.
  1-3: unfold start, advance, succeed in Hs; by destruct (sj_status j).
  - unfold fail, is_terminal in Hs. by rewrite Ht in Hs.
  - unfold cancel, is_terminal. by rewrite Ht.
Qed.

Lemma moves_coherent j j' : coherent j → moves j j' → coherent j'.
Proof.
  unfold coherent, is_terminal. intros (H1 & H2 & H3 & H4 & H5 & H6 & H7).
  destruct 1 as [n j j' Hn Hs|n j j' Hs|t j j' Hs|r t j j' Hs|r t j].
  1-3: unfold start, advance, succeed in Hs; destruct (sj_status j) eqn:Hst; try done; injection Hs as <-;
    cbn in *; split_and!; naive_solver lia.
  - unfold fail, is_terminal in Hs. destruct (sj_status j) eqn:Hst; cbn in Hs; try done; injection Hs as <-;
      cbn in *; split_and!; naive_solver.
  - unfold cancel, is_terminal. destruct (sj_status j) eqn:Hst; cbn [terminal_status snd];
      cbn in *; rewrite ?Hst; split_and!; naive_solver.
Qed.

Lemma percent_bounds j : coherent j → 0 ≤ percent j ≤ 100 ∧ (percent j = 100 ↔ sj_status j = SUCCEEDED).
Proof.
  intros (H1 & H2 & _). unfold percent. case_bool_decide as Hs; [naive_solver lia|].
  destruct (Z.leb_spec (sj_total_chunks j) 0); [naive_solver lia|].
  assert (0 ≤ sj_done_chunks j * 100 / sj_total_chunks j) by (apply Z.div_pos; lia). naive_solver lia.
Qed.

(** ** Progress of a rebuild *)

Lemma finished_le (j : ReindexJob) : 0 ≤ finished j ≤ Z.of_nat (length (rj_items j)).
Proof. unfold finished. pose proof (List.filter_length_le item_terminal (rj_items j)). lia. Qed.

(** A rebuild is complete exactly at a hundred per cent, unless it was stopped. *)
Lemma reindex_percent_bounds j :
  0 ≤ reindex_percent j ≤ 100 ∧
  (reindex_percent j = 100 ↔ Forall (λ i, item_terminal i = true) (rj_items j)) ∧
  (reindex_status j = JOB_COMPLETED ↔ rj_cancelled_at j = None ∧ reindex_percent j = 100).
Proof.
  assert (finished j = Z.of_nat (length (rj_items j)) ↔ Forall (λ i, item_terminal i = true) (rj_items j)) as Hall.
  { unfold finished. induction (rj_items j) as [|i l IH]; cbn; [naive_solver|].
    pose proof (List.filter_length_le item_terminal l). rewrite Forall_cons, <- IH.
    destruct (item_terminal i); cbn [length]; split; try lia; naive_solver lia. }
  pose proof (finished_le j) as Hf. unfold reindex_percent, reindex_status. case_bool_decide as Hi.
  { rewrite Hi in *. cbn [length] in *. rewrite (proj2 (Z.eqb_eq _ _)) by lia.
    split_and!; [lia|lia|naive_solver|]. case_bool_decide as Hc; [naive_solver|].
    split; [|done]. intros _. split; [|done]. by destruct (rj_cancelled_at j); [destruct Hc|]. }
  assert (0 < Z.of_nat (length (rj_items j))) as Hl by (destruct (rj_items j); [done|cbn; lia]).
  assert (finished j * 100 / Z.of_nat (length (rj_items j)) = 100 ↔ finished j = Z.of_nat (length (rj_items j))) as H100.
  { split; [|intros ->; rewrite Z.mul_comm; by apply Z.div_mul; lia]. intros Hd.
    pose proof (Z.mul_div_le (finished j * 100) _ Hl). rewrite Hd in *. lia. }
  split_and!; [apply Z.div_pos; lia| |by rewrite H100|].
  - apply Z.div_le_upper_bound; lia.
  - rewrite H100, <- Z.eqb_eq. case_bool_decide as Hc; [naive_solver|].
    destruct (finished j =? _); naive_solver.
Qed.

(** Stopping a rebuild claims the documents nobody has started, and only those. *)
Lemma cancel_reindex_claims now j : rj_cancelled_at j = None →
  let '(claimed, j') := cancel_reindex now j in
  reindex_status j' = JOB_CANCELLED ∧
  (∀ i, i ∈ rj_items j → ri_status i = PENDING → ri_document_id i ∈ claimed) ∧
  (∀ k, k ∈ claimed → ∃ i, i ∈ rj_items j ∧ ri_document_id i = k ∧ ri_status i = PENDING) ∧
  Forall (λ i, ri_status i ≠ PENDING) (rj_items j') ∧
  cancel_reindex now j' = ([], j').
Proof.
  intros Hc. unfold cancel_reindex. rewrite Hc, bool_decide_false by naive_solver. cbv iota beta.
  unfold reindex_status. cbn [rj_cancelled_at rj_items]. rewrite !bool_decide_true by done. split_and!; [done| | | |done].
  - intros i Hi Hp. apply list_elem_of_fmap. exists i. split; [done|]. apply elem_of_list_filter_bool.
    split; [done|]. unfold is_pending. by apply bool_decide_eq_true.
  - intros k (i & -> & [Hi Hp]%elem_of_list_filter_bool)%list_elem_of_fmap. exists i.
    split_and!; [done|done|]. by apply bool_decide_eq_true in Hp.
  - apply Forall_fmap, Forall_forall. intros i _. cbn. unfold claimed_item. destruct (is_pending i) eqn:Hp; [done|].
    by apply bool_decide_eq_false in Hp.
Qed.
