(* ===== verification/Summarization.v ===== *)
(** * Summarization: from a document's chunks to its summary

    [modules/knowledge/application/summarization.py]: the glance at a document, the map over
    all of it and the fold of the notes, each provider call streamed under a deadline and
    listening for a stop. *)

From S2P Require Import Prelude Text Calendar Errors Knowledge.

Open Scope Z_scope.

(** ** Limits and prompts *)

Definition OVERVIEW_CHUNKS : Z := 8.
Definition GAP_MARKER : text := [91; 8230; 93].
Definition MAP_BATCH : nat := 20.
Definition MAX_MAP_CHUNKS : nat := 240.
Definition MAX_BATCH_CHARS : Z := 24000.
Definition MAX_REDUCE_CHARS : Z := 16000.
Definition MAX_FOLD_DEPTH : nat := 3.
(** The decimal [2 * 10^-1]. *)
Definition TEMPERATURE : Z * Z := (2, -1).
Definition MAP_MAX_TOKENS : Z := 600.
Definition OVERVIEW_MAX_TOKENS : Z := 900.
Definition REDUCE_MAX_TOKENS : Z := 2500.
(** Microseconds, as all times here. *)
Definition CANCEL_POLL_INTERVAL : Z := 2 * us_per_second.
Definition DEFAULT_CALL_TIMEOUT : Z := 300 * us_per_second.

Inductive Step : Type :=
  | StepOverview | StepFullSingleBatch | StepMap | StepFold | StepReduce | StepTranslate.

Definition step_name (s : Step) : text :=
  match s with
  | StepOverview => txt "overview"
  | StepFullSingleBatch => txt "full_single_batch"
  | StepMap => txt "map"
  | StepFold => txt "fold"
  | StepReduce => txt "reduce"
  | StepTranslate => txt "translate"
  end.

Definition LANGUAGE_INSTRUCTION (l : SummaryLanguage) : text :=
  match l with
  | AUTO => txt "Write the summary in the same language the source text is written in."
  | AR => txt "Write the summary in Arabic (" ++ [1575; 1604; 1593; 1585; 1576; 1610; 1577] ++ txt ")."
  | EN => txt "Write the summary in English."
  end.

Definition MAP_SYSTEM : text := txt "You are extracting notes from one part of a longer document. List the concrete facts, claims, figures, names and decisions this excerpt contains, as terse bullet points. Do not add an introduction, a conclusion, or anything the excerpt does not say. Keep every note in the language of the excerpt.".
Definition REDUCE_SYSTEM : text := txt "You are writing the final summary of a document from ordered notes taken across its parts. Produce well-structured Markdown with short headings and paragraphs. Cover the whole document in proportion, keep figures and names exact, and state nothing the notes do not support.".
Definition FOLD_SYSTEM : text := txt "You are compressing several batches of notes taken from different parts of a longer document into ONE shorter set of notes. Keep every concrete fact, claim, figure, name and decision the notes contain, as terse bullet points. Do not add an introduction or a conclusion, and do not state anything the notes do not already say. Keep every note in its original language.".
Definition OVERVIEW_SYSTEM : text :=
  txt "You are writing a brief overview of a document from a sample of excerpts taken from across it, in reading order. A marker written exactly as '" ++ GAP_MARKER ++
  txt "' stands for a real gap between excerpts -- material was skipped there, not lost or blank. In a few short Markdown paragraphs say what the document is, what it covers, and who it appears to be for. Do not speculate about parts you were not shown, and do not mention the sampling or the marker itself.".
Definition FULL_SYSTEM : text := txt "You are summarising a document. Produce well-structured Markdown with short headings and paragraphs, covering the whole text in proportion, keeping figures and names exact, and stating nothing the text does not support.".
Definition TRANSLATE_SYSTEM : text := txt "You are translating an already-written document summary into another language. Preserve its Markdown structure, headings, figures and names exactly. Translate the prose faithfully and add or omit nothing the original does not already say.".

Definition SEPARATOR : text := [10; 10].

(** ** Grouping and sampling *)

Definition join_chunks (chunks : list text) : text := join SEPARATOR chunks.

(** The loop of [_batched], with its batch under way and that batch's size. *)
Fixpoint batched_from (max_chars : Z) (current : list text) (size : Z) (chunks : list text) : list (list text) :=
  match chunks with
  | [] => if bool_decide (current = []) then [] else [current]
  | chunk :: chunks =>
      if negb (bool_decide (current = [])) &&
         (bool_decide (MAP_BATCH ≤ length current)%nat || (max_chars <? size + len chunk))
      then current :: batched_from max_chars [chunk] (len chunk) chunks
      else batched_from max_chars (current ++ [chunk]) (size + len chunk) chunks
  end.

Definition batched (max_chars : Z) (chunks : list text) : list (list text) := batched_from max_chars [] 0 chunks.

(** [sorted({(i * span + last // 2) // last for i in range(_OVERVIEW_CHUNKS)})] *)
Definition sample_positions (n : Z) : list Z :=
  let span := n - 1 in
  let last := Z.max (OVERVIEW_CHUNKS - 1) 1 in
  sort_by Z.leb (dict_fromkeys ((λ i, (i * span + last / 2) / last) <$> seqZ 0 OVERVIEW_CHUNKS)).

(** The excerpts with a marker where two of them are not neighbours. *)
Fixpoint sample_parts (readable : list text) (previous : option Z) (indices : list Z) : list text :=
  match indices with
  | [] => []
  | i :: indices =>
      match previous with
      | Some p => if negb (i =? p + 1) then [GAP_MARKER] else []
      | None => []
      end ++ default [] (readable !! Z.to_nat i) :: sample_parts readable (Some i) indices
  end.

Definition glance_sample (readable : list text) : text * Z :=
  let n := Z.of_nat (length readable) in
  if n <=? OVERVIEW_CHUNKS then (join_chunks readable, n)
  else let indices := sample_positions n in
       (join SEPARATOR (sample_parts readable None indices), Z.of_nat (length indices)).

(** ** The provider *)

Record LlmMessage := mk_LlmMessage { lm_role : text; lm_content : text }.
Record LlmParams := mk_LlmParams { lp_model : text; lp_temperature : Z * Z; lp_max_tokens : Z }.

(** The adapter that answers, the model and the key. *)
Record ResolvedSummarizer := mk_ResolvedSummarizer { rs_provider : text; rs_model : text; rs_api_key : text }.

(** What one call meets, pull by pull: the reading of [monotonic()] at the head of the loop,
    the one the remaining time is taken from, and what [anext] under that time gives. *)
Inductive Script : Type :=
  | Delta (now later : Z) (delta : text) (finish_reason : option text) (rest : Script)
  | Ends (now later : Z)
  | Stalls (now later : Z)
  | Breaks (now later : Z) (e : exn).

(** Opening the stream, after the call's first reading of the clock, and closing it. *)
Class LlmStreams (W : Type) := {
  stream : text → list LlmMessage → LlmParams → text → W → (Z * Script) * W;
  aclose : W → W
}.

(** How a build ends without a summary: it was stopped, or with an exception. *)
Inductive BuildErr : Type :=
  | Cancelled
  | NoIndexedText
  | EmptyResponse (s : Step)
  | CallTimeout
  | Raised (e : exn).

Record SummaryDraft := mk_SummaryDraft {
  sd_text : text; sd_model : text; sd_source_chunks : Z; sd_truncated : bool
}.

Section Pipeline.
Context {W : Type} `{LlmStreams W}.
Context (timeout : Z) (decimal : Z → text).
Abbreviation build A := (eff W BuildErr A).

(** What a hook raises comes through. *)
Definition raising {A} (m : eff W exn A) : build A := λ w, let '(r, w') := m w in (map_err Raised r, w').

(** [if await should_cancel(): raise SummaryBuildCancelled] *)
Definition stop_point (should_cancel : eff W exn bool) : build unit :=
  raising should_cancel ≫= λ stop : bool, if stop then eff_raise Cancelled else mret tt.

(** [_next_chunk_before]: nothing is pulled past the deadline. *)
Definition in_time (deadline later : Z) : build unit := eff_lift (raise_if (deadline - later <=? 0) CallTimeout).

(** The poll at the head of the loop, and when the next one is due. *)
Definition poll (should_cancel : eff W exn bool) (finish : option text) (now next_poll : Z) : build Z :=
  if bool_decide (finish = None) && (next_poll <=? now)
  then _ ← stop_point should_cancel; mret (now + CANCEL_POLL_INTERVAL)
  else mret next_poll.

Fixpoint pulls (should_cancel : eff W exn bool) (deadline next_poll : Z) (parts : list text)
    (finish : option text) (s : Script) : build (list text * option text) :=
  match s with
  | Delta now later delta reason rest =>
      next ← poll should_cancel finish now next_poll;
      _ ← in_time deadline later;
      pulls should_cancel deadline next (parts ++ [delta])
        (match reason with Some _ => reason | None => finish end) rest
  | Ends now later =>
      _ ← poll should_cancel finish now next_poll;
      _ ← in_time deadline later;
      mret (parts, finish)
  | Stalls now later =>
      _ ← poll should_cancel finish now next_poll;
      _ ← in_time deadline later;
      eff_raise CallTimeout
  | Breaks now later e =>
      _ ← poll should_cancel finish now next_poll;
      _ ← in_time deadline later;
      eff_raise (Raised e)
  end.

(** [try: m] / [finally: await _close_quietly(chunks)] *)
Definition closing {A} (m : build A) : build A := λ w, let '(r, w') := m w in (r, aclose w').

Definition messages_of (system user : text) (lang : SummaryLanguage) : list LlmMessage :=
  [mk_LlmMessage (txt "system") (system ++ SEPARATOR ++ LANGUAGE_INSTRUCTION lang);
   mk_LlmMessage (txt "user") user].

Definition open (system user : text) (lang : SummaryLanguage) (sm : ResolvedSummarizer) (max_tokens : Z)
    : build (Z * Script) :=
  λ w, let '(s, w') := stream (rs_provider sm) (messages_of system user lang)
                         (mk_LlmParams (rs_model sm) TEMPERATURE max_tokens) (rs_api_key sm) w in (Ok s, w').

(** [_call] *)
Definition call (system user : text) (lang : SummaryLanguage) (sm : ResolvedSummarizer) (max_tokens : Z)
    (s : Step) (should_cancel : eff W exn bool) : build text :=
  '(now, script) ← open system user lang sm max_tokens;
  '(parts, _) ← closing (pulls should_cancel (now + timeout) (now + CANCEL_POLL_INTERVAL) [] None script);
  let t := strip (concat parts) in
  if bool_decide (t = []) then eff_raise (EmptyResponse s) else mret t.

(** The folds of one level. *)
Fixpoint fold_groups (lang : SummaryLanguage) (sm : ResolvedSummarizer) (on_tick : eff W exn unit)
    (should_cancel : eff W exn bool) (groups : list (list text)) : build (list text) :=
  match groups with
  | [] => mret []
  | group :: groups =>
      _ ← stop_point should_cancel;
      _ ← raising on_tick;
      note ← call FOLD_SYSTEM (join SEPARATOR group) lang sm MAP_MAX_TOKENS StepFold should_cancel;
      notes ← fold_groups lang sm on_tick should_cancel groups;
      mret (note :: notes)
  end.

(** [_fold], [levels] more of them allowed. *)
Fixpoint fold (lang : SummaryLanguage) (sm : ResolvedSummarizer) (on_tick : eff W exn unit)
    (should_cancel : eff W exn bool) (levels : nat) (notes : list text) : build text :=
  let grouped := batched MAX_REDUCE_CHARS notes in
  let reduce :=
    _ ← stop_point should_cancel;
    _ ← raising on_tick;
    call REDUCE_SYSTEM (join SEPARATOR notes) lang sm REDUCE_MAX_TOKENS StepReduce should_cancel in
  match levels with
  | O => reduce
  | S levels =>
      if bool_decide (length grouped = 1%nat) then reduce
      else folded ← fold_groups lang sm on_tick should_cancel grouped;
           fold lang sm on_tick should_cancel levels folded
  end.

Definition part_prompt (index total : Z) (batch : list text) : text :=
  txt "Part " ++ decimal index ++ txt " of " ++ decimal total ++ txt "." ++ SEPARATOR ++ join_chunks batch.
Definition part_note (index : Z) (note : text) : text :=
  txt "## Part " ++ decimal index ++ [10] ++ note.

(** The map, from part [index] on with [done] chunks read. *)
Fixpoint map_parts (lang : SummaryLanguage) (sm : ResolvedSummarizer) (on_progress : Z → eff W exn unit)
    (should_cancel : eff W exn bool) (total index done : Z) (batches : list (list text)) : build (list text) :=
  match batches with
  | [] => mret []
  | batch :: batches =>
      _ ← stop_point should_cancel;
      note ← call MAP_SYSTEM (part_prompt index total batch) lang sm MAP_MAX_TOKENS StepMap should_cancel;
      let done := done + Z.of_nat (length batch) in
      _ ← raising (on_progress done);
      notes ← map_parts lang sm on_progress should_cancel total (index + 1) done batches;
      mret (part_note index note :: notes)
  end.

Definition is_readable (t : text) : bool := negb (bool_decide (strip t = [])).

(** [execute] *)
Definition execute (chunks : list text) (kind : SummaryKind) (lang : SummaryLanguage) (sm : ResolvedSummarizer)
    (on_progress : Z → eff W exn unit) (should_cancel : eff W exn bool) : build SummaryDraft :=
  let readable := List.filter is_readable chunks in
  if bool_decide (readable = []) then eff_raise NoIndexedText
  else
    match kind with
    | OVERVIEW =>
        let '(sample, sampled) := glance_sample readable in
        t ← call OVERVIEW_SYSTEM sample lang sm OVERVIEW_MAX_TOKENS StepOverview should_cancel;
        _ ← raising (on_progress sampled);
        mret (mk_SummaryDraft t (rs_model sm) sampled (sampled <? Z.of_nat (length readable)))
    | FULL =>
        let window := take MAX_MAP_CHUNKS readable in
        let size := Z.of_nat (length window) in
        let truncated := size <? Z.of_nat (length readable) in
        let batches := batched MAX_BATCH_CHARS window in
        if bool_decide (length (batched MAX_REDUCE_CHARS window) = 1%nat) then
          t ← call FULL_SYSTEM (join_chunks (hd [] batches)) lang sm REDUCE_MAX_TOKENS StepFullSingleBatch should_cancel;
          _ ← raising (on_progress size);
          mret (mk_SummaryDraft t (rs_model sm) size truncated)
        else
          notes ← map_parts lang sm on_progress should_cancel (Z.of_nat (length batches)) 1 0 batches;
          t ← fold lang sm (on_progress size) should_cancel (pred MAX_FOLD_DEPTH) notes;
          mret (mk_SummaryDraft t (rs_model sm) size truncated)
    end.

(** [translate] *)
Definition translate (source : Summary) (lang : SummaryLanguage) (sm : ResolvedSummarizer)
    (on_tick : eff W exn unit) (should_cancel : eff W exn bool) : build SummaryDraft :=
  if bool_decide (su_lang source = lang)
  then mret (mk_SummaryDraft (su_text source) (su_model source) (su_source_chunks source) (su_truncated source))
  else
    _ ← raising on_tick;
    t ← call TRANSLATE_SYSTEM (su_text source) lang sm REDUCE_MAX_TOKENS StepTranslate should_cancel;
    mret (mk_SummaryDraft t (rs_model sm) (su_source_chunks source) (su_truncated source)).
End Pipeline.

(** ** Rules

    What every step of a build has, the build has. *)

Section Rules.
Context {W : Type} `{LlmStreams W} (timeout : Z) (decimal : Z → text).
Abbreviation build A := (eff W BuildErr A).
Context (should_cancel : eff W exn bool) (P : ∀ A : Type, build A → Prop).
Hypothesis Pret : ∀ A (a : A), P A (mret a).
Hypothesis Praise : ∀ A e, e ≠ Cancelled → P A (eff_raise e).
Hypothesis Pbind : ∀ A B (m : build A) (k : A → build B), P A m → (∀ a, P B (k a)) → P B (a ← m; k a).
Hypothesis Pstop : P unit (stop_point should_cancel).
Hypothesis Pcall : ∀ system user lang sm max_tokens s,
  P text (call timeout system user lang sm max_tokens s should_cancel).

Lemma rule_fold_groups lang sm tick groups :
  P unit (raising tick) → P (list text) (fold_groups timeout lang sm tick should_cancel groups).
Proof.
  intros Ht. induction groups as [|g groups IH]; cbn [fold_groups]; [apply Pret|].
  apply Pbind; [apply Pstop|intros _]. apply Pbind; [done|intros _].
  apply Pbind; [apply Pcall|intros note]. apply Pbind; [done|intros notes]. apply Pret.
Qed.

Lemma rule_fold lang sm tick levels notes :
  P unit (raising tick) → P text (fold timeout lang sm tick should_cancel levels notes).
Proof.
  intros Ht. assert (∀ notes, P text (
    _ ← stop_point should_cancel; _ ← raising tick;
    call timeout REDUCE_SYSTEM (join SEPARATOR notes) lang sm REDUCE_MAX_TOKENS StepReduce should_cancel)) as Hr.
  { intros ns. apply Pbind; [apply Pstop|intros _]. apply Pbind; [done|intros _]. apply Pcall. }
  revert notes. induction levels as [|levels IH]; intros notes; cbn [fold]; [apply Hr|]. case_bool_decide; [apply Hr|].
  apply Pbind; [by apply rule_fold_groups|auto].
Qed.

Lemma rule_translate source lang sm tick :
  P unit (raising tick) → P SummaryDraft (translate timeout source lang sm tick should_cancel).
Proof.
  intros Ht. unfold translate. case_bool_decide; [apply Pret|].
  apply Pbind; [done|intros _]. apply Pbind; [apply Pcall|intros t]. apply Pret.
Qed.

Context (on_progress : Z → eff W exn unit).
Hypothesis Preport : ∀ n, P unit (raising (on_progress n)).

Lemma rule_map_parts lang sm total index done batches :
  P (list text) (map_parts timeout decimal lang sm on_progress should_cancel total index done batches).
Proof.
  revert index done. induction batches as [|b bs IH]; intros index d; cbn [map_parts]; [apply Pret|].
  apply Pbind; [apply Pstop|intros _]. apply Pbind; [apply Pcall|intros note].
  apply Pbind; [apply Preport|intros _]. apply Pbind; [apply IH|intros notes]. apply Pret.
Qed.

Lemma rule_execute chunks kind lang sm :
  P SummaryDraft (execute timeout decimal chunks kind lang sm on_progress should_cancel).
Proof.
  unfold execute. case_bool_decide; [by apply Praise|]. destruct kind.
  - destruct (glance_sample _) as [sample sampled]. apply Pbind; [apply Pcall|intros t].
    apply Pbind; [apply Preport|intros _]. apply Pret.
  - case_bool_decide; (apply Pbind; [apply Pcall || apply rule_map_parts|intros t]);
      (apply Pbind; [apply Preport || apply rule_fold, Preport|intros t']); apply Pret.
Qed.
End Rules.

(** ** Groups *)

Section Groups.
Context (max_chars : Z).

Definition size_of (batch : list text) : Z := sumZ (len <$> batch).

(** A batch is within both limits, or a single chunk. *)
Definition fits_batch (batch : list text) : Prop :=
  batch ≠ [] ∧ (length batch ≤ MAP_BATCH)%nat ∧ (size_of batch ≤ max_chars ∨ length batch = 1%nat).

Lemma size_of_one chunk : size_of [chunk] = len chunk.
Proof. unfold size_of. rewrite fmap_cons, sumZ_cons, fmap_nil, sumZ_nil. lia. Qed.

Lemma size_of_snoc batch chunk : size_of (batch ++ [chunk]) = size_of batch + len chunk.
Proof. unfold size_of. rewrite fmap_app, sumZ_app. fold (size_of [chunk]). by rewrite size_of_one. Qed.

Lemma batched_from_concat current size chunks :
  concat (batched_from max_chars current size chunks) = current ++ chunks.
Proof.
  revert current size; induction chunks as [|chunk chunks IH]; intros current size; cbn [batched_from].
  - case_bool_decide as Hc; [by subst|]. cbn. by rewrite app_nil_r.
  - case_match; [cbn; by rewrite IH|]. by rewrite IH, <- app_assoc.
Qed.

Lemma batched_from_fits current size chunks :
  size = size_of current → (current = [] ∨ fits_batch current) →
  Forall fits_batch (batched_from max_chars current size chunks).
Proof.
  revert current size; induction chunks as [|chunk chunks IH]; intros current size Hs Hc; cbn [batched_from].
  - case_bool_decide; [constructor|]. constructor; [naive_solver|constructor].
  - destruct (decide (current = [])) as [->|Hne].
    + rewrite bool_decide_true by done. cbn [negb andb app]. apply IH; [by rewrite Hs, size_of_one|]. right. split_and!; [done|unfold MAP_BATCH; cbn; lia|by right].
    + destruct Hc as [|Hc]; [done|]. rewrite bool_decide_false by done. cbn [negb andb].
      case_bool_decide as Hl; cbn [orb]; [|destruct (Z.ltb_spec max_chars (size + len chunk)) as [|Hsz]].
      1-2: constructor; [done|]; apply IH; [by rewrite size_of_one|]; right;
        split_and!; [done|unfold MAP_BATCH; cbn; lia|by right].
      apply IH; [by rewrite size_of_snoc, Hs|]. right. split_and!.
      * by destruct current.
      * rewrite length_app. cbn. lia.
      * left. rewrite size_of_snoc. lia.
Qed.

Lemma batched_concat chunks : concat (batched max_chars chunks) = chunks.
Proof. apply batched_from_concat. Qed.

Lemma batched_fits chunks : Forall fits_batch (batched max_chars chunks).
Proof. apply batched_from_fits; [done|by left]. Qed.

Lemma batched_length chunks : (length (batched max_chars chunks) ≤ length chunks)%nat.
Proof.
  rewrite <- (batched_concat chunks) at 2. pose proof (batched_fits chunks) as Hf.
  induction Hf as [|b bs (Hne & _) Hf IH]; cbn; [lia|]. rewrite length_app. destruct b; [done|]. cbn. lia.
Qed.

(** One batch holds everything. *)
Lemma batched_single chunks : length (batched max_chars chunks) = 1%nat → batched max_chars chunks = [chunks].
Proof.
  intros Hl. pose proof (batched_concat chunks) as Hc. destruct (batched max_chars chunks) as [|b [|]]; [done| |done].
  cbn in Hc. rewrite app_nil_r in Hc. by subst.
Qed.
End Groups.

Lemma batched_from_more small large current size chunks :
  small ≤ large → size = size_of current → chunks ≠ [] ∨ current ≠ [] →
  length (batched_from small current size chunks) = 1%nat →
  batched_from large current size chunks = [current ++ chunks].
Proof.
  intros Hle. revert current size; induction chunks as [|chunk chunks IH]; intros current size Hs Hne; cbn [batched_from].
  - case_bool_decide; [naive_solver|]. by rewrite app_nil_r.
  - destruct (decide (current = [])) as [->|Hc].
    + rewrite bool_decide_true by done. cbn [negb andb app].
      intros Hl. apply (IH [chunk]); [rewrite Hs, size_of_one; done|by right|done].
    + rewrite bool_decide_false by done. cbn [negb andb]. case_bool_decide as Hm; cbn [orb].
      * cbn [length]. intros [= Hl]. exfalso. clear -Hl. pose proof (batched_from_concat small [chunk] (len chunk) chunks) as Hc.
        by destruct (batched_from small [chunk] (len chunk) chunks).
      * destruct (Z.ltb_spec small (size + len chunk)) as [|Hsz].
        { cbn [length]. intros [= Hl]. exfalso. pose proof (batched_from_concat small [chunk] (len chunk) chunks) as Hc'.
          by destruct (batched_from small [chunk] (len chunk) chunks). }
        rewrite (proj2 (Z.ltb_ge _ _)) by lia. intros Hl.
        rewrite IH; [by rewrite <- app_assoc|by rewrite size_of_snoc, Hs|right; by destruct current|done].
Qed.

(** What fits one reduction fits one excerpt. *)
Lemma small_enough window : window ≠ [] → length (batched MAX_REDUCE_CHARS window) = 1%nat →
  batched MAX_BATCH_CHARS window = [window].
Proof.
  intros Hne. apply batched_from_more; [unfold MAX_REDUCE_CHARS, MAX_BATCH_CHARS; lia|done|by left].
Qed.

(** ** The sample *)

Lemma StronglySorted_seqZ k n : StronglySorted Z.lt (seqZ k n).
Proof.
  unfold seqZ. generalize 0%nat. induction (Z.to_nat n) as [|m IH]; intros i; cbn; [constructor|].
  constructor; [apply IH|]. apply Forall_fmap, Forall_forall. intros j Hj%elem_of_seq. cbn. lia.
Qed.

Lemma StronglySorted_fmap_mono (f : Z → Z) l :
  StronglySorted Z.lt l → (∀ x y, x ∈ l → y ∈ l → x < y → f x < f y) → StronglySorted Z.lt (f <$> l).
Proof.
  induction 1 as [|x l Hl IH Hx]; intros Hf; cbn; [constructor|]. constructor.
  - apply IH. intros y z Hy Hz. apply Hf; by right.
  - apply Forall_fmap. rewrite Forall_forall in *. intros y Hy. cbn. apply Hf; [by left|by right|by apply Hx].
Qed.

Lemma StronglySorted_lt_NoDup l : StronglySorted Z.lt l → NoDup l.
Proof.
  induction 1 as [|x l Hl IH Hx]; constructor; [|done]. intros Hin. rewrite Forall_forall in Hx. specialize (Hx x Hin). lia.
Qed.

Lemma sort_by_id l : StronglySorted Z.lt l → sort_by Z.leb l = l.
Proof.
  induction 1 as [|x l Hl IH Hx]; [done|]. unfold sort_by in *. cbn. rewrite IH.
  destruct Hx as [|y l Hxy _]; [done|]. cbn. by rewrite (proj2 (Z.leb_le x y)) by lia.
Qed.

Definition position (n i : Z) : Z := (i * (n - 1) + 3) / 7.

Lemma sample_positions_eq n : OVERVIEW_CHUNKS < n → sample_positions n = position n <$> seqZ 0 8.
Proof.
  intros Hn. unfold sample_positions, OVERVIEW_CHUNKS in *. change (Z.max (8 - 1) 1) with 7. change (7 / 2) with 3.
  fold (position n).
  assert (StronglySorted Z.lt (position n <$> seqZ 0 8)) as Hs.
  { apply StronglySorted_fmap_mono; [apply StronglySorted_seqZ|]. intros x y _ _ Hxy. unfold position.
    apply Z.lt_le_trans with ((x * (n - 1) + 3) / 7 + 1); [lia|]. rewrite <- Z.div_add by done. apply Z.div_le_mono; nia. }
  rewrite dict_fromkeys_id by by apply StronglySorted_lt_NoDup. by apply sort_by_id.
Qed.


(** What the sample takes of a document too long to be read: eight chunks, the first and the
    last among them, in order and as evenly spread as whole positions allow. *)
Lemma sample_spreads n : OVERVIEW_CHUNKS < n →
  length (sample_positions n) = 8%nat ∧ sample_positions n !! 0%nat = Some 0 ∧ last (sample_positions n) = Some (n - 1) ∧
  ∀ i p q, sample_positions n !! i = Some p → sample_positions n !! S i = Some q →
    (n - 1) / 7 ≤ q - p ≤ (n - 1) / 7 + 1.
Proof.
  intros Hn. rewrite sample_positions_eq by done. split_and!.
  - by rewrite length_fmap, length_seqZ.
  - done.
  - change (last (position n <$> seqZ 0 8)) with (Some (position n 7)). f_equal. unfold position.
    replace (7 * (n - 1) + 3) with (3 + (n - 1) * 7) by lia. rewrite Z.div_add by done. change (3 / 7) with 0. lia.
  - intros i p q Hp Hq. rewrite list_lookup_fmap in Hp, Hq.
    destruct (seqZ 0 8 !! i) as [x|] eqn:Hx; [|done]. destruct (seqZ 0 8 !! S i) as [y|] eqn:Hy; [|done].
    apply lookup_seqZ in Hx as [-> _], Hy as [-> _]. cbn in Hp, Hq. injection Hp as <-. injection Hq as <-.
    unfold position. set (m := n - 1). replace ((0 + Z.of_nat (S i)) * m) with (Z.of_nat i * m + m) by lia.
    replace ((0 + Z.of_nat i) * m) with (Z.of_nat i * m) by lia. generalize (Z.of_nat i * m) as a. intros a. dlia.
Qed.

(** ** What a build does, action by action *)

Inductive Act : Type :=
  | Asked (stop : bool)
  | Reported (done_chunks : Z)
  | Opened (messages : list LlmMessage)
  | Closed.

Section Traced.
Context {W : Type} `{LlmStreams W}.
Abbreviation T := (W * list Act)%type.
Abbreviation build A := (eff T BuildErr A).

(** The same world with a record of what the pipeline does to it. *)
Definition noting {E A} (act : result E A → Act) (m : eff W E A) : eff T E A :=
  λ w, let '(r, w') := m w.1 in (r, (w', w.2 ++ [act r])).

#[export] Instance traced : LlmStreams T := {
  stream p ms params key w :=
    let '(s, w') := stream p ms params key w.1 in (s, (w', w.2 ++ [Opened ms]));
  aclose w := (aclose w.1, w.2 ++ [Closed])
}.

Definition asking (should_cancel : eff W exn bool) : eff T exn bool :=
  noting (λ r, Asked (match r with Ok b => b | Err _ => false end)) should_cancel.
Definition reporting (on_progress : Z → eff W exn unit) (n : Z) : eff T exn unit :=
  noting (λ _, Reported n) (on_progress n).

(** Whatever the world, [m] answers and acts as [Q] says. *)
Definition does {A} (m : build A) (Q : result BuildErr A → list Act → Prop) : Prop :=
  ∀ w r w', m w = (r, w') → ∃ d, w'.2 = w.2 ++ d ∧ Q r d.

Lemma does_ret {A} (a : A) (Q : result BuildErr A → list Act → Prop) : Q (Ok a) [] → does (mret a) Q.
Proof. intros HQ w r w' [= <- <-]. exists []. by rewrite app_nil_r. Qed.

Lemma does_raise {A} e (Q : result BuildErr A → list Act → Prop) : Q (Err e) [] → does (eff_raise e) Q.
Proof. intros HQ w r w' [= <- <-]. exists []. by rewrite app_nil_r. Qed.

Lemma does_lift {A} (x : result BuildErr A) (Q : result BuildErr A → list Act → Prop) : Q x [] → does (eff_lift x) Q.
Proof. intros HQ w r w' [= <- <-]. exists []. by rewrite app_nil_r. Qed.

Lemma does_bind {A B} (m : build A) (k : A → build B) P (R : A → result BuildErr B → list Act → Prop) Q :
  does m P → (∀ a, does (k a) (R a)) →
  (∀ e d, P (Err e) d → Q (Err e) d) → (∀ a d r d', P (Ok a) d → R a r d' → Q r (d ++ d')) →
  does (m ≫= k) Q.
Proof.
  intros Hm Hk He Ho w r w' [(e & Hr & ->)|(a & w1 & Ha & Hr)]%eff_bind_run.
  - destruct (Hm _ _ _ Hr) as (d & Hd & HP). exists d. auto.
  - destruct (Hm _ _ _ Ha) as (d & Hd & HP). destruct (Hk _ _ _ _ Hr) as (d' & Hd' & HR).
    exists (d ++ d'). rewrite Hd', Hd, app_assoc. eauto.
Qed.

Lemma does_weaken {A} (m : build A) (P Q : result BuildErr A → list Act → Prop) :
  does m P → (∀ r d, P r d → Q r d) → does m Q.
Proof. intros Hm HPQ w r w' Hr. destruct (Hm _ _ _ Hr) as (d & ? & ?). eauto. Qed.

Lemma does_noting {A} (act : result exn A → Act) (m : eff W exn A) (Q : result BuildErr A → list Act → Prop) :
  (∀ r, Q (map_err Raised r) [act r]) → does (raising (noting act m)) Q.
Proof.
  intros HQ [w l] r w'. unfold raising, noting. cbn [fst snd]. destruct (m w) as [r0 w0].
  intros [= <- <-]. exists [act r0]. by split.
Qed.

Lemma does_open system user lang sm max_tokens (Q : result BuildErr (Z * Script) → list Act → Prop) :
  (∀ s, Q (Ok s) [Opened (messages_of system user lang)]) → does (open system user lang sm max_tokens) Q.
Proof.
  intros HQ [w l] r w'. unfold open. cbn [stream traced fst snd]. destruct (stream _ _ _ _ w) as [s w0].
  intros [= <- <-]. eexists. by split.
Qed.

Lemma does_closing {A} (m : build A) P (Q : result BuildErr A → list Act → Prop) :
  does m P → (∀ r d, P r d → Q r (d ++ [Closed])) → does (closing m) Q.
Proof.
  intros Hm HQ w r w'. unfold closing. destruct (m w) as [r0 w0] eqn:Hr. intros [= <- <-].
  destruct (Hm _ _ _ Hr) as (d & Hd & HP). exists (d ++ [Closed]). cbn. rewrite Hd, app_assoc. auto.
Qed.

(** *** Stopping *)

(** The stream open before, and after these actions: none is opened over another. *)
Fixpoint streams (is_open : bool) (d : list Act) : option bool :=
  match d with
  | [] => Some is_open
  | Opened _ :: d => if is_open then None else streams true d
  | Closed :: d => if is_open then streams false d else None
  | _ :: d => streams is_open d
  end.

Lemma streams_app b d d' : streams b (d ++ d') = b' ← streams b d; streams b' d'.
Proof. revert b; induction d as [|[] d IH]; intros []; cbn; try done; apply IH. Qed.

(** The build is over once it was told to stop: only the call under way is still closed. *)
Definition heeds {A} (is_open : bool) (r : result BuildErr A) (d : list Act) : Prop :=
  (Asked true ∉ d ∧ r ≠ Err Cancelled) ∨
  (r = Err Cancelled ∧ ∃ p q, d = p ++ Asked true :: q ∧ Asked true ∉ p ∧
     (q = [] ∨ is_open = false ∧ q = [Closed])).

Definition tidy {A} (is_open : bool) (r : result BuildErr A) (d : list Act) : Prop :=
  heeds is_open r d ∧ streams is_open d = Some is_open.

Lemma heeds_err {A B} b e d : heeds (A := A) b (Err e) d → heeds (A := B) b (Err e) d.
Proof. intros [[? He]|[[= ->] ?]]; [left; split; congruence|by right]. Qed.

Lemma heeds_app {A B} b b' (a : A) d (r : result BuildErr B) d' :
  heeds b (Ok a) d → heeds b' r d' → heeds b' r (d ++ d').
Proof.
  intros [[Hd _]|[? _]] [[Hd' Hr]|(-> & p & q & -> & Hp & Hq)]; try done.
  - left. split; [|done]. by intros [?|?]%elem_of_app.
  - right. split; [done|]. exists (d ++ p), q. split_and!; [by rewrite app_assoc| |done]. by intros [?|?]%elem_of_app.
Qed.

Lemma tidy_bind {A B} b (m : build A) (k : A → build B) :
  does m (tidy b) → (∀ a, does (k a) (tidy b)) → does (m ≫= k) (tidy b).
Proof.
  intros Hm Hk. eapply does_bind; [exact Hm|exact Hk| |].
  - intros e d [Hh ?]. split; [by eapply heeds_err|done].
  - intros a d r d' [Hh Hs] [Hh' Hs']. split; [by eapply heeds_app|by rewrite streams_app, Hs].
Qed.

Lemma tidy_ret {A} b (a : A) : does (mret a) (tidy b).
Proof. apply does_ret. split; [left; split; [apply not_elem_of_nil|done]|done]. Qed.

Lemma tidy_lift {A} b (x : result BuildErr A) : x ≠ Err Cancelled → does (eff_lift x) (tidy b).
Proof. intros Hx. apply does_lift. split; [left; split; [apply not_elem_of_nil|done]|done]. Qed.

Lemma tidy_raise {A} b e : e ≠ Cancelled → does (A := A) (eff_raise e) (tidy b).
Proof. intros He. apply does_raise. split; [left; split; [apply not_elem_of_nil|congruence]|done]. Qed.

Context (should_cancel : eff W exn bool) (on_progress : Z → eff W exn unit).
Abbreviation ask := (asking should_cancel).

Lemma does_ask :
  does (raising ask) (λ r d, (∃ e, r = Err (Raised e) ∧ d = [Asked false]) ∨ ∃ b, r = Ok b ∧ d = [Asked b]).
Proof. apply does_noting. intros [b|e]; [right; by exists b|left; by exists e]. Qed.

Lemma tidy_stop_point b : does (stop_point ask) (tidy b).
Proof.
  eapply does_bind with (R := λ (stop : bool) r d, d = [] ∧ r = if stop then Err Cancelled else Ok tt); [apply does_ask| | |].
  - intros []; [by apply does_raise|by apply does_ret].
  - intros e d [(x & [= ->] & ->)|(x & ? & _)]; [|done]. split; [left; split; [|done]|done].
    by intros ?%list_elem_of_singleton.
  - intros a d r d' [(x & ? & _)|(x & [= ->] & ->)] [-> ->]; [done|]. rewrite app_nil_r. split; [|done]. destruct x.
    + right. split; [done|]. exists [], []. split_and!; [done|apply not_elem_of_nil|by left].
    + left. split; [|done]. by intros ?%list_elem_of_singleton.
Qed.

Lemma tidy_poll b finish now next_poll : does (poll ask finish now next_poll) (tidy b).
Proof.
  unfold poll. destruct (_ && _); [|apply tidy_ret]. apply tidy_bind; [apply tidy_stop_point|]. intros _. apply tidy_ret.
Qed.

Lemma tidy_in_time b deadline later : does (in_time deadline later) (tidy b).
Proof. unfold in_time. apply tidy_lift. by destruct (deadline - later <=? 0). Qed.

Lemma tidy_pulls b deadline next_poll parts finish s :
  does (pulls ask deadline next_poll parts finish s) (tidy b).
Proof.
  revert next_poll parts finish. induction s; intros next_poll parts finish; cbn [pulls];
    (apply tidy_bind; [apply tidy_poll|]; intros ?; apply tidy_bind; [apply tidy_in_time|]; intros _).
  - auto.
  - apply tidy_ret.
  - by apply tidy_raise.
  - by apply tidy_raise.
Qed.

Lemma tidy_reporting b n : does (raising (reporting on_progress n)) (tidy b).
Proof.
  apply does_noting. intros r. split; [|done]. left. split; [by intros ?%list_elem_of_singleton|by destruct r].
Qed.

Context (timeout : Z) (decimal : Z → text).

Lemma heeds_none {A} b (r : result BuildErr A) d : Asked true ∉ d → r ≠ Err Cancelled → heeds b r d.
Proof. by left. Qed.

Lemma heeds_cons {A} b (r : result BuildErr A) a d : a ≠ Asked true → heeds b r d → heeds b r (a :: d).
Proof.
  intros Ha [[Hd Hr]|(-> & p & q & -> & Hp & Hq)].
  - left. split; [|done]. by intros [?|?]%elem_of_cons.
  - right. split; [done|]. exists (a :: p), q. split_and!; [done| |done]. by intros [?|?]%elem_of_cons.
Qed.

(** The end of a call, whatever it met. *)
Lemma tidy_closing {A} (m : build A) :
  does m (tidy true) → does (closing m) (λ r d, heeds false r d ∧ streams true d = Some false).
Proof.
  intros Hm. eapply does_closing; [exact Hm|]. intros r d [Hh Hs]. split; [|by rewrite streams_app, Hs].
  destruct Hh as [[Hd Hr]|(-> & p & q & -> & Hp & [->|[? _]])]; [| |done].
  - left. split; [|done]. by intros [?|?%list_elem_of_singleton]%elem_of_app.
  - right. split; [done|]. exists p, [Closed]. split_and!; [by rewrite <- app_assoc|done|by right].
Qed.

Lemma tidy_call system user lang sm max_tokens s :
  does (call timeout system user lang sm max_tokens s ask) (tidy false).
Proof.
  unfold call. eapply does_bind with
    (P := λ r d, (∃ x, r = Ok x) ∧ d = [Opened (messages_of system user lang)])
    (R := λ _ r d, heeds (A := text) false r d ∧ streams true d = Some false).
  - apply does_open. eauto.
  - intros [now script]. eapply does_bind with (R := λ _, tidy false); [apply tidy_closing, tidy_pulls| | |].
    + intros [parts finish]. case_bool_decide; [by apply tidy_raise|apply tidy_ret].
    + intros e d [Hh ?]. split; [by eapply heeds_err|done].
    + intros a d r d' [Hh Hs] [Hh' Hs']. split; [by eapply heeds_app|by rewrite streams_app, Hs].
  - by intros e d [[x ?] _].
  - intros a d r d' [_ ->] [Hh Hs]. split; [by apply heeds_cons|done].
Qed.

Lemma tidy_execute chunks kind lang sm :
  does (execute timeout decimal chunks kind lang sm (reporting on_progress) ask) (tidy false).
Proof.
  apply (rule_execute _ _ _ (λ A m, does m (tidy false))).
  - intros. apply tidy_ret.
  - intros. by apply tidy_raise.
  - intros. by apply tidy_bind.
  - apply tidy_stop_point.
  - intros. apply tidy_call.
  - apply tidy_reporting.
Qed.

Lemma tidy_translate source lang sm n :
  does (translate timeout source lang sm (reporting on_progress n) ask) (tidy false).
Proof.
  apply (rule_translate _ _ (λ A m, does m (tidy false))).
  - intros. apply tidy_ret.
  - intros. by apply tidy_bind.
  - intros. apply tidy_call.
  - apply tidy_reporting.
Qed.
End Traced.

(** *** What is read *)

Section Reading.
Context {W : Type} `{LlmStreams W}.
Abbreviation T := (W * list Act)%type.
Abbreviation build A := (eff T BuildErr A).
Context (should_cancel : eff W exn bool) (on_progress : Z → eff W exn unit) (timeout : Z) (decimal : Z → text).
Abbreviation ask := (asking should_cancel).

Definition user_prompt (a : Act) : option text :=
  match a with Opened [_; user] => Some (lm_content user) | _ => None end.
Definition progress_of (a : Act) : option Z := match a with Reported n => Some n | _ => None end.

(** The user messages of the calls, and the progress reported, in order. *)
Definition prompts (d : list Act) : list text := omap user_prompt d.
Definition reports (d : list Act) : list Z := omap progress_of d.

Lemma prompts_app d d' : prompts (d ++ d') = prompts d ++ prompts d'.
Proof. apply omap_app. Qed.
Lemma reports_app d d' : reports (d ++ d') = reports d ++ reports d'.
Proof. apply omap_app. Qed.

(** Exactly these prompts and reports where it returns, a beginning of them where it raises. *)
Definition covers {A} (us : list text) (ns : list Z) (r : result BuildErr A) (d : list Act) : Prop :=
  match r with
  | Ok _ => prompts d = us ∧ reports d = ns
  | Err _ => prompts d `prefix_of` us ∧ reports d `prefix_of` ns
  end.

Lemma covers_bind {A B} (m : build A) (k : A → build B) us ns us' ns' :
  does m (covers us ns) → (∀ a, does (k a) (covers us' ns')) → does (m ≫= k) (covers (us ++ us') (ns ++ ns')).
Proof.
  intros Hm Hk. eapply does_bind; [exact Hm|exact Hk| |].
  - intros e d [Hu Hn]. split; by apply prefix_app_r.
  - intros a d r d' [Hu Hn]. destruct r; intros [Hu' Hn']; unfold covers; rewrite prompts_app, reports_app, Hu, Hn;
      [by rewrite Hu', Hn'|]. split; by apply prefix_app.
Qed.

Lemma covers_silent {A} (m : build A) P :
  does m P → (∀ r d, P r d → prompts d = [] ∧ reports d = []) → does m (covers [] []).
Proof. intros Hm HP. eapply does_weaken; [done|]. intros r d [Hu Hn]%HP. destruct r; unfold covers; by rewrite Hu, Hn. Qed.

Lemma covers_ret {A} (a : A) : does (mret a : build A) (covers [] []).
Proof. by apply does_ret. Qed.

Lemma covers_raise {A} e us ns : does (eff_raise e : build A) (covers us ns).
Proof. apply does_raise. split; apply prefix_nil. Qed.

Lemma covers_stop_point : does (stop_point ask) (covers [] []).
Proof.
  eapply (covers_bind _ _ [] [] [] []).
  - eapply covers_silent; [apply does_ask|]. by intros r d [(e & _ & ->)|(b & _ & ->)].
  - intros []; [apply covers_raise|apply covers_ret].
Qed.

Lemma covers_poll finish now next_poll : does (poll ask finish now next_poll : build Z) (covers [] []).
Proof.
  unfold poll. destruct (_ && _); [|apply covers_ret].
  apply (covers_bind _ _ [] [] [] []); [apply covers_stop_point|intros _; apply covers_ret].
Qed.

Lemma covers_in_time deadline later : does (in_time deadline later : build unit) (covers [] []).
Proof. apply does_lift. by destruct (raise_if _ _). Qed.

Lemma covers_pulls deadline next_poll parts finish s : does (pulls ask deadline next_poll parts finish s) (covers [] []).
Proof.
  revert next_poll parts finish. induction s; intros next_poll parts finish; cbn [pulls];
    (apply (covers_bind _ _ [] [] [] []); [apply covers_poll|intros ?]);
    (apply (covers_bind _ _ [] [] [] []); [apply covers_in_time|intros _]);
    [auto|apply covers_ret|apply covers_raise|apply covers_raise].
Qed.

Lemma covers_call system user lang sm max_tokens s :
  does (call timeout system user lang sm max_tokens s ask) (covers [user] []).
Proof.
  unfold call. apply (covers_bind _ _ [user] [] [] []); [by apply does_open|intros [now script]].
  apply (covers_bind _ _ [] [] [] []).
  - eapply does_closing; [apply covers_pulls|]. intros [x|e] d; unfold covers; rewrite prompts_app, reports_app;
      [by intros [-> ->]|by intros [->%prefix_nil_inv ->%prefix_nil_inv]].
  - intros [parts finish]. case_bool_decide; [apply covers_raise|apply covers_ret].
Qed.

Lemma covers_report n : does (raising (reporting on_progress n)) (covers [] [n]).
Proof. apply does_noting. by intros []. Qed.

Fixpoint running (done : Z) (batches : list (list text)) : list Z :=
  match batches with
  | [] => []
  | b :: bs => done + Z.of_nat (length b) :: running (done + Z.of_nat (length b)) bs
  end.

Definition part_prompts (total index : Z) (batches : list (list text)) : list text :=
  imap (λ i b, part_prompt decimal (index + Z.of_nat i) total b) batches.

Lemma covers_map_parts lang sm total index done batches :
  does (map_parts timeout decimal lang sm (reporting on_progress) ask total index done batches)
    (covers (part_prompts total index batches) (running done batches)).
Proof.
  revert index done. induction batches as [|b bs IH]; intros index done; cbn [map_parts]; [apply covers_ret|].
  assert (part_prompts total index (b :: bs) =
          [] ++ [part_prompt decimal index total b] ++ [] ++ part_prompts total (index + 1) bs ++ []) as ->.
  { unfold part_prompts. rewrite imap_cons, app_nil_r. cbn [app]. rewrite Z.add_0_r. f_equal.
    apply imap_ext. intros i c _. cbn. f_equal. lia. }
  rewrite <- (app_nil_r (running _ _)).
  change (running done (b :: bs) ++ []) with ([] ++ [] ++ [done + Z.of_nat (length b)] ++ running (done + Z.of_nat (length b)) bs ++ []).
  eapply covers_bind; [apply covers_stop_point|intros _]. eapply covers_bind; [apply covers_call|intros note].
  eapply covers_bind; [apply covers_report|intros _]. eapply covers_bind; [apply IH|intros notes]. apply covers_ret.
Qed.

Lemma map_parts_length lang sm total index done batches w notes w' :
  map_parts timeout decimal lang sm (reporting on_progress) ask total index done batches w = (Ok notes, w') →
  length notes = length batches.
Proof.
  revert index done w notes. induction batches as [|b bs IH]; intros index done w notes; cbn [map_parts].
  { by intros [= <- _]. }
  intros (? & w1 & _ & (note & w2 & _ & (? & w3 & _ & (ns & w4 & Hns & [= <- <-])%eff_bind_Ok)%eff_bind_Ok)%eff_bind_Ok)%eff_bind_Ok.
  cbn [length]. f_equal. by eapply IH.
Qed.

Lemma fold_groups_length lang sm tick groups w notes w' :
  fold_groups timeout lang sm tick ask groups w = (Ok notes, w') → length notes = length groups.
Proof.
  revert w notes. induction groups as [|g gs IH]; intros w notes; cbn [fold_groups]; [by intros [= <- _]|].
  intros (? & w1 & _ & (? & w2 & _ & (note & w3 & _ & (ns & w4 & Hns & [= <- <-])%eff_bind_Ok)%eff_bind_Ok)%eff_bind_Ok)%eff_bind_Ok.
  cbn [length]. f_equal. by eapply IH.
Qed.

(** One call per note at most at each level, and the last; every report repeats the count. *)
Definition folds (n : nat) (size : Z) {A} (r : result BuildErr A) (d : list Act) : Prop :=
  (length (prompts d) ≤ n)%nat ∧ Forall (eq size) (reports d) ∧
  (is_ok r = true → prompts d ≠ [] ∧ reports d ≠ []).

Lemma covers_folds {A} us ns n size (r : result BuildErr A) d :
  covers us ns r d → (length us ≤ n)%nat → us ≠ [] → ns ≠ [] → Forall (eq size) ns → folds n size r d.
Proof.
  intros Hc Hl Hu Hn Hf. unfold folds. destruct r; destruct Hc as [Hpu Hpn].
  { rewrite Hpu, Hpn. by split_and!. }
  split_and!; [apply prefix_length in Hpu; lia| |done]. destruct Hpn as [k ->]. by apply Forall_app in Hf as [? _].
Qed.

Lemma covers_fold_groups lang sm size groups :
  does (fold_groups timeout lang sm (reporting on_progress size) ask groups)
    (covers (join SEPARATOR <$> groups) (replicate (length groups) size)).
Proof.
  induction groups as [|g gs IH]; cbn [fold_groups fmap list_fmap length replicate]; [apply covers_ret|].
  change (join SEPARATOR g :: list_fmap _ _ (join SEPARATOR) gs) with (join SEPARATOR g :: (join SEPARATOR <$> gs)).
  rewrite <- (app_nil_r (join SEPARATOR <$> gs)), <- (app_nil_r (replicate (length gs) size)).
  apply (covers_bind _ _ [] [] (_ :: _ ++ _) (_ :: _ ++ _)); [apply covers_stop_point|intros _].
  apply (covers_bind _ _ [] [size] (_ :: _ ++ _) (_ ++ _)); [apply covers_report|intros _].
  apply (covers_bind _ _ [join SEPARATOR g] [] (_ ++ _) (_ ++ _)); [apply covers_call|intros note].
  eapply covers_bind; [apply IH|intros notes]. apply covers_ret.
Qed.

Lemma folds_reduce lang sm size notes :
  does (_ ← stop_point ask; _ ← raising (reporting on_progress size);
        call timeout REDUCE_SYSTEM (join SEPARATOR notes) lang sm REDUCE_MAX_TOKENS StepReduce ask) (folds 1 size).
Proof.
  eapply does_weaken with (P := covers [join SEPARATOR notes] [size]).
  - apply (covers_bind _ _ [] [] [_] [_]); [apply covers_stop_point|intros _].
    apply (covers_bind _ _ [] [_] [_] []); [apply covers_report|intros _]. apply covers_call.
  - intros r d Hc. eapply covers_folds; [exact Hc|cbn; lia|done|done|by repeat constructor].
Qed.

Lemma folds_fold lang sm size levels notes :
  does (fold timeout lang sm (reporting on_progress size) ask levels notes) (folds (levels * length notes + 1) size).
Proof.
  revert notes. induction levels as [|levels IH]; intros notes; cbn [fold]; [apply folds_reduce|].
  case_bool_decide as Hone.
  { eapply does_weaken; [apply folds_reduce|]. intros r d (H1 & H2 & H3). split_and!; [lia|done|done]. }
  set (groups := batched MAX_REDUCE_CHARS notes) in *.
  assert (length groups ≤ length notes)%nat as Hl by apply batched_length.
  intros w r w' [(e & Hr & ->)|(folded & w1 & Hg & Hr)]%eff_bind_run.
  - destruct (covers_fold_groups _ _ _ _ _ _ _ Hr) as (d & Hd & Hp & Hq). exists d. split; [done|].
    apply prefix_length in Hp. rewrite length_fmap in Hp. split_and!; [lia| |done].
    destruct Hq as [k Hq]. apply (Forall_app _ _ k). rewrite <- Hq. apply Forall_replicate_eq.
  - pose proof (fold_groups_length _ _ _ _ _ _ _ Hg) as Hfl.
    destruct (covers_fold_groups _ _ _ _ _ _ _ Hg) as (d & Hd & Hp & Hq).
    destruct (IH folded _ _ _ Hr) as (d' & Hd' & H1 & H2 & H3). exists (d ++ d').
    rewrite Hd', Hd, app_assoc. split; [done|]. unfold folds. rewrite prompts_app, reports_app, Hp, Hq.
    split_and!; [rewrite length_app, length_fmap; nia|apply Forall_app; split; [apply Forall_replicate_eq|done]|].
    intros Hok. destruct (H3 Hok). split; intros [? ?]%app_nil; congruence.
Qed.
End Reading.

(** *** Progress *)

Definition ordered (size : Z) (l : list Z) : Prop := StronglySorted Z.le l ∧ Forall (λ n, 0 ≤ n ≤ size) l.

Lemma ordered_nil size : ordered size [].
Proof. by split; constructor. Qed.

Lemma ordered_prefix size l k : l `prefix_of` k → ordered size k → ordered size l.
Proof. intros [m ->] [Hs%StronglySorted_app_1_l Hf]. apply Forall_app in Hf as [Hf _]. by split. Qed.

Lemma ordered_running size done batches :
  0 ≤ done → done + Z.of_nat (length (concat batches)) ≤ size → ordered size (running done batches).
Proof.
  revert done; induction batches as [|b bs IH]; intros done Hd Hs; [apply ordered_nil|].
  cbn [concat running] in *. rewrite length_app in Hs.
  assert (∀ m, done + Z.of_nat (length b) ≤ m → Forall (Z.le (done + Z.of_nat (length b))) (running m bs)) as Hle.
  { clear. induction bs as [|c cs IH]; intros m Hm; cbn; [constructor|]. constructor; [lia|]. apply IH. lia. }
  destruct (IH (done + Z.of_nat (length b))) as [Hso Hf]; [lia..|]. split; constructor; [done|by apply Hle|lia|done].
Qed.

Lemma ordered_running_app size batches ns :
  Z.of_nat (length (concat batches)) = size → Forall (eq size) ns → ordered size (running 0 batches ++ ns).
Proof.
  intros Hs Hn. destruct (ordered_running size 0 batches) as [Ho Hf]; [lia..|]. split.
  - apply StronglySorted_app. split_and!; [|done|].
    + intros x y Hx Hy. rewrite Forall_forall in Hf, Hn. rewrite <- (Hn y Hy). by apply Hf.
    + clear -Hn. induction Hn as [|x l <- Hl IH]; constructor; [done|]. eapply Forall_impl; [exact Hl|]. intros; lia.
  - apply Forall_app. split; [done|]. eapply Forall_impl; [exact Hn|]. intros; lia.
Qed.

(** ** The promises of the pipeline *)

Section Promises.
Context {W : Type} `{LlmStreams W}.
Context (timeout : Z) (decimal : Z → text) (should_cancel : eff W exn bool) (on_progress : Z → eff W exn unit).

(** C39: once it is told to stop, a build is over: whatever it builds or translates, it opens no
    further stream, writes no further progress and returns no draft; it only closes the call
    under way.  It ends as stopped only then, and never leaves a stream open. *)
Theorem stop_is_heeded chunks kind source lang sm w r w' d :
  execute timeout decimal chunks kind lang sm (reporting on_progress) (asking should_cancel) (w, []) = (r, (w', d)) ∨
  translate timeout source lang sm (reporting on_progress (su_source_chunks source)) (asking should_cancel) (w, [])
    = (r, (w', d)) →
  (Asked true ∈ d ↔ r = Err Cancelled) ∧
  (∀ p q, d = p ++ Asked true :: q → q = [] ∨ q = [Closed]) ∧
  streams false d = Some false.
Proof.
  intros Hrun. assert (tidy false r d) as [Hh Hs].
  { destruct Hrun as [Hr|Hr];
      [destruct (tidy_execute should_cancel on_progress timeout decimal chunks kind lang sm _ _ _ Hr) as (d' & Hd & ?)
      |destruct (tidy_translate should_cancel on_progress timeout source lang sm _ _ _ _ Hr) as (d' & Hd & ?)];
      cbn in Hd; by subst. }
  destruct Hh as [[Hn Hc]|(-> & p & q & -> & Hp & Hq)].
  - split_and!; [naive_solver| |done]. intros p q Hd. destruct Hn. rewrite Hd. set_solver.
  - split_and!; [split; [done|set_solver]| |done]. intros p' q' Heq.
    assert (p' = p ∧ q' = q) as [-> ->]; [|naive_solver].
    assert (Asked true ∉ q) as Hnq by (destruct Hq as [->|[_ ->]]; set_solver).
    clear -Heq Hp Hnq. revert p Heq Hp. induction p' as [|a p' IH]; intros [|b p] Heq Hp; cbn in Heq.
    + by injection Heq.
    + injection Heq as Hb _. rewrite Hb in Hp. set_solver.
    + injection Heq as _ Heq. rewrite Heq in Hnq. set_solver.
    + injection Heq as Hb Heq. rewrite Hb. destruct (IH p Heq) as [-> ->]; [set_solver|done].
Qed.

Lemma call_text {W'} `{LlmStreams W'} system user lang sm max_tokens s cancel (w : W') t w' :
  call timeout system user lang sm max_tokens s cancel w = (Ok t, w') → t ≠ [] ∧ strip t = t.
Proof.
  unfold call. intros ([now script] & w1 & _ & ([parts finish] & w2 & _ & Hr)%eff_bind_Ok)%eff_bind_Ok.
  case_bool_decide; [done|]. injection Hr as <- _. split; [done|apply strip_idemp].
Qed.

Lemma fold_text {W'} `{LlmStreams W'} lang sm tick cancel levels notes (w : W') t w' :
  fold timeout lang sm tick cancel levels notes w = (Ok t, w') → t ≠ [].
Proof.
  assert (∀ notes w, (_ ← stop_point cancel; _ ← raising tick;
    call timeout REDUCE_SYSTEM (join SEPARATOR notes) lang sm REDUCE_MAX_TOKENS StepReduce cancel) w = (Ok t, w') → t ≠ []) as Hl.
  { intros ns w0 (? & ? & _ & (? & ? & _ & Hr)%eff_bind_Ok)%eff_bind_Ok. by apply call_text in Hr as [? _]. }
  revert notes w. induction levels as [|levels IH]; intros notes w; cbn [fold]; [apply Hl|].
  case_bool_decide; [apply Hl|]. intros (? & ? & _ & Hr)%eff_bind_Ok. by eapply IH.
Qed.

Lemma eff_assoc {S E A B C} (m : eff S E A) (k : A → eff S E B) (h : B → eff S E C) w :
  ((m ≫= k) ≫= h) w = (m ≫= λ a, k a ≫= h) w.
Proof. unfold mbind, eff_bind. by destruct (m w) as [[a|e] w1]. Qed.

Lemma draft_covers {A} (m : eff (W * list Act) BuildErr text) (f : text → A) us ns w r d w' :
  does m (covers us ns) → (t ← m; mret (f t)) (w, []) = (r, (w', d)) → covers us ns r d.
Proof.
  intros Hm Hr.
  destruct (covers_bind _ _ us ns [] [] Hm (λ t, covers_ret (f t)) _ _ _ Hr) as (d' & Hd & Hc).
  rewrite !app_nil_r in Hc. cbn in Hd. by subst.
Qed.

(** A single call whose text becomes the draft. *)
Definition one_call system user lang sm max_tokens s size : eff (W * list Act) BuildErr text :=
  t ← call timeout system user lang sm max_tokens s (asking should_cancel);
  _ ← raising (reporting on_progress size);
  mret t.

Lemma covers_one_call system user lang sm max_tokens s size :
  does (one_call system user lang sm max_tokens s size) (covers [user] [size]).
Proof.
  apply (covers_bind _ _ [_] [] [] [_]); [apply covers_call|intros t].
  apply (covers_bind _ _ [] [_] [] []); [apply covers_report|intros _]. apply covers_ret.
Qed.

Lemma one_call_text system user lang sm max_tokens s size w t w' :
  one_call system user lang sm max_tokens s size w = (Ok t, w') → t ≠ [].
Proof.
  intros (t' & w1 & Ht & (? & w2 & _ & [= <- _])%eff_bind_Ok)%eff_bind_Ok. by apply call_text in Ht as [? _].
Qed.

(** The map and the folds of a long document. *)
Definition long_build lang sm batches size : eff (W * list Act) BuildErr text :=
  notes ← map_parts timeout decimal lang sm (reporting on_progress) (asking should_cancel)
            (Z.of_nat (length batches)) 1 0 batches;
  fold timeout lang sm (reporting on_progress size) (asking should_cancel) (pred MAX_FOLD_DEPTH) notes.

Definition long_trace (batches : list (list text)) size {A} (r : result BuildErr A) (d : list Act) : Prop :=
  (length (prompts d) ≤ 3 * length batches + 1)%nat ∧ ordered size (reports d) ∧
  (is_ok r = true → last (reports d) = Some size ∧
     ∃ fs, fs ≠ [] ∧ prompts d = part_prompts decimal (Z.of_nat (length batches)) 1 batches ++ fs).

Lemma long_build_does lang sm batches size :
  Z.of_nat (length (concat batches)) = size → does (long_build lang sm batches size) (long_trace batches size).
Proof.
  intros Hsize w r w' [(e & Hr & ->)|(notes & w1 & Hm & Hr)]%eff_bind_run.
  - destruct (covers_map_parts _ _ _ _ _ _ _ _ _ _ _ _ _ Hr) as (d & Hd & Hp & Hq). exists d. split; [done|].
    apply prefix_length in Hp. unfold part_prompts in Hp. rewrite length_imap in Hp. split_and!; [lia| |done].
    eapply ordered_prefix; [exact Hq|]. apply ordered_running; lia.
  - pose proof (map_parts_length _ _ _ _ _ _ _ _ _ _ _ _ _ Hm) as Hl.
    destruct (covers_map_parts _ _ _ _ _ _ _ _ _ _ _ _ _ Hm) as (d & Hd & Hp & Hq).
    destruct (folds_fold _ _ _ _ _ _ _ _ _ _ _ Hr) as (d' & Hd' & H1 & H2 & H3). exists (d ++ d').
    rewrite Hd', Hd, app_assoc. split; [done|]. unfold long_trace. rewrite prompts_app, reports_app, Hp, Hq.
    split_and!.
    + unfold part_prompts. rewrite length_app, length_imap. cbn [pred MAX_FOLD_DEPTH] in H1. lia.
    + by apply ordered_running_app.
    + intros Hok. destruct (H3 Hok) as [H4 H5]. split; [|by exists (prompts d')].
      rewrite last_app. destruct (last (reports d')) as [x|] eqn:Hx; [|by apply last_None in Hx].
      apply last_Some_elem_of in Hx. rewrite Forall_forall in H2. by rewrite (H2 x Hx).
Qed.

Lemma one_call_trace (batches : list (list text)) size {A} user (r : result BuildErr A) d n :
  covers [user] [size] r d → 0 ≤ size ≤ n →
  (length (prompts d) ≤ 3 * length batches + 1)%nat ∧ ordered n (reports d) ∧
  (is_ok r = true → last (reports d) = Some size ∧ prompts d = [user]).
Proof.
  intros Hc Hn. assert (ordered n [size]) as Ho by (split; repeat constructor; lia).
  destruct r; destruct Hc as [Hp Hq].
  - rewrite Hp, Hq. split_and!; [cbn; lia|done|done].
  - apply prefix_length in Hp. cbn in Hp. split_and!; [lia| |done]. by eapply ordered_prefix.
Qed.

(** The same, with the draft made of the text. *)
Lemma one_call_draft system user lang sm max_tokens s size truncated w r w' d (batches : list (list text)) n :
  (t ← call timeout system user lang sm max_tokens s (asking should_cancel);
   _ ← raising (reporting on_progress size);
   mret (mk_SummaryDraft t (rs_model sm) size truncated)) (w, []) = (r, (w', d)) → 0 ≤ size ≤ n →
  (length (prompts d) ≤ 3 * length batches + 1)%nat ∧ ordered n (reports d) ∧
  ∀ draft, r = Ok draft →
    draft = mk_SummaryDraft (sd_text draft) (rs_model sm) size truncated ∧ sd_text draft ≠ [] ∧
    last (reports d) = Some size ∧ prompts d = [user].
Proof.
  intros Hr Hn. set (f t := mk_SummaryDraft t (rs_model sm) size truncated).
  assert ((t ← one_call system user lang sm max_tokens s size; mret (f t)) (w, []) = (r, (w', d))) as Hr'.
  { rewrite <- Hr. unfold one_call, mbind, eff_bind. destruct (call _ _ _ _ _ _ _ _ _) as [[t|e] w1]; [|done].
    by destruct (raising _ w1) as [[u|e] w2]. }
  clear Hr. destruct (one_call_trace batches size user r d n) as (H1 & H2 & H3); [|done|].
  { eapply (draft_covers _ f); [apply covers_one_call|exact Hr']. }
  split_and!; [done|done|]. intros draft ->. destruct (H3 eq_refl).
  apply eff_bind_Ok in Hr' as (t & w1 & Ht & [= <- _]). by apply one_call_text in Ht.
Qed.

Lemma long_build_draft lang sm (batches : list (list text)) size truncated w r w' d :
  (notes ← map_parts timeout decimal lang sm (reporting on_progress) (asking should_cancel)
             (Z.of_nat (length batches)) 1 0 batches;
   t ← fold timeout lang sm (reporting on_progress size) (asking should_cancel) (pred MAX_FOLD_DEPTH) notes;
   mret (mk_SummaryDraft t (rs_model sm) size truncated)) (w, []) = (r, (w', d)) →
  Z.of_nat (length (concat batches)) = size →
  (length (prompts d) ≤ 3 * length batches + 1)%nat ∧ ordered size (reports d) ∧
  ∀ draft, r = Ok draft →
    draft = mk_SummaryDraft (sd_text draft) (rs_model sm) size truncated ∧ sd_text draft ≠ [] ∧
    last (reports d) = Some size ∧
    ∃ fs, fs ≠ [] ∧ prompts d = part_prompts decimal (Z.of_nat (length batches)) 1 batches ++ fs.
Proof.
  intros Hr Hsize. rewrite <- eff_assoc in Hr. fold (long_build lang sm batches size) in Hr.
  apply eff_bind_run in Hr as [(e & Hr & ->)|(t & w1 & Ht & [= <- ->])];
    [|pose proof Ht as Hr; apply eff_bind_Ok in Ht as (? & ? & _ & Ht); apply fold_text in Ht];
    destruct (long_build_does _ _ _ _ Hsize _ _ _ Hr) as (d' & Hd & H1 & H2 & H3); cbn in Hd; subst d';
    (split_and!; [done|done|]); intros draft [= <-].
  destruct (H3 eq_refl). done.
Qed.

(** C40: a summary reads what it says it read.  A full one sends its window, cut into batches
    within the limits, each chunk in exactly one call and in order; an overview sends its
    sample in one call.  Its text is not empty, its chunk count is the last progress
    reported, and it is marked truncated exactly where there was more to read.  Whatever
    happens, progress never goes back and the calls are at most three per batch and one
    more; a document without text costs none. *)
Theorem every_chunk_is_read_once chunks kind lang sm w r w' d :
  execute timeout decimal chunks kind lang sm (reporting on_progress) (asking should_cancel) (w, []) = (r, (w', d)) →
  let readable := List.filter is_readable chunks in
  let n := Z.of_nat (length readable) in
  let window := take MAX_MAP_CHUNKS readable in
  let batches := batched MAX_BATCH_CHARS window in
  concat batches = window ∧ Forall (fits_batch MAX_BATCH_CHARS) batches ∧
  (length (prompts d) ≤ 3 * length batches + 1)%nat ∧ ordered n (reports d) ∧
  (readable = [] → r = Err NoIndexedText ∧ d = []) ∧
  ∀ draft, r = Ok draft →
    sd_text draft ≠ [] ∧ sd_model draft = rs_model sm ∧ last (reports d) = Some (sd_source_chunks draft) ∧
    (sd_truncated draft = true ↔ sd_source_chunks draft < n) ∧
    match kind with
    | OVERVIEW => prompts d = [(glance_sample readable).1] ∧ sd_source_chunks draft = Z.min n OVERVIEW_CHUNKS
    | FULL =>
        sd_source_chunks draft = Z.of_nat (length window) ∧
        (prompts d = [join_chunks window] ∨
         ∃ fs, fs ≠ [] ∧ prompts d = part_prompts decimal (Z.of_nat (length batches)) 1 batches ++ fs)
    end.
Proof.
  intros Hr readable n window batches. split; [apply batched_concat|]. split; [apply batched_fits|].
  unfold execute in Hr. fold readable in Hr. fold n window in Hr. case_bool_decide as Hne.
  { injection Hr as <- <- <-. split_and!; [cbn; lia|apply ordered_nil|done|done]. }
  assert (0 < n) as Hn by (unfold n; destruct readable; [done|cbn; lia]).
  assert (window ≠ []) as Hwne by (unfold window, MAX_MAP_CHUNKS; by destruct readable).
  assert (Z.of_nat (length window) ≤ n) as Hw by (unfold window, n; rewrite length_take; lia).
  destruct kind.
  - assert (glance_sample readable = ((glance_sample readable).1, Z.min n OVERVIEW_CHUNKS)) as Hg.
    { unfold glance_sample. fold n. destruct (Z.leb_spec n OVERVIEW_CHUNKS) as [Hs|Hs]; cbn [fst]; f_equal; [lia|].
      rewrite sample_positions_eq, length_fmap, length_seqZ by done. unfold OVERVIEW_CHUNKS in *. lia. }
    rewrite Hg in Hr.
    assert (0 ≤ Z.min n OVERVIEW_CHUNKS ≤ n) as Hb by (unfold OVERVIEW_CHUNKS; lia).
    destruct (one_call_draft _ _ _ _ _ _ _ _ _ _ _ _ batches n Hr Hb) as (H1 & H2 & H3).
    split_and!; [done|done|done|]. intros draft Hd. destruct (H3 draft Hd) as (-> & Ht & H4 & H5). cbn.
    split_and!; [done|done|done| |done|done]. rewrite Z.ltb_lt. lia.
  - case_bool_decide as Hone.
    + fold batches in Hr. unfold batches in Hr. rewrite small_enough in Hr by done. cbn [hd] in Hr.
      destruct (one_call_draft _ _ _ _ _ _ _ _ _ _ _ _ batches n Hr ltac:(lia)) as (H1 & H2 & H3).
      split_and!; [done|done|done|]. intros draft Hd. destruct (H3 draft Hd) as (-> & Ht & H4 & H5). cbn.
      split_and!; [done|done|done| |done|by left]. by rewrite Z.ltb_lt.
    + destruct (long_build_draft _ _ _ _ _ _ _ _ _ Hr) as (H1 & H2 & H3); [by unfold batches; rewrite batched_concat|].
      split_and!; [done| |done|].
      * destruct H2 as [H2 H2']. split; [done|]. eapply Forall_impl; [exact H2'|]. intros x Hx. cbn in *. lia.
      * intros draft Hd. destruct (H3 draft Hd) as (-> & Ht & H4 & H5). cbn.
        split_and!; [done|done|done| |done|by right]. by rewrite Z.ltb_lt.
Qed.
End Promises.

(** ** A provider that answers *)

Section Demo.
(** Calls are answered ["ok"] in two pieces, ten seconds apart, the count of calls kept. *)
Definition demo_streams : LlmStreams nat := {|
  stream _ _ _ _ w :=
    ((0, Delta 0 0 (txt "o") None
           (Delta (10 * us_per_second) (10 * us_per_second) (txt "k") (Some (txt "stop"))
              (Ends (10 * us_per_second) (10 * us_per_second)))), S w);
  aclose w := w
|}.

Definition demo_summarizer : ResolvedSummarizer :=
  mk_ResolvedSummarizer (txt "ollama") (txt "gemma3") (txt "key").

(** Stopped at the third question; nothing fails. *)
Definition demo_stop_at (n : nat) : eff nat exn bool := λ w, (Ok (bool_decide (n ≤ w)%nat), w).
Definition demo_progress (_ : Z) : eff nat exn unit := λ w, (Ok tt, w).
Definition demo_decimal (n : Z) : text := [48 + n].

(** Thirty chunks: two parts, and notes short enough to reduce at once. *)
Definition demo_chunks : list text := replicate 30 [120].

Abbreviation demo_run stop :=
  (@execute (nat * list Act) (@traced nat demo_streams) DEFAULT_CALL_TIMEOUT demo_decimal demo_chunks FULL EN
     demo_summarizer (reporting demo_progress) (asking (demo_stop_at stop)) (0%nat, [])).

Example demo_full_build :
  (sd_source_chunks <$> (match (demo_run 9).1 with Ok draft => Some draft | Err _ => None end)) = Some 30 ∧
  reports (demo_run 9).2.2 = [20; 30; 30] ∧ length (prompts (demo_run 9).2.2) = 3%nat.
Proof. vm_compute. repeat split. Qed.

Example stop_is_heeded_witness : ∃ w d, demo_run 1 = (Err Cancelled, (w, d)) ∧ Asked true ∈ d ∧ streams false d = Some false.
Proof.
  destruct (demo_run 1) as [r [w d]] eqn:Hr. exists w, d.
  assert ((demo_run 1).1 = Err Cancelled) as Hc by (vm_compute; reflexivity).
  rewrite Hr in Hc. cbn [fst] in Hc. subst r.
  destruct (stop_is_heeded (H := demo_streams) DEFAULT_CALL_TIMEOUT demo_decimal (demo_stop_at 1) demo_progress
    demo_chunks FULL (mk_Summary [] [] [] FULL EN [] [] 0 false 0) EN demo_summarizer 0%nat _ _ _ (or_introl Hr)) as (H1 & _ & H3).
  split_and!; [done|by apply H1|done].
Defined.

Example every_chunk_is_read_once_witness : ∃ r w d, demo_run 9 = (r, (w, d)) ∧ is_ok r = true ∧
  ordered 30 (reports d) ∧ (length (prompts d) ≤ 7)%nat.
Proof.
  destruct (demo_run 9) as [r [w d]] eqn:Hr. exists r, w, d.
  pose proof (every_chunk_is_read_once (H := demo_streams) DEFAULT_CALL_TIMEOUT demo_decimal (demo_stop_at 9) demo_progress
    demo_chunks FULL EN demo_summarizer 0%nat _ _ _ Hr) as (_ & _ & H3 & H4 & _).
  assert (length (List.filter is_readable demo_chunks) = 30%nat) as Hl by (vm_compute; reflexivity).
  assert (length (batched MAX_BATCH_CHARS (take MAX_MAP_CHUNKS (List.filter is_readable demo_chunks))) = 2%nat) as Hb
    by (vm_compute; reflexivity).
  rewrite Hl in H4. rewrite Hb in H3. split_and!; [done| |done|done].
  assert (is_ok (demo_run 9).1 = true) as Hok by (vm_compute; reflexivity). by rewrite Hr in Hok.
Defined.

Example sample_of_a_hundred : sample_positions 100 = [0; 14; 28; 42; 57; 71; 85; 99].
Proof. vm_compute. reflexivity. Qed.
End Demo.
