(* ===== verification/KnowledgeDb.v ===== *)
(** * KnowledgeDb: the tables of the knowledge module and its statements

    [modules/knowledge/adapters/sql_repository.py] over [migrations/versions/knowledge]: each
    method's statements as functions of the tables, with their keys, foreign keys, triggers
    and row-level security. *)

From S2P Require Import Prelude Text Calendar Errors Framework Transactions Files Keyset Events Tables Streams Engine Outbox Knowledge.

Open Scope Z_scope.

(** ** Tables

    Keyed by what is unique in them.  A row holds what the code reads of it: a document, a
    chunk, a summary or a summary job is its row, its enumerations being those of the CHECK
    constraints; [version] is read of documents only, [updated_at] of documents and summary
    jobs.  The identifier of a chunk, a parent chunk and a summary is minted for it. *)

Record ReindexJobRow := mk_ReindexJobRow {
  jr_workspace_id : text; jr_cancelled_at : option instant; jr_created_at : instant
}.

Record ReindexItemRow := mk_ReindexItemRow { ir_workspace_id : text; ir_file_id : text; ir_source_document_id : text }.

Record KnowledgeDb := mk_KnowledgeDb {
  documents : gmap text Document;
  knowledge_chunks : gmap (text * Z) Chunk;
  parent_chunks : gmap (text * Z) ParentChunk;
  reindex_jobs : gmap text ReindexJobRow;
  reindex_job_items : gmap (text * text) ReindexItemRow;
  summaries : gmap (text * text * text) Summary;
  summary_jobs : gmap text SummaryJob;
  processed_events : list (text * text);
  outbox_rows : list OutboxRow
}.

Definition with_documents t d := mk_KnowledgeDb t (knowledge_chunks d) (parent_chunks d) (reindex_jobs d) (reindex_job_items d)
  (summaries d) (summary_jobs d) (processed_events d) (outbox_rows d).
Definition with_chunks t d := mk_KnowledgeDb (documents d) t (parent_chunks d) (reindex_jobs d) (reindex_job_items d)
  (summaries d) (summary_jobs d) (processed_events d) (outbox_rows d).
Definition with_parents t d := mk_KnowledgeDb (documents d) (knowledge_chunks d) t (reindex_jobs d) (reindex_job_items d)
  (summaries d) (summary_jobs d) (processed_events d) (outbox_rows d).
Definition with_reindex_jobs t d := mk_KnowledgeDb (documents d) (knowledge_chunks d) (parent_chunks d) t (reindex_job_items d)
  (summaries d) (summary_jobs d) (processed_events d) (outbox_rows d).
Definition with_items t d := mk_KnowledgeDb (documents d) (knowledge_chunks d) (parent_chunks d) (reindex_jobs d) t
  (summaries d) (summary_jobs d) (processed_events d) (outbox_rows d).
Definition with_summaries t d := mk_KnowledgeDb (documents d) (knowledge_chunks d) (parent_chunks d) (reindex_jobs d)
  (reindex_job_items d) t (summary_jobs d) (processed_events d) (outbox_rows d).
Definition with_summary_jobs t d := mk_KnowledgeDb (documents d) (knowledge_chunks d) (parent_chunks d) (reindex_jobs d)
  (reindex_job_items d) (summaries d) t (processed_events d) (outbox_rows d).
Definition with_claims t d := mk_KnowledgeDb (documents d) (knowledge_chunks d) (parent_chunks d) (reindex_jobs d)
  (reindex_job_items d) (summaries d) (summary_jobs d) t (outbox_rows d).
Definition with_outbox t d := mk_KnowledgeDb (documents d) (knowledge_chunks d) (parent_chunks d) (reindex_jobs d)
  (reindex_job_items d) (summaries d) (summary_jobs d) (processed_events d) t.

Definition foreign_key_violation : DbFault := Dbapi (Some (txt "23503")).

(** [_translate] *)
Definition knowledge_error (sqlstate : option text) : exn :=
  if bool_decide (sqlstate = Some (txt "23505")) then conflict_exn
  else if bool_decide (sqlstate = Some (txt "23503")) then conflict_exn
  else internal_exn.

Section Statements.
Implicit Types (ctx : ExecutionContext) (d : KnowledgeDb).

Definition mine ctx (workspace : text) : bool := bool_decide (workspace = workspace_id ctx).

(** The row a context may see. *)
Definition own {A} ctx (workspace : A → text) (r : option A) : option A :=
  match r with Some x => if mine ctx (workspace x) then Some x else None | None => None end.

(** ** Documents *)

Definition select_document ctx (id : text) d : option Document := own ctx doc_workspace_id (documents d !! id).

Definition insert_document ctx (doc : Document) d : result DbFault (unit * KnowledgeDb) :=
  if negb (mine ctx (doc_workspace_id doc)) then Err insufficient_privilege
  else if bool_decide (is_Some (documents d !! doc_id doc)) then Err unique_violation
  else Ok (tt, with_documents (<[doc_id doc := doc]> (documents d)) d).

(** [_chunk_count_subquery] *)
Definition count_chunks (id workspace : text) d : Z :=
  Z.of_nat (length (List.filter (λ kc, bool_decide (kc.1.1 = id) && bool_decide (ck_workspace_id kc.2 = workspace))
                      (map_to_list (knowledge_chunks d)))).

(** What the transition to [indexed] writes besides. *)
Record Completion := mk_Completion {
  cm_content_hash : option text; cm_pipeline_version : option Z;
  cm_text_chunks : Z; cm_table_chunks : Z; cm_image_chunks : Z
}.

Definition no_completion : Completion := mk_Completion None None 0 0 0.

Definition status_row (status : IndexStatus) (error : option text) (c : Completion) (now : instant) d (r : Document) : Document :=
  match status with
  | INDEXED =>
      mk_Document (doc_id r) (doc_workspace_id r) (doc_space_id r) (doc_file_id r) INDEXED
        (count_chunks (doc_id r) (doc_workspace_id r) d) error (doc_created_at r) now (doc_version r)
        (cm_content_hash c) (cm_pipeline_version c) (cm_text_chunks c) (cm_table_chunks c) (cm_image_chunks c)
  | _ => doc_moved status error now r
  end.

Definition update_status ctx (id : text) (status : IndexStatus) (error : option text) (c : Completion) (now : instant) d
    : result DbFault (unit * KnowledgeDb) :=
  Ok (tt, match select_document ctx id d with
          | Some r => with_documents (<[id := status_row status error c now d r]> (documents d)) d
          | None => d
          end).

Definition in_scope_space ctx (space_id : option text) (r : Document) : bool :=
  mine ctx (doc_workspace_id r) && match space_id with Some s => bool_decide (doc_space_id r = Some s) | None => true end.

Definition select_documents ctx (space_id : option text) (limit : nat) (after : option text) d : list (text * Document) :=
  select_page fst (List.filter (λ kr, in_scope_space ctx space_id kr.2) (map_to_list (documents d))) limit after.

Definition count_documents ctx (space_id : option text) d : Z :=
  Z.of_nat (length (List.filter (λ kr, in_scope_space ctx space_id kr.2) (map_to_list (documents d)))).

Definition select_ids_for_files ctx (file_ids : list text) d : list text :=
  (List.filter (λ kr, mine ctx (doc_workspace_id kr.2) && bool_decide (doc_file_id kr.2 ∈ file_ids)) (map_to_list (documents d))).*1.

(** The documents a statement is about: one, those of a space, those of a file. *)
Inductive Scope : Type := OneDocument (id : text) | InSpace (space_id : text) | OfFile (file_id : text).

Definition within (s : Scope) (r : Document) : bool :=
  match s with
  | OneDocument id => bool_decide (doc_id r = id)
  | InSpace space => bool_decide (doc_space_id r = Some space)
  | OfFile file => bool_decide (doc_file_id r = file)
  end.

(** [document_id = :id], or [IN] the subquery of a space's or a file's documents. *)
Definition about ctx (s : Scope) (id : text) d : bool :=
  match s with
  | OneDocument k => bool_decide (id = k)
  | _ => match select_document ctx id d with Some r => within s r | None => false end
  end.

(** ** Chunks *)

(** [VectorRef(..)] of the rows with both columns set and not empty. *)
Definition live_ref (c : Chunk) : option VectorRef :=
  match ck_vector_ref c with
  | Some v => if bool_decide (vr_collection v = []) || bool_decide (vr_point_id v = []) then None else Some v
  | None => None
  end.

Definition select_refs ctx (s : Scope) d : list VectorRef :=
  omap live_ref (List.filter (λ kc, mine ctx (ck_workspace_id kc.2) && about ctx s kc.1.1 d) (map_to_list (knowledge_chunks d))).*2.

Definition parent_of ctx (c : Chunk) d : option ParentChunk :=
  p ← ck_parent_id c;
  List.find (λ r, bool_decide (pa_id r = p) && mine ctx (pa_workspace_id r)) (map_to_list (parent_chunks d)).*2.

Definition chunk_leb (x y : Chunk) : bool := ck_seq x <=? ck_seq y.

Definition select_chunk_texts ctx (id : text) d : list text :=
  collapse_parent_runs
    ((λ c, mk_ParentedChunkText (ck_text c)
             ((λ p, mk_ChunkParent (pa_id p) (pa_text p) (pa_is_complete p)) <$> parent_of ctx c d)) <$>
     sort_by chunk_leb
       (List.filter (λ kc, mine ctx (ck_workspace_id kc.2) && bool_decide (kc.1.1 = id)) (map_to_list (knowledge_chunks d))).*2).

(** [INSERT .. ON CONFLICT (document_id, seq) DO NOTHING], row by row. *)
Fixpoint insert_parents ctx (rows : list ParentChunk) d : result DbFault (unit * KnowledgeDb) :=
  match rows with
  | [] => Ok (tt, d)
  | p :: rows =>
      if negb (mine ctx (pa_workspace_id p)) then Err insufficient_privilege
      else if bool_decide (is_Some (parent_chunks d !! (pa_document_id p, pa_seq p))) then insert_parents ctx rows d
      else if bool_decide (documents d !! pa_document_id p = None) then Err foreign_key_violation
      else insert_parents ctx rows (with_parents (<[(pa_document_id p, pa_seq p) := p]> (parent_chunks d)) d)
  end.

Definition has_parent_row (c : Chunk) d : bool :=
  match ck_parent_id c with
  | Some p => existsb (λ r, bool_decide (pa_id r = p)) (map_to_list (parent_chunks d)).*2
  | None => true
  end.

Fixpoint insert_chunks ctx (rows : list Chunk) d : result DbFault (unit * KnowledgeDb) :=
  match rows with
  | [] => Ok (tt, d)
  | c :: rows =>
      if negb (mine ctx (ck_workspace_id c)) then Err insufficient_privilege
      else if bool_decide (is_Some (knowledge_chunks d !! (ck_document_id c, ck_seq c))) then insert_chunks ctx rows d
      else if bool_decide (documents d !! ck_document_id c = None) || negb (has_parent_row c d) then Err foreign_key_violation
      else insert_chunks ctx rows (with_chunks (<[(ck_document_id c, ck_seq c) := c]> (knowledge_chunks d)) d)
  end.

(** ** Re-index jobs *)

Definition item_leb (x y : (text * text) * ReindexItemRow) : bool := negb (text_ltb y.1.2 x.1.2).

(** The items whose document is still there. *)
Definition select_items ctx (job_id : text) d : list ReindexItem :=
  omap (λ kr : (text * text) * ReindexItemRow,
          r ← select_document ctx kr.1.2 d;
          Some (mk_ReindexItem kr.1.2 (ir_file_id kr.2) (ir_source_document_id kr.2) (doc_status r)))
    (sort_by item_leb (List.filter (λ kr, bool_decide (kr.1.1 = job_id) && mine ctx (ir_workspace_id kr.2))
                         (map_to_list (reindex_job_items d)))).

Definition select_reindex_job ctx (id : text) d : option ReindexJob :=
  r ← own ctx jr_workspace_id (reindex_jobs d !! id);
  Some (mk_ReindexJob id (jr_workspace_id r) (select_items ctx id d) (jr_cancelled_at r) (jr_created_at r)).

Definition insert_reindex_job ctx (j : ReindexJob) d : result DbFault (unit * KnowledgeDb) :=
  if negb (mine ctx (rj_workspace_id j)) then Err insufficient_privilege
  else if bool_decide (is_Some (reindex_jobs d !! rj_id j)) then Err unique_violation
  else Ok (tt, with_reindex_jobs (<[rj_id j := mk_ReindexJobRow (rj_workspace_id j) (rj_cancelled_at j) (rj_created_at j)]>
                                    (reindex_jobs d)) d).

Fixpoint insert_items ctx (j : ReindexJob) (items : list ReindexItem) d : result DbFault (unit * KnowledgeDb) :=
  match items with
  | [] => Ok (tt, d)
  | i :: items =>
      if negb (mine ctx (rj_workspace_id j)) then Err insufficient_privilege
      else if bool_decide (is_Some (reindex_job_items d !! (rj_id j, ri_document_id i))) then Err unique_violation
      else if bool_decide (reindex_jobs d !! rj_id j = None) || bool_decide (documents d !! ri_document_id i = None)
      then Err foreign_key_violation
      else insert_items ctx j items
             (with_items (<[(rj_id j, ri_document_id i) :=
                              mk_ReindexItemRow (rj_workspace_id j) (ri_file_id i) (ri_source_document_id i)]>
                            (reindex_job_items d)) d)
  end.

Definition update_cancelled ctx (id : text) (at_ : instant) d : result DbFault (unit * KnowledgeDb) :=
  Ok (tt, match own ctx jr_workspace_id (reindex_jobs d !! id) with
          | Some r => with_reindex_jobs (<[id := mk_ReindexJobRow (jr_workspace_id r) (Some at_) (jr_created_at r)]> (reindex_jobs d)) d
          | None => d
          end).

(** ** Summaries *)

(** [uq_summary_key] *)
Definition summary_key (document_id : text) (k : SummaryKind) (l : SummaryLanguage) : text * text * text :=
  (document_id, summary_kind_value k, language_value l).
Definition key_of_summary (s : Summary) := summary_key (su_document_id s) (su_kind s) (su_lang s).

Definition select_summary ctx (document_id : text) k l d : option Summary :=
  own ctx su_workspace_id (summaries d !! summary_key document_id k l).

(** [ORDER BY built_at DESC, id DESC] *)
Definition newer_summary (x y : Summary) : bool :=
  (su_built_at y <? su_built_at x) || ((su_built_at y =? su_built_at x) && negb (text_ltb (su_id x) (su_id y))).

Definition select_newest_other ctx (document_id : text) (k : SummaryKind) (l : SummaryLanguage) d : option Summary :=
  head (sort_by newer_summary
    (List.filter (λ s, bool_decide (su_document_id s = document_id) && bool_decide (su_kind s = k) &&
                       negb (bool_decide (su_lang s = l)) && mine ctx (su_workspace_id s))
       (map_to_list (summaries d)).*2)).

(** What the conflicting row keeps: its identity. *)
Definition rebuilt (s r : Summary) : Summary :=
  mk_Summary (su_id r) (su_workspace_id r) (su_document_id r) (su_kind r) (su_lang r) (su_text s) (su_model s)
    (su_source_chunks s) (su_truncated s) (su_built_at s).

Definition upsert_summary ctx (s : Summary) d : result DbFault (unit * KnowledgeDb) :=
  if negb (mine ctx (su_workspace_id s)) then Err insufficient_privilege
  else
    match summaries d !! key_of_summary s with
    | Some r =>
        if mine ctx (su_workspace_id r)
        then Ok (tt, with_summaries (<[key_of_summary s := rebuilt s r]> (summaries d)) d)
        else Err insufficient_privilege
    | None =>
        if bool_decide (documents d !! su_document_id s = None) then Err foreign_key_violation
        else Ok (tt, with_summaries (<[key_of_summary s := s]> (summaries d)) d)
    end.

Definition delete_summary ctx (document_id : text) k l d : bool * KnowledgeDb :=
  match select_summary ctx document_id k l d with
  | Some _ => (true, with_summaries (delete (summary_key document_id k l) (summaries d)) d)
  | None => (false, d)
  end.

(** ** Summary jobs *)

Definition active_status (s : SummaryJobStatus) : bool := bool_decide (s = QUEUED ∨ s = RUNNING).
Definition active_job (j : SummaryJob) : bool := active_status (sj_status j).
Definition key_of_job (j : SummaryJob) := summary_key (sj_document_id j) (sj_kind j) (sj_lang j).

(** [uq_summary_job_active], against the other rows. *)
Definition key_taken (j : SummaryJob) d : bool :=
  active_job j &&
  existsb (λ kr, negb (bool_decide (kr.1 = sj_id j)) && active_job kr.2 && bool_decide (key_of_job kr.2 = key_of_job j))
    (map_to_list (summary_jobs d)).

Definition select_job ctx (id : text) d : option SummaryJob := own ctx sj_workspace_id (summary_jobs d !! id).

Definition insert_job ctx (j : SummaryJob) d : result DbFault (unit * KnowledgeDb) :=
  if negb (mine ctx (sj_workspace_id j)) then Err insufficient_privilege
  else if bool_decide (is_Some (summary_jobs d !! sj_id j)) || key_taken j d then Err unique_violation
  else Ok (tt, with_summary_jobs (<[sj_id j := j]> (summary_jobs d)) d).

Definition own_active ctx d : list SummaryJob :=
  List.filter (λ j, active_job j && mine ctx (sj_workspace_id j)) (map_to_list (summary_jobs d)).*2.

Definition select_active ctx (document_id : text) (k : SummaryKind) (l : SummaryLanguage) d : option SummaryJob :=
  List.find (λ j, bool_decide (key_of_job j = summary_key document_id k l)) (own_active ctx d).

Definition count_active_jobs ctx d : Z := Z.of_nat (length (own_active ctx d)).

(** What [save] writes; [trg_touch] writes [updated_at]. *)
Definition saved_job (j : SummaryJob) (now : instant) (r : SummaryJob) : SummaryJob :=
  mk_SummaryJob (sj_id r) (sj_workspace_id r) (sj_document_id r) (sj_kind r) (sj_lang r) (sj_status j) (sj_total_chunks j)
    (sj_done_chunks j) (sj_error j) (sj_cancelled_at j) (sj_finished_at j) (sj_created_at r) now.

Definition update_job ctx (j : SummaryJob) (now : instant) d : result DbFault (unit * KnowledgeDb) :=
  match select_job ctx (sj_id j) d with
  | Some r =>
      if key_taken (saved_job j now r) d then Err unique_violation
      else Ok (tt, with_summary_jobs (<[sj_id j := saved_job j now r]> (summary_jobs d)) d)
  | None => Ok (tt, d)
  end.

Definition progressed (done_chunks : Z) (now : instant) (r : SummaryJob) : SummaryJob :=
  mk_SummaryJob (sj_id r) (sj_workspace_id r) (sj_document_id r) (sj_kind r) (sj_lang r) (sj_status r) (sj_total_chunks r)
    done_chunks (sj_error r) (sj_cancelled_at r) (sj_finished_at r) (sj_created_at r) now.

Definition update_progress ctx (id : text) (done_chunks : Z) (now : instant) d : result DbFault (unit * KnowledgeDb) :=
  Ok (tt, match select_job ctx id d with
          | Some r => if bool_decide (sj_status r = RUNNING)
                      then with_summary_jobs (<[id := progressed done_chunks now r]> (summary_jobs d)) d
                      else d
          | None => d
          end).

(** ** Purges: the statements of [purge], [purge_space] and [purge_file] *)

Definition drop_summaries ctx (s : Scope) d : KnowledgeDb :=
  with_summaries (filter (λ kr, (mine ctx (su_workspace_id kr.2) && about ctx s kr.1.1.1 d) = false) (summaries d)) d.
Definition drop_summary_jobs ctx (s : Scope) d : KnowledgeDb :=
  with_summary_jobs (filter (λ kr, (mine ctx (sj_workspace_id kr.2) && about ctx s (sj_document_id kr.2) d) = false) (summary_jobs d)) d.
Definition drop_items ctx (s : Scope) d : KnowledgeDb :=
  with_items (filter (λ kr, (mine ctx (ir_workspace_id kr.2) && about ctx s kr.1.2 d) = false) (reindex_job_items d)) d.
Definition drop_chunks ctx (s : Scope) d : KnowledgeDb :=
  with_chunks (filter (λ kr, (mine ctx (ck_workspace_id kr.2) && about ctx s kr.1.1 d) = false) (knowledge_chunks d)) d.

(** A row that still refers to the document. *)
Definition referenced (id : text) d : bool :=
  existsb (λ k, bool_decide (k.1 = id)) (map_to_list (knowledge_chunks d)).*1 ||
  existsb (λ k, bool_decide (k.1.1 = id)) (map_to_list (summaries d)).*1 ||
  existsb (λ k, bool_decide (k.2 = id)) (map_to_list (reindex_job_items d)).*1.

(** [fk_parent_chunk_doc] cascades, and the chunks' parents are checked after it. *)
Definition drop_documents ctx (s : Scope) d : result DbFault (list text * KnowledgeDb) :=
  let dropped kr := mine ctx (doc_workspace_id kr.2) && within s kr.2 in
  let gone := (List.filter dropped (map_to_list (documents d))).*1 in
  let d' := with_parents (filter (λ kr, kr.1.1 ∉ gone) (parent_chunks d))
              (with_documents (filter (λ kr, dropped kr = false) (documents d)) d) in
  if existsb (λ id, referenced id d) gone || negb (forallb (λ kc, has_parent_row kc.2 d') (map_to_list (knowledge_chunks d)))
  then Err foreign_key_violation
  else Ok (gone, d').

Definition has_items ctx (job_id : text) d : bool :=
  existsb (λ kr, bool_decide (kr.1.1 = job_id) && mine ctx (ir_workspace_id kr.2)) (map_to_list (reindex_job_items d)).

Definition drop_empty_jobs ctx d : result DbFault (unit * KnowledgeDb) :=
  let dropped kr := mine ctx (jr_workspace_id kr.2) && negb (has_items ctx kr.1 d) in
  let gone := (List.filter dropped (map_to_list (reindex_jobs d))).*1 in
  if existsb (λ k, bool_decide (k.1 ∈ gone)) (map_to_list (reindex_job_items d)).*1 then Err foreign_key_violation
  else Ok (tt, with_reindex_jobs (filter (λ kr, dropped kr = false) (reindex_jobs d)) d).

(** ** The ledger and the outbox *)

Definition insert_claim (group event_id : text) d : result DbFault (unit * KnowledgeDb) :=
  if bool_decide ((group, event_id) ∈ processed_events d) then Err unique_violation
  else Ok (tt, with_claims (processed_events d ++ [(group, event_id)]) d).

Definition insert_records `{Jsonb} ctx (now : instant) (records : list OutboxRecord) d : result DbFault (unit * KnowledgeDb) :=
  rows ← append ctx now records (outbox_rows d);
  Ok (tt, with_outbox rows d).
End Statements.
