(* ===== verification/KnowledgeSound.v ===== *)
(** * KnowledgeSound: what always holds of the knowledge tables

    Every chunk, parent, item and summary has its document, in its own workspace; a chunk's
    parent is of its document; one active job per summary key; an indexed document counts
    its chunks.  Each statement keeps it, and under it the purges are never refused. *)

From S2P Require Import Prelude Text Calendar Errors Framework Transactions Files Keyset Events Tables Streams Engine Outbox Knowledge KnowledgeDb.

Open Scope Z_scope.

Implicit Types (ctx : ExecutionContext) (d : KnowledgeDb).

Definition owner d (id : text) : option text := doc_workspace_id <$> documents d !! id.

Record sound d : Prop := mk_sound {
  snd_documents : ∀ id r, documents d !! id = Some r → doc_id r = id;
  snd_chunks : ∀ k c, knowledge_chunks d !! k = Some c →
    k = (ck_document_id c, ck_seq c) ∧ owner d k.1 = Some (ck_workspace_id c) ∧
    ∀ p, ck_parent_id c = Some p → ∃ kp r, parent_chunks d !! kp = Some r ∧ pa_id r = p ∧ kp.1 = k.1;
  snd_parents : ∀ k r, parent_chunks d !! k = Some r → owner d k.1 = Some (pa_workspace_id r);
  snd_items : ∀ k r, reindex_job_items d !! k = Some r →
    owner d k.2 = Some (ir_workspace_id r) ∧ jr_workspace_id <$> reindex_jobs d !! k.1 = Some (ir_workspace_id r);
  snd_summaries : ∀ k s, summaries d !! k = Some s →
    k = key_of_summary s ∧ owner d k.1.1 = Some (su_workspace_id s);
  snd_jobs : ∀ id j, summary_jobs d !! id = Some j → sj_id j = id;
  snd_active : ∀ id id' j j', summary_jobs d !! id = Some j → summary_jobs d !! id' = Some j' →
    active_job j = true → active_job j' = true → key_of_job j = key_of_job j' → id = id'
}.

(** An indexed document counts its chunks. *)
Definition counted d : Prop := ∀ id r, documents d !! id = Some r → doc_status r = INDEXED →
  doc_chunk_count r = count_chunks id (doc_workspace_id r) d.

Lemma own_Some {A} ctx (ws : A → text) r x : own ctx ws r = Some x ↔ r = Some x ∧ ws x = workspace_id ctx.
Proof.
  unfold own, mine. destruct r as [y|]; [|naive_solver]. case_bool_decide; naive_solver.
Qed.

Lemma owner_select ctx id d r : select_document ctx id d = Some r → owner d id = Some (workspace_id ctx).
Proof. unfold select_document, owner. intros [-> Hw]%own_Some. cbn. by rewrite Hw. Qed.

Lemma sound_empty : sound (mk_KnowledgeDb ∅ ∅ ∅ ∅ ∅ ∅ ∅ [] []).
Proof. split; cbn; intros *; by rewrite ?lookup_empty. Qed.

(** The ledger and the outbox are not concerned. *)
Lemma sound_claims t d : sound d → sound (with_claims t d).
Proof. intros []. by split. Qed.
Lemma sound_outbox t d : sound d → sound (with_outbox t d).
Proof. intros []. by split. Qed.

Lemma count_chunks_ext id ws d d' : knowledge_chunks d' = knowledge_chunks d → count_chunks id ws d' = count_chunks id ws d.
Proof. unfold count_chunks. by intros ->. Qed.

(** *** Documents *)

(** A document's row changes, its identity and its workspace do not. *)
Lemma sound_document_update id r r' d :
  sound d → documents d !! id = Some r → doc_id r' = id → doc_workspace_id r' = doc_workspace_id r →
  sound (with_documents (<[id := r']> (documents d)) d).
Proof.
  intros Hs Hr Hid Hws.
  assert (∀ k, owner (with_documents (<[id := r']> (documents d)) d) k = owner d k) as Ho.
  { intros k. unfold owner. cbn. destruct (decide (k = id)) as [->|]; simplify_map_eq; [cbn; congruence|done]. }
  destruct Hs as [H1 H2 H3 H4 H5 H6 H7]. split; cbn [documents knowledge_chunks parent_chunks reindex_jobs reindex_job_items summaries summary_jobs with_documents].
  - intros k x Hx. destruct (decide (k = id)) as [->|]; simplify_map_eq; [done|by apply H1].
  - intros k c Hc. rewrite Ho. by apply H2.
  - intros k c Hc. rewrite Ho. by apply H3.
  - intros k c Hc. rewrite Ho. by apply H4.
  - intros k c Hc. rewrite Ho. by apply H5.
  - exact H6.
  - exact H7.
Qed.

Lemma status_row_same st e c now d r :
  doc_id (status_row st e c now d r) = doc_id r ∧ doc_workspace_id (status_row st e c now d r) = doc_workspace_id r ∧
  doc_status (status_row st e c now d r) = st ∧ doc_file_id (status_row st e c now d r) = doc_file_id r.
Proof. by destruct st. Qed.

Lemma update_status_sound ctx id st e c now d u d' :
  sound d → update_status ctx id st e c now d = Ok (u, d') → sound d'.
Proof.
  unfold update_status. intros Hs [= _ <-]. destruct (select_document ctx id d) as [r|] eqn:Hr; [|done].
  apply own_Some in Hr as [Hr _]. pose proof (snd_documents _ Hs _ _ Hr) as Hid.
  destruct (status_row_same st e c now d r) as (? & ? & _).
  eapply sound_document_update; [done|exact Hr|congruence|done].
Qed.

(** Whatever was not counted, it is now. *)
Lemma update_status_counted ctx id st e c now d u d' :
  (∀ k r, k ≠ id ∨ st ≠ INDEXED ∨ owner d id ≠ Some (workspace_id ctx) → documents d !! k = Some r → doc_status r = INDEXED →
     doc_chunk_count r = count_chunks k (doc_workspace_id r) d) → sound d →
  update_status ctx id st e c now d = Ok (u, d') → counted d'.
Proof.
  unfold update_status. intros Hc Hs [= _ <-]. destruct (select_document ctx id d) as [r|] eqn:Hr.
  - intros k x Hx Hst. rewrite (count_chunks_ext _ _ d) by done. cbn [documents with_documents] in Hx.
    destruct (decide (k = id)) as [->|]; simplify_map_eq.
    + apply own_Some in Hr as [Hr _]. pose proof (snd_documents _ Hs _ _ Hr) as Hid.
      destruct st; cbn [status_row doc_moved doc_status doc_chunk_count doc_workspace_id] in *; try done. by rewrite Hid.
    + apply Hc; auto.
  - intros k x Hx. apply Hc; [|done]. destruct (decide (k = id)) as [->|]; [|by left]. right. right.
    unfold owner. rewrite Hx. cbn. intros [= Hw]. unfold select_document in Hr.
    assert (own ctx doc_workspace_id (documents d !! id) = Some x) by by apply own_Some. congruence.
Qed.

Lemma insert_document_sound ctx doc d u d' :
  sound d → insert_document ctx doc d = Ok (u, d') → sound d'.
Proof.
  unfold insert_document. intros Hs. destruct (mine ctx (doc_workspace_id doc)); [|done]. cbn [negb].
  case_bool_decide as Hn; [done|]. intros [= _ <-].
  assert (documents d !! doc_id doc = None) as Hnone by (destruct (documents d !! doc_id doc); [destruct Hn; eauto|done]).
  assert (∀ k ws, owner d k = Some ws → owner (with_documents (<[doc_id doc := doc]> (documents d)) d) k = Some ws) as Ho.
  { intros k ws. unfold owner. cbn. destruct (decide (k = doc_id doc)) as [->|]; [by rewrite Hnone|by simplify_map_eq]. }
  destruct Hs as [H1 H2 H3 H4 H5 H6 H7]. split; cbn [documents knowledge_chunks parent_chunks reindex_jobs reindex_job_items summaries summary_jobs with_documents].
  - intros k x Hx. destruct (decide (k = doc_id doc)) as [->|]; simplify_map_eq; [done|by apply H1].
  - intros k c Hc. destruct (H2 _ _ Hc) as (? & ? & ?). auto.
  - intros k c Hc. auto.
  - intros k c Hc. destruct (H4 _ _ Hc) as (? & ?). auto.
  - intros k c Hc. destruct (H5 _ _ Hc) as (? & ?). auto.
  - exact H6.
  - exact H7.
Qed.

Lemma insert_document_counted ctx doc d u d' :
  counted d → doc_status doc ≠ INDEXED → insert_document ctx doc d = Ok (u, d') → counted d'.
Proof.
  unfold insert_document. intros Hc Hst. destruct (mine ctx _); [|done]. cbn [negb]. case_bool_decide; [done|].
  intros [= _ <-] k x Hx Hi. rewrite (count_chunks_ext _ _ d) by done. cbn [documents with_documents] in Hx.
  destruct (decide (k = doc_id doc)) as [->|]; simplify_map_eq; by apply Hc.
Qed.

(** *** Chunks and their parents *)

(** The rows go under one document, which is the workspace's. *)
Definition under ctx (id : text) d : Prop := ∀ ws, owner d id = Some ws → ws = workspace_id ctx.

Lemma insert_parents_sound ctx id rows d u d' :
  sound d → under ctx id d → Forall (λ p, pa_document_id p = id) rows → insert_parents ctx rows d = Ok (u, d') →
  sound d' ∧ documents d' = documents d ∧ knowledge_chunks d' = knowledge_chunks d ∧
  (∀ k, is_Some (parent_chunks d !! k) → parent_chunks d' !! k = parent_chunks d !! k) ∧
  (∀ k r, parent_chunks d' !! k = Some r → parent_chunks d !! k = Some r ∨ k.1 = id) ∧
  summary_jobs d' = summary_jobs d ∧ processed_events d' = processed_events d ∧ outbox_rows d' = outbox_rows d.
Proof.
  intros Hs Hu Hf. revert d Hs Hu. induction Hf as [|p rows Hp Hf IH]; intros d Hs Hu; cbn [insert_parents].
  { intros [= _ <-]. split_and!; auto. }
  unfold mine. case_bool_decide as Hw; [|done]. cbn [negb]. case_bool_decide as Hk; [by apply IH|].
  case_bool_decide as Hd; [done|]. set (k0 := (pa_document_id p, pa_seq p)) in *.
  assert (parent_chunks d !! k0 = None) as Hnone by (destruct (parent_chunks d !! k0); [destruct Hk; eauto|done]).
  assert (owner d (pa_document_id p) = Some (pa_workspace_id p)) as Hown.
  { destruct (owner d (pa_document_id p)) as [ws|] eqn:Ho; [|unfold owner in Ho; by destruct (documents d !! _)].
    rewrite Hp in Ho. by rewrite (Hu _ Ho), Hw. }
  intros Hr. apply IH in Hr as (Hs' & Hd' & Hc' & Hmono & Hnew & Hj & Hpe & Ho).
  - cbn [documents knowledge_chunks with_parents parent_chunks summary_jobs processed_events outbox_rows] in *. split_and!; try done.
    + intros k [r Hr']. rewrite Hmono; (destruct (decide (k = k0)) as [->|]; [congruence|simplify_map_eq; eauto]).
    + intros k r Hr'. destruct (Hnew _ _ Hr') as [Hold|]; [|by right].
      destruct (decide (k = k0)) as [->|]; [by right|left; by simplify_map_eq].
  - destruct Hs as [H1 H2 H3 H4 H5 H6 H7]. split; cbn [documents knowledge_chunks parent_chunks reindex_jobs reindex_job_items summaries summary_jobs with_parents]; auto.
    + intros k c Hc. destruct (H2 _ _ Hc) as (? & ? & Hpar). split_and!; [done|done|].
      intros q Hq. destruct (Hpar q Hq) as (kp & r & Hkp & ? & ?). exists kp, r. split_and!; [|done|done].
      destruct (decide (kp = k0)) as [->|]; [congruence|by simplify_map_eq].
    + intros k r Hr'. destruct (decide (k = k0)) as [->|]; simplify_map_eq; [exact Hown|by apply H3].
  - exact Hu.
Qed.

(** A chunk's parent, among the rows of its document. *)
Definition parent_within ctx (id : text) d (c : Chunk) : Prop :=
  ∀ p, ck_parent_id c = Some p → ∀ k r, parent_chunks d !! k = Some r → pa_id r = p → k.1 = id.

Lemma insert_chunks_sound ctx id rows d u d' :
  sound d → under ctx id d → Forall (λ c, ck_document_id c = id ∧ parent_within ctx id d c) rows →
  insert_chunks ctx rows d = Ok (u, d') →
  sound d' ∧ documents d' = documents d ∧ parent_chunks d' = parent_chunks d ∧
  (∀ k, k ≠ id → ∀ ws, count_chunks k ws d' = count_chunks k ws d) ∧
  (∀ k c, knowledge_chunks d' !! k = Some c → knowledge_chunks d !! k = Some c ∨ k.1 = id) ∧
  summary_jobs d' = summary_jobs d ∧ processed_events d' = processed_events d ∧ outbox_rows d' = outbox_rows d.
Proof.
  intros Hs Hu Hf. revert d Hs Hu Hf. induction rows as [|c rows IH]; intros d Hs Hu Hf; cbn [insert_chunks].
  { intros [= _ <-]. split_and!; auto. }
  apply Forall_cons in Hf as [[Hc Hpar] Hf].
  unfold mine. case_bool_decide as Hw; [|done]. cbn [negb]. case_bool_decide as Hk; [by apply IH|].
  destruct (bool_decide (documents d !! ck_document_id c = None)) eqn:Hd; [done|]. apply bool_decide_eq_false in Hd. cbn [orb].
  destruct (has_parent_row c d) eqn:Hhp; [|done]. cbn [negb]. set (k0 := (ck_document_id c, ck_seq c)) in *.
  assert (knowledge_chunks d !! k0 = None) as Hnone by (destruct (knowledge_chunks d !! k0); [destruct Hk; eauto|done]).
  assert (owner d (ck_document_id c) = Some (ck_workspace_id c)) as Hown.
  { destruct (owner d (ck_document_id c)) as [ws|] eqn:Ho; [|unfold owner in Ho; by destruct (documents d !! _)].
    rewrite Hc in Ho. by rewrite (Hu _ Ho), Hw. }
  intros Hr. apply IH in Hr as (Hs' & Hd' & Hp' & Hcount & Hnew & Hj & Hpe & Ho).
  - cbn [documents knowledge_chunks with_chunks parent_chunks summary_jobs processed_events outbox_rows] in *. split_and!; try done.
    + intros k Hne ws. rewrite Hcount by done. unfold count_chunks. cbn [knowledge_chunks with_chunks].
      rewrite map_to_list_insert by done. cbn [List.filter fst snd].
      rewrite bool_decide_false by (cbn; congruence). done.
    + intros k x Hx. destruct (Hnew _ _ Hx) as [Hold|]; [|by right].
      destruct (decide (k = k0)) as [->|]; [by right|left; by simplify_map_eq].
  - destruct Hs as [H1 H2 H3 H4 H5 H6 H7]. split; cbn [documents knowledge_chunks parent_chunks reindex_jobs reindex_job_items summaries summary_jobs with_chunks]; auto.
    intros k x Hx. destruct (decide (k = k0)) as [->|]; simplify_map_eq; [|by apply H2]. split_and!; [done|exact Hown|].
    intros q Hq. unfold has_parent_row in Hhp. rewrite Hq in Hhp.
    apply existsb_exists in Hhp as (r & Hrin & Heq%bool_decide_eq_true). apply list_elem_of_In, list_elem_of_fmap in Hrin as ([kp r'] & -> & Hin).
    apply elem_of_map_to_list in Hin. exists kp, r'. split_and!; [done|done|]. by eapply (Hpar q Hq).
  - exact Hu.
  - eapply Forall_impl; [exact Hf|]. cbn. intros x [? ?]. split; [done|]. intros q Hq. by eauto.
Qed.

(** *** Re-index jobs *)

Ltac sound_tables := cbn [documents knowledge_chunks parent_chunks reindex_jobs reindex_job_items summaries summary_jobs
  with_documents with_chunks with_parents with_reindex_jobs with_items with_summaries with_summary_jobs] in *.

(** What a statement that leaves documents and chunks alone does not change. *)
Definition same_corpus d d' : Prop :=
  documents d' = documents d ∧ knowledge_chunks d' = knowledge_chunks d.

Lemma same_corpus_counted d d' : same_corpus d d' → counted d → counted d'.
Proof.
  intros [Hd Hc] Hcount k r. rewrite Hd. intros Hr Hi. rewrite (count_chunks_ext _ _ d) by done. by apply Hcount.
Qed.

Lemma insert_reindex_job_sound ctx j d u d' :
  sound d → insert_reindex_job ctx j d = Ok (u, d') → sound d' ∧ same_corpus d d'.
Proof.
  unfold insert_reindex_job. intros [H1 H2 H3 H4 H5 H6 H7]. destruct (mine ctx _); [|done]. cbn [negb].
  case_bool_decide as Hn; [done|]. intros [= _ <-]. split; [|done]. split; sound_tables; auto.
  intros k r Hr. destruct (H4 _ _ Hr) as [? Hj]. split; [done|].
  destruct (decide (k.1 = rj_id j)) as [Heq|]; [|by simplify_map_eq].
  rewrite Heq in Hj. destruct (reindex_jobs d !! rj_id j); [destruct Hn; eauto|done].
Qed.

Lemma insert_items_sound ctx j items d u d' :
  sound d → (∀ r, reindex_jobs d !! rj_id j = Some r → jr_workspace_id r = rj_workspace_id j) →
  (∀ i, i ∈ items → under ctx (ri_document_id i) d) →
  insert_items ctx j items d = Ok (u, d') → sound d' ∧ same_corpus d d' ∧ summary_jobs d' = summary_jobs d ∧
    processed_events d' = processed_events d ∧ outbox_rows d' = outbox_rows d.
Proof.
  revert d; induction items as [|i items IH]; intros d Hs Hj Hu; cbn [insert_items]; [by intros [= _ <-]|].
  unfold mine. case_bool_decide as Hw; [|done]. cbn [negb]. case_bool_decide as Hk; [done|].
  destruct (bool_decide (reindex_jobs d !! rj_id j = None)) eqn:Hjn; [done|]. apply bool_decide_eq_false in Hjn. cbn [orb].
  case_bool_decide as Hdn; [done|]. intros Hr. apply IH in Hr; [exact Hr| |exact Hj|].
  - destruct Hs as [H1 H2 H3 H4 H5 H6 H7]. split; sound_tables; auto. intros k r Hr'.
    destruct (decide (k = (rj_id j, ri_document_id i))) as [->|]; simplify_map_eq; [|by apply H4]. cbn [fst snd ir_workspace_id]. split.
    + unfold owner. sound_tables. destruct (documents d !! ri_document_id i) as [x|] eqn:Hx; [|done]. cbn. f_equal. rewrite Hw.
      apply (Hu i); [by left|]. unfold owner. by rewrite Hx.
    + destruct (reindex_jobs d !! rj_id j) as [x|] eqn:Hx; [|done]. cbn. f_equal. by apply Hj.
  - intros x Hx. apply Hu. by right.
Qed.

Lemma update_cancelled_sound ctx id at_ d u d' :
  sound d → update_cancelled ctx id at_ d = Ok (u, d') → sound d' ∧ same_corpus d d'.
Proof.
  unfold update_cancelled. intros Hs [= _ <-]. destruct (own _ _ _) as [r|] eqn:Hr; [|done].
  apply own_Some in Hr as [Hr _]. split; [|done]. destruct Hs as [H1 H2 H3 H4 H5 H6 H7]. split; sound_tables; auto.
  intros k x Hx. destruct (H4 _ _ Hx) as [? Hj]. split; [done|]. destruct (decide (k.1 = id)) as [Heq|]; [|by simplify_map_eq].
  rewrite Heq in *. simplify_map_eq. cbn in *. congruence.
Qed.

(** *** Summaries *)

Lemma upsert_summary_sound ctx s d u d' :
  sound d → under ctx (su_document_id s) d → upsert_summary ctx s d = Ok (u, d') →
  sound d' ∧ same_corpus d d' ∧ summary_jobs d' = summary_jobs d ∧ processed_events d' = processed_events d ∧
  outbox_rows d' = outbox_rows d.
Proof.
  unfold upsert_summary, mine. intros Hs Hu. case_bool_decide as Hw; [|done]. cbn [negb].
  destruct (summaries d !! key_of_summary s) as [r|] eqn:Hr.
  - case_bool_decide as Hrw; [|done]. intros [= _ <-]. split; [|done].
    destruct Hs as [H1 H2 H3 H4 H5 H6 H7]. split; sound_tables; auto. intros k x Hx.
    destruct (decide (k = key_of_summary s)) as [->|]; simplify_map_eq; [exact (H5 _ r Hr)|by apply H5].
  - case_bool_decide as Hd; [done|]. intros [= _ <-]. split; [|done].
    destruct Hs as [H1 H2 H3 H4 H5 H6 H7]. split; sound_tables; auto. intros k x Hx.
    destruct (decide (k = key_of_summary s)) as [->|]; [rewrite lookup_insert_eq in Hx|by simplify_map_eq; apply H5].
    injection Hx as <-. split; [done|]. cbn. rewrite Hw. unfold owner. sound_tables. destruct (documents d !! su_document_id s) as [y|] eqn:Hy; [|done]. cbn. f_equal.
    apply Hu. unfold owner. by rewrite Hy.
Qed.

Lemma with_fewer_summaries_sound t d : sound d → t ⊆ summaries d → sound (with_summaries t d) ∧ same_corpus d (with_summaries t d).
Proof.
  intros [H1 H2 H3 H4 H5 H6 H7] Ht. split; [|done]. split; sound_tables; auto. intros k s Hk. by apply H5, (lookup_weaken _ _ _ _ Hk).
Qed.

Lemma delete_summary_sound ctx id k l d : sound d → sound (delete_summary ctx id k l d).2 ∧ same_corpus d (delete_summary ctx id k l d).2.
Proof.
  intros Hs. unfold delete_summary. destruct (select_summary _ _ _ _ _); [|done].
  apply with_fewer_summaries_sound; [done|apply delete_subseteq].
Qed.

(** *** Summary jobs *)

Lemma key_taken_spec j d : key_taken j d = false → active_job j = true →
  ∀ id r, summary_jobs d !! id = Some r → active_job r = true → key_of_job r = key_of_job j → id = sj_id j.
Proof.
  unfold key_taken. intros Ht Hj id r Hr Hact Hkey. rewrite Hj in Ht. cbn [andb] in Ht.
  destruct (decide (id = sj_id j)) as [|Hne]; [done|].
  assert (existsb (λ kr, negb (bool_decide (kr.1 = sj_id j)) && active_job kr.2 && bool_decide (key_of_job kr.2 = key_of_job j))
            (map_to_list (summary_jobs d)) = true) as Hex; [|congruence].
  apply existsb_exists. exists (id, r). split; [by apply list_elem_of_In, elem_of_map_to_list|]. cbn.
  by rewrite bool_decide_false, Hact, bool_decide_true.
Qed.

(** A row written under its key, which no other active row has. *)
Lemma with_job_sound j d : sound d → (active_job j = true → key_taken j d = false) →
  sound (with_summary_jobs (<[sj_id j := j]> (summary_jobs d)) d) ∧ same_corpus d (with_summary_jobs (<[sj_id j := j]> (summary_jobs d)) d).
Proof.
  intros [H1 H2 H3 H4 H5 H6 H7] Ht. split; [|done]. split; sound_tables; auto.
  - intros k x Hx. destruct (decide (k = sj_id j)) as [->|]; simplify_map_eq; [done|by apply H6].
  - intros id id' x y Hx Hy Hax Hay Hk.
    rewrite lookup_insert_Some in Hx, Hy. destruct Hx as [[<- <-]|[Hne Hx]], Hy as [[<- <-]|[Hne' Hy]]; [done| | |by eapply H7].
    + symmetry. by apply (key_taken_spec j d (Ht Hax) Hax id' y).
    + by apply (key_taken_spec j d (Ht Hay) Hay id x).
Qed.

Lemma insert_job_sound ctx j d u d' : sound d → insert_job ctx j d = Ok (u, d') → sound d' ∧ same_corpus d d'.
Proof.
  unfold insert_job. intros Hs. destruct (mine ctx _); [|done]. cbn [negb].
  destruct (key_taken j d) eqn:Ht; [by rewrite orb_true_r|]. rewrite orb_false_r. case_bool_decide; [done|].
  intros [= _ <-]. by apply with_job_sound.
Qed.

Lemma update_job_sound ctx j now d u d' : sound d → update_job ctx j now d = Ok (u, d') → sound d' ∧ same_corpus d d'.
Proof.
  unfold update_job. intros Hs. destruct (select_job ctx (sj_id j) d) as [r|] eqn:Hr; [|by intros [= _ <-]].
  apply own_Some in Hr as [Hr _]. pose proof (snd_jobs _ Hs _ _ Hr) as Hid.
  destruct (key_taken _ d) eqn:Ht; [done|]. intros [= _ <-].
  change (sj_id j) with (sj_id j). rewrite <- Hid.
  change (sj_id r) with (sj_id (saved_job j now r)). by apply with_job_sound.
Qed.

Lemma update_progress_sound ctx id n now d u d' : sound d → update_progress ctx id n now d = Ok (u, d') → sound d' ∧ same_corpus d d'.
Proof.
  unfold update_progress. intros Hs [= _ <-]. destruct (select_job ctx id d) as [r|] eqn:Hr; [|done].
  apply own_Some in Hr as [Hr _]. case_bool_decide as Hst; [|done]. split; [|done].
  destruct Hs as [H1 H2 H3 H4 H5 H6 H7]. split; sound_tables; auto.
  - intros k x Hx. destruct (decide (k = id)) as [->|]; simplify_map_eq; [by apply (H6 _ r)|by apply H6].
  - intros i i' x y Hx Hy Hax Hay Hk.
    rewrite lookup_insert_Some in Hx, Hy. destruct Hx as [[<- <-]|[Hne Hx]], Hy as [[<- <-]|[Hne' Hy]]; [done| | |by eapply H7].
    + by apply (H7 id i' r y).
    + by apply (H7 i id x r).
Qed.

(** *** Purges *)

Section Purges.
Context (ctx : ExecutionContext) (s : Scope).

(** A document of the scope that the workspace has. *)
Definition goes d (id : text) : bool :=
  match select_document ctx id d with Some r => within s r | None => false end.

Lemma goes_Some d id : goes d id = true ↔
  ∃ r, documents d !! id = Some r ∧ doc_workspace_id r = workspace_id ctx ∧ within s r = true.
Proof.
  unfold goes, select_document. destruct (own _ _ _) as [r|] eqn:Hr.
  - apply own_Some in Hr as [-> Hw]. naive_solver.
  - split; [done|]. intros (r & Hd & Hw & _). assert (own ctx doc_workspace_id (documents d !! id) = Some r) by by apply own_Some.
    congruence.
Qed.

(** The rows of such documents are those the statements are about. *)
Lemma about_goes d id : sound d → owner d id = Some (workspace_id ctx) → about ctx s id d = goes d id.
Proof.
  intros Hs Ho. unfold about, goes. destruct s as [k|k|k]; [|done|done].
  unfold owner in Ho. destruct (documents d !! id) as [r|] eqn:Hr; [|done]. cbn in Ho. injection Ho as Hw.
  assert (select_document ctx id d = Some r) as -> by by apply own_Some.
  unfold within. by rewrite (snd_documents _ Hs _ _ Hr).
Qed.

Definition kept {A} d (doc : A → text) (x : A) : Prop := goes d (doc x) = false.

(** What is left of the tables of the documents that go. *)
Definition purged d : KnowledgeDb :=
  mk_KnowledgeDb (filter (λ kr, goes d kr.1 = false) (documents d))
    (filter (λ kr, goes d kr.1.1 = false) (knowledge_chunks d))
    (filter (λ kr, goes d kr.1.1 = false) (parent_chunks d)) (reindex_jobs d)
    (filter (λ kr, goes d kr.1.2 = false) (reindex_job_items d))
    (filter (λ kr, goes d kr.1.1.1 = false) (summaries d)) (summary_jobs d) (processed_events d) (outbox_rows d).

Definition purge_of d : result DbFault (list text * KnowledgeDb) :=
  drop_documents ctx s (drop_chunks ctx s (drop_items ctx s (drop_summaries ctx s d))).

Lemma about_docs d d' id : documents d' = documents d → about ctx s id d' = about ctx s id d.
Proof. unfold about, select_document. by intros ->. Qed.

Lemma goes_docs d d' id : documents d' = documents d → goes d' id = goes d id.
Proof. unfold goes, select_document. by intros ->. Qed.

(** Filtering a table's own rows about the scope drops those of the documents that go. *)
Lemma filter_about {K A} `{Countable K} (t : gmap K A) (ws : A → text) (doc : K → text) d d' :
  sound d → documents d' = documents d → (∀ k x, t !! k = Some x → owner d (doc k) = Some (ws x)) →
  filter (λ kr, (mine ctx (ws kr.2) && about ctx s (doc kr.1) d') = false) t =
  filter (λ kr, goes d (doc kr.1) = false) t.
Proof.
  intros Hs Hd Ht. apply map_filter_ext. intros k x Hx. cbn. rewrite (about_docs d) by done.
  pose proof (Ht _ _ Hx) as Ho. unfold mine. case_bool_decide as Hw; cbn [andb].
  - rewrite about_goes; [done|done|by rewrite Ho, Hw].
  - split; [|done]. intros _. destruct (goes d (doc k)) eqn:Hg; [|done]. apply goes_Some in Hg as (r & Hr & Hrw & _).
    unfold owner in Ho. rewrite Hr in Ho. cbn in Ho. congruence.
Qed.

Lemma drops_eq d : sound d →
  drop_chunks ctx s (drop_items ctx s (drop_summaries ctx s d)) =
  mk_KnowledgeDb (documents d) (knowledge_chunks (purged d)) (parent_chunks d) (reindex_jobs d)
    (reindex_job_items (purged d)) (summaries (purged d)) (summary_jobs d) (processed_events d) (outbox_rows d).
Proof.
  intros Hs. unfold drop_chunks, drop_items, drop_summaries, purged, with_chunks, with_items, with_summaries.
  cbn [documents knowledge_chunks parent_chunks reindex_jobs reindex_job_items
       summaries summary_jobs processed_events outbox_rows]. f_equal.
  - apply (filter_about _ ck_workspace_id fst d); [done|done|]. intros k c Hc. by apply (snd_chunks _ Hs).
  - apply (filter_about _ ir_workspace_id snd d); [done|done|]. intros k r Hr. by apply (snd_items _ Hs).
  - apply (filter_about _ su_workspace_id (λ k, k.1.1) d); [done|done|]. intros k x Hx. by apply (snd_summaries _ Hs).
Qed.

Lemma dropped_goes d id r : sound d → documents d !! id = Some r →
  mine ctx (doc_workspace_id r) && within s r = goes d id.
Proof.
  intros Hs Hr. unfold goes, select_document, own, mine. rewrite Hr. by case_bool_decide.
Qed.

Lemma existsb_false {A} (p : A → bool) l : existsb p l = false ↔ ∀ x, x ∈ l → p x = false.
Proof.
  induction l as [|y l IH]; cbn; [split; [intros _ x Hx; by apply not_elem_of_nil in Hx|done]|].
  rewrite orb_false_iff, IH. split.
  - intros [Hy Hl] x [->|Hx]%elem_of_cons; auto.
  - intros Hl. split; [apply Hl; by left|]. intros x Hx. apply Hl. by right.
Qed.

Lemma has_parent_row_spec c d : has_parent_row c d = true ↔
  ∀ p, ck_parent_id c = Some p → ∃ k r, parent_chunks d !! k = Some r ∧ pa_id r = p.
Proof.
  unfold has_parent_row. destruct (ck_parent_id c) as [q|]; [|split; [intros _ p [=]|done]]. rewrite existsb_exists. split.
  - intros (r & Hr & Heq%bool_decide_eq_true) p [= <-].
    apply list_elem_of_In, list_elem_of_fmap in Hr as ([k r'] & -> & Hin). apply elem_of_map_to_list in Hin. by exists k, r'.
  - intros Hp. destruct (Hp q eq_refl) as (k & r & Hr & Heq). exists r. split; [|by apply bool_decide_eq_true].
    apply list_elem_of_In, list_elem_of_fmap. exists (k, r). split; [done|]. by apply elem_of_map_to_list.
Qed.

Lemma filter_size {K A} `{Countable K} (p : K * A → bool) (m : gmap K A) :
  length (List.filter p (map_to_list m)) = size (filter (λ kx, p kx = true) m).
Proof.
  induction m as [|k x m Hk IH] using map_ind; [done|].
  rewrite map_to_list_insert by done. cbn [List.filter]. destruct (p (k, x)) eqn:Hp.
  - rewrite map_filter_insert_True by done. cbn [length]. rewrite IH, map_size_insert_None; [done|].
    apply map_lookup_filter_None. by left.
  - rewrite map_filter_insert_False, delete_id by (done || by rewrite Hp). exact IH.
Qed.

Lemma purged_sound d : sound d → sound (purged d) ∧ (counted d → counted (purged d)).
Proof.
  intros Hs. assert (∀ k ws, owner d k = Some ws → goes d k = false → owner (purged d) k = Some ws) as Ho.
  { intros k ws Hk Hg. unfold owner in *. destruct (documents d !! k) as [r|] eqn:Hr; [|done]. cbn [documents purged].
    assert (filter (λ kr, goes d kr.1 = false) (documents d) !! k = Some r) as -> by by apply map_lookup_filter_Some. done. }
  split.
  - destruct Hs as [H1 H2 H3 H4 H5 H6 H7]. split; cbn [documents knowledge_chunks parent_chunks reindex_jobs reindex_job_items
      summaries summary_jobs purged]; auto.
    + intros k r [Hr _]%map_lookup_filter_Some. by apply H1.
    + intros k c [Hc Hg]%map_lookup_filter_Some. destruct (H2 _ _ Hc) as (? & ? & Hp). split_and!; [done|by apply Ho|].
      intros p Heq. destruct (Hp p Heq) as (kp & r & Hr & ? & Hk). exists kp, r. split_and!; [|done|done].
      apply map_lookup_filter_Some. split; [done|]. cbn in *. by rewrite Hk.
    + intros k r [Hr Hg]%map_lookup_filter_Some. apply Ho; [by apply H3|done].
    + intros k r [Hr Hg]%map_lookup_filter_Some. destruct (H4 _ _ Hr). split; [by apply Ho|done].
    + intros k x [Hx Hg]%map_lookup_filter_Some. destruct (H5 _ _ Hx). split; [done|by apply Ho].
  - intros Hc k r. cbn [documents purged]. intros [Hr Hg]%map_lookup_filter_Some Hi. rewrite (Hc _ _ Hr Hi).
    unfold count_chunks. rewrite !filter_size. cbn [knowledge_chunks purged]. do 2 f_equal.
    rewrite map_filter_filter. apply map_filter_ext. intros [k' q] c _. cbn in *. split; [|by intros [? _]].
    intros Hp. split; [done|]. apply andb_true_iff in Hp as [->%bool_decide_eq_true _]. done.
Qed.

(** A purge is never refused: it takes the documents of its scope, all that hangs under them
    and nothing else. *)
Lemma purge_of_Ok d : sound d →
  ∃ ids, purge_of d = Ok (ids, purged d) ∧ ∀ id, id ∈ ids ↔ goes d id = true.
Proof.
  intros Hs. unfold purge_of. rewrite drops_eq by done. unfold drop_documents. cbv zeta.
  set (d1 := mk_KnowledgeDb _ _ _ _ _ _ _ _ _).
  set (ids := (List.filter _ (map_to_list (documents d1))).*1).
  assert (∀ id, id ∈ ids ↔ goes d id = true) as Hids.
  { intros id. unfold ids. rewrite list_elem_of_fmap. split.
    - intros ([k r] & -> & [Hin%elem_of_map_to_list Hp]%elem_of_list_filter_bool). cbn in *. by rewrite (dropped_goes d k) in Hp.
    - intros Hg. pose proof Hg as (r & Hr & _)%goes_Some. exists (id, r). split; [done|]. apply elem_of_list_filter_bool.
      split; [by apply elem_of_map_to_list|]. cbn. by rewrite (dropped_goes d id). }
  exists ids. split; [|done].
  set (d2 := with_parents _ _).
  assert (d2 = purged d) as Hd2.
  { unfold d2, d1, purged, with_parents, with_documents. cbn [documents knowledge_chunks parent_chunks reindex_jobs
      reindex_job_items summaries summary_jobs processed_events outbox_rows]. f_equal.
    - apply map_filter_ext. intros k r Hr. cbn. by rewrite (dropped_goes d k).
    - apply map_filter_ext. intros k r Hr. cbn. rewrite Hids. by destruct (goes d k.1). }
  assert (existsb (λ id, referenced id d1) ids = false) as ->.
  { apply existsb_false. intros id Hid%Hids. unfold referenced, d1. cbn.
    rewrite !orb_false_iff, !existsb_false. split_and!; intros k ([k' x] & -> & Hin%elem_of_map_to_list)%list_elem_of_fmap;
      apply map_lookup_filter_Some in Hin as [_ Hg]; cbn in *; apply bool_decide_eq_false; congruence. }
  assert (forallb (λ kc, has_parent_row kc.2 d2) (map_to_list (knowledge_chunks d1)) = true) as ->.
  { apply forallb_forall. intros [k c] Hin%list_elem_of_In%elem_of_map_to_list. apply has_parent_row_spec.
    intros p Hp. rewrite Hd2. destruct (purged_sound d Hs) as [[_ H2 _ _ _ _ _] _].
    destruct (H2 k c Hin) as (_ & _ & Hpar). destruct (Hpar p Hp) as (kp & r & ? & ? & _). by exists kp, r. }
  cbn [orb negb]. by rewrite Hd2.
Qed.
End Purges.
