(* ===== verification/KnowledgePorts.v ===== *)
(** * KnowledgePorts: the adapters of the knowledge module

    The methods of [SqlDocumentRepository], [SqlReindexJobRepository], [SqlSummaryRepository]
    and [SqlSummaryJobRepository], the ledger, the lock, and the outbox with the module's event
    mapping. *)

From S2P Require Import Prelude Text Calendar Errors Framework Transactions Files Keyset Events Wire Cursor Tables Streams Engine Outbox Knowledge KnowledgeDb.

Open Scope Z_scope.

Definition not_found_exn : exn := App (raise_class NotFoundError).
Definition validation_exn : exn := App (raise_class ValidationError).

Definition SOURCE : text := txt "knowledge".
Definition STREAM : text := txt "stream.knowledge".
Definition CG_KNOWLEDGE : text := txt "cg.knowledge".

(** The name and the [data] of an event, the aggregate it is about, its workspace and instant. *)
Record Mapped := mk_Mapped {
  mp_type : text; mp_data : list (text * json); mp_aggregate : text; mp_id : text; mp_workspace : text; mp_at : instant
}.

Definition mapped (e : KnowledgeEvent) : Mapped :=
  match e with
  | DocumentRegistered id ws file at_ =>
      mk_Mapped (txt "knowledge.document.registered.v1")
        [(txt "document_id", JStr id); (txt "file_id", JStr file)] (txt "document") id ws at_
  | DocumentIndexed id ws _ n _ at_ =>
      mk_Mapped (txt "knowledge.document.indexed.v1")
        [(txt "document_id", JStr id); (txt "chunk_count", JInt n)] (txt "document") id ws at_
  | DocumentIndexingFailed id ws reason at_ =>
      mk_Mapped (txt "knowledge.document.indexing_failed.v1")
        [(txt "document_id", JStr id); (txt "reason", JStr reason)] (txt "document") id ws at_
  | SummaryRequested id ws doc kind lang conv at_ =>
      mk_Mapped (txt "knowledge.summary.requested.v1")
        ([(txt "job_id", JStr id); (txt "document_id", JStr doc); (txt "kind", JStr kind); (txt "lang", JStr lang)] ++
         opt_field (txt "conversation_id") conv) (txt "summary_job") id ws at_
  | SummaryBuilt id ws doc kind lang conv at_ =>
      mk_Mapped (txt "knowledge.summary.built.v1")
        ([(txt "job_id", JStr id); (txt "document_id", JStr doc); (txt "kind", JStr kind); (txt "lang", JStr lang)] ++
         opt_field (txt "conversation_id") conv) (txt "summary_job") id ws at_
  | SummaryBuildFailed id ws doc reason conv at_ =>
      mk_Mapped (txt "knowledge.summary.build_failed.v1")
        ([(txt "job_id", JStr id); (txt "document_id", JStr doc); (txt "reason", JStr reason)] ++
         opt_field (txt "conversation_id") conv) (txt "summary_job") id ws at_
  end.

Section Adapters.
Context {V : Type} `{Env, DB : Database, Jsonb}.
Abbreviation W := (DbWorld KnowledgeDb V).
Abbreviation io A := (eff W exn A).
Abbreviation session A := (eff W DbFault A).

(** One method of an adapter, and its statements: one that writes, one that needs [now()],
    one that reads. *)
Definition repo {A} (ctx : ExecutionContext) (body : session A) : io A := adapter knowledge_error ctx body.
Definition stmt {A} (q : KnowledgeDb → result DbFault (A * KnowledgeDb)) : session A := execute q.
Definition stmt_now {A} (q : instant → KnowledgeDb → result DbFault (A * KnowledgeDb)) : session A :=
  λ w, execute (q (began w)) w.
Definition rows {A} (q : KnowledgeDb → A) : session A := execute (λ d, Ok (q d, d)).
Definition command (q : KnowledgeDb → KnowledgeDb) : session unit := execute (λ d, Ok (tt, q d)).

(** [SqlDocumentRepository] *)
Definition get_document (ctx : ExecutionContext) (id : text) : io (option Document) := repo ctx (rows (select_document ctx id)).

Definition list_documents (ctx : ExecutionContext) (space_id : option text) (limit : nat) (cursor : option text)
    : io (Page Document text) :=
  after ← eff_lift (match cursor with
                    | Some c => id ← decode_id_cursor c; Ok (Some id)
                    | None => Ok None
                    end);
  fetched ← repo ctx (rows (select_documents ctx space_id limit after));
  let p := paginate fst fetched limit in
  next ← eff_lift (match next_cursor p with
                   | Some last_id => c ← encode_id_cursor last_id; Ok (Some c)
                   | None => Ok None
                   end);
  eff_ret _ (mk_Page (page_data p).*2 next).

Definition count_of_documents (ctx : ExecutionContext) (space_id : option text) : io Z :=
  repo ctx (rows (count_documents ctx space_id)).

Definition ids_for_files (ctx : ExecutionContext) (file_ids : list text) : io (list text) :=
  if bool_decide (file_ids = []) then eff_ret _ [] else repo ctx (rows (select_ids_for_files ctx file_ids)).

Definition add_document (ctx : ExecutionContext) (d : Document) : io unit := repo ctx (stmt (insert_document ctx d)).

Definition set_status (ctx : ExecutionContext) (id : text) (s : IndexStatus) (error : option text) (c : Completion) : io unit :=
  repo ctx (stmt_now (update_status ctx id s error c)).

Definition vector_refs (ctx : ExecutionContext) (s : Scope) : io (list VectorRef) := repo ctx (rows (select_refs ctx s)).

Definition chunk_texts (ctx : ExecutionContext) (id : text) : io (list text) := repo ctx (rows (select_chunk_texts ctx id)).

Definition add_chunks (ctx : ExecutionContext) (cs : list Chunk) : io unit :=
  if bool_decide (cs = []) then eff_ret _ tt else repo ctx (stmt (insert_chunks ctx cs)).
Definition add_parent_chunks (ctx : ExecutionContext) (ps : list ParentChunk) : io unit :=
  if bool_decide (ps = []) then eff_ret _ tt else repo ctx (stmt (insert_parents ctx ps)).

(** [purge] *)
Definition purge (ctx : ExecutionContext) (id : text) : io unit :=
  repo ctx (_ ← command (drop_summaries ctx (OneDocument id));
            _ ← command (drop_items ctx (OneDocument id));
            _ ← command (drop_chunks ctx (OneDocument id));
            _ ← stmt (drop_documents ctx (OneDocument id));
            eff_ret _ tt).

(** [purge_space] and [purge_file] *)
Definition purge_scope (ctx : ExecutionContext) (s : Scope) : io Z :=
  deleted ← repo ctx (_ ← command (drop_summaries ctx s);
                      _ ← command (drop_summary_jobs ctx s);
                      _ ← command (drop_items ctx s);
                      _ ← command (drop_chunks ctx s);
                      deleted ← stmt (drop_documents ctx s);
                      _ ← stmt (drop_empty_jobs ctx);
                      eff_ret _ deleted);
  eff_ret _ (Z.of_nat (length deleted)).

(** [SqlReindexJobRepository] *)
Definition add_reindex_job (ctx : ExecutionContext) (j : ReindexJob) : io unit :=
  repo ctx (_ ← stmt (insert_reindex_job ctx j);
            if bool_decide (rj_items j = []) then eff_ret _ tt else stmt (insert_items ctx j (rj_items j))).
Definition get_reindex_job (ctx : ExecutionContext) (id : text) : io (option ReindexJob) :=
  repo ctx (rows (select_reindex_job ctx id)).
Definition mark_cancelled (ctx : ExecutionContext) (id : text) (at_ : instant) : io unit :=
  repo ctx (stmt (update_cancelled ctx id at_)).

(** [SqlSummaryRepository] *)
Definition get_summary (ctx : ExecutionContext) (document_id : text) k l : io (option Summary) :=
  repo ctx (rows (select_summary ctx document_id k l)).
Definition newest_in_other_language (ctx : ExecutionContext) (document_id : text) k l : io (option Summary) :=
  repo ctx (rows (select_newest_other ctx document_id k l)).
Definition upsert (ctx : ExecutionContext) (s : Summary) : io unit := repo ctx (stmt (upsert_summary ctx s)).
Definition remove_summary (ctx : ExecutionContext) (document_id : text) k l : io bool :=
  repo ctx (stmt (λ d, Ok (delete_summary ctx document_id k l d))).

(** [SqlSummaryJobRepository] *)
Definition add_job (ctx : ExecutionContext) (j : SummaryJob) : io unit := repo ctx (stmt (insert_job ctx j)).
Definition get_job (ctx : ExecutionContext) (id : text) : io (option SummaryJob) := repo ctx (rows (select_job ctx id)).
Definition active_for (ctx : ExecutionContext) (document_id : text) k l : io (option SummaryJob) :=
  repo ctx (rows (select_active ctx document_id k l)).
Definition count_active (ctx : ExecutionContext) : io Z := repo ctx (rows (count_active_jobs ctx)).
Definition save_job (ctx : ExecutionContext) (j : SummaryJob) : io unit := repo ctx (stmt_now (update_job ctx j)).
Definition record_progress (ctx : ExecutionContext) (id : text) (n : Z) : io unit :=
  repo ctx (stmt_now (update_progress ctx id n)).

(** [SqlEventOutbox.append]: no statement at all for no record. *)
Definition append_records (ctx : ExecutionContext) (records : list OutboxRecord) : io unit :=
  if bool_decide (records = []) then eff_ret _ tt
  else adapter translate_unique ctx (stmt_now (λ now, insert_records ctx now records)).

(** [SqlProcessedEventLedger.claim]: the INSERT under a SAVEPOINT. *)
Definition claim_event (ctx : ExecutionContext) (event_id : text) : io bool :=
  adapter (λ _, internal_exn) ctx (λ w,
    match execute (insert_claim CG_KNOWLEDGE event_id) w with
    | (Ok _, w') => (Ok true, w')
    | (Err (Dbapi (Some code)), w') =>
        (if bool_decide (code = txt "23505") then Ok false else Err (Dbapi (Some code)), w')
    | (Err f, w') => (Err f, w')
    end).

(** [to_outbox_record] *)
Definition to_outbox_record (ctx : ExecutionContext) (e : KnowledgeEvent) : io OutboxRecord :=
  event_id ← new_uuid7;
  let m := mapped e in
  payload ← eff_lift (build_envelope event_id SOURCE (mp_type m) (mp_id m) (mp_at m) (mp_workspace m)
              (JObj (mp_data m)) (Some (correlation_id ctx)) None);
  eff_ret _ (mk_OutboxRecord event_id (mp_aggregate m) (mp_id m) (mp_type m) STREAM payload).

Fixpoint records_of (ctx : ExecutionContext) (events : list KnowledgeEvent) : io (list OutboxRecord) :=
  match events with
  | [] => eff_ret _ []
  | e :: events =>
      r ← to_outbox_record ctx e;
      rs ← records_of ctx events;
      eff_ret _ (r :: rs)
  end.

(** [outbox.append(ctx, [to_outbox_record(ctx, event) for event in events])] *)
Definition publish (ctx : ExecutionContext) (events : list KnowledgeEvent) : io unit :=
  records ← records_of ctx events;
  append_records ctx records.

(** [AdvisoryQuotaLock.hold]: refused outside a unit of work; nothing translates its errors. *)
Definition hold (ctx : ExecutionContext) : io unit :=
  λ w, match active w with
       | Some _ => adapter (λ _, Other "DBAPIError") ctx (rows (λ _, tt)) w
       | None => (Err internal_exn, w)
       end.
End Adapters.
