(* ===== verification/KnowledgePurges.v ===== *)
(** * KnowledgePurges: what deleting a space or a file does to its documents

    [SqlDocumentRepository.purge_space] and [purge_file]: six statements in one transaction,
    against the removal at once of everything that belongs to the documents of the scope. *)

From S2P Require Import Prelude Text Calendar Errors Framework Transactions Sessions Files Keyset Events Wire Cursor Tables Streams Engine Outbox Knowledge KnowledgeDb KnowledgeSound KnowledgePorts.

Open Scope Z_scope.

Section Purges.
Context {V : Type} `{Env, DB : Database, Jsonb}.
Abbreviation W := (DbWorld KnowledgeDb V).
Context (ctx : ExecutionContext) (s : Scope).
Implicit Types (w : W) (d : KnowledgeDb).

(** The statements, one after the other. *)
Definition purging d : result DbFault (list text * KnowledgeDb) :=
  '(deleted, d') ← drop_documents ctx s (drop_chunks ctx s (drop_items ctx s (drop_summary_jobs ctx s (drop_summaries ctx s d))));
  '(_, d'') ← drop_empty_jobs ctx d';
  Ok (deleted, d'').

(** The removal at once: the documents that go, their chunks, parents, summaries, summary jobs
    and re-index items, and the runs of the workspace no item is left of. *)
Definition wiped d : KnowledgeDb :=
  let p := purged ctx s d in
  with_reindex_jobs (filter (λ kr, (mine ctx (jr_workspace_id kr.2) && negb (has_items ctx kr.1 p)) = false) (reindex_jobs d))
    (with_summary_jobs (filter (λ kr, (mine ctx (sj_workspace_id kr.2) && goes ctx s d (sj_document_id kr.2)) = false) (summary_jobs d)) p).

Lemma fewer_jobs_sound t d : sound d → t ⊆ summary_jobs d → sound (with_summary_jobs t d).
Proof.
  intros [H1 H2 H3 H4 H5 H6 H7] Ht. split; auto; cbn [with_summary_jobs summary_jobs].
  - intros id j Hj. apply H6. by eapply lookup_weaken.
  - intros id id' j j' Hj Hj'. apply H7; by eapply lookup_weaken.
Qed.

(** An empty run of the workspace has no item of anybody. *)
Lemma drop_empty_jobs_Ok d : sound d →
  drop_empty_jobs ctx d =
    Ok (tt, with_reindex_jobs (filter (λ kr, (mine ctx (jr_workspace_id kr.2) && negb (has_items ctx kr.1 d)) = false) (reindex_jobs d)) d).
Proof.
  intros Hs. unfold drop_empty_jobs. cbv zeta.
  set (dropped := λ kr : text * ReindexJobRow, mine ctx (jr_workspace_id kr.2) && negb (has_items ctx kr.1 d)).
  assert (existsb (λ k, bool_decide (k.1 ∈ (List.filter dropped (map_to_list (reindex_jobs d))).*1))
            (map_to_list (reindex_job_items d)).*1 = false) as ->; [|done].
  apply existsb_false. intros k ([k' x] & -> & Hx%elem_of_map_to_list)%list_elem_of_fmap. cbn [fst].
  apply bool_decide_eq_false. intros ([id r] & Hid & [Hr Hd]%elem_of_list_filter_bool)%list_elem_of_fmap. cbn in Hid. subst id.
  apply elem_of_map_to_list in Hr. unfold dropped in Hd. cbn [fst snd] in Hd. apply andb_true_iff in Hd as [Hm Hn].
  destruct (snd_items _ Hs _ _ Hx) as [_ Hws]. rewrite Hr in Hws. cbn in Hws. injection Hws as Hws. rewrite Hws in Hm.
  assert (has_items ctx k'.1 d = true) as Hi; [|by rewrite Hi in Hn].
  unfold has_items. apply existsb_exists. exists (k', x). split; [by apply list_elem_of_In, elem_of_map_to_list|].
  cbn. by rewrite bool_decide_true, Hm.
Qed.

Hypothesis Hscope : match s with OneDocument _ => False | _ => True end.

Lemma about_all id d : about ctx s id d = goes ctx s d id.
Proof. by destruct s. Qed.

Lemma drop_summary_jobs_after t d :
  drop_summary_jobs ctx s (with_summaries t d) =
  with_summaries t (with_summary_jobs
    (filter (λ kr, (mine ctx (sj_workspace_id kr.2) && goes ctx s d (sj_document_id kr.2)) = false) (summary_jobs d)) d).
Proof.
  unfold drop_summary_jobs, with_summary_jobs, with_summaries. cbn [documents knowledge_chunks parent_chunks reindex_jobs
    reindex_job_items summaries summary_jobs processed_events outbox_rows]. f_equal.
  apply map_filter_ext. intros k j _. cbn. by rewrite about_all.
Qed.

Lemma NoDup_filter_keys {A B} (p : A * B → bool) l : NoDup l.*1 → NoDup (List.filter p l).*1.
Proof.
  induction l as [|[a b] l IH]; cbn; [done|]. intros [Ha Hl]%NoDup_cons. destruct (p (a, b)); cbn; [|auto].
  apply NoDup_cons. split; [|auto]. intros ([a' b'] & -> & [Hin _]%elem_of_list_filter_bool)%list_elem_of_fmap.
  apply Ha, list_elem_of_fmap. by exists (a', b').
Qed.

(** One after the other is at once, and nothing refuses it. *)
Lemma purging_wiped d : sound d →
  ∃ ids, purging d = Ok (ids, wiped d) ∧ NoDup ids ∧ ∀ id, id ∈ ids ↔ goes ctx s d id = true.
Proof.
  intros Hs. unfold purging. unfold drop_summaries at 1. rewrite drop_summary_jobs_after.
  set (t := filter _ (summary_jobs d)). set (d1 := with_summary_jobs t d).
  assert (sound d1) as Hs1 by (apply fewer_jobs_sound; [done|apply map_filter_subseteq]).
  assert (with_summaries (filter (λ kr, (mine ctx (su_workspace_id kr.2) && about ctx s kr.1.1.1 d) = false) (summaries d)) d1
    = drop_summaries ctx s d1) as -> by done.
  destruct (purge_of_Ok ctx s d1 Hs1) as (ids & Hp & Hids). unfold purge_of in Hp. rewrite Hp. cbn.
  destruct (purged_sound ctx s d1 Hs1) as [Hsp _]. rewrite drop_empty_jobs_Ok by done. cbn.
  exists ids. split; [done|]. split; [|exact Hids].
  unfold drop_documents in Hp. destruct (_ || _) in Hp; [done|]. injection Hp as <- _.
  apply NoDup_filter_keys, NoDup_fst_map_to_list.
Qed.

Lemma wiped_sound d : sound d → sound (wiped d) ∧ (counted d → counted (wiped d)).
Proof.
  intros Hs. destruct (purged_sound ctx s d Hs) as [Hp Hc]. split; [|intros Hd; exact (Hc Hd)].
  assert (sound (with_summary_jobs (filter (λ kr, (mine ctx (sj_workspace_id kr.2) && goes ctx s d (sj_document_id kr.2)) = false)
    (summary_jobs d)) (purged ctx s d))) as Hj by (apply fewer_jobs_sound; [done|apply map_filter_subseteq]).
  destruct Hj as [H1 H2 H3 H4 H5 H6 H7]. split; auto. intros k r Hr. destruct (H4 k r Hr) as [Ho Hw]. split; [exact Ho|].
  unfold wiped. cbn [with_reindex_jobs with_summary_jobs reindex_jobs reindex_job_items purged] in *.
  destruct (reindex_jobs d !! k.1) as [x|] eqn:Hx; [|done].
  assert (filter (λ kr, (mine ctx (jr_workspace_id kr.2) && negb (has_items ctx kr.1 (purged ctx s d))) = false) (reindex_jobs d) !! k.1
    = Some x) as ->; [|done].
  apply map_lookup_filter_Some. split; [done|]. cbn in Hw. injection Hw as Hw. cbn [snd fst]. apply andb_false_iff.
  unfold mine at 1. case_bool_decide as Hm; [right|by left]. apply negb_false_iff, existsb_exists. exists (k, r).
  split; [by apply list_elem_of_In, elem_of_map_to_list|]. cbn. by rewrite bool_decide_true, <- Hw by done; unfold mine; rewrite bool_decide_true.
Qed.

Lemma purge_body_follows : ∃ q, follows (V := V)
    (_ ← command (drop_summaries ctx s); _ ← command (drop_summary_jobs ctx s); _ ← command (drop_items ctx s);
     _ ← command (drop_chunks ctx s); deleted ← stmt (drop_documents ctx s); _ ← stmt (drop_empty_jobs ctx); eff_ret _ deleted) q ∧
  ∀ d, q d = purging d.
Proof.
  assert (∀ q, follows (V := V) (command q) (λ d, Ok (tt, q d))) as Hc by (intros q; apply follows_execute).
  eexists. split.
  - do 4 (eapply follows_bind; [apply Hc|intros ?]). eapply follows_bind; [apply follows_execute|intros deleted].
    eapply follows_bind; [apply follows_execute|intros u']. apply follows_ret.
  - intros d. unfold purging. cbn [mbind result_bind]. by destruct (drop_documents _ _ _) as [[ids d']|].
Qed.

(** How many documents a purge takes. *)
Definition gone d : Z := Z.of_nat (size (filter (λ kr, goes ctx s d kr.1 = true) (documents d))).

Lemma gone_length ids d : NoDup ids → (∀ id, id ∈ ids ↔ goes ctx s d id = true) → Z.of_nat (length ids) = gone d.
Proof.
  intros Hnd Hids. unfold gone. f_equal. rewrite <- size_dom, <- (size_list_to_set (C := gset text)) by done.
  f_equal. apply set_eq. intros id. rewrite elem_of_list_to_set, Hids, elem_of_dom. split.
  - intros Hg. pose proof Hg as (r & Hr & _)%goes_Some. exists r. by apply map_lookup_filter_Some.
  - by intros [r [_ Hg]%map_lookup_filter_Some].
Qed.

(** C38: Deleting a space or a file leaves nothing of its documents.  The six statements either
    change nothing, or remove at once exactly the workspace's documents in scope with their
    chunks, parent chunks, summaries, summary jobs and re-index items, and the re-index runs
    nothing is left of; what remains is consistent, and indexed documents still count their
    chunks.  No foreign key ever refuses it: while the database answers, it is done, and it says
    how many documents went. *)
Theorem purges_leave_nothing w r w' :
  active w = None → sound (db w) → purge_scope ctx s w = (r, w') →
  ((is_ok r = false ∧ db w' = db w) ∨ (db w' = wiped (db w) ∧ (r = Ok (gone (db w)) ∨ is_ok r = false))) ∧
  ((∀ i, fault i = None) → r = Ok (gone (db w)) ∧ db w' = wiped (db w)) ∧
  sound (db w') ∧ (KnowledgeSound.counted (db w) → KnowledgeSound.counted (db w')).
Proof.
  intros Ha Hs. unfold purge_scope. destruct purge_body_follows as (q & [Hruns Hperf] & Hq).
  destruct (purging_wiped (db w) Hs) as (ids & Hp & Hnd & Hids). pose proof (gone_length _ _ Hnd Hids) as Hgone.
  destruct (wiped_sound (db w) Hs) as [Hws Hwc].
  intros Hr. assert ((is_ok r = false ∧ db w' = db w) ∨ (db w' = wiped (db w) ∧ (r = Ok (gone (db w)) ∨ is_ok r = false))) as Hcases.
  { apply eff_bind_run in Hr as [(e & Hb & ->)|(deleted & w1 & Hb & Hret)];
      (eapply (adapter_runs _ _ _ _ _ _ _ Hruns) in Hb as [_ [[Hn Hd]|(a & now & HR & Ho)]]; [| |done]).
    - by left.
    - right. rewrite Hq, Hp in HR. injection HR as _ <-. split; [done|by right].
    - done.
    - right. rewrite Hq, Hp in HR. injection HR as <- Hd. injection Hret as <- <-. split; [done|]. left.
      destruct Ho as [[= ->]|?]; [by rewrite Hgone|done]. }
  split; [exact Hcases|]. split.
  - intros Hquiet. rewrite <- Hq in Hp.
    destruct (adapter_performs knowledge_error ctx _ _ _ _ w Hperf Hquiet Ha Hp) as (w1 & Hb & Hd).
    apply eff_bind_run in Hr as [(e & Hx & _)|(deleted & w2 & Hx & Hret)]; unfold repo in Hx; rewrite Hb in Hx; [done|].
    injection Hx as <- <-. injection Hret as <- <-. by rewrite Hgone.
  - destruct Hcases as [[_ ->]|[-> _]]; by split.
Qed.
End Purges.
