(* ===== verification/SummaryJobs.v ===== *)
(** * SummaryJobs: asking for a summary, stopping it, building it

    The use cases of [modules/knowledge/application/use_cases.py] about summaries and their
    jobs, and the handler of [workers/bootstrap.py] that builds one.  The pipeline runs over
    the database and the job the worker holds in memory. *)

From S2P Require Import Prelude Text Calendar Errors Framework Transactions Files Keyset Events Wire Cursor Tables Streams Engine Outbox Knowledge Summarization KnowledgeDb KnowledgePorts.

Open Scope Z_scope.

Definition SUMMARY_CANCELLED_REASON : text := txt "the summary build was cancelled".
Definition SUMMARY_ABANDONED_REASON : text :=
  txt "the summary build stopped before it finished and was released so it can be asked for again".
Definition SUMMARY_EMPTY_BUILD_REASON : text := txt "the summary build produced no text".
Definition SUMMARY_NO_INDEXED_TEXT_REASON : text := txt "this document has no indexed text to summarise".
Definition DEFAULT_MAX_BUILD_DURATION : Z := 1800 * us_per_second.
Definition DEFAULT_MAX_ACTIVE_JOBS : Z := 3.

(** Who resolves the model that writes summaries; whether the time limit around a build is what
    cancelled it; and [str(exc)] of what other modules raise. *)
Class SummaryPorts (W : Type) := {
  resolve_summarizer : ExecutionContext → eff W exn ResolvedSummarizer;
  expired : W → bool;
  exn_text : exn → text
}.

(** [SummaryMetering]: the reason of a refusal or the metered model, and the settlement, which
    never raises. *)
Record Metering (W : Type) := mk_Metering {
  admit_build : ExecutionContext → ResolvedSummarizer → eff W exn (text + ResolvedSummarizer);
  settle_build : ExecutionContext → ResolvedSummarizer → W → W
}.
Arguments admit_build {W}.
Arguments settle_build {W}.

Definition state_exn (e : KnowledgeErr) : exn :=
  Other (match e with DocumentStateError => "DocumentStateError" | SummaryJobStateError => "SummaryJobStateError" end).

(** [_is_abandoned] *)
Definition is_abandoned (j : SummaryJob) (now : instant) (max_build_duration : Z) : bool :=
  bool_decide (sj_status j = RUNNING) && (max_build_duration <? now - sj_updated_at j).

(** [str.isalpha], [_is_arabic], [_is_latin] *)
Definition isalpha `{Unicode} (c : Z) : bool :=
  bool_decide (category c ∈ [txt "Lm"; txt "Lt"; txt "Lu"; txt "Ll"; txt "Lo"]).
Definition is_arabic (c : Z) : bool := (1536 <=? c) && (c <=? 1791).
Definition is_latin (c : Z) : bool :=
  ((97 <=? c) && (c <=? 122)) || ((65 <=? c) && (c <=? 90)) || ((192 <=? c) && (c <=? 591)).

(** [_detects_lang] *)
Definition detects_lang `{Unicode} (t : text) (l : SummaryLanguage) : bool :=
  match l with
  | AUTO => false
  | _ =>
      let written_in := match l with AR => is_arabic | _ => is_latin end in
      let letters := List.filter isalpha t in
      negb (bool_decide (letters = [])) && (len letters <? len (List.filter written_in letters) * 2)
  end.

Definition is_rtl `{Unicode} (s : Summary) : bool :=
  match su_lang s with AR => true | EN => false | AUTO => detects_lang (su_text s) AR end.

Record SummaryBuildPlan := mk_SummaryBuildPlan {
  pl_job : SummaryJob; pl_chunks : list text; pl_summarizer : ResolvedSummarizer; pl_translate_from : option Summary
}.
Record SummaryAttempt := mk_SummaryAttempt {
  at_job : SummaryJob; at_draft : option SummaryDraft; at_error : option text; at_cancelled : bool
}.

Section UseCases.
Context {V : Type} `{Env, DB : Database, Jsonb}.
Abbreviation W := (DbWorld KnowledgeDb V).
Abbreviation io A := (eff W exn A).

(** [RequestSummary.execute]: what an active job for the same key leads to. *)
Definition release (ctx : ExecutionContext) (max_build_duration : Z) (now : instant) (active : option SummaryJob)
    : io (list KnowledgeEvent) :=
  match active with
  | None => eff_ret _ []
  | Some j =>
      if is_abandoned j now max_build_duration then
        j' ← eff_lift (map_err state_exn (fail SUMMARY_ABANDONED_REASON now j));
        _ ← save_job ctx j';
        eff_ret _ [SummaryBuildFailed (sj_id j') (workspace_id ctx) (sj_document_id j') SUMMARY_ABANDONED_REASON None now]
      else eff_raise conflict_exn
  end.

Definition queued_job (ctx : ExecutionContext) (id document_id : text) (k : SummaryKind) (l : SummaryLanguage) (now : instant)
    : SummaryJob :=
  mk_SummaryJob id (workspace_id ctx) document_id k l QUEUED 0 0 None None None now now.

Definition RequestSummary (max_build_duration max_active_jobs : Z) (ctx : ExecutionContext) (document_id : text)
    (k : SummaryKind) (l : SummaryLanguage) (conversation_id : option text) : io (SummaryJob * list KnowledgeEvent) :=
  document ← get_document ctx document_id;
  match document with
  | None => eff_raise not_found_exn
  | Some doc =>
      if negb (bool_decide (doc_status doc = INDEXED)) then eff_raise conflict_exn
      else
        now ← utc_now;
        active ← active_for ctx document_id k l;
        events ← release ctx max_build_duration now active;
        n ← count_active ctx;
        if max_active_jobs <=? n then eff_raise conflict_exn
        else
          id ← new_uuid7;
          let job := queued_job ctx id document_id k l now in
          _ ← add_job ctx job;
          eff_ret _ (job, events ++ [SummaryRequested id (workspace_id ctx) document_id (summary_kind_value k)
                                       (language_value l) conversation_id now])
  end.

(** [RequestSummaryService.start] *)
Definition request_summary (max_build_duration max_active_jobs : Z) (ctx : ExecutionContext) (document_id : text)
    (k : SummaryKind) (l : SummaryLanguage) (conversation_id : option text) : io SummaryJob :=
  begin ctx (
    _ ← hold ctx;
    '(job, events) ← RequestSummary max_build_duration max_active_jobs ctx document_id k l conversation_id;
    _ ← publish ctx events;
    eff_ret _ job).

(** [GetSummary.execute] *)
Definition GetSummary `{Unicode} (ctx : ExecutionContext) (document_id : text) (k : SummaryKind) (l : SummaryLanguage)
    : io Summary :=
  exact ← get_summary ctx document_id k l;
  found ← match exact with
          | Some s => eff_ret _ (Some s)
          | None =>
              match l with
              | AUTO => eff_ret _ None
              | _ => stored ← get_summary ctx document_id k AUTO;
                     eff_ret _ (match stored with
                                | Some s => if detects_lang (su_text s) l then Some s else None
                                | None => None
                                end)
              end
          end;
  match found with Some s => eff_ret _ s | None => eff_raise not_found_exn end.

Definition DeleteSummary (ctx : ExecutionContext) (document_id : text) (k : SummaryKind) (l : SummaryLanguage) : io bool :=
  remove_summary ctx document_id k l.

Definition GetSummaryJob (ctx : ExecutionContext) (job_id : text) : io SummaryJob :=
  job ← get_job ctx job_id;
  match job with Some j => eff_ret _ j | None => eff_raise not_found_exn end.

(** [CancelSummaryJob.execute] *)
Definition CancelSummaryJob (ctx : ExecutionContext) (job_id : text) : io (SummaryJob * list KnowledgeEvent) :=
  job ← get_job ctx job_id;
  match job with
  | None => eff_raise not_found_exn
  | Some j =>
      if bool_decide (sj_status j = CANCELLED) then eff_ret _ (j, [])
      else if is_terminal j then eff_raise conflict_exn
      else
        now ← utc_now;
        let j' := (cancel SUMMARY_CANCELLED_REASON now j).2 in
        _ ← save_job ctx j';
        eff_ret _ (j', [SummaryBuildFailed (sj_id j') (workspace_id ctx) (sj_document_id j') SUMMARY_CANCELLED_REASON None now])
  end.

(** [CancelSummaryJobService.cancel] *)
Definition cancel_summary (ctx : ExecutionContext) (job_id : text) : io SummaryJob :=
  begin ctx (
    '(job, events) ← CancelSummaryJob ctx job_id;
    _ ← publish ctx events;
    eff_ret _ job).

(** ** [BuildSummary] *)

(** [_translation_source] *)
Definition translation_source (ctx : ExecutionContext) (j : SummaryJob) : io (option Summary) :=
  existing ← get_summary ctx (sj_document_id j) (sj_kind j) (sj_lang j);
  match existing with
  | Some _ => eff_ret _ None
  | None => newest_in_other_language ctx (sj_document_id j) (sj_kind j) (sj_lang j)
  end.

Definition claim `{SummaryPorts W} (ctx : ExecutionContext) (job_id : text) : io (option SummaryBuildPlan) :=
  job ← get_job ctx job_id;
  match job with
  | None => eff_ret _ None
  | Some j =>
      if is_terminal j then eff_ret _ None
      else
        resolved ← resolve_summarizer ctx;
        source ← translation_source ctx j;
        match source with
        | Some s =>
            j' ← eff_lift (map_err state_exn (start (su_source_chunks s) j));
            _ ← save_job ctx j';
            eff_ret _ (Some (mk_SummaryBuildPlan j' [] resolved (Some s)))
        | None =>
            chunks ← chunk_texts ctx (sj_document_id j);
            j' ← eff_lift (map_err state_exn (start (Z.of_nat (length chunks)) j));
            _ ← save_job ctx j';
            eff_ret _ (Some (mk_SummaryBuildPlan j' chunks resolved None))
        end
  end.

(** [fail]: the attempt of a job that has work left. *)
Definition fail_build (ctx : ExecutionContext) (job_id reason : text) : io (option SummaryAttempt) :=
  job ← get_job ctx job_id;
  eff_ret _ (match job with
             | Some j => if is_terminal j then None else Some (mk_SummaryAttempt j None (Some reason) false)
             | None => None
             end).

(** What the worker acts on while it builds: the world, and the job it holds. *)
Abbreviation T := (W * SummaryJob)%type.

Definition in_world {E A} (m : eff W E A) : eff T E A := λ '(w, j), let '(r, w') := m w in (r, (w', j)).

#[export] Instance building `{LlmStreams W} : LlmStreams T := {
  stream provider messages params key '(w, j) := let '(s, w') := stream provider messages params key w in (s, (w', j));
  aclose '(w, j) := (aclose w, j)
}.

(** [_progress], [_should_cancel], [_translation_tick] *)
Definition progress (ctx : ExecutionContext) (n : Z) : eff T exn unit :=
  λ '(w, j), match advance n j with
             | Ok j' => let '(r, w') := record_progress ctx (sj_id j') (sj_done_chunks j') w in (r, (w', j'))
             | Err e => (Err (state_exn e), (w, j))
             end.
Definition should_cancel (ctx : ExecutionContext) : eff T exn bool :=
  λ '(w, j), in_world (fresh ← get_job ctx (sj_id j);
                       eff_ret _ (match fresh with Some f => is_terminal f | None => true end)) (w, j).
Definition translation_tick (ctx : ExecutionContext) : eff T exn unit :=
  λ '(w, j), progress ctx (sj_done_chunks j) (w, j).

(** [str] of what the pipeline raises. *)
Definition build_error_text `{SummaryPorts W} (e : BuildErr) : text :=
  match e with
  | NoIndexedText => SUMMARY_NO_INDEXED_TEXT_REASON
  | EmptyResponse s => txt "the model returned an empty response at the " ++ step_name s ++ txt " step"
  | CallTimeout | Cancelled => []
  | Raised e => exn_text e
  end.

Definition cancelled_error : exn := Other "CancelledError".

Definition pipeline `{LlmStreams W} (timeout : Z) (decimal : Z → text) (ctx : ExecutionContext)
    (plan : SummaryBuildPlan) : eff T BuildErr SummaryDraft :=
  let job := pl_job plan in
  match pl_translate_from plan with
  | Some s => translate timeout s (sj_lang job) (pl_summarizer plan) (translation_tick ctx) (should_cancel ctx)
  | None => Summarization.execute timeout decimal (pl_chunks plan) (sj_kind job) (sj_lang job) (pl_summarizer plan)
              (progress ctx) (should_cancel ctx)
  end.

(** [run]: [except Exception] lets [CancelledError] through. *)
Definition run `{SummaryPorts W, LlmStreams W} (timeout : Z) (decimal : Z → text) (ctx : ExecutionContext)
    (plan : SummaryBuildPlan) : io SummaryAttempt :=
  λ w,
    let '(r, (w', j)) := pipeline timeout decimal ctx plan (w, pl_job plan) in
    (match r with
     | Ok draft => Ok (mk_SummaryAttempt j (Some draft) None false)
     | Err Cancelled => Ok (mk_SummaryAttempt j None None true)
     | Err (Raised (Other "CancelledError")) => Err cancelled_error
     | Err e => Ok (mk_SummaryAttempt j None (Some (build_error_text e)) false)
     end, w').

(** [error or SUMMARY_EMPTY_BUILD_REASON] *)
Definition reason_of (error : option text) : text :=
  match error with
  | Some t => if bool_decide (t = []) then SUMMARY_EMPTY_BUILD_REASON else t
  | None => SUMMARY_EMPTY_BUILD_REASON
  end.

(** [_settle_failure] *)
Definition settle_failure (ctx : ExecutionContext) (j : SummaryJob) (reason : text) (now : instant)
    (conversation_id : option text) : io (list KnowledgeEvent) :=
  match fail reason now j with
  | Err _ => eff_ret _ []
  | Ok j' =>
      _ ← save_job ctx j';
      eff_ret _ [SummaryBuildFailed (sj_id j') (workspace_id ctx) (sj_document_id j') reason conversation_id now]
  end.

Definition finalize (ctx : ExecutionContext) (a : SummaryAttempt) (conversation_id : option text) : io (list KnowledgeEvent) :=
  let j := at_job a in
  if at_cancelled a then eff_ret _ []
  else
    now ← utc_now;
    match at_draft a with
    | Some d =>
        id ← new_uuid7;
        _ ← upsert ctx (mk_Summary id (workspace_id ctx) (sj_document_id j) (sj_kind j) (sj_lang j) (sd_text d)
                          (sd_model d) (sd_source_chunks d) (sd_truncated d) now);
        j' ← eff_lift (map_err state_exn (succeed now j));
        _ ← save_job ctx j';
        eff_ret _ [SummaryBuilt (sj_id j') (workspace_id ctx) (sj_document_id j') (summary_kind_value (sj_kind j'))
                     (language_value (sj_lang j')) conversation_id now]
    | None => settle_failure ctx j (reason_of (at_error a)) now conversation_id
    end.

(** ** [build_knowledge_summary_handler] *)

Section Worker.
Context `{SummaryPorts W, LlmStreams W} (timeout : Z) (decimal : Z → text).
Context (max_duration_s : option Z) (metering : option (Metering W)).

(** [_SUMMARY_TIMEOUT_REASON], of a limit in whole seconds *)
Definition timeout_reason (seconds : Z) : text :=
  txt "building this summary exceeded the " ++ decimal seconds ++ txt "s limit and was stopped".

(** [_build], once admitted *)
Definition limited_run (ctx : ExecutionContext) (job_id : text) (plan : SummaryBuildPlan) : io (option SummaryAttempt) :=
  λ w,
    match run timeout decimal ctx plan w with
    | (Ok a, w') => (Ok (Some a), w')
    | (Err e, w') =>
        match max_duration_s with
        | Some s => if bool_decide (e = cancelled_error) && expired w' then fail_build ctx job_id (timeout_reason s) w'
                    else (Err e, w')
        | None => (Err e, w')
        end
    end.

Definition build (ctx : ExecutionContext) (job_id : text) (plan : SummaryBuildPlan) : io (option SummaryAttempt) :=
  match metering with
  | None => limited_run ctx job_id plan
  | Some m =>
      outcome ← admit_build m ctx (pl_summarizer plan);
      match outcome with
      | inl reason => fail_build ctx job_id reason
      | inr metered =>
          λ w, let '(r, w') := limited_run ctx job_id
                                 (mk_SummaryBuildPlan (pl_job plan) (pl_chunks plan) metered (pl_translate_from plan)) w in
               (r, settle_build m ctx metered w')
      end
  end.

(** The transaction that settles a delivery. *)
Definition settle (ctx : ExecutionContext) (event_id : text) (a : SummaryAttempt) (conversation_id : option text) : io unit :=
  begin ctx (
    claimed ← claim_event ctx event_id;
    if negb claimed then eff_ret _ tt
    else
      events ← finalize ctx a conversation_id;
      publish ctx events).

Definition is_conflict (e : exn) : bool :=
  match e with App a => bool_decide (err_class a = ConflictError) | Other _ => false end.
Definition app_or_value_error (e : exn) : bool :=
  match e with App _ => true | Other c => bool_decide (c = "ValueError"%string) end.

(** From the attempt on. *)
Definition conclude (ctx : ExecutionContext) (event_id job_id : text) (conversation_id : option text)
    (attempt : option SummaryAttempt) : io unit :=
  match attempt with
  | None => eff_ret _ tt
  | Some a =>
      eff_catch (settle ctx event_id a conversation_id) is_conflict (λ e,
        failure ← fail_build ctx job_id (exn_text e);
        match failure with
        | None => eff_ret _ tt
        | Some f => settle ctx event_id f conversation_id
        end)
  end.

(** [_handle], of what the envelope holds *)
Definition handle (ctx : ExecutionContext) (event_id job_id : text) (conversation_id : option text) : io unit :=
  λ w, match claim ctx job_id w with
       | (Ok None, w') => (Ok tt, w')
       | (Ok (Some plan), w') => (attempt ← build ctx job_id plan; conclude ctx event_id job_id conversation_id attempt) w'
       | (Err e, w') =>
           if app_or_value_error e
           then (attempt ← fail_build ctx job_id (exn_text e); conclude ctx event_id job_id conversation_id attempt) w'
           else (Err e, w')
       end.

Definition knowledge_summary_handler (ctx : ExecutionContext) (envelope : list (text * json)) : io unit :=
  data ← eff_lift (subscript (Some (JObj envelope)) "data");
  event_id ← eff_lift (j ← subscript (Some (JObj envelope)) "id"; as_uuid j);
  job_id ← eff_lift (j ← subscript (Some data) "job_id"; as_uuid j);
  conversation_id ← eff_lift (match data with
                              | JObj fields =>
                                  match field (txt "conversation_id") fields with
                                  | Some (JStr t) => Ok (Some t)
                                  | Some JNull | None => Ok None
                                  | Some _ => Err (Other "TypeError")
                                  end
                              | _ => Err (Other "TypeError")
                              end);
  handle ctx event_id job_id conversation_id.
End Worker.
End UseCases.
