(* ===== verification/SummaryWorker.v ===== *)
(** * SummaryWorker: what becomes of a summary job

    A delivery that is acknowledged leaves the job it is about over, whatever the database and
    the providers do and whatever runs beside it that leaves its event and its end alone; and no
    job is ever over without an event that says how. *)

From S2P Require Import Prelude Text Calendar Errors Framework Transactions Files Keyset Events Wire Cursor Tables Streams Engine Outbox Sessions Knowledge Summarization KnowledgeDb KnowledgeSound KnowledgePorts SummaryJobs.

Open Scope Z_scope.

(** ** A build over any world

    What holds along a build, and what a stop establishes. *)

Section Held.
Context {T : Type} `{LlmStreams T} (Inv Over : T → Prop).
Abbreviation build A := (eff T BuildErr A).

Definition held {A} (m : build A) : Prop :=
  ∀ t r t', Inv t → m t = (r, t') → Inv t' ∧ (r = Err Cancelled → Over t').

Context (should_cancel : eff T exn bool) (on_progress : Z → eff T exn unit).
Hypothesis Hstream : ∀ p ms ps k t, Inv t → Inv (stream p ms ps k t).2.
Hypothesis Hclose : ∀ t, Inv t → Inv (aclose t) ∧ (Over t → Over (aclose t)).
Hypothesis Hcancel : ∀ t r t', Inv t → should_cancel t = (r, t') → Inv t' ∧ (r = Ok true → Over t').
Hypothesis Hprogress : ∀ n t r t', Inv t → on_progress n t = (r, t') → Inv t'.

Lemma held_ret {A} (a : A) : held (mret a : build A).
Proof. by intros t r t' Ht [= <- <-]. Qed.

Lemma held_raise {A} e : e ≠ Cancelled → held (eff_raise e : build A).
Proof. intros He t r t' Ht [= <- <-]. split; [done|]. by intros [= ->]. Qed.

Lemma held_bind {A B} (m : build A) (k : A → build B) : held m → (∀ a, held (k a)) → held (a ← m; k a).
Proof.
  intros Hm Hk t r t' Ht [(e & He & ->)|(a & t1 & Ha & Hr)]%eff_bind_run.
  - destruct (Hm _ _ _ Ht He) as [? Ho]. split; [done|]. intros [= ->]. by apply Ho.
  - destruct (Hm _ _ _ Ht Ha) as [Ht1 _]. by apply (Hk a _ _ _ Ht1).
Qed.

Lemma held_stop_point : held (stop_point should_cancel).
Proof.
  intros t r t' Ht. unfold stop_point, raising. intros [(e & He & ->)|(a & t1 & Ha & Hr)]%eff_bind_run.
  - destruct (should_cancel t) as [x t1] eqn:Hx. injection He as He <-. destruct (Hcancel _ _ _ Ht Hx) as [? _].
    split; [done|]. intros [= ->]. by destruct x.
  - destruct (should_cancel t) as [x t2] eqn:Hx. injection Ha as Ha <-. destruct (Hcancel _ _ _ Ht Hx) as [? Ho].
    destruct x as [b|]; [|done]. injection Ha as ->. destruct a; injection Hr as <- <-; (split; [done|]); [|done].
    intros _. by apply Ho.
Qed.

Lemma held_report n : held (raising (on_progress n)).
Proof.
  intros t r t' Ht. unfold raising. destruct (on_progress n t) as [x t1] eqn:Hx. intros [= <- <-].
  split; [by eapply Hprogress|]. by destruct x.
Qed.

Lemma held_in_time deadline later : held (in_time deadline later).
Proof. intros t r t' Ht [= <- <-]. split; [done|]. unfold raise_if. by destruct (_ <=? _). Qed.

Lemma held_poll finish now next_poll : held (poll should_cancel finish now next_poll).
Proof.
  unfold poll. destruct (_ && _); [|apply held_ret]. apply held_bind; [apply held_stop_point|intros _; apply held_ret].
Qed.

Lemma held_pulls deadline next_poll parts finish s : held (pulls should_cancel deadline next_poll parts finish s).
Proof.
  revert next_poll parts finish. induction s as [now later d fr rest IH|now later|now later|now later e]; intros; cbn [pulls];
    (apply held_bind; [apply held_poll|intros next]); (apply held_bind; [apply held_in_time|intros _]);
    [apply IH|apply held_ret|by apply held_raise..].
Qed.

Lemma held_closing {A} (m : build A) : held m → held (closing m).
Proof.
  intros Hm t r t' Ht. unfold closing. destruct (m t) as [x t1] eqn:Hx. intros [= <- <-].
  destruct (Hm _ _ _ Ht Hx) as [Ht1 Ho]. destruct (Hclose _ Ht1) as [? Hc]. split; [done|]. auto.
Qed.

Context (timeout : Z) (decimal : Z → text).

Lemma held_call system user lang sm max_tokens s : held (call timeout system user lang sm max_tokens s should_cancel).
Proof.
  unfold call. apply held_bind.
  - intros t r t'. unfold open. destruct (stream _ _ _ _ t) as [x t1] eqn:Hx. intros Ht [= <- <-]. split; [|done].
    change t1 with ((x, t1).2). rewrite <- Hx. by apply Hstream.
  - intros [now script]. apply held_bind; [apply held_closing, held_pulls|]. intros [parts finish].
    case_bool_decide; [by apply held_raise|apply held_ret].
Qed.

Lemma held_execute chunks kind lang sm :
  held (Summarization.execute timeout decimal chunks kind lang sm on_progress should_cancel).
Proof.
  apply (rule_execute _ _ _ (λ A, held)); auto using held_ret, held_raise, held_stop_point, held_call, held_report.
  intros. by apply held_bind.
Qed.

Lemma held_translate source lang sm tick :
  (∀ t r t', Inv t → tick t = (r, t') → Inv t') →
  held (translate timeout source lang sm tick should_cancel).
Proof.
  intros Htick. apply (rule_translate _ _ (λ A, held)); auto using held_ret, held_call.
  - intros. by apply held_bind.
  - intros t r t' Ht. unfold raising. destruct (tick t) as [x t1] eqn:Hx. intros [= <- <-].
    split; [by eapply Htick|]. by destruct x.
Qed.
End Held.

(** ** Sessions, and what runs beside them *)

Section Worlds.
Context {V : Type} `{Env, DB : Database, Jsonb}.
Abbreviation W := (DbWorld KnowledgeDb V).
Abbreviation io A := (eff W exn A).
Implicit Types (w : W) (d : KnowledgeDb) (ctx : ExecutionContext).

(** Only a duplicate key is reported as a uniqueness violation. *)
Definition honest : Prop := ∀ i c, fault i ≠ Some (unique_violation, c).

(** Outside any transaction, in a database of which [J] holds. *)
Definition calm (J : KnowledgeDb → Prop) w : Prop := active w = None ∧ J (db w).

(** A call to another part of the system, during which other processes may take the database
    along [I]. *)
Definition beside (I : KnowledgeDb → KnowledgeDb → Prop) w w' : Prop := active w' = active w ∧ I (db w) (db w').

Class Outside `{SummaryPorts W, LlmStreams W} (I : KnowledgeDb → KnowledgeDb → Prop) (metering : option (Metering W)) : Prop := {
  resolve_beside : ∀ ctx w, beside I w (resolve_summarizer ctx w).2;
  stream_beside : ∀ p ms ps k w, beside I w (stream p ms ps k w).2;
  aclose_beside : ∀ w, beside I w (aclose w);
  admit_beside : ∀ m ctx sm w, metering = Some m → beside I w (admit_build m ctx sm w).2;
  settle_beside : ∀ m ctx sm w, metering = Some m → beside I w (settle_build m ctx sm w)
}.

Lemma calm_beside I (J : KnowledgeDb → Prop) w w' :
  (∀ d d', I d d' → J d → J d') → calm J w → beside I w w' → calm J w'.
Proof. intros HI [Ha HJ] [Ha' Hd]. split; [congruence|]. eauto. Qed.

(** A method of an adapter: called on its own, or within the unit of work. *)
Lemma alone_run {A} translate ctx (q : instant → KnowledgeDb → result DbFault (A * KnowledgeDb)) J w r w' :
  calm J w → adapter translate ctx (stmt_now q) w = (r, w') →
  active w' = None ∧
  ((is_ok r = false ∧ db w' = db w) ∨ ∃ a now, q now (db w) = Ok (a, db w') ∧ (r = Ok a ∨ is_ok r = false)).
Proof.
  intros [Ha _] Hr. eapply (adapter_runs _ _ _ _ _ _ _ (runs_execute q)) in Hr as [(Hf & _) Hr]; [|done].
  split; [congruence|done].
Qed.

Lemma alone_reads {A} translate ctx (q : KnowledgeDb → A) J w r w' :
  calm J w → adapter translate ctx (rows q) w = (r, w') → calm J w' ∧ ∀ a, r = Ok a → a = q (db w').
Proof.
  intros [Ha HJ] Hr. apply adapter_reads in Hr as ((Hf & _) & Hd & Hr); [|done].
  split; [split; [congruence|by rewrite Hd]|]. intros a ->. rewrite Hd. by destruct Hr as [[= ->]|?].
Qed.

Lemma alone_keeps {A} translate ctx (q : instant → KnowledgeDb → result DbFault (A * KnowledgeDb)) (J : KnowledgeDb → Prop) w r w' :
  (∀ now d a d', J d → q now d = Ok (a, d') → J d') →
  calm J w → adapter translate ctx (stmt_now q) w = (r, w') → calm J w'.
Proof.
  intros Hq Hw Hr. destruct (alone_run _ _ _ _ _ _ _ Hw Hr) as [Ha [[_ Hd]|(a & now & Hd & _)]]; destruct Hw as [_ HJ].
  - split; [done|]. by rewrite Hd.
  - split; [done|]. eauto.
Qed.

Lemma joined_run {A} translate ctx (q : instant → KnowledgeDb → result DbFault (A * KnowledgeDb)) w r w' :
  active w = Some (workspace_id ctx) → adapter translate ctx (stmt_now q) w = (r, w') →
  active w' = active w ∧
  ((is_ok r = false ∧ db w' = db w) ∨ ∃ a, r = Ok a ∧ q (began w) (db w) = Ok (a, db w')).
Proof.
  unfold adapter, tenant_session, stmt_now. intros Hact. rewrite Hact, bool_decide_true by done.
  destruct (Transactions.execute _ w) as [r1 w1] eqn:He.
  apply execute_run in He as [Ha [(f & -> & Hd)|(a & -> & Hq)]]; intros [= <- <-]; (split; [congruence|]); [by left|].
  right. by exists a.
Qed.

Lemma joined_reads {A} translate ctx (q : KnowledgeDb → A) w r w' :
  active w = Some (workspace_id ctx) → adapter translate ctx (rows q) w = (r, w') →
  active w' = active w ∧ db w' = db w ∧ ∀ a, r = Ok a → a = q (db w).
Proof.
  intros Ha Hr. apply (joined_run translate ctx (λ _ d, Ok (q d, d))) in Hr as [Ha' [[Hr Hd]|(a & -> & Hq)]]; [| |done].
  - split_and!; [done..|]. by intros a ->.
  - injection Hq as <- <-. split_and!; [done..|]. by intros a [= ->].
Qed.

Lemma joined_stmt {A} translate ctx (q : KnowledgeDb → result DbFault (A * KnowledgeDb)) w r w' :
  active w = Some (workspace_id ctx) → adapter translate ctx (stmt q) w = (r, w') →
  active w' = active w ∧ ((is_ok r = false ∧ db w' = db w) ∨ ∃ a, r = Ok a ∧ q (db w) = Ok (a, db w')).
Proof. apply (joined_run translate ctx (λ _, q)). Qed.

(** A unit of work is left as it was entered, outside. *)
Lemma begin_active {A} ctx (body : io A) w r w' : begin ctx body w = (r, w') → active w' = active w.
Proof.
  unfold begin, in_transaction, Transactions.execute. destruct (fault (issued (starting w))) as [[f c]|]; [by intros [= _ <-]|].
  set (w1 := with_db _ _). destruct (body (with_active _ w1)) as [[a|e] w2]; [|by intros [= _ <-]].
  destruct (fault _) as [[f []]|]; by intros [= _ <-].
Qed.

Lemma utc_now_run w r w' : utc_now w = (r, w') → db w' = db w ∧ active w' = active w ∧ is_ok r = true.
Proof. by intros [= <- <-]. Qed.
Lemma new_uuid7_run w r w' : new_uuid7 w = (r, w') → db w' = db w ∧ active w' = active w ∧ is_ok r = true.
Proof. by intros [= <- <-]. Qed.

(** ** The ledger and the outbox *)

Definition claimed (event_id : text) d : Prop := (CG_KNOWLEDGE, event_id) ∈ processed_events d.

Lemma claim_event_run ctx event_id w r w' : honest → active w = Some (workspace_id ctx) →
  claim_event ctx event_id w = (r, w') →
  active w' = active w ∧
  ((is_ok r = false ∧ db w' = db w) ∨ (r = Ok false ∧ claimed event_id (db w) ∧ db w' = db w) ∨
   (r = Ok true ∧ db w' = with_claims (processed_events (db w) ++ [(CG_KNOWLEDGE, event_id)]) (db w))).
Proof.
  intros Hon Ha. unfold claim_event, adapter, tenant_session. rewrite Ha, bool_decide_true by done.
  destruct (Transactions.execute _ w) as [r1 w1] eqn:He. pose proof He as Hrun.
  apply execute_run in Hrun as [Ha1 [(f & -> & Hd)|(u & -> & Hq)]].
  - assert (f = unique_violation → claimed event_id (db w)) as Hdup.
    { intros ->. unfold Transactions.execute in He. destruct (fault (issued w)) as [[f' c]|] eqn:Hf.
      - injection He as -> _. by destruct (Hon _ _ Hf).
      - unfold insert_claim in He. case_bool_decide; [done|]. by injection He. }
    destruct f as [[code|]|e]; [|intros [= <- <-]; by split; [congruence|left]..].
    case_bool_decide as Hc; intros [= <- <-]; (split; [congruence|]); [|by left].
    right. left. split_and!; [done| |done]. apply Hdup. unfold unique_violation. by rewrite Hc.
  - intros [= <- <-]. split; [congruence|]. right. right. unfold insert_claim in Hq.
    case_bool_decide as Hc; [done|]. by injection Hq as _ <-.
Qed.

(** The envelope of an event. *)
Definition enveloped (e : KnowledgeEvent) (payload : json) : Prop :=
  let m := mapped e in
  ∃ event_id correlation,
    build_envelope event_id SOURCE (mp_type m) (mp_id m) (mp_at m) (mp_workspace m) (JObj (mp_data m)) correlation None = Ok payload.

Definition records (e : KnowledgeEvent) (x : OutboxRecord) : Prop :=
  ob_event_type x = mp_type (mapped e) ∧ ob_aggregate_id x = mp_id (mapped e) ∧ enveloped e (ob_payload x).

(** A row that carries an event: its type, its subject and its envelope. *)
Definition carries (e : KnowledgeEvent) (row : OutboxRow) : Prop :=
  or_event_type row = mp_type (mapped e) ∧ or_aggregate_id row = mp_id (mapped e) ∧
  ∃ payload, enveloped e payload ∧ or_payload row = jsonb payload.

Lemma to_outbox_record_run ctx e w r w' : to_outbox_record ctx e w = (r, w') →
  db w' = db w ∧ active w' = active w ∧
  ∀ x, r = Ok x → records e x.
Proof.
  unfold to_outbox_record. intros [(x & Hx & _)|(id & w1 & (Hd & Ha & _)%new_uuid7_run & Hr)]%eff_bind_run; [done|].
  apply eff_bind_run in Hr as [(x & Hl & ->)|(p & w2 & Hl & Hr)].
  - unfold eff_lift in Hl. injection Hl as _ <-. done.
  - apply eff_lift_Ok in Hl as [Hp ->]. injection Hr as <- <-. split_and!; [done..|]. intros x [= <-].
    split_and!; [done..|]. by eexists _, _.
Qed.

Lemma records_of_run ctx es w r w' : records_of ctx es w = (r, w') →
  db w' = db w ∧ active w' = active w ∧
  ∀ rs, r = Ok rs → Forall2 records es rs.
Proof.
  revert w r w'. induction es as [|e es IH]; intros w r w'; cbn [records_of].
  - intros [= <- <-]. split_and!; [done..|]. by intros rs [= <-].
  - intros [(x & Hx & ->)|(rec & w1 & Hx & Hr)]%eff_bind_run; apply to_outbox_record_run in Hx as (Hd & Ha & Hx); [done|].
    apply eff_bind_run in Hr as [(x & Hy & ->)|(rs & w2 & Hy & Hr)]; apply IH in Hy as (Hd' & Ha' & Hy);
      [split_and!; [congruence..|done]|]. injection Hr as <- <-.
    split_and!; [congruence..|]. intros l [= <-]. constructor; auto.
Qed.

(** What is published joins the outbox, in the transaction under way. *)
Lemma publish_run ctx es w r w' : active w = Some (workspace_id ctx) → publish ctx es w = (r, w') →
  active w' = active w ∧
  ((is_ok r = false ∧ db w' = db w) ∨
   ∃ new, r = Ok tt ∧ db w' = with_outbox (outbox_rows (db w) ++ new) (db w) ∧ Forall2 carries es new).
Proof.
  unfold publish. intros Ha [(x & Hx & ->)|(rs & w1 & Hx & Hr)]%eff_bind_run; apply records_of_run in Hx as (Hd & Ha' & Hx);
    [by split; [|left]|]. specialize (Hx rs eq_refl). unfold append_records in Hr. case_bool_decide as Hnil.
  { subst. apply Forall2_nil_inv_r in Hx as ->. injection Hr as <- <-. split; [done|]. right. exists [].
    rewrite app_nil_r, Hd. split_and!; [done|by destruct (db w)|done]. }
  rewrite <- Ha' in Ha. apply joined_run in Hr as [Ha2 [[Hr Hd2]|([] & -> & Hq)]]; [| |done]; (split; [congruence|]).
  { left. split; [done|congruence]. }
  right. unfold insert_records in Hq. destruct (append _ _ _ _) as [rows|] eqn:Hap; [|done].
  cbn in Hq. injection Hq as Hq. rewrite <- Hq, Hd. unfold append in Hap. rewrite bool_decide_false in Hap by done.
  destruct (negb _); [done|]. injection Hap as <-. eexists. split_and!; [done| |]; [by rewrite Hd|].
  apply Forall2_fmap_r. eapply Forall2_impl; [exact Hx|]. intros e x (Ht & Hid & He). split_and!; [done..|]. by eexists.
Qed.

(** ** Jobs that end *)

(** What saving a job does. *)
Definition job_saved ctx (j : SummaryJob) d d' : Prop :=
  ∃ now, d' = match select_job ctx (sj_id j) d with
              | Some x => with_summary_jobs (<[sj_id j := saved_job j now x]> (summary_jobs d)) d
              | None => d
              end.

Lemma update_job_saved ctx j now d u d' : update_job ctx j now d = Ok (u, d') → job_saved ctx j d d'.
Proof.
  unfold update_job, job_saved. intros Hu. exists now. destruct (select_job _ _ _); [|by injection Hu].
  by destruct (key_taken _ _); [|injection Hu].
Qed.

Lemma saved_select ctx j d d' : job_saved ctx j d d' →
  ∀ x, select_job ctx (sj_id j) d' = Some x → sj_status x = sj_status j.
Proof.
  intros [now ->] x. destruct (select_job ctx (sj_id j) d) as [y|] eqn:Hy; [|congruence].
  pose proof Hy as [Hl Hw]%own_Some. unfold select_job. rewrite own_Some. cbn [with_summary_jobs summary_jobs].
  rewrite lookup_insert_eq. by intros [[= <-] _].
Qed.

(** The job of a context is not there, or has ended. *)
Definition over ctx (job_id : text) d : Prop :=
  match select_job ctx job_id d with Some j => is_terminal j = true | None => True end.

Lemma saved_over ctx j d d' : job_saved ctx j d d' → is_terminal j = true → over ctx (sj_id j) d'.
Proof.
  intros Hs Ht. unfold over. destruct (select_job ctx (sj_id j) d') as [x|] eqn:Hx; [|done].
  unfold is_terminal. by rewrite (saved_select _ _ _ _ Hs _ Hx).
Qed.

(** The event that says how a job of a workspace ended: built where it succeeded; failed, with
    the reason the job keeps, where it failed or was cancelled. *)
Definition ends (id workspace : text) (j : SummaryJob) (e : KnowledgeEvent) : Prop :=
  mp_id (mapped e) = id ∧ mp_workspace (mapped e) = workspace ∧
  match sj_status j, e with
  | SUCCEEDED, SummaryBuilt _ _ _ _ _ _ _ => True
  | FAILED, SummaryBuildFailed _ _ _ reason _ _ => sj_error j = Some reason
  | CANCELLED, SummaryBuildFailed _ _ _ reason _ _ => sj_error j = Some reason
  | _, _ => False
  end.

Lemma failed_ends workspace reason now j j' doc c at_ : fail reason now j = Ok j' →
  ends (sj_id j') workspace j' (SummaryBuildFailed (sj_id j') workspace doc reason c at_).
Proof. unfold fail. destruct (is_terminal j); [done|]. intros [= <-]. by split_and!. Qed.

(** Every job that has ended is the subject of an event that says how. *)
Definition announced d : Prop :=
  ∀ id j, summary_jobs d !! id = Some j → is_terminal j = true →
    ∃ row e, row ∈ outbox_rows d ∧ carries e row ∧ ends id (sj_workspace_id j) j e.

(** Jobs may end where their events are among what is published with them. *)
Definition pending (es : list KnowledgeEvent) d : Prop :=
  ∀ id j, summary_jobs d !! id = Some j → is_terminal j = true →
    (∃ e, e ∈ es ∧ ends id (sj_workspace_id j) j e) ∨ ∃ row e, row ∈ outbox_rows d ∧ carries e row ∧ ends id (sj_workspace_id j) j e.

Lemma announced_pending es d : announced d → pending es d.
Proof. intros Ha id j Hj Ht. right. by eapply Ha. Qed.

Lemma pending_published es new d :
  pending es d → Forall2 carries es new → announced (with_outbox (outbox_rows d ++ new) d).
Proof.
  intros Hp Hnew id j Hj Ht. destruct (Hp id j Hj Ht) as [(e & He & Hid)|(row & e & ? & ? & ?)].
  - apply list_elem_of_lookup in He as [i Hi]. destruct (Forall2_lookup_l _ _ _ _ _ Hnew Hi) as (row & Hrow & Hc).
    exists row, e. split_and!; [|done..]. apply elem_of_app. right. by eapply list_elem_of_lookup_2.
  - exists row, e. split_and!; [|done..]. apply elem_of_app. by left.
Qed.

Lemma pending_saved ctx es j d d' :
  pending es d → job_saved ctx j d d' → (is_terminal j = true → ∃ e, e ∈ es ∧ ends (sj_id j) (workspace_id ctx) j e) → pending es d'.
Proof.
  intros Hp [now ->] Hj. destruct (select_job ctx (sj_id j) d) as [y|] eqn:Hy; [|done].
  intros id x. cbn [with_summary_jobs summary_jobs outbox_rows]. intros Hx Ht.
  apply lookup_insert_Some in Hx as [[<- <-]|[_ Hx]]; [left|by eapply Hp]. destruct (Hj Ht) as (e & He & Hid & Hws & Hst).
  exists e. split; [done|]. apply own_Some in Hy as [_ Hy]. split_and!; [done|by rewrite Hws|exact Hst].
Qed.

Lemma pending_same_jobs es d d' :
  pending es d → summary_jobs d' = summary_jobs d → outbox_rows d' = outbox_rows d → pending es d'.
Proof. unfold pending. by intros Hp -> ->. Qed.

Lemma pending_more es es' d : es ⊆ es' → pending es d → pending es' d.
Proof. intros Hs Hp id j Hj Ht. destruct (Hp id j Hj Ht) as [(e & ? & ?)|?]; [left; exists e; auto|by right]. Qed.

Lemma upsert_frame ctx s d u d' : upsert_summary ctx s d = Ok (u, d') →
  summary_jobs d' = summary_jobs d ∧ processed_events d' = processed_events d ∧ outbox_rows d' = outbox_rows d.
Proof.
  unfold upsert_summary. intros Hu. repeat (case_match; try done); by injection Hu as _ <-.
Qed.

Lemma finalize_does ctx a conversation_id w r w' :
  active w = Some (workspace_id ctx) → finalize ctx a conversation_id w = (r, w') →
  active w' = active w ∧ ∀ es, r = Ok es →
    ∃ d, summary_jobs d = summary_jobs (db w) ∧ processed_events d = processed_events (db w) ∧
      outbox_rows d = outbox_rows (db w) ∧
      ((es = [] ∧ db w' = d ∧ (at_cancelled a = true ∨ is_terminal (at_job a) = true)) ∨
       ∃ e j, es = [e] ∧ at_cancelled a = false ∧ is_terminal j = true ∧ sj_id j = sj_id (at_job a) ∧ ends (sj_id j) (workspace_id ctx) j e ∧
         job_saved ctx j d (db w')).
Proof.
  intros Ha. unfold finalize. destruct (at_cancelled a).
  { intros [= <- <-]. split; [done|]. intros es [= <-]. exists (db w). split_and!; [done..|left]. by split_and!; [..|left]. }
  intros [(x & Hx & _)|(now & w1 & (Hd1 & Ha1 & _)%utc_now_run & Hr)]%eff_bind_run; [done|].
  destruct (at_draft a) as [draft|].
  - apply eff_bind_run in Hr as [(x & Hx & _)|(id & w2 & (Hd2 & Ha2 & _)%new_uuid7_run & Hr)]; [done|].
    assert (active w2 = Some (workspace_id ctx)) as Hact by congruence.
    apply eff_bind_run in Hr as [(x & Hx & ->)|([] & w3 & Hx & Hr)]; apply joined_stmt in Hx as [Ha3 Hq]; [|done| |done];
      [by split; [congruence|]|].
    destruct Hq as [[? _]|([] & _ & Hq)]; [done|]. apply upsert_frame in Hq as (Hj & Hp & Ho).
    apply eff_bind_run in Hr as [(x & Hx & ->)|(j & w4 & [Hs ->]%eff_lift_Ok & Hr)].
    { unfold eff_lift in Hx. injection Hx as _ <-. by split; [congruence|]. }
    apply eff_bind_run in Hr as [(x & Hx & ->)|([] & w5 & Hx & Hr)]; apply joined_run in Hx as [Ha5 Hq]; [|congruence| |congruence];
      [by split; [congruence|]|]. injection Hr as <- <-. split; [congruence|]. intros es [= <-]. exists (db w3).
    split_and!; [congruence..|]. right. destruct Hq as [[? _]|(u & _ & Hq)]; [done|].
    assert (is_terminal j = true ∧ sj_id j = sj_id (at_job a) ∧ sj_status j = SUCCEEDED) as (Ht & Hid & Hst).
    { unfold succeed in Hs. destruct (sj_status (at_job a)); try done. cbn in Hs. by injection Hs as <-. }
    eexists _, j. split_and!; [done..| |by eapply update_job_saved]. split_and!; [done..|by rewrite Hst].
  - unfold settle_failure in Hr. unfold fail in Hr. destruct (is_terminal (at_job a)) eqn:Ht.
    { injection Hr as <- <-. split; [congruence|]. intros es [= <-]. exists (db w1). rewrite Hd1.
      split_and!; [done..|left]. by split_and!; [..|right]. }
    apply eff_bind_run in Hr as [(x & Hx & ->)|([] & w5 & Hx & Hr)]; apply joined_run in Hx as [Ha5 Hq]; [|congruence| |congruence];
      [by split; [congruence|]|]. injection Hr as <- <-. split; [congruence|]. intros es [= <-]. exists (db w1). rewrite Hd1 in *.
    split_and!; [done..|]. right. destruct Hq as [[? _]|(u & _ & Hq)]; [done|].
    eexists _, (moved FAILED (sj_total_chunks (at_job a)) (sj_done_chunks (at_job a)) (Some (reason_of (at_error a)))
      (sj_cancelled_at (at_job a)) (Some now) (at_job a)).
    split_and!; [done..| |by eapply update_job_saved]. by split_and!.
Qed.

(** ** Requests and cancellations *)

Lemma begin_keeps {A} (J : KnowledgeDb → Prop) ctx (body : io A) w r w' :
  (∀ w1 a w2, active w1 = Some (workspace_id ctx) → J (db w1) → body w1 = (Ok a, w2) → J (db w2)) →
  calm J w → begin ctx body w = (r, w') → calm J w'.
Proof.
  intros Hbody [Ha HJ] Hr. pose proof (begin_active _ _ _ _ _ Hr) as Ha'. split; [congruence|].
  apply begin_run in Hr as [[_ ->]|(a & w1 & w2 & Hd & Ha1 & _ & _ & _ & Hb & -> & _)]; [done|].
  eapply Hbody; [exact Ha1|by rewrite Hd|exact Hb].
Qed.

Lemma published_announces ctx es w u w' :
  active w = Some (workspace_id ctx) → pending es (db w) → publish ctx es w = (Ok u, w') → announced (db w').
Proof.
  intros Ha Hp Hr. apply publish_run in Hr as [_ [[? _]|(new & _ & -> & Hnew)]]; [done| |done]. by eapply pending_published.
Qed.

Lemma hold_run ctx w u w' : active w = Some (workspace_id ctx) → hold ctx w = (Ok u, w') → active w' = active w ∧ db w' = db w.
Proof.
  intros Ha. unfold hold. rewrite Ha. intros Hr. apply joined_reads in Hr as (? & ? & _); [|done]. split; [congruence|done].
Qed.

Lemma release_pending ctx limit now active_job w es w' :
  active w = Some (workspace_id ctx) → announced (db w) → release ctx limit now active_job w = (Ok es, w') →
  active w' = active w ∧ pending es (db w').
Proof.
  intros Ha Hann. unfold release. destruct active_job as [j|].
  2: { intros [= <- <-]. split; [done|by apply announced_pending]. }
  destruct (is_abandoned j now limit); [|done].
  rewrite eff_bind_Ok. intros (j' & w1 & [Hf ->]%eff_lift_Ok & Hr). apply eff_bind_Ok in Hr as ([] & w2 & Hs & Hr).
  injection Hr as <- <-. apply joined_run in Hs as [Ha2 [[? _]|(u & _ & Hq)]]; [done| |done]. split; [done|].
  eapply pending_saved; [by apply announced_pending|by eapply update_job_saved|].
  intros _. eexists. split; [by apply list_elem_of_singleton|]. apply (failed_ends _ _ now j).
  destruct (fail _ _ j) as [x|]; cbn in Hf; congruence.
Qed.

Lemma insert_job_pending ctx es j d u d' :
  is_terminal j = false → pending es d → insert_job ctx j d = Ok (u, d') → pending es d'.
Proof.
  unfold insert_job. intros Hj Hp. destruct (negb _); [done|]. destruct (_ || _); [done|]. intros [= _ <-] id x.
  cbn [with_summary_jobs summary_jobs outbox_rows]. intros Hx Ht.
  apply lookup_insert_Some in Hx as [[<- <-]|[_ Hx]]; [congruence|by eapply Hp].
Qed.

Lemma RequestSummary_pending limit ceiling ctx document_id k l conversation_id w j es w' :
  active w = Some (workspace_id ctx) → announced (db w) →
  RequestSummary limit ceiling ctx document_id k l conversation_id w = (Ok (j, es), w') →
  active w' = active w ∧ pending es (db w').
Proof.
  intros Ha Hann. unfold RequestSummary. rewrite eff_bind_Ok. intros (doc & w1 & Hg & Hr).
  apply joined_reads in Hg as (Ha1 & Hd1 & _); [|done]. destruct doc as [doc|]; [|done]. destruct (negb _); [done|].
  apply eff_bind_Ok in Hr as (now & w2 & (Hd2 & Ha2 & _)%utc_now_run & Hr).
  apply eff_bind_Ok in Hr as (act & w3 & Hg & Hr). apply joined_reads in Hg as (Ha3 & Hd3 & _); [|congruence].
  apply eff_bind_Ok in Hr as (es0 & w4 & Hrel & Hr).
  apply release_pending in Hrel as [Ha4 Hp]; [|congruence|by rewrite Hd3, Hd2, Hd1].
  apply eff_bind_Ok in Hr as (n & w5 & Hg & Hr). apply joined_reads in Hg as (Ha5 & Hd5 & _); [|congruence].
  destruct (_ <=? _); [done|]. apply eff_bind_Ok in Hr as (id & w6 & (Hd6 & Ha6 & _)%new_uuid7_run & Hr).
  apply eff_bind_Ok in Hr as ([] & w7 & Hadd & Hr). injection Hr as _ <- <-.
  apply joined_stmt in Hadd as [Ha7 [[? _]|(u & _ & Hq)]]; [done| |congruence]. split; [congruence|].
  eapply insert_job_pending in Hq; [|done|rewrite Hd6, Hd5; exact Hp]. eapply pending_more; [|exact Hq]. set_solver.
Qed.

Lemma request_announces limit ceiling ctx document_id k l conversation_id w r w' :
  calm announced w → request_summary limit ceiling ctx document_id k l conversation_id w = (r, w') → calm announced w'.
Proof.
  apply begin_keeps. intros w1 j w2 Ha Hann. rewrite eff_bind_Ok. intros (u & w3 & Hh & Hr).
  apply hold_run in Hh as [Ha3 Hd3]; [|done]. apply eff_bind_Ok in Hr as ([j' es] & w4 & Hreq & Hr).
  apply RequestSummary_pending in Hreq as [Ha4 Hp]; [|congruence|by rewrite Hd3].
  apply eff_bind_Ok in Hr as (u' & w5 & Hpub & Hr). injection Hr as _ <-. eapply published_announces; [|exact Hp|exact Hpub].
  congruence.
Qed.

Lemma cancel_announces ctx job_id w r w' : calm announced w → cancel_summary ctx job_id w = (r, w') → calm announced w'.
Proof.
  apply begin_keeps. intros w1 j w2 Ha Hann. rewrite eff_bind_Ok. intros ([j' es] & w3 & Hc & Hr).
  assert (active w3 = active w1 ∧ pending es (db w3)) as [Ha3 Hp].
  { unfold CancelSummaryJob in Hc. apply eff_bind_Ok in Hc as (job & w4 & Hg & Hc).
    apply joined_reads in Hg as (Ha4 & Hd4 & _); [|done]. destruct job as [x|]; [|done]. case_bool_decide.
    { injection Hc as _ <- <-. split; [done|]. apply announced_pending. by rewrite Hd4. }
    destruct (is_terminal x) eqn:Ht; [done|]. apply eff_bind_Ok in Hc as (now & w5 & (Hd5 & Ha5 & _)%utc_now_run & Hc).
    apply eff_bind_Ok in Hc as ([] & w6 & Hs & Hc). injection Hc as _ <- <-.
    apply joined_run in Hs as [Ha6 [[? _]|(u & _ & Hq)]]; [done| |congruence]. split; [congruence|].
    eapply pending_saved; [|by eapply update_job_saved|].
    - apply announced_pending. by rewrite Hd5, Hd4.
    - intros _. eexists. split; [by apply list_elem_of_singleton|]. unfold cancel. rewrite Ht. by split_and!. }
  apply eff_bind_Ok in Hr as (u' & w5 & Hpub & Hr). injection Hr as _ <-. eapply published_announces; [|exact Hp|exact Hpub].
  congruence.
Qed.

(** ** A delivery, phase by phase

    [J0] holds between deliveries, [J] from the moment the job is seen to have work left until
    the transaction that settles it; [good] of the job the worker holds, [Ov] once the build is
    told to stop, [Done] when the delivery is acknowledged. *)

Section Phases.
Context `{SummaryPorts W, LlmStreams W} (timeout : Z) (decimal : Z → text).
Context (max_duration_s : option Z) (metering : option (Metering W)).
Context (I : KnowledgeDb → KnowledgeDb → Prop) `{!Outside I metering}.
Context (ctx : ExecutionContext) (event_id job_id : text).
Context (J0 J Ov Done : KnowledgeDb → Prop) (good : SummaryJob → Prop).
Hypothesis HJ : ∀ d, J d → J0 d.
Hypothesis Hopen : ∀ d j, J0 d → select_job ctx job_id d = Some j → is_terminal j = false → J d ∧ good j.
Hypothesis HI : ∀ d d', I d d' → J d → J d'.
Hypothesis HOv : ∀ d d', I d d' → Ov d → Ov d'.
Hypothesis Hover : ∀ d j, good j → over ctx (sj_id j) d → Ov d.
Hypothesis Hdone : ∀ d, over ctx job_id d → Done d.
Hypothesis Hsave : ∀ j now d u d', J d → sj_status j = RUNNING → update_job ctx j now d = Ok (u, d') → J d'.
Hypothesis Hwrite : ∀ id n now d u d', J d → update_progress ctx id n now d = Ok (u, d') → J d'.
Hypothesis Hgood : ∀ j j', sj_id j' = sj_id j → is_terminal j' = false → good j → good j'.

Definition fine d (a : SummaryAttempt) : Prop :=
  (at_cancelled a = false → good (at_job a)) ∧ (at_cancelled a = true → Ov d).

Lemma calm_J w : calm J w → calm J0 w.
Proof. intros [? ?]. split; auto. Qed.

Lemma is_over (o : option SummaryJob) d : o = select_job ctx job_id d →
  match o with Some j => is_terminal j | None => true end = true → over ctx job_id d.
Proof. unfold over. intros ->. by destruct (select_job _ _ _). Qed.

Lemma fail_build_keeps reason w r w' : calm J0 w → fail_build ctx job_id reason w = (r, w') →
  match r with
  | Ok None => calm J0 w' ∧ Done (db w')
  | Ok (Some a) => calm J w' ∧ fine (db w') a
  | Err _ => calm J0 w'
  end.
Proof.
  intros Hw. unfold fail_build. intros [(e & Hg & ->)|(o & w1 & Hg & Hr)]%eff_bind_run;
    apply (alone_reads _ _ _ _ _ _ _ Hw) in Hg as (Hw1 & Ho); [done|].
  injection Hr as <- <-. specialize (Ho o eq_refl). destruct o as [j|]; [|by split; [|apply Hdone, (is_over None)]].
  destruct (is_terminal j) eqn:Ht; [by split; [|apply Hdone, (is_over (Some j))]|].
  destruct Hw1 as [Ha HJ0]. destruct (Hopen _ _ HJ0 (eq_sym Ho) Ht) as [? ?]. by split.
Qed.

Lemma outside_keeps {A} (m : io A) w r w' : calm J w → beside I w (m w).2 → m w = (r, w') → calm J w'.
Proof. intros Hw Hb Hm. rewrite Hm in Hb. by eapply calm_beside. Qed.

Lemma start_good n j j' : good j → start n j = Ok j' → sj_status j' = RUNNING ∧ good j'.
Proof.
  intros Hj Hs. assert (sj_status j' = RUNNING ∧ sj_id j' = sj_id j) as [Hst Hid]
    by (unfold start in Hs; destruct (sj_status j); by simplify_eq).
  split; [done|]. apply (Hgood j); [done| |done]. unfold is_terminal. by rewrite Hst.
Qed.

(** The end of [claim]: the job is started, saved and held. *)
Lemma started_keeps n j (plan : SummaryJob → SummaryBuildPlan) w r w' :
  (∀ x, pl_job (plan x) = x) → calm J w → good j →
  (j' ← eff_lift (map_err state_exn (start n j)); _ ← save_job ctx j'; eff_ret _ (Some (plan j'))) w = (r, w') →
  match r with
  | Ok None => calm J0 w' ∧ Done (db w')
  | Ok (Some p) => calm J w' ∧ good (pl_job p)
  | Err _ => calm J0 w'
  end.
Proof.
  intros Hp Hw Hj [(e & Hl & ->)|(j' & w1 & [Hs ->]%eff_lift_Ok & Hr)]%eff_bind_run.
  { injection Hl as _ <-. by apply calm_J. }
  assert (start n j = Ok j') as [Hst Hj']%start_good by (destruct (start n j); cbn in Hs; congruence); [|done].
  assert (∀ x w2, save_job ctx j' w = (x, w2) → calm J w2) as Hsv.
  { intros x w2 Hx. eapply alone_keeps; [|exact Hw|exact Hx]. intros now d u d' Hd Hu. by eapply Hsave. }
  apply eff_bind_run in Hr as [(e & Hx%Hsv & ->)|(u & w2 & Hx%Hsv & Hr)]; [by apply calm_J|].
  injection Hr as <- <-. by rewrite Hp.
Qed.

Lemma claim_keeps w r w' : calm J0 w → claim ctx job_id w = (r, w') →
  match r with
  | Ok None => calm J0 w' ∧ Done (db w')
  | Ok (Some plan) => calm J w' ∧ good (pl_job plan)
  | Err _ => calm J0 w'
  end.
Proof.
  intros Hw. unfold claim. intros [(e & Hg & ->)|(o & w1 & Hg & Hr)]%eff_bind_run;
    apply (alone_reads _ _ _ _ _ _ _ Hw) in Hg as (Hw1 & Ho); [done|]. specialize (Ho o eq_refl).
  destruct o as [j|]; [|injection Hr as <- <-; by split; [|apply Hdone, (is_over None)]].
  destruct (is_terminal j) eqn:Ht; [injection Hr as <- <-; by split; [|apply Hdone, (is_over (Some j))]|].
  assert (calm J w1 ∧ good j) as [Hw1' Hj] by (destruct Hw1 as [? HJ0]; by destruct (Hopen _ _ HJ0 (eq_sym Ho) Ht)).
  apply eff_bind_run in Hr as [(e & Hg & ->)|(sm & w2 & Hg & Hr)];
    (apply outside_keeps in Hg; [|done|apply resolve_beside]); [by apply calm_J|].
  assert (∀ x w3, translation_source ctx j w2 = (x, w3) → calm J w3) as Hsrc.
  { intros x w3. unfold translation_source. intros [(e & Hs & ->)|(y & w4 & Hs & Hx)]%eff_bind_run;
      apply (alone_reads _ _ _ _ _ _ _ Hg) in Hs as [Hw4 _]; [done|].
    destruct y; [by injection Hx as _ <-|]. by apply (alone_reads _ _ _ _ _ _ _ Hw4) in Hx as [? _]. }
  apply eff_bind_run in Hr as [(e & Hs%Hsrc & ->)|(src & w3 & Hs%Hsrc & Hr)]; [by apply calm_J|].
  destruct src as [s|].
  - by apply (started_keeps (su_source_chunks s) j (λ x, mk_SummaryBuildPlan x [] sm (Some s))) in Hr.
  - apply eff_bind_run in Hr as [(e & Hx & ->)|(chunks & w4 & Hx & Hr)];
      apply (alone_reads _ _ _ _ _ _ _ Hs) in Hx as [Hw4 _]; [by apply calm_J|].
    by apply (started_keeps (Z.of_nat (length chunks)) j (λ x, mk_SummaryBuildPlan x chunks sm None)) in Hr.
Qed.

(** The world of a build, and the job it advances. *)
Definition holding (t : W * SummaryJob) : Prop := calm J t.1 ∧ good t.2.

Lemma progress_keeps n t r t' : holding t → progress ctx n t = (r, t') → holding t'.
Proof.
  destruct t as [w j]. intros [Hw Hj]. cbn [progress fst snd] in *. unfold progress.
  destruct (advance n j) as [j'|e] eqn:Ha; [|by intros [= <- <-]].
  destruct (record_progress _ _ _ w) as [x w'] eqn:Hx. intros [= <- <-]. split; cbn.
  - eapply alone_keeps; [|exact Hw|exact Hx]. intros now d u d' Hd Hu. by eapply Hwrite.
  - unfold advance in Ha. apply (Hgood j); [| |done]; by destruct (sj_status j); simplify_eq.
Qed.

Lemma should_cancel_keeps t r t' : holding t → should_cancel ctx t = (r, t') → holding t' ∧ (r = Ok true → Ov (db t'.1)).
Proof.
  destruct t as [w j]. intros [Hw Hj]. unfold should_cancel, in_world. cbn [fst snd] in *.
  set (ask := mbind _ _). destruct (ask w) as [x w'] eqn:Hx. intros [= <- <-]. cbn [fst snd].
  apply eff_bind_run in Hx as [(e & Hg & ->)|(o & w1 & Hg & Hr)]; apply (alone_reads _ _ _ _ _ _ _ Hw) in Hg as [Hw1 Ho];
    [by split|]. injection Hr as <- <-. split; [done|]. intros Hx. apply (Hover _ j); [done|]. unfold over.
  rewrite <- (Ho o eq_refl). destruct o; [by injection Hx|done].
Qed.

Lemma run_keeps plan w r w' : calm J w → good (pl_job plan) → run timeout decimal ctx plan w = (r, w') →
  calm J w' ∧ ∀ a, r = Ok a → fine (db w') a.
Proof.
  intros Hw Hj. unfold run. destruct (pipeline _ _ _ _ _) as [x [w1 j]] eqn:Hx.
  assert (holding (w1, j) ∧ (x = Err Cancelled → Ov (db w1))) as [[Hw1 Hj1] Hc].
  { assert (∀ p ms ps k (t : W * SummaryJob), holding t → holding (stream p ms ps k t).2) as Hs.
    { intros p ms ps k [v j0] [Hv Hj0]. cbn [stream building]. destruct (stream p ms ps k v) as [s v'] eqn:Hv'.
      split; [|done]. eapply calm_beside; [exact HI|exact Hv|]. pose proof (stream_beside p ms ps k v) as Hb. by rewrite Hv' in Hb. }
    assert (∀ t : W * SummaryJob, holding t → holding (aclose t) ∧ (Ov (db t.1) → Ov (db (aclose t).1))) as Hcl.
    { intros [v j0] [Hv Hj0]. pose proof (aclose_beside v) as Hb. split.
      - split; [|done]. by eapply calm_beside.
      - destruct Hb as [_ Hb]. cbn. eauto. }
    assert (held holding (λ t, Ov (db t.1)) (pipeline timeout decimal ctx plan)) as Hp; [|by apply (Hp (w, pl_job plan) _ _ (conj Hw Hj) Hx)].
    unfold pipeline. destruct (pl_translate_from plan) as [s|].
    - apply held_translate; [exact Hs|exact Hcl|apply should_cancel_keeps|].
      intros [v j0] y t' Ht. unfold translation_tick. by apply progress_keeps.
    - apply held_execute; [exact Hs|exact Hcl|apply should_cancel_keeps|apply progress_keeps]. }
  assert (∀ a, at_job a = j → at_cancelled a = false → fine (db w1) a) as Hfine by (intros a <- Hn; split; [done|congruence]).
  destruct x as [d|e].
  { intros [= <- <-]. split; [done|]. intros a [= <-]. by apply Hfine. }
  destruct e as [ | |s| |[e|cls]].
  1: { intros [= <- <-]. split; [done|]. intros a [= <-]. split; [done|]. intros _. by apply Hc. }
  1-4: by intros [= <- <-]; (split; [done|]); intros a [= <-]; by apply Hfine.
  intros Hr. assert (w' = w1 ∧ ∀ a, r = Ok a → at_job a = j ∧ at_cancelled a = false) as [-> Ha].
  { clear -Hr. injection Hr as Hr <-. split; [done|]. intros a ->.
    repeat (case_match; try discriminate Hr); injection Hr as <-; done. }
  split; [done|]. intros a Hok. apply Hfine; naive_solver.
Qed.

Lemma limited_run_keeps plan w r w' :
  calm J w → good (pl_job plan) → limited_run timeout decimal max_duration_s ctx job_id plan w = (r, w') →
  match r with
  | Ok None => calm J0 w' ∧ Done (db w')
  | Ok (Some a) => calm J w' ∧ fine (db w') a
  | Err _ => calm J0 w'
  end.
Proof.
  intros Hw Hj. unfold limited_run. destruct (run _ _ _ _ _) as [x w1] eqn:Hx.
  apply run_keeps in Hx as [Hw1 Ha]; [|done..]. destruct x as [a|e]; [intros [= <- <-]; by split; [|apply Ha]|].
  destruct max_duration_s as [s|]; [|intros [= <- <-]; by apply calm_J].
  destruct (_ && _); [|intros [= <- <-]; by apply calm_J]. by apply fail_build_keeps, calm_J.
Qed.

Hypothesis HI0 : ∀ d d', I d d' → J0 d → J0 d'.
Hypothesis HID : ∀ d d', I d d' → Done d → Done d'.

Lemma build_keeps plan w r w' :
  calm J w → good (pl_job plan) → build timeout decimal max_duration_s metering ctx job_id plan w = (r, w') →
  match r with
  | Ok None => calm J0 w' ∧ Done (db w')
  | Ok (Some a) => calm J w' ∧ fine (db w') a
  | Err _ => calm J0 w'
  end.
Proof.
  intros Hw Hj. unfold build. case_eq metering; [intros m Hm|intros _; by apply limited_run_keeps].
  intros [(e & Hx & ->)|(o & w1 & Hx & Hr)]%eff_bind_run;
    (apply outside_keeps in Hx; [|done|by apply admit_beside]); [by apply calm_J|].
  destruct o as [reason|sm]; [by eapply fail_build_keeps, Hr; apply calm_J|].
  destruct (limited_run _ _ _ _ _ _ _) as [x w2] eqn:Hl. injection Hr as <- <-.
  apply limited_run_keeps in Hl; [|done..]. pose proof (settle_beside m ctx sm w2 Hm) as Hb.
  destruct x as [[a|]|e].
  - destruct Hl as [Hw2 [Hf1 Hf2]]. split; [by eapply calm_beside|]. split; [done|]. intros Hc. destruct Hb as [_ Hb]. eauto.
  - destruct Hl as [Hw2 ?]. split; [by eapply calm_beside|]. destruct Hb as [_ Hb]. eauto.
  - by eapply calm_beside.
Qed.

Context (conversation_id : option text).
Hypothesis Hsettle : ∀ a w r w', calm J w → fine (db w) a → settle ctx event_id a conversation_id w = (r, w') →
  calm J0 w' ∧ (r = Ok tt → Done (db w')).

Lemma conclude_keeps o w r w' :
  match o with None => calm J0 w ∧ Done (db w) | Some a => calm J w ∧ fine (db w) a end →
  conclude ctx event_id job_id conversation_id o w = (r, w') → calm J0 w' ∧ (r = Ok tt → Done (db w')).
Proof.
  destruct o as [a|]; [|intros [? ?] [= <- <-]; by split]. intros [Hw Ha]. unfold conclude, eff_catch.
  destruct (settle _ _ _ _ w) as [x w1] eqn:Hx. destruct (Hsettle _ _ _ _ Hw Ha Hx) as [Hw1 Hd].
  destruct x as [u|e]; [intros [= <- <-]; by split|]. destruct (is_conflict e); [|intros [= <- <-]; by split].
  intros [(e' & Hf & ->)|(f & w2 & Hf & Hr)]%eff_bind_run; apply (fail_build_keeps _ _ _ _ Hw1) in Hf; [by split|].
  destruct f as [f|]; [|injection Hr as <- <-; by destruct Hf; split]. destruct Hf as [Hw2 Hfine].
  by apply (Hsettle _ _ _ _ Hw2 Hfine).
Qed.

Lemma handle_keeps w r w' : calm J0 w →
  handle timeout decimal max_duration_s metering ctx event_id job_id conversation_id w = (r, w') →
  calm J0 w' ∧ (r = Ok tt → Done (db w')).
Proof.
  intros Hw. unfold handle. destruct (claim ctx job_id w) as [x w1] eqn:Hx. apply claim_keeps in Hx; [|done].
  destruct x as [[plan|]|e].
  - destruct Hx as [Hw1 Hj]. intros [(e & Hb & ->)|(o & w2 & Hb & Hr)]%eff_bind_run; apply build_keeps in Hb; try done.
    by eapply conclude_keeps, Hr; destruct o.
  - destruct Hx. intros [= <- <-]. by split.
  - destruct (app_or_value_error e); [|intros [= <- <-]; by split].
    intros [(e' & Hf & ->)|(f & w2 & Hf & Hr)]%eff_bind_run; apply (fail_build_keeps _ _ _ _ Hx) in Hf; [by split|].
    by eapply conclude_keeps, Hr; destruct f.
Qed.
End Phases.

(** ** What a delivery settles *)

Lemma settled ctx event_id a conversation_id w r w' : honest → active w = None →
  settle ctx event_id a conversation_id w = (r, w') →
  (is_ok r = false ∧ db w' = db w) ∨
  (claimed event_id (db w) ∧ db w' = db w) ∨
  ∃ es new d d', summary_jobs d = summary_jobs (db w) ∧ outbox_rows d = outbox_rows (db w) ∧
    claimed event_id d ∧ db w' = with_outbox (outbox_rows d' ++ new) d' ∧ Forall2 carries es new ∧
    ((es = [] ∧ d' = d ∧ (at_cancelled a = true ∨ is_terminal (at_job a) = true)) ∨
     ∃ e j, es = [e] ∧ at_cancelled a = false ∧ is_terminal j = true ∧ sj_id j = sj_id (at_job a) ∧ ends (sj_id j) (workspace_id ctx) j e ∧
       job_saved ctx j d d').
Proof.
  intros Hon Ha Hr. apply begin_run in Hr as [?|(u & w1 & w2 & Hd1 & Ha1 & _ & _ & _ & Hb & Hd & _)]; [by left|right].
  apply eff_bind_Ok in Hb as (c & w3 & Hc & Hb). apply claim_event_run in Hc as [Ha3 [[? _]|[([= ->] & Hc & Hd3)|([= ->] & Hd3)]]]; [done| | |done..].
  { injection Hb as _ <-. left. split; congruence. }
  right. cbn [negb] in Hb. apply eff_bind_Ok in Hb as (es & w4 & Hf & Hp). apply finalize_does in Hf as [Ha4 Hf]; [|congruence].
  destruct (Hf es eq_refl) as (d & Hj & Hpe & Ho & Hcase). apply publish_run in Hp as [_ [[? _]|(new & _ & Hd2 & Hnew)]]; [done| |congruence].
  exists es, new, d, (db w4). rewrite Hd, Hd2. split_and!; [by rewrite Hj, Hd3, Hd1|by rewrite Ho, Hd3, Hd1| |done|done|].
  - unfold claimed. rewrite Hpe, Hd3. cbn. apply elem_of_app. right. by left.
  - destruct Hcase as [(-> & -> & ?)|?]; [by left|by right].
Qed.

(** The rows of jobs are kept under their identifiers. *)
Definition keyed d : Prop := ∀ id j, summary_jobs d !! id = Some j → sj_id j = id.

Lemma keyed_saved ctx j d d' : keyed d → job_saved ctx j d d' → keyed d'.
Proof.
  intros Hk [now ->]. destruct (select_job ctx (sj_id j) d) as [y|] eqn:Hy; [|done]. apply own_Some in Hy as [Hy _].
  intros id x. cbn [with_summary_jobs summary_jobs]. intros [[<- <-]|[_ Hx]]%lookup_insert_Some; [exact (Hk _ _ Hy)|by apply Hk].
Qed.

Lemma update_progress_rows ctx id n now d u d' : update_progress ctx id n now d = Ok (u, d') →
  processed_events d' = processed_events d ∧ outbox_rows d' = outbox_rows d ∧
  ∀ k x, summary_jobs d' !! k = Some x → ∃ y n t, summary_jobs d !! k = Some y ∧ (x = y ∨ x = progressed n t y).
Proof.
  assert (∀ k x, summary_jobs d !! k = Some x →
    ∃ y n t, summary_jobs d !! k = Some y ∧ (x = y ∨ x = progressed n t y)) as Hsame by (intros k x ?; exists x, 0, 0; auto).
  unfold update_progress. intros [= <- <-]. destruct (select_job ctx id d) as [y|] eqn:Hy; [|done].
  case_bool_decide; [|done]. split_and!; [done..|]. intros k x. cbn [with_summary_jobs summary_jobs].
  apply own_Some in Hy as [Hy _]. intros [[<- <-]|[_ Hx]]%lookup_insert_Some; [|by apply Hsame].
  exists y, n, now. auto.
Qed.

Lemma saved_ledger ctx j d d' : job_saved ctx j d d' → processed_events d' = processed_events d ∧ outbox_rows d' = outbox_rows d.
Proof. intros [now ->]. by destruct (select_job _ _ _). Qed.

(** What holds between two deliveries of one event about one job. *)
Definition okay ctx (event_id job_id : text) d : Prop := keyed d ∧ (claimed event_id d → over ctx job_id d).

(** What other processes leave alone: the keys, this claim, and the end of this job. *)
Definition apart ctx (event_id job_id : text) d d' : Prop :=
  (keyed d → keyed d') ∧ (claimed event_id d' ↔ claimed event_id d) ∧ (over ctx job_id d → over ctx job_id d').

(** What they do to the jobs is announced. *)
Definition telling d d' : Prop := announced d → announced d'.

Section Outcomes.
Context `{SummaryPorts W, LlmStreams W} (timeout : Z) (decimal : Z → text).
Context (max_duration_s : option Z) (metering : option (Metering W)) (ctx : ExecutionContext).

Abbreviation handling := (handle timeout decimal max_duration_s metering ctx).
Abbreviation handler := (knowledge_summary_handler timeout decimal max_duration_s metering ctx).

Lemma handle_okay event_id job_id conversation_id `{!Outside (apart ctx event_id job_id) metering} w r w' :
  honest → calm (okay ctx event_id job_id) w → handling event_id job_id conversation_id w = (r, w') →
  calm (okay ctx event_id job_id) w' ∧ (r = Ok tt → over ctx job_id (db w')).
Proof.
  intros Hon. apply (handle_keeps timeout decimal max_duration_s metering (apart ctx event_id job_id) ctx event_id job_id
    (okay ctx event_id job_id) (λ d, keyed d ∧ ¬ claimed event_id d) (over ctx job_id) (over ctx job_id)
    (λ j, sj_id j = job_id ∧ is_terminal j = false)).
  - intros d [? ?]. by split.
  - intros d j [Hk Ho] Hj Ht. split_and!; [done| | |done].
    + intros Hc. specialize (Ho Hc). unfold over in Ho. rewrite Hj in Ho. congruence.
    + by apply own_Some in Hj as [Hj%Hk _].
  - intros d d' (? & Hc & ?) [? ?]. rewrite Hc. auto.
  - by intros d d' (_ & _ & ?).
  - by intros d j [-> _].
  - done.
  - intros j now d u d' [Hk Hc] Hst Hu%update_job_saved. split; [by eapply keyed_saved|].
    unfold claimed. by destruct (saved_ledger _ _ _ _ Hu) as [-> _].
  - intros id n now d u d' [Hk Hc] (Hp & _ & Hx)%update_progress_rows. split; [|unfold claimed; by rewrite Hp].
    intros k x Hkx. destruct (Hx _ _ Hkx) as (y & ? & ? & Hy & [->| ->]); by apply (Hk _ _ Hy).
  - intros j j' -> Ht [? _]. by split.
  - intros d d' (Hk & Hc & Ho) [? Hco]. split; [auto|]. rewrite Hc. auto.
  - by intros d d' (_ & _ & ?).
  - clear w r w'. intros a w r w' [Ha [Hk Hc]] [Hg Hov] Hr. pose proof (begin_active _ _ _ _ _ Hr) as Ha'.
    apply settled in Hr as [[? Hd]|[[? _]|(es & new & d & d' & Hj & Ho & Hcl & Hd & _ & Hcase)]]; [|done| |done..].
    { split; [|by intros ->]. split; [congruence|]. rewrite Hd. by split. }
    assert (keyed d' ∧ over ctx job_id d') as [Hk' Hov'].
    { assert (over ctx job_id d ↔ over ctx job_id (db w)) as Hdw by (unfold over, select_job; by rewrite Hj).
      assert (keyed d) as Hkd by (unfold keyed; by rewrite Hj).
      destruct Hcase as [(_ & -> & Hnone)|(e & j & _ & Hcan & Ht & Hid & _ & Hs)].
      - split; [done|]. apply Hdw. destruct (at_cancelled a); [by apply Hov|].
        destruct (Hg eq_refl) as [_ Hnt]. destruct Hnone; congruence.
      - split; [by eapply keyed_saved|]. destruct (Hg Hcan) as [Hgid _]. rewrite <- Hgid, <- Hid. by eapply saved_over. }
    rewrite Hd. split; [|done]. split; [congruence|]. rewrite Hd. by split.
Qed.

Lemma handle_announces event_id job_id conversation_id `{!Outside telling metering} w r w' :
  honest → calm announced w → handling event_id job_id conversation_id w = (r, w') → calm announced w'.
Proof.
  intros Hon Hw Hr. eapply (handle_keeps timeout decimal max_duration_s metering telling ctx event_id job_id
    announced announced (λ _, True) (λ _, True) (λ _, True)) in Hr as [? _]; try done.
  - intros j now d u d' Hann Hst Hu%update_job_saved. apply (pending_saved ctx []) with (d' := d') in Hu;
      [|by apply announced_pending|unfold is_terminal; by rewrite Hst].
    intros id x Hx Ht. destruct (Hu id x Hx Ht) as [(e & ?%elem_of_nil & _)|?]; done.
  - intros id n now d u d' Hann (_ & Ho & Hx)%update_progress_rows k x Hkx Ht. destruct (Hx _ _ Hkx) as (y & ? & ? & Hy & Hst).
    rewrite Ho. destruct Hst as [->| ->]; by apply (Hann k y Hy).
  - clear w r w' Hw Hr. intros a w r w' [Ha Hann] _ Hr. split; [|done]. pose proof (begin_active _ _ _ _ _ Hr) as Ha'.
    split; [congruence|].
    apply settled in Hr as [[? ->]|[[_ ->]|(es & new & d & d' & Hj & Ho & _ & -> & Hnew & Hcase)]]; [done..| |done|done].
    apply (pending_published es); [|done].
    assert (∀ es, pending es d) as Hp by (intros es'; by eapply pending_same_jobs; [apply announced_pending| |]).
    destruct Hcase as [(-> & -> & _)|(e & j & -> & _ & Ht & _ & He & Hs)]; [done|].
    eapply pending_saved; [apply Hp|exact Hs|]. intros _. exists e. split; [by apply list_elem_of_singleton|done].
Qed.

(** The event and the job an envelope names. *)
Definition names_job (envelope : list (text * json)) (event_id job_id : text) : Prop :=
  field (txt "id") envelope = Some (JStr event_id) ∧
  ∃ data, field (txt "data") envelope = Some (JObj data) ∧ field (txt "job_id") data = Some (JStr job_id).

Lemma handler_handles envelope w r w' : handler envelope w = (r, w') →
  (is_ok r = false ∧ w' = w) ∨
  ∃ event_id job_id conversation_id, names_job envelope event_id job_id ∧ handling event_id job_id conversation_id w = (r, w').
Proof.
  unfold knowledge_summary_handler, names_job. intros Hr.
  apply eff_bind_run in Hr as [(e & [= _ <-] & ->)|(data & w1 & [Hdata ->]%eff_lift_Ok & Hr)]; [by left|].
  apply eff_bind_run in Hr as [(e & [= _ <-] & ->)|(event_id & w1 & [Hid ->]%eff_lift_Ok & Hr)]; [by left|].
  apply eff_bind_run in Hr as [(e & [= _ <-] & ->)|(job_id & w1 & [Hjob ->]%eff_lift_Ok & Hr)]; [by left|].
  apply eff_bind_run in Hr as [(e & [= _ <-] & ->)|(c & w1 & [_ ->]%eff_lift_Ok & Hr)]; [by left|].
  right. exists event_id, job_id, c. split; [|done]. unfold subscript in *.
  destruct (field (txt "data") envelope) as [data'|]; [|done]. injection Hdata as ->.
  destruct (field (txt "id") envelope) as [[]|]; try done. injection Hid as ->. split; [done|].
  destruct data as [| | | | | | |fields]; try done. exists fields. split; [done|].
  destruct (field (txt "job_id") fields) as [[]|]; try done. by injection Hjob as ->.
Qed.

(** A delivery that finds its job over writes nothing. *)
Lemma over_untouched event_id job_id conversation_id w r w' :
  calm (over ctx job_id) w → handling event_id job_id conversation_id w = (r, w') → db w' = db w.
Proof.
  intros [Ha Hov]. set (same := λ d, d = db w).
  assert (∀ (w1 : W) x w2, calm same w1 → get_job ctx job_id w1 = (x, w2) → calm same w2 ∧
    ∀ o, x = Ok o → match o with Some j => is_terminal j | None => true end = true) as Hget.
  { intros w1 x w2 Hw1 Hx. apply (alone_reads _ _ _ _ _ _ _ Hw1) in Hx as [[? Hs] Ho]. split; [done|]. intros o Hok.
    rewrite (Ho o Hok). unfold same in Hs. rewrite Hs. unfold over in Hov. by destruct (select_job _ _ _). }
  assert (∀ reason (w1 : W) x w2, calm same w1 → fail_build ctx job_id reason w1 = (x, w2) → calm same w2 ∧ ∀ a, x ≠ Ok (Some a)) as Hfail.
  { intros reason w1 x w2 Hw1. unfold fail_build. intros [(e & Hg & ->)|(o & w3 & Hg & Hr)]%eff_bind_run;
      apply Hget in Hg as [? Ho]; try done. specialize (Ho o eq_refl). injection Hr as <- <-.
    split; [done|]. intros a. destruct o as [j|]; [|done]. by rewrite Ho. }
  unfold handle. destruct (claim ctx job_id w) as [x w1] eqn:Hc.
  assert (calm same w1 ∧ ∀ p, x ≠ Ok (Some p)) as [Hw1 Hx].
  { unfold claim in Hc. apply eff_bind_run in Hc as [(e & Hg & ->)|(o & w3 & Hg & Hr)]; apply Hget in Hg as [? Ho]; try done.
    specialize (Ho o eq_refl). destruct o as [j|]; [rewrite Ho in Hr|]; by injection Hr as <- <-. }
  destruct x as [[p|]|e]; [by destruct (Hx p)| |].
  - intros [= _ <-]. apply Hw1.
  - destruct (app_or_value_error e); [|intros [= _ <-]; apply Hw1].
    intros [(e' & Hf & _)|(f & w2 & Hf & Hr)]%eff_bind_run; apply Hfail in Hf as [Hw2 Hf]; [apply Hw2|done| |done].
    destruct f as [a|]; [by destruct (Hf a)|]. injection Hr as _ <-. apply Hw2.
Qed.

(** One event of one job, delivered any number of times, and what may happen in between. *)
Section Redelivery.
Context (envelope : list (text * json)) (event_id job_id : text).

Inductive delivery : W → W → Prop :=
  | delivered w r w' : handler envelope w = (r, w') → delivery w w'
  | meanwhile w w' : beside (apart ctx event_id job_id) w w' → delivery w w'.

(** C35: An acknowledged delivery leaves its summary job over.  One event is delivered any number
    of times, one delivery after another, with whatever failures of the database -- lost commits
    included -- and of the providers.  Between the deliveries and during the calls of a build
    other processes may do what keeps rows under their keys, neither claims nor unclaims this
    event, and does not give work back to this job once it has ended: cancel it, purge it, save
    other jobs, build on other events.  Then once a delivery is acknowledged the job has
    succeeded, failed or been cancelled, or is gone; a delivery that begins when the job is
    already over writes nothing at all; and the event is never marked as handled while the job
    has work left.  A job that ends while a delivery is under way may still be overwritten by
    it, and two overlapping deliveries of one event may leave it running: the demonstrations
    have a run of each. *)
Theorem acknowledged_builds_are_over `{!Outside (apart ctx event_id job_id) metering} w w' :
  names_job envelope event_id job_id → honest → calm (okay ctx event_id job_id) w → rtc delivery w w' →
  (claimed event_id (db w') → over ctx job_id (db w')) ∧
  ∀ r w'', handler envelope w' = (r, w'') →
    (r = Ok tt → over ctx job_id (db w'')) ∧ (over ctx job_id (db w') → db w'' = db w').
Proof.
  intros Hname Hon Hw Hrun.
  assert (∀ v r v', handler envelope v = (r, v') → (is_ok r = false ∧ v' = v) ∨
    ∃ c, handling event_id job_id c v = (r, v')) as Hhandle.
  { intros v r v' [?|(e & j & c & (He & data & Hdata & Hj) & Hr)]%handler_handles; [by left|right]. exists c.
    destruct Hname as (He' & data' & Hdata' & Hj'). by simplify_eq. }
  assert (calm (okay ctx event_id job_id) w') as Hw'.
  { eapply (rtc_invariant delivery); [|exact Hw|exact Hrun]. intros x y Hx Hstep. destruct Hstep as [x r y Hh|x y Hb].
    - apply Hhandle in Hh as [[_ ->]|[c Hh]]; [done|]. by apply (handle_okay _ _ _ _ _ _ Hon Hx Hh).
    - eapply calm_beside; [|exact Hx|exact Hb]. intros d d' (Hk & Hc & Ho) [? Hco]. split; [auto|]. rewrite Hc. auto. }
  split; [by destruct Hw' as [_ [_ ?]]|]. intros r w'' Hh. apply Hhandle in Hh as [[Hr ->]|[c Hh]]; [by split; [intros ->|]|].
  split; [by apply (handle_okay _ _ _ _ _ _ Hon Hw' Hh)|]. intros Hov. eapply over_untouched; [|exact Hh]. by destruct Hw'.
Qed.
End Redelivery.
End Outcomes.

(** Requests, cancellations and deliveries of any events, in any order. *)
Section Announcements.
Context `{SummaryPorts W, LlmStreams W} (timeout : Z) (decimal : Z → text).
Context (max_duration_s : option Z) (metering : option (Metering W)) (max_build_duration max_active_jobs : Z).

Inductive operation : W → W → Prop :=
  | requested ctx document_id k l conversation_id w r w' :
      request_summary max_build_duration max_active_jobs ctx document_id k l conversation_id w = (r, w') → operation w w'
  | stopped ctx job_id w r w' : cancel_summary ctx job_id w = (r, w') → operation w w'
  | handled ctx envelope w r w' :
      knowledge_summary_handler timeout decimal max_duration_s metering ctx envelope w = (r, w') → operation w w'
  | elsewhere w w' : beside telling w w' → operation w w'.

(** C36: No summary job ends in silence: whatever is requested, cancelled and delivered, in any
    order, by any workspace, whatever fails, for every job that has ended the outbox holds an
    event of its workspace, in its envelope, that says how: that it was built, where it
    succeeded; that it failed and for the very reason the row keeps, where it failed, was
    cancelled or was released as abandoned. *)
Theorem finished_jobs_are_announced `{!Outside telling metering} w w' :
  honest → calm announced w → rtc operation w w' → calm announced w'.
Proof.
  intros Hon. apply (rtc_invariant operation). intros x y Hx Hstep.
  destruct Hstep as [ctx doc k l c x r y Hr|ctx id x r y Hr|ctx envelope x r y Hr|x y Hb].
  - exact (request_announces _ _ _ _ _ _ _ _ _ _ Hx Hr).
  - exact (cancel_announces _ _ _ _ _ Hx Hr).
  - apply handler_handles in Hr as [[_ ->]|(e & j & c & _ & Hr)]; [done|]. by eapply handle_announces.
  - eapply calm_beside; [|exact Hx|exact Hb]. by intros d d'.
Qed.
End Announcements.
End Worlds.
