(* ===== verification/SummaryRequests.v ===== *)
(** * SummaryRequests: what asking for a summary does

    The ceiling on the builds of a workspace, the one build per document, kind and language, the
    release of an abandoned build, and what [BuildSummary.claim] does to a job that was cancelled
    in the meantime. *)

From S2P Require Import Prelude Text Calendar Errors Framework Transactions Files Keyset Events Wire Cursor Tables Streams Engine Outbox Sessions Knowledge Summarization KnowledgeDb KnowledgeSound KnowledgePorts SummaryJobs SummaryWorker.

Open Scope Z_scope.

Section Requests.
Context {V : Type} `{Env, DB : Database, Jsonb}.
Abbreviation W := (DbWorld KnowledgeDb V).
Implicit Types (w : W) (d : KnowledgeDb) (ctx : ExecutionContext).

(** A job that has work left counts. *)
Definition counts ctx (j : SummaryJob) : bool := active_job j && mine ctx (sj_workspace_id j).

Lemma count_active_eq ctx d :
  count_active_jobs ctx d = Z.of_nat (length (List.filter (λ kr, counts ctx kr.2) (map_to_list (summary_jobs d)))).
Proof.
  unfold count_active_jobs, own_active. do 2 f_equal. generalize (map_to_list (summary_jobs d)). intros l.
  induction l as [|[k j] l IH]; [done|]. cbn. fold (counts ctx j). destruct (counts ctx j); cbn; by rewrite IH.
Qed.

Lemma filter_length_perm {A} (p : A → bool) l k : l ≡ₚ k → length (List.filter p l) = length (List.filter p k).
Proof. induction 1; cbn; repeat case_match; cbn; congruence. Qed.

Lemma count_active_insert ctx j d : summary_jobs d !! sj_id j = None → counts ctx j = true →
  count_active_jobs ctx (with_summary_jobs (<[sj_id j := j]> (summary_jobs d)) d) = count_active_jobs ctx d + 1.
Proof.
  intros Hn Hj. rewrite !count_active_eq. cbn [with_summary_jobs summary_jobs].
  rewrite (filter_length_perm _ _ _ (map_to_list_insert _ _ _ Hn)). cbn. rewrite Hj. cbn. lia.
Qed.

(** Whom an admitted request moves out of the way. *)
Definition released (max_build_duration : Z) (now : instant) (x y : SummaryJob) : Prop :=
  sj_status x = RUNNING ∧ max_build_duration < now - sj_updated_at x ∧
  sj_status y = FAILED ∧ sj_error y = Some SUMMARY_ABANDONED_REASON ∧ sj_id y = sj_id x ∧
  sj_workspace_id y = sj_workspace_id x ∧ key_of_job y = key_of_job x.

Lemma select_active_spec ctx doc k l d j : select_active ctx doc k l d = Some j →
  ∃ id, summary_jobs d !! id = Some j ∧ counts ctx j = true ∧ key_of_job j = summary_key doc k l.
Proof.
  unfold select_active, own_active. intros [Hin Hk%bool_decide_eq_true]%find_some.
  apply filter_In in Hin as [Hin Hc]. apply list_elem_of_In, list_elem_of_fmap in Hin as ([id x] & -> & Hx%elem_of_map_to_list).
  by exists id.
Qed.

(** The rows that are neither the new job nor the one released stay as they are. *)
Definition moved_on ctx limit now (key : text * text * text) d d' : Prop :=
  ∀ id, summary_jobs d' !! id = summary_jobs d !! id ∨
    ∃ x y, summary_jobs d !! id = Some x ∧ summary_jobs d' !! id = Some y ∧ counts ctx x = true ∧ key_of_job x = key ∧
      released limit now x y.

Lemma release_run ctx limit now doc k l w es w' :
  keyed (db w) → active w = Some (workspace_id ctx) →
  release ctx limit now (select_active ctx doc k l (db w)) w = (Ok es, w') →
  active w' = active w ∧ documents (db w') = documents (db w) ∧ outbox_rows (db w') = outbox_rows (db w) ∧
  moved_on ctx limit now (summary_key doc k l) (db w) (db w').
Proof.
  intros Hk Ha. unfold release. destruct (select_active _ _ _ _ _) as [j|] eqn:Hj.
  2: { intros [= <- <-]. split_and!; [done..|]. by left. }
  apply select_active_spec in Hj as (id & Hj & Hc & Hkey). pose proof (Hk _ _ Hj) as <-.
  unfold is_abandoned. case_bool_decide as Hst; cbn [andb]; [|done]. destruct (limit <? _) eqn:Hl; [|done].
  rewrite eff_bind_Ok. intros (j' & w1 & [Hf ->]%eff_lift_Ok & Hr). apply eff_bind_Ok in Hr as ([] & w2 & Hs & Hr).
  injection Hr as <- <-. apply joined_run in Hs as [Ha2 [[? _]|(u & _ & [now' Hq]%update_job_saved)]]; [done| |done].
  unfold fail, is_terminal in Hf. rewrite Hst in Hf. cbn in Hf. injection Hf as <-. cbn [sj_id moved] in *.
  unfold select_job in Hq. rewrite Hj in Hq. unfold own in Hq. apply andb_true_iff in Hc as Hc'. destruct Hc' as [_ Hm].
  rewrite Hm in Hq. rewrite Hq. split_and!; [done..|]. intros id. cbn [with_summary_jobs summary_jobs].
  destruct (decide (sj_id j = id)) as [<-|Hne]; [|left; by rewrite lookup_insert_ne]. right. rewrite lookup_insert_eq.
  eexists j, _. split_and!; [done..|]. split_and!; [done|lia|done..].
Qed.

(** What an admitted request is: a queued job for an indexed document of the workspace, the only
    one with work left for its key, within the ceiling, announced; nothing else moves but an
    abandoned job for the same key, which is released. *)
Record admitted limit ceiling ctx (doc : text) (k : SummaryKind) (l : SummaryLanguage) (conversation_id : option text)
    (now : instant) (j : SummaryJob) d d' : Prop := {
  adm_document : ∃ x, select_document ctx doc d = Some x ∧ doc_status x = INDEXED;
  adm_job : j = queued_job ctx (sj_id j) doc k l now;
  adm_new : summary_jobs d !! sj_id j = None ∧ summary_jobs d' !! sj_id j = Some j;
  adm_only : ∀ id x, summary_jobs d' !! id = Some x → active_job x = true → key_of_job x = key_of_job j → id = sj_id j;
  adm_ceiling : count_active_jobs ctx d' ≤ ceiling;
  adm_others : ∀ id, id ≠ sj_id j → summary_jobs d' !! id = summary_jobs d !! id ∨
    ∃ x y, summary_jobs d !! id = Some x ∧ summary_jobs d' !! id = Some y ∧ key_of_job x = key_of_job j ∧ released limit now x y;
  adm_told : ∃ rows row, outbox_rows d' = outbox_rows d ++ rows ++ [row] ∧
    carries (SummaryRequested (sj_id j) (workspace_id ctx) doc (summary_kind_value k) (language_value l) conversation_id now) row
}.

Lemma insert_job_Ok ctx j d u d' : insert_job ctx j d = Ok (u, d') →
  summary_jobs d !! sj_id j = None ∧ mine ctx (sj_workspace_id j) = true ∧ key_taken j d = false ∧
  d' = with_summary_jobs (<[sj_id j := j]> (summary_jobs d)) d.
Proof.
  unfold insert_job. destruct (mine _ _); [|done]. cbn [negb]. case_bool_decide as Hn; [done|]. cbn [orb].
  destruct (key_taken j d); [done|]. intros [= _ <-]. split_and!; [|done..]. by apply eq_None_not_Some.
Qed.

(** The body of a request, in its transaction. *)
Lemma request_run limit ceiling ctx doc k l conversation_id w j es w' :
  keyed (db w) → active w = Some (workspace_id ctx) →
  RequestSummary limit ceiling ctx doc k l conversation_id w = (Ok (j, es), w') →
  active w' = active w ∧ outbox_rows (db w') = outbox_rows (db w) ∧
  ∃ now es0, es = es0 ++ [SummaryRequested (sj_id j) (workspace_id ctx) doc (summary_kind_value k) (language_value l)
                            conversation_id now] ∧
    ∀ d', summary_jobs d' = summary_jobs (db w') →
      (∃ rows row, outbox_rows d' = outbox_rows (db w) ++ rows ++ [row] ∧
        carries (SummaryRequested (sj_id j) (workspace_id ctx) doc (summary_kind_value k) (language_value l) conversation_id now) row) →
      admitted limit ceiling ctx doc k l conversation_id now j (db w) d'.
Proof.
  intros Hk Ha. unfold RequestSummary. rewrite eff_bind_Ok. intros (row & w1 & Hg & Hr).
  apply joined_reads in Hg as (Ha1 & Hd1 & Hrow); [|done]. specialize (Hrow _ eq_refl). destruct row as [x|]; [|done].
  case_bool_decide as Hst; [|done]. cbn [negb] in Hr.
  apply eff_bind_Ok in Hr as (now & w2 & (Hd2 & Ha2 & _)%utc_now_run & Hr).
  apply eff_bind_Ok in Hr as (act & w3 & Hg & Hr). apply joined_reads in Hg as (Ha3 & Hd3 & Hact); [|congruence].
  specialize (Hact _ eq_refl). subst act. rewrite Hd2, Hd1 in Hd3. rewrite Hd2, Hd1, <- Hd3 in Hr.
  apply eff_bind_Ok in Hr as (es0 & w4 & Hrel & Hr).
  apply release_run in Hrel as (Ha4 & Hdoc & Hout & Hmoved); [|by rewrite Hd3|congruence].
  apply eff_bind_Ok in Hr as (n & w5 & Hg & Hr). apply joined_reads in Hg as (Ha5 & Hd5 & Hn); [|congruence].
  specialize (Hn _ eq_refl). destruct (ceiling <=? n) eqn:Hc; [done|].
  apply eff_bind_Ok in Hr as (id & w6 & (Hd6 & Ha6 & _)%new_uuid7_run & Hr).
  apply eff_bind_Ok in Hr as ([] & w7 & Hadd & Hr). injection Hr as <- <- <-.
  apply joined_stmt in Hadd as [Ha7 [[? _]|(u & _ & Hq)]]; [done| |congruence].
  apply insert_job_Ok in Hq as (Hnew & Hm & Hkey & Hd7). rewrite Hd6, Hd5 in Hnew, Hkey, Hd7.
  split; [congruence|]. split; [rewrite Hd7; cbn [with_summary_jobs outbox_rows]; congruence|].
  exists now, es0. split; [done|]. intros d' Hjobs Htold. rewrite Hd7 in Hjobs. cbn [with_summary_jobs summary_jobs] in Hjobs.
  assert (count_active_jobs ctx d' = count_active_jobs ctx (db w4) + 1) as Hcount.
  { rewrite <- (count_active_insert ctx (queued_job ctx id doc k l now)); [|done|by unfold counts; rewrite Hm].
    unfold count_active_jobs, own_active. by rewrite Hjobs. }
  split.
  - exists x. split; [congruence|done].
  - done.
  - rewrite Hjobs, lookup_insert_eq. split; [|done]. cbn [sj_id queued_job] in *.
    destruct (Hmoved id) as [Heq|(? & y & _ & Hy & _)]; congruence.
  - intros i y Hy Hact Hky. rewrite Hjobs in Hy. apply lookup_insert_Some in Hy as [[<- _]|[Hne Hy]]; [done|].
    exact (key_taken_spec _ _ Hkey eq_refl i y Hy Hact Hky).
  - rewrite Hcount, <- Hn. apply Z.leb_gt in Hc. lia.
  - intros i Hne. rewrite Hjobs, lookup_insert_ne by done. rewrite <- Hd3.
    destruct (Hmoved i) as [?|(y & z & ? & ? & _ & ? & ?)]; [by left|right]. by exists y, z.
  - done.
Qed.

(** C37: The requests of a workspace keep its ceiling.  A request for a summary either changes
    nothing, or queues exactly one job: for a document of the workspace that is indexed, with no
    other job at work for the same document, kind and language, with never more jobs at work in
    the workspace than the ceiling, and with the event that asks for it; of the other jobs it
    ends one at most, for the same key and silent for longer than a build may last.  Only where a
    commit is reported lost can the caller be refused what was done. *)
Theorem requests_keep_the_ceiling limit ceiling ctx doc k l conversation_id w r w' :
  calm keyed w → request_summary limit ceiling ctx doc k l conversation_id w = (r, w') →
  (is_ok r = false ∧ db w' = db w) ∨
  ∃ j now, admitted limit ceiling ctx doc k l conversation_id now j (db w) (db w') ∧ (r = Ok j ∨ is_ok r = false).
Proof.
  intros [Ha Hk] Hr. apply begin_run in Hr as [?|(j & w1 & w2 & Hd1 & Ha1 & _ & _ & _ & Hb & Hd & Hr)]; [by left|right].
  apply eff_bind_Ok in Hb as ([] & w3 & Hh & Hb). apply hold_run in Hh as [Ha3 Hd3]; [|done].
  apply eff_bind_Ok in Hb as ([j' es] & w4 & Hreq & Hb).
  apply request_run in Hreq as (Ha4 & Ho4 & now & es0 & Hes & Hadm); [|by rewrite Hd3, Hd1|congruence].
  apply eff_bind_Ok in Hb as ([] & w5 & Hp & Hb). injection Hb as -> <-.
  apply publish_run in Hp as [_ [[? _]|(new & _ & Hd5 & Hnew)]]; [done| |congruence].
  exists j, now. split; [|done]. rewrite Hd3, Hd1 in Hadm, Ho4. apply Hadm; [by rewrite Hd, Hd5|].
  rewrite Hes in Hnew. apply Forall2_app_inv_l in Hnew as (rows & last_ & _ & Hlast & ->).
  apply Forall2_cons_inv_l in Hlast as (row & tl & Hrow & Htl & ->). apply Forall2_nil_inv_l in Htl as ->.
  exists rows, row. split; [|done]. rewrite Hd, Hd5. cbn [with_outbox outbox_rows]. by rewrite Ho4.
Qed.
End Requests.
