(* ===== verification/SummaryDemo.v ===== *)
(** * SummaryDemo: documents and their summaries at work *)

From S2P Require Import Prelude Text Calendar Errors Framework Transactions Sessions Files Keyset Events Wire Cursor Tables Streams Engine Outbox Knowledge Summarization KnowledgeDb KnowledgeSound KnowledgePorts KnowledgePurges SummaryJobs SummaryWorker SummaryRequests.

Open Scope Z_scope.

#[local] Instance demo_clock : Env := demo_env 1000.
#[local] Instance demo_database : Database := {| now_at i := 5000 + Z.of_nat i; fault _ := None |}.
#[local] Instance plain_jsonb : Jsonb := {| jsonb j := j |}.

(** One indexed document in one space, in one chunk under one parent. *)
Definition report : Document :=
  mk_Document (txt "d1") (workspace_id demo_ctx) (Some (txt "sp1")) (txt "f1") INDEXED 1 None 0 0 1 None (Some 7) 1 0 0.
Definition report_parent : ParentChunk :=
  mk_ParentChunk (txt "p1") (txt "d1") (workspace_id demo_ctx) 0 (txt "the whole report") 0 true.
Definition report_chunk : Chunk :=
  mk_Chunk (txt "c1") (txt "d1") (workspace_id demo_ctx) 0 (txt "the report") None (Some (mk_VectorRef (txt "v1") (txt "q1")))
    (Some (txt "p1")).
Definition demo_db : KnowledgeDb :=
  mk_KnowledgeDb {[txt "d1" := report]} {[(txt "d1", 0) := report_chunk]} {[(txt "d1", 0) := report_parent]} ∅ ∅ ∅ ∅ [] [].
Definition world (d : KnowledgeDb) : DbWorld KnowledgeDb unit := mk_DbWorld d tt None 0 0 0 0.

(** A model that answers ["ok"] at once; nothing happens beside its calls. *)
#[local] Instance quick_streams : LlmStreams (DbWorld KnowledgeDb unit) := {|
  stream _ _ _ _ w := ((0, Delta 0 0 (txt "ok") (Some (txt "stop")) (Ends 0 0)), w);
  aclose w := w
|}.
Definition quick_ports : SummaryPorts (DbWorld KnowledgeDb unit) := {|
  resolve_summarizer _ w := (Ok demo_summarizer, w);
  expired _ := false;
  exn_text _ := txt "failed"
|}.

Lemma quick_outside I : (∀ d, I d d) → Outside (H1 := quick_ports) I None.
Proof. intros HI. split; intros; by split. Qed.

Lemma demo_db_honest : honest.
Proof. done. Qed.

(** ** A request *)

Definition ask (w : DbWorld KnowledgeDb unit) :=
  request_summary DEFAULT_MAX_BUILD_DURATION DEFAULT_MAX_ACTIVE_JOBS demo_ctx (txt "d1") OVERVIEW EN None w.

Definition asked : DbWorld KnowledgeDb unit := (ask (world demo_db)).2.

Lemma asked_Ok : ∃ j, ask (world demo_db) = (Ok j, asked) ∧ sj_id j = [0].
Proof. eexists. split; [unfold asked; vm_compute; reflexivity|reflexivity]. Qed.

Lemma demo_keyed : keyed demo_db.
Proof. intros id j. cbn. by rewrite lookup_empty. Qed.

Example requests_keep_the_ceiling_witness :
  ∃ j now, admitted DEFAULT_MAX_BUILD_DURATION DEFAULT_MAX_ACTIVE_JOBS demo_ctx (txt "d1") OVERVIEW EN None now j
             (db (world demo_db)) (db asked).
Proof.
  destruct asked_Ok as (j & Hj & _).
  destruct (requests_keep_the_ceiling _ _ _ _ _ _ _ _ _ _ (conj eq_refl demo_keyed : calm keyed (world demo_db)) Hj)
    as [[Hn _]|(j' & now & Hadm & _)].
  - discriminate Hn.
  - exists j', now. exact Hadm.
Defined.

(** ** A build *)

Definition demo_envelope : list (text * json) :=
  [(txt "id", JStr (txt "e1")); (txt "data", JObj [(txt "job_id", JStr [0])])].

Definition deliver (ports : SummaryPorts (DbWorld KnowledgeDb unit)) (w : DbWorld KnowledgeDb unit) :=
  knowledge_summary_handler (H1 := ports) DEFAULT_CALL_TIMEOUT demo_decimal (Some 1800) None demo_ctx demo_envelope w.

Definition built : DbWorld KnowledgeDb unit := (deliver quick_ports asked).2.

Lemma built_Ok : deliver quick_ports asked = (Ok tt, built).
Proof. unfold built. vm_compute. reflexivity. Qed.

Definition status_of (w : DbWorld KnowledgeDb unit) : option SummaryJobStatus := sj_status <$> summary_jobs (db w) !! [0].

Lemma asked_okay : calm (okay demo_ctx (txt "e1") [0]) asked.
Proof.
  split; [vm_compute; reflexivity|]. split.
  - intros id j Hj. assert (summary_jobs (db asked) = {[ [0] := queued_job demo_ctx [0] (txt "d1") OVERVIEW EN 1000 ]}) as Heq
      by (vm_compute; reflexivity).
    rewrite Heq in Hj. apply lookup_singleton_Some in Hj as [<- <-]. reflexivity.
  - intros Hc. assert (processed_events (db asked) = []) as Heq by (vm_compute; reflexivity). unfold claimed in Hc. rewrite Heq in Hc.
    apply not_elem_of_nil in Hc. destruct Hc.
Qed.

Example acknowledged_builds_are_over_witness :
  over demo_ctx [0] (db built) ∧ status_of asked = Some QUEUED ∧ status_of built = Some SUCCEEDED.
Proof.
  assert (Outside (H1 := quick_ports) (apart demo_ctx (txt "e1") [0]) None) as Hout by (apply quick_outside; intros d; by split_and!).
  destruct (acknowledged_builds_are_over (H1 := quick_ports) DEFAULT_CALL_TIMEOUT demo_decimal (Some 1800) None demo_ctx demo_envelope
    (txt "e1") [0] asked asked) as [_ Hall].
  - split; [reflexivity|]. eexists. split; reflexivity.
  - exact demo_db_honest.
  - exact asked_okay.
  - apply rtc_refl.
  - destruct (Hall _ _ built_Ok) as [Hover _]. split; [exact (Hover eq_refl)|]. split; vm_compute; reflexivity.
Defined.

Example finished_jobs_are_announced_witness :
  calm announced built ∧ status_of built = Some SUCCEEDED ∧
  or_event_type <$> outbox_rows (db built) = [txt "knowledge.summary.requested.v1"; txt "knowledge.summary.built.v1"].
Proof.
  assert (Outside (H1 := quick_ports) telling None) as Hout by (apply quick_outside; by intros d Hd).
  split; [|split; vm_compute; reflexivity].
  apply (finished_jobs_are_announced (H1 := quick_ports) DEFAULT_CALL_TIMEOUT demo_decimal (Some 1800) None
    DEFAULT_MAX_BUILD_DURATION DEFAULT_MAX_ACTIVE_JOBS (world demo_db) built).
  - exact demo_db_honest.
  - split; [reflexivity|]. intros id j Hj. cbn in Hj. rewrite lookup_empty in Hj. discriminate Hj.
  - destruct asked_Ok as (j & Hj & _). eapply rtc_l; [exact (requested _ _ _ _ _ _ _ _ _ _ _ _ _ _ Hj)|].
    eapply rtc_l; [exact (handled _ _ _ _ _ _ _ _ _ _ _ built_Ok)|]. apply rtc_refl.
Defined.

(** A cancellation that commits while the worker resolves its model is overwritten: the claim
    saves the job it had read, and the build that was cancelled -- and announced as such --
    succeeds. *)
Definition cancelling_ports : SummaryPorts (DbWorld KnowledgeDb unit) := {|
  resolve_summarizer _ w := let '(_, w') := cancel_summary demo_ctx [0] w in (Ok demo_summarizer, w');
  expired _ := false;
  exn_text _ := txt "failed"
|}.

Example cancellation_is_overwritten :
  let w := deliver cancelling_ports asked in
  w.1 = Ok tt ∧ status_of w.2 = Some SUCCEEDED ∧
  or_event_type <$> outbox_rows (db w.2) =
    [txt "knowledge.summary.requested.v1"; txt "knowledge.summary.build_failed.v1"; txt "knowledge.summary.built.v1"].
Proof. vm_compute. split_and!; reflexivity. Qed.

(** A second delivery of the event that is read before the first has settled, and claims after
    it: the save reopens the job, the build's settlement finds the event claimed and is
    acknowledged, and nothing is left that would end the job but its release as abandoned. *)
Definition overlapping_ports : SummaryPorts (DbWorld KnowledgeDb unit) := {|
  resolve_summarizer _ w := let '(_, w') := deliver quick_ports w in (Ok demo_summarizer, w');
  expired _ := false;
  exn_text _ := txt "failed"
|}.

Example overlapping_deliveries_reopen :
  let w := deliver overlapping_ports asked in
  w.1 = Ok tt ∧ status_of w.2 = Some RUNNING ∧ processed_events (db w.2) = [(CG_KNOWLEDGE, txt "e1")].
Proof. vm_compute. split_and!; reflexivity. Qed.

(** ** A purge *)

Lemma demo_sound : sound demo_db.
Proof.
  split; cbn [documents knowledge_chunks parent_chunks reindex_job_items summaries summary_jobs demo_db]; intros *; rewrite ?lookup_empty; try done.
  - intros [<- <-]%lookup_singleton_Some. reflexivity.
  - intros [<- <-]%lookup_singleton_Some. split; [reflexivity|]. split; [reflexivity|]. intros p [= <-].
    exists (txt "d1", 0), report_parent. split; [|by split]. apply lookup_singleton_Some. by split.
  - intros [<- <-]%lookup_singleton_Some. reflexivity.
Qed.

Example purges_leave_nothing_witness :
  ∃ w', purge_scope demo_ctx (InSpace (txt "sp1")) (world demo_db) = (Ok 1, w') ∧ documents (db w') = ∅ ∧ knowledge_chunks (db w') = ∅.
Proof.
  destruct (purge_scope demo_ctx (InSpace (txt "sp1")) (world demo_db)) as [r w'] eqn:Hr.
  destruct (purges_leave_nothing demo_ctx (InSpace (txt "sp1")) I (world demo_db) r w' eq_refl demo_sound Hr) as (_ & Hquiet & _).
  destruct (Hquiet (λ _, eq_refl)) as [-> Hd]. exists w'. split; [reflexivity|]. rewrite Hd. split; vm_compute; reflexivity.
Defined.
