(* ===== verification/Conversations.v ===== *)
(** * Conversations: threads, their messages and the files they pin

    [modules/conversations/] (domain, repository adapter, use cases and the inbound service)
    over the three tables of [migrations/versions/conversations]. *)

From S2P Require Import Prelude Text Calendar Errors Framework Transactions Files Keyset Events Wire Cursor.

Open Scope Z_scope.

(** ** Domain *)

Inductive ConversationErr : Type := InvalidConversationInput | ConversationDeletedError.

Inductive ConversationKind : Type := AGENT | WORKFLOW.
Inductive MessageRole : Type := USER | ASSISTANT | SYSTEM | TOOL.

#[export] Instance ConversationKind_eq_dec : EqDecision ConversationKind.
Proof. solve_decision. Defined.
#[export] Instance MessageRole_eq_dec : EqDecision MessageRole.
Proof. solve_decision. Defined.

Definition kind_value (k : ConversationKind) : text :=
  match k with AGENT => txt "agent" | WORKFLOW => txt "workflow" end.
Definition role_value (r : MessageRole) : text :=
  match r with
  | USER => txt "user" | ASSISTANT => txt "assistant" | SYSTEM => txt "system" | TOOL => txt "tool"
  end.

Definition parse_kind (t : text) : option ConversationKind :=
  List.find (λ k, bool_decide (kind_value k = t)) [AGENT; WORKFLOW].
Definition parse_role (t : text) : option MessageRole :=
  List.find (λ r, bool_decide (role_value r = t)) [USER; ASSISTANT; SYSTEM; TOOL].

Definition MAX_AGENT_KEY_LEN : Z := 64.

(** [_AGENT_KEY_RE] *)
Definition slug_head (c : Z) : bool := is_lower c || is_digit c.
Definition slug_char (c : Z) : bool := slug_head c || (c =? 95) || (c =? 45).
Definition agent_key_re (t : text) : bool :=
  match t with c :: t => slug_head c && forallb slug_char t | [] => false end.

Definition new_AgentKey `{Unicode} (value : text) : result ConversationErr text :=
  let normalized := lower (strip value) in
  if bool_decide (normalized = []) then Err InvalidConversationInput
  else if MAX_AGENT_KEY_LEN <? len normalized then Err InvalidConversationInput
  else if negb (at_dollar agent_key_re normalized) then Err InvalidConversationInput
  else Ok normalized.

Record MessageContent := mk_MessageContent { mc_text : text; mc_attachments : list text }.

Definition new_MessageContent (t : text) (attachments : list text) : result ConversationErr MessageContent :=
  let trimmed_text := strip t in
  if existsb (λ a, bool_decide (strip a = [])) attachments then Err InvalidConversationInput
  else if bool_decide (trimmed_text = []) && bool_decide (attachments = []) then Err InvalidConversationInput
  else Ok (mk_MessageContent trimmed_text attachments).

Record Conversation := mk_Conversation {
  cv_id : text;
  cv_workspace_id : text;
  cv_space_id : option text;
  cv_agent_key : text;
  cv_kind : ConversationKind;
  cv_title : option text;
  cv_created_by : option text;
  cv_created_at : instant;
  cv_updated_at : instant;
  cv_deleted_at : option instant;
  cv_version : Z;
  cv_message_count : Z;
  cv_model_route : option text;
  cv_pending_clarification : list text
}.

Record Message := mk_Message {
  mg_id : text;
  mg_conversation_id : text;
  mg_workspace_id : text;
  mg_role : MessageRole;
  mg_content : MessageContent;
  mg_token_count : option Z;
  mg_seq : Z;
  mg_created_at : instant;
  mg_deleted_at : option instant
}.

Record PinnedFile := mk_PinnedFile {
  pf_conversation_id : text; pf_file_id : text; pf_workspace_id : text; pf_created_at : instant
}.

Definition is_deleted (c : Conversation) : bool := bool_decide (cv_deleted_at c ≠ None).

(** The fields a mutation sets; the others stay. *)
Definition with_fields (title route : option text) (pending : list text) (deleted : option instant) (now : instant)
    (c : Conversation) : Conversation :=
  mk_Conversation (cv_id c) (cv_workspace_id c) (cv_space_id c) (cv_agent_key c) (cv_kind c) title
    (cv_created_by c) (cv_created_at c) now deleted (cv_version c) (cv_message_count c) route pending.

Definition rename (title : option text) (now : instant) (c : Conversation) : result ConversationErr Conversation :=
  _ ← raise_if (is_deleted c) ConversationDeletedError;
  Ok (with_fields title (cv_model_route c) (cv_pending_clarification c) (cv_deleted_at c) now c).

Definition pin_model_route (route : option text) (now : instant) (c : Conversation)
    : result ConversationErr Conversation :=
  _ ← raise_if (is_deleted c) ConversationDeletedError;
  Ok (with_fields (cv_title c) route (cv_pending_clarification c) (cv_deleted_at c) now c).

Definition expect_clarification (options : list text) (now : instant) (c : Conversation)
    : result ConversationErr Conversation :=
  _ ← raise_if (is_deleted c) ConversationDeletedError;
  Ok (with_fields (cv_title c) (cv_model_route c) options (cv_deleted_at c) now c).

Definition soft_delete (now : instant) (c : Conversation) : Conversation :=
  if is_deleted c then c
  else with_fields (cv_title c) (cv_model_route c) (cv_pending_clarification c) (Some now) now c.

(** The aggregate it leaves behind is dropped by its only caller; its message is what counts. *)
Definition append_message (message_id : text) (role : MessageRole) (content : MessageContent)
    (token_count : option Z) (now : instant) (c : Conversation) : result ConversationErr Message :=
  _ ← raise_if (is_deleted c) ConversationDeletedError;
  Ok (mk_Message message_id (cv_id c) (cv_workspace_id c) role content token_count (cv_message_count c + 1) now None).

Definition soft_delete_message (now : instant) (m : Message) : Message :=
  match mg_deleted_at m with
  | Some _ => m
  | None => mk_Message (mg_id m) (mg_conversation_id m) (mg_workspace_id m) (mg_role m) (mg_content m)
              (mg_token_count m) (mg_seq m) (mg_created_at m) (Some now)
  end.

Inductive ConversationEvent : Type :=
  | ConversationStarted (ce_conversation_id ce_workspace_id ce_agent_key ce_kind : text) (ce_at : instant)
  | MessageAppended (ce_message_id ce_conversation_id ce_role : text) (ce_seq : Z) (ce_at : instant)
  | ConversationRenamed (ce_conversation_id : text) (ce_at : instant)
  | ConversationDeleted (ce_conversation_id ce_workspace_id : text) (ce_at : instant).

(** ** The tables *)

Record ConversationRow := mk_ConversationRow {
  cr_workspace_id : text;
  cr_space_id : option text;
  cr_agent_key : text;
  cr_kind : text;
  cr_title : option text;
  cr_model_route : option text;
  cr_pending_clarification : option (list text);
  cr_created_by : option text;
  cr_created_at : instant;
  cr_updated_at : instant;
  cr_deleted_at : option instant;
  cr_version : Z
}.

Record MessageRow := mk_MessageRow {
  ms_conversation_id : text;
  ms_workspace_id : text;
  ms_role : text;
  ms_content : text * list text;
  ms_token_count : option Z;
  ms_seq : Z;
  ms_created_at : instant;
  ms_deleted_at : option instant
}.

Record PinRow := mk_PinRow { pr_workspace_id : text; pr_created_at : instant }.

Record ConversationsDb := mk_ConversationsDb {
  conversations : gmap text ConversationRow;
  messages : gmap text MessageRow;
  conversation_files : gmap (text * text) PinRow
}.

Definition with_conversations (t : gmap text ConversationRow) (d : ConversationsDb) : ConversationsDb :=
  mk_ConversationsDb t (messages d) (conversation_files d).
Definition with_messages (t : gmap text MessageRow) (d : ConversationsDb) : ConversationsDb :=
  mk_ConversationsDb (conversations d) t (conversation_files d).
Definition with_pins (t : gmap (text * text) PinRow) (d : ConversationsDb) : ConversationsDb :=
  mk_ConversationsDb (conversations d) (messages d) t.

Definition INT4_MAX : Z := 2 ^ 31 - 1.
Definition int4 (n : Z) : bool := (- 2 ^ 31 <=? n) && (n <=? INT4_MAX).
Definition numeric_out_of_range : DbFault := Dbapi (Some (txt "22003")).
Definition foreign_key_violation : DbFault := Dbapi (Some (txt "23503")).

(** [_pending_to_json] *)
Definition pending_to_json (options : list text) : option (list text) :=
  if bool_decide (options = []) then None else Some options.

Definition conversation_row (c : Conversation) : ConversationRow :=
  mk_ConversationRow (cv_workspace_id c) (cv_space_id c) (cv_agent_key c) (kind_value (cv_kind c)) (cv_title c)
    (cv_model_route c) (pending_to_json (cv_pending_clarification c)) (cv_created_by c) (cv_created_at c)
    (cv_updated_at c) (cv_deleted_at c) (cv_version c).

Definition message_row (m : Message) : MessageRow :=
  mk_MessageRow (mg_conversation_id m) (mg_workspace_id m) (role_value (mg_role m))
    (mc_text (mg_content m), mc_attachments (mg_content m)) (mg_token_count m) (mg_seq m) (mg_created_at m)
    (mg_deleted_at m).

Definition domain_exn (e : ConversationErr) : exn :=
  match e with
  | InvalidConversationInput => Other "InvalidConversationInput"
  | ConversationDeletedError => Other "ConversationDeletedError"
  end.

(** [_hydrate_conversation] *)
Definition hydrate_conversation `{Unicode} (id : text) (r : ConversationRow) (message_count : Z)
    : result exn Conversation :=
  key ← map_err domain_exn (new_AgentKey (cr_agent_key r));
  kind ← match parse_kind (cr_kind r) with Some k => Ok k | None => Err (Other "ValueError") end;
  Ok (mk_Conversation id (cr_workspace_id r) (cr_space_id r) key kind (cr_title r) (cr_created_by r)
        (cr_created_at r) (cr_updated_at r) (cr_deleted_at r) (cr_version r) message_count (cr_model_route r)
        (default [] (cr_pending_clarification r))).

(** [_hydrate_message] *)
Definition hydrate_message (id : text) (r : MessageRow) : result exn Message :=
  role ← match parse_role (ms_role r) with Some x => Ok x | None => Err (Other "ValueError") end;
  content ← map_err domain_exn (new_MessageContent (ms_content r).1 (ms_content r).2);
  Ok (mk_Message id (ms_conversation_id r) (ms_workspace_id r) role content (ms_token_count r) (ms_seq r)
        (ms_created_at r) (ms_deleted_at r)).

(** [_hydrate_pinned_file] *)
Definition hydrate_pinned_file (k : text * text) (r : PinRow) : PinnedFile :=
  mk_PinnedFile k.1 k.2 (pr_workspace_id r) (pr_created_at r).

(** ** Statements

    Row-level security lets a statement see and write the rows of the context's workspace only,
    which is also what each [WHERE] asks for; primary keys, unique indexes and foreign keys
    know no workspace. *)

Section Statements.
Implicit Types (ctx : ExecutionContext) (d : ConversationsDb).

Definition mine ctx (workspace : text) : bool := bool_decide (workspace = workspace_id ctx).

Definition message_of (conversation_id workspace : text) (r : MessageRow) : bool :=
  bool_decide (ms_conversation_id r = conversation_id) && bool_decide (ms_workspace_id r = workspace).

(** The sequence numbers of a thread, those of soft-deleted messages included. *)
Definition seqs (conversation_id workspace : text) d : list Z :=
  (λ kr, ms_seq kr.2) <$> List.filter (λ kr, message_of conversation_id workspace kr.2) (map_to_list (messages d)).

(** [_message_count_column]: [COALESCE(MAX(seq), 0)]. *)
Definition message_count (conversation_id workspace : text) d : Z :=
  match seqs conversation_id workspace d with [] => 0 | s :: l => foldl Z.max s l end.

(** The row a context may see. *)
Definition visible ctx (id : text) d : option ConversationRow :=
  match conversations d !! id with
  | Some r => if mine ctx (cr_workspace_id r) then Some r else None
  | None => None
  end.

Definition select_conversation ctx (id : text) d : option (ConversationRow * Z) :=
  (λ r, (r, message_count id (cr_workspace_id r) d)) <$> visible ctx id d.

Definition insert_conversation ctx (c : Conversation) d : result DbFault (unit * ConversationsDb) :=
  if negb (mine ctx (cv_workspace_id c)) then Err insufficient_privilege
  else if negb (int4 (cv_version c)) then Err numeric_out_of_range
  else if bool_decide (is_Some (conversations d !! cv_id c)) then Err unique_violation
  else Ok (tt, with_conversations (<[cv_id c := conversation_row c]> (conversations d)) d).

(** What [save] sets; the trigger [trg_touch] sets [updated_at]. *)
Definition saved_row (c : Conversation) (now : instant) (r : ConversationRow) : ConversationRow :=
  mk_ConversationRow (cr_workspace_id r) (cr_space_id r) (cr_agent_key r) (cr_kind r) (cv_title c)
    (cv_model_route c) (pending_to_json (cv_pending_clarification c)) (cr_created_by r) (cr_created_at r) now
    (cv_deleted_at c) (cr_version r + 1).

Definition update_conversation ctx (c : Conversation) (now : instant) d
    : result DbFault (option (Z * instant) * ConversationsDb) :=
  match visible ctx (cv_id c) d with
  | Some r =>
      if cr_version r =? cv_version c then
        if int4 (cr_version r + 1)
        then Ok (Some (cr_version r + 1, now), with_conversations (<[cv_id c := saved_row c now r]> (conversations d)) d)
        else Err numeric_out_of_range
      else Ok (None, d)
  | None => Ok (None, d)
  end.

(** [uq_msg_seq] *)
Definition seq_taken (conversation_id : text) (seq : Z) d : bool :=
  existsb (λ r, bool_decide (ms_conversation_id r = conversation_id) && (ms_seq r =? seq)) (map_to_list (messages d)).*2.

Definition insert_message ctx (m : Message) d : result DbFault (unit * ConversationsDb) :=
  if negb (int4 (mg_seq m)) || negb (match mg_token_count m with Some n => int4 n | None => true end)
  then Err numeric_out_of_range
  else if negb (mine ctx (mg_workspace_id m)) then Err insufficient_privilege
  else if bool_decide (is_Some (messages d !! mg_id m)) || seq_taken (mg_conversation_id m) (mg_seq m) d
  then Err unique_violation
  else if bool_decide (conversations d !! mg_conversation_id m = None) then Err foreign_key_violation
  else Ok (tt, with_messages (<[mg_id m := message_row m]> (messages d)) d).

Definition bumped_row (now : instant) (r : ConversationRow) : ConversationRow :=
  mk_ConversationRow (cr_workspace_id r) (cr_space_id r) (cr_agent_key r) (cr_kind r) (cr_title r)
    (cr_model_route r) (cr_pending_clarification r) (cr_created_by r) (cr_created_at r) now (cr_deleted_at r)
    (cr_version r + 1).

Definition bump_version ctx (id : text) (now : instant) d : result DbFault (option Z * ConversationsDb) :=
  match visible ctx id d with
  | Some r =>
      if int4 (cr_version r + 1)
      then Ok (Some (cr_version r + 1), with_conversations (<[id := bumped_row now r]> (conversations d)) d)
      else Err numeric_out_of_range
  | None => Ok (None, d)
  end.

Definition select_message ctx (conversation_id id : text) d : option MessageRow :=
  match messages d !! id with
  | Some r => if message_of conversation_id (workspace_id ctx) r then Some r else None
  | None => None
  end.

Definition marked_row (deleted : option instant) (r : MessageRow) : MessageRow :=
  mk_MessageRow (ms_conversation_id r) (ms_workspace_id r) (ms_role r) (ms_content r) (ms_token_count r) (ms_seq r)
    (ms_created_at r) deleted.

Definition update_message ctx (m : Message) d : result DbFault (option text * ConversationsDb) :=
  match messages d !! mg_id m with
  | Some r =>
      if mine ctx (ms_workspace_id r)
      then Ok (Some (mg_id m), with_messages (<[mg_id m := marked_row (mg_deleted_at m) r]> (messages d)) d)
      else Ok (None, d)
  | None => Ok (None, d)
  end.

(** The listings: threads newest first, messages in sequence, pins in the order they were made. *)
Definition listed_thread ctx (agent_key : text) (space_id : option text) (kr : text * ConversationRow) : bool :=
  mine ctx (cr_workspace_id kr.2) && bool_decide (cr_agent_key kr.2 = agent_key) &&
  bool_decide (cr_deleted_at kr.2 = None) &&
  match space_id with Some s => bool_decide (cr_space_id kr.2 = Some s) | None => true end.

Definition select_threads ctx (agent_key : text) (space_id : option text) (limit : nat) (after : option text) d
    : list (text * (ConversationRow * Z)) :=
  (λ kr, (kr.1, (kr.2, message_count kr.1 (cr_workspace_id kr.2) d))) <$>
  select_page fst (List.filter (listed_thread ctx agent_key space_id) (map_to_list (conversations d))) limit after.

Definition seq_key (kr : text * MessageRow) : text := [- ms_seq kr.2].

Definition live_messages ctx (conversation_id : text) d : list (text * MessageRow) :=
  List.filter (λ kr, message_of conversation_id (workspace_id ctx) kr.2 && bool_decide (ms_deleted_at kr.2 = None))
    (map_to_list (messages d)).

Definition select_messages ctx (conversation_id : text) (limit : nat) (after : option Z) d
    : result DbFault (list (text * MessageRow) * ConversationsDb) :=
  if match after with Some s => negb (int4 s) | None => false end then Err numeric_out_of_range
  else Ok (select_page seq_key (live_messages ctx conversation_id d) limit ((λ s, [- s]) <$> after), d).

Definition count_threads ctx (space : text) d : Z :=
  Z.of_nat (length (List.filter (λ r, mine ctx (cr_workspace_id r) && bool_decide (cr_space_id r = Some space) &&
                                      bool_decide (cr_deleted_at r = None)) (map_to_list (conversations d)).*2)).

Definition select_counts ctx (space_ids : list text) d : gmap text Z :=
  list_to_map (omap (λ s, let n := count_threads ctx s d in if n =? 0 then None else Some (s, n)) space_ids).

Definition pin_leb (x y : (text * text) * PinRow) : bool :=
  (pr_created_at x.2 <? pr_created_at y.2) ||
  ((pr_created_at x.2 =? pr_created_at y.2) && negb (text_ltb y.1.2 x.1.2)).

Definition select_pins ctx (conversation_id : text) d : list ((text * text) * PinRow) :=
  sort_by pin_leb (List.filter (λ kr, bool_decide (kr.1.1 = conversation_id) && mine ctx (pr_workspace_id kr.2))
                     (map_to_list (conversation_files d))).

(** [INSERT .. SELECT .. ON CONFLICT DO NOTHING RETURNING] *)
Definition insert_pin ctx (conversation_id file_id : text) (now : instant) d
    : result DbFault (option PinRow * ConversationsDb) :=
  match visible ctx conversation_id d with
  | Some _ =>
      if bool_decide (is_Some (conversation_files d !! (conversation_id, file_id))) then Ok (None, d)
      else let r := mk_PinRow (workspace_id ctx) now in
           Ok (Some r, with_pins (<[(conversation_id, file_id) := r]> (conversation_files d)) d)
  | None => Ok (None, d)
  end.

Definition select_pin ctx (conversation_id file_id : text) d : option PinRow :=
  match conversation_files d !! (conversation_id, file_id) with
  | Some r => if mine ctx (pr_workspace_id r) then Some r else None
  | None => None
  end.

Definition delete_pin ctx (conversation_id file_id : text) d : ConversationsDb :=
  match select_pin ctx conversation_id file_id d with
  | Some _ => with_pins (delete (conversation_id, file_id) (conversation_files d)) d
  | None => d
  end.

(** The three statements of a purge. *)
Definition thread_of_space ctx (space_id : text) (r : ConversationRow) : bool :=
  mine ctx (cr_workspace_id r) && bool_decide (cr_space_id r = Some space_id).

Definition in_space ctx (space_id conversation_id : text) d : bool :=
  match conversations d !! conversation_id with Some r => thread_of_space ctx space_id r | None => false end.

Definition drop_messages ctx (space_id : text) d : ConversationsDb :=
  with_messages (filter (λ kr, (mine ctx (ms_workspace_id kr.2) && in_space ctx space_id (ms_conversation_id kr.2) d) = false)
                   (messages d)) d.

Definition drop_pins ctx (space_id : text) d : ConversationsDb :=
  with_pins (filter (λ kr, (mine ctx (pr_workspace_id kr.2) && in_space ctx space_id kr.1.1 d) = false)
               (conversation_files d)) d.

Definition referenced (conversation_id : text) d : bool :=
  existsb (λ r, bool_decide (ms_conversation_id r = conversation_id)) (map_to_list (messages d)).*2 ||
  existsb (λ k, bool_decide (k.1 = conversation_id)) (map_to_list (conversation_files d)).*1.

Definition drop_threads ctx (space_id : text) d : result DbFault (list text * ConversationsDb) :=
  let dropped := List.filter (λ kr, thread_of_space ctx space_id kr.2) (map_to_list (conversations d)) in
  if existsb (λ kr, referenced kr.1 d) dropped then Err foreign_key_violation
  else Ok (dropped.*1, with_conversations (filter (λ kr, thread_of_space ctx space_id kr.2 = false) (conversations d)) d).
End Statements.

(** ** The ports, the adapter and the use cases *)

(** The spaces, files and model-catalog modules, seen from here. *)
Class ConversationPorts (V : Type) := {
  get_active : ExecutionContext → text → eff V exn bool;
  get_readable : ExecutionContext → text → eff V exn (option (option text));
  list_llm_models : ExecutionContext → eff V exn (list text)
}.

Definition not_found_exn : exn := App (raise_class NotFoundError).
Definition validation_exn : exn := App (raise_class ValidationError).
Definition MAX_PINNED_FILES : Z := 50.

Record AppendedMessage := mk_AppendedMessage {
  am_id : text; am_conversation_id : text; am_role : text; am_text : text; am_attachments : list text;
  am_token_count : option Z; am_seq : Z; am_created_at : instant
}.
Record StartedConversation := mk_StartedConversation { sc_id : text; sc_agent_key : text; sc_kind : text }.

Section Conversations.
Context {V : Type} `{ConversationPorts V, Env, DB : Database, Unicode, Decimals}.
Abbreviation io A := (eff (DbWorld ConversationsDb V) exn A).
Abbreviation session A := (eff (DbWorld ConversationsDb V) DbFault A).

(** A method of the adapter, and the statements it sends: some are given [now()], the time the
    transaction began. *)
Definition repo {A} (ctx : ExecutionContext) (body : session A) : io A := adapter translate_unique ctx body.
Definition stmt {A} (q : ConversationsDb → result DbFault (A * ConversationsDb)) : session A := execute q.
Definition stmt_now {A} (q : instant → ConversationsDb → result DbFault (A * ConversationsDb)) : session A :=
  λ w, execute (q (began w)) w.
Definition rows {A} (q : ConversationsDb → A) : session A := execute (λ d, Ok (q d, d)).
Definition command (q : ConversationsDb → ConversationsDb) : session unit := execute (λ d, Ok (tt, q d)).

Definition get (ctx : ExecutionContext) (id : text) : io (option Conversation) :=
  row ← repo ctx (rows (select_conversation ctx id));
  match row with
  | None => eff_ret _ None
  | Some (r, n) => c ← eff_lift (hydrate_conversation id r n); eff_ret _ (Some c)
  end.

Definition add (ctx : ExecutionContext) (c : Conversation) : io unit := repo ctx (stmt (insert_conversation ctx c)).

(** The stored version and time, written back onto the aggregate. *)
Definition with_version (v : Z) (t : instant) (c : Conversation) : Conversation :=
  mk_Conversation (cv_id c) (cv_workspace_id c) (cv_space_id c) (cv_agent_key c) (cv_kind c) (cv_title c)
    (cv_created_by c) (cv_created_at c) t (cv_deleted_at c) v (cv_message_count c) (cv_model_route c)
    (cv_pending_clarification c).

Definition save (ctx : ExecutionContext) (c : Conversation) : io Conversation :=
  row ← repo ctx (stmt_now (update_conversation ctx c));
  match row with
  | None => eff_raise conflict_exn
  | Some (v, t) => eff_ret _ (with_version v t c)
  end.

(** [_paginate] *)
Definition page_of {A B} (fetched : list A) (limit : nat) (hydrate : A → result exn B)
    (next_cursor_of : A → result exn text) : io (Page B text) :=
  let page_rows := take limit fetched in
  next ← eff_lift (match last page_rows with
                   | Some r => if (limit <? length fetched)%nat then c ← next_cursor_of r; Ok (Some c) else Ok None
                   | None => Ok None
                   end);
  data ← eff_lift (map_result hydrate page_rows);
  eff_ret _ (mk_Page data next).

Definition optional {A} (decode : text → result exn A) (cursor : option text) : io (option A) :=
  match cursor with
  | None => eff_ret _ None
  | Some c => a ← eff_lift (decode c); eff_ret _ (Some a)
  end.

Definition list_by_agent (ctx : ExecutionContext) (agent_key : text) (space_id : option text) (limit : nat)
    (cursor : option text) : io (Page Conversation text) :=
  after ← optional decode_id_cursor cursor;
  fetched ← repo ctx (rows (select_threads ctx agent_key space_id limit after));
  page_of fetched limit (λ kr, hydrate_conversation kr.1 kr.2.1 kr.2.2) (λ kr, encode_id_cursor kr.1).

Definition counts_by_space (ctx : ExecutionContext) (space_ids : list text) : io (gmap text Z) :=
  if bool_decide (space_ids = []) then eff_ret _ ∅ else repo ctx (rows (select_counts ctx space_ids)).

Definition append_statements (ctx : ExecutionContext) (m : Message) : session (option Z) :=
  _ ← stmt (insert_message ctx m);
  stmt_now (bump_version ctx (mg_conversation_id m)).

(** [append_message] of the repository. *)
Definition save_append (ctx : ExecutionContext) (m : Message) : io unit :=
  row ← repo ctx (append_statements ctx m);
  match row with None => eff_raise conflict_exn | Some _ => eff_ret _ tt end.

Definition get_message (ctx : ExecutionContext) (conversation_id id : text) : io (option Message) :=
  row ← repo ctx (rows (select_message ctx conversation_id id));
  match row with
  | None => eff_ret _ None
  | Some r => m ← eff_lift (hydrate_message id r); eff_ret _ (Some m)
  end.

Definition save_message (ctx : ExecutionContext) (m : Message) : io unit :=
  row ← repo ctx (stmt (update_message ctx m));
  match row with None => eff_raise conflict_exn | Some _ => eff_ret _ tt end.

Definition list_messages (ctx : ExecutionContext) (conversation_id : text) (limit : nat) (cursor : option text)
    : io (Page Message text) :=
  after ← optional (decode_seq_cursor None) cursor;
  fetched ← repo ctx (stmt (select_messages ctx conversation_id limit after));
  page_of fetched limit (λ kr, hydrate_message kr.1 kr.2) (λ kr, encode_seq_cursor (ms_seq kr.2)).

Definition list_files (ctx : ExecutionContext) (conversation_id : text) : io (list PinnedFile) :=
  pins ← repo ctx (rows (select_pins ctx conversation_id));
  eff_ret _ ((λ kr, hydrate_pinned_file kr.1 kr.2) <$> pins).

Definition pin_statements (ctx : ExecutionContext) (conversation_id file_id : text) (now : instant)
    : session (option PinRow) :=
  row ← stmt (insert_pin ctx conversation_id file_id now);
  match row with
  | Some r => eff_ret _ (Some r)
  | None => rows (select_pin ctx conversation_id file_id)
  end.

Definition pin_file (ctx : ExecutionContext) (conversation_id file_id : text) (now : instant) : io PinnedFile :=
  row ← repo ctx (pin_statements ctx conversation_id file_id now);
  match row with
  | None => eff_raise conflict_exn
  | Some r => eff_ret _ (hydrate_pinned_file (conversation_id, file_id) r)
  end.

Definition unpin_file (ctx : ExecutionContext) (conversation_id file_id : text) : io unit :=
  repo ctx (command (delete_pin ctx conversation_id file_id)).

Definition purge_statements (ctx : ExecutionContext) (space_id : text) : session (list text) :=
  _ ← command (drop_messages ctx space_id);
  _ ← command (drop_pins ctx space_id);
  stmt (drop_threads ctx space_id).

Definition purge_space (ctx : ExecutionContext) (space_id : text) : io Z :=
  deleted ← repo ctx (purge_statements ctx space_id);
  eff_ret _ (Z.of_nat (length deleted)).

(** *** Use cases *)

Definition invalid {A} (r : result ConversationErr A) : io A := eff_lift (map_err (λ _, validation_exn) r).
Definition refused {A} (r : result ConversationErr A) : io A := eff_lift (map_err (λ _, conflict_exn) r).

Definition found {A} (a : option A) : io A := match a with Some a => eff_ret _ a | None => eff_raise not_found_exn end.

Definition require_space (ctx : ExecutionContext) (space_id : option text) : io unit :=
  match space_id with
  | None => eff_ret _ tt
  | Some s => ok ← outside (get_active ctx s); eff_lift (raise_if (negb ok) not_found_exn)
  end.

Definition StartConversation (ctx : ExecutionContext) (space_id : option text) (agent_key : text)
    (kind : ConversationKind) (title : option text) : io (Conversation * list ConversationEvent) :=
  key ← invalid (new_AgentKey agent_key);
  _ ← require_space ctx space_id;
  now ← utc_now;
  id ← new_uuid7;
  let c := mk_Conversation id (workspace_id ctx) space_id key kind title (user_id ctx) now now None 1 0 None [] in
  _ ← add ctx c;
  eff_ret _ (c, [ConversationStarted id (workspace_id ctx) key (kind_value kind) now]).

Definition AppendMessage (ctx : ExecutionContext) (conversation_id role t : text) (attachments : list text)
    (token_count : option Z) : io (Message * list ConversationEvent) :=
  role ← eff_lift (match parse_role role with Some r => Ok r | None => Err validation_exn end);
  content ← invalid (new_MessageContent t attachments);
  c ← get ctx conversation_id;
  c ← found c;
  now ← utc_now;
  message_id ← new_uuid7;
  m ← refused (append_message message_id role content token_count now c);
  _ ← save_append ctx m;
  eff_ret _ (m, [MessageAppended (mg_id m) (cv_id c) (role_value role) (mg_seq m) now]).

Definition ListConversationsByAgent (ctx : ExecutionContext) (agent_key : text) (space_id : option text) (limit : nat)
    (cursor : option text) : io (Page Conversation text) :=
  key ← invalid (new_AgentKey agent_key);
  list_by_agent ctx key space_id limit cursor.

Definition CountConversationsBySpace (ctx : ExecutionContext) (space_ids : list text) : io (gmap text Z) :=
  counts_by_space ctx space_ids.

(** A thread that is there and not deleted. *)
Definition GetConversation (ctx : ExecutionContext) (conversation_id : text) : io Conversation :=
  c ← get ctx conversation_id;
  c ← found c;
  if is_deleted c then eff_raise not_found_exn else eff_ret _ c.

Definition ListMessages (ctx : ExecutionContext) (conversation_id : text) (limit : nat) (cursor : option text)
    : io (Page Message text) :=
  c ← get ctx conversation_id;
  c ← found c;
  if is_deleted c then eff_raise not_found_exn else list_messages ctx conversation_id limit cursor.

Definition RenameConversation (ctx : ExecutionContext) (conversation_id : text) (new_title : option text)
    : io (Conversation * list ConversationEvent) :=
  c ← get ctx conversation_id;
  c ← found c;
  now ← utc_now;
  c ← refused (rename new_title now c);
  c ← save ctx c;
  eff_ret _ (c, [ConversationRenamed (cv_id c) (cv_updated_at c)]).

(** [_require_routable] *)
Definition require_routable (ctx : ExecutionContext) (route : text) : io unit :=
  _ ← eff_lift (raise_if (bool_decide (strip route = [])) validation_exn);
  known ← outside (list_llm_models ctx);
  eff_lift (raise_if (negb (bool_decide (route ∈ known))) validation_exn).

Definition PinConversationModel (ctx : ExecutionContext) (conversation_id : text) (route : option text)
    : io (Conversation * list ConversationEvent) :=
  c ← get ctx conversation_id;
  c ← found c;
  _ ← match route with Some r => require_routable ctx r | None => eff_ret _ tt end;
  now ← utc_now;
  c ← refused (pin_model_route route now c);
  c ← save ctx c;
  eff_ret _ (c, []).

Definition ExpectClarification (ctx : ExecutionContext) (conversation_id : text) (options : list text)
    : io Conversation :=
  c ← get ctx conversation_id;
  c ← found c;
  now ← utc_now;
  c ← refused (expect_clarification options now c);
  save ctx c.

Definition SoftDeleteConversation (ctx : ExecutionContext) (conversation_id : text)
    : io (Conversation * list ConversationEvent) :=
  c ← get ctx conversation_id;
  c ← found c;
  let already_deleted := is_deleted c in
  now ← utc_now;
  c ← save ctx (soft_delete now c);
  eff_ret _ (c, if already_deleted then [] else [ConversationDeleted (cv_id c) (cv_workspace_id c) (cv_updated_at c)]).

(** [if conversation is None: 404; if conversation.deleted_at is not None: 409] *)
Definition live_thread (ctx : ExecutionContext) (conversation_id : text) : io Conversation :=
  c ← get ctx conversation_id;
  c ← found c;
  if is_deleted c then eff_raise conflict_exn else eff_ret _ c.

Definition SoftDeleteMessage (ctx : ExecutionContext) (conversation_id message_id : text)
    : io (Message * list ConversationEvent) :=
  _ ← live_thread ctx conversation_id;
  m ← get_message ctx conversation_id message_id;
  m ← found m;
  now ← utc_now;
  let m := soft_delete_message now m in
  _ ← save_message ctx m;
  eff_ret _ (m, []).

Definition ListConversationFiles (ctx : ExecutionContext) (conversation_id : text) : io (list PinnedFile) :=
  c ← get ctx conversation_id;
  _ ← found c;
  list_files ctx conversation_id.

Definition cross_space_exn : exn := App (raise_code ConflictError "spaces.cross_space_pin").

Definition PinConversationFile (ctx : ExecutionContext) (conversation_id file_id : text) : io PinnedFile :=
  c ← live_thread ctx conversation_id;
  _ ← eff_lift (raise_if (bool_decide (strip file_id = [])) validation_exn);
  pinned ← list_files ctx conversation_id;
  let already := existsb (λ p, bool_decide (pf_file_id p = file_id)) pinned in
  _ ← eff_lift (raise_if (negb already && (MAX_PINNED_FILES <=? Z.of_nat (length pinned))) validation_exn);
  readable ← outside (get_readable ctx file_id);
  space ← eff_lift (match readable with Some s => Ok s | None => Err validation_exn end);
  _ ← eff_lift (raise_if (negb (bool_decide (space = cv_space_id c))) cross_space_exn);
  now ← utc_now;
  pin_file ctx conversation_id file_id now.

Definition UnpinConversationFile (ctx : ExecutionContext) (conversation_id file_id : text) : io unit :=
  _ ← live_thread ctx conversation_id;
  unpin_file ctx conversation_id file_id.

Definition PurgeSpaceConversations (ctx : ExecutionContext) (space_id : text) : io Z := purge_space ctx space_id.

(** *** [ConversationService] *)

Definition is_not_found (e : exn) : bool :=
  match e with App a => match err_class a with NotFoundError => true | _ => false end | Other _ => false end.

(** [except NotFoundError: return ...] *)
Definition or_absent {A} (m : io A) (absent : A) : io A := eff_catch m is_not_found (λ _, eff_ret _ absent).

Definition routed_model (ctx : ExecutionContext) (conversation_id : text) : io (option text) :=
  or_absent (c ← GetConversation ctx conversation_id; eff_ret _ (cv_model_route c)) None.

Definition pinned_files (ctx : ExecutionContext) (conversation_id : text) : io (list text) :=
  or_absent (pinned ← ListConversationFiles ctx conversation_id; eff_ret _ (pf_file_id <$> pinned)) [].

Definition space_of (ctx : ExecutionContext) (conversation_id : text) : io (option text) :=
  or_absent (c ← GetConversation ctx conversation_id; eff_ret _ (cv_space_id c)) None.

Definition pending_clarification (ctx : ExecutionContext) (conversation_id : text) : io (list text) :=
  or_absent (c ← GetConversation ctx conversation_id; eff_ret _ (cv_pending_clarification c)) [].

Definition service_expect (ctx : ExecutionContext) (conversation_id : text) (options : list text) : io unit :=
  _ ← ExpectClarification ctx conversation_id options; eff_ret _ tt.

Definition service_append (ctx : ExecutionContext) (conversation_id role t : text) (attachments : list text)
    (token_count : option Z) : io AppendedMessage :=
  '(m, _) ← AppendMessage ctx conversation_id role t attachments token_count;
  eff_ret _ (mk_AppendedMessage (mg_id m) (mg_conversation_id m) (role_value (mg_role m)) (mc_text (mg_content m))
               (mc_attachments (mg_content m)) (mg_token_count m) (mg_seq m) (mg_created_at m)).

Definition service_start (ctx : ExecutionContext) (space_id : option text) (agent_key kind : text)
    (title : option text) : io StartedConversation :=
  k ← eff_lift (match parse_kind kind with Some k => Ok k | None => Err validation_exn end);
  '(c, _) ← StartConversation ctx space_id agent_key k title;
  eff_ret _ (mk_StartedConversation (cv_id c) (cv_agent_key c) (kind_value (cv_kind c))).
End Conversations.
