(* ===== verification/ConversationsRace.v ===== *)
(** * ConversationsRace: requests that interleave on the same threads

    Every use case reads a thread, thinks, and writes in a transaction of its own.  Here any
    thread ever read may be acted upon at any later time, between the transactions of any
    other request. *)

From S2P Require Import Prelude Text Calendar Errors Framework Transactions Files Keyset Events Wire Cursor Conversations.

Open Scope Z_scope.

(** The database, what has been read from it, and the identifiers of the threads ever started. *)
Record Race := mk_Race { rc_db : ConversationsDb; rc_seen : list Conversation; rc_used : list text }.

(** The transaction of an append. *)
Definition append_transaction (ctx : ExecutionContext) (m : Message) (now : instant) (d : ConversationsDb)
    : result DbFault (option Z * ConversationsDb) :=
  '(_, d') ← insert_message ctx m d;
  bump_version ctx (mg_conversation_id m) now d'.

(** The transaction of a purge. *)
Definition purge_transaction (ctx : ExecutionContext) (space_id : text) (d : ConversationsDb)
    : result DbFault (list text * ConversationsDb) :=
  drop_threads ctx space_id (drop_pins ctx space_id (drop_messages ctx space_id d)).

(** What a use case may save of a thread it has read. *)
Inductive mutation : Type :=
  | Rename (title : option text)
  | PinModel (route : option text)
  | Expect (options : list text)
  | SoftDelete.

Definition mutate (m : mutation) (now : instant) (c : Conversation) : result ConversationErr Conversation :=
  match m with
  | Rename title => rename title now c
  | PinModel route => pin_model_route route now c
  | Expect options => expect_clarification options now c
  | SoftDelete => Ok (soft_delete now c)
  end.

Section Race.
Context `{Unicode}.

Inductive step : Race → Race → Prop :=
  | step_read ctx id r n c d seen used :
      select_conversation ctx id d = Some (r, n) → hydrate_conversation id r n = Ok c →
      step (mk_Race d seen used) (mk_Race d (c :: seen) used)
  | step_start ctx c u d d' seen used :
      cv_id c ∉ used → insert_conversation ctx c d = Ok (u, d') →
      step (mk_Race d seen used) (mk_Race d' seen (cv_id c :: used))
  | step_save ctx c m c' t now a d d' seen used :
      c ∈ seen → mutate m t c = Ok c' → update_conversation ctx c' now d = Ok (a, d') →
      step (mk_Race d seen used) (mk_Race d' seen used)
  | step_append ctx c id role content tokens t m now a d d' seen used :
      c ∈ seen → append_message id role content tokens t c = Ok m → append_transaction ctx m now d = Ok (a, d') →
      step (mk_Race d seen used) (mk_Race d' seen used)
  | step_delete_message ctx m a d d' seen used :
      update_message ctx m d = Ok (a, d') →
      step (mk_Race d seen used) (mk_Race d' seen used)
  | step_pin ctx conversation_id file_id now a d d' seen used :
      insert_pin ctx conversation_id file_id now d = Ok (a, d') →
      step (mk_Race d seen used) (mk_Race d' seen used)
  | step_unpin ctx conversation_id file_id d seen used :
      step (mk_Race d seen used) (mk_Race (delete_pin ctx conversation_id file_id d) seen used)
  | step_purge ctx space_id a d d' seen used :
      purge_transaction ctx space_id d = Ok (a, d') →
      step (mk_Race d seen used) (mk_Race d' seen used).

Definition empty_race : Race := mk_Race (mk_ConversationsDb ∅ ∅ ∅) [] [].

(** ** The invariant *)

Implicit Types (d : ConversationsDb).

Definition has_seq d (id : text) (s : Z) (k : text) : Prop :=
  ∃ r, messages d !! k = Some r ∧ ms_conversation_id r = id ∧ ms_seq r = s.

(** The messages of a thread are numbered from one to [n]. *)
Definition numbered d (id : text) (n : Z) : Prop :=
  0 ≤ n ∧ (∀ s, (∃ k, has_seq d id s k) ↔ 1 ≤ s ≤ n) ∧
  ∀ s k k', has_seq d id s k → has_seq d id s k' → k = k'.

(** Every message belongs to a thread of its own workspace. *)
Definition owned d : Prop :=
  ∀ k r, messages d !! k = Some r →
    ∃ c, conversations d !! ms_conversation_id r = Some c ∧ cr_workspace_id c = ms_workspace_id r.

(** What was once read of a thread, against the thread now. *)
Definition agrees (c : Conversation) (r : ConversationRow) (n : Z) : Prop :=
  cv_workspace_id c = cr_workspace_id r ∧ cv_message_count c ≤ n ∧ 0 ≤ cv_message_count c ∧
  cv_version c ≤ cr_version r ∧
  (cv_version c = cr_version r →
     cv_title c = cr_title r ∧ cv_model_route c = cr_model_route r ∧
     pending_to_json (cv_pending_clarification c) = pending_to_json (default [] (cr_pending_clarification r)) ∧
     cv_deleted_at c = cr_deleted_at r).

Definition consistent (s : Race) : Prop :=
  owned (rc_db s) ∧
  (∀ id r, conversations (rc_db s) !! id = Some r →
     id ∈ rc_used s ∧ ∃ n, numbered (rc_db s) id n ∧
     ∀ c, c ∈ rc_seen s → cv_id c = id → agrees c r n) ∧
  (∀ c, c ∈ rc_seen s → cv_id c ∈ rc_used s).

(** ** Reading the numbers back *)

Lemma seqs_elem d id ws s :
  s ∈ seqs id ws d ↔ ∃ k r, messages d !! k = Some r ∧ ms_conversation_id r = id ∧ ms_workspace_id r = ws ∧ ms_seq r = s.
Proof.
  unfold seqs. rewrite list_elem_of_fmap. split.
  - intros ([k r] & -> & Hin). apply elem_of_list_filter_bool in Hin as [Hin Hm].
    apply elem_of_map_to_list in Hin. unfold message_of in Hm. cbn in *. unbool. by exists k, r.
  - intros (k & r & Hk & <- & <- & <-). exists (k, r). split; [done|]. apply elem_of_list_filter_bool.
    split; [by apply elem_of_map_to_list|]. unfold message_of. cbn. by rewrite !bool_decide_true.
Qed.

Lemma foldl_max l : ∀ s, s ≤ foldl Z.max s l ∧ (∀ x, x ∈ l → x ≤ foldl Z.max s l) ∧ foldl Z.max s l ∈ s :: l.
Proof.
  induction l as [|y l IH]; intros s; cbn [foldl]; [split_and!; [lia|by intros ? ?%not_elem_of_nil|by left]|].
  destruct (IH (Z.max s y)) as (H1 & H2 & H3). split_and!; [lia| |].
  - intros x [->|Hx]%elem_of_cons; [lia|by apply H2].
  - apply elem_of_cons in H3 as [H3|H3]; [|by right; right].
    destruct (Z.max_spec s y) as [[_ Hm]|[_ Hm]]; rewrite H3, Hm; [by right; left|by left].
Qed.

Lemma numbered_seqs d id r n :
  owned d → conversations d !! id = Some r → numbered d id n →
  message_count id (cr_workspace_id r) d = n ∧ seqs id (cr_workspace_id r) d ≡ₚ seqZ 1 n.
Proof.
  intros Ho Hr (Hn & Hall & Huniq).
  assert (∀ s, s ∈ seqs id (cr_workspace_id r) d ↔ 1 ≤ s ≤ n) as Hin.
  { intros s. rewrite <- Hall, seqs_elem. split.
    - intros (k & m & Hk & Hc & _ & Hs). by exists k, m.
    - intros (k & m & Hk & Hc & Hs). exists k, m. split_and!; try done.
      destruct (Ho _ _ Hk) as (c & Hc' & Hws). rewrite Hc in Hc'. congruence. }
  split.
  - unfold message_count. destruct (seqs id (cr_workspace_id r) d) as [|s l] eqn:Hs.
    + destruct (Z.eq_dec n 0); [done|]. assert (1 ∈ []) as Hbad by (apply Hin; lia). by apply not_elem_of_nil in Hbad.
    + destruct (foldl_max l s) as (H1 & H2 & H3). apply Hin in H3 as Hub.
      assert (n ∈ s :: l) as Hlb; [apply Hin; destruct (proj1 (Hin s) ltac:(left)); lia|].
      apply elem_of_cons in Hlb as [Hlb|Hlb]; [lia|]. apply H2 in Hlb. lia.
  - apply NoDup_Permutation; [|apply NoDup_seqZ|].
    + unfold seqs. apply NoDup_fmap_2_strong.
      * intros [k m] [k' m'] [Hk Hm]%elem_of_list_filter_bool [Hk' Hm']%elem_of_list_filter_bool Heq.
        apply elem_of_map_to_list in Hk, Hk'. unfold message_of in *. cbn in *. unbool.
        assert (k = k') as <- by (apply (Huniq (ms_seq m)); [by exists m|by exists m']). congruence.
      * apply NoDup_ListNoDup, List.NoDup_filter, NoDup_ListNoDup, NoDup_map_to_list.
    + intros s. rewrite Hin, elem_of_seqZ. lia.
Qed.

(** ** Every transaction keeps it *)

Lemma numbered_ext d d' id n :
  (∀ s k, has_seq d id s k ↔ has_seq d' id s k) → numbered d id n → numbered d' id n.
Proof.
  intros Hext (Hn & Hall & Huniq). split_and!; [done| |].
  - intros s. rewrite <- Hall. split; intros [k Hk]; exists k; by apply Hext.
  - intros s k k' Hk Hk'. apply (Huniq s); by apply Hext.
Qed.

Lemma agrees_newer c r r' n n' :
  agrees c r n → n ≤ n' → cr_workspace_id r' = cr_workspace_id r → cr_version r < cr_version r' → agrees c r' n'.
Proof. intros (Hws & Hc & H0 & Hv & _) Hn Hws' Hv'. split_and!; [congruence|lia|done|lia|lia]. Qed.

Lemma visible_Some ctx id d r :
  visible ctx id d = Some r ↔ conversations d !! id = Some r ∧ cr_workspace_id r = workspace_id ctx.
Proof.
  unfold visible, mine. destruct (conversations d !! id) as [r'|]; [|naive_solver].
  case_bool_decide; naive_solver.
Qed.

Lemma hydrate_fields id r n c : hydrate_conversation id r n = Ok c →
  cv_id c = id ∧ cv_workspace_id c = cr_workspace_id r ∧ cv_space_id c = cr_space_id r ∧ cv_title c = cr_title r ∧
  cv_model_route c = cr_model_route r ∧ cv_pending_clarification c = default [] (cr_pending_clarification r) ∧
  cv_deleted_at c = cr_deleted_at r ∧ cv_version c = cr_version r ∧ cv_message_count c = n.
Proof. unfold hydrate_conversation. intros Hh. unresult. done. Qed.

(** A new version of one row, the messages as they were. *)
Lemma consistent_row d seen used id r r' :
  conversations d !! id = Some r → cr_workspace_id r' = cr_workspace_id r → cr_version r < cr_version r' →
  consistent (mk_Race d seen used) →
  consistent (mk_Race (with_conversations (<[id := r']> (conversations d)) d) seen used).
Proof.
  intros Hr Hws Hv (Ho & Hall & Hseen). split_and!; [| |exact Hseen]; cbn in *.
  - intros k m Hm. destruct (Ho k m Hm) as (c & Hc & Hcw). cbn.
    destruct (decide (ms_conversation_id m = id)) as [He|Hne].
    + rewrite He, lookup_insert_eq. exists r'. split; [done|]. rewrite He in Hc. congruence.
    + rewrite lookup_insert_ne by done. by exists c.
  - intros id' r0 Hr0. destruct (decide (id' = id)) as [->|Hne].
    + rewrite lookup_insert_eq in Hr0. injection Hr0 as <-. destruct (Hall id r Hr) as (Hu & n & Hn & Hag).
      split; [done|]. exists n. split; [done|]. intros c Hc He. eapply agrees_newer; [by apply Hag|lia|done|done].
    + rewrite lookup_insert_ne in Hr0 by done. destruct (Hall id' r0 Hr0) as (Hu & n & Hn & Hag). eauto 6.
Qed.

Lemma update_conversation_Ok ctx c now d a d' : update_conversation ctx c now d = Ok (a, d') →
  (a = None ∧ d' = d) ∨
  ∃ r, conversations d !! cv_id c = Some r ∧ cr_workspace_id r = workspace_id ctx ∧ cr_version r = cv_version c ∧
       a = Some (cr_version r + 1, now) ∧ d' = with_conversations (<[cv_id c := saved_row c now r]> (conversations d)) d.
Proof.
  unfold update_conversation. destruct (visible ctx (cv_id c) d) as [r|] eqn:Hv; [|intros [= <- <-]; by left].
  apply visible_Some in Hv as [Hr Hws]. destruct (Z.eqb_spec (cr_version r) (cv_version c)); [|intros [= <- <-]; by left].
  destruct (int4 _); [|done]. intros [= <- <-]. right. by exists r.
Qed.

Lemma bump_version_Ok ctx id now d a d' : bump_version ctx id now d = Ok (a, d') →
  (a = None ∧ d' = d) ∨
  ∃ r, conversations d !! id = Some r ∧ d' = with_conversations (<[id := bumped_row now r]> (conversations d)) d.
Proof.
  unfold bump_version. destruct (visible ctx id d) as [r|] eqn:Hv; [|intros [= <- <-]; by left].
  apply visible_Some in Hv as [Hr Hws]. destruct (int4 _); [|done]. intros [= <- <-]. right. by exists r.
Qed.

Lemma seq_taken_iff id s d :
  seq_taken id s d = true ↔ ∃ k, has_seq d id s k.
Proof.
  unfold seq_taken, has_seq. rewrite existsb_exists. split.
  - intros (r & Hin%list_elem_of_In & Hb). apply list_elem_of_fmap in Hin as ([k r'] & -> & Hin).
    apply elem_of_map_to_list in Hin. cbn in *. unbool. by exists k, r'.
  - intros (k & r & Hk & <- & <-). exists r. rewrite bool_decide_true, Z.eqb_refl by done. split; [|done].
    apply list_elem_of_In, list_elem_of_fmap. exists (k, r). split; [done|]. by apply elem_of_map_to_list.
Qed.

Lemma insert_message_Ok ctx m d u d' : insert_message ctx m d = Ok (u, d') →
  mg_workspace_id m = workspace_id ctx ∧ messages d !! mg_id m = None ∧
  (∀ k, ¬ has_seq d (mg_conversation_id m) (mg_seq m) k) ∧ (∃ r, conversations d !! mg_conversation_id m = Some r) ∧
  d' = with_messages (<[mg_id m := message_row m]> (messages d)) d.
Proof.
  unfold insert_message. destruct (_ || _); [done|]. destruct (mine ctx (mg_workspace_id m)) eqn:Hw; [|done]. cbn [negb].
  destruct (_ || _) eqn:Ht; [done|]. destruct (bool_decide (_ = None)) eqn:Hc; [done|]. intros [_ <-]%Ok_pair_inj.
  apply bool_decide_eq_true in Hw. apply bool_decide_eq_false in Hc.
  apply orb_false_iff in Ht as [Hid Ht]. apply bool_decide_eq_false, eq_None_not_Some in Hid.
  split_and!; try done.
  - intros k Hk. apply not_true_iff_false in Ht. apply Ht, seq_taken_iff. by exists k.
  - destruct (conversations d !! mg_conversation_id m) as [r|]; [by exists r|done].
Qed.

(** The message a stale reader may insert is the next one, or none. *)
Lemma consistent_insert ctx m d seen used u d' c :
  c ∈ seen → mg_conversation_id m = cv_id c → mg_workspace_id m = cv_workspace_id c → mg_seq m = cv_message_count c + 1 →
  insert_message ctx m d = Ok (u, d') → consistent (mk_Race d seen used) → consistent (mk_Race d' seen used).
Proof.
  intros Hc Hid Hmw Hseq Hins (Ho & Hall & Hseen). cbn in *.
  apply insert_message_Ok in Hins as (Hws & Hfresh & Hfree & (r & Hr) & ->).
  destruct (Hall _ r Hr) as (Hu & n & (Hn & Hnum & Huniq) & Hag).
  destruct (Hag c Hc ltac:(done)) as (Hcw & Hcn & Hc0 & Hcv).
  assert (cv_message_count c = n) as Hlast.
  { destruct (Z.eq_dec (cv_message_count c) n); [done|]. exfalso.
    destruct (proj2 (Hnum (mg_seq m)) ltac:(lia)) as [k Hk]. by apply (Hfree k). }
  split_and!; [| |exact Hseen]; cbn.
  - intros k m'. cbn. destruct (decide (k = mg_id m)) as [->|Hne].
    + rewrite lookup_insert_eq. intros [= <-]. cbn. exists r. split; [done|]. congruence.
    + rewrite lookup_insert_ne by done. apply Ho.
  - assert (∀ id s k, has_seq (with_messages (<[mg_id m := message_row m]> (messages d)) d) id s k ↔
              (k = mg_id m ∧ id = mg_conversation_id m ∧ s = mg_seq m) ∨ has_seq d id s k) as Hhas.
    { intros id s k. unfold has_seq. cbn. destruct (decide (k = mg_id m)) as [->|Hne].
      - setoid_rewrite lookup_insert_eq. setoid_rewrite Hfresh. split; [intros (r' & [= <-] & <- & <-); by left|].
        intros [(_ & -> & ->)|(r' & Hbad & _)]; [by eexists|done].
      - setoid_rewrite lookup_insert_ne; [|done]. naive_solver. }
    intros id r0 Hr0. destruct (decide (id = mg_conversation_id m)) as [->|Hne].
    + rewrite Hr in Hr0. injection Hr0 as <-. split; [done|]. exists (n + 1). split.
      * split_and!; [lia| |].
        -- intros s. split.
           ++ intros [k [(_ & _ & ->)|Hk]%Hhas]; [lia|]. assert (1 ≤ s ≤ n) by (apply Hnum; by exists k). lia.
           ++ intros Hs. destruct (Z.eq_dec s (mg_seq m)) as [->|Hd]; [exists (mg_id m); apply Hhas; by left|].
              destruct (proj2 (Hnum s) ltac:(lia)) as [k Hk]. exists k. apply Hhas. by right.
        -- intros s k k' [(-> & _ & ->)|Hk]%Hhas [(-> & _ & Hs)|Hk']%Hhas; [done| | |by eapply Huniq].
           ++ by apply Hfree in Hk'.
           ++ subst s. by apply Hfree in Hk.
      * intros c' Hc' He. destruct (Hag c' Hc' He) as (? & ? & ? & ? & ?). split_and!; try done. lia.
    + destruct (Hall id r0 Hr0) as (Hu0 & n0 & Hn0 & Hag0). split; [done|]. exists n0. split; [|done].
      eapply numbered_ext; [|exact Hn0]. intros s k. rewrite Hhas. naive_solver.
Qed.

(** Messages that keep their places. *)
Lemma consistent_messages d d' seen used :
  conversations d' = conversations d → (∀ id s k, has_seq d id s k ↔ has_seq d' id s k) → owned d' →
  consistent (mk_Race d seen used) → consistent (mk_Race d' seen used).
Proof.
  intros Hc Hhas Ho' (Ho & Hall & Hseen). split_and!; [exact Ho'| |exact Hseen]; cbn in *.
  rewrite Hc. intros id r Hr. destruct (Hall id r Hr) as (Hu & n & Hn & Hag). split; [done|].
  exists n. split; [|done]. eapply numbered_ext; [|exact Hn]. done.
Qed.

Lemma update_message_Ok ctx m d a d' : update_message ctx m d = Ok (a, d') →
  d' = d ∨ ∃ r, messages d !! mg_id m = Some r ∧
                d' = with_messages (<[mg_id m := marked_row (mg_deleted_at m) r]> (messages d)) d.
Proof.
  unfold update_message. destruct (messages d !! mg_id m) as [r|]; [|intros [= _ <-]; by left].
  destruct (mine _ _); intros [= _ <-]; [right; by exists r|by left].
Qed.

Lemma consistent_update_message ctx m d seen used a d' :
  update_message ctx m d = Ok (a, d') → consistent (mk_Race d seen used) → consistent (mk_Race d' seen used).
Proof.
  intros [->|(r & Hr & ->)]%update_message_Ok Hc; [done|].
  assert (∀ k m', (<[mg_id m := marked_row (mg_deleted_at m) r]> (messages d)) !! k = Some m' →
            ∃ m0, messages d !! k = Some m0 ∧ ms_conversation_id m' = ms_conversation_id m0 ∧
                  ms_workspace_id m' = ms_workspace_id m0 ∧ ms_seq m' = ms_seq m0) as Hback.
  { intros k m'. destruct (decide (k = mg_id m)) as [->|Hne].
    - rewrite lookup_insert_eq. intros [= <-]. by exists r.
    - rewrite lookup_insert_ne by done. intros Hm. by exists m'. }
  apply (consistent_messages d); [done| | |exact Hc].
  - intros id s k. unfold has_seq. cbn. split.
    + intros (m0 & Hm & <- & <-). destruct (decide (k = mg_id m)) as [->|Hne].
      * rewrite lookup_insert_eq. rewrite Hr in Hm. injection Hm as <-. by eexists.
      * rewrite lookup_insert_ne by done. by exists m0.
    + intros (m' & (m0 & Hm & -> & _ & ->)%Hback & <- & <-). by exists m0.
  - destruct Hc as (Ho & _). intros k m' (m0 & Hm & Hcid & Hw & _)%Hback. destruct (Ho k m0 Hm) as (c & Hc' & Hcw).
    exists c. cbn in *. rewrite Hcid, Hw. done.
Qed.

Lemma purge_Ok ctx space_id d a d' : purge_transaction ctx space_id d = Ok (a, d') →
  (∀ id, conversations d' !! id = if in_space ctx space_id id d then None else conversations d !! id) ∧
  (∀ k, messages d' !! k = match messages d !! k with
                           | Some r => if mine ctx (ms_workspace_id r) && in_space ctx space_id (ms_conversation_id r) d
                                       then None else Some r
                           | None => None
                           end) ∧
  (∀ k, conversation_files d' !! k = match conversation_files d !! k with
                           | Some r => if mine ctx (pr_workspace_id r) && in_space ctx space_id k.1 d
                                       then None else Some r
                           | None => None
                           end) ∧
  a = (List.filter (λ kr, thread_of_space ctx space_id kr.2) (map_to_list (conversations d))).*1.
Proof.
  unfold purge_transaction, drop_threads. destruct (existsb _ _); [done|]. intros [= <- <-].
  cbn [conversations messages conversation_files with_conversations drop_pins drop_messages with_messages with_pins].
  assert (∀ (K A : Type) `{Countable K} (m : gmap K A) (p : K * A → bool) k,
            filter (λ kr, p kr = false) m !! k =
            match m !! k with Some r => if p (k, r) then None else Some r | None => None end) as Hf.
  { intros K A ? ? m p k. rewrite map_lookup_filter. destruct (m !! k) as [r|]; [|done]. cbn.
    destruct (p (k, r)) eqn:Hp; [by rewrite option_guard_False by congruence|by rewrite option_guard_True]. }
  split_and!; [| | |done].
  - intros id. rewrite (Hf _ _ _ _ _ (λ kr, thread_of_space ctx space_id kr.2)). unfold in_space.
    by destruct (conversations d !! id).
  - intros k. by rewrite (Hf _ _ _ _ _ (λ kr, mine ctx (ms_workspace_id kr.2) && in_space ctx space_id (ms_conversation_id kr.2) d)).
  - intros k. by rewrite (Hf _ _ _ _ _ (λ kr, mine ctx (pr_workspace_id kr.2) && in_space ctx space_id kr.1.1 _)).
Qed.

Lemma consistent_purge ctx space_id d seen used a d' :
  purge_transaction ctx space_id d = Ok (a, d') → consistent (mk_Race d seen used) → consistent (mk_Race d' seen used).
Proof.
  intros (Hconv & Hmsg & _ & _)%purge_Ok (Ho & Hall & Hseen).
  assert (∀ k r, messages d' !! k = Some r →
            messages d !! k = Some r ∧ in_space ctx space_id (ms_conversation_id r) d = false) as Hkept.
  { intros k r. rewrite Hmsg. destruct (messages d !! k) as [r0|] eqn:Hk; [|done].
    destruct (_ && _) eqn:Hb; [done|]. intros [= <-]. split; [done|]. destruct (Ho k r0 Hk) as (c & Hc & Hw). cbn in Hc.
    apply andb_false_iff in Hb as [Hb|Hb]; [|done]. unfold in_space. rewrite Hc. unfold thread_of_space.
    by rewrite Hw, Hb. }
  split_and!; [| |exact Hseen]; cbn in *.
  - intros k r [Hk Hin]%Hkept. destruct (Ho k r Hk) as (c & Hc & Hw). exists c. by rewrite Hconv, Hin.
  - intros id r. rewrite Hconv. destruct (in_space ctx space_id id d) eqn:Hin; [done|]. intros Hr.
    destruct (Hall id r Hr) as (Hu & n & Hn & Hag). split; [done|]. exists n. split; [|done].
    eapply numbered_ext; [|exact Hn]. intros s k. unfold has_seq. split.
    + intros (m & Hm & <- & <-). exists m. by rewrite Hmsg, Hm, Hin, andb_false_r.
    + intros (m & [Hm _]%Hkept & <- & <-). by exists m.
Qed.

Lemma consistent_append ctx c id role content tokens t m now a d d' seen used :
  c ∈ seen → append_message id role content tokens t c = Ok m → append_transaction ctx m now d = Ok (a, d') →
  consistent (mk_Race d seen used) → consistent (mk_Race d' seen used).
Proof.
  intros Hc Hm Htx Hok. unfold append_message in Hm. unresult.
  unfold append_transaction in Htx. apply bind_Ok in Htx as ([u d1] & Hins & Hbump).
  assert (consistent (mk_Race d1 seen used)) as Hok1.
  { eapply (consistent_insert ctx _ d _ _ _ _ c); [done| | | |exact Hins|done]; done. }
  apply bump_version_Ok in Hbump as [[_ ->]|(r & Hr & ->)]; [done|].
  by apply (consistent_row _ _ _ _ r); [|done|cbn; lia|].
Qed.

Lemma consistent_read ctx id r n c d seen used :
  select_conversation ctx id d = Some (r, n) → hydrate_conversation id r n = Ok c →
  consistent (mk_Race d seen used) → consistent (mk_Race d (c :: seen) used).
Proof.
  intros Hsel Hh (Ho & Hall & Hseen). apply hydrate_fields in Hh as (Hid & Hw & _ & Ht & Hm & Hp & Hd & Hv & Hn).
  unfold select_conversation in Hsel. apply fmap_Some in Hsel as (r0 & [Hr _]%visible_Some & [= <- ->]).
  cbn in *. destruct (Hall id r Hr) as (Hu & n0 & Hn0 & Hag).
  destruct (numbered_seqs d id r n0 Ho Hr Hn0) as [Hcount _].
  split_and!; [done| |].
  - intros id' r' Hr'. cbn in Hr'. destruct (Hall id' r' Hr') as (Hu' & n' & Hn' & Hag'). split; [done|]. exists n'. split; [done|].
    cbn. intros c' [->|Hc']%elem_of_cons He; [|by apply Hag'].
    assert (id' = id) as -> by congruence. assert (r' = r) as -> by congruence.
    destruct (numbered_seqs d id r n' Ho Hr Hn') as [Hcount' _].
    split_and!; [done|lia|rewrite Hn, Hcount'; exact (proj1 Hn')|lia|]. intros _. by rewrite Hp.
  - cbn. intros c' [->|Hc']%elem_of_cons; [by rewrite Hid|by apply Hseen].
Qed.

Lemma consistent_start ctx c d seen used u d' :
  cv_id c ∉ used → insert_conversation ctx c d = Ok (u, d') →
  consistent (mk_Race d seen used) → consistent (mk_Race d' seen (cv_id c :: used)).
Proof.
  intros Hfresh Hins (Ho & Hall & Hseen). unfold insert_conversation in Hins. cbn in *.
  destruct (mine _ _); [|done]. destruct (int4 _); [|done]. cbn [negb] in Hins.
  destruct (bool_decide _) eqn:Hb; [done|]. apply Ok_pair_inj in Hins as [_ <-].
  assert (∀ k m, messages d !! k = Some m → ms_conversation_id m ≠ cv_id c) as Hne.
  { intros k m Hm He. destruct (Ho k m Hm) as (r & Hr & _). rewrite He in Hr. by apply Hall in Hr as [? _]. }
  split_and!; cbn.
  - intros k m Hm. cbn in *. destruct (Ho k m Hm) as (r & Hr & Hw). exists r.
    rewrite lookup_insert_ne; [done|]. intros He. by eapply Hne.
  - intros id r. destruct (decide (id = cv_id c)) as [->|Hid].
    + rewrite lookup_insert_eq. intros [= <-]. split; [by left|]. exists 0. split.
      * split_and!; [lia| |].
        -- intros s. split; [|lia]. intros (k & m & Hm & He & _). by destruct (Hne k m Hm).
        -- intros s k k' (m & Hm & He & _). by destruct (Hne k m Hm).
      * intros c' Hc' He. apply Hseen in Hc'. by rewrite He in Hc'.
    + rewrite lookup_insert_ne by done. intros Hr. destruct (Hall id r Hr) as (Hu & Hrest). split; [by right|done].
  - intros c' Hc'. right. by apply Hseen.
Qed.

Lemma mutate_fields m t c c' : mutate m t c = Ok c' →
  cv_id c' = cv_id c ∧ cv_workspace_id c' = cv_workspace_id c ∧ cv_version c' = cv_version c ∧
  (cv_deleted_at c ≠ None → cv_deleted_at c' = cv_deleted_at c).
Proof.
  destruct m; cbn; unfold rename, pin_model_route, expect_clarification; intros Hm; [by unresult..|].
  injection Hm as <-. unfold soft_delete. destruct (is_deleted c) eqn:Hd; [done|].
  unfold is_deleted in Hd. apply bool_decide_eq_false in Hd. split_and!; done.
Qed.

Lemma step_consistent s s' : step s s' → consistent s → consistent s'.
Proof.
  intros Hs. destruct Hs as [ctx id r n c d seen used Hsel Hh|ctx c u d d' seen used Hf Hins|
    ctx c m c' t now a d d' seen used Hc Hm Hu|ctx c id role content tokens t m now a d d' seen used Hc Hm Ht|
    ctx m a d d' seen used Hu|ctx conv file now a d d' seen used Hp|ctx conv file d seen used|ctx space a d d' seen used Hp].
  - by eapply consistent_read.
  - by eapply consistent_start.
  - intros Hok. apply update_conversation_Ok in Hu as [[_ ->]|(r & Hr & _ & _ & _ & ->)]; [done|].
    apply (consistent_row _ _ _ _ r); [done|done|cbn; lia|done].
  - by eapply consistent_append.
  - by eapply consistent_update_message.
  - intros Hok. unfold insert_pin in Hp.
    destruct (visible _ _ _); [destruct (bool_decide _)|]; apply Ok_pair_inj in Hp as [_ <-]; [done| |done].
    apply (consistent_messages d); [done|done|apply Hok|done].
  - intros Hok. unfold delete_pin. destruct (select_pin _ _ _ _); [|done].
    apply (consistent_messages d); [done|done|apply Hok|done].
  - by eapply consistent_purge.
Qed.

Lemma reachable_consistent s : rtc step empty_race s → consistent s.
Proof.
  intros Hs. eapply (rtc_invariant step consistent); [intros ? ? ? ?; by eapply step_consistent| |exact Hs].
  split_and!; cbn.
  - intros k r. cbn. rewrite lookup_empty. done.
  - intros id r. rewrite lookup_empty. done.
  - intros c Hc. by apply not_elem_of_nil in Hc.
Qed.

(** ** Appends *)

Lemma append_transaction_Ok ctx m now d a d' : append_transaction ctx m now d = Ok (a, d') →
  (∀ k, ¬ has_seq d (mg_conversation_id m) (mg_seq m) k) ∧ messages d' = <[mg_id m := message_row m]> (messages d) ∧
  ∀ r, conversations d !! mg_conversation_id m = Some r →
       ∃ r', conversations d' !! mg_conversation_id m = Some r' ∧ cr_workspace_id r' = cr_workspace_id r.
Proof.
  unfold append_transaction. intros ([u d1] & Hins & Hbump)%bind_Ok.
  apply insert_message_Ok in Hins as (_ & _ & Hfree & _ & ->).
  apply bump_version_Ok in Hbump as [[_ ->]|(r0 & Hr0 & ->)]; (split_and!; [done..|]); intros r Hr; [by exists r|].
  cbn in Hr0. assert (r0 = r) as -> by congruence. eexists. split; [apply lookup_insert_eq|done].
Qed.

Lemma append_is_next ctx c id role content tokens t m now a d d' seen used r :
  consistent (mk_Race d seen used) → c ∈ seen → append_message id role content tokens t c = Ok m →
  conversations d !! cv_id c = Some r → append_transaction ctx m now d = Ok (a, d') →
  mg_seq m = message_count (cv_id c) (cr_workspace_id r) d + 1 ∧
  message_count (cv_id c) (cr_workspace_id r) d' = mg_seq m.
Proof.
  intros Hok Hc Hm Hr Htx.
  assert (mg_conversation_id m = cv_id c ∧ mg_seq m = cv_message_count c + 1) as [Hid Hseq]
    by (unfold append_message in Hm; by unresult).
  destruct (consistent_append _ _ _ _ _ _ _ _ _ _ _ _ seen used Hc Hm Htx Hok) as (Ho' & Hall' & _).
  destruct Hok as (Ho & Hall & _). cbn in *. destruct (Hall _ r Hr) as (_ & n & Hn & Hag).
  destruct (Hag c Hc ltac:(done)) as (_ & Hcn & Hc0 & _). destruct (numbered_seqs d _ r n Ho Hr Hn) as [-> _].
  destruct (append_transaction_Ok _ _ _ _ _ _ Htx) as (Hfree & Hmsgs & Hrow). rewrite Hid in *.
  destruct (Hrow r Hr) as (r' & Hr' & <-). destruct (Hall' _ r' Hr') as (_ & n' & Hn' & _).
  destruct (numbered_seqs d' _ r' n' Ho' Hr' Hn') as [-> _]. destruct Hn as (_ & Hn & _), Hn' as (_ & Hn' & _).
  assert (mg_seq m = n + 1) as Hlast.
  { destruct (Z.eq_dec (cv_message_count c) n); [lia|]. exfalso.
    destruct (proj2 (Hn (mg_seq m)) ltac:(lia)) as [k Hk]. by apply (Hfree k). }
  split; [done|].
  assert (1 ≤ mg_seq m ≤ n') as Hle.
  { apply Hn'. exists (mg_id m), (message_row m). rewrite Hmsgs. split_and!; [apply lookup_insert_eq|done..]. }
  destruct (proj2 (Hn' n') ltac:(lia)) as (k & m' & Hm' & He & <-). rewrite Hmsgs in Hm'.
  destruct (decide (k = mg_id m)) as [->|Hne]; [rewrite lookup_insert_eq in Hm'; by injection Hm' as <-|].
  rewrite lookup_insert_ne in Hm' by done.
  assert (1 ≤ ms_seq m' ≤ n) by (apply Hn; by exists k, m'). lia.
Qed.

Lemma late_append_is_refused ctx c id role content tokens t m now d r n f :
  numbered d (cv_id c) n → append_message id role content tokens t c = Ok m → cv_workspace_id c = cr_workspace_id r →
  0 ≤ cv_message_count c → append_transaction ctx m now d = Err f → mg_seq m ≤ n →
  mine ctx (cr_workspace_id r) = true → int4 (mg_seq m) = true →
  match tokens with Some n => int4 n | None => true end = true → f = unique_violation.
Proof.
  intros (_ & Hn & _) Hm Hw Hc0 Htx Hlow Hmine Hi4 Ht4. unfold append_message in Hm. unresult. cbn in *.
  unfold append_transaction, insert_message in Htx. cbn in Htx. rewrite Hi4, Ht4, Hw, Hmine in Htx. cbn [negb orb] in Htx.
  assert (seq_taken (cv_id c) (cv_message_count c + 1) d = true) as Htaken; [|rewrite Htaken, orb_true_r in Htx; by injection Htx].
  apply seq_taken_iff, Hn. lia.
Qed.

(** C21: the messages of a thread are numbered 1, 2, 3 ... without a gap, whatever the
    interleaving.  At every moment the sequence numbers of a thread are exactly those from one
    to its message count.  An append computed from an old reading either writes the very next
    number, or -- another having got there first -- is refused as a uniqueness violation. *)
Theorem sequence_numbers_have_no_gaps s :
  rtc step empty_race s →
  (∀ id r, conversations (rc_db s) !! id = Some r →
     seqs id (cr_workspace_id r) (rc_db s) ≡ₚ seqZ 1 (message_count id (cr_workspace_id r) (rc_db s))) ∧
  (∀ ctx c id role content tokens t m now r,
     c ∈ rc_seen s → append_message id role content tokens t c = Ok m →
     conversations (rc_db s) !! cv_id c = Some r →
     match append_transaction ctx m now (rc_db s) with
     | Ok (_, d') => mg_seq m = message_count (cv_id c) (cr_workspace_id r) (rc_db s) + 1 ∧
                     message_count (cv_id c) (cr_workspace_id r) d' = mg_seq m
     | Err f => mg_seq m ≤ message_count (cv_id c) (cr_workspace_id r) (rc_db s) → mine ctx (cr_workspace_id r) = true →
                int4 (mg_seq m) = true → match tokens with Some n => int4 n | None => true end = true →
                f = unique_violation
     end).
Proof.
  intros Hok%reachable_consistent. destruct s as [d seen used]. cbn. split.
  - destruct Hok as (Ho & Hall & _). intros id r Hr. destruct (Hall id r Hr) as (_ & n & Hn & _).
    destruct (numbered_seqs d id r n Ho Hr Hn) as [-> Hp]. done.
  - intros ctx c id role content tokens t m now r Hc Hm Hr.
    destruct (append_transaction ctx m now d) as [[a d']|f] eqn:Htx; [by eapply append_is_next|].
    destruct Hok as (Ho & Hall & _). cbn in *. destruct (Hall _ r Hr) as (_ & n & Hn & Hag).
    destruct (Hag c Hc ltac:(done)) as (Hw & _ & Hc0 & _). destruct (numbered_seqs d _ r n Ho Hr Hn) as [-> _].
    by eapply late_append_is_refused.
Qed.

(** ** Saves *)

(** A mutation applied to the row itself. *)
Definition mutate_row (m : mutation) (t now : instant) (r : ConversationRow) : ConversationRow :=
  mk_ConversationRow (cr_workspace_id r) (cr_space_id r) (cr_agent_key r) (cr_kind r)
    (match m with Rename title => title | _ => cr_title r end)
    (match m with PinModel route => route | _ => cr_model_route r end)
    (pending_to_json (match m with Expect options => options | _ => default [] (cr_pending_clarification r) end))
    (cr_created_by r) (cr_created_at r) now
    (match m, cr_deleted_at r with SoftDelete, None => Some t | _, deleted => deleted end)
    (cr_version r + 1).

Lemma mutate_saved m t c c' now r n :
  agrees c r n → cv_version c = cr_version r → mutate m t c = Ok c' → saved_row c' now r = mutate_row m t now r.
Proof.
  intros (_ & _ & _ & _ & Heq) Hv Hm. destruct (Heq Hv) as (Ht & Hr & Hp & Hd). unfold saved_row, mutate_row.
  destruct m; cbn in Hm; unfold rename, pin_model_route, expect_clarification in Hm;
    [unresult; cbn; by rewrite ?Ht, ?Hr, ?Hp, ?Hd..|].
  injection Hm as <-. unfold soft_delete, is_deleted. rewrite Hd. destruct (cr_deleted_at r) as [t'|] eqn:Hdel.
  - rewrite bool_decide_true by done. by rewrite Ht, Hr, Hp, Hd.
  - rewrite bool_decide_false by (by intros []). cbn. by rewrite Ht, Hr, Hp.
Qed.

(** What no transaction ever changes of a thread that stays. *)
Definition same_thread (r r' : ConversationRow) : Prop :=
  cr_workspace_id r' = cr_workspace_id r ∧ cr_space_id r' = cr_space_id r ∧ cr_agent_key r' = cr_agent_key r ∧
  cr_kind r' = cr_kind r ∧ cr_created_by r' = cr_created_by r ∧ cr_created_at r' = cr_created_at r ∧
  cr_version r ≤ cr_version r' ∧ (cr_deleted_at r ≠ None → cr_deleted_at r' = cr_deleted_at r).

Lemma same_thread_refl r : same_thread r r.
Proof. split_and!; done. Qed.

Lemma step_same_thread s s' id r r' :
  consistent s → step s s' → conversations (rc_db s) !! id = Some r → conversations (rc_db s') !! id = Some r' →
  same_thread r r'.
Proof.
  intros Hok Hs Hr.
  assert (conversations (rc_db s') !! id = Some r' → conversations (rc_db s') !! id = conversations (rc_db s) !! id →
            same_thread r r') as Hsame.
  { intros Hr' Heq. rewrite Hr', Hr in Heq. injection Heq as ->. apply same_thread_refl. }
  destruct Hs as [ctx id0 r0 n c d seen used Hsel Hh|ctx c u d d' seen used Hf Hins|
    ctx c m c' t now a d d' seen used Hc Hm Hu|ctx c mid role content tokens t m now a d d' seen used Hc Hm Ht|
    ctx m a d d' seen used Hu|ctx conv file now a d d' seen used Hp|ctx conv file d seen used|ctx space a d d' seen used Hp];
    cbn in *.
  - intros Hr'. by apply Hsame.
  - intros Hr'. apply Hsame; [done|]. unfold insert_conversation in Hins. destruct (mine _ _); [|done].
    destruct (int4 _); [|done]. destruct (bool_decide _); [done|]. apply Ok_pair_inj in Hins as [_ <-]. cbn.
    rewrite lookup_insert_ne; [done|]. intros <-. apply Hf. by apply (proj1 (proj2 Hok) _ r).
  - intros Hr'. apply update_conversation_Ok in Hu as [[_ ->]|(r0 & Hr0 & _ & Hv & _ & ->)]; [by apply Hsame|].
    destruct (mutate_fields _ _ _ _ Hm) as (Hid & _ & Hver & _). cbn in Hr', Hsame. rewrite Hid in *.
    destruct (decide (cv_id c = id)) as [<-|Hne]; [|apply Hsame; [done|by apply lookup_insert_ne]].
    rewrite lookup_insert_eq in Hr'. assert (r0 = r) as -> by congruence. injection Hr' as <-.
    destruct (proj1 (proj2 Hok) _ r Hr) as (_ & n & _ & Hag).
    rewrite (mutate_saved m t c c' now r n (Hag c Hc ltac:(done)) ltac:(congruence) Hm).
    split_and!; try done; cbn; [lia|]. intros Hd. destruct m, (cr_deleted_at r); done.
  - intros Hr'. unfold append_transaction in Ht. apply bind_Ok in Ht as ([u d1] & Hins & Hbump).
    apply insert_message_Ok in Hins as (_ & _ & _ & _ & ->).
    apply bump_version_Ok in Hbump as [[_ ->]|(r0 & Hr0 & ->)]; [by apply Hsame|]. cbn in *.
    destruct (decide (mg_conversation_id m = id)) as [<-|Hne]; [|apply Hsame; [done|by apply lookup_insert_ne]].
    rewrite lookup_insert_eq in Hr'. assert (r0 = r) as -> by congruence. injection Hr' as <-.
    split_and!; try done; cbn; lia.
  - intros Hr'. apply update_message_Ok in Hu as [->|(r0 & _ & ->)]; by apply Hsame.
  - intros Hr'. apply Hsame; [done|]. unfold insert_pin in Hp.
    destruct (visible _ _ _); [destruct (bool_decide _)|]; by apply Ok_pair_inj in Hp as [_ <-].
  - intros Hr'. apply Hsame; [done|]. unfold delete_pin. by destruct (select_pin _ _ _ _).
  - intros Hr'. apply Hsame; [done|]. apply purge_Ok in Hp as (Hconv & _). rewrite Hconv in *.
    by destruct (in_space _ _ _ _).
Qed.

(** C22: no save loses another's.  A save that goes through, however old the reading it was
    computed from, leaves the row as the same change applied to the row of that moment would:
    nothing written in between is overwritten.  And no request ever moves a thread to another
    space or workspace, changes its agent, or brings a deleted one back -- not even one that
    read it before it was deleted. *)
Theorem stale_saves_lose_nothing s s' :
  rtc step empty_race s → step s s' →
  (∀ ctx c m t now c' a d', c ∈ rc_seen s → mutate m t c = Ok c' →
     update_conversation ctx c' now (rc_db s) = Ok (Some a, d') →
     ∃ r, conversations (rc_db s) !! cv_id c = Some r ∧ (m = SoftDelete ∨ cr_deleted_at r = None) ∧
          d' = with_conversations (<[cv_id c := mutate_row m t now r]> (conversations (rc_db s))) (rc_db s)) ∧
  (∀ id r r', conversations (rc_db s) !! id = Some r → conversations (rc_db s') !! id = Some r' → same_thread r r').
Proof.
  intros Hs%reachable_consistent Hstep. split; [|intros id r r'; by eapply step_same_thread].
  intros ctx c m t now c' a d' Hc Hm Hu.
  apply update_conversation_Ok in Hu as [[? _]|(r & Hr & _ & Hv & _ & ->)]; [done|].
  destruct (mutate_fields _ _ _ _ Hm) as (Hid & _ & Hver & _). rewrite Hid in *.
  destruct (proj1 (proj2 Hs) _ r Hr) as (_ & n & _ & Hag). specialize (Hag c Hc ltac:(done)).
  exists r. split; [done|]. rewrite (mutate_saved m t c c' now r n Hag ltac:(congruence) Hm). split; [|done].
  destruct Hag as (_ & _ & _ & _ & Heq). destruct (Heq ltac:(congruence)) as (_ & _ & _ & <-).
  destruct m; cbn in Hm; [right..|by left]; unfold rename, pin_model_route, expect_clarification in Hm; unresult;
    match goal with Hd : is_deleted c = false |- _ => unfold is_deleted in Hd; apply bool_decide_eq_false in Hd end;
    by apply dec_stable.
Qed.
End Race.
