(* ===== verification/ConversationsApp.v ===== *)
(** * ConversationsApp: what the use cases of the conversations module guarantee

    Each use case is a path of the race of [ConversationsRace], so what holds there under any
    interleaving holds of the code; and what single requests answer. *)

From S2P Require Import Prelude Text Calendar Errors Framework Transactions Files Keyset Events Wire Cursor Sessions Conversations ConversationsRace.

Open Scope Z_scope.

(** ** The requests *)

Inductive call : Type :=
  | Start (space_id : option text) (agent_key : text) (kind : ConversationKind) (title : option text)
  | Append (conversation_id role t : text) (attachments : list text) (token_count : option Z)
  | ListByAgent (agent_key : text) (space_id : option text) (limit : nat) (cursor : option text)
  | CountBySpace (space_ids : list text)
  | Get (conversation_id : text)
  | Messages (conversation_id : text) (limit : nat) (cursor : option text)
  | RenameTo (conversation_id : text) (new_title : option text)
  | PinModelTo (conversation_id : text) (route : option text)
  | ExpectOptions (conversation_id : text) (options : list text)
  | Delete (conversation_id : text)
  | DeleteMessage (conversation_id message_id : text)
  | ListFiles (conversation_id : text)
  | PinFile (conversation_id file_id : text)
  | UnpinFile (conversation_id file_id : text)
  | PurgeSpace (space_id : text).

Section App.
Context {V : Type} `{ConversationPorts V, Env, !EnvLaws _, DB : Database, Unicode, Decimals}.
Abbreviation W := (DbWorld ConversationsDb V).
Abbreviation io A := (eff W exn A).
Abbreviation session A := (eff W DbFault A).
Implicit Types (w : W) (s : Race) (ctx : ExecutionContext).

Definition discard {A} (m : io A) : io unit := _ ← m; eff_ret _ tt.

Definition run_call (ctx : ExecutionContext) (c : call) : io unit :=
  match c with
  | Start space_id agent_key kind title => discard (StartConversation ctx space_id agent_key kind title)
  | Append id role t attachments token_count => discard (AppendMessage ctx id role t attachments token_count)
  | ListByAgent agent_key space_id limit cursor => discard (ListConversationsByAgent ctx agent_key space_id limit cursor)
  | CountBySpace space_ids => discard (CountConversationsBySpace ctx space_ids)
  | Get id => discard (GetConversation ctx id)
  | Messages id limit cursor => discard (ListMessages ctx id limit cursor)
  | RenameTo id new_title => discard (RenameConversation ctx id new_title)
  | PinModelTo id route => discard (PinConversationModel ctx id route)
  | ExpectOptions id options => discard (ExpectClarification ctx id options)
  | Delete id => discard (SoftDeleteConversation ctx id)
  | DeleteMessage id message_id => discard (SoftDeleteMessage ctx id message_id)
  | ListFiles id => discard (ListConversationFiles ctx id)
  | PinFile id file_id => discard (PinConversationFile ctx id file_id)
  | UnpinFile id file_id => discard (UnpinConversationFile ctx id file_id)
  | PurgeSpace space_id => discard (PurgeSpaceConversations ctx space_id)
  end.

(** Requests one after the other, whatever each answers. *)
Fixpoint run_calls (calls : list (ExecutionContext * call)) (w : W) : W :=
  match calls with
  | [] => w
  | (ctx, c) :: calls => run_calls calls (run_call ctx c w).2
  end.

(** ** Use cases as paths of the race *)

(** Identifiers still to be minted are new to the race. *)
Definition fresh w s : Prop := ∀ i, (minted w ≤ i)%nat → uuid7 i ∉ rc_used s.

Definition at_rest w s : Prop := active w = None ∧ rc_db s = db w ∧ fresh w s.

(** From a world at rest where [P] holds, [m] is a path of the race to one where [Q] does. *)
Definition paths {A} (P : Race → Prop) (m : io A) (Q : A → Race → Prop) : Prop :=
  ∀ w s r w', at_rest w s → P s → m w = (r, w') →
    ∃ s', rtc step s s' ∧ at_rest w' s' ∧ match r with Ok a => Q a s' | Err _ => True end.

Definition always (s : Race) : Prop := True.

Lemma paths_ret {A} (a : A) P : paths P (eff_ret _ a) (λ a' s, a' = a ∧ P s).
Proof. intros w s r w' Hw HP [= <- <-]. by exists s. Qed.

Lemma paths_end {A} (a : A) P : paths P (eff_ret _ a) (λ _ _, True).
Proof. intros w s r w' Hw HP [= <- <-]. by exists s. Qed.

Lemma paths_keep {A} (a : A) P : paths P (eff_ret _ a) (λ _ s, P s).
Proof. intros w s r w' Hw HP [= <- <-]. by exists s. Qed.

Lemma paths_lift {A} (x : result exn A) P : paths P (eff_lift x) (λ a s, x = Ok a ∧ P s).
Proof. intros w s r w' Hw HP [= <- <-]. exists s. split_and!; [done|done|]. by destruct x. Qed.

Lemma paths_raise {A} (e : exn) P (Q : A → Race → Prop) : paths P (eff_raise e) Q.
Proof. intros w s r w' Hw HP [= <- <-]. by exists s. Qed.

Lemma paths_bind {A B} P (m : io A) Q (k : A → io B) T :
  paths P m Q → (∀ a, paths (Q a) (k a) T) → paths P (a ← m; k a) T.
Proof.
  intros Hm Hk w s r w' Hw HP [(e & He & ->)|(a & w1 & Ha & Hr)]%eff_bind_run.
  - destruct (Hm w s _ _ Hw HP He) as (s' & ? & ? & _). by exists s'.
  - destruct (Hm w s _ _ Hw HP Ha) as (s1 & Hs1 & Hw1 & HQ).
    destruct (Hk a w1 s1 _ _ Hw1 HQ Hr) as (s2 & Hs2 & Hw2 & HT). exists s2. split; [by etrans|done].
Qed.

Lemma paths_weaken {A} P P' (m : io A) (Q Q' : A → Race → Prop) :
  paths P m Q → (∀ s, P' s → P s) → (∀ a s, Q a s → Q' a s) → paths P' m Q'.
Proof.
  intros Hm HP HQ w s r w' Hw HP' Hr. destruct (Hm w s r w' Hw (HP s HP') Hr) as (s' & Hs & Hw' & Hq).
  exists s'. split_and!; [done..|]. destruct r; [by apply HQ|done].
Qed.

Lemma at_rest_frame w w' s : frame w w' → db w' = db w → at_rest w s → at_rest w' s.
Proof.
  intros (Ha & _ & _ & Hm) Hd (Hact & Hdb & Hf). split_and!; [congruence|congruence|].
  intros i. rewrite Hm. apply Hf.
Qed.

Lemma paths_now P : paths P utc_now (λ _ s, P s).
Proof. intros w s r w' Hw HP [= <- <-]. by exists s. Qed.

Lemma paths_outside {A} (m : eff V exn A) P : paths P (outside m) (λ _ s, P s).
Proof.
  intros w s r w' Hw HP. unfold outside. destruct (m (ext w)) as [r' v]. intros [= <- <-]. exists s.
  split_and!; [done|done|by destruct r'].
Qed.

(** A reading of the database. *)
Lemma paths_rows {A} ctx (q : ConversationsDb → A) P :
  paths P (repo ctx (rows q)) (λ a s, P s ∧ a = q (rc_db s)).
Proof.
  intros w s r w' Hw HP Hr. apply adapter_reads in Hr as (Hf & Hd & Hr); [|apply Hw].
  exists s. split_and!; [done|by eapply at_rest_frame|]. destruct Hr as [->|Hr]; [|by destruct r].
  split; [done|]. by destruct Hw as (_ & -> & _).
Qed.

(** A transaction that is a step of the race whenever it commits. *)
Lemma paths_repo {A} ctx (body : session A) R P :
  runs body R →
  (∀ d seen used now a d', P (mk_Race d seen used) → R now d a d' →
     ∃ s', rtc step (mk_Race d seen used) s' ∧ rc_db s' = d' ∧ rc_used s' = used) →
  paths P (repo ctx body) (λ _ _, True).
Proof.
  intros Hb Hstep w s r w' Hw HP Hr. eapply adapter_runs in Hr as [Hf Hr]; [|exact Hb|apply Hw].
  destruct Hr as [[Hr Hd]|(a & now & HR & Hr)].
  - exists s. split_and!; [done|by eapply at_rest_frame|by destruct r].
  - destruct s as [d seen used]. destruct Hw as (Hact & Hdb & Hfresh). cbn in Hdb. subst d.
    destruct (Hstep _ _ _ _ _ _ HP HR) as (s' & Hs' & Hd' & Hu). exists s'. split; [done|]. split; [|by destruct r].
    destruct Hf as (Hact' & _ & _ & Hm). split_and!; [congruence|done|]. intros i. rewrite Hm, Hu. apply Hfresh.
Qed.

Lemma paths_stmt {A} ctx (q : instant → ConversationsDb → result DbFault (A * ConversationsDb)) P :
  (∀ d seen used now a d', P (mk_Race d seen used) → q now d = Ok (a, d') →
     ∃ s', rtc step (mk_Race d seen used) s' ∧ rc_db s' = d' ∧ rc_used s' = used) →
  paths P (repo ctx (stmt_now q)) (λ _ _, True).
Proof. intros Hq. eapply paths_repo; [apply runs_execute|done]. Qed.

Definition has_seen (o : option Conversation) s : Prop := ∀ c, o = Some c → c ∈ rc_seen s.

Lemma paths_get ctx id : paths always (get ctx id) has_seen.
Proof.
  intros w s r w' Hw _ [(e & He & ->)|(row & w1 & Hrow & Hr)]%eff_bind_run.
  { destruct (paths_rows ctx _ always w s _ _ Hw I He) as (s' & ? & ? & _). by exists s'. }
  destruct (paths_rows ctx _ always w s _ _ Hw I Hrow) as (s' & Hs & Hw1 & _ & ->).
  destruct (select_conversation ctx id (rc_db s')) as [[row n]|] eqn:Hsel.
  - apply eff_bind_run in Hr as [(e & [= He <-] & ->)|(c & w2 & [= Hh <-] & [= <- <-])]; [by exists s'|].
    destruct s' as [d seen used]. exists (mk_Race d (c :: seen) used).
    split; [eapply rtc_r; [done|by eapply step_read]|]. split; [done|]. intros c' [= <-]. by left.
  - injection Hr as <- <-. exists s'. by split_and!.
Qed.

Lemma paths_found {A} (o : option A) P : paths P (found o) (λ a s, o = Some a ∧ P s).
Proof. destruct o; [|apply paths_raise]. eapply paths_weaken; [apply paths_ret|done|]. naive_solver. Qed.

Lemma paths_save ctx c m t c' :
  mutate m t c = Ok c' → paths (λ s, c ∈ rc_seen s) (save ctx c') (λ _ _, True).
Proof.
  intros Hm. eapply paths_bind.
  - apply paths_stmt. intros d seen used now a d' Hc Hq. eexists.
    split; [apply rtc_once; by eapply step_save|done].
  - intros [[v u]|]; [|apply paths_raise]. apply paths_end.
Qed.

Lemma runs_append ctx m :
  runs (append_statements (V := V) ctx m) (λ now d a d', append_transaction ctx m now d = Ok (a, d')).
Proof.
  eapply runs_mono; [eapply runs_bind; [apply (runs_execute (λ _, insert_message ctx m))|]|].
  - intros u. apply (runs_execute (bump_version ctx (mg_conversation_id m))).
  - cbn. intros now d a d' (u & d1 & Hins & Hb). unfold append_transaction. by rewrite Hins.
Qed.

Lemma paths_append ctx c id role content tokens t m :
  append_message id role content tokens t c = Ok m → paths (λ s, c ∈ rc_seen s) (save_append ctx m) (λ _ _, True).
Proof.
  intros Hm. eapply paths_bind.
  - eapply paths_repo; [apply runs_append|]. intros d seen used now a d' Hc Hq. eexists.
    split; [apply rtc_once; eapply (step_append ctx c); [exact Hc|exact Hm|exact Hq]|done].
  - intros [v|]; [|apply paths_raise]. apply paths_end.
Qed.

Lemma paths_unpin ctx id file_id : paths always (unpin_file ctx id file_id) (λ _ _, True).
Proof.
  apply (paths_stmt ctx (λ _ d, Ok (tt, delete_pin ctx id file_id d))).
  intros d seen used now a d' _ [_ <-]%Ok_pair_inj. eexists. split; [apply rtc_once, step_unpin|done].
Qed.

Lemma runs_pin ctx id file_id now :
  runs (pin_statements (V := V) ctx id file_id now) (λ _ d a d', ∃ o, insert_pin ctx id file_id now d = Ok (o, d') ∧
     a = match o with Some r => Some r | None => select_pin ctx id file_id d' end).
Proof.
  eapply runs_mono.
  - apply (runs_bind _ _ (λ _ d o d', insert_pin ctx id file_id now d = Ok (o, d'))
      (λ o _ d a d', d' = d ∧ a = match o with Some r => Some r | None => select_pin ctx id file_id d end)).
    + apply (runs_execute (λ _, insert_pin ctx id file_id now)).
    + intros [r|].
      * eapply runs_mono; [apply runs_ret|]. naive_solver.
      * eapply runs_mono; [apply (runs_execute (λ _ d, Ok (select_pin ctx id file_id d, d)))|].
        cbn. intros _ d a d' [= <- <-]. done.
  - cbn. intros _ d a d' (o & d1 & Hi & -> & ->). by exists o.
Qed.

Lemma paths_pin ctx id file_id now : paths always (pin_file ctx id file_id now) (λ _ _, True).
Proof.
  eapply paths_bind.
  - eapply paths_repo; [apply runs_pin|]. intros d seen used now' a d' _ (o & Ho & _). eexists.
    split; [apply rtc_once; eapply step_pin; exact Ho|done].
  - intros [r|]; [apply paths_end|apply paths_raise].
Qed.

Lemma runs_command (q : ConversationsDb → ConversationsDb) :
  runs (command (V := V) q) (λ _ d _ d', d' = q d).
Proof. eapply runs_mono; [apply (runs_execute (λ _ d, Ok (tt, q d)))|]. cbn. intros _ d a d' Hr. by injection Hr. Qed.

Lemma runs_purge ctx space_id :
  runs (purge_statements (V := V) ctx space_id) (λ _ d a d', purge_transaction ctx space_id d = Ok (a, d')).
Proof.
  eapply runs_mono.
  - apply (runs_bind _ _ _ (λ _ _ d a d', drop_threads ctx space_id (drop_pins ctx space_id d) = Ok (a, d'))
             (runs_command (drop_messages ctx space_id))).
    intros _. eapply runs_mono.
    + apply (runs_bind _ _ _ (λ _ _ d a d', drop_threads ctx space_id d = Ok (a, d'))
               (runs_command (drop_pins ctx space_id))).
      intros _. apply (runs_execute (λ _, drop_threads ctx space_id)).
    + cbn. intros _ d a d' (_ & d1 & -> & Hr). exact Hr.
  - cbn. intros _ d a d' (_ & d1 & -> & Hr). exact Hr.
Qed.

Lemma paths_purge ctx space_id : paths always (purge_space ctx space_id) (λ _ _, True).
Proof.
  eapply paths_bind; [|intros a; apply paths_end].
  eapply paths_repo; [apply runs_purge|]. intros d seen used now' a d' _ Hr. eexists.
  split; [apply rtc_once; eapply step_purge; exact Hr|done].
Qed.

Lemma paths_save_message ctx m : paths always (save_message ctx m) (λ _ _, True).
Proof.
  eapply paths_bind.
  - apply (paths_stmt ctx (λ _, update_message ctx m)). intros d seen used now' a d' _ Hr. eexists.
    split; [apply rtc_once; eapply step_delete_message; exact Hr|done].
  - intros [r|]; [apply paths_end|apply paths_raise].
Qed.

(** A thread is added under the identifier minted for it. *)
Lemma paths_start ctx key space_id kind title now :
  paths always
    (id ← new_uuid7;
     let c := mk_Conversation id (workspace_id ctx) space_id key kind title (user_id ctx) now now None 1 0 None [] in
     _ ← add ctx c;
     eff_ret _ (c, [ConversationStarted id (workspace_id ctx) key (kind_value kind) now])) (λ _ _, True).
Proof.
  intros w s r w' Hw _. set (w1 := mk_DbWorld (db w) (ext w) (active w) (began w) (issued w) (ticks w) (1 + minted w)).
  change ((_ ← new_uuid7; _) w) with
    ((let c := mk_Conversation (uuid7 (minted w)) (workspace_id ctx) space_id key kind title (user_id ctx) now now None 1 0 None []
      in _ ← add ctx c; eff_ret _ (c, [ConversationStarted (uuid7 (minted w)) (workspace_id ctx) key (kind_value kind) now])) w1).
  cbn zeta. set (c := mk_Conversation _ _ _ _ _ _ _ _ _ _ _ _ _ _). intros Hr.
  assert (∃ o w2, add ctx c w1 = (o, w2) ∧ w' = w2) as (o & w2 & Hadd & ->).
  { unfold mbind, eff_bind in Hr. destruct (add ctx c w1) as [[[]|e] w2]; injection Hr as <- <-; by eexists _, _. }
  destruct Hw as (Hact & Hdb & Hfresh).
  apply (adapter_runs _ _ _ _ _ _ _ (runs_execute (λ _, insert_conversation ctx c))) in Hadd as [Hf Hadd]; [|done].
  assert (match r with Ok _ => True | Err _ => True end) as Hr' by by destruct r.
  destruct Hadd as [[_ Hd]|(u & n & Hins & _)].
  - exists s. split_and!; [done| |done]. apply (at_rest_frame w1); [done|done|].
    split_and!; [done|done|]. intros i Hi. apply Hfresh. cbn in Hi. lia.
  - destruct s as [d seen used]. cbn in Hdb. subst d. exists (mk_Race (db w2) seen (cv_id c :: used)).
    split; [apply rtc_once; eapply step_start; [|exact Hins]; cbn; by apply Hfresh|]. split; [|done].
    destruct Hf as (Hact' & _ & _ & Hm). split_and!; [by rewrite Hact'|done|].
    intros i Hi Hin. rewrite Hm in Hi. cbn in Hi, Hin. apply elem_of_cons in Hin as [Heq|Hin].
    + apply uuid7_inj in Heq. lia.
    + by apply (Hfresh i); [lia|].
Qed.

(** *** The use cases *)

Lemma paths_discard {A} P (m : io A) Q : paths P m Q → paths P (discard m) (λ _ _, True).
Proof. intros Hm. eapply paths_bind; [exact Hm|]. intros a. apply paths_end. Qed.

Lemma paths_any {A} P (m : io A) Q : paths P m Q → paths P m (λ _ _, True).
Proof. intros Hm. by eapply paths_weaken. Qed.

Lemma paths_thread {B} ctx id (k : Conversation → io B) :
  (∀ c, paths (λ s, c ∈ rc_seen s) (k c) (λ _ _, True)) →
  paths always (c ← get ctx id; c ← found c; k c) (λ _ _, True).
Proof.
  intros Hk. eapply paths_bind; [apply paths_get|]. intros o. eapply paths_bind; [apply paths_found|].
  intros c. eapply paths_weaken; [apply Hk| |done]. intros s [-> Hs]. by apply Hs.
Qed.

Lemma paths_refused {A} (x : result ConversationErr A) P : paths P (refused x) (λ a s, x = Ok a ∧ P s).
Proof. unfold refused. eapply paths_weaken; [apply paths_lift|done|]. cbn. intros a s [Hx HP]. split; [by destruct x; [injection Hx as ->|]|done]. Qed.

Lemma paths_case {A} (x : Prop) P (m : io A) Q : (x → paths P m Q) → paths (λ s, x ∧ P s) m Q.
Proof. intros Hm w s r w' Hw [Hx HP]. by apply Hm. Qed.

Lemma paths_mutation {B} ctx c m (f : instant → result ConversationErr Conversation) (k : Conversation → io B) :
  (∀ t, f t = mutate m t c) → (∀ c', paths (λ _, True) (k c') (λ _ _, True)) →
  paths (λ s, c ∈ rc_seen s) (now ← utc_now; c ← refused (f now); c ← save ctx c; k c) (λ _ _, True).
Proof.
  intros Hf Hk. eapply paths_bind; [apply paths_now|]. intros t. eapply paths_bind; [apply paths_refused|].
  intros c'. apply paths_case. rewrite Hf. intros Hm. eapply paths_bind; [by eapply paths_save|exact Hk].
Qed.

(** Reading methods leave the race where it is. *)
Lemma paths_page {A B} (fetched : list A) limit (h : A → result exn B) next P :
  paths P (page_of (V := V) fetched limit h next) (λ _ _, True).
Proof.
  unfold page_of. eapply paths_bind; [apply paths_lift|]. intros o. eapply paths_bind; [apply paths_lift|].
  intros data. apply paths_end.
Qed.

Lemma paths_optional {A} (f : text → result exn A) cursor P : paths P (optional (V := V) f cursor) (λ _ s, P s).
Proof.
  destruct cursor as [c|]; cbn; [|eapply paths_weaken; [apply paths_ret|done|naive_solver]].
  eapply paths_bind; [apply paths_lift|]. intros a. eapply paths_weaken; [apply paths_ret| |]; naive_solver.
Qed.

Lemma paths_live_thread {B} ctx id (k : Conversation → io B) :
  (∀ c, paths (λ _, True) (k c) (λ _ _, True)) → paths always (c ← live_thread ctx id; k c) (λ _ _, True).
Proof.
  intros Hk. eapply paths_bind; [|exact Hk]. apply paths_thread. intros c.
  destruct (is_deleted c); [apply paths_raise|apply paths_end].
Qed.

Lemma paths_get_message ctx id message_id P : paths P (get_message ctx id message_id) (λ _ _, True).
Proof.
  eapply paths_bind; [apply paths_rows|]. intros [row|]; [|apply paths_end].
  eapply paths_bind; [apply paths_lift|]. intros m. apply paths_end.
Qed.

Lemma paths_list_files ctx id P : paths P (list_files ctx id) (λ _ s, P s).
Proof.
  eapply paths_bind; [apply paths_rows|]. intros pins. eapply paths_weaken; [apply paths_ret| |]; naive_solver.
Qed.

Lemma paths_mint P : paths P new_uuid7 (λ _ s, P s).
Proof.
  intros w s r w' (Ha & Hd & Hf) HP [= <- <-]. exists s. split; [done|]. split; [|done].
  split_and!; [done|done|]. intros i Hi. apply Hf. cbn in Hi. lia.
Qed.

Lemma paths_routable ctx route P : paths P (require_routable ctx route) (λ _ s, P s).
Proof.
  eapply paths_bind; [apply paths_lift|]. intros ?. eapply paths_bind; [apply paths_outside|]. intros known.
  eapply paths_weaken; [apply paths_lift|by intros s' [_ ?]|by intros ? ? [_ ?]].
Qed.

Lemma paths_space ctx space_id P : paths P (require_space ctx space_id) (λ _ _, True).
Proof.
  destruct space_id as [sp|]; cbn; [|apply paths_end].
  eapply paths_bind; [apply paths_outside|]. intros ok. eapply paths_any, paths_lift.
Qed.

Lemma paths_messages ctx id limit cursor P : paths P (list_messages ctx id limit cursor) (λ _ _, True).
Proof.
  eapply paths_bind; [apply paths_optional|]. intros after. eapply paths_bind; [|intros fetched; apply paths_page].
  apply (paths_stmt ctx (λ _, select_messages ctx id limit after)). intros d seen used now a d' _ Hr.
  unfold select_messages in Hr. destruct (match after with Some _ => _ | None => _ end); [done|].
  apply Ok_pair_inj in Hr as [_ <-]. by eexists.
Qed.

Lemma call_paths ctx c : paths always (run_call ctx c) (λ _ _, True).
Proof.
  destruct c as [space_id agent_key kind title|id role t attachments token_count|agent_key space_id limit cursor|
    space_ids|id|id limit cursor|id new_title|id route|id options|id|id message_id|id|id file_id|id file_id|space_id];
    cbn [run_call]; try apply (paths_discard always _ (λ _ _, True)).
  - eapply paths_bind; [apply paths_lift|]. intros key. eapply paths_bind; [apply paths_space|].
    intros ?. eapply paths_bind; [apply paths_now|]. intros t. eapply paths_weaken; [apply paths_start|done..].
  - eapply paths_bind; [apply paths_lift|]. intros role0. eapply paths_bind; [apply paths_lift|]. intros content.
    eapply paths_weaken; [apply paths_thread|done|done]. intros c.
    eapply paths_bind; [apply paths_now|]. intros now. eapply paths_bind; [apply paths_mint|]. intros message_id.
    eapply paths_bind; [apply paths_refused|]. intros m. apply paths_case. intros Hm.
    eapply paths_bind; [by eapply paths_append|]. intros ?. apply paths_end.
  - eapply paths_bind; [apply paths_lift|]. intros key. eapply paths_bind; [apply paths_optional|]. intros after.
    eapply paths_bind; [apply paths_rows|]. intros fetched. apply paths_page.
  - unfold CountConversationsBySpace, counts_by_space. destruct (bool_decide _); [apply paths_end|].
    eapply paths_any, paths_rows.
  - apply paths_thread. intros c. destruct (is_deleted c); [apply paths_raise|apply paths_end].
  - apply paths_thread. intros c. destruct (is_deleted c); [apply paths_raise|apply paths_messages].
  - apply paths_thread. intros c. apply (paths_mutation ctx c (Rename new_title)); [done|]. intros c'. apply paths_end.
  - apply paths_thread. intros c. eapply (paths_bind _ _ (λ _ s, c ∈ rc_seen s)).
    { destruct route as [r|]; [apply paths_routable|apply paths_keep]. }
    intros ?. apply (paths_mutation ctx c (PinModel route)); [done|]. intros c'. apply paths_end.
  - apply paths_thread. intros c. eapply paths_bind; [apply paths_now|]. intros t.
    eapply paths_bind; [apply paths_refused|]. intros c'. apply paths_case. intros Hm.
    by apply (paths_save ctx c (Expect options) t).
  - apply paths_thread. intros c. eapply paths_bind; [apply paths_now|]. intros t.
    eapply paths_bind; [by apply (paths_save ctx c SoftDelete t)|]. intros c'. apply paths_end.
  - apply paths_live_thread. intros c. eapply paths_bind; [apply paths_get_message|]. intros o.
    eapply paths_bind; [apply paths_found|]. intros m. eapply paths_bind; [apply paths_now|]. intros t. cbn zeta.
    eapply paths_bind; [|intros ?; apply paths_end]. eapply paths_weaken; [apply paths_save_message|done|done].
  - eapply paths_bind; [apply paths_get|]. intros o. eapply paths_bind; [apply paths_found|]. intros c.
    eapply paths_any, paths_list_files.
  - apply paths_live_thread. intros c. eapply paths_bind; [apply paths_lift|]. intros ?.
    eapply paths_bind; [apply paths_list_files|]. intros pinned. eapply paths_bind; [apply paths_lift|]. intros ?.
    eapply paths_bind; [apply paths_outside|]. intros readable. eapply paths_bind; [apply paths_lift|]. intros sp.
    eapply paths_bind; [apply paths_lift|]. intros ?. eapply paths_bind; [apply paths_now|]. intros t.
    eapply paths_weaken; [apply paths_pin|done|done].
  - apply paths_live_thread. intros c. eapply paths_weaken; [apply paths_unpin|done|done].
  - eapply paths_any, paths_purge.
Qed.

(** C23: the use cases only ever do what the race allows.  Whatever requests of whatever
    workspaces are served, in whatever order and with whatever round trips to the database
    failing -- a commit whose answer is lost included --, the database they leave is one the
    race can reach; so every thread in it has its messages numbered without a gap. *)
Theorem requests_refine_the_race calls w :
  active w = None → db w = rc_db empty_race →
  ∃ s, rtc step empty_race s ∧ rc_db s = db (run_calls calls w) ∧
  ∀ id r, conversations (db (run_calls calls w)) !! id = Some r →
    seqs id (cr_workspace_id r) (db (run_calls calls w))
      ≡ₚ seqZ 1 (message_count id (cr_workspace_id r) (db (run_calls calls w))).
Proof.
  intros Ha Hd.
  assert (∀ calls w s, at_rest w s → ∃ s', rtc step s s' ∧ rc_db s' = db (run_calls calls w)) as Hrun.
  { clear Ha Hd w calls. intros calls. induction calls as [|[ctx c] calls IH]; intros w s Hw; [exists s; split; [done|apply Hw]|].
    destruct (run_call ctx c w) as [r w1] eqn:Hr.
    destruct (call_paths ctx c w s r w1 Hw I Hr) as (s1 & Hs1 & Hw1 & _).
    destruct (IH w1 s1 Hw1) as (s2 & Hs2 & Hd2). exists s2. split; [by etrans|]. cbn. by rewrite Hr. }
  destruct (Hrun calls w empty_race) as (s & Hs & Hdb).
  { split_and!; [done|done|]. intros i _. apply not_elem_of_nil. }
  exists s. split_and!; [done|done|]. intros id r. rewrite <- Hdb. intros Hr.
  destruct (reachable_consistent s Hs) as (Ho & Hall & _). destruct (Hall id r Hr) as (_ & n & Hn & _).
  destruct (numbered_seqs _ id r n Ho Hr Hn) as [-> Hp]. done.
Qed.

(** ** Deleted threads *)

Definition quiet : Prop := ∀ i, fault i = None.

(** A use case that begins by reading a thread that is there. *)
Lemma thread_run {A} ctx id (k : Conversation → io A) w r n c res w' :
  active w = None → select_conversation ctx id (db w) = Some (r, n) → hydrate_conversation id r n = Ok c →
  (c ← get ctx id; c ← found c; k c) w = (res, w') →
  (is_ok res = false ∧ db w' = db w ∧ ¬ quiet) ∨ ∃ w1, frame w w1 ∧ db w1 = db w ∧ k c w1 = (res, w').
Proof.
  intros Ha Hsel Hh Hr. unfold get, repo, rows in Hr.
  set (q := λ d, Ok (select_conversation ctx id d, d)) in Hr.
  assert (∃ x w1, adapter translate_unique ctx (execute q) w = (x, w1)) as (x & w1 & Hx)
    by (destruct (adapter _ _ _ w) as [x w1]; by exists x, w1).
  pose proof (adapter_reads _ _ _ _ _ _ Ha Hx) as (Hf & Hd & Hx').
  unfold mbind at 1, eff_bind at 1 in Hr. unfold mbind at 1, eff_bind at 1 in Hr. rewrite Hx in Hr.
  destruct Hx' as [->|Hx'].
  - rewrite Hsel in Hr. unfold mbind, eff_bind, eff_lift in Hr. rewrite Hh in Hr. cbn in Hr. right. by exists w1.
  - destruct x as [x|e]; [done|]. injection Hr as <- <-. left. split_and!; [done..|]. intros Hq.
    destruct (quiet_reads translate_unique ctx (select_conversation ctx id) w Hq Ha) as (w2 & _ & Hr & _).
    unfold q in Hx. rewrite Hx in Hr. discriminate Hr.
Qed.

(** The requests that would change a thread, or what hangs on it. *)
Definition changes (id : text) (c : call) : Prop :=
  match c with
  | Append id' _ _ _ _ | RenameTo id' _ | PinModelTo id' _ | ExpectOptions id' _ | DeleteMessage id' _
  | PinFile id' _ | UnpinFile id' _ => id' = id
  | _ => False
  end.

(** What such a request is refused for before the thread is looked at, or beside it. *)
Definition well_formed (c : call) : bool :=
  match c with
  | Append _ role t attachments _ =>
      match parse_role role with Some _ => true | None => false end && is_ok (new_MessageContent t attachments)
  | PinModelTo _ (Some _) => false
  | _ => true
  end.

Lemma discard_run {A} (m : io A) w res w' :
  discard m w = (res, w') → ∃ x, m w = (x, w') ∧ match x, res with Ok _, Ok _ => True | Err e, Err e' => e = e' | _, _ => False end.
Proof.
  unfold discard, mbind, eff_bind. destruct (m w) as [[a|e] w1]; intros [= <- <-]; (eexists; split; [reflexivity|]); done.
Qed.

(** A computation that refuses with [e], or at least fails, and writes nothing. *)
Definition refuses {A} (P : Prop) (e : exn) (m : io A) (d : ConversationsDb) : Prop :=
  ∀ w x w', db w = d → m w = (x, w') → db w' = d ∧ ∃ e', x = Err e' ∧ (P → e' = e).

Lemma refuses_raise {A} P e d : refuses P e (eff_raise e : io A) d.
Proof. intros w x w' Hd [= <- <-]. split; [done|]. by exists e. Qed.

Lemma refuses_now {A} P e (k : instant → io A) d : (∀ t, refuses P e (k t) d) → refuses P e (t ← utc_now; k t) d.
Proof.
  intros Hk w x w' Hd Hr.
  exact (Hk _ (mk_DbWorld (db w) (ext w) (active w) (began w) (issued w) (1 + ticks w) (minted w)) x w' Hd Hr).
Qed.

Lemma refuses_mint {A} P e (k : text → io A) d : (∀ t, refuses P e (k t) d) → refuses P e (t ← new_uuid7; k t) d.
Proof.
  intros Hk w x w' Hd Hr.
  exact (Hk _ (mk_DbWorld (db w) (ext w) (active w) (began w) (issued w) (ticks w) (1 + minted w)) x w' Hd Hr).
Qed.

Lemma refuses_deleted {A B} P (x : result ConversationErr A) (k : A → io B) d :
  is_ok x = false → refuses P conflict_exn (a ← refused x; k a) d.
Proof. intros Hx w y w' Hd Hr. destruct x; [done|]. injection Hr as <- <-. split; [done|]. by eexists. Qed.

Lemma refuses_routable {A} ctx route e (k : unit → io A) d :
  (∀ u, refuses False e (k u) d) → refuses False e (u ← require_routable ctx route; k u) d.
Proof.
  intros Hk w x w' Hd Hr.
  assert (∀ w1 x1 w2, db w1 = d → require_routable ctx route w1 = (x1, w2) → db w2 = d) as Hkeep.
  { unfold require_routable. intros w1 x1 w2 Hd1. unfold mbind, eff_bind, eff_lift, raise_if.
    destruct (bool_decide _); [by intros [= <- <-]|]. unfold outside. destruct (list_llm_models ctx (ext w1)) as [[y|y] v];
      [destruct (negb _)|]; by intros [= <- <-]. }
  apply eff_bind_run in Hr as [(e' & He & ->)|(u & w1 & Hu & Hr)].
  - split; [by eapply Hkeep|]. by exists e'.
  - eapply Hk; [|exact Hr]. by eapply Hkeep.
Qed.

Lemma refused_deleted c m t : is_deleted c = true → m ≠ SoftDelete → is_ok (mutate m t c) = false.
Proof. intros Hd Hm. destruct m; [..|done]; cbn; unfold rename, pin_model_route, expect_clarification; by rewrite Hd. Qed.

(** A whole use case, given what it does with the deleted thread. *)
Lemma refuses_thread {A} ctx id (k : Conversation → io A) P e w r n c res w' :
  active w = None → select_conversation ctx id (db w) = Some (r, n) → hydrate_conversation id r n = Ok c →
  refuses P e (k c) (db w) → discard (c ← get ctx id; c ← found c; k c) w = (res, w') →
  is_ok res = false ∧ db w' = db w ∧ (quiet → P → res = Err e).
Proof.
  intros Ha Hsel Hh Hk (x & Hx & Hres)%discard_run. apply (thread_run ctx id k w r n c) in Hx; [|done..].
  destruct Hx as [(Hx & Hd & Hq)|(w1 & Hf & Hd & Hx)].
  - destruct x, res; try done; by split_and!.
  - destruct (Hk w1 x w' Hd Hx) as (Hd' & e' & -> & He). destruct res; [done|]. subst.
    split_and!; [done|done|]. intros _ HP. by rewrite He.
Qed.

Lemma refuses_live {A} ctx id (k : Conversation → io A) w r n c res w' :
  active w = None → select_conversation ctx id (db w) = Some (r, n) → hydrate_conversation id r n = Ok c →
  is_deleted c = true → discard (c ← live_thread ctx id; k c) w = (res, w') →
  is_ok res = false ∧ db w' = db w ∧ (quiet → res = Err conflict_exn).
Proof.
  intros Ha Hsel Hh Hdel (x & Hx & Hres)%discard_run.
  assert (∀ y w1, live_thread ctx id w = (y, w1) → is_ok y = false ∧ db w1 = db w ∧ (quiet → y = Err conflict_exn)) as Hl.
  { intros y w1 Hy. apply (thread_run ctx id _ w r n c) in Hy; [|done..]. rewrite Hdel in Hy.
    destruct Hy as [(Hy & Hd & Hq)|(w2 & _ & Hd & [= <- <-])]; by split_and!. }
  apply eff_bind_run in Hx as [(e & He & ->)|(c' & w1 & Hc & _)].
  - destruct (Hl _ _ He) as (_ & Hd & Hq). destruct res; [done|]. subst. split_and!; [done..|].
    intros Hquiet. specialize (Hq Hquiet). congruence.
  - by destruct (Hl _ _ Hc).
Qed.

Lemma pending_json options : default [] (pending_to_json options) = options.
Proof. unfold pending_to_json. by case_bool_decide. Qed.

(** What a second deletion leaves of the row: a new version of it, deleted when it was. *)
Definition rewritten (r r' : ConversationRow) : Prop :=
  r' = mk_ConversationRow (cr_workspace_id r) (cr_space_id r) (cr_agent_key r) (cr_kind r) (cr_title r) (cr_model_route r)
         (cr_pending_clarification r') (cr_created_by r) (cr_created_at r) (cr_updated_at r') (cr_deleted_at r)
         (cr_version r + 1) ∧
  default [] (cr_pending_clarification r') = default [] (cr_pending_clarification r).

Lemma saved_rewritten id r n c now : hydrate_conversation id r n = Ok c → rewritten r (saved_row c now r).
Proof.
  intros (_ & _ & _ & Ht & Hm & Hp & Hd & _)%hydrate_fields. unfold rewritten, saved_row. cbn.
  by rewrite pending_json, Ht, Hm, Hp, Hd.
Qed.

Lemma save_again ctx id w r n c res w' :
  active w = None → select_conversation ctx id (db w) = Some (r, n) → hydrate_conversation id r n = Ok c →
  save ctx c w = (res, w') →
  ((is_ok res = false ∧ db w' = db w) ∨
   ∃ r', rewritten r r' ∧ db w' = with_conversations (<[id := r']> (conversations (db w))) (db w)) ∧
  (quiet → int4 (cr_version r + 1) = true → is_ok res = true).
Proof.
  intros Ha Hsel Hh Hs. unfold select_conversation in Hsel. apply fmap_Some in Hsel as (r0 & Hvis & [= <- _]).
  apply hydrate_fields in Hh as Hf. destruct Hf as (Hid & _ & _ & _ & _ & _ & _ & Hver & _). split.
  - apply eff_bind_run in Hs as [(e & He & ->)|(row & w1 & He & Hs)];
      (eapply adapter_runs in He as [_ He]; [|apply (runs_execute (update_conversation ctx c))|done]);
      destruct He as [[Hn Hd]|(a & now & Hu & Hres)].
    + by left.
    + apply update_conversation_Ok in Hu as [[_ ?]|(r' & Hr' & _ & _ & _ & Hd')]; [by left|right].
      apply visible_Some in Hvis as [Hr _]. rewrite Hid in Hr', Hd'. assert (r' = r) as -> by congruence.
      exists (saved_row c now r). split; [by eapply saved_rewritten|done].
    + by left.
    + destruct Hres as [[= ->]|?]; [|done].
      apply update_conversation_Ok in Hu as [[-> Hd']|(r' & Hr' & _ & _ & -> & Hd')]; injection Hs as <- <-; [by left|right].
      apply visible_Some in Hvis as [Hr _]. rewrite Hid in Hr', Hd'. assert (r' = r) as -> by congruence.
      exists (saved_row c now r). split; [by eapply saved_rewritten|done].
  - intros Hq Hv. destruct (quiet_adapter translate_unique ctx (update_conversation ctx c) w Hq Ha) as (now & w1 & _ & He & _).
    unfold update_conversation in He. rewrite Hid, Hvis, Hver, Z.eqb_refl, Hv in He.
    unfold save, mbind, eff_bind, repo, stmt_now in Hs. unfold update_conversation in Hs. rewrite Hid, Hver in Hs.
    rewrite He in Hs. by injection Hs as <- _.
Qed.

Lemma deleted_again ctx id w r n c res w' :
  active w = None → select_conversation ctx id (db w) = Some (r, n) → hydrate_conversation id r n = Ok c →
  is_deleted c = true → discard (SoftDeleteConversation ctx id) w = (res, w') →
  ((is_ok res = false ∧ db w' = db w) ∨
   ∃ r', rewritten r r' ∧ db w' = with_conversations (<[id := r']> (conversations (db w))) (db w)) ∧
  (quiet → int4 (cr_version r + 1) = true → res = Ok tt).
Proof.
  intros Ha Hsel Hh Hdel (x & Hx & Hres)%discard_run. apply (thread_run ctx id _ w r n c) in Hx; [|done..].
  destruct Hx as [(Hx & Hd & Hq)|(w1 & Hf & Hd & Hx)].
  { split; [left; by destruct x, res|]. intros Hquiet. by destruct (Hq Hquiet). }
  cbn zeta in Hx. apply eff_bind_run in Hx as [(e & He & _)|(now & w2 & Hw2 & Hx)]; [done|]. injection Hw2 as <- <-.
  set (w2 := mk_DbWorld _ _ _ _ _ _ _) in Hx. assert (active w2 = None) as Ha2 by (cbn; destruct Hf; congruence).
  assert (db w2 = db w) as Hd2 by done. rewrite <- Hd2 in Hsel |- *.
  unfold soft_delete in Hx. rewrite Hdel in Hx.
  apply eff_bind_run in Hx as [(e & He & ->)|(c' & w3 & Hc & Hx)].
  - destruct (save_again ctx id w2 r n c _ _ Ha2 Hsel Hh He) as [Hs Hq]. destruct res; [done|]. split; [done|].
    intros Hquiet Hv. by specialize (Hq Hquiet Hv).
  - destruct (save_again ctx id w2 r n c _ _ Ha2 Hsel Hh Hc) as [Hs Hq]. injection Hx as <- <-.
    destruct res as [[]|]; [|done]. split; [|done]. destruct Hs as [[? _]|?]; [done|by right].
Qed.
(** Listing the pins of a thread that is there. *)
Lemma pins_listed ctx id w r n c res w' :
  active w = None → select_conversation ctx id (db w) = Some (r, n) → hydrate_conversation id r n = Ok c →
  discard (ListConversationFiles ctx id) w = (res, w') → db w' = db w ∧ (quiet → res = Ok tt).
Proof.
  intros Ha Hsel Hh (x & Hx & Hres)%discard_run. apply (thread_run ctx id _ w r n c) in Hx; [|done..].
  destruct Hx as [(_ & Hd & Hq)|(w1 & Hf & Hd & Hx)]; [split; [done|]; intros Hquiet; by destruct (Hq Hquiet)|].
  assert (active w1 = None) as Ha1 by (destruct Hf; congruence). split.
  - apply eff_bind_run in Hx as [(e & He & ->)|(pins & w2 & He & Hx)]; apply adapter_reads in He as (_ & Hd2 & _); try done;
      [congruence|]. injection Hx as _ <-. congruence.
  - intros Hq. destruct (quiet_reads translate_unique ctx (select_pins ctx id) w1 Hq Ha1) as (w2 & _ & He & _).
    unfold list_files, mbind, eff_bind, repo, rows in Hx. rewrite He in Hx. injection Hx as <- _. by destruct res as [[]|].
Qed.

(** A purge of a space takes the threads of the space and leaves the rows of all others. *)
Lemma purged ctx space_id id w r n res w' :
  active w = None → select_conversation ctx id (db w) = Some (r, n) → discard (PurgeSpaceConversations ctx space_id) w = (res, w') →
  conversations (db w') !! id = Some r ∨ (cr_space_id r = Some space_id ∧ conversations (db w') !! id = None).
Proof.
  intros Ha Hsel (x & Hx & _)%discard_run. unfold select_conversation in Hsel.
  apply fmap_Some in Hsel as (r0 & [Hr _]%visible_Some & [= <- _]).
  assert (∃ y, repo ctx (purge_statements ctx space_id) w = (y, w')) as [y Hy].
  { apply eff_bind_run in Hx as [(e & He & _)|(ids & w1 & Hids & [= _ <-])]; by eexists. }
  eapply adapter_runs in Hy as [_ Hy]; [|apply runs_purge|done].
  destruct Hy as [[_ Hd]|(ids & now & Hp & _)]; [left; by rewrite Hd|]. apply purge_Ok in Hp as (Hc & _ & _).
  rewrite Hc. unfold in_space. rewrite Hr. unfold thread_of_space. destruct (_ && _) eqn:Hin; [right|by left].
  by apply andb_true_iff in Hin as [_ ?%bool_decide_eq_true].
Qed.

(** C24: what each request makes of a deleted thread.  A request to append to it, rename it, pin
    a model, leave a question, delete one of its messages or pin or unpin a file fails and
    leaves the database as it was; as long as the database answers, a well-formed one is refused
    with a conflict.  Reading it or its transcript answers that it is not there; its pins are
    still listed.  Deleting it once more is not refused: it either fails with nothing written or
    writes a new version of the row that keeps when it was deleted, its title and everything
    else, and where the database answers it succeeds.  A purge of its own space takes it away,
    any other leaves its row. *)
Theorem deleted_threads_refuse ctx id c call w r n res w' :
  active w = None → select_conversation ctx id (db w) = Some (r, n) → hydrate_conversation id r n = Ok c →
  is_deleted c = true → run_call ctx call w = (res, w') →
  (changes id call →
     is_ok res = false ∧ db w' = db w ∧ (quiet → well_formed call = true → res = Err conflict_exn)) ∧
  (call = Get id ∨ (∃ limit cursor, call = Messages id limit cursor) →
     is_ok res = false ∧ db w' = db w ∧ (quiet → res = Err not_found_exn)) ∧
  (call = ListFiles id → db w' = db w ∧ (quiet → res = Ok tt)) ∧
  (call = Delete id →
     ((is_ok res = false ∧ db w' = db w) ∨
      ∃ r', rewritten r r' ∧ db w' = with_conversations (<[id := r']> (conversations (db w))) (db w)) ∧
     (quiet → int4 (cr_version r + 1) = true → res = Ok tt)) ∧
  (∀ space_id, call = PurgeSpace space_id →
     conversations (db w') !! id = Some r ∨ (cr_space_id r = Some space_id ∧ conversations (db w') !! id = None)).
Proof.
  intros Ha Hsel Hh Hdel Hrun.
  assert (∀ P (A : Type) e (k : Conversation → io A) x, refuses P e (k c) (db w) →
            discard (c ← get ctx id; c ← found c; k c) w = (x, w') →
            is_ok x = false ∧ db w' = db w ∧ (quiet → P → x = Err e)) as Hthread
    by (intros; by eapply refuses_thread).
  split_and!.
  - intros Hc. destruct call as [| | | | | |id' title|id' [route|]|id' options| |id' mid| |id' fid|id' fid|];
      cbn in Hc; try done; cbn [run_call well_formed] in *; rewrite Hc in Hrun; clear Hc.
    + unfold AppendMessage in Hrun.
      destruct (parse_role role) as [role'|]; [|by injection Hrun as <- <-].
      unfold invalid in Hrun. destruct (new_MessageContent t attachments) as [content|e]; [|by injection Hrun as <- <-].
      eapply Hthread; [|exact Hrun].
      apply refuses_now. intros now. apply refuses_mint. intros mid. apply refuses_deleted.
      unfold append_message. by rewrite Hdel.
    + eapply Hthread; [|exact Hrun]. apply refuses_now. intros u. by apply refuses_deleted, (refused_deleted c (Rename title)).
    + apply (Hthread False _ conflict_exn) in Hrun as (? & ? & _); [by split_and!|].
      apply refuses_routable. intros []. apply refuses_now. intros u.
      by apply refuses_deleted, (refused_deleted c (PinModel (Some route))).
    + eapply Hthread; [|exact Hrun]. cbn. apply refuses_now. intros u.
      by apply refuses_deleted, (refused_deleted c (PinModel None)).
    + eapply Hthread; [|exact Hrun]. apply refuses_now. intros u. by apply refuses_deleted, (refused_deleted c (Expect options)).
    + destruct (refuses_live _ _ _ _ _ _ _ _ _ Ha Hsel Hh Hdel Hrun) as (? & ? & ?). auto.
    + destruct (refuses_live _ _ _ _ _ _ _ _ _ Ha Hsel Hh Hdel Hrun) as (? & ? & ?). auto.
    + destruct (refuses_live _ _ _ _ _ _ _ _ _ Ha Hsel Hh Hdel Hrun) as (? & ? & ?). auto.
  - assert (∀ (A : Type) (k : Conversation → io A) x, discard (c ← get ctx id; c ← found c;
              if is_deleted c then eff_raise not_found_exn else k c) w = (x, w') →
              is_ok x = false ∧ db w' = db w ∧ (quiet → x = Err not_found_exn)) as Habsent.
    { intros A k x Hx. apply (Hthread True _ not_found_exn) in Hx as (? & ? & ?); [by split_and!; auto|].
      rewrite Hdel. apply refuses_raise. }
    intros [-> |(limit & cursor & ->)].
    + exact (Habsent _ (λ c, eff_ret _ c) _ Hrun).
    + exact (Habsent _ (λ _, list_messages ctx id limit cursor) _ Hrun).
  - intros ->. by eapply pins_listed.
  - intros ->. by eapply deleted_again.
  - intros space_id ->. by eapply purged.
Qed.
End App.
