(* ===== verification/ConversationsData.v ===== *)
(** * ConversationsData: what single requests do to the three tables

    A purge, a pin, reading back what was written, and a transcript read page by page. *)

From S2P Require Import Prelude Text Calendar Errors Framework Transactions Files Keyset Events Wire Cursor Sessions Conversations ConversationsRace ConversationsApp.

Open Scope Z_scope.

Section Data.
Context {V : Type} `{ConversationPorts V, Env, !EnvLaws _, DB : Database, U : Unicode, Decimals}.
Abbreviation W := (DbWorld ConversationsDb V).
Abbreviation io A := (eff W exn A).
Implicit Types (w : W) (ctx : ExecutionContext) (d : ConversationsDb).

(** ** Purging a space *)

Lemma unreferenced ctx space_id d a d' id :
  purge_transaction ctx space_id d = Ok (a, d') → in_space ctx space_id id d = true →
  (∀ k m, messages d' !! k = Some m → ms_conversation_id m ≠ id) ∧
  (∀ k p, conversation_files d' !! k = Some p → k.1 ≠ id).
Proof.
  unfold purge_transaction, drop_threads. destruct (existsb _ _) eqn:He; [done|]. intros [_ <-]%Ok_pair_inj Hin.
  assert (referenced id (drop_pins ctx space_id (drop_messages ctx space_id d)) = false) as Href.
  { apply not_true_iff_false. intros Href. apply not_true_iff_false in He. apply He, existsb_exists.
    unfold in_space in Hin. destruct (conversations d !! id) as [r|] eqn:Hr; [|done]. exists (id, r). split; [|done].
    apply list_elem_of_In, elem_of_list_filter_bool. split; [by apply elem_of_map_to_list|done]. }
  apply orb_false_iff in Href as [Hm Hp]. cbn in Hm, Hp |- *. split.
  - intros k m Hk He'. apply not_true_iff_false in Hm. apply Hm, existsb_exists. exists m.
    split; [|by apply bool_decide_eq_true]. apply list_elem_of_In, list_elem_of_fmap. exists (k, m).
    split; [done|]. by apply elem_of_map_to_list.
  - intros k p Hk He'. apply not_true_iff_false in Hp. apply Hp, existsb_exists. exists k.
    split; [|by apply bool_decide_eq_true]. apply list_elem_of_In, list_elem_of_fmap. exists (k, p).
    split; [done|]. by apply elem_of_map_to_list.
Qed.

(** A purge leaves nothing of its space and touches nothing else.  Either it fails and the
    database is as it was, or no thread of the space is left, nor any message or pin of one of
    them, while every other thread keeps its row, its messages and its pins; and when it
    answers, it answers how many threads there were. *)
Theorem purge_leaves_nothing ctx space_id w r w' :
  active w = None → PurgeSpaceConversations ctx space_id w = (r, w') →
  (is_ok r = false ∧ db w' = db w) ∨
  ((∀ id, in_space ctx space_id id (db w) = true →
      conversations (db w') !! id = None ∧
      (∀ k m, messages (db w') !! k = Some m → ms_conversation_id m ≠ id) ∧
      (∀ k p, conversation_files (db w') !! k = Some p → k.1 ≠ id)) ∧
   (∀ id, in_space ctx space_id id (db w) = false →
      conversations (db w') !! id = conversations (db w) !! id ∧
      (∀ k m, ms_conversation_id m = id → messages (db w') !! k = Some m ↔ messages (db w) !! k = Some m) ∧
      (∀ f, conversation_files (db w') !! (id, f) = conversation_files (db w) !! (id, f))) ∧
   (∀ n, r = Ok n →
      n = Z.of_nat (length (List.filter (λ kr, thread_of_space ctx space_id kr.2) (map_to_list (conversations (db w))))))).
Proof.
  intros Ha Hr.
  assert (∃ x, repo ctx (purge_statements ctx space_id) w = (x, w') ∧ (is_ok x = false → is_ok r = false) ∧
            ∀ n, r = Ok n → ∃ ids, x = Ok ids ∧ n = Z.of_nat (length ids)) as (x & Hx & Hbad & Hn).
  { apply eff_bind_run in Hr as [(e & He & ->)|(ids & w1 & Hids & [= <- <-])]; [by exists (Err e)|].
    exists (Ok ids). split_and!; [done|done|]. intros n [= <-]. by exists ids. }
  eapply adapter_runs in Hx as [_ Hx]; [|apply runs_purge|done].
  destruct Hx as [[Hx Hd]|(ids & now & Hp & Hx)]; [left; auto|]. right.
  pose proof (purge_Ok _ _ _ _ _ Hp) as (Hconv & Hmsg & Hpin & Hids). split_and!.
  - intros id Hin. destruct (unreferenced _ _ _ _ _ id Hp Hin) as [? ?]. rewrite Hconv, Hin. done.
  - intros id Hin. split_and!.
    + by rewrite Hconv, Hin.
    + intros k m Hm. rewrite Hmsg. destruct (messages (db w) !! k) as [m'|]; [|done]. split; [by case_match|].
      intros [= ->]. by rewrite Hm, Hin, andb_false_r.
    + intros f. rewrite Hpin. destruct (conversation_files (db w) !! (id, f)); [|done]. cbn. by rewrite Hin, andb_false_r.
  - intros n Hr'. destruct (Hn n Hr') as (ids' & -> & ->). destruct Hx as [[= ->]|?]; [|done].
    by rewrite Hids, length_fmap.
Qed.

(** ** Pins *)

Lemma get_thread_Ok ctx id w o w' : active w = None → get ctx id w = (Ok o, w') →
  frame w w' ∧ db w' = db w ∧
  match o with
  | Some c => ∃ r n, select_conversation ctx id (db w) = Some (r, n) ∧ hydrate_conversation id r n = Ok c
  | None => select_conversation ctx id (db w) = None
  end.
Proof.
  intros Ha (row & w1 & Hrow & Hr)%eff_bind_Ok. apply adapter_reads in Hrow as (Hf & Hd & [[= ->]|?]); [|done..].
  destruct (select_conversation ctx id (db w)) as [[r n]|].
  - apply eff_bind_Ok in Hr as (c & w2 & [Hc ->]%eff_lift_Ok & [= <- <-]). split_and!; [done..|]. by exists r, n.
  - by injection Hr as <- <-.
Qed.

Lemma live_thread_Ok ctx id w c w' : active w = None → live_thread ctx id w = (Ok c, w') →
  frame w w' ∧ db w' = db w ∧ is_deleted c = false ∧
  ∃ r n, select_conversation ctx id (db w) = Some (r, n) ∧ hydrate_conversation id r n = Ok c.
Proof.
  intros Ha (o & w1 & Ho & Hr)%eff_bind_Ok. destruct (get_thread_Ok _ _ _ _ _ Ha Ho) as (Hf & Hd & Hsel).
  destruct o as [c'|]; [|done]. unfold found, mbind, eff_bind in Hr. cbn in Hr.
  destruct (is_deleted c') eqn:Hdel; [done|]. injection Hr as <- <-. done.
Qed.

Lemma select_pins_elem ctx id d k r :
  (k, r) ∈ select_pins ctx id d ↔ conversation_files d !! k = Some r ∧ k.1 = id ∧ mine ctx (pr_workspace_id r) = true.
Proof.
  unfold select_pins. rewrite sort_by_Permutation, elem_of_list_filter_bool, elem_of_map_to_list. cbn.
  rewrite andb_true_iff, bool_decide_eq_true. tauto.
Qed.

Lemma select_pins_insert ctx id file_id r d :
  conversation_files d !! (id, file_id) = None → mine ctx (pr_workspace_id r) = true →
  length (select_pins ctx id (with_pins (<[(id, file_id) := r]> (conversation_files d)) d)) =
  S (length (select_pins ctx id d)).
Proof.
  intros Hnew Hm. unfold select_pins. rewrite !sort_by_Permutation. cbn [conversation_files with_pins].
  rewrite map_to_list_insert by done. cbn. by rewrite bool_decide_true, Hm.
Qed.

(** How far a pin request that answers has come. *)
Lemma pin_request_Ok ctx id file_id w p w' :
  active w = None → PinConversationFile ctx id file_id w = (Ok p, w') →
  ∃ r c v v' t o row, visible ctx id (db w) = Some r ∧
    hydrate_conversation id r (message_count id (cr_workspace_id r) (db w)) = Ok c ∧
    is_deleted c = false ∧ get_readable ctx file_id v = (Ok (Some (cr_space_id r)), v') ∧
    insert_pin ctx id file_id t (db w) = Ok (o, db w') ∧
    match o with Some x => Some x | None => select_pin ctx id file_id (db w') end = Some row ∧
    p = hydrate_pinned_file (id, file_id) row ∧
    (is_Some (conversation_files (db w) !! (id, file_id)) ∨
     Z.of_nat (length (select_pins ctx id (db w))) < MAX_PINNED_FILES).
Proof.
  intros Ha (c & w1 & Hc & Hr)%eff_bind_Ok.
  destruct (live_thread_Ok _ _ _ _ _ Ha Hc) as (Hf1 & Hd1 & Hlive & r & n & Hsel & Hh).
  apply eff_bind_Ok in Hr as (u1 & w2 & [_ ->]%eff_lift_Ok & Hr).
  apply eff_bind_Ok in Hr as (pinned & w2 & (pins & w3 & Hpins & [= <- <-])%eff_bind_Ok & Hr).
  assert (active w1 = None) as Ha1 by (destruct Hf1 as (? & _); congruence).
  apply adapter_reads in Hpins as (Hf3 & Hd3 & [[= ->]|?]); [|done..].
  apply eff_bind_Ok in Hr as (u2 & w4 & [Hmax ->]%eff_lift_Ok & Hr). apply raise_if_Ok in Hmax.
  apply eff_bind_Ok in Hr as (readable & w4 & Hout & Hr). unfold outside in Hout.
  destruct (get_readable ctx file_id (ext w3)) as [ro v] eqn:Hget. injection Hout as -> <-.
  apply eff_bind_Ok in Hr as (sp & w4 & [Hsp ->]%eff_lift_Ok & Hr).
  destruct readable as [sp'|]; [|done]. injection Hsp as ->.
  apply eff_bind_Ok in Hr as (u3 & w4 & [Hspace ->]%eff_lift_Ok & Hr).
  apply raise_if_Ok, negb_false_iff, bool_decide_eq_true in Hspace as ->.
  apply eff_bind_Ok in Hr as (t & w4 & [= <- <-] & Hr).
  apply eff_bind_Ok in Hr as (row & w5 & Hrow & Hr).
  eapply adapter_runs in Hrow as [_ Hrow]; [|apply runs_pin|destruct Hf3 as (Ha3 & _); cbn; congruence].
  destruct Hrow as [[? _]|(a & now & (o & Hins & ->) & [[= ->]|?])]; [done| |done]. cbn in Hins.
  rewrite Hd3, Hd1 in Hins. unfold select_conversation in Hsel. apply fmap_Some in Hsel as (r' & Hvis & [= <- ->]).
  apply hydrate_fields in Hh as Hfields. destruct Hfields as (_ & _ & Hcs & _). rewrite Hcs in Hget.
  destruct (match o with Some x => _ | None => _ end) as [row|] eqn:Hrow; [|done]. injection Hr as <- <-.
  exists r, c, (ext w3), v, (clock (ticks w3)), o, row. split_and!; try done.
  rewrite length_fmap, Hd1 in Hmax. apply andb_false_iff in Hmax as [Hmax|Hmax]; [left|right; by apply Z.leb_gt].
  apply negb_false_iff, existsb_exists in Hmax as (q & Hq & Heq%bool_decide_eq_true).
  apply list_elem_of_In, list_elem_of_fmap in Hq as ([[k1 k2] pr] & -> & Hin).
  apply select_pins_elem in Hin as (Hin & Hk & _). cbn in *. subst. by exists pr.
Qed.

(** A thread pins files of its own space only, at most fifty, each once.  When a pin
    request answers, the thread was there and not deleted, the file module vouched for the
    file and named the thread's own space, and the file is pinned: as it was, with its first
    date, if it already was -- and then nothing was written --, otherwise by one row more; a
    thread with at most fifty pins still has at most fifty. *)
Theorem pins_stay_in_their_space ctx id file_id w p w' :
  active w = None → PinConversationFile ctx id file_id w = (Ok p, w') →
  ∃ r n c v v', select_conversation ctx id (db w) = Some (r, n) ∧ hydrate_conversation id r n = Ok c ∧
    is_deleted c = false ∧ get_readable ctx file_id v = (Ok (Some (cr_space_id r)), v') ∧
    (∃ pr, conversation_files (db w') !! (id, file_id) = Some pr ∧ p = hydrate_pinned_file (id, file_id) pr ∧
       (conversation_files (db w) !! (id, file_id) = Some pr ∧ db w' = db w ∨
        conversation_files (db w) !! (id, file_id) = None ∧ pr_workspace_id pr = workspace_id ctx ∧
        db w' = with_pins (<[(id, file_id) := pr]> (conversation_files (db w))) (db w))) ∧
    (Z.of_nat (length (select_pins ctx id (db w))) ≤ MAX_PINNED_FILES →
     Z.of_nat (length (select_pins ctx id (db w'))) ≤ MAX_PINNED_FILES).
Proof.
  intros Ha Hp. destruct (pin_request_Ok _ _ _ _ _ _ Ha Hp)
    as (r & c & v & v' & t & o & row & Hvis & Hh & Hlive & Hget & Hins & Hrow & -> & Hmax).
  exists r, (message_count id (cr_workspace_id r) (db w)), c, v, v'. unfold select_conversation. rewrite Hvis.
  split_and!; try done; unfold insert_pin in Hins; rewrite Hvis in Hins; unfold select_pin in Hrow;
    destruct (conversation_files (db w) !! (id, file_id)) as [pr|] eqn:Hold;
    [rewrite bool_decide_true in Hins by done|rewrite bool_decide_false in Hins by (by intros [])|
     rewrite bool_decide_true in Hins by done|rewrite bool_decide_false in Hins by (by intros [])];
    injection Hins as <- Hd'; rewrite <- Hd'.
  - rewrite <- Hd', Hold in Hrow. rewrite Hold. destruct (mine _ _); [|done]. injection Hrow as <-. exists pr. auto.
  - injection Hrow as <-. cbn. eexists. rewrite lookup_insert_eq. split_and!; [done|done|]. by right.
  - done.
  - intros _. rewrite select_pins_insert; [|done|by apply bool_decide_eq_true].
    destruct Hmax as [[]|Hmax]; [done|]. lia.
Qed.

(** ** Reading back *)

(** The aggregate a request answers is the one the next reading gives. *)
Definition reads_back ctx (c : Conversation) d : Prop :=
  ∃ r, visible ctx (cv_id c) d = Some r ∧ hydrate_conversation (cv_id c) r (cv_message_count c) = Ok c.

Lemma parse_kind_value k : parse_kind (kind_value k) = Some k.
Proof. by destruct k. Qed.
Lemma parse_role_value r : parse_role (role_value r) = Some r.
Proof. by destruct r. Qed.

Lemma agent_key_id `{!UnicodeLaws U} v k : new_AgentKey v = Ok k → new_AgentKey k = Ok k.
Proof.
  unfold new_AgentKey. destruct (bool_decide _) eqn:Hne; [done|]. destruct (_ <? _) eqn:Hlen; [done|].
  destruct (at_dollar _ _) eqn:E; [|done]. cbn [negb]. intros [= <-].
  destruct (normalized_id agent_key_re v) as [_ Hl]; [|done|].
  - intros [|c t]; [done|]. cbn [agent_key_re forallb]. unfold slug_head, slug_char, slug_head, is_lower, is_digit.
    intros [Hc Ht]%andb_true_iff. apply andb_true_iff. rewrite forallb_forall in Ht |- *.
    split; [|intros x Hx; specialize (Ht x Hx)]; apply plain_range; unbool; lia.
  - by rewrite Hl, Hne, Hlen, E.
Qed.

Lemma message_content_id t attachments c :
  new_MessageContent t attachments = Ok c → new_MessageContent (mc_text c) (mc_attachments c) = Ok c.
Proof.
  unfold new_MessageContent. destruct (existsb _ _) eqn:He; [done|]. destruct (_ && _) eqn:Hb; [done|].
  intros [= <-]. cbn [mc_text mc_attachments]. by rewrite He, strip_idemp, Hb.
Qed.

Lemma message_reads_back m :
  new_MessageContent (mc_text (mg_content m)) (mc_attachments (mg_content m)) = Ok (mg_content m) →
  hydrate_message (mg_id m) (message_row m) = Ok m.
Proof.
  intros Hc. unfold hydrate_message, message_row.
  cbn [ms_role ms_content fst snd]. rewrite parse_role_value. cbn [mbind result_bind]. rewrite Hc. by destruct m.
Qed.

(** What a save leaves reads back as the aggregate it answers. *)
Lemma saved_reads_back c0 m t c c' now r n :
  hydrate_conversation (cv_id c0) r n = Ok c → mutate m t c = Ok c' → cv_id c0 = cv_id c →
  hydrate_conversation (cv_id c') (saved_row c' now r) n = Ok (with_version (cr_version r + 1) now c').
Proof.
  intros Hh Hm Hid. assert (cv_id c' = cv_id c ∧ cv_agent_key c' = cv_agent_key c ∧ cv_kind c' = cv_kind c ∧
    cv_workspace_id c' = cv_workspace_id c ∧ cv_space_id c' = cv_space_id c ∧ cv_created_by c' = cv_created_by c ∧
    cv_created_at c' = cv_created_at c ∧ cv_message_count c' = cv_message_count c) as Hsame.
  { destruct m; cbn in Hm; unfold rename, pin_model_route, expect_clarification in Hm; [by unresult..|].
    injection Hm as <-. unfold soft_delete. by destruct (is_deleted c). }
  destruct Hsame as (Hi & Hk & Hkd & Hw & Hs & Hb & Ha & Hn). unfold hydrate_conversation in *.
  change (cr_agent_key (saved_row c' now r)) with (cr_agent_key r). change (cr_kind (saved_row c' now r)) with (cr_kind r).
  destruct (new_AgentKey (cr_agent_key r)) as [k|]; [|done]. cbn [map_err mbind result_bind] in Hh |- *.
  destruct (parse_kind (cr_kind r)) as [kd|]; [|done]. cbn [mbind result_bind] in Hh |- *. injection Hh as <-.
  cbn [cr_pending_clarification saved_row]. rewrite pending_json. unfold with_version.
  by rewrite Hk, Hkd, Hw, Hs, Hb, Ha, Hn.
Qed.

Lemma save_reads_back ctx id r n c m t c' w a w' :
  active w = None → select_conversation ctx id (db w) = Some (r, n) → hydrate_conversation id r n = Ok c →
  mutate m t c = Ok c' → save ctx c' w = (Ok a, w') → reads_back ctx a (db w').
Proof.
  intros Ha Hsel Hh Hm (row & w1 & Hrow & Hr)%eff_bind_Ok.
  eapply adapter_runs in Hrow as [_ Hrow]; [|apply (runs_execute (update_conversation ctx c'))|done].
  destruct Hrow as [[? _]|(x & now & Hu & [[= ->]|?])]; [done| |done]. cbn in Hu.
  apply update_conversation_Ok in Hu as [[-> _]|(r' & Hr' & Hw & Hv & -> & Hd')]; [done|]. injection Hr as <- <-.
  destruct (mutate_fields _ _ _ _ Hm) as (Hid & _ & _ & _). apply hydrate_fields in Hh as Hfields.
  destruct Hfields as (Hid0 & _ & _ & _ & _ & _ & _ & _ & Hn).
  unfold select_conversation in Hsel. apply fmap_Some in Hsel as (r0 & [Hr0 _]%visible_Some & [= <- _]).
  assert (r' = r) as -> by congruence. exists (saved_row c' now r). cbn [with_version cv_id cv_message_count]. split.
  - apply visible_Some. rewrite Hd'. cbn. rewrite lookup_insert_eq. done.
  - assert (cv_message_count c' = n) as ->.
    { destruct m; cbn in Hm; unfold rename, pin_model_route, expect_clarification in Hm; [by unresult..|].
      injection Hm as <-. unfold soft_delete. by destruct (is_deleted c). }
    eapply (saved_reads_back c); [by rewrite Hid0|done|done].
Qed.

Lemma add_reads_back `{!UnicodeLaws U} ctx v c w u w' :
  active w = None → new_AgentKey v = Ok (cv_agent_key c) → add ctx c w = (Ok u, w') → reads_back ctx c (db w').
Proof.
  intros Ha Hkey Hadd.
  eapply adapter_runs in Hadd as [_ Hadd]; [|apply (runs_execute (λ _, insert_conversation ctx c))|done].
  destruct Hadd as [[? _]|(x & now & Hi & _)]; [done|]. unfold insert_conversation in Hi.
  destruct (mine ctx (cv_workspace_id c)) eqn:Hm; [|done]. destruct (int4 _); [|done].
  destruct (bool_decide (is_Some _)); [done|]. apply Ok_pair_inj in Hi as [_ <-]. exists (conversation_row c). split.
  - apply visible_Some. cbn. rewrite lookup_insert_eq. split; [done|by apply bool_decide_eq_true in Hm].
  - unfold hydrate_conversation, conversation_row. cbn [cr_agent_key cr_kind cr_pending_clarification].
    rewrite (agent_key_id _ _ Hkey), parse_kind_value, pending_json. cbn. by destruct c.
Qed.

Lemma thread_Ok {B} ctx id (k : Conversation → io B) w b w' :
  active w = None → (c ← get ctx id; c ← found c; k c) w = (Ok b, w') →
  ∃ c r n w1, active w1 = None ∧ db w1 = db w ∧ select_conversation ctx id (db w) = Some (r, n) ∧
    hydrate_conversation id r n = Ok c ∧ k c w1 = (Ok b, w').
Proof.
  intros Ha (o & w1 & Ho & Hr)%eff_bind_Ok. destruct (get_thread_Ok _ _ _ _ _ Ha Ho) as ((Ha1 & _) & Hd & Hsel).
  destruct o as [c|]; [|done]. destruct Hsel as (r & n & Hsel & Hh). exists c, r, n, w1. split_and!; [congruence|done..].
Qed.

Lemma outside_Ok {A} (m : eff V exn A) w a w' : outside m w = (Ok a, w') → active w' = active w ∧ db w' = db w.
Proof. unfold outside. destruct (m (ext w)) as [r v]. by intros [= -> <-]. Qed.

(** The end of every mutating use case. *)
Lemma saved_Ok {B} ctx id r n c m w t (g : Conversation → B) b w' :
  active w = None → select_conversation ctx id (db w) = Some (r, n) → hydrate_conversation id r n = Ok c →
  (c ← refused (mutate m t c); c ← save ctx c; eff_ret _ (g c)) w = (Ok b, w') →
  ∃ a, b = g a ∧ reads_back ctx a (db w').
Proof.
  intros Ha Hsel Hh (c' & w1 & [Hm ->]%eff_lift_Ok & Hr)%eff_bind_Ok. apply map_err_Ok in Hm.
  apply eff_bind_Ok in Hr as (a & w1 & Hs & [= <- <-]). exists a. split; [done|]. by eapply save_reads_back.
Qed.

(** What a request answers is what the next reading gives.  A thread that was started,
    renamed, given a model or a question, or deleted, reads back from the tables as the very
    thread the request answered, its new version and time included; and an appended message
    reads back as the message answered. *)
Theorem answers_are_read_back `{!UnicodeLaws U} ctx id w w' :
  active w = None →
  (∀ space_id key kind title c events,
     StartConversation ctx space_id key kind title w = (Ok (c, events), w') → reads_back ctx c (db w')) ∧
  (∀ title c events, RenameConversation ctx id title w = (Ok (c, events), w') → reads_back ctx c (db w')) ∧
  (∀ route c events, PinConversationModel ctx id route w = (Ok (c, events), w') → reads_back ctx c (db w')) ∧
  (∀ options c, ExpectClarification ctx id options w = (Ok c, w') → reads_back ctx c (db w')) ∧
  (∀ c events, SoftDeleteConversation ctx id w = (Ok (c, events), w') → reads_back ctx c (db w')) ∧
  (∀ role t attachments tokens m events,
     AppendMessage ctx id role t attachments tokens w = (Ok (m, events), w') →
     ∃ r, select_message ctx id (mg_id m) (db w') = Some r ∧ hydrate_message (mg_id m) r = Ok m).
Proof.
  intros Ha. split_and!.
  - intros space_id key kind title c events (k & w1 & [Hk ->]%eff_lift_Ok & Hr)%eff_bind_Ok. apply map_err_Ok in Hk.
    apply eff_bind_Ok in Hr as (u & w1 & Hsp & Hr).
    assert (active w1 = None) as Ha1.
    { destruct space_id as [sp|]; [|by injection Hsp as _ <-]. apply eff_bind_Ok in Hsp as (ok & w2 & [Ha2 _]%outside_Ok & Hok).
      apply eff_lift_Ok in Hok as [_ ->]. congruence. }
    apply eff_bind_Ok in Hr as (t & w2 & [= <- <-] & Hr). apply eff_bind_Ok in Hr as (i & w2 & [= <- <-] & Hr).
    apply eff_bind_Ok in Hr as (u' & w2 & Hadd & [= <- _ <-]).
    eapply (add_reads_back ctx key); [|exact Hk|exact Hadd]. exact Ha1.
  - intros title c events (c0 & r & n & w1 & Ha1 & Hd & Hsel & Hh & Hr)%thread_Ok; [|done].
    apply eff_bind_Ok in Hr as (t & w2 & [= <- <-] & Hr).
    eapply (saved_Ok ctx id r n c0 (Rename title)) in Hr as (a & [= -> _] & Hback); [done|done|cbn; by rewrite Hd|done].
  - intros route c events (c0 & r & n & w1 & Ha1 & Hd & Hsel & Hh & Hr)%thread_Ok; [|done].
    apply eff_bind_Ok in Hr as (u & w2 & Hroute & Hr).
    assert (active w2 = None ∧ db w2 = db w) as [Ha2 Hd2].
    { destruct route as [route|]; [|by injection Hroute as _ <-].
      apply eff_bind_Ok in Hroute as (u1 & w3 & [_ ->]%eff_lift_Ok & Hroute).
      apply eff_bind_Ok in Hroute as (known & w3 & [Ha3 Hd3]%outside_Ok & [_ ->]%eff_lift_Ok). split; congruence. }
    apply eff_bind_Ok in Hr as (t & w3 & [= <- <-] & Hr).
    eapply (saved_Ok ctx id r n c0 (PinModel route)) in Hr as (a & [= -> _] & Hback); [done|done|cbn; by rewrite Hd2|done].
  - intros options c (c0 & r & n & w1 & Ha1 & Hd & Hsel & Hh & Hr)%thread_Ok; [|done].
    apply eff_bind_Ok in Hr as (t & w2 & [= <- <-] & Hr). apply eff_bind_Ok in Hr as (c' & w2 & [Hm ->]%eff_lift_Ok & Hr).
    apply map_err_Ok in Hm. apply (λ Hact Hrow, save_reads_back ctx id r n c0 (Expect options) _ _ _ _ _ Hact Hrow Hh Hm Hr); [done|]. cbn. by rewrite Hd.
  - intros c events (c0 & r & n & w1 & Ha1 & Hd & Hsel & Hh & Hr)%thread_Ok; [|done].
    apply eff_bind_Ok in Hr as (t & w2 & [= <- <-] & Hr).
    eapply (saved_Ok ctx id r n c0 SoftDelete) in Hr as (a & [= -> _] & Hback); [done|done|cbn; by rewrite Hd|done].
  - intros role t attachments tokens m events (role' & w1 & [_ ->]%eff_lift_Ok & Hr)%eff_bind_Ok.
    apply eff_bind_Ok in Hr as (content & w1 & [Hc ->]%eff_lift_Ok & Hr). apply map_err_Ok in Hc.
    apply thread_Ok in Hr as (c0 & r & n & w1 & Ha1 & Hd & Hsel & Hh & Hr); [|done].
    apply eff_bind_Ok in Hr as (now & w2 & [= <- <-] & Hr). apply eff_bind_Ok in Hr as (mid & w2 & [= <- <-] & Hr).
    apply eff_bind_Ok in Hr as (m' & w2 & [Hm ->]%eff_lift_Ok & Hr). apply map_err_Ok in Hm.
    apply eff_bind_Ok in Hr as (u & w2 & Hs & [= -> _ <-]).
    apply eff_bind_Ok in Hs as (row & w3 & Hrow & Hs).
    eapply adapter_runs in Hrow as [_ Hrow]; [|apply runs_append|exact Ha1].
    destruct Hrow as [[? _]|(x & now' & Htx & [[= ->]|?])]; [done| |done].
    assert (w3 = w2) as -> by (destruct x; by injection Hs).
    unfold append_message in Hm. apply bind_Ok in Hm as (? & _ & [= <-]).
    assert (cv_workspace_id c0 = workspace_id ctx ∧ cv_id c0 = id) as [Hws Hid].
    { unfold append_transaction in Htx. apply bind_Ok in Htx as ([u' d1] & Hins & _).
      apply insert_message_Ok in Hins as (Hmine & _). apply hydrate_fields in Hh as (Hid & _). done. }
    apply append_transaction_Ok in Htx as (_ & Hmsgs & _).
    eexists. split; [|apply message_reads_back; by eapply message_content_id].
    unfold select_message. rewrite Hmsgs. cbn [mg_id]. rewrite lookup_insert_eq.
    unfold message_of. cbn. by rewrite Hws, Hid, !bool_decide_true.
Qed.

(** ** Transcripts *)

(** A client that follows every cursor. *)
Fixpoint transcript (fuel : nat) ctx (id : text) (limit : nat) (cursor : option text) : io (list Message) :=
  match fuel with
  | O => eff_ret _ []
  | S fuel =>
      p ← ListMessages ctx id limit cursor;
      more ← match next_cursor p with
             | Some c => transcript fuel ctx id limit (Some c)
             | None => eff_ret _ []
             end;
      eff_ret _ (page_data p ++ more)
  end.

Definition hydrated (kr : text * MessageRow) : result exn Message := hydrate_message kr.1 kr.2.

(** The cursor of a page that ended with the last of [before]. *)
Definition cursor_after (before : list (text * MessageRow)) (cursor : option text) : Prop :=
  match last before with
  | Some kr => ∃ c, encode_seq_cursor (ms_seq kr.2) = Ok c ∧ cursor = Some c
  | None => cursor = None
  end.

Lemma seq_cursor n : int4 n = true → ∃ c, encode_seq_cursor n = Ok c ∧ decode_seq_cursor None c = Ok n.
Proof.
  intros Hn. assert (- 2 ^ 31 ≤ n < 2 ^ 31) as Hr by (unfold int4, INT4_MAX in Hn; unbool; lia).
  destruct (int4_repr n Hr) as (_ & Hfit & Hascii). destruct (ascii_encodes _ Hascii) as [c Hc]. exists c. split; [done|].
  unfold decode_seq_cursor. rewrite (decode_encode_cursor _ _ Hc). cbn [mbind result_bind]. by rewrite (py_int_repr n Hfit).
Qed.

Section Transcript.
Context (Hquiet : quiet) (ctx : ExecutionContext) (id : text) (d : ConversationsDb) (limit : nat).
Context (r : ConversationRow) (n : Z) (c : Conversation).
Hypothesis Hsel : select_conversation ctx id d = Some (r, n).
Hypothesis Hh : hydrate_conversation id r n = Ok c.
Hypothesis Hlive : is_deleted c = false.
Hypothesis Hlimit : (0 < limit)%nat.
Abbreviation live := (live_messages ctx id d).
Hypothesis Hseqs : NoDup (ms_seq ∘ snd <$> live).
Hypothesis Hint4 : ∀ kr, kr ∈ live → int4 (ms_seq kr.2) = true.
Hypothesis Hmsgs : ∀ kr, kr ∈ live → ∃ m, hydrated kr = Ok m.

Lemma keys_distinct : NoDup (seq_key <$> live).
Proof.
  assert ((seq_key <$> live) = (λ s, [- s]) <$> (ms_seq ∘ snd <$> live)) as ->
    by (rewrite <- list_fmap_compose; by apply list_fmap_ext).
  assert (Inj (=) (=) (λ s : Z, [- s])) by (intros x y [= Heq]; by apply Z.opp_inj). by apply (NoDup_fmap_2 _).
Qed.

Lemma read_thread w : active w = None → db w = d →
  ∃ w', active w' = None ∧ db w' = d ∧ get ctx id w = (Ok (Some c), w').
Proof.
  intros Ha Hd. destruct (quiet_reads translate_unique ctx (select_conversation ctx id) w Hquiet Ha)
    as (w' & (Ha' & _) & Hr & Hd'). exists w'. split_and!; [congruence|congruence|].
  unfold get, repo, rows. unfold mbind, eff_bind. rewrite Hr, Hd, Hsel. unfold eff_lift. by rewrite Hh.
Qed.

Lemma cursor_decodes before cursor w :
  (∀ kr, kr ∈ before → kr ∈ live) → cursor_after before cursor →
  ∃ after, optional (V := V) (decode_seq_cursor None) cursor w = (Ok after, w) ∧
    match after with Some s => negb (int4 s) | None => false end = false ∧
    (λ s, [- s]) <$> after = seq_key <$> last before.
Proof.
  intros Hin. unfold cursor_after. destruct (last before) as [kr|] eqn:Hlast; [|intros ->; by exists None].
  intros (cur & Henc & ->). assert (int4 (ms_seq kr.2) = true) as Hi by (apply Hint4, Hin; by apply last_Some_elem_of).
  destruct (seq_cursor _ Hi) as (cur' & Henc' & Hdec). assert (cur' = cur) as -> by congruence.
  exists (Some (ms_seq kr.2)). unfold optional, eff_lift, mbind, eff_bind. rewrite Hdec, Hi. done.
Qed.

(** The rows of a page, then the page. *)
Lemma page_rows before rest after w :
  active w = None → db w = d → newest_first seq_key live = before ++ rest →
  match after with Some s => negb (int4 s) | None => false end = false →
  (λ s, [- s]) <$> after = seq_key <$> last before →
  ∃ w', active w' = None ∧ db w' = d ∧
    repo ctx (stmt (select_messages ctx id limit after)) w = (Ok (take (S limit) rest), w').
Proof.
  intros Ha Hd Hsplit Hi Hafter.
  destruct (quiet_adapter translate_unique ctx (λ _, select_messages ctx id limit after) w Hquiet Ha)
    as (now & w' & (Ha' & _) & Hr & Hd'). cbn beta in Hr, Hd'. rewrite Hd in Hr, Hd'.
  assert (select_messages ctx id limit after d = Ok (take (S limit) rest, d)) as Hsm.
  { unfold select_messages. by rewrite Hi, Hafter, (select_page_after _ _ _ _ _ keys_distinct Hsplit). }
  rewrite Hsm in Hr, Hd'. exists w'. split_and!; [congruence|done|exact Hr].
Qed.

Lemma page_of_rows before rest w :
  newest_first seq_key live = before ++ rest →
  ∃ data next, map_result hydrated (take limit rest) = Ok data ∧
    page_of (V := V) (take (S limit) rest) limit hydrated (λ kr, encode_seq_cursor (ms_seq kr.2)) w =
      (Ok (mk_Page data next), w) ∧
    if (limit <? length rest)%nat then cursor_after (before ++ take limit rest) next ∧ next ≠ None else next = None.
Proof.
  intros Hsplit.
  assert (∀ kr, kr ∈ rest → kr ∈ live) as Hrest.
  { intros kr Hin. rewrite <- (merge_sort_Permutation (newer_or_same seq_key) live).
    fold (newest_first seq_key live). rewrite Hsplit. apply elem_of_app. by right. }
  destruct (map_result_total hydrated (take limit rest)) as [data Hdata].
  { intros kr Hin. apply Hmsgs, Hrest. rewrite <- (take_drop limit rest). apply elem_of_app. by left. }
  exists data. unfold page_of. rewrite take_take, Nat.min_l, length_take by lia.
  replace (limit <? S limit `min` length rest)%nat with (limit <? length rest)%nat
    by (destruct (Nat.ltb_spec limit (length rest)), (Nat.ltb_spec limit (S limit `min` length rest)); lia).
  destruct (Nat.ltb_spec limit (length rest)) as [Hmore|Hmore].
  - destruct (last (take limit rest)) as [kr|] eqn:Hlast.
    2: { apply last_None in Hlast. apply (f_equal length) in Hlast. rewrite length_take in Hlast. cbn in Hlast. lia. }
    assert (int4 (ms_seq kr.2) = true) as Hi.
    { apply Hint4, Hrest. rewrite <- (take_drop limit rest). apply elem_of_app. left. by apply last_Some_elem_of. }
    destruct (seq_cursor _ Hi) as (cur & Henc & _). exists (Some cur). split; [done|].
    unfold mbind, eff_bind, eff_lift. cbn. rewrite Henc. cbn. rewrite Hdata. split; [done|]. split; [|done].
    unfold cursor_after. rewrite last_app, Hlast. by exists cur.
  - exists None. split; [done|]. destruct (last (take limit rest)); unfold mbind, eff_bind, eff_lift; by rewrite Hdata.
Qed.

Lemma transcript_suffix fuel before rest cursor w :
  active w = None → db w = d → newest_first seq_key live = before ++ rest → cursor_after before cursor →
  (length rest < fuel)%nat →
  ∃ ms w', transcript fuel ctx id limit cursor w = (Ok ms, w') ∧ db w' = d ∧ map_result hydrated rest = Ok ms.
Proof.
  revert before rest cursor w. induction fuel as [|fuel IH]; intros before rest cursor w Ha Hd Hsplit Hcur Hfuel; [lia|].
  destruct (read_thread w Ha Hd) as (w1 & Ha1 & Hd1 & Hget).
  destruct (cursor_decodes before cursor w1) as (after & Hopt & Hi & Hafter); [|done|].
  { intros kr Hin. rewrite <- (merge_sort_Permutation (newer_or_same seq_key) live).
    fold (newest_first seq_key live). rewrite Hsplit. apply elem_of_app. by left. }
  destruct (page_rows before rest after w1 Ha1 Hd1 Hsplit Hi Hafter) as (w2 & Ha2 & Hd2 & Hrows).
  destruct (page_of_rows before rest w2 Hsplit) as (data & next & Hdata & Hpage & Hnext).
  assert (ListMessages ctx id limit cursor w = (Ok (mk_Page data next), w2)) as Hlist.
  { unfold ListMessages, mbind, eff_bind. rewrite Hget. cbn. rewrite Hlive. unfold list_messages, mbind, eff_bind.
    rewrite Hopt, Hrows. exact Hpage. }
  cbn [transcript]. unfold mbind, eff_bind. rewrite Hlist. cbn [next_cursor page_data].
  destruct (Nat.ltb_spec limit (length rest)) as [Hmore|Hmore].
  - destruct Hnext as [Hcur' Hne]. destruct next as [cur|]; [|done].
    destruct (IH (before ++ take limit rest) (drop limit rest) (Some cur) w2) as (ms & w3 & Hmore' & Hd3 & Hms);
      [done|done|by rewrite <- app_assoc, take_drop|done|rewrite length_drop; lia|].
    rewrite Hmore'. exists (data ++ ms), w3. split_and!; [done|done|].
    rewrite <- (take_drop limit rest). apply map_result_app. by exists data, ms.
  - subst next. exists (data ++ []), w2. split_and!; [done|done|]. rewrite app_nil_r.
    by rewrite take_ge in Hdata by lia.
Qed.
End Transcript.

(** C25: the transcript is the thread.  While the database answers, a client that reads a live
    thread page by page, whatever the page size, following the opaque cursors it is handed,
    gets every message that is not deleted, exactly once and in the order of the sequence. *)
Theorem transcript_is_the_thread ctx id limit w r n c :
  quiet → active w = None → (0 < limit)%nat →
  select_conversation ctx id (db w) = Some (r, n) → hydrate_conversation id r n = Ok c → is_deleted c = false →
  NoDup (ms_seq ∘ snd <$> live_messages ctx id (db w)) →
  (∀ kr, kr ∈ live_messages ctx id (db w) → int4 (ms_seq kr.2) = true ∧ ∃ m, hydrated kr = Ok m) →
  ∃ ms w', transcript (S (length (live_messages ctx id (db w)))) ctx id limit None w = (Ok ms, w') ∧ db w' = db w ∧
    StronglySorted (λ m m', mg_seq m < mg_seq m') ms ∧ length ms = length (live_messages ctx id (db w)) ∧
    ∀ kr, kr ∈ live_messages ctx id (db w) → ∃ m, hydrated kr = Ok m ∧ m ∈ ms.
Proof.
  intros Hq Ha Hlim Hsel Hh Hlive Hnd Hall.
  pose proof (merge_sort_Permutation (newer_or_same seq_key) (live_messages ctx id (db w))) as Hperm.
  fold (newest_first seq_key (live_messages ctx id (db w))) in Hperm.
  destruct (transcript_suffix Hq ctx id (db w) limit r n c Hsel Hh Hlive Hlim Hnd (λ kr Hin, proj1 (Hall kr Hin))
              (λ kr Hin, proj2 (Hall kr Hin)) (S (length (live_messages ctx id (db w)))) []
              (newest_first seq_key (live_messages ctx id (db w))) None w) as (ms & w' & Hrun & Hd & Hms);
    [done|done|done|done|rewrite Hperm; lia|].
  exists ms, w'. split_and!; [done|done| |by rewrite (map_result_length _ _ _ Hms), Hperm|].
  - pose proof (newest_first_strict seq_key _ (keys_distinct ctx id (db w) Hnd)) as Hs.
    apply map_result_Ok in Hms. unfold strictly_newest_first in Hs. clear -Hs Hms.
    assert (∀ kr m, hydrated kr = Ok m → mg_seq m = ms_seq kr.2) as Hseq.
    { intros [k r] m Hm. unfold hydrated, hydrate_message in Hm. unresult. done. }
    induction Hms as [|kr m l ms Hm Hms IH]; constructor; apply StronglySorted_cons in Hs as [Hx Hs]; [by apply IH|].
    rewrite Forall_forall in Hx. apply Forall_forall. intros m' Hin.
    destruct (proj2 (Forall2_partner _ _ _ Hms) m' Hin) as (kr' & Hin' & Hm').
    specialize (Hx kr' Hin'). rewrite (Hseq _ _ Hm), (Hseq _ _ Hm').
    unfold text_lt, seq_key in Hx. cbn in Hx. unbool. lia.
  - intros kr Hin. rewrite <- Hperm in Hin. apply map_result_Ok in Hms.
    exact (proj1 (Forall2_partner _ _ _ Hms) kr Hin).
Qed.
End Data.
