(* ===== verification/ConversationsDemo.v ===== *)
(** * ConversationsDemo: the conversations module at work *)

From S2P Require Import Prelude Text Calendar Errors Framework Transactions Files Keyset Events Wire Cursor Sessions Conversations ConversationsRace ConversationsApp ConversationsData.

Open Scope Z_scope.

#[local] Existing Instance ascii_unicode.
#[local] Existing Instance ascii_unicode_laws.
#[local] Existing Instance ascii_decimals.
#[local] Instance demo_clock : Env := demo_env 1000.
#[local] Instance demo_clock_laws : EnvLaws demo_clock := demo_env_laws 1000.
#[local] Instance demo_database : Database := {| now_at i := 5000 + Z.of_nat i; fault _ := None |}.

(** One space; every file is in it; one model. *)
#[local] Instance demo_ports : ConversationPorts unit := {|
  get_active _ s v := (Ok (bool_decide (s = txt "sp1")), v);
  get_readable _ f v := (Ok (if bool_decide (f = txt "gone") then None else Some (Some (txt "sp1"))), v);
  list_llm_models _ v := (Ok [txt "fast"], v)
|}.

Definition empty_db : ConversationsDb := mk_ConversationsDb ∅ ∅ ∅.
Definition world (d : ConversationsDb) (n : nat) : DbWorld ConversationsDb unit := mk_DbWorld d tt None 0 0 n n.

(** The first thread is [[0]], its messages [[1]], [[2]], ... in the order they are minted. *)
Definition thread : text := [0].
Definition demo_start : call := Start (Some (txt "sp1")) (txt " Rag_Agent ") AGENT (Some (txt "hello")).
Definition say (s : string) : call := Append thread (txt "user") (txt s) [] None.
Definition demo_calls : list (ExecutionContext * call) :=
  [(demo_ctx, demo_start); (demo_ctx, say "one"); (demo_ctx, say " two "); (demo_ctx, say "  ");
   (demo_ctx, DeleteMessage thread [1]); (demo_ctx, say "three"); (demo_ctx, PinFile thread (txt "f1"))].

Definition demo_world : DbWorld ConversationsDb unit := run_calls demo_calls (world empty_db 0).

Lemma demo_world_eq : demo_world = run_calls demo_calls (world empty_db 0).
Proof. reflexivity. Qed.

Lemma demo_thread : ∃ r, conversations (db demo_world) !! thread = Some r ∧ cr_workspace_id r = workspace_id demo_ctx.
Proof. eexists. split; vm_compute; reflexivity. Qed.

Lemma demo_count : message_count thread (workspace_id demo_ctx) (db demo_world) = 3.
Proof. vm_compute. reflexivity. Qed.

Example requests_refine_the_race_witness :
  (∃ s, rtc step empty_race s ∧ rc_db s = db demo_world) ∧
  seqs thread (workspace_id demo_ctx) (db demo_world) ≡ₚ seqZ 1 3.
Proof.
  pose proof (requests_refine_the_race demo_calls (world empty_db 0) eq_refl eq_refl) as Hp.
  rewrite <- demo_world_eq in Hp. destruct Hp as (s & Hs & Hd & Hall).
  split; [exact (ex_intro _ s (conj Hs Hd))|].
  destruct demo_thread as (r & Hr & Hw). specialize (Hall thread r Hr). rewrite Hw, demo_count in Hall. exact Hall.
Defined.

(** ** Deleted threads *)

Definition deleted_world : DbWorld ConversationsDb unit := run_calls [(demo_ctx, Delete thread)] demo_world.

Example deleted_threads_refuse_witness :
  ∃ r n c, select_conversation demo_ctx thread (db deleted_world) = Some (r, n) ∧
    (∃ w', run_call demo_ctx (say "four") deleted_world = (Err conflict_exn, w') ∧ db w' = db deleted_world) ∧
    (∃ w', run_call demo_ctx (Delete thread) deleted_world = (Ok tt, w')) ∧
    ∃ w', run_call demo_ctx (PurgeSpace (txt "sp1")) deleted_world = (Ok tt, w') ∧
      (conversations (db w') !! thread = Some r ∨ (cr_space_id r = Some (txt "sp1") ∧ conversations (db w') !! thread = None)) ∧
    is_deleted c = true.
Proof.
  assert (∃ r n c, select_conversation demo_ctx thread (db deleted_world) = Some (r, n) ∧
            hydrate_conversation thread r n = Ok c ∧ is_deleted c = true ∧ int4 (cr_version r + 1) = true) as (r & n & c & Hs & Hh & Hd & Hv).
  { eexists _, _, _. split; [vm_compute; reflexivity|]. split; [vm_compute; reflexivity|]. split; vm_compute; reflexivity. }
  assert (active deleted_world = None) as Ha by (vm_compute; reflexivity).
  exists r, n, c. split; [exact Hs|]. split; [|split].
  - destruct (run_call demo_ctx (say "four") deleted_world) as [res w'] eqn:Hr.
    destruct (deleted_threads_refuse demo_ctx thread c _ _ r n res w' Ha Hs Hh Hd Hr) as (Hw & _).
    destruct (Hw eq_refl) as (_ & Hdb & Hres). exists w'. split; [|exact Hdb].
    rewrite Hres; [reflexivity|intros i; reflexivity|vm_compute; reflexivity].
  - destruct (run_call demo_ctx (Delete thread) deleted_world) as [res w'] eqn:Hr.
    destruct (deleted_threads_refuse demo_ctx thread c _ _ r n res w' Ha Hs Hh Hd Hr) as (_ & _ & _ & Hdel & _).
    destruct (Hdel eq_refl) as (_ & Hres). exists w'. rewrite Hres; [reflexivity|intros i; reflexivity|exact Hv].
  - destruct (run_call demo_ctx (PurgeSpace (txt "sp1")) deleted_world) as [res w'] eqn:Hr.
    assert (res = Ok tt) as ->.
    { assert ((run_call demo_ctx (PurgeSpace (txt "sp1")) deleted_world).1 = Ok tt) as Hok by (vm_compute; reflexivity).
      rewrite Hr in Hok. exact Hok. }
    destruct (deleted_threads_refuse demo_ctx thread c _ _ r n _ w' Ha Hs Hh Hd Hr) as (_ & _ & _ & _ & Hp).
    exists w'. split; [reflexivity|]. split; [exact (Hp _ eq_refl)|exact Hd].
Defined.

(** ** Purge, pins, reading back, transcript *)

Example purge_leaves_nothing_witness :
  ∃ n w', PurgeSpaceConversations demo_ctx (txt "sp1") demo_world = (Ok n, w') ∧ n = 1 ∧
    conversations (db w') !! thread = None.
Proof.
  destruct (PurgeSpaceConversations demo_ctx (txt "sp1") demo_world) as [r w'] eqn:Hr.
  destruct (purge_leaves_nothing demo_ctx (txt "sp1") demo_world r w' ltac:(vm_compute; reflexivity) Hr)
    as [[Hbad _]|(Hgone & _ & Hn)].
  - assert (is_ok (PurgeSpaceConversations demo_ctx (txt "sp1") demo_world).1 = true) as Hok by (vm_compute; reflexivity).
    rewrite Hr in Hok. cbn in Hok. congruence.
  - assert ((PurgeSpaceConversations demo_ctx (txt "sp1") demo_world).1 = Ok 1) as Hok by (vm_compute; reflexivity).
    rewrite Hr in Hok. cbn in Hok. subst r. exists 1, w'. split; [reflexivity|]. split; [reflexivity|].
    apply (Hgone thread). vm_compute. reflexivity.
Defined.

Example pins_stay_in_their_space_witness :
  ∃ p w' pr, PinConversationFile demo_ctx thread (txt "f1") demo_world = (Ok p, w') ∧
    conversation_files (db w') !! (thread, txt "f1") = Some pr ∧ p = hydrate_pinned_file (thread, txt "f1") pr.
Proof.
  destruct (PinConversationFile demo_ctx thread (txt "f1") demo_world) as [r w'] eqn:Hr.
  assert (∃ p, r = Ok p) as [p ->].
  { assert (is_ok (PinConversationFile demo_ctx thread (txt "f1") demo_world).1 = true) as Hok by (vm_compute; reflexivity).
    rewrite Hr in Hok. destruct r as [p|e]; [by exists p|discriminate Hok]. }
  destruct (pins_stay_in_their_space demo_ctx thread (txt "f1") demo_world p w' ltac:(vm_compute; reflexivity) Hr)
    as (r & n & c & v & v' & _ & _ & _ & _ & (pr & Hpin & Hp & _) & _).
  exists p, w', pr. split; [reflexivity|]. split; [exact Hpin|exact Hp].
Defined.

Example answers_are_read_back_witness :
  ∃ c events w', RenameConversation demo_ctx thread None demo_world = (Ok (c, events), w') ∧ reads_back demo_ctx c (db w').
Proof.
  destruct (RenameConversation demo_ctx thread None demo_world) as [r w'] eqn:Hr.
  assert (∃ c events, r = Ok (c, events)) as (c & events & ->).
  { assert (is_ok (RenameConversation demo_ctx thread None demo_world).1 = true) as Hok by (vm_compute; reflexivity).
    rewrite Hr in Hok. destruct r as [[c events]|e]; [by exists c, events|discriminate Hok]. }
  exists c, events, w'. split; [reflexivity|].
  exact (proj1 (proj2 (answers_are_read_back demo_ctx thread demo_world w' ltac:(vm_compute; reflexivity))) None c events Hr).
Defined.

Lemma demo_live :
  (∃ r n c, select_conversation demo_ctx thread (db demo_world) = Some (r, n) ∧
     hydrate_conversation thread r n = Ok c ∧ is_deleted c = false) ∧
  length (live_messages demo_ctx thread (db demo_world)) = 2%nat ∧
  NoDup (ms_seq ∘ snd <$> live_messages demo_ctx thread (db demo_world)).
Proof.
  split; [eexists _, _, _; split; [vm_compute; reflexivity|split; vm_compute; reflexivity]|].
  split; [vm_compute; reflexivity|]. apply (bool_decide_unpack _). vm_compute. exact I.
Qed.

Lemma demo_live_messages kr : kr ∈ live_messages demo_ctx thread (db demo_world) →
  int4 (ms_seq kr.2) = true ∧ ∃ m, hydrated kr = Ok m.
Proof.
  assert (forallb (λ kr, int4 (ms_seq kr.2) && is_ok (hydrated kr)) (live_messages demo_ctx thread (db demo_world)) = true)
    as Hall by (vm_compute; reflexivity).
  intros Hin%list_elem_of_In. rewrite forallb_forall in Hall. apply Hall in Hin as [Hi Hok]%andb_true_iff.
  split; [exact Hi|]. destruct (hydrated kr) as [m|e]; [by exists m|discriminate Hok].
Qed.

Lemma demo_transcript :
  match (transcript 3 demo_ctx thread 1 None demo_world).1 with Ok ms => mg_seq <$> ms | Err _ => [] end = [2; 3].
Proof. vm_compute. reflexivity. Qed.

(** Two messages are left of three, read one at a time. *)
Example transcript_is_the_thread_witness :
  ∃ ms w', transcript 3 demo_ctx thread 1 None demo_world = (Ok ms, w') ∧ mg_seq <$> ms = [2; 3] ∧
    StronglySorted (λ m m', mg_seq m < mg_seq m') ms.
Proof.
  destruct demo_live as ((r & n & c & Hs & Hh & Hd) & Hlen & Hnd).
  assert (active demo_world = None) as Ha by (vm_compute; reflexivity).
  pose proof (transcript_is_the_thread demo_ctx thread 1 demo_world r n c (λ i, eq_refl) Ha ltac:(lia) Hs Hh Hd Hnd
                demo_live_messages) as (ms & w' & Hrun & _ & Hsorted & _).
  rewrite Hlen in Hrun. pose proof demo_transcript as Hc. rewrite Hrun in Hc.
  exists ms, w'. split; [exact Hrun|]. split; [exact Hc|exact Hsorted].
Defined.

(** ** Races *)

Definition race_thread : Conversation :=
  mk_Conversation thread (workspace_id demo_ctx) (Some (txt "sp1")) (txt "rag_agent") AGENT None None 1 1 None 1 0 None [].
Definition race_message (id : text) (count : Z) : Message :=
  mk_Message id thread (workspace_id demo_ctx) USER (mk_MessageContent (txt "hi") []) None (count + 1) 2 None.

Definition started_db : ConversationsDb :=
  match insert_conversation demo_ctx race_thread empty_db with Ok (_, d) => d | Err _ => empty_db end.
Definition appended_db : ConversationsDb :=
  match append_transaction demo_ctx (race_message [1] 0) 3 started_db with Ok (_, d) => d | Err _ => empty_db end.

Lemma race_started : rtc step empty_race (mk_Race started_db [race_thread] [thread]).
Proof.
  eapply rtc_l; [eapply (step_start demo_ctx race_thread tt); [apply not_elem_of_nil|vm_compute; reflexivity]|].
  eapply rtc_l; [|apply rtc_refl].
  apply (step_read demo_ctx thread (conversation_row race_thread) 0 race_thread); vm_compute; reflexivity.
Qed.

Lemma race_appended : rtc step empty_race (mk_Race appended_db [race_thread] [thread]).
Proof.
  eapply rtc_r; [apply race_started|].
  eapply (step_append demo_ctx race_thread [1] USER (mk_MessageContent (txt "hi") []) None 2 (race_message [1] 0) 3);
    [apply list_elem_of_here|reflexivity|vm_compute; reflexivity].
Qed.

(** Two requests read the thread when it was empty; the second to append is refused. *)
Example sequence_numbers_have_no_gaps_witness :
  seqs thread (workspace_id demo_ctx) appended_db ≡ₚ seqZ 1 1 ∧
  append_transaction demo_ctx (race_message [2] 0) 4 appended_db = Err unique_violation.
Proof.
  destruct (sequence_numbers_have_no_gaps _ race_appended) as [Hseqs Hlate].
  assert (∃ r, conversations appended_db !! thread = Some r ∧ cr_workspace_id r = workspace_id demo_ctx) as (r & Hr & Hw)
    by (eexists; split; vm_compute; reflexivity).
  assert (message_count thread (workspace_id demo_ctx) appended_db = 1) as Hc by (vm_compute; reflexivity).
  split.
  - specialize (Hseqs thread r Hr). cbn [rc_db] in Hseqs. rewrite Hw, Hc in Hseqs. exact Hseqs.
  - specialize (Hlate demo_ctx race_thread [2] USER (mk_MessageContent (txt "hi") []) None 2 (race_message [2] 0) 4 r
      ltac:(apply list_elem_of_here) eq_refl Hr). cbn [rc_db cv_id race_thread] in Hlate. rewrite Hw, Hc in Hlate.
    destruct (append_transaction demo_ctx (race_message [2] 0) 4 appended_db) as [[a d']|f] eqn:Htx.
    + destruct Hlate as [Hbad _]. cbn in Hbad. discriminate Hbad.
    + rewrite Hlate; [reflexivity|cbn; lia|vm_compute; reflexivity..].
Defined.

(** A rename computed before the append has lost the race for the version. *)
Definition renamed_thread : Conversation :=
  mk_Conversation thread (workspace_id demo_ctx) (Some (txt "sp1")) (txt "rag_agent") AGENT (Some (txt "new")) None 1 2 None 1 0 None [].

Example stale_saves_lose_nothing_witness :
  (∃ a d', update_conversation demo_ctx renamed_thread 3 started_db = Ok (Some a, d') ∧
     ∃ r, conversations started_db !! thread = Some r ∧
       conversations d' !! thread = Some (mutate_row (Rename (Some (txt "new"))) 2 3 r)) ∧
  update_conversation demo_ctx renamed_thread 3 appended_db = Ok (None, appended_db).
Proof.
  destruct (update_conversation demo_ctx renamed_thread 3 started_db) as [[[a|] d']|f] eqn:Hu; [|discriminate Hu..].
  split; [|vm_compute; reflexivity]. exists a, d'. split; [reflexivity|].
  assert (step (mk_Race started_db [race_thread] [thread]) (mk_Race d' [race_thread] [thread])) as Hstep.
  { eapply (step_save demo_ctx race_thread (Rename (Some (txt "new"))) renamed_thread 2 3);
      [apply list_elem_of_here|reflexivity|exact Hu]. }
  destruct (proj1 (stale_saves_lose_nothing _ _ race_started Hstep) demo_ctx race_thread (Rename (Some (txt "new"))) 2 3
              renamed_thread a d' ltac:(apply list_elem_of_here) eq_refl Hu) as (r & Hr & _ & ->).
  exists r. split; [exact Hr|]. cbn [with_conversations conversations]. apply lookup_insert_eq.
Defined.

(** ** What the code lets through *)

(** The append does not look at the thread again: a message computed before a deletion is
    appended to the deleted thread. *)
Definition deleted_db : ConversationsDb :=
  match update_conversation demo_ctx (soft_delete 2 race_thread) 3 started_db with Ok (_, d) => d | Err _ => empty_db end.

Example append_lands_on_a_deleted_thread :
  (cr_deleted_at <$> conversations deleted_db !! thread) = Some (Some 2) ∧
  match append_transaction demo_ctx (race_message [1] 0) 4 deleted_db with
  | Ok (Some v, d') => v = 3 ∧ message_count thread (workspace_id demo_ctx) d' = 1 ∧
                       (cr_deleted_at <$> conversations d' !! thread) = Some (Some 2)
  | _ => False
  end.
Proof. vm_compute. auto. Qed.

(** An append that finds its space purged meets the foreign key: an internal error, not the
    conflict the method has a branch for. *)
Example append_after_a_purge_is_internal :
  append_transaction demo_ctx (race_message [1] 0) 4 empty_db = Err foreign_key_violation ∧
  translated translate_unique foreign_key_violation = internal_exn.
Proof. split; vm_compute; reflexivity. Qed.
